(* ===== verification/_CoqProject ===== *)
-Q . S2P
Prelude.v
PyValue.v
FilterModel.v
FilterModelFacts.v
FilterAst.v
FilterAstFacts.v
FilterPython.v
FilterPythonFacts.v
FilterSplit.v
FilterSplitFacts.v
FilterChronicle.v
FilterExecute.v
FilterExecuteFacts.v
RecallCache.v
RecallCacheFacts.v
Acl.v
HookMatch.v
HookMatchFacts.v
ReplaceMirror.v
ReplaceMirrorFacts.v
ReplaceDocument.v
ReplaceDocumentFacts.v
ForgetCascade.v
ForgetCascadeFacts.v
ForgetFaults.v
PyText.v
Chunkers.v
ChunkersFacts.v
Conversation.v
ConversationFacts.v
RankFusion.v
RankFusionFacts.v
Scoring.v
FuseFacts.v
ScoringFacts.v
DocumentScan.v
DocumentScanFacts.v
DocumentStores.v
HookDispatch.v
HookDispatchFacts.v
HookTraces.v
FilterTarget.v
FilterTargetFacts.v
FilterSqlite.v
FilterSqliteFacts.v
FilterSqliteExact.v
FilterSqliteAnswer.v
FilterSqliteSamples.v
DreamMirror.v
DreamMirrorFacts.v
DreamMergeFacts.v
DreamRunStore.v
DreamRun.v
DreamHandlers.v
DreamRunFacts.v
DreamClean.v
DreamResume.v
DreamTraces.v
UnionFind.v
Entities.v
EntityIndex.v
EntityIndexFacts.v
Unify.v
UnifyFacts.v
UnifyMerge.v
UnifyAccount.v
UnifyIndex.v
UnifySamples.v
Infer.v
InferFacts.v
InferSound.v
Expander.v
ExpanderFacts.v
HookLlm.v
HookLlmFacts.v
HookLlmRuns.v
HookLlmBudget.v
DreamReconcile.v
DreamReconcileFacts.v
DreamReconcileRuns.v
