(* ===== verification/Prelude.v ===== *)
(** * Khora: a verification library

    Khora is a memory service: documents are ingested into a relational store, a vector
    store and a graph; a recall retrieves chunks, entities and relationships, optionally
    under a structured filter.  This library models the parts of it that decide what a
    caller is served and what survives a failure, and proves them correct.  Paths below
    are under [src/src/khora/].

    ** Files

    - [Prelude.v] (this file): Python's exceptions, the error monad, string-keyed dicts,
      stable sorting, the tactics and the lemmas the components share.
    - [PyValue.v]: the dynamic values the program handles - JSON values, datetimes,
      tuples - with Python's equality, ordering and UTC conversion.
    - [FilterModel.v], [FilterModelFacts.v]: [filter/model.py], the filter document: its
      depth guard, the folding of dotted keys, the metadata grammar.
    - [FilterAst.v], [FilterAstFacts.v]: [filter/ast.py], lowering to an AST, the canonical
      form, the canonical hash.
    - [FilterPython.v], [FilterPythonFacts.v]: [filter/compilers/python.py], the in-memory
      predicate of a filter, which the other compilers are measured against.
    - [FilterSplit.v], [FilterSplitFacts.v]: [filter/compilers/_split.py], the part of a filter
      that a backend takes over and the part that is deferred.
    - [FilterChronicle.v]: [filter/compilers/chronicle.py], the date window of a filter.
    - [FilterTarget.v], [FilterTargetFacts.v]: what the compilers that emit a query text
      share - the tree of conditions, its rendering and three-valued value, the compile pass
      with its binds, the walk over logical nodes - and how what holds of the leaves carries
      over to the whole.
    - [FilterSqlite.v]: [filter/compilers/lance.py], SQL fragments for the embedded chunk
      store, its use in [storage/temporal/sqlite_lance.py], and the value of a fragment on a
      row; [FilterSqliteFacts.v], binds and text; [FilterSqliteExact.v], each leaf against the
      in-memory predicate; [FilterSqliteAnswer.v], whole statements; [FilterSqliteSamples.v],
      a concrete table, the fragments of some filters, and where the two differ.
    - [FilterExecute.v], [FilterExecuteFacts.v]: [filter/execute.py], [filter/provenance.py] and
      [filter/report.py], where engines compile, apply and report a filter.
    - [RecallCache.v], [RecallCacheFacts.v]: [engines/vectorcypher/recall_cache.py] and the
      recall and write paths around it, as a transition system.
    - [Acl.v]: [acl/checker.py] and [acl/enforcer.py].
    - [HookMatch.v], [HookMatchFacts.v]: [hooks/match_dsl.py].
    - [ReplaceMirror.v], [ReplaceMirrorFacts.v]: [storage/replace_mirror.py], the graph plan of
      a document replacement, its persisted payload and the replay; the label sanitizer of
      [storage/backends/mixins.py].
    - [ReplaceDocument.v], [ReplaceDocumentFacts.v]: [replace_document_extraction] and
      [reconcile_replace_graph_mirror] of [storage/coordinator.py], with the plan's objects,
      which the upsert and the create write to in place.
    - [ForgetCascade.v], [ForgetCascadeFacts.v], [ForgetFaults.v]: [engines/_forget_cascade.py]
      over the stores it drives ([storage/backends/pgvector.py], [neo4j.py], [mixins.py],
      [sqlite_lance/graph.py]), without and with failing calls.
    - [PyText.v]: text as code points, and the string operations of the chunkers.
    - [Chunkers.v], [ChunkersFacts.v]: [extraction/chunkers/], [base.py], [fixed.py],
      [recursive.py] and [semantic.py].
    - [Conversation.v], [ConversationFacts.v]: [extraction/chunkers/conversation.py].
    - [RankFusion.v], [RankFusionFacts.v]: [engines/vectorcypher/fusion.py], and the rerank
      window of [engines/vectorcypher/retriever.py].
    - [Scoring.v], [FuseFacts.v], [ScoringFacts.v]: [_fuse_results] and [_score_and_rank] of
      [engines/vectorcypher/retriever.py], with [query/fusion.py], the rerankers of
      [query/reranking.py] and the diversity selection of [_accel.py].
    - [DocumentScan.v], [DocumentScanFacts.v], [DocumentStores.v]: the enumeration of a
      namespace's documents, [Khora.list_documents] down to the keyset statements of
      [storage/backends/] ([_documents_scan.py], [postgresql.py], [sqlite_lance], [sqlite.py],
      [surrealdb]): the definitions, the contract a store promises the page loop with what
      follows from it, and the stores that keep it.
    - [HookDispatch.v], [HookDispatchFacts.v], [HookTraces.v]: [hooks/dispatcher.py],
      [hooks/subscription_store.py] and [hooks/embedding_filter.py]: the operations, what one
      dispatch does, and histories of operations.
    - [HookLlm.v], [HookLlmFacts.v]: [hooks/llm_evaluator.py], the evaluator of the last filter
      level: its queue, batches, budgets and cache as steps that interleave; [HookLlmRuns.v],
      the invariant of its runs and who is answered what; [HookLlmBudget.v], what is
      spent, and concrete runs.
    - [DreamMirror.v], [DreamMirrorFacts.v], [DreamMergeFacts.v]: the two stores of the dream
      phase: the prune and dedupe handlers of [dream/engines/vectorcypher/], the translation
      of their undo records into the graph ([dream/graph_mirror.py]) and the graph verbs of
      [storage/backends/neo4j.py]; what a mirror does to the graph, and that it keeps the
      graph in step with a merge.
    - [DreamRunStore.v]: [dream/runstore.py], the run table and its queue of owed mirrors.
    - [DreamRun.v]: [dream/orchestrator.py], with [dream/engines/registry.py] and
      [dream/safety.py]: a run from its first row to its result, over a world whose stores
      fail and whose process dies on a schedule.
    - [DreamHandlers.v]: what handlers promise the orchestrator; [DreamRunFacts.v], Hoare
      rules for runs and the invariant every step keeps; [DreamClean.v], undisturbed runs;
      [DreamResume.v], interrupted and resumed ones; [DreamTraces.v], the properties of a
      run and concrete histories.
    - [UnionFind.v]: the union-find of [extraction/expansion/cross_tool_unifier.py], its groups,
      and the depth of its recursion.
    - [Entities.v]: [core/models/entity.py], entities, relationships and the merging of one
      entity into another; the class [TextOps] of string operations.
    - [EntityIndex.v], [EntityIndexFacts.v]: [extraction/expansion/entity_index.py] and the name
      normalisation of [_accel.py].
    - [Unify.v]: a run of [extraction/expansion/cross_tool_unifier.py]; [UnifyFacts.v], which
      pairs match and how they form groups; [UnifyMerge.v], the loop over the groups;
      [UnifyAccount.v], what becomes of every entity and relationship; [UnifyIndex.v], runs
      through an index; [UnifySamples.v], concrete runs.
    - [Infer.v]: [extraction/expansion/rule_engine.py] and [relationship_inferrer.py];
      [InferFacts.v], rule contexts, chains and the loops of the engine; [InferSound.v], the
      properties of an inference.
    - [Expander.v], [ExpanderFacts.v]: [extraction/expansion/expander.py] and what the flows of
      [pipelines/flows/expansion.py] write back, with concrete inferences and expansions.
    - [DreamReconcile.v]: [dream/engines/vectorcypher/contradiction_detect.py] and
      [contradiction_reconcile.py], the detection of contradictory relationships, their two
      judges, the handler that retires a loser and the triage table it fills;
      [DreamReconcileFacts.v], what is flagged, retired and recorded;
      [DreamReconcileRuns.v], the handler in a dream run and concrete plans.

    ** How the parts interact

    A filter document is validated (FilterModel), lowered and normalised (FilterAst).  A
    backend compiler asks the split gate (FilterSplit) what it may take; the Chronicle
    engine pushes a date window (FilterChronicle) and applies the in-memory predicate
    (FilterPython) to what comes back; graph items are filtered through their provenance
    chunks, and the report says which leaf was enforced where (FilterExecute).  The embedded
    chunk store runs the SQL fragment of a filter and re-checks the rows it returns with
    the in-memory predicate (FilterSqlite).  The recall
    cache keys its entries on the canonical hash of the AST.  A replacement commits the
    relational side, mirrors its plan to the graph, and queues the plan when the graph
    fails; the reconciler replays it.  Forgetting a document deletes or strips what was
    extracted from it in both stores.

    A document's text is cut into chunks (Chunkers, Conversation).  A recall gets ranked
    chunks from three channels, fuses them (RankFusion), then boosts, reranks, decays and
    diversifies the fused list (Scoring).

    The documents of a namespace are listed page by page: the facade checks the request,
    the coordinator repeats bounded scan steps of a store and applies the in-memory
    predicate (FilterPython) to what a store did not filter (DocumentScan).  A write emits
    events; the dispatcher gates each through the namespace scope, the type filter with
    its patterns (HookMatch) and the embeddings, then calls back in process and delivers
    to durable subscriptions (HookDispatch).  Where it is switched on, a model has the last
    word on an event: the evaluator collects questions into batches, charges their tokens
    to the namespace and the subscription, and answers yes when there is any trouble
    (HookLlm).

    A dream run plans operations on a namespace and applies them one by one: a handler
    changes the relational store in a transaction that also advances the run's checkpoint
    and queues the mirror (DreamRunStore), then the orchestrator translates the handler's
    undo record into graph calls and clears the queue (DreamRun over DreamMirror); the next
    run first drains what is still queued.  One of the handlers retires contradictory
    relationships: the planner flags pairs of live ones between the same entities, two
    models judge each pair, and the loser they agree on is soft-deleted while a triage table
    records every finding (DreamReconcile).

    Semantic expansion takes the entities and relationships of a namespace: unification
    matches them by correlation fields, names, embeddings and similar names, joins the
    matches (UnionFind), merges each group into its most confident entity and moves the
    relationships (Unify), with candidates from an index when it is given one (EntityIndex);
    inference then walks the conditions of each rule along the graph and adds what the
    rule concludes, pass by pass (Infer); the expander runs the one after the other, and
    its flows write survivors and inferred relationships back (Expander).

    The class [ScanBackend] with its laws [LawfulScan] is what the page loop needs of a
    store: its theorems are proved from the laws, and each store family is an instance.
    [KeyOrder] is a strict total order on scan keys, [Registered] a subscription that
    has an id and an event type.  [Tombstones] says that a handler records every row it
    soft-deletes, [Mirrored] that the mirror of what it records keeps the stores in
    agreement: the theorems on runs hold for any handlers with these instances, and the
    prune, dedupe and contradiction handlers have them.

    ** Modelling conventions

    Python code that may raise returns [result]: [Ok] of a value or [Err] of an exception.
    A value is a [value] of PyValue; operations on ill-typed values raise as Python's do.
    A [str] is its UTF-8 bytes; where the code counts or matches characters, [utf8_chars]
    splits it.  Dicts are association lists in insertion order where order is observable,
    [gmap]s where it is not.  UUIDs are integers.  What is not in the repository - or is a
    standard-library codec - is an argument of the definitions that use it: text forms of
    UUIDs and datetimes, [repr], hashing, the graph and the database.  Where a theorem
    needs their documented behaviour (a digest without collisions, text forms that parse
    back, ISO renderings of UTC datetimes that order as the datetimes) it is a named
    hypothesis with a concrete instance in the witness.  Of SQLite, how [json_type],
    [json_extract] and [json_each] find a node and how [json] prints one is the class
    [Json1]; comparison, NULL and the gates are definitions.

    Floats of the ranking code are IEEE doubles, computed with the Standard Library's
    executable specification ([SpecFloat]), sums compensated as the interpreter's are;
    sorting by a float is meant for keys without a NaN.  A model's scores and the
    accelerated vector routines are arguments.  Stores that fail do so on a schedule, so
    that a theorem over all schedules covers every interruption.  In a dream run a
    transaction or a graph call may also take effect while its answer is lost, and the
    process may die before any of them.

    Recursion is structural except in these places: the depth guard's work list takes fuel,
    and its theorem shows that the number of nodes of the document is enough; paging
    takes the length of the list, and [pages_concat] shows that the pages are the list; the
    loops of the chunkers over windows take fuel, [fixed_chunk_terminates] shows that the
    number of tokens is enough and [char_fallback_diverges] exhibits a text on which no
    fuel is; the batches of the LLM reranker take the length of the list
    ([batches_concat]).  The [depth] of the union-find is the number of
    nested calls the interpreter allows: as many as there are entities are enough
    ([unify_accounts]), and [same_names_too_deep] shows a run that fails with fewer.  The
    passes of an inference are bounded by its depth argument, and beyond a bound more
    passes change nothing ([inference_saturates]).  The page loop of a document scan takes one turn more than its row
    budget, since each turn reads a row or is the last; a walk over the pages takes one
    page per row of the table and one more ([keyset_walk_terminates]), or per row that ever
    was in it ([keyset_walk_exactly_once]).  The LLM evaluator has no
    loop that needs fuel: its runs are lists of steps, and [no_caller_stranded] bounds how
    many it can take before everyone is answered.

    ** What the theorems show

    - Filters: normalisation is canonical, keeps the leaves and the meaning; an accepted
      document parses, apart from one shape that is shown to raise; the canonical hash
      ignores sibling order and its tagged tuples cannot be forged by data; the depth
      guard is exact; each negated operator is the complement of its positive form; when the
      predicate cannot raise, and inputs on which it does.
    - Pushdown: the memoised split equals its plain recursion; the pushed slice keeps every
      record the filter keeps; a path is reported deferred as soon as one of its
      occurrences is; the date window contains every kept record; the provenance filter
      refines its existential specification and fails closed; the report is a partition.
    - SQL pushdown: on rows that store their records and leaf shapes that SQLite and Python
      read alike, a fragment keeps every row of the
      filter's answer and re-checking its rows gives the answer; a fragment of which nothing
      is deferred needs no re-check; a fragment is true or false on every row, never
      unknown; its placeholders are its binds in order, and no value or metadata key of
      the caller reaches its text; the node shapes on which it does differ.
    - Recall cache: no stale answer in any interleaving in which epochs only move forward;
      bounds on memory; store/lookup round trip with expiry; and two traces on which an
      epoch is reset and a stale answer is served.
    - Access control: a check is exactly an unrevoked grant of sufficient level.
    - Hook patterns: what a wildcard accepts, what a pattern means, when evaluation raises.
    - Replacement: the plan partitions the old extraction; the three outcomes of a
      replacement and the state each leaves, the queued payload being that of the plan as
      the graph phase left its objects; replay of a payload is the graph phase it
      stands for; draining recovers; labels are safe to interpolate; relationships extracted
      with fresh ids are never recognised.
    - Forgetting: an uninterrupted cascade over tables that one listing covers leaves no live
      row citing the document, deletes the rows it alone sources, once, and touches no other; an entity another document
      sources survives any failure; four runs that leave residues or lose a shared row.
    - Chunking: the fixed windows terminate and cover the tokens; the recursive and the
      semantic chunker keep the text; each message of a conversation is rendered once, at
      the offsets its metadata states; two configurations that break their promise.
    - Ranking: each fuser returns every id of its channels once; the best-rank union shows
      the head of every channel first, and the rerank window keeps it whatever the boosts
      did; the whole pipeline only rescores and reorders; two inputs it mishandles.
    - Enumeration: a walk over the pages ends, and returns each document that stays, matches
      and passes what the store filters itself exactly once, newest first, while the table
      changes under it; a page keeps
      its limit and its budget; the two statements of SurrealDB are one window; offset
      and keyset paging agree; what the facade refuses.
    - Hooks: the tables stay consistent over any history; a scoped subscription is served
      events of its own tenant only, across re-versionings of the namespace, and a stale
      cache entry heals; what a restart keeps; three behaviours that lose or misdirect
      events.
    - LLM evaluation: in any interleaving of callers, flushes, batches and cancellations no
      caller is left waiting, whatever the model does; a caller hears no only if the model
      said so of a filter and a summary that are the caller's; an hour costs a namespace at
      most twice its cap; runs in which it costs more than the cap, in which two events
      share an answer, and in which a malformed answer counts as yes.
    - Dream runs: whatever fails or dies, a soft-deleted row is out of the graph's view or
      its removal is queued; an undisturbed drain empties the queue; an undisturbed run
      leaves both stores showing the same live rows; however often a run whose operations
      cannot be skipped is interrupted, cancelled and resumed, each operation is applied once
      and in order; the persisted form of a mirror
      replays to the same calls, and a replay absorbs an interrupted one; histories in which
      a stale mirror overwrites a newer one and in which the bookkeeping loses work.
    - Contradictions: the detector flags exactly the pairs of live relationships of one key
      whose texts or properties disagree, each once; a relationship is retired exactly when
      both judges name it, grounded in its sources and confident enough; every finding is
      triaged; a planned operation applies whatever the models answer; verdicts that run in
      a circle retire every record of a fact, and one silent judge defers.
    - Expansion: the entities of a unification run fall into the classes of the least
      equivalence containing the matched pairs, each with one survivor that has the
      documents and mentions of all; relationships follow their endpoints; a blocked search
      proposes only pairs that the exhaustive one does, and the index answers with the first
      entity of a name; a rule matches exactly the chains of its conditions, and what is
      inferred is new, grounded in a chain, bounded per rule and saturates; cross references
      name absorbed entities; runs that exhaust the recursion limit, that fail in a log
      message, or that take one relationship for two.

    ** Not modelled

    The compilers that emit queries for databases other than SQLite, the engines' searches and graph expansion,
    LLM extraction and evaluation, the storage backends (apart from what the forget cascade,
    the replacement, the document scans and the dream mirror call) and their schema, and
    configuration, telemetry and integrations.  Of the hooks, the text of the evaluator's
    prompt and the concurrency inside one dispatch.  Of the dream phase, the
    planners and handlers other than prune, dedupe and those of contradictions, the
    completion API and the validation of a verdict, the advisory lock, the
    SurrealDB-native path, the report sinks other than the undo file.  Of the expansion,
    correlation patterns (regular expressions), co-occurrence inference, incremental
    updates of a rule context, and the accelerated text and vector routines, of which the
    Python text is modelled or an argument taken.  Metrics and log messages are left out of
    the modelled functions, except one that raises.  The natural next steps: the undo of
    dream runs, the compiler registry, entity
    resolution at ingestion, and the other query-emitting compilers over FilterTarget. *)
From stdpp Require Export base gmap strings list sorting.
From Stdlib Require Export ZArith Lia.

#[export] Set Default Goal Selector "!".

(** ** Python exceptions and the error monad *)

(** The exceptions the modelled code raises, or that the Python operations it
    performs raise.  [ValidationError] is [RecallFilterValidationError] with the
    path and the reason code of its only [FieldError]; [UnsupportedError] is
    [RecallFilterUnsupportedError]. *)
Inductive pyexn :=
| ValidationError (path code : string)
| UnsupportedError (path reason : string)
| TypeError
| AttributeError
| IndexError
| KeyError
| ValueError
| OverflowError
| AssertionError
| OtherError (name : string).

#[export] Instance pyexn_eq_dec : EqDecision pyexn.
Proof. solve_decision. Defined.

(** The outcome of running a piece of Python: a value or a raised exception. *)
Inductive result (A : Type) :=
| Ok (a : A)
| Err (e : pyexn).
Arguments Ok {A} a.
Arguments Err {A} e.

#[export] Instance result_eq_dec {A} `{EqDecision A} : EqDecision (result A).
Proof. solve_decision. Defined.

#[export] Instance result_ret : MRet result := fun A => @Ok A.
#[export] Instance result_bind : MBind result :=
  fun A B f m => match m with Ok a => f a | Err e => Err e end.
#[export] Instance result_fmap : FMap result :=
  fun A B f m => match m with Ok a => Ok (f a) | Err e => Err e end.

Section control.
Context {A : Type}.

(** [all(f(x) for x in l)] and [any(f(x) for x in l)]: left to right, stopping at
    the first decisive element, so a later element that raises is not reached. *)
Definition all_m (f : A -> result bool) : list A -> result bool :=
  fix all_m l :=
    match l with
    | [] => Ok true
    | x :: l' =>
        match f x with
        | Ok true => all_m l'
        | Ok false => Ok false
        | Err e => Err e
        end
    end.

Definition any_m (f : A -> result bool) : list A -> result bool :=
  fix any_m l :=
    match l with
    | [] => Ok false
    | x :: l' =>
        match f x with
        | Ok true => Ok true
        | Ok false => any_m l'
        | Err e => Err e
        end
    end.

(** [[f(x) for x in l]] where [f] may raise. *)
Definition map_m {B} (f : A -> result B) : list A -> result (list B) :=
  fix map_m l :=
    match l with
    | [] => Ok []
    | x :: l' =>
        match f x with
        | Ok y => match map_m l' with Ok ys => Ok (y :: ys) | Err e => Err e end
        | Err e => Err e
        end
    end.

(** [for x in l: f(x)] for a check that may raise. *)
Definition iter_m (f : A -> result unit) : list A -> result unit :=
  fix iter_m l :=
    match l with
    | [] => Ok ()
    | x :: l' => match f x with Ok _ => iter_m l' | Err e => Err e end
    end.
End control.

(** [for x in l: out.extend(f(x))]. *)
Definition extend_m {A B} (f : A -> result (list B)) (l : list A) : result (list B) :=
  match map_m f l with Ok ls => Ok (List.concat ls) | Err e => Err e end.

(** [not x] on an outcome. *)
Definition neg_m (b : result bool) : result bool :=
  match b with Ok b => Ok (negb b) | Err e => Err e end.

(** Truth of an outcome: it is a value and the value is [True]. *)
Definition holds (b : result bool) : Prop := b = Ok true.

Definition is_ok {A} (m : result A) : bool :=
  match m with Ok _ => true | Err _ => false end.

(** ** Association lists: Python dicts with string keys, in insertion order *)

Fixpoint dict_get {B} (k : string) (d : list (string * B)) : option B :=
  match d with
  | [] => None
  | (k', v) :: d' => if String.eqb k k' then Some v else dict_get k d'
  end.

Definition keys {B} (d : list (string * B)) : list string := fst <$> d.

Definition mem_str (s : string) (l : list string) : bool := existsb (String.eqb s) l.

(** [d[k] = v]: in place when the key is present, at the end otherwise. *)
Fixpoint dict_set {B} (k : string) (v : B) (d : list (string * B)) : list (string * B) :=
  match d with
  | [] => [(k, v)]
  | (k', v') :: d' =>
      if String.eqb k k' then (k', v) :: d' else (k', v') :: dict_set k v d'
  end.

(** [sep.join(l)] *)
Fixpoint str_join (sep : string) (l : list string) : string :=
  match l with
  | [] => ""%string
  | [x] => x
  | x :: l' => (x +:+ sep +:+ str_join sep l')%string
  end.

(** [s.split(c)] for a one-character separator. *)
Fixpoint split_on (c : Ascii.ascii) (s : string) : list string :=
  match s with
  | EmptyString => [""%string]
  | String a s' =>
      if Ascii.eqb a c then ""%string :: split_on c s'
      else match split_on c s' with
           | [] => [String a ""]
           | x :: l => String a x :: l
           end
  end.

Definition dot : Ascii.ascii := Ascii.ascii_of_nat 46.

(** ** Stable sort by a string key (Python's [sorted(l, key=f)]) *)

Section stable_sort.
Context {A : Type} (key : A -> string).

Fixpoint insert_by (x : A) (l : list A) : list A :=
  match l with
  | [] => [x]
  | y :: l' => if String.leb (key x) (key y) then x :: l else y :: insert_by x l'
  end.

Fixpoint sort_by (l : list A) : list A :=
  match l with
  | [] => []
  | x :: l' => insert_by x (sort_by l')
  end.
End stable_sort.

(** ** Tactics *)

(** Split on the scrutinee of some match in the goal. *)
Ltac split_match :=
  match goal with
  | |- context [ match ?x with _ => _ end ] => destruct x eqn:?
  end.

(** Split on the scrutinee of some match in hypothesis [H]. *)
Ltac split_match_in H :=
  match type of H with
  | context [ match ?x with _ => _ end ] => destruct x eqn:?
  end.

(** Case analysis on every outcome a goal branches on, closing easy branches. *)
Ltac crush_matches :=
  repeat (split_match; simplify_eq/=; try done).

Create HintDb khora.

(** ** Generic lemmas *)

Lemma all_m_app {A} (f : A -> result bool) l1 l2 :
  all_m f (l1 ++ l2) =
  match all_m f l1 with Ok true => all_m f l2 | r => r end.
Proof. induction l1 as [|x l1 IH]; simpl; [done|]. rewrite IH. crush_matches. Qed.

Lemma any_m_app {A} (f : A -> result bool) l1 l2 :
  any_m f (l1 ++ l2) =
  match any_m f l1 with Ok false => any_m f l2 | r => r end.
Proof. induction l1 as [|x l1 IH]; simpl; [done|]. rewrite IH. crush_matches. Qed.

Lemma all_m_ext {A} (f g : A -> result bool) l :
  Forall (fun x => f x = g x) l -> all_m f l = all_m g l.
Proof. induction 1 as [|x l Hx _ IH]; simpl; [done|]. by rewrite Hx, IH. Qed.

Lemma any_m_ext {A} (f g : A -> result bool) l :
  Forall (fun x => f x = g x) l -> any_m f l = any_m g l.
Proof. induction 1 as [|x l Hx _ IH]; simpl; [done|]. by rewrite Hx, IH. Qed.

Lemma all_m_true {A} (f : A -> result bool) l :
  all_m f l = Ok true <-> Forall (fun x => f x = Ok true) l.
Proof.
  induction l as [|x l IH]; simpl; [by split|].
  rewrite Forall_cons. destruct (f x) as [b|]; [destruct b|]; naive_solver.
Qed.

Lemma any_m_pure {A} (f : A -> bool) l : any_m (fun x => Ok (f x)) l = Ok (existsb f l).
Proof. induction l as [|x l IH]; simpl; [done|]. by destruct (f x). Qed.

Lemma all_m_map {A B} (g : A -> B) (f : B -> result bool) l :
  all_m f (g <$> l) = all_m (fun x => f (g x)) l.
Proof. induction l as [|x l IH]; csimpl; [done|]. by rewrite IH. Qed.

Lemma map_m_ok {A B} (f : A -> result B) l ys :
  map_m f l = Ok ys <-> Forall2 (fun x y => f x = Ok y) l ys.
Proof.
  revert ys. induction l as [|x l IH]; intros ys; simpl.
  - split; [by intros [= <-]|by inversion 1].
  - destruct (f x) as [y|] eqn:Hx.
    + destruct (map_m f l) as [ys'|] eqn:Hl; split.
      * intros [= <-]. constructor; [done|]. by apply IH.
      * inversion 1; simplify_eq. f_equal. f_equal; [congruence|].
        cut (Ok (A := list B) ys' = Ok l'); [by intros [= ->]|]. by apply IH.
      * done.
      * inversion 1; simplify_eq. cut (Err (A := list B) e = Ok l'); [done|]. by apply IH.
    + split; [done|]. inversion 1; congruence.
Qed.

Lemma iter_m_ok {A} (f : A -> result unit) l :
  iter_m f l = Ok () <-> Forall (fun x => f x = Ok ()) l.
Proof.
  induction l as [|x l IH]; simpl; [by split|].
  rewrite Forall_cons. destruct (f x) as [[]|]; naive_solver.
Qed.

Lemma mem_str_true s l : mem_str s l = true <-> s ∈ l.
Proof.
  unfold mem_str. rewrite existsb_exists, list_elem_of_In. split.
  - intros (x & Hx & ->%String.eqb_eq). done.
  - intros H. exists s. by rewrite String.eqb_refl.
Qed.

Lemma dict_get_is_Some {B} k (d : list (string * B)) : is_Some (dict_get k d) <-> k ∈ keys d.
Proof.
  induction d as [|[k' v] d IH]; simpl.
  - split; [by intros []|by intros ?%elem_of_nil].
  - rewrite elem_of_cons. destruct (String.eqb_spec k k') as [->|]; naive_solver.
Qed.

Lemma dict_set_eq {B} k (v : B) d : dict_get k (dict_set k v d) = Some v.
Proof.
  induction d as [|[k' v'] d IH]; simpl; [by rewrite String.eqb_refl|].
  destruct (String.eqb k k') eqn:E; simpl; by rewrite E.
Qed.

Lemma dict_set_ne {B} k k' (v : B) d :
  k <> k' -> dict_get k (dict_set k' v d) = dict_get k d.
Proof.
  intros Hne. induction d as [|[k2 v2] d IH]; simpl.
  - by destruct (String.eqb_spec k k').
  - destruct (String.eqb_spec k' k2) as [->|]; simpl; by rewrite ?IH; destruct (String.eqb_spec k k2).
Qed.

Lemma insert_by_Permutation {A} (key : A -> string) x l :
  insert_by key x l ≡ₚ x :: l.
Proof.
  induction l as [|y l IH]; simpl; [done|].
  destruct (String.leb _ _); [done|]. rewrite IH. by apply Permutation_swap.
Qed.

Lemma sort_by_Permutation {A} (key : A -> string) l : sort_by key l ≡ₚ l.
Proof. induction l as [|x l IH]; simpl; [done|]. by rewrite insert_by_Permutation, IH. Qed.

#[export] Hint Rewrite @all_m_app @any_m_app @any_m_pure @all_m_map : khora.
#[export] Hint Resolve dict_set_eq insert_by_Permutation sort_by_Permutation : khora.

(** *** The sort *)

Lemma leb_le s t : String.leb s t = true <-> String.le s t.
Proof. unfold String.le. destruct (String.leb s t); naive_solver. Qed.

Lemma leb_false_le s t : String.leb s t = false -> String.le t s.
Proof. intros H. apply leb_le. destruct (String.leb_total s t); congruence. Qed.

Lemma insert_by_sorted {A} (key : A -> string) x l :
  StronglySorted String.le (List.map key l) ->
  StronglySorted String.le (List.map key (insert_by key x l)).
Proof.
  induction l as [|y l IH]; simpl; intros Hl; [by repeat constructor|].
  apply StronglySorted_inv in Hl as [Hl Hy].
  destruct (String.leb (key x) (key y)) eqn:E; simpl.
  - apply leb_le in E. constructor; [by constructor|]. constructor; [done|].
    eapply Forall_impl; [exact Hy|]. intros s. by apply (transitivity E).
  - constructor; [by apply IH|]. apply leb_false_le in E.
    assert (List.map key (insert_by key x l) ≡ₚ key x :: List.map key l) as ->.
    { rewrite <- (Permutation_map key (insert_by_Permutation key x l)). done. }
    by constructor.
Qed.

Lemma sort_by_sorted {A} (key : A -> string) l :
  StronglySorted String.le (List.map key (sort_by key l)).
Proof. induction l; simpl; [constructor|]. by apply insert_by_sorted. Qed.

(** The keys of a sorted list depend only on the multiset of the keys. *)
Lemma sort_by_keys_perm {A} (key : A -> string) l l' :
  List.map key l ≡ₚ List.map key l' ->
  List.map key (sort_by key l) = List.map key (sort_by key l').
Proof.
  intros H. apply (StronglySorted_unique String.le); auto using sort_by_sorted.
  by rewrite !(Permutation_map key (sort_by_Permutation key _)).
Qed.

(** *** Splitting and joining *)

Lemma split_on_nonempty c s : split_on c s <> [].
Proof. induction s as [|a s IH]; simpl; [done|]. destruct (Ascii.eqb a c); [done|]. by destruct (split_on c s). Qed.

Lemma str_join_cons sep x l : l <> [] -> str_join sep (x :: l) = (x +:+ sep +:+ str_join sep l)%string.
Proof. by destruct l. Qed.

(** [sep.join(s.split(sep)) == s] *)
Lemma join_split c s : str_join (String c "") (split_on c s) = s.
Proof.
  induction s as [|a s IH]; simpl; [done|].
  pose proof (split_on_nonempty c s) as Hne.
  destruct (Ascii.eqb_spec a c) as [->|Hac].
  - rewrite str_join_cons by done. by rewrite IH.
  - destruct (split_on c s) as [|x [|y l]]; [done| |]; simpl in *; by rewrite <- IH.
Qed.

(** *** Strings that encode countable data, for concrete instances *)

Fixpoint pos_bits (p : positive) : string :=
  match p with
  | xH => ""
  | xO p => String (Ascii.ascii_of_nat 48) (pos_bits p)
  | xI p => String (Ascii.ascii_of_nat 49) (pos_bits p)
  end.

Fixpoint bits_pos (s : string) : positive :=
  match s with
  | EmptyString => xH
  | String a s => if Ascii.eqb a (Ascii.ascii_of_nat 48) then xO (bits_pos s) else xI (bits_pos s)
  end.

Lemma bits_pos_bits p : bits_pos (pos_bits p) = p.
Proof. induction p as [p IH|p IH|]; simpl; by rewrite ?IH. Qed.

Lemma pos_bits_inj p q : pos_bits p = pos_bits q -> p = q.
Proof. intros H. by rewrite <- (bits_pos_bits p), H, bits_pos_bits. Qed.
