(* ===== verification/PyValue.v ===== *)
(** The Python values the program handles: the JSON values of a filter document
    or of a stored [metadata] blob, datetimes, and the tuples the lowering makes.
    Equality, ordering and UTC normalisation follow the language: numbers compare
    by exact value across [int], [float] and [bool]; a naive and an aware datetime
    are unequal and do not order; [astimezone] raises out of the supported range.
    A [str] is the list of its UTF-8 bytes, whose order is code point order; a
    dict has string keys and keeps insertion order. *)
From S2P Require Import Prelude.

(** A float: not-a-number, an infinity, or the dyadic rational [m * 2 ^ e]. *)
Inductive pyfloat :=
| FNaN
| FInf (negative : bool)
| FFin (m e : Z).

#[export] Instance pyfloat_eq_dec : EqDecision pyfloat.
Proof. solve_decision. Defined.

(** A [datetime]: microseconds of its wall clock since 1970-01-01T00:00:00, and
    its offset from UTC in microseconds ([None] for a naive one). *)
Record datetime := MkDatetime { dt_local : Z; dt_offset : option Z }.

#[export] Instance datetime_eq_dec : EqDecision datetime.
Proof. solve_decision. Defined.

Inductive value :=
| VNone
| VBool (b : bool)
| VInt (z : Z)
| VFloat (f : pyfloat)
| VStr (s : string)
| VDate (d : datetime)
| VDateLit (d : datetime)
| VList (l : list value)
| VTuple (l : list value)
| VDict (d : list (string * value)).

(** *** Datetimes *)

(** [datetime.min] and [datetime.max] in microseconds. *)
Definition dt_min : Z := -62135596800000000.
Definition dt_max : Z := 253402300799999999.

(** The instant of an aware datetime. *)
Definition dt_instant (d : datetime) : option Z :=
  match dt_offset d with Some o => Some (dt_local d - o)%Z | None => None end.

Definition dt_utc (t : Z) : datetime := MkDatetime t (Some 0%Z).

(** [d.replace(tzinfo=UTC)] *)
Definition dt_replace_utc (d : datetime) : datetime := dt_utc (dt_local d).

(** [d.astimezone(UTC)] of an aware datetime. *)
Definition dt_astimezone_utc (d : datetime) : result datetime :=
  match dt_instant d with
  | None => Err ValueError
  | Some t =>
      if (dt_min <=? t)%Z && (t <=? dt_max)%Z then Ok (dt_utc t) else Err OverflowError
  end.

(** The idiom the filter code repeats: read a naive datetime as UTC, convert an
    aware one. *)
Definition to_utc (d : datetime) : result datetime :=
  match dt_offset d with
  | None => Ok (dt_replace_utc d)
  | Some _ => dt_astimezone_utc d
  end.

Definition dt_eqb (a b : datetime) : bool :=
  match dt_instant a, dt_instant b with
  | Some x, Some y => Z.eqb x y
  | None, None => Z.eqb (dt_local a) (dt_local b)
  | _, _ => false
  end.

Inductive cmpop := CGt | CGe | CLt | CLe.

Definition cmp_of (op : cmpop) (c : comparison) : bool :=
  match op, c with
  | CGt, Gt | CGe, Gt | CGe, Eq | CLt, Lt | CLe, Lt | CLe, Eq => true
  | _, _ => false
  end.

Definition dt_cmp (op : cmpop) (a b : datetime) : result bool :=
  match dt_instant a, dt_instant b with
  | Some x, Some y => Ok (cmp_of op (Z.compare x y))
  | None, None => Ok (cmp_of op (Z.compare (dt_local a) (dt_local b)))
  | _, _ => Err TypeError
  end.

(** *** Numbers *)

(** The numeric reading of a value: a [bool] is an [int]. *)
Definition num_of (v : value) : option pyfloat :=
  match v with
  | VBool b => Some (FFin (Z.b2z b) 0)
  | VInt z => Some (FFin z 0)
  | VFloat f => Some f
  | _ => None
  end.

(** Exact comparison; [None] when a NaN is involved. *)
Definition num_compare (a b : pyfloat) : option comparison :=
  match a, b with
  | FNaN, _ | _, FNaN => None
  | FInf s, FInf t =>
      Some (match s, t with true, false => Lt | false, true => Gt | _, _ => Eq end)
  | FInf s, FFin _ _ => Some (if s then Lt else Gt)
  | FFin _ _, FInf s => Some (if s then Gt else Lt)
  | FFin m1 e1, FFin m2 e2 =>
      let e := Z.min e1 e2 in
      Some (Z.compare (m1 * 2 ^ (e1 - e)) (m2 * 2 ^ (e2 - e)))
  end.

Definition num_eqb (a b : pyfloat) : bool :=
  match num_compare a b with Some Eq => true | _ => false end.

Definition num_cmp (op : cmpop) (a b : pyfloat) : bool :=
  match num_compare a b with Some c => cmp_of op c | None => false end.

(** *** Equality and order on values *)

(** [a == b] *)
Fixpoint py_eq (a b : value) {struct a} : bool :=
  match a, b with
  | VNone, VNone => true
  | VStr s, VStr t => String.eqb s t
  | VDate d, VDate d' => dt_eqb d d'
  | VDateLit d, VDateLit d' => dt_eqb d d'
  | VList l1, VList l2 | VTuple l1, VTuple l2 =>
      (fix go (l1 l2 : list value) {struct l1} : bool :=
         match l1, l2 with
         | [], [] => true
         | x :: l1', y :: l2' => py_eq x y && go l1' l2'
         | _, _ => false
         end) l1 l2
  | VDict d1, VDict d2 =>
      Nat.eqb (length d1) (length d2) &&
      (fix go (d1 : list (string * value)) : bool :=
         match d1 with
         | [] => true
         | (k, x) :: d1' =>
             match dict_get k d2 with Some y => py_eq x y | None => false end && go d1'
         end) d1
  | _, _ =>
      match num_of a, num_of b with Some x, Some y => num_eqb x y | _, _ => false end
  end.

(** [a > b], [a >= b], [a < b], [a <= b] *)
Fixpoint py_cmp (op : cmpop) (a b : value) {struct a} : result bool :=
  match a, b with
  | VStr s, VStr t => Ok (cmp_of op (String.compare s t))
  | VDate d, VDate d' => dt_cmp op d d'
  | VList l1, VList l2 | VTuple l1, VTuple l2 =>
      (fix go (l1 l2 : list value) {struct l1} : result bool :=
         match l1, l2 with
         | [], [] => Ok (cmp_of op Eq)
         | [], _ :: _ => Ok (cmp_of op Lt)
         | _ :: _, [] => Ok (cmp_of op Gt)
         | x :: l1', y :: l2' => if py_eq x y then go l1' l2' else py_cmp op x y
         end) l1 l2
  | _, _ =>
      match num_of a, num_of b with
      | Some x, Some y => Ok (num_cmp op x y)
      | _, _ => Err TypeError
      end
  end.

(** [type(a)], as far as [type(a) is type(b)] observes it. *)
Inductive pytype := TyNone | TyBool | TyInt | TyFloat | TyStr | TyDate | TyDateLit
  | TyList | TyTuple | TyDict.

#[export] Instance pytype_eq_dec : EqDecision pytype.
Proof. solve_decision. Defined.

Definition type_of (v : value) : pytype :=
  match v with
  | VNone => TyNone | VBool _ => TyBool | VInt _ => TyInt | VFloat _ => TyFloat
  | VStr _ => TyStr | VDate _ => TyDate | VDateLit _ => TyDateLit
  | VList _ => TyList | VTuple _ => TyTuple | VDict _ => TyDict
  end.

(** Nesting depth of the dicts and lists of a JSON value, counting a leaf as 1:
    the number of levels a depth-first walk that descends into dicts and lists
    visits. *)
Fixpoint json_depth (v : value) : nat :=
  match v with
  | VList l => S ((fix go (l : list value) : nat :=
      match l with [] => 0 | x :: l' => Nat.max (json_depth x) (go l') end) l)
  | VDict d => S ((fix go (d : list (string * value)) : nat :=
      match d with [] => 0 | (_, x) :: d' => Nat.max (json_depth x) (go d') end) d)
  | _ => 1
  end.

(** Number of nodes of a JSON value, the same way. *)
Fixpoint json_size (v : value) : nat :=
  match v with
  | VList l => S ((fix go (l : list value) : nat :=
      match l with [] => 0 | x :: l' => json_size x + go l' end) l)
  | VDict d => S ((fix go (d : list (string * value)) : nat :=
      match d with [] => 0 | (_, x) :: d' => json_size x + go d' end) d)
  | _ => 1
  end.

(** *** Lemmas *)

(** Induction that reaches the elements of lists, tuples and dicts. *)
Lemma value_rec_ind (P : value -> Prop) :
  P VNone -> (forall b, P (VBool b)) -> (forall z, P (VInt z)) -> (forall f, P (VFloat f)) ->
  (forall s, P (VStr s)) -> (forall d, P (VDate d)) -> (forall d, P (VDateLit d)) ->
  (forall l, Forall P l -> P (VList l)) -> (forall l, Forall P l -> P (VTuple l)) ->
  (forall d, Forall (fun kv => P (snd kv)) d -> P (VDict d)) -> forall v, P v.
Proof.
  intros HN HB HI HF HS HD HDL HL HT HDi. fix IH 1.
  intros [ | | | | | | | l | l | d]; try (clear IH; solve [auto]).
  - apply HL. induction l; constructor; auto.
  - apply HT. induction l; constructor; auto.
  - apply HDi. induction d as [|[k x] d IHd]; constructor; simpl; auto.
Qed.

(** Decidable equality of values (syntactic identity, finer than [py_eq]). *)
Definition value_eq_dec_body (v : value) : forall w, {v = w} + {v <> w}.
Proof.
  revert v. fix IH 1. intros v w.
  assert (IHl : forall l l' : list value, {l = l'} + {l <> l'}).
  { fix IHl 1. intros [|x l] [|y l']; try (right; discriminate); [left; reflexivity|].
    destruct (IH x y) as [->|]; [|right; congruence].
    destruct (IHl l l') as [->|]; [by left|right; congruence]. }
  assert (IHd : forall l l' : list (string * value), {l = l'} + {l <> l'}).
  { fix IHd 1. intros [|[k x] l] [|[k' y] l']; try (right; discriminate); [left; reflexivity|].
    destruct (decide (k = k')) as [->|]; [|right; congruence].
    destruct (IH x y) as [->|]; [|right; congruence].
    destruct (IHd l l') as [->|]; [by left|right; congruence]. }
  destruct v as [ |b|z|f|s|d|d|l|l|d], w as [ |b'|z'|f'|s'|d'|d'|l'|l'|d'];
    try (right; discriminate); try (left; reflexivity).
  - destruct (decide (b = b')); [left|right]; congruence.
  - destruct (decide (z = z')); [left|right]; congruence.
  - destruct (decide (f = f')); [left|right]; congruence.
  - destruct (decide (s = s')); [left|right]; congruence.
  - destruct (decide (d = d')); [left|right]; congruence.
  - destruct (decide (d = d')); [left|right]; congruence.
  - destruct (IHl l l'); [left|right]; congruence.
  - destruct (IHl l l'); [left|right]; congruence.
  - destruct (IHd d d'); [left|right]; congruence.
Defined.

#[export] Instance value_eq_dec : EqDecision value := value_eq_dec_body.

Lemma dt_astimezone_aware d u :
  dt_astimezone_utc d = Ok u -> dt_offset u = Some 0%Z /\ dt_instant u = dt_instant d.
Proof.
  unfold dt_astimezone_utc. destruct (dt_instant d) as [t|] eqn:E; [|done].
  case_match; [|done]. intros [= <-]. unfold dt_instant. simpl. by rewrite Z.sub_0_r.
Qed.

Lemma to_utc_aware d u : to_utc d = Ok u -> dt_offset u = Some 0%Z.
Proof.
  unfold to_utc. destruct (dt_offset d).
  - intros H. by apply dt_astimezone_aware in H as [].
  - by intros [= <-].
Qed.

Lemma dt_instant_aware u : dt_offset u = Some 0%Z -> dt_instant u = Some (dt_local u).
Proof. unfold dt_instant. intros ->. by rewrite Z.sub_0_r. Qed.

(** Two UTC datetimes always order. *)
Lemma dt_cmp_utc op a b :
  dt_offset a = Some 0%Z -> dt_offset b = Some 0%Z ->
  dt_cmp op a b = Ok (cmp_of op (Z.compare (dt_local a) (dt_local b))).
Proof. intros Ha Hb. unfold dt_cmp. by rewrite !dt_instant_aware. Qed.

Lemma dt_eqb_utc a b :
  dt_offset a = Some 0%Z -> dt_offset b = Some 0%Z ->
  dt_eqb a b = Z.eqb (dt_local a) (dt_local b).
Proof. intros Ha Hb. unfold dt_eqb. by rewrite !dt_instant_aware. Qed.

Lemma num_eqb_true_cmp a b : num_eqb a b = true -> num_cmp CGe a b = true.
Proof. unfold num_eqb, num_cmp. by destruct (num_compare a b) as [[]|]. Qed.

#[export] Hint Resolve to_utc_aware dt_instant_aware : khora.
