(* ===== verification/FilterModel.v ===== *)
(** The recall-filter document and its validator ([filter/model.py]): the operator
    vocabulary, the typed document, the depth guard with its explicit stack, the
    fold of [metadata.<path>] keys and the recursive metadata-grammar walk.
    Pydantic's structural validation is not modelled: a [RecallFilter] value here
    is what it hands to the [after] validator. *)
From S2P Require Import Prelude PyValue.

Local Open Scope string_scope.

(** ** Data *)

Inductive Op := EQ | NE | GT | GTE | LT | LTE | IN | NIN | EXISTS | AND | OR | NOR | NOT | DATE.

#[export] Instance Op_eq_dec : EqDecision Op.
Proof. solve_decision. Defined.

(** [op.value] *)
Definition op_value (op : Op) : string :=
  match op with
  | EQ => "$eq" | NE => "$ne" | GT => "$gt" | GTE => "$gte" | LT => "$lt" | LTE => "$lte"
  | IN => "$in" | NIN => "$nin" | EXISTS => "$exists" | AND => "$and" | OR => "$or"
  | NOR => "$nor" | NOT => "$not" | DATE => "$date"
  end.

Definition all_ops : list Op :=
  [EQ; NE; GT; GTE; LT; LTE; IN; NIN; EXISTS; AND; OR; NOR; NOT; DATE].

(** [Op(s)]: the member with that value, or [ValueError]. *)
Definition op_of (s : string) : result Op :=
  match List.find (fun op => String.eqb (op_value op) s) all_ops with
  | Some op => Ok op
  | None => Err ValueError
  end.

Definition SYSTEM_KEYS : list string :=
  ["occurred_at"; "created_at"; "source_timestamp"; "source_type"; "source_name";
   "source_url"; "external_id"; "content_type"; "source"; "title"].

Definition _LIST_OPS : list Op := [IN; NIN].

Definition _METADATA_FIELD_OPS : list Op := [EQ; NE; GT; GTE; LT; LTE; IN; NIN; EXISTS; NOT].

(** [op_key in ops] for a string key and a set of [str]-valued members. *)
Definition key_in (op_key : string) (ops : list Op) : bool :=
  existsb (fun op => String.eqb (op_value op) op_key) ops.

Definition _FOLDED_ALIAS : string := "__folded_predicates__".

Definition _MAX_FILTER_DEPTH : nat := 100.

(** [StringOps] and [DateOps]: an operator field is [None] when it is not in
    [model_fields_set], and otherwise holds its value, which may be an explicit
    [VNone]. *)
Inductive Ops := MkOps {
  o_eq : option value; o_ne : option value; o_gt : option value; o_gte : option value;
  o_lt : option value; o_lte : option value; o_in : option value; o_nin : option value;
  o_exists : option value; o_not : option (option Ops) }.

(** The value of a system-key field that was set. *)
Inductive sysfield :=
| SFNone
| SFScalar (v : value)
| SFList (l : list value)
| SFOps (o : Ops).

(** A filter document: the system keys that were set, the [metadata] field
    ([None] when unset), the logical operators, and the folded
    [metadata.<path>] predicates. *)
Inductive RecallFilter := MkFilter {
  f_sys : list (string * sysfield);
  f_metadata : option value;
  f_and : option (list RecallFilter);
  f_or : option (list RecallFilter);
  f_nor : option (list RecallFilter);
  f_not : option RecallFilter;
  f_folded : list (string * value) }.

(** ** Depth guard *)

(** The children [_check_depth] pushes for a node. *)
Definition depth_children (v : value) : list value :=
  match v with
  | VDict d => snd <$> d
  | VList l => l
  | _ => []
  end.

(** The [while stack] loop; the head of the list is the top of the stack, so the
    children go on in reverse.  [None] when the fuel runs out. *)
Fixpoint check_depth_loop (fuel : nat) (stack : list (value * nat)) : option (result unit) :=
  match stack with
  | [] => Some (Ok ())
  | (node, depth) :: rest =>
      match fuel with
      | O => None
      | S fuel' =>
          if Nat.ltb _MAX_FILTER_DEPTH depth
          then Some (Err (ValidationError "/" "max_depth_exceeded"))
          else check_depth_loop fuel'
                 (rev ((fun c => (c, S depth)) <$> depth_children node) ++ rest)
      end
  end.

Definition _check_depth (fuel : nat) (data : value) : option (result unit) :=
  match data with
  | VDict _ | VList _ => check_depth_loop fuel [(data, 1)]
  | _ => Some (Ok ())
  end.

(** ** UTC normalisation of datetimes *)

Definition _normalize_utc (v : option datetime) : result (option datetime) :=
  match v with
  | None => Ok None
  | Some d => match to_utc d with Ok u => Ok (Some u) | Err e => Err e end
  end.

(** ** Folding of [metadata.<path>] keys *)

Definition is_dot_path (k : string) : bool := String.prefix "metadata." k.

(** The result of the [before] validator on a dict: the remaining keys, with the
    folded ones under the alias when there is at least one. *)
Definition _fold_dot_paths (data : value) : value :=
  match data with
  | VDict d =>
      let folded := filter (fun kv => is_dot_path kv.1) d in
      let rest := filter (fun kv => negb (is_dot_path kv.1)) d in
      match folded with
      | [] => VDict rest
      | _ => VDict (dict_set _FOLDED_ALIAS (VDict folded) rest)
      end
  | _ => data
  end.

(** The wrap serializer, given the dict the inner handler produced: drop the
    carrier, re-emit the folded predicates flat. *)
Definition _serialize (out : list (string * value)) (folded : list (string * value))
  : list (string * value) :=
  fold_left (fun acc kv => dict_set kv.1 kv.2 acc) folded
    (filter (fun kv => negb (String.eqb kv.1 _FOLDED_ALIAS)) out).

(** ** Metadata-grammar walk *)

Definition starts_dollar (k : string) : bool := String.prefix "$" k.

(** [set(d.keys()) == {"$date"}], returning the value. *)
Definition sole_date (d : list (string * value)) : option value :=
  match d with
  | [(k, v)] => if String.eqb k (op_value DATE) then Some v else None
  | _ => None
  end.

Section validator.
(** [datetime.fromisoformat]: [None] where it raises [ValueError]. *)
Context (fromisoformat : string -> option datetime).

Definition _parse_date_literal (v : value) (path : string) : result unit :=
  match v with
  | VStr s =>
      match fromisoformat s with
      | Some _ => Ok ()
      | None => Err (ValidationError path "date_literal_malformed")
      end
  | _ => Err (ValidationError path "date_literal_not_string")
  end.

Definition _check_literal_operand (operand : value) (path : string) : result unit :=
  match operand with
  | VDict d =>
      match sole_date d with
      | Some v => _parse_date_literal v (path +:+ "/$date")
      | None => Ok ()
      end
  | _ => Ok ()
  end.

(** [_walk_operator], with [_walk_not_operand] inlined at the [$not] branch (it is
    the only caller). *)
Fixpoint _walk_operator (op_key : string) (operand : value) (path : string) {struct operand}
  : result unit :=
  if negb (key_in op_key _METADATA_FIELD_OPS)
  then Err (ValidationError path "unknown_operator")
  else if key_in op_key _LIST_OPS then
    match operand with
    | VList l => iter_m (fun item => _check_literal_operand item path) l
    | _ => Err (ValidationError path "operator_value_not_list")
    end
  else if String.eqb op_key (op_value EXISTS) then
    match operand with
    | VBool _ => Ok ()
    | _ => Err (ValidationError path "operator_value_not_bool")
    end
  else if String.eqb op_key (op_value NOT) then
    match operand with
    | VDict d =>
        if negb (existsb (fun kv => starts_dollar kv.1) d) ||
           existsb (fun kv => negb (starts_dollar kv.1)) d
        then Err (ValidationError path "not_operand_not_expression")
        else
          (fix go (d : list (string * value)) : result unit :=
             match d with
             | [] => Ok ()
             | (k, inner) :: d' =>
                 match _walk_operator k inner (path +:+ "/" +:+ k) with
                 | Ok _ => go d'
                 | Err e => Err e
                 end
             end) d
    | _ => Err (ValidationError path "not_operand_not_expression")
    end
  else _check_literal_operand operand path.

Definition _walk_not_operand (d : list (string * value)) (path : string) : result unit :=
  if negb (existsb (fun kv => starts_dollar kv.1) d) ||
     existsb (fun kv => negb (starts_dollar kv.1)) d
  then Err (ValidationError path "not_operand_not_expression")
  else iter_m (fun kv => _walk_operator kv.1 kv.2 (path +:+ "/" +:+ kv.1)) d.

Fixpoint _reject_nested_operator (v : value) (path : string) {struct v} : result unit :=
  match v with
  | VDict d =>
      (fix go (d : list (string * value)) : result unit :=
         match d with
         | [] => Ok ()
         | (k, x) :: d' =>
             if starts_dollar k
             then Err (ValidationError path "operator_nested_in_operand")
             else match _reject_nested_operator x path with
                  | Ok _ => go d'
                  | Err e => Err e
                  end
         end) d
  | _ => Ok ()
  end.

Definition _walk_predicate (predicate : value) (path : string) : result unit :=
  match predicate with
  | VDict [] => Ok ()
  | VDict d =>
      let has_dollar := existsb (fun kv => starts_dollar kv.1) d in
      let has_plain := existsb (fun kv => negb (starts_dollar kv.1)) d in
      if has_dollar && has_plain
      then Err (ValidationError path "mixed_operator_and_field")
      else if negb has_dollar then _reject_nested_operator predicate path
      else
        match sole_date d with
        | Some v => _parse_date_literal v (path +:+ "/$date")
        | None => iter_m (fun kv => _walk_operator kv.1 kv.2 (path +:+ "/" +:+ kv.1)) d
        end
  | _ => Ok ()
  end.

(** [branches is not None and len(branches) == 0] raises. *)
Definition check_nonempty (alias : string) (branches : option (list RecallFilter)) : result unit :=
  match branches with
  | Some [] => Err (ValidationError ("/" +:+ alias) "empty_logical_array")
  | _ => Ok ()
  end.

Definition _validate_metadata_grammar (f : RecallFilter) : result unit :=
  match iter_m (fun ab => check_nonempty ab.1 ab.2)
          [("$and", f_and f); ("$or", f_or f); ("$nor", f_nor f)] with
  | Err e => Err e
  | Ok _ =>
      match
        match f_metadata f with
        | Some (VDict d) => iter_m (fun kv => _walk_predicate kv.2 ("/metadata/" +:+ kv.1)) d
        | _ => Ok ()
        end
      with
      | Err e => Err e
      | Ok _ => iter_m (fun kv => _walk_predicate kv.2 ("/" +:+ kv.1)) (f_folded f)
      end
  end.

(** [RecallFilter.model_validate]: the depth guard, then pydantic's [handler] on
    the folded dict, whose [after] step is the grammar walk.  The handler is the
    library's and stays a parameter. *)
Definition _convert_pydantic_errors (handler : value -> result RecallFilter) (fuel : nat)
    (data : value) : option (result RecallFilter) :=
  match _check_depth fuel data with
  | None => None
  | Some (Err e) => Some (Err e)
  | Some (Ok _) =>
      Some match handler (_fold_dot_paths data) with
           | Err e => Err e
           | Ok f => match _validate_metadata_grammar f with Ok _ => Ok f | Err e => Err e end
           end
  end.
End validator.
