(* ===== verification/FilterModelFacts.v ===== *)
(** Theorems on the document validator: the depth guard is total and exact, folding
    and re-emitting dot-paths loses nothing, the metadata-grammar walk. *)
From S2P Require Import Prelude PyValue FilterModel.

Local Open Scope string_scope.
Local Open Scope list_scope.

(** ** The depth guard *)

Lemma json_size_children v : json_size v = S (list_sum (List.map json_size (depth_children v))).
Proof.
  destruct v as [ | | | | | | |l|l|d]; try done; simpl; f_equal.
  - induction l; simpl; auto.
  - induction d as [|[k x] d IH]; csimpl; auto.
Qed.

Definition max_list_nat (l : list nat) : nat := foldr Nat.max 0 l.

Lemma json_depth_children v :
  json_depth v = S (max_list_nat (List.map json_depth (depth_children v))).
Proof.
  destruct v as [ | | | | | | |l|l|d]; try done; simpl; f_equal.
  - induction l; simpl; auto.
  - induction d as [|[k x] d IH]; csimpl; auto.
Qed.

Lemma max_list_nat_le l k : max_list_nat l <= k <-> Forall (fun n => n <= k) l.
Proof.
  induction l as [|n l IH]; simpl; [split; [done|lia]|]. rewrite Forall_cons, <- IH. lia.
Qed.

(** The stack entries that stay within the limit. *)
Definition entry_ok (e : value * nat) : bool := Nat.leb (e.2 + json_depth e.1) (S _MAX_FILTER_DEPTH).

Definition stack_size (stack : list (value * nat)) : nat :=
  list_sum (List.map (fun e => json_size e.1) stack).

Lemma stack_size_app s1 s2 : stack_size (s1 ++ s2) = stack_size s1 + stack_size s2.
Proof. unfold stack_size. by rewrite map_app, list_sum_app. Qed.

Lemma stack_size_rev s : stack_size (rev s) = stack_size s.
Proof. induction s as [|e s IH]; [done|]. simpl rev. rewrite stack_size_app, IH. unfold stack_size. simpl. lia. Qed.

Lemma stack_size_children v d :
  S (stack_size ((fun c => (c, d)) <$> depth_children v)) = json_size v.
Proof.
  rewrite json_size_children. f_equal. unfold stack_size.
  induction (depth_children v); csimpl; auto.
Qed.

Lemma forallb_rev {A} (p : A -> bool) l : forallb p (rev l) = forallb p l.
Proof. induction l as [|x l IH]; simpl; [done|]. rewrite forallb_app, IH. simpl. by rewrite andb_true_r, andb_comm. Qed.

Lemma entry_ok_children v d :
  d <= _MAX_FILTER_DEPTH ->
  entry_ok (v, d) = forallb entry_ok ((fun c => (c, S d)) <$> depth_children v).
Proof.
  intros Hd. apply eq_true_iff_eq. unfold entry_ok at 1. simpl.
  rewrite json_depth_children, Nat.leb_le, forallb_forall.
  rewrite Nat.add_succ_r, <- Nat.succ_le_mono.
  assert (d + max_list_nat (List.map json_depth (depth_children v)) <= _MAX_FILTER_DEPTH <->
    Forall (fun n => n <= _MAX_FILTER_DEPTH - d) (List.map json_depth (depth_children v))) as ->.
  { rewrite <- max_list_nat_le. lia. }
  rewrite Forall_forall. split.
  - intros H e (c & <- & Hc%list_elem_of_In)%in_map_iff. unfold entry_ok. simpl. apply Nat.leb_le.
    assert (json_depth c <= _MAX_FILTER_DEPTH - d); [|lia].
    apply H, list_elem_of_In, in_map. by apply list_elem_of_In.
  - intros H n (c & <- & Hc)%list_elem_of_In%in_map_iff.
    assert (entry_ok (c, S d) = true) as E by (apply H; by apply (in_map (fun c => (c, S d)))).
    apply Nat.leb_le in E. cbn [fst snd] in E. lia.
Qed.

Lemma check_depth_loop_spec fuel stack :
  stack_size stack <= fuel ->
  check_depth_loop fuel stack =
  Some (if forallb entry_ok stack then Ok ()
        else Err (ValidationError "/" "max_depth_exceeded")).
Proof.
  revert stack. induction fuel as [|fuel IH]; intros [|[v d] stack]; try done.
  - unfold stack_size. simpl. rewrite json_size_children. lia.
  - intros Hf. cbn [check_depth_loop]. simpl forallb.
    pose proof (stack_size_children v (S d)) as Hs.
    destruct (Nat.ltb_spec _MAX_FILTER_DEPTH d).
    + replace (entry_ok (v, d)) with false; [done|]. symmetry. apply Nat.leb_gt.
      simpl. rewrite json_depth_children. lia.
    + rewrite IH.
      * rewrite forallb_app, forallb_rev, <- entry_ok_children by done. done.
      * rewrite stack_size_app, stack_size_rev. unfold stack_size in Hf at 1. simpl in Hf.
        change (json_size v + stack_size stack <= S fuel) in Hf. lia.
Qed.

(** The depth guard terminates - as many iterations as the document has nodes
    are enough - and is exact: it rejects with [max_depth_exceeded] precisely the
    documents nested deeper than the limit, whatever the order of the stack. *)
Theorem check_depth_exact fuel data :
  json_size data <= fuel ->
  _check_depth fuel data =
  Some (if Nat.leb (json_depth data) _MAX_FILTER_DEPTH then Ok ()
        else Err (ValidationError "/" "max_depth_exceeded")).
Proof.
  intros Hf.
  assert (E : check_depth_loop fuel [(data, 1)] =
    Some (if Nat.leb (json_depth data) _MAX_FILTER_DEPTH then Ok ()
          else Err (ValidationError "/" "max_depth_exceeded"))).
  { rewrite check_depth_loop_spec; [|unfold stack_size; simpl; lia].
    simpl. by rewrite andb_true_r. }
  destruct data; done.
Qed.

(** ** Fold and re-emit *)

Lemma keys_filter_notin (p : string * value -> bool) k (d : list (string * value)) :
  k ∉ keys d -> k ∉ keys (filter (fun kv => p kv) d).
Proof.
  intros Hk (kv & -> & Hin)%list_elem_of_fmap. apply Hk. apply list_elem_of_fmap.
  apply list_elem_of_filter in Hin as [_ Hin]. eauto.
Qed.

Lemma keys_filter_NoDup (p : string * value -> bool) (d : list (string * value)) :
  NoDup (keys d) -> NoDup (keys (filter (fun kv => p kv) d)).
Proof.
  induction d as [|kv d IH]; [done|]. intros [Hk Hnd]%NoDup_cons.
  rewrite filter_cons. case_decide; [|by apply IH]. apply NoDup_cons. split; [|by apply IH].
  by apply keys_filter_notin.
Qed.

Lemma dict_set_fresh k (v : value) (d : list (string * value)) : k ∉ keys d -> dict_set k v d = d ++ [(k, v)].
Proof.
  induction d as [|[k' v'] d IH]; csimpl; [done|].
  intros [Hne Hk]%not_elem_of_cons. destruct (String.eqb_spec k k'); [done|]. by rewrite IH.
Qed.

Lemma fold_dict_set_fresh (l d : list (string * value)) :
  NoDup (keys l) -> (forall k, k ∈ keys l -> k ∉ keys d) ->
  fold_left (fun acc kv => dict_set kv.1 kv.2 acc) l d = d ++ l.
Proof.
  revert d. induction l as [|[k v] l IH]; intros d Hnd Hdis; csimpl; [by rewrite app_nil_r|].
  apply NoDup_cons in Hnd as [Hk Hnd]. rewrite dict_set_fresh by (apply Hdis; left).
  rewrite IH; [by rewrite <- app_assoc|done|].
  intros k' Hk'. unfold keys. rewrite fmap_app, not_elem_of_app. split.
  - apply Hdis. by right.
  - simpl. intros ->%list_elem_of_singleton. done.
Qed.

Lemma filter_split_perm (p : string * value -> bool) (d : list (string * value)) :
  filter (fun kv => negb (p kv)) d ++ filter (fun kv => p kv) d ≡ₚ d.
Proof.
  induction d as [|kv d IH]; [done|]. rewrite !filter_cons.
  destruct (p kv) eqn:E; repeat case_decide; simpl in *; try done.
  - rewrite <- Permutation_middle. by rewrite IH.
  - by rewrite IH.
Qed.

Lemma filter_all (p : string * value -> bool) (d : list (string * value)) :
  Forall (fun kv => p kv = true) d -> filter (fun kv => p kv) d = d.
Proof.
  induction 1 as [|kv d Hkv _ IH]; [done|]. rewrite filter_cons, IH.
  case_decide as E; [done|]. by rewrite Hkv in E.
Qed.

(** Folding a document's [metadata.<path>] keys onto the carrier and re-emitting
    them flat gives back the same entries: a permutation of the input dict, in which
    the folded keys have moved to the end. *)
Theorem fold_then_serialize d folded rest :
  NoDup (keys d) -> _FOLDED_ALIAS ∉ keys d ->
  folded = filter (fun kv : string * value => is_dot_path kv.1) d ->
  rest = filter (fun kv : string * value => negb (is_dot_path kv.1)) d ->
  folded <> [] ->
  _fold_dot_paths (VDict d) = VDict (rest ++ [(_FOLDED_ALIAS, VDict folded)]) /\
  _serialize (rest ++ [(_FOLDED_ALIAS, VDict folded)]) folded = rest ++ folded /\
  rest ++ folded ≡ₚ d.
Proof.
  intros Hnd Hal Hf Hr Hne.
  assert (Hrest : _FOLDED_ALIAS ∉ keys rest).
  { subst rest. by apply (keys_filter_notin (fun kv => negb (is_dot_path kv.1))). }
  split_and!.
  - unfold _fold_dot_paths. rewrite <- Hf, <- Hr. destruct folded; [done|].
    by rewrite dict_set_fresh.
  - unfold _serialize. rewrite filter_app, (filter_all (fun kv => negb (String.eqb kv.1 _FOLDED_ALIAS)) rest).
    + simpl. rewrite app_nil_r. apply fold_dict_set_fresh.
      * subst folded. by apply (keys_filter_NoDup (fun kv => is_dot_path kv.1)).
      * intros k (kv & -> & H)%list_elem_of_fmap (kv' & E & H')%list_elem_of_fmap.
        subst folded rest. apply list_elem_of_filter in H as [H _], H' as [H' _].
        rewrite E in H. by destruct (is_dot_path kv'.1).
    + apply Forall_forall. intros kv Hkv. destruct (String.eqb_spec kv.1 _FOLDED_ALIAS) as [E|]; [|done].
      exfalso. apply Hrest. rewrite <- E. by apply list_elem_of_fmap_2.
  - subst. apply filter_split_perm.
Qed.

Lemma fold_then_serialize_witness :
  _serialize ([("title", VStr "t")] ++ [(_FOLDED_ALIAS, VDict [("metadata.a", VInt 1)])])
    [("metadata.a", VInt 1)] = [("title", VStr "t"); ("metadata.a", VInt 1)].
Proof.
  refine (proj1 (proj2 (fold_then_serialize [("metadata.a", VInt 1); ("title", VStr "t")]
    [("metadata.a", VInt 1)] [("title", VStr "t")] _ _ _ _ _))).
  - apply (bool_decide_unpack _). vm_compute. exact I.
  - apply (bool_decide_unpack _). vm_compute. exact I.
  - reflexivity.
  - reflexivity.
  - discriminate.
Defined.

Lemma check_depth_exact_witness :
  _check_depth 5 (VDict [("$or", VList [VDict [("title", VNone)]])]) = Some (Ok ()).
Proof. refine (eq_trans (check_depth_exact 5 _ _) _); [simpl; lia|reflexivity]. Defined.

(** ** The grammar walk *)

(** The branch of [_walk_operator] on [$not] is [_walk_not_operand]. *)
Lemma walk_not_operand_inlined fromisoformat d path :
  _walk_operator fromisoformat (op_value NOT) (VDict d) path =
  _walk_not_operand fromisoformat d path.
Proof.
  unfold _walk_not_operand. cbn [_walk_operator].
  change (key_in (op_value NOT) _METADATA_FIELD_OPS) with true.
  change (key_in (op_value NOT) _LIST_OPS) with false. simpl.
  destruct (negb _ || _); [done|].
  induction d as [|[k v] d IH]; simpl; [done|]. destruct (_walk_operator _ _ _ _); auto.
Qed.

(** UTC normalisation of a filter datetime: [None] stays, a naive datetime is
    read as UTC, an aware one keeps its instant, the result is in UTC and a second
    normalisation changes nothing; the only failure is an instant outside the range
    [datetime] supports. *)
Theorem normalize_utc_spec d :
  match to_utc d with
  | Ok u =>
      _normalize_utc (Some d) = Ok (Some u) /\ dt_offset u = Some 0%Z /\
      match dt_offset d with
      | None => dt_instant u = Some (dt_local d)
      | Some _ => dt_instant u = dt_instant d
      end /\
      ((dt_min <= dt_local u <= dt_max)%Z -> _normalize_utc (Some u) = Ok (Some u))
  | Err e =>
      _normalize_utc (Some d) = Err e /\ e = OverflowError /\
      exists t, dt_instant d = Some t /\ ~ (dt_min <= t <= dt_max)%Z
  end.
Proof.
  destruct (to_utc d) as [u|e] eqn:E; unfold _normalize_utc; rewrite E.
  - pose proof (to_utc_aware _ _ E) as Hu. split_and!; [done|done| |].
    + unfold to_utc in E. destruct (dt_offset d) eqn:Ed.
      * by apply dt_astimezone_aware in E as [_ ?].
      * injection E as <-. unfold dt_instant. simpl. by rewrite Z.sub_0_r.
    + intros [Hl Hh]. unfold to_utc, dt_astimezone_utc. rewrite Hu.
      rewrite dt_instant_aware by done.
      apply Z.leb_le in Hl, Hh. rewrite Hl, Hh. simpl. destruct u. simpl in *. by subst.
  - unfold to_utc, dt_astimezone_utc, dt_instant in *. destruct (dt_offset d) as [o|]; [|done].
    destruct ((dt_min <=? dt_local d - o)%Z && (dt_local d - o <=? dt_max)%Z) eqn:Eb; [done|].
    injection E as <-. split_and!; [done|done|]. eexists. split; [done|].
    intros [Hl Hh]. apply Z.leb_le in Hl, Hh. by rewrite Hl, Hh in Eb.
Qed.
