(* ===== verification/FilterAst.v ===== *)
(** The canonical filter AST ([filter/ast.py]): the lowering of a validated
    document to clauses and logical nodes, the normalisation of the logical
    structure, and the canonical form that is hashed into a cache key. *)
From S2P Require Import Prelude PyValue FilterModel.
From stdpp Require Import pretty.

Local Open Scope string_scope.
Local Open Scope list_scope.

(** ** Data *)

(** [FilterClause] and [FilterNode]. *)
Inductive ast :=
| Clause (path : list string) (op : Op) (operand : value)
| Node (op : Op) (children : list ast).

(** [isinstance(n, FilterNode)] *)
Definition is_node (n : ast) : bool := match n with Node _ _ => true | Clause _ _ _ => false end.

Definition is_op_node (op : Op) (n : ast) : bool :=
  match n with Node op' _ => bool_decide (op' = op) | Clause _ _ _ => false end.

(** ** Normalisation *)

(** Splice a child that is a node of the same operator. *)
Definition splice (op : Op) (child : ast) : list ast :=
  match child with
  | Node op' cs => if bool_decide (op' = op) then cs else [child]
  | Clause _ _ _ => [child]
  end.

(** The tail of [_normalize] for [AND] and [OR]: the single-child rule. *)
Definition rebuild (op : Op) (flattened : list ast) : ast :=
  match flattened with
  | [Node op' cs] => Node op' cs
  | [Clause p o v] => Node AND [Clause p o v]
  | _ => Node op flattened
  end.

Fixpoint _normalize (node : ast) : ast :=
  match node with
  | Clause _ _ _ => node
  | Node op children =>
      let norm_children := List.map _normalize children in
      if bool_decide (op = NOT) then Node NOT norm_children
      else rebuild op (List.flat_map (splice op) norm_children)
  end.

(** ** Lowering *)

Definition _negate (inner : list ast) : ast :=
  Node NOT [match inner with [c] => c | _ => Node AND inner end].

(** Is [a] a continuation byte of a UTF-8 sequence? *)
Definition utf8_cont (a : Ascii.ascii) : bool :=
  let n := Ascii.N_of_ascii a in (N.leb 128 n && N.ltb n 192)%N.

(** The characters of a [str]: a continuation byte stays with the byte before. *)
Fixpoint utf8_chars (s : string) : list string :=
  match s with
  | EmptyString => []
  | String a s' =>
      match utf8_chars s' with
      | c :: cs =>
          if match s' with String b _ => utf8_cont b | EmptyString => false end
          then String a c :: cs else String a "" :: c :: cs
      | [] => [String a ""]
      end
  end.

(** Iterating a value, as [tuple(v)] and [for x in v] do. *)
Definition py_iter (v : value) : result (list value) :=
  match v with
  | VList l | VTuple l => Ok l
  | VDict d => Ok (VStr <$> keys d)
  | VStr s => Ok (VStr <$> utf8_chars s)
  | _ => Err TypeError
  end.

(** The scalar operators of [_OPS_FIELD_TO_OP] with the field each reads, up to
    the final [("not_", Op.NOT)]. *)
Definition _OPS_FIELD_TO_OP : list ((Ops -> option value) * Op) :=
  [(o_eq, EQ); (o_ne, NE); (o_gt, GT); (o_gte, GTE); (o_lt, LT); (o_lte, LTE);
   (o_in, IN); (o_nin, NIN); (o_exists, EXISTS)].

Definition op_in (op : Op) (l : list Op) : bool := existsb (fun o => bool_decide (o = op)) l.

(** One iteration of the loop of [_lower_ops_submodel] for a field that is not
    [not_]. *)
Definition lower_ops_field (path : list string) (o : Ops) (fld : (Ops -> option value) * Op)
  : result (list ast) :=
  match fld.1 o with
  | None => Ok []
  | Some operand =>
      if op_in fld.2 _LIST_OPS
      then match py_iter operand with
           | Ok l => Ok [Clause path fld.2 (VTuple l)]
           | Err e => Err e
           end
      else Ok [Clause path fld.2 operand]
  end.

(** The argument is [None] for an explicit [$not: null], on which the attribute
    access raises. *)
Fixpoint _lower_ops_submodel (path : list string) (o : Ops) {struct o} : result (list ast) :=
  match extend_m (lower_ops_field path o) _OPS_FIELD_TO_OP with
  | Err e => Err e
  | Ok out =>
      match o with
      | MkOps _ _ _ _ _ _ _ _ _ None => Ok out
      | MkOps _ _ _ _ _ _ _ _ _ (Some None) => Err AttributeError
      | MkOps _ _ _ _ _ _ _ _ _ (Some (Some o')) =>
          match _lower_ops_submodel path o' with
          | Ok inner => Ok (out ++ [_negate inner])
          | Err e => Err e
          end
      end
  end.

Definition _lower_system_key (path : list string) (v : sysfield) : result (list ast) :=
  match v with
  | SFNone => Ok [Clause path EQ VNone]
  | SFOps o => _lower_ops_submodel path o
  | SFList l => Ok [Clause path EQ (VTuple l)]
  | SFScalar v => Ok [Clause path EQ v]
  end.

Section lowering.
Context (fromisoformat : string -> option datetime).

Definition _make_date_literal (raw : value) : result value :=
  match raw with
  | VStr s =>
      match fromisoformat s with
      | None => Err ValueError
      | Some parsed => match to_utc parsed with Ok u => Ok (VDateLit u) | Err e => Err e end
      end
  | _ => Err TypeError
  end.

Definition _lower_scalar_operand (operand : value) : result value :=
  match operand with
  | VDict d =>
      match sole_date d with
      | Some v => _make_date_literal v
      | None => Ok operand
      end
  | _ => Ok operand
  end.

Definition _lower_operand_list (operand : value) : result value :=
  match py_iter operand with
  | Err e => Err e
  | Ok l => match map_m _lower_scalar_operand l with Ok l' => Ok (VTuple l') | Err e => Err e end
  end.

(** The branches the two operator loops share, for an operator that is not
    [$not]. *)
Definition lower_leaf_operator (path : list string) (op : Op) (operand : value) : result ast :=
  if op_in op _LIST_OPS then
    match _lower_operand_list operand with Ok v => Ok (Clause path op v) | Err e => Err e end
  else if bool_decide (op = EXISTS) then Ok (Clause path op operand)
  else match _lower_scalar_operand operand with Ok v => Ok (Clause path op v) | Err e => Err e end.

Fixpoint _lower_metadata_operator_expr (path : list string) (expr : value) {struct expr}
  : result (list ast) :=
  match expr with
  | VDict d =>
      (fix go (d : list (string * value)) : result (list ast) :=
         match d with
         | [] => Ok []
         | (op_key, operand) :: d' =>
             match op_of op_key with
             | Err e => Err e
             | Ok op =>
                 match
                   (if bool_decide (op = NOT) then
                      match _lower_metadata_operator_expr path operand with
                      | Ok inner => Ok (_negate inner)
                      | Err e => Err e
                      end
                    else lower_leaf_operator path op operand)
                 with
                 | Err e => Err e
                 | Ok n => match go d' with Ok out => Ok (n :: out) | Err e => Err e end
                 end
             end
         end) d
  | _ => Err AttributeError
  end.

(** The operator loop of [_lower_metadata_predicate] is that of
    [_lower_metadata_operator_expr]. *)
Definition _lower_metadata_predicate (path : list string) (predicate : value)
  : result (list ast) :=
  match predicate with
  | VDict [] => Ok [Clause path EQ (VDict [])]
  | VDict d =>
      if negb (existsb (fun kv => starts_dollar kv.1) d)
      then Ok [Clause path EQ predicate]
      else
        match sole_date d with
        | Some v => match _make_date_literal v with Ok l => Ok [Clause path EQ l] | Err e => Err e end
        | None => _lower_metadata_operator_expr path predicate
        end
  | VList l => Ok [Clause path EQ (VTuple l)]
  | _ => Ok [Clause path EQ predicate]
  end.

(** The root of a document: its siblings under an [AND], normalised, and the
    assertion that the result is a node. *)
Definition root_of (children : result (list ast)) : result ast :=
  match children with
  | Err e => Err e
  | Ok cs =>
      let root := _normalize (Node AND cs) in
      if is_node root then Ok root else Err AssertionError
  end.

Definition lower_logical (op : Op) (branches : option (result (list ast))) : result (list ast) :=
  match branches with
  | None => Ok []
  | Some (Ok cs) => Ok [Node op cs]
  | Some (Err e) => Err e
  end.

(** [_lower_filter], with [_lower_branches] as [map_m] of [parse_to_ast], which is
    [root_of] of the lowering of the branch. *)
Fixpoint _lower_filter (f : RecallFilter) : result (list ast) :=
  match f with
  | MkFilter sys metadata and_ or_ nor_ not_ folded =>
      let branches op bs :=
        lower_logical op
          match bs with
          | Some l => Some (map_m (fun b => root_of (_lower_filter b)) l)
          | None => None
          end in
      extend_m (fun m : result (list ast) => m)
        [ extend_m (fun key =>
              match dict_get key sys with
              | Some v => _lower_system_key [key] v
              | None => Ok []
              end) SYSTEM_KEYS;
          match metadata with
          | Some VNone | None => Ok []
          | Some blob => Ok [Clause ["metadata"] EQ blob]
          end;
          extend_m (fun kv : string * value =>
              _lower_metadata_predicate (split_on dot kv.1) kv.2) folded;
          branches AND and_;
          branches OR or_;
          match branches OR nor_ with
          | Ok [or_node] => Ok [Node NOT [or_node]]
          | r => r
          end;
          match not_ with
          | Some inner =>
              match root_of (_lower_filter inner) with
              | Ok n => Ok [Node NOT [n]]
              | Err e => Err e
              end
          | None => Ok []
          end ]
  end.

Definition parse_to_ast (f : RecallFilter) : result ast := root_of (_lower_filter f).

Definition _lower_branches (branches : list RecallFilter) : result (list ast) :=
  map_m parse_to_ast branches.
End lowering.

(** ** Canonical form and hash *)

Definition _operand_kind (operand : value) : string :=
  match operand with
  | VTuple _ => "tuple"
  | VList _ => "list"
  | _ => "scalar"
  end.

Definition metadata_leaf (path : list string) : bool :=
  match path with seg :: _ => String.eqb seg "metadata" | [] => false end.

Fixpoint metadata_leaf_count (n : ast) : nat :=
  match n with
  | Clause path _ _ => if metadata_leaf path then 1 else 0
  | Node _ children => list_sum (List.map metadata_leaf_count children)
  end.

Section hashing.
(** [datetime.isoformat], [json.dumps]'s string encoding (with and without
    [ensure_ascii]), the [repr] of a float, and the SHA-256 hex digest. *)
Context (isoformat : datetime -> string) (float_repr : pyfloat -> string).
Context (esc_ascii esc_raw : string -> string) (sha256 : string -> string).

Fixpoint _canonicalize_operand (operand : value) : value :=
  match operand with
  | VDateLit d => VDict [("$date", VStr (isoformat d))]
  | VDate d => VDict [("$dt", VStr (isoformat d))]
  | VTuple l | VList l => VList (List.map _canonicalize_operand l)
  | VDict d =>
      VDict (sort_by fst (List.map (fun '(k, v) => (k, _canonicalize_operand v)) d))
  | _ => operand
  end.

(** [json.dumps(v, separators=(",", ":"))] with the string encoding [esc], on the
    values JSON has ([canonical_is_json]: the canonical form holds no other; on a
    datetime Python raises). *)
Fixpoint json_dumps (esc : string -> string) (v : value) : string :=
  match v with
  | VBool b => if b then "true" else "false"
  | VInt z => pretty z
  | VFloat f => float_repr f
  | VStr s => esc s
  | VList l | VTuple l => "[" +:+ str_join "," (List.map (json_dumps esc) l) +:+ "]"
  | VDict d =>
      "{" +:+ str_join "," (List.map (fun '(k, v) => esc k +:+ ":" +:+ json_dumps esc v) d) +:+ "}"
  | VNone | VDate _ | VDateLit _ => "null"
  end.

Fixpoint _canonicalize (n : ast) : value :=
  match n with
  | Clause path op operand =>
      VDict [("k", VStr "clause"); ("path", VList (VStr <$> path));
             ("op", VStr (op_value op)); ("operand_kind", VStr (_operand_kind operand));
             ("operand", _canonicalize_operand operand)]
  | Node op children =>
      let cs := List.map _canonicalize children in
      VDict [("k", VStr "node"); ("op", VStr (op_value op));
             ("children",
               VList (if op_in op [AND; OR] then sort_by (json_dumps esc_ascii) cs else cs))]
  end.

Definition canonical_hash (n : ast) : string :=
  sha256 (json_dumps esc_raw (_canonicalize n)).
End hashing.

(** ** Specification predicates *)

(** The shape [_normalize] promises: no node directly inside one of its own
    operator, and no single-child [AND]/[OR] except [AND([leaf])]. *)
Definition shape_ok (op : Op) (cs : list ast) : bool :=
  forallb (fun c => negb (is_op_node op c)) cs &&
  match cs with
  | [Clause _ _ _] => bool_decide (op = AND)
  | [Node _ _] => false
  | _ => true
  end.

Fixpoint is_normal (n : ast) : bool :=
  match n with
  | Clause _ _ _ => true
  | Node op cs => forallb is_normal cs && (bool_decide (op = NOT) || shape_ok op cs)
  end.

(** The leaves in order. *)
Fixpoint leaves (n : ast) : list ast :=
  match n with
  | Clause _ _ _ => [n]
  | Node _ cs => List.flat_map leaves cs
  end.

(** What pydantic guarantees of an [*Ops] submodel when no operator is an explicit
    [null]: lists for [$in]/[$nin] and an operator-expression for [$not]. *)
Fixpoint typed_ops (o : Ops) : bool :=
  match o with
  | MkOps _ _ _ _ _ _ in_ nin _ not_ =>
      match in_ with None | Some (VList _) => true | _ => false end &&
      match nin with None | Some (VList _) => true | _ => false end &&
      match not_ with None => true | Some (Some o') => typed_ops o' | Some None => false end
  end.

Definition typed_sysfield (v : sysfield) : bool :=
  match v with SFOps o => typed_ops o | _ => true end.

(** A document every validator of which passed, at every level. *)
Fixpoint valid_filter (fromisoformat : string -> option datetime) (f : RecallFilter) : bool :=
  let all_branches bs :=
    match bs with Some l => forallb (valid_filter fromisoformat) l | None => true end in
  match f with
  | MkFilter sys _ and_ or_ nor_ not_ _ =>
      is_ok (_validate_metadata_grammar fromisoformat f) &&
      forallb (fun kv => typed_sysfield kv.2) sys &&
      all_branches and_ && all_branches or_ && all_branches nor_ &&
      match not_ with Some g => valid_filter fromisoformat g | None => true end
  end.

(** The only exception left to a lowering. *)
Definition no_raise_but_overflow {A} (m : result A) : Prop :=
  match m with Ok _ => True | Err e => e = OverflowError end.

(** Reordering the operands of [AND] and [OR], anywhere in the tree. *)
Inductive reordered : ast -> ast -> Prop :=
| reordered_refl a : reordered a a
| reordered_swap op cs ds : op ∈ [AND; OR] -> cs ≡ₚ ds -> reordered (Node op cs) (Node op ds)
| reordered_child op l a b l' :
    reordered a b -> reordered (Node op (l ++ a :: l')) (Node op (l ++ b :: l'))
| reordered_trans a b c : reordered a b -> reordered b c -> reordered a c.

(** ** Induction principles *)

Lemma ast_rec_ind (P : ast -> Prop) :
  (forall p op v, P (Clause p op v)) ->
  (forall op cs, Forall P cs -> P (Node op cs)) -> forall n, P n.
Proof.
  intros HC HN. fix IH 1. intros [p op v|op cs]; [apply HC|].
  apply HN. induction cs; constructor; auto.
Qed.

Definition opt_all {A} (P : A -> Prop) (o : option A) : Prop :=
  match o with Some a => P a | None => True end.

Lemma Ops_rec_ind (P : Ops -> Prop) :
  (forall a b c d e f g h i o, opt_all (opt_all P) o -> P (MkOps a b c d e f g h i o)) ->
  forall o, P o.
Proof.
  intros H. fix IH 1. intros [a b c d e f g h i [[o|]|]]; apply H; simpl; auto.
Qed.

Lemma RecallFilter_rec_ind (P : RecallFilter -> Prop) :
  (forall sys md a o n nt fo,
      opt_all (Forall P) a -> opt_all (Forall P) o -> opt_all (Forall P) n -> opt_all P nt ->
      P (MkFilter sys md a o n nt fo)) ->
  forall f, P f.
Proof.
  intros H. fix IH 1. intros [sys md a o n nt fo].
  assert (IHl : forall l, Forall P l) by (induction l; constructor; auto).
  apply H; [destruct a|destruct o|destruct n|destruct nt]; simpl; auto.
Qed.
