(* ===== verification/FilterAstFacts.v ===== *)
(** Theorems on the filter AST: the normal form and what normalisation preserves,
    the equivalence of implicit and explicit conjunction, absence of exceptions in
    the lowering of a validated document, and stability of the canonical hash. *)
From S2P Require Import Prelude PyValue FilterModel FilterAst.

Local Open Scope string_scope.
Local Open Scope list_scope.

(** ** Normal form *)

Lemma op_eqb_refl (op : Op) : bool_decide (op = op) = true.
Proof. by apply bool_decide_eq_true. Qed.

(** What splicing contributes: normal elements, none of the spliced operator. *)
Lemma splice_normal op n :
  op <> NOT -> is_normal n = true ->
  Forall (fun c => is_normal c = true /\ is_op_node op c = false) (splice op n).
Proof.
  intros Hop Hn. destruct n as [p o v|op' cs]; simpl in *; [by repeat constructor|].
  destruct (bool_decide (op' = op)) eqn:E.
  - apply bool_decide_eq_true in E as ->.
    apply andb_true_iff in Hn as [Hcs Hshape].
    rewrite bool_decide_eq_false_2 in Hshape by done. simpl in Hshape.
    unfold shape_ok in Hshape. apply andb_true_iff in Hshape as [Hno _].
    rewrite forallb_forall in Hcs, Hno. apply Forall_forall. intros c Hc%list_elem_of_In.
    split; [by apply Hcs|]. by apply negb_true_iff, Hno.
  - repeat constructor; simpl; [done|]. by rewrite E.
Qed.

Lemma flat_splice_normal op ns :
  op <> NOT -> Forall (fun n => is_normal n = true) ns ->
  Forall (fun c => is_normal c = true /\ is_op_node op c = false)
    (List.flat_map (splice op) ns).
Proof.
  intros Hop. induction 1 as [|n ns Hn _ IH]; simpl; [done|].
  apply Forall_app. eauto using splice_normal.
Qed.

Lemma rebuild_normal op fl :
  op <> NOT ->
  Forall (fun c => is_normal c = true /\ is_op_node op c = false) fl ->
  is_normal (rebuild op fl) = true.
Proof.
  intros Hop H.
  assert (Hall : forallb is_normal fl = true).
  { apply forallb_forall. intros c Hc%list_elem_of_In. by eapply Forall_forall in H as []. }
  assert (Hno : forallb (fun c => negb (is_op_node op c)) fl = true).
  { apply forallb_forall. intros c Hc%list_elem_of_In.
    eapply Forall_forall in H as [_ ->]; done. }
  destruct fl as [|c [|d fl]].
  - simpl. by rewrite orb_true_r.
  - destruct c as [p o v|op' cs]; simpl in *; [done|]. by rewrite andb_true_r in Hall.
  - assert (rebuild op (c :: d :: fl) = Node op (c :: d :: fl)) as -> by (by destruct c).
    change (forallb is_normal (c :: d :: fl) &&
            (bool_decide (op = NOT) || shape_ok op (c :: d :: fl)) = true).
    rewrite Hall. unfold shape_ok. rewrite Hno. simpl. rewrite orb_true_iff.
    right. by destruct c.
Qed.

Lemma forallb_map {A B} (f : A -> B) (p : B -> bool) l :
  forallb p (List.map f l) = forallb (fun x => p (f x)) l.
Proof. induction l; simpl; congruence. Qed.

Lemma forallb_Forall {A} (p : A -> bool) l :
  forallb p l = true <-> Forall (fun x => p x = true) l.
Proof. rewrite forallb_forall, Forall_forall. by setoid_rewrite list_elem_of_In. Qed.

Lemma map_id_Forall {A} (f : A -> A) l : Forall (fun x => f x = x) l -> List.map f l = l.
Proof. induction 1; simpl; congruence. Qed.

Lemma normalize_is_normal n : is_normal (_normalize n) = true.
Proof.
  induction n as [p o v|op cs IH] using ast_rec_ind; simpl; [done|].
  assert (Hall : forallb is_normal (List.map _normalize cs) = true).
  { rewrite forallb_map. by apply forallb_Forall. }
  case_bool_decide as E; simpl.
  - by rewrite Hall.
  - apply rebuild_normal; [done|]. apply flat_splice_normal; [done|]. by apply forallb_Forall.
Qed.

Lemma splice_other op cs :
  Forall (fun c => is_op_node op c = false) cs -> List.flat_map (splice op) cs = cs.
Proof.
  induction 1 as [|c cs Hc _ IH]; simpl; [done|]. rewrite IH.
  destruct c as [|op' ds]; simpl in *; [done|]. by rewrite Hc.
Qed.

Lemma normal_fixed n : is_normal n = true -> _normalize n = n.
Proof.
  induction n as [p o v|op cs IH] using ast_rec_ind; simpl; [done|].
  intros [Hcs Hshape]%andb_true_iff.
  assert (Hmap : List.map _normalize cs = cs).
  { apply map_id_Forall. apply forallb_Forall in Hcs.
    eapply Forall_impl; [apply Forall_and; split; [apply IH|apply Hcs]|]. naive_solver. }
  rewrite Hmap. case_bool_decide as E; [by subst|].
  simpl in Hshape. unfold shape_ok in Hshape. apply andb_true_iff in Hshape as [Hno Hlen].
  rewrite splice_other.
  - destruct cs as [|[p o v|op' ds] [|d cs]]; simpl in *; try done.
    by apply bool_decide_eq_true in Hlen as ->.
  - apply forallb_Forall in Hno. eapply Forall_impl; [apply Hno|].
    intros c. apply negb_true_iff.
Qed.

(** Normalisation reaches its documented normal form on every tree - no
    same-operator nesting, no redundant single-child wrapper - and is idempotent:
    a second pass changes nothing. *)
Theorem normalize_canonical n :
  is_normal (_normalize n) = true /\ _normalize (_normalize n) = _normalize n.
Proof. split; [apply normalize_is_normal|]. apply normal_fixed, normalize_is_normal. Qed.

(** ** Leaves *)

Lemma leaves_splice op n : List.flat_map leaves (splice op n) = leaves n.
Proof.
  destruct n as [|op' cs]; simpl; [done|]. case_bool_decide; simpl; by rewrite ?app_nil_r.
Qed.

Lemma leaves_flat_splice op ns :
  List.flat_map leaves (List.flat_map (splice op) ns) = List.flat_map leaves ns.
Proof.
  induction ns as [|n ns IH]; simpl; [done|]. by rewrite flat_map_app, leaves_splice, IH.
Qed.

Lemma leaves_rebuild op fl : leaves (rebuild op fl) = List.flat_map leaves fl.
Proof. destruct fl as [|[p o v|op' cs] [|d fl]]; simpl; by rewrite ?app_nil_r. Qed.

Lemma normalize_leaves n : leaves (_normalize n) = leaves n.
Proof.
  induction n as [p o v|op cs IH] using ast_rec_ind; simpl; [done|].
  assert (Hmap : List.flat_map leaves (List.map _normalize cs) = List.flat_map leaves cs).
  { induction IH; simpl; congruence. }
  case_bool_decide; simpl; [done|]. by rewrite leaves_rebuild, leaves_flat_splice.
Qed.

Lemma list_sum_leaves (f : ast -> nat) ns :
  Forall (fun n => f n = list_sum (List.map f (leaves n))) ns ->
  list_sum (List.map f ns) = list_sum (List.map f (List.flat_map leaves ns)).
Proof.
  induction 1 as [|n ns Hn _ IH]; simpl; [done|]. rewrite map_app, list_sum_app. lia.
Qed.

Lemma metadata_leaf_count_leaves n :
  metadata_leaf_count n = list_sum (List.map metadata_leaf_count (leaves n)).
Proof.
  induction n as [p o v|op cs IH] using ast_rec_ind; simpl; [lia|].
  by apply list_sum_leaves.
Qed.

(** Normalisation keeps every leaf, in order, and therefore the number of
    metadata-rooted leaves a plan is costed by. *)
Theorem normalize_keeps_leaves n :
  leaves (_normalize n) = leaves n /\
  metadata_leaf_count (_normalize n) = metadata_leaf_count n.
Proof.
  split; [apply normalize_leaves|].
  by rewrite metadata_leaf_count_leaves, normalize_leaves, <- metadata_leaf_count_leaves.
Qed.

(** ** The root, and explicit against implicit conjunction *)

Lemma rebuild_is_node op fl : is_node (rebuild op fl) = true.
Proof. by destruct fl as [|[p o v|op' cs] [|d fl]]. Qed.

Lemma root_of_ok cs : root_of (Ok cs) = Ok (_normalize (Node AND cs)).
Proof. unfold root_of. cbn [_normalize]. case_bool_decide; [done|]. by rewrite rebuild_is_node. Qed.

Lemma splice_rebuild op fl :
  op <> NOT -> Forall (fun c => is_op_node op c = false) fl ->
  op = AND -> splice op (rebuild op fl) = fl.
Proof.
  intros _ H ->. destruct fl as [|[p o v|op' cs] [|d fl]]; try done.
  inversion H as [|? ? E]; simplify_eq/=. by rewrite E.
Qed.

Lemma flat_of_normalized cs :
  Forall (fun c => is_op_node AND c = false)
    (List.flat_map (splice AND) (List.map _normalize cs)).
Proof.
  eapply Forall_impl; [apply (flat_splice_normal AND); [done|]|naive_solver].
  apply Forall_forall. intros c (x & <- & _)%list_elem_of_In%in_map_iff.
  apply normalize_is_normal.
Qed.

Lemma normalize_and cs :
  _normalize (Node AND cs) = rebuild AND (List.flat_map (splice AND) (List.map _normalize cs)).
Proof. done. Qed.

Lemma splice_normalized_and cs :
  splice AND (_normalize (Node AND cs)) =
  List.flat_map (splice AND) (List.map _normalize cs).
Proof. rewrite normalize_and. apply splice_rebuild; [done|apply flat_of_normalized|done]. Qed.

Lemma and_of_ands css :
  _normalize (Node AND (List.map (fun cs => _normalize (Node AND cs)) css)) =
  _normalize (Node AND (List.concat css)).
Proof.
  rewrite (normalize_and (List.map _ _)), (normalize_and (List.concat css)). f_equal.
  induction css as [|cs css IH]; [done|]. cbn [List.map List.concat List.flat_map].
  rewrite map_app, flat_map_app, <- IH. f_equal.
  rewrite normal_fixed by apply normalize_is_normal. apply splice_normalized_and.
Qed.

Lemma normalize_and_single n :
  _normalize (Node AND [_normalize n]) = _normalize (Node AND [n]).
Proof.
  rewrite !normalize_and. cbn [List.map].
  by rewrite (normal_fixed (_normalize n)) by apply normalize_is_normal.
Qed.

Lemma map_m_root_of {A} (f : A -> result (list ast)) l css :
  map_m f l = Ok css ->
  map_m (fun x => root_of (f x)) l = Ok (List.map (fun cs => _normalize (Node AND cs)) css).
Proof.
  revert css. induction l as [|x l IH]; intros css; cbn [map_m].
  - by intros [= <-].
  - destruct (f x) as [cs|]; [|done]. destruct (map_m f l) as [css'|]; [|done].
    intros [= <-]. rewrite root_of_ok, (IH css'); done.
Qed.

Section lowering.
Context (fromisoformat : string -> option datetime).

(** A document that is only an [$and] of [bs]. *)
Definition and_only (bs : list RecallFilter) : RecallFilter :=
  MkFilter [] None (Some bs) None None None [].

(** The explicit [{$and: [d1, ..., dn]}] parses to the same tree as the implicit
    conjunction of all the siblings of [d1], ..., [dn], so both share one cache
    key. *)
Theorem explicit_and_is_implicit bs css :
  map_m (_lower_filter fromisoformat) bs = Ok css ->
  parse_to_ast fromisoformat (and_only bs) = Ok (_normalize (Node AND (List.concat css))).
Proof.
  intros H. unfold parse_to_ast, and_only. cbn [_lower_filter lower_logical].
  rewrite (map_m_root_of _ _ _ H). cbn -[_normalize root_of SYSTEM_KEYS].
  unfold extend_m at 1. simpl map_m. cbn [List.concat app].
  rewrite root_of_ok. f_equal. rewrite <- normalize_and_single, and_of_ands.
  change [_normalize (Node AND (List.concat css))]
    with (List.map (fun cs => _normalize (Node AND cs)) [List.concat css]).
  rewrite and_of_ands. simpl List.concat. by rewrite app_nil_r.
Qed.
End lowering.

(** ** Lowering a validated document does not raise *)

Lemma to_utc_err d e : to_utc d = Err e -> e = OverflowError.
Proof.
  unfold to_utc, dt_astimezone_utc, dt_instant. destruct (dt_offset d); [|done].
  case_match; congruence.
Qed.

Lemma op_of_value op : op_of (op_value op) = Ok op.
Proof. by destruct op. Qed.

Lemma key_in_spec k ops : key_in k ops = true -> exists op, op ∈ ops /\ k = op_value op.
Proof.
  unfold key_in. rewrite existsb_exists. intros (op & Hin & E%String.eqb_eq).
  exists op. rewrite list_elem_of_In. done.
Qed.

Lemma map_m_no_raise {A B} (f : A -> result B) l :
  Forall (fun x => no_raise_but_overflow (f x)) l -> no_raise_but_overflow (map_m f l).
Proof.
  induction 1 as [|x l Hx _ IH]; simpl; [done|].
  destruct (f x); [|done]. by destruct (map_m f l).
Qed.

Lemma extend_m_no_raise {A B} (f : A -> result (list B)) l :
  Forall (fun x => no_raise_but_overflow (f x)) l -> no_raise_but_overflow (extend_m f l).
Proof. intros H%map_m_no_raise. unfold extend_m. by destruct (map_m f l). Qed.

(** An outcome that only maps a value keeps its exceptions. *)
Lemma no_raise_map {A B} (g : A -> B) (m : result A) :
  no_raise_but_overflow m ->
  no_raise_but_overflow (match m with Ok a => Ok (g a) | Err e => Err e end).
Proof. by destruct m. Qed.

#[export] Hint Resolve map_m_no_raise extend_m_no_raise no_raise_map to_utc_err : khora.

Section no_raise.
Context (fromisoformat : string -> option datetime).

Lemma make_date_no_raise v path :
  _parse_date_literal fromisoformat v path = Ok () ->
  no_raise_but_overflow (_make_date_literal fromisoformat v).
Proof.
  destruct v; try done. simpl. destruct (fromisoformat s) as [d|]; [|done]. intros _.
  destruct (to_utc d) eqn:E; simpl; eauto with khora.
Qed.

Lemma scalar_operand_no_raise v path :
  _check_literal_operand fromisoformat v path = Ok () ->
  no_raise_but_overflow (_lower_scalar_operand fromisoformat v).
Proof.
  destruct v; try done. simpl. destruct (sole_date d); [apply make_date_no_raise|done].
Qed.

Lemma leaf_operator_no_raise op v path path' :
  op <> NOT -> _walk_operator fromisoformat (op_value op) v path = Ok () ->
  no_raise_but_overflow (lower_leaf_operator fromisoformat path' op v).
Proof.
  intros Hop Hw. unfold lower_leaf_operator.
  destruct op; try done; destruct v as [ |?|?|?|?|?|?|l|?|d]; try done; simpl in *.
  all: try exact (no_raise_map _ _ (scalar_operand_no_raise (VDict d) _ Hw)).
  all: apply iter_m_ok in Hw; apply no_raise_map, no_raise_map, map_m_no_raise.
  all: eapply Forall_impl; [exact Hw|]; simpl; eauto using scalar_operand_no_raise.
Qed.

(** The operator loop on entries that were each validated. *)
Lemma operator_expr_no_raise d path' :
  Forall (fun kv : string * value =>
    exists op, op_of kv.1 = Ok op /\
      no_raise_but_overflow
        (if bool_decide (op = NOT)
         then match _lower_metadata_operator_expr fromisoformat path' kv.2 with
              | Ok inner => Ok (_negate inner) | Err e => Err e end
         else lower_leaf_operator fromisoformat path' op kv.2)) d ->
  no_raise_but_overflow (_lower_metadata_operator_expr fromisoformat path' (VDict d)).
Proof.
  cbn [_lower_metadata_operator_expr].
  induction 1 as [|[k v] d (op & Hop & Hv) _ IH]; [done|]. simpl in Hop, Hv. rewrite Hop.
  match goal with |- context [match ?m with Ok _ => _ | Err _ => _ end] => destruct m end;
    [|done].
  match goal with |- context [match ?m with Ok _ => _ | Err _ => _ end] => destruct m end; done.
Qed.

Lemma walk_operator_key k v path :
  _walk_operator fromisoformat k v path = Ok () -> key_in k _METADATA_FIELD_OPS = true.
Proof.
  destruct v; cbn [_walk_operator]; by destruct (key_in k _METADATA_FIELD_OPS).
Qed.

Lemma walk_operator_no_raise v : forall k path path',
  _walk_operator fromisoformat k v path = Ok () ->
  exists op, op_of k = Ok op /\
    no_raise_but_overflow
      (if bool_decide (op = NOT)
       then match _lower_metadata_operator_expr fromisoformat path' v with
            | Ok inner => Ok (_negate inner) | Err e => Err e end
       else lower_leaf_operator fromisoformat path' op v).
Proof.
  induction v as [ | | | | | | | | |d IH] using value_rec_ind; intros k path path' Hw.
  all: pose proof (walk_operator_key _ _ _ Hw) as (op & Hin & ->)%key_in_spec.
  all: exists op; split; [apply op_of_value|].
  all: case_bool_decide; [subst op; try done|eauto using leaf_operator_no_raise].
  apply no_raise_map, operator_expr_no_raise. simpl in Hw.
  destruct (negb _ || _) in Hw; [done|]. clear Hin.
  induction IH as [|[k v] d Hv _ IHd]; [done|]. constructor.
  - simpl. eapply Hv.
    destruct (_walk_operator fromisoformat k v (path +:+ "/" +:+ k)) as [[]|] eqn:E; [exact E|done].
  - apply IHd. by destruct (_walk_operator fromisoformat k v (path +:+ "/" +:+ k)).
Qed.

Lemma metadata_predicate_no_raise v path path' :
  _walk_predicate fromisoformat v path = Ok () ->
  no_raise_but_overflow (_lower_metadata_predicate fromisoformat path' v).
Proof.
  destruct v as [ | | | | | | | | |d]; try done.
  destruct d as [|kv d]; [done|]. unfold _walk_predicate, _lower_metadata_predicate.
  generalize (kv :: d). clear kv d. intros d.
  destruct (existsb (fun kv => starts_dollar kv.1) d); [|done]. simpl.
  destruct (existsb (fun kv => negb (starts_dollar kv.1)) d); [done|]. simpl.
  destruct (sole_date d); [intros; by eapply no_raise_map, make_date_no_raise|].
  intros H%iter_m_ok. apply operator_expr_no_raise.
  eapply Forall_impl; [exact H|]. simpl. eauto using walk_operator_no_raise.
Qed.

Lemma ops_submodel_no_raise path o :
  typed_ops o = true -> no_raise_but_overflow (_lower_ops_submodel path o).
Proof.
  induction o as [a b c d e f g h i o IH] using Ops_rec_ind. intros H. cbn [typed_ops] in H.
  apply andb_true_iff in H as [[Hg Hh]%andb_true_iff Ho]. cbn [_lower_ops_submodel].
  assert (E : no_raise_but_overflow
    (extend_m (lower_ops_field path (MkOps a b c d e f g h i o)) _OPS_FIELD_TO_OP)).
  { apply extend_m_no_raise. repeat constructor; unfold lower_ops_field; simpl;
      repeat case_match; simplify_eq/=; done. }
  destruct (extend_m _ _); [|done]. destruct o as [[o'|]|]; try done.
  apply no_raise_map. by apply IH.
Qed.

Lemma branches_no_raise op bs :
  opt_all (Forall (fun f => valid_filter fromisoformat f = true ->
                            no_raise_but_overflow (_lower_filter fromisoformat f))) bs ->
  match bs with Some l => forallb (valid_filter fromisoformat) l | None => true end = true ->
  no_raise_but_overflow (lower_logical op
    match bs with
    | Some l => Some (map_m (fun b => root_of (_lower_filter fromisoformat b)) l)
    | None => None
    end).
Proof.
  destruct bs as [l|]; [|done]. simpl. intros IH Hv.
  apply no_raise_map, map_m_no_raise. apply forallb_Forall in Hv.
  eapply Forall_impl; [apply Forall_and; split; [apply IH|apply Hv]|].
  intros f [Hf Hvf]. specialize (Hf Hvf). destruct (_lower_filter fromisoformat f) eqn:E; [|done].
  by rewrite root_of_ok.
Qed.

Lemma grammar_parts f :
  is_ok (_validate_metadata_grammar fromisoformat f) = true ->
  Forall (fun kv => _walk_predicate fromisoformat kv.2 ("/" +:+ kv.1) = Ok ()) (f_folded f).
Proof.
  unfold _validate_metadata_grammar. intros H. apply iter_m_ok.
  destruct (iter_m (fun ab => check_nonempty ab.1 ab.2) _); [|done].
  destruct (match f_metadata f with Some _ => _ | None => _ end); [|done].
  by destruct (iter_m _ (f_folded f)) as [[]|].
Qed.

Lemma lower_filter_no_raise f :
  valid_filter fromisoformat f = true ->
  no_raise_but_overflow (_lower_filter fromisoformat f).
Proof.
  induction f as [sys md a o n nt fo IHa IHo IHn IHnt] using RecallFilter_rec_ind.
  cbn [valid_filter]. intros H.
  repeat (apply andb_true_iff in H as [H ?]).
  apply grammar_parts in H as Hfo. simpl in Hfo.
  cbn [_lower_filter]. apply extend_m_no_raise.
  rewrite !Forall_cons, Forall_nil. split_and!; [..|done].
  - apply extend_m_no_raise, Forall_forall. intros key _.
    destruct (dict_get key sys) as [v|] eqn:E; [|done].
    assert (Hv : typed_sysfield v = true).
    { clear -E H4. induction sys as [|[k w] sys IH]; simpl in *; [done|].
      apply andb_true_iff in H4 as [? ?]. case_match; naive_solver. }
    destruct v; try done. by apply ops_submodel_no_raise.
  - destruct md as [[]|]; done.
  - apply extend_m_no_raise. eapply Forall_impl; [exact Hfo|].
    simpl. eauto using metadata_predicate_no_raise.
  - by apply branches_no_raise.
  - by apply branches_no_raise.
  - pose proof (branches_no_raise OR n IHn ltac:(done)) as Hn.
    destruct (lower_logical _ _) as [[|? []]|]; done.
  - destruct nt as [g|]; [|done]. simpl in IHnt.
    destruct (_lower_filter fromisoformat g) eqn:E; [by rewrite root_of_ok|].
    by apply IHnt.
Qed.

(** A document that passed validation - and whose typed operators are not an
    explicit [null] - always parses: the lowering raises no exception, except the
    [OverflowError] of converting a date literal outside the supported range to
    UTC; and the tree it returns is a node in normal form. *)
Theorem valid_filter_parses f :
  valid_filter fromisoformat f = true ->
  match parse_to_ast fromisoformat f with
  | Ok root => is_node root = true /\ is_normal root = true
  | Err e => e = OverflowError
  end.
Proof.
  intros H%lower_filter_no_raise. unfold parse_to_ast.
  destruct (_lower_filter fromisoformat f) as [cs|]; [|done].
  rewrite root_of_ok. split; [apply rebuild_is_node|apply normalize_is_normal].
Qed.
End no_raise.

(** ** Findings of the lowering: explicit nulls *)

Definition null_not_filter : RecallFilter :=
  MkFilter [("title", SFOps (MkOps None None None None None None None None None (Some None)))]
    None None None None None [].

Definition null_in_filter : RecallFilter :=
  MkFilter [("title", SFOps (MkOps None None None None None None (Some VNone) None None None))]
    None None None None None [].

(** The document [{"title": {"$not": null}}] passes the grammar walk - the typed
    operators are optional, so [null] is accepted - and the lowering then raises
    [AttributeError]; likewise [{"title": {"$in": null}}] raises [TypeError]. *)
Theorem explicit_null_operator_raises fromisoformat :
  _validate_metadata_grammar fromisoformat null_not_filter = Ok () /\
  parse_to_ast fromisoformat null_not_filter = Err AttributeError /\
  _validate_metadata_grammar fromisoformat null_in_filter = Ok () /\
  parse_to_ast fromisoformat null_in_filter = Err TypeError.
Proof. by vm_compute. Qed.

(** ** The canonical hash *)

Section hash.
Context (isoformat : datetime -> string) (float_repr : pyfloat -> string).
Context (esc_ascii esc_raw : string -> string) (sha256 : string -> string).

Abbreviation canon := (_canonicalize isoformat float_repr esc_ascii).
Abbreviation dumps := (json_dumps float_repr).

Lemma dumps_node esc op cs ds :
  List.map (dumps esc) cs = List.map (dumps esc) ds ->
  dumps esc (VDict [("k", VStr "node"); ("op", VStr (op_value op)); ("children", VList cs)]) =
  dumps esc (VDict [("k", VStr "node"); ("op", VStr (op_value op)); ("children", VList ds)]).
Proof. intros H. simpl. by rewrite H. Qed.

Lemma reordered_dumps a b : reordered a b -> dumps esc_ascii (canon a) = dumps esc_ascii (canon b).
Proof.
  induction 1 as [a|op cs ds Hop Hp|op l a b l' _ IH|a b c _ IH1 _ IH2]; [done| | |congruence].
  - cbn [_canonicalize]. apply dumps_node.
    assert (op_in op [AND; OR] = true) as ->.
    { repeat (apply elem_of_cons in Hop as [->|Hop]; [done|]). by apply elem_of_nil in Hop. }
    apply sort_by_keys_perm. by rewrite Hp.
  - cbn [_canonicalize]. apply dumps_node. destruct (op_in op [AND; OR]).
    + apply sort_by_keys_perm. by rewrite !map_app, !map_cons, IH.
    + by rewrite !map_app, !map_cons, IH.
Qed.

(** [json.dumps] with and without [ensure_ascii] write the same document, so two
    values with the same ASCII encoding have the same raw encoding. *)
Context (dumps_agree : forall v w, dumps esc_ascii v = dumps esc_ascii w ->
                                   dumps esc_raw v = dumps esc_raw w).

(** Reordering the operands of [$and] and [$or], at any depth, does not change
    the cache key. *)
Theorem hash_ignores_sibling_order a b :
  reordered a b ->
  canonical_hash isoformat float_repr esc_ascii esc_raw sha256 a =
  canonical_hash isoformat float_repr esc_ascii esc_raw sha256 b.
Proof. intros H%reordered_dumps. unfold canonical_hash. by rewrite (dumps_agree _ _ H). Qed.
End hash.

(** The canonical form keeps apart an order-significant array (a tuple: exact
    [$eq], [$in], [$nin]) and any other operand at the same path and operator: no
    user-supplied value can forge the tuple's record. *)
Theorem canonical_tuple_unforgeable isoformat float_repr esc p op l v :
  (forall l', v <> VTuple l') ->
  _canonicalize isoformat float_repr esc (Clause p op (VTuple l)) <>
  _canonicalize isoformat float_repr esc (Clause p op v).
Proof. intros Hv [= Hk _]. destruct v; try done. by eapply Hv. Qed.

Lemma explicit_and_is_implicit_witness :
  parse_to_ast (fun _ => None)
    (and_only [MkFilter [("title", SFScalar (VStr "a"))] None None None None None [];
               MkFilter [("source", SFScalar (VStr "b"))] None None None None None []]) =
  Ok (Node AND [Clause ["title"] EQ (VStr "a"); Clause ["source"] EQ (VStr "b")]).
Proof.
  refine (eq_trans (explicit_and_is_implicit (fun _ => None) _
    [[Clause ["title"] EQ (VStr "a")]; [Clause ["source"] EQ (VStr "b")]] _) _);
    vm_compute; reflexivity.
Defined.

Definition sample_filter : RecallFilter :=
  MkFilter [("title", SFOps (MkOps None None None None None None (Some (VList [VStr "a"])) None None None))]
    None None None None None [("metadata.a.b", VDict [("$not", VDict [("$gte", VInt 5)])])].

Lemma valid_filter_parses_witness :
  match parse_to_ast (fun _ => None) sample_filter with
  | Ok root => is_node root = true /\ is_normal root = true
  | Err e => e = OverflowError
  end.
Proof. apply (valid_filter_parses (fun _ => None)). vm_compute. reflexivity. Defined.

Lemma hash_ignores_sibling_order_witness :
  canonical_hash (fun _ => "") (fun _ => "") (fun s => s) (fun s => s) (fun s => s)
    (Node NOT [Node AND [Clause ["title"] EQ (VStr "a"); Clause ["source"] EQ (VStr "b")]]) =
  canonical_hash (fun _ => "") (fun _ => "") (fun s => s) (fun s => s) (fun s => s)
    (Node NOT [Node AND [Clause ["source"] EQ (VStr "b"); Clause ["title"] EQ (VStr "a")]]).
Proof.
  apply (hash_ignores_sibling_order (fun _ => "") (fun _ => "") (fun s => s) (fun s => s)
    (fun s => s)).
  - intros v w H. exact H.
  - apply (reordered_child NOT []). apply reordered_swap; [left|].
    apply Permutation_swap.
Defined.

Lemma canonical_tuple_unforgeable_witness :
  _canonicalize (fun _ => "") (fun _ => "") (fun s => s) (Clause ["metadata"; "a"] EQ (VTuple [VInt 1])) <>
  _canonicalize (fun _ => "") (fun _ => "") (fun s => s) (Clause ["metadata"; "a"] EQ (VList [VInt 1])).
Proof. apply canonical_tuple_unforgeable. intros l' H. discriminate H. Defined.
