(* ===== verification/FilterPython.v ===== *)
(** The in-memory predicate compiler ([filter/compilers/python.py]): the oracle
    every backend compiler is checked against and the post-filter every engine
    applies.  Compilation threads the set of consumed keys and may raise; the
    compiled predicate is a function from a record to an outcome. *)
From S2P Require Import Prelude PyValue FilterModel FilterAst.

Local Open Scope string_scope.
Local Open Scope list_scope.

(** ** Data *)

Inductive unsupported_mode := Raise | Split.

#[export] Instance unsupported_mode_eq_dec : EqDecision unsupported_mode.
Proof. solve_decision. Defined.

(** The two fields of [CompileContext] the compilers below read. *)
Record CompileContext := MkContext {
  field_mapping : option (list (string * string));
  on_unsupported : unsupported_mode }.

(** A record handed to the predicate: an object with attributes, whose
    [source_document] is missing, [None], or an object with attributes; or a
    dict. *)
Inductive record :=
| ObjRec (attrs : list (string * value)) (source_document : option (option (list (string * value))))
| DictRec (items : list (string * value)).

(** [callable(record) -> bool] *)
Definition pred : Type := record -> result bool.

Record CompiledFilter (P : Type) := MkCompiled {
  predicate : P;
  consumed_keys : gset string;
  consumed_slice_hash : string }.
Arguments MkCompiled {P}.
Arguments predicate {P}.
Arguments consumed_keys {P}.
Arguments consumed_slice_hash {P}.

(** The compile pass: the consumed accumulator, and exceptions. *)
Definition compile (A : Type) : Type := gset string -> result (A * gset string).

Definition c_raise {A} (e : pyexn) : compile A := fun _ => Err e.
Definition c_ret {A} (a : A) : compile A := fun s => Ok (a, s).

(** [[compile(c) for c in children]] *)
Definition c_seq {A} : list (compile A) -> compile (list A) :=
  fix c_seq ms s :=
    match ms with
    | [] => Ok ([], s)
    | m :: ms' =>
        match m s with
        | Err e => Err e
        | Ok (a, s1) =>
            match c_seq ms' s1 with Ok (l, s2) => Ok (a :: l, s2) | Err e => Err e end
        end
    end.

(** ** Value helpers *)

Definition _path_str (path : list string) : string := str_join "." path.

Definition _is_number (v : value) : bool :=
  match v with VInt _ | VFloat _ => true | _ => false end.

Definition _comparable (stored operand : value) : bool :=
  if _is_number operand then _is_number stored
  else match operand, stored with
       | VBool _, VBool _ => true
       | VBool _, _ => false
       | VDate _, VDate _ => true
       | VDate _, _ => false
       | VStr _, VStr _ => true
       | VStr _, _ => false
       | _, _ => bool_decide (type_of stored = type_of operand)
       end.

Definition _system_value (v : value) : value :=
  match v with VDateLit d => VDate d | _ => v end.

Definition _align_dt (stored v : value) : result (value * value) :=
  match stored, v with
  | VDate a, VDate b =>
      match to_utc a with
      | Err e => Err e
      | Ok a' => match to_utc b with Ok b' => Ok (VDate a', VDate b') | Err e => Err e end
      end
  | _, _ => Ok (stored, v)
  end.

(** Truth value testing. *)
Definition truthy (v : value) : bool :=
  match v with
  | VNone => false
  | VBool b => b
  | VInt z => negb (Z.eqb z 0)
  | VFloat (FFin m _) => negb (Z.eqb m 0)
  | VStr s => negb (String.eqb s "")
  | VList l | VTuple l => match l with [] => false | _ => true end
  | VDict d => match d with [] => false | _ => true end
  | _ => true
  end.

(** ** System-key comparisons *)

Definition _eq_aligned (stored v : value) : result bool :=
  match _align_dt stored v with Ok (a, b) => Ok (py_eq a b) | Err e => Err e end.

Definition is_none (v : value) : bool := match v with VNone => true | _ => false end.

Definition _system_eq (stored v : value) : result bool :=
  if is_none stored then Ok false
  else if negb (_comparable stored v) then Ok false
  else _eq_aligned stored v.

Definition _system_ne (stored v : value) : result bool :=
  if is_none stored then Ok true
  else if negb (_comparable stored v) then Ok true
  else match _align_dt stored v with Ok (a, b) => Ok (negb (py_eq a b)) | Err e => Err e end.

(** [_comparable(stored, v) and _eq_aligned(stored, v)] *)
Definition system_member (stored v : value) : result bool :=
  if _comparable stored v then _eq_aligned stored v else Ok false.

Definition _system_in (stored : value) (values : list value) : result bool :=
  if is_none stored then Ok false else any_m (system_member stored) values.

Definition _system_nin (stored : value) (values : list value) : result bool :=
  if is_none stored then Ok true else neg_m (any_m (system_member stored) values).

Definition _system_range (stored v : value) (op : cmpop) : result bool :=
  if is_none stored then Ok false
  else if negb (_comparable stored v) then Ok false
  else match _align_dt stored v with Ok (a, b) => py_cmp op a b | Err e => Err e end.

(** [_RANGE_FN[op]] *)
Definition _RANGE_FN (op : Op) : result cmpop :=
  match op with
  | GT => Ok CGt | GTE => Ok CGe | LT => Ok CLt | LTE => Ok CLe
  | _ => Err KeyError
  end.

(** ** Metadata extraction and comparisons *)

Fixpoint dig (node : value) (segs : list string) : option value :=
  match segs with
  | [] => Some node
  | seg :: segs' =>
      match node with
      | VDict d => match dict_get seg d with Some n => dig n segs' | None => None end
      | _ => None
      end
  end.

(** [None] is [MISSING]. *)
Definition _md_dig (blob : list (string * value)) (segs : list string) : option value :=
  dig (VDict blob) segs.

Definition _md_present (blob : list (string * value)) (segs : list string) : bool :=
  match _md_dig blob segs with Some _ => true | None => false end.

Definition _md_is_null (blob : list (string * value)) (segs : list string) : bool :=
  match _md_dig blob segs with None => true | Some n => is_none n end.

Fixpoint _json_eq (a b : value) {struct a} : bool :=
  match a, b with
  | VBool x, VBool y => Bool.eqb x y
  | VBool _, _ | _, VBool _ => false
  | VDict d1, VDict d2 =>
      forallb (fun k => mem_str k (keys d2)) (keys d1) &&
      forallb (fun k => mem_str k (keys d1)) (keys d2) &&
      (fix go (l : list (string * value)) : bool :=
         match l with
         | [] => true
         | (k, x) :: l' =>
             match dict_get k d2 with Some y => _json_eq x y | None => false end && go l'
         end) d1
  | VList l1, VList l2 =>
      Nat.eqb (length l1) (length l2) &&
      (fix go (l1 l2 : list value) {struct l1} : bool :=
         match l1, l2 with
         | x :: l1', y :: l2' => _json_eq x y && go l1' l2'
         | _, _ => true
         end) l1 l2
  | _, _ => py_eq a b
  end.

Section compiler.
Context (fromisoformat : string -> option datetime) (isoformat : datetime -> string).
Context (hash : ast -> string).

Fixpoint _jsonable (v : value) : value :=
  match v with
  | VDateLit d | VDate d => VStr (isoformat d)
  | VDict d => VDict (List.map (fun '(k, x) => (k, _jsonable x)) d)
  | VList l | VTuple l => VList (List.map _jsonable l)
  | _ => v
  end.

(** The conversion to UTC is outside the [try]. *)
Definition _try_parse_utc (text : string) : result (option datetime) :=
  match fromisoformat text with
  | None => Ok None
  | Some parsed => match to_utc parsed with Ok u => Ok (Some u) | Err e => Err e end
  end.

Definition _md_contains (node : option value) (v : value) : bool :=
  match node with
  | None => false
  | Some (VList l) => existsb (fun item => _json_eq (_jsonable item) (_jsonable v)) l
  | Some n => _json_eq (_jsonable n) (_jsonable v)
  end.

Definition _exact_array_eq (node : option value) (expected : list value) : bool :=
  match node with
  | Some (VList l) => _json_eq (VList (List.map _jsonable l)) (VList expected)
  | _ => false
  end.

Definition _md_object_eq (node : option value) (expected : value) : bool :=
  match node with
  | Some (VDict d) => _json_eq (_jsonable (VDict d)) expected
  | _ => false
  end.

Definition _md_range_compare (node : option value) (operand : value) (op : cmpop) : result bool :=
  match node with
  | None => Ok false
  | Some n => if negb (_comparable n operand) then Ok false else py_cmp op n operand
  end.

Definition _md_date_compare (node : option value) (op : Op) (operand : datetime) : result bool :=
  match node with
  | Some (VStr s) =>
      match _try_parse_utc s with
      | Err e => Err e
      | Ok None => Ok false
      | Ok (Some parsed) =>
          if bool_decide (op = EQ) then Ok (dt_eqb parsed operand)
          else match _RANGE_FN op with Ok c => dt_cmp c parsed operand | Err e => Err e end
      end
  | _ => Ok false
  end.

(** ** Resolution on a record *)

Definition _getattr_or_missing (r : record) (name : string) : option value :=
  match r with ObjRec attrs _ => dict_get name attrs | DictRec _ => None end.

Definition _getitem_or_missing (r : record) (key : string) : option value :=
  match r with ObjRec _ _ => None | DictRec items => dict_get key items end.

Context (ctx : CompileContext).

Definition physical (key : string) : string :=
  match field_mapping ctx with
  | None => key
  | Some m => default key (dict_get key m)
  end.

Definition _resolve_system (r : record) (key : string) : value :=
  match _getattr_or_missing r (physical key) with
  | Some v => v
  | None =>
      match
        match r with
        | ObjRec _ (Some (Some doc)) => dict_get (physical key) doc
        | _ => None
        end
      with
      | Some v => v
      | None => default VNone (_getitem_or_missing r (physical key))
      end
  end.

Definition _resolve_metadata (r : record) : list (string * value) :=
  let v := match _getattr_or_missing r "metadata" with
           | Some v => Some v
           | None => _getitem_or_missing r "metadata"
           end in
  match v with Some (VDict d) => d | _ => [] end.

Definition _md_extract (r : record) (segs : list string) : option value :=
  _md_dig (_resolve_metadata r) segs.

(** ** Leaves *)

(** [Ok None] is a clause the compiler cannot express. *)
Definition _unsupported (path : list string) (reason : string) : compile pred :=
  match on_unsupported ctx with
  | Raise => c_raise (UnsupportedError (_path_str path) reason)
  | Split => c_ret (fun _ => Ok true)
  end.

Definition const_pred (b : bool) : pred := fun _ => Ok b.

Definition _compile_system_clause (key : string) (op : Op) (operand : value) : result pred :=
  let stored r := _resolve_system r key in
  if bool_decide (op = EXISTS) then Ok (const_pred (truthy operand))
  else if op_in op [IN; NIN] then
    match py_iter operand with
    | Err e => Err e
    | Ok l =>
        let values := List.map _system_value l in
        Ok (if bool_decide (op = IN)
            then fun r => _system_in (stored r) values
            else fun r => _system_nin (stored r) values)
    end
  else
    match op, operand with
    | EQ, VTuple _ => Ok (const_pred false)
    | NE, VTuple _ => Ok (const_pred true)
    | NE, VNone => Ok (fun r => Ok (negb (is_none (stored r))))
    | _, VNone => Ok (fun r => Ok (is_none (stored r)))
    | NE, _ => Ok (fun r => _system_ne (stored r) (_system_value operand))
    | EQ, _ => Ok (fun r => _system_eq (stored r) (_system_value operand))
    | _, _ =>
        match _RANGE_FN op with
        | Ok c => Ok (fun r => _system_range (stored r) (_system_value operand) c)
        | Err e => Err e
        end
    end.

Definition _md_eq_fn (segs : list string) (operand : value) : pred :=
  match operand with
  | VDateLit d => fun r => _md_date_compare (_md_extract r segs) EQ d
  | VTuple l => fun r => Ok (_exact_array_eq (_md_extract r segs) (List.map _jsonable l))
  | VDict _ => fun r => Ok (_md_object_eq (_md_extract r segs) (_jsonable operand))
  | _ => fun r => Ok (_md_contains (_md_extract r segs) operand)
  end.

Definition _md_range_fn (segs : list string) (op : Op) (operand : value) : result pred :=
  match _RANGE_FN op with
  | Err e => Err e
  | Ok c =>
      Ok match operand with
         | VDateLit d => fun r => _md_date_compare (_md_extract r segs) op d
         | _ => fun r => _md_range_compare (_md_extract r segs) operand c
         end
  end.

(** The clause on [metadata.<segs>]. *)
Definition metadata_path_clause (segs : list string) (op : Op) (operand : value) : result pred :=
  match op with
  | EXISTS =>
      Ok (if truthy operand
          then fun r => Ok (_md_present (_resolve_metadata r) segs)
          else fun r => Ok (negb (_md_present (_resolve_metadata r) segs)))
  | IN | NIN =>
      if negb (truthy operand) then Ok (const_pred (bool_decide (op = NIN)))
      else
        match py_iter operand with
        | Err e => Err e
        | Ok values =>
            let hit r := existsb (fun v => _md_contains (_md_extract r segs) v) values in
            Ok (if bool_decide (op = IN) then fun r => Ok (hit r) else fun r => Ok (negb (hit r)))
        end
  | EQ =>
      Ok match operand with
         | VNone => fun r => Ok (_md_is_null (_resolve_metadata r) segs)
         | _ => _md_eq_fn segs operand
         end
  | NE =>
      Ok match operand with
         | VNone => fun r => Ok (negb (_md_is_null (_resolve_metadata r) segs))
         | _ => fun r => neg_m (_md_eq_fn segs operand r)
         end
  | _ => _md_range_fn segs op operand
  end.

Definition lift_leaf (p : result pred) : compile pred :=
  fun s => match p with Ok f => Ok (f, s) | Err e => Err e end.

Definition _compile_metadata_clause (path : list string) (op : Op) (operand : value) : compile pred :=
  match path with
  | [_] =>
      if negb (bool_decide (op = EQ))
      then _unsupported path "only $eq is defined on the bare metadata blob"
      else c_ret (fun r => Ok (_json_eq (_jsonable (VDict (_resolve_metadata r))) (_jsonable operand)))
  | _ => lift_leaf (metadata_path_clause (tail path) op operand)
  end.

(** Add the path to the consumed keys after a leaf compiled. *)
Definition consume (path : list string) (m : compile pred) : compile pred :=
  fun s => match m s with Ok (f, s') => Ok (f, {[_path_str path]} ∪ s') | Err e => Err e end.

Definition compile_clause (path : list string) (op : Op) (operand : value) : compile pred :=
  match path with
  | [key] =>
      if mem_str key SYSTEM_KEYS
      then consume path (lift_leaf (_compile_system_clause key op operand))
      else if String.eqb key "metadata"
      then consume path (_compile_metadata_clause path op operand)
      else _unsupported path "path is neither a system key nor a metadata path"
  | _ =>
      if metadata_leaf path then consume path (_compile_metadata_clause path op operand)
      else _unsupported path "path is neither a system key nor a metadata path"
  end.

(** ** Logical nodes *)

Definition p_all (fns : list pred) : pred := fun r => all_m (fun fn : pred => fn r) fns.
Definition p_any (fns : list pred) : pred := fun r => any_m (fun fn : pred => fn r) fns.
Definition p_not (fn : pred) : pred := fun r => neg_m (fn r).

(** Compile the children in order and combine them; [all] of no predicate is
    [True] and [any] of none is [False], as the empty-children guards return. *)
Definition c_combine (comb : list pred -> pred) (ms : list (compile pred)) : compile pred :=
  fun s => match c_seq ms s with Ok (fns, s') => Ok (comb fns, s') | Err e => Err e end.

Definition c_not (m : compile pred) : compile pred :=
  fun s => match m s with Ok (fn, s') => Ok (p_not fn, s') | Err e => Err e end.

Fixpoint compile_node (n : ast) : compile pred :=
  match n with
  | Clause path op operand => compile_clause path op operand
  | Node op children =>
      if bool_decide (op = AND) then c_combine p_all (List.map compile_node children)
      else if bool_decide (op = OR) then c_combine p_any (List.map compile_node children)
      else
        match children with
        | [] => c_raise IndexError
        | c :: _ => c_not (compile_node c)
        end
  end.

Definition compile_python (n : ast) : result (CompiledFilter pred) :=
  match compile_node n ∅ with
  | Ok (p, consumed) => Ok (MkCompiled p consumed (hash n))
  | Err e => Err e
  end.
End compiler.
