(* ===== verification/FilterPythonFacts.v ===== *)
(** Theorems on the in-memory predicate: normalisation does not change it, negated
    operators are the complements of the positive ones, and when it is total. *)
From S2P Require Import Prelude PyValue FilterModel FilterAst FilterPython FilterAstFacts.

Local Open Scope string_scope.
Local Open Scope list_scope.

(** ** Equality of compilations *)

(** Same exceptions, same consumed keys, and predicates that agree on every
    record. *)
Definition same (m1 m2 : compile pred) : Prop := forall s,
  match m1 s, m2 s with
  | Ok (p, s1), Ok (q, s2) => s1 = s2 /\ forall r, p r = q r
  | Err e1, Err e2 => e1 = e2
  | _, _ => False
  end.

#[export] Instance same_equivalence : Equivalence same.
Proof.
  split.
  - intros m s. by destruct (m s) as [[]|].
  - intros m1 m2 H s. specialize (H s). destruct (m1 s) as [[]|], (m2 s) as [[]|]; naive_solver.
  - intros m1 m2 m3 H12 H23 s. specialize (H12 s). specialize (H23 s).
    destruct (m1 s) as [[p s1]|], (m2 s) as [[q s2]|], (m3 s) as [[t s3]|]; try done; try congruence.
    destruct H12 as [-> Hp], H23 as [-> Hq]. split; [done|]. intros r. by rewrite Hp.
Qed.

(** What the compiler needs of [all] and [any] for flattening to be sound. *)
Class Combinator (comb : list pred -> pred) : Prop := {
  comb_one p r : comb [p] r = p r;
  comb_concat pss r : comb (List.concat pss) r = comb (List.map comb pss) r;
  comb_ext ps qs : Forall2 (fun p q => forall r, p r = q r) ps qs -> forall r, comb ps r = comb qs r }.

Lemma match_true (b : result bool) :
  match b with Ok true => Ok true | Ok false => Ok false | Err e => Err e end = b.
Proof. by destruct b as [[]|]. Qed.

#[export] Instance p_all_combinator : Combinator p_all.
Proof.
  split.
  - intros p r. apply match_true.
  - intros pss r. unfold p_all. induction pss as [|ps pss IH]; [done|]. simpl.
    rewrite all_m_app, IH. unfold p_all. by destruct (all_m _ ps) as [[]|].
  - intros ps qs H r. unfold p_all. induction H as [|p q ps qs Hp _ IH]; [done|].
    simpl. by rewrite Hp, IH.
Qed.

#[export] Instance p_any_combinator : Combinator p_any.
Proof.
  split.
  - intros p r. apply match_true.
  - intros pss r. unfold p_any. induction pss as [|ps pss IH]; [done|]. simpl.
    rewrite any_m_app, IH. unfold p_any. by destruct (any_m _ ps) as [[]|].
  - intros ps qs H r. unfold p_any. induction H as [|p q ps qs Hp _ IH]; [done|].
    simpl. by rewrite Hp, IH.
Qed.

(** Two sequences of children that compile to the same. *)
Lemma c_seq_same ms ns s :
  Forall2 same ms ns ->
  match c_seq ms s, c_seq ns s with
  | Ok (ps, s1), Ok (qs, s2) => s1 = s2 /\ Forall2 (fun p q : pred => forall r, p r = q r) ps qs
  | Err e1, Err e2 => e1 = e2
  | _, _ => False
  end.
Proof.
  intros H. revert s. induction H as [|m n ms ns Hmn _ IH]; intros s; simpl; [done|].
  specialize (Hmn s). destruct (m s) as [[p s1]|], (n s) as [[q s2]|]; try done.
  destruct Hmn as [-> Hp]. specialize (IH s2).
  destruct (c_seq ms s2) as [[ps s3]|], (c_seq ns s2) as [[qs s4]|]; try done.
  destruct IH as [-> Hps]. split; [done|]. by constructor.
Qed.

Lemma c_seq_app ms ns s :
  @c_seq pred (ms ++ ns) s =
  match c_seq ms s with
  | Ok (ps, s1) => match c_seq ns s1 with Ok (qs, s2) => Ok (ps ++ qs, s2) | Err e => Err e end
  | Err e => Err e
  end.
Proof.
  revert s. induction ms as [|m ms IH]; intros s; simpl.
  - by destruct (c_seq ns s) as [[]|].
  - destruct (m s) as [[p s1]|]; [|done]. rewrite IH.
    destruct (c_seq ms s1) as [[ps s2]|]; [|done]. by destruct (c_seq ns s2) as [[]|].
Qed.

Section combine.
Context {comb : list pred -> pred} `{!Combinator comb}.

#[export] Instance c_combine_proper : Proper (Forall2 same ==> same) (c_combine comb).
Proof.
  intros ms ns H s. unfold c_combine. pose proof (c_seq_same ms ns s H) as Hs.
  destruct (c_seq ms s) as [[ps s1]|], (c_seq ns s) as [[qs s2]|]; try done.
  destruct Hs as [-> Hs]. split; [done|]. by apply comb_ext.
Qed.

Lemma combine_one m : same (c_combine comb [m]) m.
Proof.
  intros s. unfold c_combine. simpl. destruct (m s) as [[p s1]|]; [|done].
  split; [done|]. apply comb_one.
Qed.

Lemma c_seq_combine_concat mss s :
  match c_seq (List.map (c_combine comb) mss) s, c_seq (List.concat mss) s with
  | Ok (ps, s1), Ok (qs, s2) => s1 = s2 /\ exists pss, ps = List.map comb pss /\ qs = List.concat pss
  | Err e1, Err e2 => e1 = e2
  | _, _ => False
  end.
Proof.
  revert s. induction mss as [|ms mss IH]; intros s; [by split; [|exists []]|]; cbn [List.map List.concat c_seq].
  rewrite c_seq_app. unfold c_combine at 1. destruct (c_seq ms s) as [[ps s1]|]; [|done].
  specialize (IH s1).
  destruct (c_seq (List.map _ mss) s1) as [[qs s2]|], (c_seq (List.concat mss) s1) as [[ts s3]|]; try done.
  destruct IH as [-> (pss & -> & ->)]. split; [done|]. by exists (ps :: pss).
Qed.

(** Splicing the operands of a nested combination. *)
Lemma combine_concat mss :
  same (c_combine comb (List.concat mss)) (c_combine comb (List.map (c_combine comb) mss)).
Proof.
  intros s. pose proof (c_seq_combine_concat mss s) as H.
  assert (E : forall ms, c_combine comb ms s =
    match c_seq ms s with Ok (fns, s') => Ok (comb fns, s') | Err e => Err e end) by done.
  rewrite !E.
  destruct (c_seq (List.map _ mss) s) as [[ps s1]|], (c_seq (List.concat mss) s) as [[qs s2]|]; try done.
  destruct H as [-> (pss & -> & ->)]. split; [done|]. apply comb_concat.
Qed.
End combine.

(** Nodes carry a logical operator. *)
Fixpoint wf_ast (n : ast) : bool :=
  match n with
  | Clause _ _ _ => true
  | Node op cs => op_in op [AND; OR; NOT] && forallb wf_ast cs
  end.

Section facts.
Context (fromisoformat : string -> option datetime) (isoformat : datetime -> string).
Context (ctx : CompileContext).

Abbreviation compile_node := (compile_node fromisoformat isoformat ctx).

Definition comb_of (op : Op) : list pred -> pred := if bool_decide (op = AND) then p_all else p_any.

Instance comb_of_combinator op : Combinator (comb_of op).
Proof. unfold comb_of. case_bool_decide; apply _. Qed.

Lemma compile_logical op cs :
  op ∈ [AND; OR] -> compile_node (Node op cs) = c_combine (comb_of op) (List.map compile_node cs).
Proof. intros [->|[->|[]%elem_of_nil]%elem_of_cons]%elem_of_cons; done. Qed.

Lemma compile_splice op n :
  op ∈ [AND; OR] ->
  same (c_combine (comb_of op) (List.map compile_node (splice op n))) (compile_node n).
Proof.
  intros Hop. destruct n as [p o v|op' cs]; simpl splice; [apply combine_one|].
  case_bool_decide as E; [|apply combine_one]. subst. by rewrite compile_logical.
Qed.

Lemma compile_rebuild op fl :
  op ∈ [AND; OR] ->
  same (compile_node (rebuild op fl)) (c_combine (comb_of op) (List.map compile_node fl)).
Proof.
  intros Hop. destruct fl as [|[p o v|op' cs] [|d fl]]; simpl rebuild;
    try (by rewrite compile_logical).
  - rewrite compile_logical by left. simpl List.map. by rewrite !combine_one.
  - simpl List.map. by rewrite combine_one.
Qed.

Lemma compile_flat_splice op ns :
  op ∈ [AND; OR] ->
  same (c_combine (comb_of op) (List.map compile_node (List.flat_map (splice op) ns)))
       (c_combine (comb_of op) (List.map compile_node ns)).
Proof.
  intros Hop. rewrite flat_map_concat_map, concat_map, List.map_map, combine_concat, List.map_map.
  apply c_combine_proper. apply Forall2_fmap. apply Forall_Forall2_diag, Forall_forall.
  intros n _. by apply compile_splice.
Qed.

Lemma c_not_same m n : same m n -> same (c_not m) (c_not n).
Proof.
  intros H s. specialize (H s). unfold c_not. destruct (m s) as [[]|], (n s) as [[]|]; try done.
  destruct H as [-> H]. split; [done|]. intros r. unfold p_not. by rewrite H.
Qed.

(** C1.  Normalising a tree changes neither what compiling it raises, nor the keys
    it reports consumed, nor the outcome of the predicate on any record - including
    which exception a record raises, since the order of evaluation is kept. *)
Theorem normalize_preserves_predicate n :
  wf_ast n = true -> same (compile_node (_normalize n)) (compile_node n).
Proof.
  induction n as [p o v|op cs IH] using ast_rec_ind; [done|].
  cbn [wf_ast _normalize]. intros [Hop Hcs]%andb_true_iff.
  assert (Hmap : Forall2 same (List.map compile_node (List.map _normalize cs)) (List.map compile_node cs)).
  { rewrite List.map_map. apply Forall2_fmap, Forall_Forall2_diag. apply forallb_Forall in Hcs.
    eapply Forall_impl; [apply Forall_and; split; [apply IH|apply Hcs]|]. naive_solver. }
  case_bool_decide as E.
  - subst. destruct cs as [|c cs]; [done|]. simpl. apply c_not_same.
    by inversion Hmap.
  - assert (Hao : op ∈ [AND; OR]) by (destruct op; try done; by repeat constructor).
    rewrite compile_rebuild, compile_flat_splice by done. rewrite compile_logical by done.
    by rewrite Hmap.
Qed.
(** ** Negated operators *)

(** The paths the compiler dispatches to a value comparison. *)
Definition comparison_path (path : list string) : bool :=
  match path with
  | [key] => mem_str key SYSTEM_KEYS
  | seg :: _ => String.eqb seg "metadata"
  | [] => false
  end.

Lemma system_ne_complement stored v : _system_ne stored v = neg_m (_system_eq stored v).
Proof.
  unfold _system_ne, _system_eq, _eq_aligned. destruct (is_none stored); [done|].
  destruct (negb _); [done|]. by destruct (_align_dt stored v) as [[]|].
Qed.

Lemma system_nin_complement stored vs : _system_nin stored vs = neg_m (_system_in stored vs).
Proof. unfold _system_nin, _system_in. by destruct (is_none stored). Qed.

Lemma system_complement key pos neg operand p q :
  (pos, neg) ∈ [(EQ, NE); (IN, NIN)] ->
  _compile_system_clause ctx key pos operand = Ok q ->
  _compile_system_clause ctx key neg operand = Ok p ->
  forall r, p r = neg_m (q r).
Proof.
  intros [[= -> ->]|[[= -> ->]|[]%elem_of_nil]%elem_of_cons]%elem_of_cons;
    unfold _compile_system_clause; simpl.
  - destruct operand; intros [= <-] [= <-] r; try done; apply system_ne_complement.
  - destruct (py_iter operand); [|done]. intros [= <-] [= <-] r. apply system_nin_complement.
Qed.

Lemma metadata_complement segs pos neg operand p q :
  (pos, neg) ∈ [(EQ, NE); (IN, NIN)] ->
  metadata_path_clause fromisoformat isoformat segs pos operand = Ok q ->
  metadata_path_clause fromisoformat isoformat segs neg operand = Ok p ->
  forall r, p r = neg_m (q r).
Proof.
  intros [[= -> ->]|[[= -> ->]|[]%elem_of_nil]%elem_of_cons]%elem_of_cons;
    unfold metadata_path_clause; simpl.
  - destruct operand; by intros [= <-] [= <-] r.
  - destruct (negb (truthy operand)); [by intros [= <-] [= <-] r|].
    destruct (py_iter operand); [|done]. by intros [= <-] [= <-] r.
Qed.

Lemma compile_clause_cases path op operand s p s' :
  comparison_path path = true ->
  compile_clause fromisoformat isoformat ctx path op operand s = Ok (p, s') ->
  (exists key, path = [key] /\ _compile_system_clause ctx key op operand = Ok p) \/
  (exists seg segs, path = "metadata" :: seg :: segs /\
     metadata_path_clause fromisoformat isoformat (seg :: segs) op operand = Ok p).
Proof.
  destruct path as [|k [|seg segs]]; simpl; [done| |].
  - intros ->. unfold consume, lift_leaf.
    destruct (_compile_system_clause ctx k op operand) eqn:E; [|done]. intros [= -> _]. eauto.
  - intros E. unfold metadata_leaf. rewrite E. apply String.eqb_eq in E as ->.
    unfold consume, lift_leaf. simpl.
    destruct (metadata_path_clause _ _ _ _ _) eqn:E; [|done]. intros [= -> _]. eauto 6.
Qed.

(** On a system key or a metadata path, [$ne] is the exact complement of [$eq]
    and [$nin] of [$in], record by record: a record whose value is absent, null or of
    another type is kept by the negation exactly when the positive form excludes
    it. *)
Theorem negated_operator_complements path pos neg operand s q s1 p s2 :
  comparison_path path = true -> (pos, neg) ∈ [(EQ, NE); (IN, NIN)] ->
  compile_clause fromisoformat isoformat ctx path pos operand s = Ok (q, s1) ->
  compile_clause fromisoformat isoformat ctx path neg operand s = Ok (p, s2) ->
  forall r, p r = neg_m (q r).
Proof.
  intros Hpath Hops Hq Hp.
  apply compile_clause_cases in Hq as [(k & -> & Hq)|(seg & segs & -> & Hq)]; [| |done..];
    apply compile_clause_cases in Hp as [(k' & E & Hp)|(seg' & segs' & E & Hp)];
    simplify_eq; try done.
  - by eapply system_complement.
  - by eapply metadata_complement.
Qed.

(** ** Exceptions of the predicate *)

(** A range operand that is a scalar; a date literal is in UTC, as the lowering
    builds it. *)
Definition tame_leaf (path : list string) (op : Op) (operand : value) : bool :=
  if op_in op [GT; GTE; LT; LTE] then
    match operand with
    | VNone => Nat.eqb (length path) 1
    | VBool _ | VInt _ | VFloat _ | VStr _ => true
    | VDateLit d => bool_decide (dt_offset d = Some 0%Z)
    | VDate _ => Nat.eqb (length path) 1
    | _ => false
    end
  else true.

Definition tame (n : ast) : bool :=
  forallb (fun l => match l with Clause p o v => tame_leaf p o v | _ => true end) (leaves n).

Abbreviation quiet := no_raise_but_overflow.

Lemma quiet_neg b : quiet b -> quiet (neg_m b).
Proof. by destruct b. Qed.

Lemma quiet_all {A} (f : A -> result bool) l : Forall (fun x => quiet (f x)) l -> quiet (all_m f l).
Proof. induction 1 as [|x l Hx _ IH]; simpl; [done|]. by destruct (f x) as [[]|]. Qed.

Lemma quiet_any {A} (f : A -> result bool) l : Forall (fun x => quiet (f x)) l -> quiet (any_m f l).
Proof. induction 1 as [|x l Hx _ IH]; simpl; [done|]. by destruct (f x) as [[]|]. Qed.

Lemma align_quiet a b : quiet (_align_dt a b).
Proof.
  destruct a, b; try done. simpl. destruct (to_utc d) eqn:E; [|by apply to_utc_err in E].
  destruct (to_utc d0) eqn:E'; [done|by apply to_utc_err in E'].
Qed.

Lemma eq_aligned_quiet a b : quiet (_eq_aligned a b).
Proof. unfold _eq_aligned. pose proof (align_quiet a b). by destruct (_align_dt a b) as [[]|]. Qed.

Lemma system_range_quiet stored v c :
  match v with VNone | VBool _ | VInt _ | VFloat _ | VStr _ | VDate _ => true | _ => false end = true ->
  quiet (_system_range stored v c).
Proof.
  intros Hv. unfold _system_range. destruct stored; try done; destruct v; try done.
  simpl. destruct (to_utc d) as [a|] eqn:Ea; [|by apply to_utc_err in Ea].
  destruct (to_utc d0) as [b|] eqn:Eb; [|by apply to_utc_err in Eb].
  simpl. by rewrite dt_cmp_utc by eauto with khora.
Qed.

Lemma md_date_quiet node op d :
  dt_offset d = Some 0%Z -> op ∈ [EQ; GT; GTE; LT; LTE] ->
  quiet (_md_date_compare fromisoformat node op d).
Proof.
  intros Hd Hop. destruct node as [[]|]; try done. simpl. unfold _try_parse_utc.
  destruct (fromisoformat s) as [x|]; [|done].
  destruct (to_utc x) as [u|] eqn:E; [|by apply to_utc_err in E].
  case_bool_decide; [done|].
  assert (exists c, _RANGE_FN op = Ok c) as [c ->].
  { repeat (apply elem_of_cons in Hop as [->|Hop]; [eauto; done|]). by apply elem_of_nil in Hop. }
  by rewrite dt_cmp_utc by eauto with khora.
Qed.

Lemma system_clause_quiet key op operand p :
  tame_leaf [key] op operand = true -> _compile_system_clause ctx key op operand = Ok p ->
  forall r, quiet (p r).
Proof.
  unfold _compile_system_clause. intros Ht.
  case_bool_decide; [by intros [= <-]|].
  destruct (op_in op [IN; NIN]) eqn:Ein.
  - destruct (py_iter operand) as [l|]; [|done]. intros [= <-] r.
    assert (Hany : quiet (any_m (system_member (_resolve_system ctx r key)) (List.map _system_value l))).
    { apply quiet_any, Forall_forall. intros v _. unfold system_member.
      case_match; [apply eq_aligned_quiet|done]. }
    case_bool_decide; unfold _system_in, _system_nin; case_match; try done. by apply quiet_neg.
  - assert (Heq : forall r v, quiet (_system_eq (_resolve_system ctx r key) v)).
    { intros r v. unfold _system_eq. repeat (case_match; try done). apply eq_aligned_quiet. }
    assert (Hne : forall r v, quiet (_system_ne (_resolve_system ctx r key) v)).
    { intros r v. rewrite system_ne_complement. by apply quiet_neg. }
    destruct op; try done; destruct operand; try done; simpl; intros [= <-] r; simpl; auto;
      by apply system_range_quiet.
Qed.

Lemma md_eq_quiet segs operand r :
  quiet (_md_eq_fn fromisoformat isoformat segs operand r) .
Proof.
  destruct operand; try done. simpl. unfold _md_date_compare, _try_parse_utc.
  destruct (_md_extract r segs) as [[]|]; try done.
  destruct (fromisoformat s) as [x|]; [|done].
  destruct (to_utc x) eqn:E; [done|by apply to_utc_err in E].
Qed.

Lemma md_range_quiet node v c :
  match v with VBool _ | VInt _ | VFloat _ | VStr _ => true | _ => false end = true ->
  quiet (_md_range_compare node v c).
Proof. destruct node as [n|]; [|done]. by destruct v, n. Qed.

Lemma md_range_fn_quiet segs op operand p r :
  op ∈ [GT; GTE; LT; LTE] -> tame_leaf ("metadata" :: segs) op operand = true -> segs <> [] ->
  _md_range_fn fromisoformat segs op operand = Ok p -> quiet (p r).
Proof.
  intros Hop Ht Hsegs. unfold _md_range_fn, tame_leaf in *.
  assert (op_in op [GT; GTE; LT; LTE] = true /\ op ∈ [EQ; GT; GTE; LT; LTE]) as [Ein Hop'].
  { split; [|by right]. repeat (apply elem_of_cons in Hop as [->|Hop]; [done|]). by apply elem_of_nil in Hop. }
  rewrite Ein in Ht. destruct (_RANGE_FN op) as [c|]; [|done]. intros [= <-].
  destruct segs; [done|].
  destruct operand; try done; try (by apply md_range_quiet).
  apply md_date_quiet; [by apply bool_decide_eq_true in Ht|done].
Qed.

Lemma metadata_clause_quiet segs op operand p :
  segs <> [] -> tame_leaf ("metadata" :: segs) op operand = true ->
  metadata_path_clause fromisoformat isoformat segs op operand = Ok p ->
  forall r, quiet (p r).
Proof.
  intros Hsegs Ht Hp r. destruct segs as [|seg segs]; [done|].
  destruct op; simpl in Hp; try done.
  - destruct operand; simplify_eq; try done. by apply (md_eq_quiet _ (VDateLit d)).
  - destruct operand; simplify_eq; try done. by apply quiet_neg, (md_eq_quiet _ (VDateLit d)).
  - eapply md_range_fn_quiet; [|exact Ht|done|exact Hp]. by repeat constructor.
  - eapply md_range_fn_quiet; [|exact Ht|done|exact Hp]. by repeat constructor.
  - eapply md_range_fn_quiet; [|exact Ht|done|exact Hp]. by repeat constructor.
  - eapply md_range_fn_quiet; [|exact Ht|done|exact Hp]. by repeat constructor.
  - repeat case_match; by simplify_eq.
  - repeat case_match; by simplify_eq.
  - case_match; by simplify_eq.
Qed.

Lemma unsupported_quiet path reason s p s' :
  _unsupported ctx path reason s = Ok (p, s') -> forall r, quiet (p r).
Proof. unfold _unsupported. case_match; [done|]. by intros [= <- _]. Qed.

Lemma clause_quiet path op operand s p s' :
  tame_leaf path op operand = true ->
  compile_clause fromisoformat isoformat ctx path op operand s = Ok (p, s') ->
  forall r, quiet (p r).
Proof.
  intros Ht H. destruct (comparison_path path) eqn:Hc.
  - apply compile_clause_cases in H as [(k & -> & H)|(seg & segs & -> & H)]; [| |done].
    + by eapply system_clause_quiet.
    + eapply (metadata_clause_quiet (seg :: segs)); [done|exact Ht|exact H].
  - destruct path as [|k [|seg segs]]; simpl in H, Hc.
    + by eapply unsupported_quiet.
    + rewrite Hc in H. destruct (String.eqb k "metadata"); [|by eapply unsupported_quiet].
      unfold consume, _compile_metadata_clause in H. destruct (negb (bool_decide (op = EQ))).
      * destruct (_unsupported _ _ _ s) as [[q s1]|] eqn:E; [|done]. injection H as <- _.
        by eapply unsupported_quiet.
      * by injection H as <- _.
    + unfold metadata_leaf in H. rewrite Hc in H. by eapply unsupported_quiet.
Qed.

Lemma c_seq_preds (ns : list ast) s ps s' :
  c_seq (List.map compile_node ns) s = Ok (ps, s') ->
  Forall (fun p => exists n t t', n ∈ ns /\ compile_node n t = Ok (p, t')) ps.
Proof.
  revert s ps s'. induction ns as [|n ns IH]; intros s ps s'; simpl; [by intros [= <- _]|].
  destruct (compile_node n s) as [[p s1]|] eqn:E; [|done].
  destruct (c_seq (List.map compile_node ns) s1) as [[qs s2]|] eqn:E'; [|done].
  intros [= <- _]. constructor.
  - exists n, s, s1. split; [left|done].
  - eapply Forall_impl; [by eapply IH|]. intros q (m & t & t' & Hm & Hq).
    exists m, t, t'. split; [by right|done].
Qed.

(** A predicate whose range operands are scalars never raises on any record,
    whatever the record holds, except for the [OverflowError] of converting a stored
    datetime outside the supported range to UTC. *)
Theorem predicate_never_raises n s p s' :
  wf_ast n = true -> tame n = true -> compile_node n s = Ok (p, s') ->
  forall r, quiet (p r).
Proof.
  revert s p s'. induction n as [path o v|op cs IH] using ast_rec_ind; intros s p s' Hwf Ht H.
  - unfold tame in Ht. simpl in Ht. rewrite andb_true_r in Ht. by eapply clause_quiet.
  - cbn [wf_ast] in Hwf. apply andb_true_iff in Hwf as [_ Hcs].
    assert (Hsub : forall c, c ∈ cs -> forall s q s', compile_node c s = Ok (q, s') -> forall r, quiet (q r)).
    { intros c Hc t q t' Hq. rewrite Forall_forall in IH. eapply (IH c Hc); [| |exact Hq].
      - apply forallb_Forall in Hcs. by eapply Forall_forall in Hcs.
      - unfold tame in *. apply forallb_Forall, Forall_forall. intros l Hl.
        apply forallb_Forall in Ht. rewrite Forall_forall in Ht. apply Ht. simpl.
        apply list_elem_of_In, in_flat_map. exists c. by rewrite <- !list_elem_of_In. }
    assert (Hpreds : forall t ps t', c_seq (List.map compile_node cs) t = Ok (ps, t') ->
      forall r, Forall (fun q : pred => quiet (q r)) ps).
    { intros t ps t' Hps r. eapply Forall_impl; [by eapply c_seq_preds|].
      intros q (c & u & u' & Hc & Hq). by eapply Hsub. }
    simpl in H. destruct (bool_decide (op = AND)); [|destruct (bool_decide (op = OR))].
    + unfold c_combine in H. destruct (c_seq _ s) as [[ps s1]|] eqn:E; [|done].
      injection H as <- _. intros r. apply quiet_all. by eapply Hpreds.
    + unfold c_combine in H. destruct (c_seq _ s) as [[ps s1]|] eqn:E; [|done].
      injection H as <- _. intros r. apply quiet_any. by eapply Hpreds.
    + destruct cs as [|c cs]; [done|]. unfold c_not in H.
      destruct (compile_node c s) as [[q s1]|] eqn:E; [|done]. injection H as <- _.
      intros r. apply quiet_neg. eapply Hsub; [left|done].
Qed.

(** ** Datetime ranges *)

(** When a datetime is in the range an operator and a UTC bound describe, reading a
    naive one as UTC. *)
Definition in_range (c : cmpop) (a b : datetime) : Prop :=
  exists a' b', to_utc a = Ok a' /\ to_utc b = Ok b' /\
    cmp_of c (Z.compare (dt_local a') (dt_local b')) = true.

Lemma system_range_date stored d c :
  _system_range stored (VDate d) c = Ok true <->
  exists a, stored = VDate a /\ in_range c a d.
Proof.
  unfold in_range. split.
  - destruct stored as [ | | | | |a| | | | ]; try done. unfold _system_range. simpl.
    destruct (to_utc a) as [a'|] eqn:Ea; [|done]. destruct (to_utc d) as [b'|] eqn:Eb; [|done].
    simpl. rewrite dt_cmp_utc by eauto with khora. intros [= E]. eauto 8.
  - intros (a & -> & a' & b' & Ea & Eb & E). unfold _system_range. simpl. rewrite Ea, Eb.
    simpl. rewrite dt_cmp_utc by eauto with khora. by rewrite E.
Qed.

(** A [$date] range on a metadata path keeps a record exactly when the stored
    node is a string that parses as ISO-8601 and whose instant, a naive one read as
    UTC, is on the required side of the operand; everything else is excluded, never
    an error. *)
Theorem metadata_date_range segs op c d p :
  _RANGE_FN op = Ok c -> dt_offset d = Some 0%Z ->
  _md_range_fn fromisoformat segs op (VDateLit d) = Ok p ->
  forall r, p r = Ok true <->
    exists s x, _md_extract r segs = Some (VStr s) /\ fromisoformat s = Some x /\
      exists u, to_utc x = Ok u /\ cmp_of c (Z.compare (dt_local u) (dt_local d)) = true.
Proof.
  intros Hc Hd. unfold _md_range_fn. rewrite Hc. intros [= <-] r.
  assert (Hne : bool_decide (op = EQ) = false) by (by destruct op).
  unfold _md_date_compare, _try_parse_utc. rewrite Hne, Hc. split.
  - destruct (_md_extract r segs) as [[ | | | |s| | | | | ]|]; try done.
    destruct (fromisoformat s) as [x|] eqn:Ex; [|done].
    destruct (to_utc x) as [u|] eqn:Eu; [|done].
    rewrite dt_cmp_utc by eauto with khora. intros [= E]. eauto 10.
  - intros (s & x & -> & -> & u & Eu & E). rewrite Eu.
    rewrite dt_cmp_utc by eauto with khora. by rewrite E.
Qed.
End facts.

(** ** Findings *)

Definition plain_ctx : CompileContext := MkContext None Split.

Definition object_range_filter : RecallFilter :=
  MkFilter [] None None None None None [("metadata.a", VDict [("$gt", VDict [("b", VInt 1)])])].

(** [datetime.fromisoformat] as far as the example needs it: the first instant of
    year 1 at offset +05:00, and the epoch. *)
Definition sample_fromiso (s : string) : option datetime :=
  if String.eqb s "0001-01-01T00:00:00+05:00" then Some (MkDatetime dt_min (Some 18000000000%Z))
  else if String.eqb s "1970-01-01T00:00:00+00:00" then Some (dt_utc 0)
  else None.

Definition date_range_filter : RecallFilter :=
  MkFilter [] None None None None None
    [("metadata.a", VDict [("$gt", VDict [("$date", VStr "1970-01-01T00:00:00+00:00")])])].

(** Parse a document, compile it and run it on one record. *)
Definition run_filter (fromiso : string -> option datetime) (f : RecallFilter) (r : record)
  : result bool :=
  match parse_to_ast fromiso f with
  | Err e => Err e
  | Ok n =>
      match compile_python fromiso (fun _ => "") (fun _ => "") plain_ctx n with
      | Err e => Err e
      | Ok c => predicate c r
      end
  end.

(** "Never abort" does not hold in general: the validated filter
    [{"metadata.a": {"$gt": {"b": 1}}}] raises [TypeError] on a record whose [a] is an
    object, and the validated [$date] range raises [OverflowError] on a record whose
    [a] is the string ["0001-01-01T00:00:00+05:00"]. *)
Theorem predicate_can_raise :
  valid_filter sample_fromiso object_range_filter = true /\
  run_filter sample_fromiso object_range_filter
    (DictRec [("metadata", VDict [("a", VDict [("b", VInt 2)])])]) = Err TypeError /\
  valid_filter sample_fromiso date_range_filter = true /\
  run_filter sample_fromiso date_range_filter
    (DictRec [("metadata", VDict [("a", VStr "0001-01-01T00:00:00+05:00")])]) = Err OverflowError.
Proof. vm_compute. done. Qed.

(** ** Witnesses *)

Definition sample_node : ast :=
  Node OR [Node OR [Clause ["title"] EQ (VStr "a")]; Node AND [Node NOT [Clause ["source"] NIN (VTuple [VStr "x"])]]].

Lemma normalize_preserves_predicate_witness :
  wf_ast sample_node = true /\
  same (compile_node sample_fromiso (fun _ => "") plain_ctx (_normalize sample_node))
       (compile_node sample_fromiso (fun _ => "") plain_ctx sample_node).
Proof. split; [reflexivity|]. apply normalize_preserves_predicate. reflexivity. Defined.

Lemma negated_operator_complements_witness :
  exists p q, (forall r, p r = neg_m (q r)) /\
    p (DictRec [("title", VStr "a")]) = Ok false /\ p (DictRec []) = Ok true.
Proof.
  eexists _, _. split.
  - intros r. refine (negated_operator_complements sample_fromiso (fun _ => "") plain_ctx
      ["title"] EQ NE (VStr "a") ∅ _ _ _ _ eq_refl _ eq_refl eq_refl r).
    left.
  - split; vm_compute; reflexivity.
Defined.

Lemma predicate_never_raises_witness :
  exists p, p (DictRec [("metadata", VDict [("a", VStr "z")])]) = Ok false /\
    forall r, no_raise_but_overflow (p r).
Proof.
  eexists. split; cycle 1.
  - intros r. refine (predicate_never_raises sample_fromiso (fun _ => "") plain_ctx
      (Node AND [Clause ["metadata"; "a"] GT (VInt 3)]) ∅ _ _ eq_refl eq_refl eq_refl r).
  - vm_compute. reflexivity.
Defined.

Lemma metadata_date_range_witness :
  exists p, forall r, p r = Ok true <->
    exists s x, _md_extract r ["a"] = Some (VStr s) /\ sample_fromiso s = Some x /\
      exists u, to_utc x = Ok u /\ cmp_of CGe (Z.compare (dt_local u) 0) = true.
Proof.
  eexists. refine (metadata_date_range sample_fromiso ["a"] GTE CGe (dt_utc 0) _ eq_refl eq_refl eq_refl).
Defined.
