(* ===== verification/FilterSplit.v ===== *)
(** Split-mode pushdown ([filter/compilers/_split.py]): which subtree of a filter a
    backend may evaluate when it cannot evaluate all of it, and what is reported as
    consumed and as deferred to the in-memory post-filter. *)
From S2P Require Import Prelude PyValue FilterModel FilterAst FilterPython.

Local Open Scope string_scope.
Local Open Scope list_scope.

Definition system_key_declared (ctx : CompileContext) (key : string) : bool :=
  match field_mapping ctx with
  | None => true
  | Some m => mem_str key (keys m)
  end.

(** [Counter(l)[x]] *)
Definition count_str (x : string) (l : list string) : nat :=
  length (filter (fun y => String.eqb x y) l).

Fixpoint _leaf_paths (n : ast) : list string :=
  match n with
  | Clause path _ _ => [str_join "." path]
  | Node _ cs => List.flat_map _leaf_paths cs
  end.

Section split.
(** The compiler's leaf predicate, and [id]: the identity of a node. *)
Context (ok : ast -> bool) (ident : ast -> Z).

(** [node_consumable], with the memo of one compile pass; [all] stops at the first
    child that is not consumable. *)
Fixpoint node_consumable (n : ast) (memo : gmap Z bool) : bool * gmap Z bool :=
  match memo !! ident n with
  | Some cached => (cached, memo)
  | None =>
      let '(result, memo') :=
        match n with
        | Clause _ _ _ => (ok n, memo)
        | Node _ cs =>
            (fix go (cs : list ast) (memo : gmap Z bool) : bool * gmap Z bool :=
               match cs with
               | [] => (true, memo)
               | c :: cs' =>
                   let '(b, memo1) := node_consumable c memo in
                   if b then go cs' memo1 else (false, memo1)
               end) cs memo
        end in
      (result, <[ident n := result]> memo')
  end.

(** [_prune]; [None] is a subtree deferred whole. *)
Fixpoint _prune (n : ast) (memo : gmap Z bool) : option ast * gmap Z bool :=
  match n with
  | Clause _ _ _ =>
      let '(b, memo1) := node_consumable n memo in (if b then Some n else None, memo1)
  | Node op cs =>
      if bool_decide (op = AND) then
        let '(kept, memo') :=
          (fix go (cs : list ast) (memo : gmap Z bool) : list ast * gmap Z bool :=
             match cs with
             | [] => ([], memo)
             | c :: cs' =>
                 let '(p, memo1) := _prune c memo in
                 let '(kept, memo2) := go cs' memo1 in
                 (match p with Some n' => n' :: kept | None => kept end, memo2)
             end) cs memo in
        (Some (Node AND kept), memo')
      else
        let '(b, memo1) := node_consumable n memo in (if b then Some n else None, memo1)
  end.

Definition consumed_subtree (n : ast) (memo : gmap Z bool) : ast :=
  match fst (_prune n memo) with
  | None => Node AND []
  | Some (Clause p o v) => _normalize (Node AND [Clause p o v])
  | Some (Node op cs) => _normalize (Node op cs)
  end.

Definition _deferred_from_slice (n slice : ast) : gset string :=
  list_to_set
    (filter (fun p => Nat.ltb (count_str p (_leaf_paths slice)) (count_str p (_leaf_paths n)))
      (_leaf_paths n)).

Definition deferred_paths (n : ast) (memo : gmap Z bool) : gset string :=
  _deferred_from_slice n (consumed_subtree n memo).

Context (hash : ast -> string).

Definition consumed_slice_hash (n : ast) (memo : gmap Z bool) : string :=
  hash (consumed_subtree n memo).

Definition split_report (n : ast) (mode : unsupported_mode) (memo : gmap Z bool)
  : gset string * string :=
  match mode with
  | Raise => (∅, hash n)
  | Split =>
      let slice := consumed_subtree n memo in
      (_deferred_from_slice n slice, hash slice)
  end.
End split.

(** ** Specification: the same without the memo *)

Fixpoint consumable (ok : ast -> bool) (n : ast) : bool :=
  match n with
  | Clause _ _ _ => ok n
  | Node _ cs => forallb (consumable ok) cs
  end.

Fixpoint pruned (ok : ast -> bool) (n : ast) : option ast :=
  match n with
  | Clause _ _ _ => if ok n then Some n else None
  | Node op cs =>
      if bool_decide (op = AND)
      then Some (Node AND (List.flat_map (fun c =>
             match pruned ok c with Some n' => [n'] | None => [] end) cs))
      else if forallb (consumable ok) cs then Some n else None
  end.
