(* ===== verification/FilterSplitFacts.v ===== *)
(** Soundness of split-mode pushdown: the memo is transparent, the consumed slice is
    a superset filter, and a path not reported deferred is enforced at every
    occurrence. *)
From S2P Require Import Prelude PyValue FilterModel FilterAst FilterPython FilterSplit.
From S2P Require Import FilterAstFacts FilterPythonFacts.

Local Open Scope string_scope.
Local Open Scope list_scope.

Section memo.
Context (ok : ast -> bool) (ident : ast -> Z).
(** While the tree is alive, two nodes with one [id] are the same node. *)
Context (ident_inj : forall a b, ident a = ident b -> a = b).

(** Every cached answer is the right one. *)
Definition memo_ok (memo : gmap Z bool) : Prop :=
  forall n b, memo !! ident n = Some b -> b = consumable ok n.

Lemma memo_ok_empty : memo_ok ∅.
Proof. intros n b. by rewrite lookup_empty. Qed.

Lemma memo_ok_insert n memo : memo_ok memo -> memo_ok (<[ident n := consumable ok n]> memo).
Proof.
  intros H m b. destruct (decide (ident m = ident n)) as [E|E].
  - rewrite E, lookup_insert_eq. apply ident_inj in E as ->. by intros [= <-].
  - rewrite lookup_insert_ne by done. apply H.
Qed.

Lemma node_consumable_spec n : forall memo, memo_ok memo ->
  fst (node_consumable ok ident n memo) = consumable ok n /\
  memo_ok (snd (node_consumable ok ident n memo)).
Proof.
  induction n as [p o v|op cs IH] using ast_rec_ind; intros memo Hm.
  - cbn [node_consumable]. destruct (memo !! _) eqn:E; [split; [by apply Hm|done]|].
    split; [done|]. by apply (memo_ok_insert (Clause p o v)).
  - cbn [node_consumable]. destruct (memo !! _) eqn:E; [split; [by apply Hm|done]|].
    match goal with |- context [let '(result, memo') := ?loop cs memo in _] => set (go := loop) end.
    assert (Hgo : forall memo, memo_ok memo ->
      fst (go cs memo) = forallb (consumable ok) cs /\ memo_ok (snd (go cs memo))).
    { clear E Hm memo. induction IH as [|c cs Hc _ IHcs]; intros memo Hm; [done|].
      destruct (Hc memo Hm) as [Hr Hm']. simpl.
      destruct (node_consumable ok ident c memo) as [b memo1]. simpl in *. subst b.
      destruct (consumable ok c); [|done]. by apply IHcs. }
    destruct (Hgo memo Hm) as [Hr Hm']. destruct (go cs memo) as [b memo']. simpl in *. subst b.
    split; [done|]. by apply (memo_ok_insert (Node op cs)).
Qed.

Lemma prune_spec n : forall memo, memo_ok memo ->
  fst (_prune ok ident n memo) = pruned ok n /\ memo_ok (snd (_prune ok ident n memo)).
Proof.
  induction n as [p o v|op cs IH] using ast_rec_ind; intros memo Hm; cbn [_prune pruned].
  - destruct (node_consumable_spec (Clause p o v) memo Hm) as [Hr Hm'].
    destruct (node_consumable ok ident _ memo) as [b memo1]. simpl in *. by subst b.
  - case_bool_decide.
    + match goal with |- context [let '(kept, memo') := ?loop cs memo in _] => set (go := loop) end.
      assert (Hgo : forall memo, memo_ok memo ->
        fst (go cs memo) = List.flat_map (fun c =>
             match pruned ok c with Some n' => [n'] | None => [] end) cs /\
        memo_ok (snd (go cs memo))).
      { clear Hm memo. induction IH as [|c cs Hc _ IHcs]; intros memo Hm; [done|].
        destruct (Hc memo Hm) as [Hr Hm']. simpl.
        destruct (_prune ok ident c memo) as [q memo1]. simpl in *. subst q.
        destruct (IHcs memo1 Hm') as [Hr' Hm'']. destruct (go cs memo1) as [kept memo2].
        simpl in *. subst kept. split; [by destruct (pruned ok c)|done]. }
      destruct (Hgo memo Hm) as [Hr Hm']. destruct (go cs memo) as [kept memo'].
      simpl in *. by subst kept.
    + destruct (node_consumable_spec (Node op cs) memo Hm) as [Hr Hm'].
      destruct (node_consumable ok ident _ memo) as [b memo1]. simpl in *. by subst b.
Qed.

(** The memo is transparent: started empty, and threaded through any sequence of
    consultations that only grows it with right answers, the gate and the pruning
    walk give what the memo-free definitions give. *)
Theorem memo_transparent n memo :
  memo_ok memo ->
  fst (node_consumable ok ident n memo) = consumable ok n /\
  memo_ok (snd (node_consumable ok ident n memo)) /\
  fst (_prune ok ident n memo) = pruned ok n /\
  memo_ok (snd (_prune ok ident n memo)).
Proof.
  intros H. destruct (node_consumable_spec n memo H), (prune_spec n memo H). done.
Qed.

(** The slice in terms of the memo-free pruning. *)
Definition slice (n : ast) : ast :=
  match pruned ok n with
  | None => Node AND []
  | Some (Clause p o v) => _normalize (Node AND [Clause p o v])
  | Some (Node op cs) => _normalize (Node op cs)
  end.

Lemma consumed_subtree_slice n memo :
  memo_ok memo -> consumed_subtree ok ident n memo = slice n.
Proof. intros H. unfold consumed_subtree. by rewrite (proj1 (prune_spec n memo H)). Qed.
End memo.

(** ** Shape of the slice *)

Section shape.
Context (ok : ast -> bool).

Lemma slice_normal n : is_node (slice ok n) = true /\ is_normal (slice ok n) = true.
Proof.
  unfold slice. destruct (pruned ok n) as [[p o v|op cs]|]; [done| |done].
  split; [|apply normalize_is_normal]. cbn [_normalize].
  case_bool_decide; [done|]. apply rebuild_is_node.
Qed.

Lemma pruned_wf n n' : wf_ast n = true -> pruned ok n = Some n' -> wf_ast n' = true.
Proof.
  revert n'. induction n as [p o v|op cs IH] using ast_rec_ind; intros n' Hwf; cbn [pruned].
  - case_match; [|done]. by intros [= <-].
  - cbn [wf_ast] in Hwf. apply andb_true_iff in Hwf as [Hop Hcs]. case_bool_decide.
    + intros [= <-]. cbn [wf_ast]. simpl. apply forallb_Forall.
      apply forallb_Forall in Hcs. induction IH as [|c cs Hc _ IHcs]; [constructor|].
      apply Forall_cons in Hcs as [Hwc Hcs]. simpl. apply Forall_app. split; [|by apply IHcs].
      destruct (pruned ok c) eqn:E; [|constructor]. repeat constructor. by apply Hc.
    + case_match; [|done]. intros [= <-]. cbn [wf_ast]. by rewrite Hop, Hcs.
Qed.

(** The leaves of what pruning keeps. *)
Definition opt_leaves (o : option ast) : list ast := from_option leaves [] o.

Lemma consumable_leaves n : consumable ok n = forallb ok (leaves n).
Proof.
  induction n as [p o v|op cs IH] using ast_rec_ind; simpl; [by rewrite andb_true_r|].
  induction IH as [|c cs Hc _ IHcs]; simpl; [done|]. by rewrite forallb_app, Hc, IHcs.
Qed.

Lemma pruned_leaves n :
  sublist (opt_leaves (pruned ok n)) (leaves n) /\
  forallb ok (opt_leaves (pruned ok n)) = true.
Proof.
  induction n as [p o v|op cs IH] using ast_rec_ind; cbn [pruned].
  - destruct (ok (Clause p o v)) eqn:E; simpl; [by rewrite E|]. split; [constructor; constructor|done].
  - case_bool_decide.
    + simpl. induction IH as [|c cs [Hs Hc] _ [IHs IHc]]; simpl; [done|].
      destruct (pruned ok c); simpl in *.
      * split; [by apply sublist_app|]. by rewrite forallb_app, Hc, IHc.
      * split; [by apply sublist_inserts_l|done].
    + destruct (forallb (consumable ok) cs) eqn:E; simpl.
      * split; [done|]. etransitivity; [symmetry; apply (consumable_leaves (Node op cs))|done].
      * split; [apply sublist_nil_l|done].
Qed.

Lemma slice_leaves n : leaves (slice ok n) = opt_leaves (pruned ok n).
Proof.
  unfold slice. destruct (pruned ok n) as [[p o v|op cs]|]; [done| |done].
  apply normalize_leaves.
Qed.

Definition leaf_path (l : ast) : string :=
  match l with Clause p _ _ => str_join "." p | Node _ _ => "" end.

Lemma leaf_paths_leaves n : _leaf_paths n = List.map leaf_path (leaves n).
Proof.
  induction n as [p o v|op cs IH] using ast_rec_ind; simpl; [done|].
  induction IH as [|c cs Hc _ IHcs]; simpl; [done|]. by rewrite map_app, Hc, IHcs.
Qed.

Lemma sublist_filter_length {A} (P : A -> bool) l1 l2 :
  sublist l1 l2 -> length (filter P l1) <= length (filter P l2).
Proof.
  induction 1 as [|x l1 l2 _ IH|x l1 l2 _ IH]; [done| |]; rewrite ?filter_cons;
    repeat case_decide; simpl; lia.
Qed.

Lemma sublist_map {A B} (f : A -> B) l1 l2 : sublist l1 l2 -> sublist (List.map f l1) (List.map f l2).
Proof. induction 1; simpl; by constructor. Qed.

Lemma slice_paths_sublist n : sublist (_leaf_paths (slice ok n)) (_leaf_paths n).
Proof. rewrite !leaf_paths_leaves, slice_leaves. apply sublist_map, pruned_leaves. Qed.
End shape.

(** What the split report claims is enforced is enforced: every leaf of the slice
    is one the compiler can express, and a path that is not reported deferred has all
    its occurrences in the slice, none left to the post-filter. *)
Theorem deferred_paths_honest ok ident memo n p :
  (forall a b, ident a = ident b -> a = b) -> memo_ok ok ident memo ->
  forallb ok (leaves (consumed_subtree ok ident n memo)) = true /\
  (p ∉ deferred_paths ok ident n memo ->
   count_str p (_leaf_paths (consumed_subtree ok ident n memo)) = count_str p (_leaf_paths n)).
Proof.
  intros Hinj Hm. unfold deferred_paths. rewrite (consumed_subtree_slice _ _ Hinj) by done.
  split; [rewrite slice_leaves; apply pruned_leaves|].
  pose proof (sublist_filter_length (fun y => String.eqb p y) _ _ (slice_paths_sublist ok n)) as Hle.
  unfold _deferred_from_slice. rewrite elem_of_list_to_set, list_elem_of_filter.
  change (count_str p (_leaf_paths (slice ok n)) <= count_str p (_leaf_paths n)) in Hle.
  destruct (Nat.ltb_spec (count_str p (_leaf_paths (slice ok n))) (count_str p (_leaf_paths n)))
    as [Hlt|Hge]; [|intros _; lia].
  intros Hnot. exfalso. apply Hnot. split; [done|].
  unfold count_str in Hlt. destruct (filter _ (_leaf_paths n)) as [|q l] eqn:E; [simpl in Hlt; lia|].
  assert (Hq : q ∈ filter (fun y => String.eqb p y) (_leaf_paths n)) by (rewrite E; left).
  apply list_elem_of_filter in Hq as [Hq%Is_true_true Hin]. by apply String.eqb_eq in Hq as ->.
Qed.

(** ** Superset *)

Section superset.
Context (fromisoformat : string -> option datetime) (isoformat : datetime -> string).
Context (ctx : CompileContext) (ok : ast -> bool).

Abbreviation compile_node := (compile_node fromisoformat isoformat ctx).

(** The predicate a tree compiles to does not depend on the accumulator. *)
Lemma unsupported_indep path reason s p s1 t :
  _unsupported ctx path reason s = Ok (p, s1) -> exists t1, _unsupported ctx path reason t = Ok (p, t1).
Proof. unfold _unsupported. case_match; [done|]. intros [= <- _]. eexists. done. Qed.

Lemma consume_indep path m s p s1 t :
  (forall s p s1, m s = Ok (p, s1) -> exists t1, m t = Ok (p, t1)) ->
  consume path m s = Ok (p, s1) -> exists t1, consume path m t = Ok (p, t1).
Proof.
  intros Hm. unfold consume. destruct (m s) as [[q s2]|] eqn:E; [|done]. intros [= <- _].
  apply Hm in E as [t1 ->]. eauto.
Qed.

Lemma lift_leaf_indep (q : result pred) s p s1 t :
  lift_leaf q s = Ok (p, s1) -> exists t1, lift_leaf q t = Ok (p, t1).
Proof. destruct q; [|done]. intros [= <- _]. eexists. done. Qed.

Lemma clause_indep path op v s p s1 t :
  compile_node (Clause path op v) s = Ok (p, s1) ->
  exists t1, compile_node (Clause path op v) t = Ok (p, t1).
Proof.
  simpl. unfold compile_clause, _compile_metadata_clause.
  repeat case_match; try apply unsupported_indep; apply consume_indep; intros ???;
    try apply unsupported_indep; try apply lift_leaf_indep.
  intros [= <- _]. eexists. done.
Qed.

Lemma c_seq_indep ns :
  Forall (fun n => forall s p s1 t, compile_node n s = Ok (p, s1) ->
                    exists t1, compile_node n t = Ok (p, t1)) ns ->
  forall s ps s1 t, c_seq (List.map compile_node ns) s = Ok (ps, s1) ->
  exists t1, c_seq (List.map compile_node ns) t = Ok (ps, t1).
Proof.
  induction 1 as [|n ns Hn _ IH]; intros s ps s1 t; simpl; [intros [= <- _]; eauto|].
  destruct (compile_node n s) as [[p s2]|] eqn:E; [|done].
  destruct (c_seq _ s2) as [[qs s3]|] eqn:E'; [|done]. intros [= <- _].
  destruct (Hn _ _ _ t E) as [t1 ->]. destruct (IH _ _ _ t1 E') as [t2 ->]. eauto.
Qed.

Lemma compile_indep n : forall s p s1 t,
  compile_node n s = Ok (p, s1) -> exists t1, compile_node n t = Ok (p, t1).
Proof.
  induction n as [path op v|op cs IH] using ast_rec_ind; intros s p s1 t.
  - apply clause_indep.
  - simpl. repeat case_bool_decide.
    + unfold c_combine. destruct (c_seq _ s) as [[ps s2]|] eqn:E; [|done].
      destruct (c_seq_indep cs IH _ _ _ t E) as [t1 ->]. intros [= <- _]. eauto.
    + unfold c_combine. destruct (c_seq _ s) as [[ps s2]|] eqn:E; [|done].
      destruct (c_seq_indep cs IH _ _ _ t E) as [t1 ->]. intros [= <- _]. eauto.
    + destruct IH as [|c cs Hc _]; [done|]. unfold c_not.
      destruct (compile_node c s) as [[q s2]|] eqn:E; [|done].
      destruct (Hc _ _ _ t E) as [t1 ->]. intros [= <- _]. eauto.
Qed.

(** [n'] narrows at most as much as [n]. *)
Definition covers (n n' : ast) : Prop := forall s p s1,
  compile_node n s = Ok (p, s1) -> forall t, exists q t1,
  compile_node n' t = Ok (q, t1) /\ forall r, p r = Ok true -> q r = Ok true.

Lemma covers_refl n : covers n n.
Proof. intros s p s1 H t. destruct (compile_indep _ _ _ _ t H) as [t1 ->]. eauto. Qed.

Lemma p_all_cons p ps r : p_all (p :: ps) r = Ok true <-> p r = Ok true /\ p_all ps r = Ok true.
Proof. unfold p_all. simpl. destruct (p r) as [[]|]; naive_solver. Qed.

Lemma covers_and cs ds :
  Forall2 (fun c od => match od with Some d => covers c d | None => True end) cs ds ->
  covers (Node AND cs) (Node AND (List.flat_map (fun od => match od with Some d => [d] | None => [] end) ds)).
Proof.
  intros H s p s1 Hp t. simpl in *. unfold c_combine in *.
  destruct (c_seq _ s) as [[ps s2]|] eqn:E; [|done]. injection Hp as <- _. clear s1.
  cut (exists qs t1, c_seq (List.map compile_node
         (List.flat_map (fun od => match od with Some d => [d] | None => [] end) ds)) t = Ok (qs, t1) /\
       forall r, p_all ps r = Ok true -> p_all qs r = Ok true).
  { intros (qs & t1 & -> & Hqs). eauto. }
  revert s ps s2 E t. induction H as [|c [d|] cs ds Hcd _ IH]; intros s ps s2 E t.
  - injection E as <- _. simpl. eauto.
  - simpl in E. destruct (compile_node c s) as [[p s3]|] eqn:Ec; [|done].
    destruct (c_seq _ s3) as [[ps' s4]|] eqn:Ecs; [|done]. injection E as <- _.
    destruct (Hcd _ _ _ Ec t) as (q & t1 & Hq & Hpq).
    destruct (IH _ _ _ Ecs t1) as (qs & t2 & Hqs & Hall).
    exists (q :: qs), t2. simpl. rewrite Hq, Hqs. split; [done|].
    intros r [Hpr Hr]%p_all_cons. apply p_all_cons. auto.
  - simpl in E. destruct (compile_node c s) as [[p s3]|] eqn:Ec; [|done].
    destruct (c_seq _ s3) as [[ps' s4]|] eqn:Ecs; [|done]. injection E as <- _.
    destruct (IH _ _ _ Ecs t) as (qs & t2 & Hqs & Hall). exists qs, t2. split; [done|].
    intros r [_ Hr]%p_all_cons. auto.
Qed.

Lemma flat_map_map {A B C} (f : A -> B) (g : B -> list C) l :
  List.flat_map g (List.map f l) = List.flat_map (fun x => g (f x)) l.
Proof. induction l; simpl; congruence. Qed.

Lemma pruned_covers n n' : pruned ok n = Some n' -> covers n n'.
Proof.
  revert n'. induction n as [path op v|op cs IH] using ast_rec_ind; intros n'; cbn [pruned].
  - case_match; [|done]. intros [= <-]. apply covers_refl.
  - case_bool_decide.
    + intros [= <-]. subst op. rewrite <- (flat_map_map (pruned ok)
        (fun od => match od with Some d => [d] | None => [] end)).
      apply covers_and. induction IH as [|c cs Hc _ IHcs]; simpl; constructor; [|done].
      destruct (pruned ok c); [by apply Hc|done].
    + case_match; [|done]. intros [= <-]. apply covers_refl.
Qed.

Lemma covers_same n n1 n2 : covers n n1 -> same (compile_node n2) (compile_node n1) -> covers n n2.
Proof.
  intros H Hs s p s1 Hp t. destruct (H _ _ _ Hp t) as (q & t1 & Hq & Hpq).
  specialize (Hs t). rewrite Hq in Hs. destruct (compile_node n2 t) as [[q' t2]|]; [|done].
  destruct Hs as [-> Hs]. eexists _, _. split; [done|]. intros r Hr. rewrite Hs. auto.
Qed.

Lemma slice_covers n : wf_ast n = true -> covers n (slice ok n).
Proof.
  intros Hwf. unfold slice. destruct (pruned ok n) as [n'|] eqn:E.
  - pose proof (pruned_covers _ _ E) as Hc. pose proof (pruned_wf _ _ _ Hwf E) as Hwf'.
    destruct n' as [path op v|op cs].
    + eapply covers_same; [exact Hc|]. apply (combine_one (comb := p_all)).
    + eapply covers_same; [exact Hc|]. by apply normalize_preserves_predicate.
  - intros s p s1 _ t. eexists _, _. split; [done|]. done.
Qed.
End superset.

(** C2.  Superset: whatever leaves a backend can express, the slice it is given keeps
    every record the whole filter keeps, so post-filtering its answer with the whole
    filter loses nothing: filtering the backend's survivors gives exactly the records
    the filter keeps. *)
Theorem split_pushdown_superset fromisoformat isoformat ctx ok ident memo n s p s1 q t1 (rs : list record) :
  (forall a b, ident a = ident b -> a = b) -> memo_ok ok ident memo -> wf_ast n = true ->
  FilterPython.compile_node fromisoformat isoformat ctx n s = Ok (p, s1) ->
  FilterPython.compile_node fromisoformat isoformat ctx (consumed_subtree ok ident n memo) ∅ = Ok (q, t1) ->
  (forall r, p r = Ok true -> q r = Ok true) /\
  filter (fun r => p r = Ok true) (filter (fun r => q r = Ok true) rs) =
  filter (fun r => p r = Ok true) rs.
Proof.
  intros Hinj Hm Hwf Hp. rewrite (consumed_subtree_slice _ _ Hinj) by done. intros Hq.
  destruct (slice_covers _ _ _ ok n Hwf _ _ _ Hp ∅) as (q' & t2 & Hq' & Hpq).
  rewrite Hq in Hq'. injection Hq' as <- _. split; [done|].
  induction rs as [|r rs IH]; [done|]. rewrite !filter_cons.
  destruct (decide (q r = Ok true)) as [Hqr|Hqr]; rewrite ?filter_cons;
    destruct (decide (p r = Ok true)) as [Hpr|Hpr]; rewrite ?IH; try done.
  by apply Hpq in Hpr.
Qed.

(** ** Fully consumable filters *)

Lemma pruned_all ok n : consumable ok n = true -> pruned ok n = Some n.
Proof.
  induction n as [p o v|op cs IH] using ast_rec_ind; cbn [consumable pruned]; intros H.
  - by rewrite H.
  - rewrite H. case_bool_decide as E; [|done]. subst. f_equal. f_equal.
    apply forallb_Forall in H. induction IH as [|c cs Hc _ IHcs]; [done|].
    apply Forall_cons in H as [Hcc H]. simpl. rewrite (Hc Hcc). by rewrite IHcs.
Qed.

(** When every leaf is expressible nothing is deferred: the slice of a parsed
    filter is the filter itself, the plan-identity hash is the canonical hash, and the
    split report is the one of [raise] mode. *)
Theorem fully_consumable_slice ok ident memo hash n :
  (forall a b, ident a = ident b -> a = b) -> memo_ok ok ident memo ->
  is_node n = true -> is_normal n = true -> consumable ok n = true ->
  consumed_subtree ok ident n memo = n /\
  split_report ok ident hash n Split memo = split_report ok ident hash n Raise memo.
Proof.
  intros Hinj Hm Hnode Hnorm Hc.
  assert (Hs : consumed_subtree ok ident n memo = n).
  { rewrite (consumed_subtree_slice _ _ Hinj) by done. unfold slice. rewrite pruned_all by done.
    destruct n; [done|]. by apply normal_fixed. }
  split; [done|]. cbn [split_report]. rewrite Hs. f_equal.
  unfold _deferred_from_slice. apply set_eq. intros x.
  rewrite elem_of_list_to_set, list_elem_of_filter, Nat.ltb_irrefl. set_solver.
Qed.

(** ** An injective identity for the examples *)

Abbreviation tree := (gen_tree (Z + string)).

Definition enc_date (d : datetime) : list tree :=
  GenLeaf (inl (dt_local d)) ::
  match dt_offset d with Some o => [GenLeaf (inl o)] | None => [] end.

Fixpoint enc_value (v : value) : tree :=
  match v with
  | VNone => GenNode 0 []
  | VBool b => GenNode 1 [GenLeaf (inl (Z.b2z b))]
  | VInt z => GenNode 2 [GenLeaf (inl z)]
  | VFloat FNaN => GenNode 3 []
  | VFloat (FInf b) => GenNode 4 [GenLeaf (inl (Z.b2z b))]
  | VFloat (FFin m e) => GenNode 5 [GenLeaf (inl m); GenLeaf (inl e)]
  | VStr s => GenNode 6 [GenLeaf (inr s)]
  | VDate d => GenNode 7 (enc_date d)
  | VDateLit d => GenNode 8 (enc_date d)
  | VList l => GenNode 9 (List.map enc_value l)
  | VTuple l => GenNode 10 (List.map enc_value l)
  | VDict d => GenNode 11 (List.map (fun '(k, x) => GenNode 12 [GenLeaf (inr k); enc_value x]) d)
  end.

Fixpoint enc_ast (n : ast) : tree :=
  match n with
  | Clause p op v =>
      GenNode 0 [GenNode 0 (List.map (fun s => GenLeaf (inr s)) p); GenLeaf (inr (op_value op)); enc_value v]
  | Node op cs => GenNode 1 (GenLeaf (inr (op_value op)) :: List.map enc_ast cs)
  end.

(** An [id] that tells apart any two different nodes. *)
Definition sample_ident (n : ast) : Z := Zpos (encode (enc_ast n)).

Lemma map_inj_Forall {A B} (f : A -> B) l l' :
  Forall (fun x => forall y, f x = f y -> x = y) l -> List.map f l = List.map f l' -> l = l'.
Proof.
  intros H. revert l'. induction H as [|x l Hx _ IH]; intros [|y l']; simpl; try done.
  intros [= Hxy Hl]. by rewrite (Hx _ Hxy), (IH _ Hl).
Qed.

Definition tree_children (t : tree) : list tree :=
  match t with GenNode _ l => l | GenLeaf _ => [] end.

Lemma enc_date_inj d d' : enc_date d = enc_date d' -> d = d'.
Proof. destruct d as [l [o|]], d' as [l' [o'|]]; unfold enc_date; simpl; naive_solver. Qed.

Lemma enc_value_inj v : forall w, enc_value v = enc_value w -> v = w.
Proof.
  induction v as [ |b|z|f|s|d|d|l IH|l IH|d IH] using value_rec_ind;
    intros w; destruct w as [ |b'|z'|[ |n'|m' e']|s'|d'|d'|l'|l'|d']; try destruct f as [ |n|m e]; simpl; try done.
  - by destruct b, b'.
  - by intros [= ->].
  - by destruct n, n'.
  - by intros [= -> ->].
  - by intros [= ->].
  - intros H%(f_equal tree_children). f_equal. by apply enc_date_inj.
  - intros H%(f_equal tree_children). f_equal. by apply enc_date_inj.
  - intros [= H]. f_equal. by eapply map_inj_Forall.
  - intros [= H]. f_equal. by eapply map_inj_Forall.
  - intros [= H]. f_equal. eapply map_inj_Forall; [|exact H].
    eapply Forall_impl; [exact IH|]. intros [k x] Hx [k' y] [= -> Hxy]. f_equal. by apply Hx.
Qed.

Lemma enc_ast_inj n : forall m, enc_ast n = enc_ast m -> n = m.
Proof.
  induction n as [p op v|op cs IH] using ast_rec_ind; intros [p' op' v'|op' cs']; simpl; try done.
  - intros [= Hp Hop Hv%enc_value_inj]. subst v'. f_equal.
    + eapply map_inj_Forall; [|exact Hp]. apply Forall_forall. intros x _ y. by intros [= ->].
    + by destruct op, op'.
  - intros [= Hop Hcs]. f_equal; [by destruct op, op'|]. by eapply map_inj_Forall.
Qed.

Lemma sample_ident_inj a b : sample_ident a = sample_ident b -> a = b.
Proof. intros [= H]. apply (inj encode) in H. by apply enc_ast_inj. Qed.

(** ** Witnesses *)

Definition title_only (l : ast) : bool :=
  match l with Clause ["title"] _ _ => true | _ => false end.

Definition mixed_filter : ast :=
  Node AND [Clause ["title"] EQ (VStr "a");
            Node OR [Clause ["title"] EQ (VStr "b"); Clause ["metadata"; "k"] EQ (VInt 1)]].

Lemma memo_transparent_witness :
  fst (node_consumable title_only sample_ident mixed_filter ∅) = false /\
  fst (_prune title_only sample_ident mixed_filter ∅) =
    Some (Node AND [Clause ["title"] EQ (VStr "a")]).
Proof.
  pose proof (memo_transparent title_only sample_ident sample_ident_inj mixed_filter ∅
    (memo_ok_empty _ _)) as (H1 & _ & H2 & _).
  rewrite H1, H2. split; reflexivity.
Defined.

Lemma deferred_paths_honest_witness :
  count_str "source" (_leaf_paths (consumed_subtree title_only sample_ident mixed_filter ∅)) =
  count_str "source" (_leaf_paths mixed_filter).
Proof.
  apply (deferred_paths_honest title_only sample_ident ∅ mixed_filter "source"
    sample_ident_inj (memo_ok_empty _ _)).
  apply (bool_decide_unpack _). vm_compute. exact I.
Defined.

Lemma split_pushdown_superset_witness :
  exists p q, forall rs : list record,
    filter (fun r => p r = Ok true) (filter (fun r => q r = Ok true) rs) =
    filter (fun r => p r = Ok true) rs.
Proof.
  eexists _, _. intros rs.
  refine (proj2 (split_pushdown_superset sample_fromiso (fun _ => "") plain_ctx title_only
    sample_ident ∅ mixed_filter ∅ _ _ _ _ rs sample_ident_inj (memo_ok_empty _ _) eq_refl eq_refl _)).
  rewrite (consumed_subtree_slice _ _ sample_ident_inj) by apply memo_ok_empty.
  reflexivity.
Defined.

Lemma fully_consumable_slice_witness :
  consumed_subtree title_only sample_ident (Node AND [Clause ["title"] EQ (VStr "a")]) ∅ =
  Node AND [Clause ["title"] EQ (VStr "a")].
Proof.
  apply (fully_consumable_slice title_only sample_ident ∅ (fun _ => "") _ sample_ident_inj
    (memo_ok_empty _ _)); reflexivity.
Defined.
