(* ===== verification/FilterChronicle.v ===== *)
(** The Chronicle date-bound compiler ([filter/compilers/chronicle.py]): the window
    on [source_timestamp] folded out of the top-level conjunction, and its soundness
    against the in-memory predicate. *)
From S2P Require Import Prelude PyValue FilterModel FilterAst FilterPython FilterAstFacts.
From S2P Require Import FilterPythonFacts.

Local Open Scope string_scope.
Local Open Scope list_scope.

Record ChronicleDateBound := MkBound {
  created_after : option datetime;
  created_before : option datetime }.

Definition _PUSHDOWN_DATE_KEYS : list string := ["source_timestamp"].
Definition _LOWER_OPS : list Op := [GT; GTE].
Definition _UPPER_OPS : list Op := [LT; LTE].

Definition _as_datetime (operand : value) : option datetime :=
  match operand with
  | VDateLit d | VDate d => Some d
  | _ => None
  end.

(** [max(current, candidate)]: the first unless the second is greater; comparing a
    naive with an aware datetime raises. *)
Definition _max_lower (current : option datetime) (candidate : datetime) : result datetime :=
  match current with
  | None => Ok candidate
  | Some c =>
      match dt_cmp CGt candidate c with
      | Ok b => Ok (if b then candidate else c)
      | Err e => Err e
      end
  end.

Definition _min_upper (current : option datetime) (candidate : datetime) : result datetime :=
  match current with
  | None => Ok candidate
  | Some c =>
      match dt_cmp CLt candidate c with
      | Ok b => Ok (if b then candidate else c)
      | Err e => Err e
      end
  end.

Definition _consumable_date_clause (n : ast) : option (string * Op * datetime) :=
  match n with
  | Clause [key] op operand =>
      if negb (mem_str key _PUSHDOWN_DATE_KEYS) then None
      else if negb (bool_decide (op = EQ)) && negb (op_in op _LOWER_OPS) && negb (op_in op _UPPER_OPS)
      then None
      else match _as_datetime operand with Some d => Some (key, op, d) | None => None end
  | _ => None
  end.

(** [f"${node.op.value.lstrip('$')}"] is the operator's literal again. *)
Definition _representative_path (n : ast) : string :=
  match n with
  | Clause path _ _ => str_join "." path
  | Node op _ => op_value op
  end.

Definition _reject_if_raise (ctx : CompileContext) (n : ast) : result unit :=
  match on_unsupported ctx with
  | Split => Ok ()
  | Raise => Err (UnsupportedError (_representative_path n)
      "Chronicle pushes down only conjunctive source_timestamp date bounds; this clause must be post-filtered")
  end.

(** The state of the loop: the bounds and the consumed keys. *)
Record fold_state := MkFold {
  fs_lower : option datetime; fs_upper : option datetime; fs_consumed : gset string }.

(** One iteration, for a clause that folds into the window. *)
Definition fold_bound (st : fold_state) (key : string) (op : Op) (d : datetime)
  : result fold_state :=
  let consumed := {[key]} ∪ fs_consumed st in
  if bool_decide (op = EQ) then
    match _max_lower (fs_lower st) d with
    | Err e => Err e
    | Ok lo =>
        match _min_upper (fs_upper st) d with
        | Err e => Err e
        | Ok up => Ok (MkFold (Some lo) (Some up) consumed)
        end
    end
  else if op_in op _LOWER_OPS then
    match _max_lower (fs_lower st) d with
    | Err e => Err e
    | Ok lo => Ok (MkFold (Some lo) (fs_upper st) consumed)
    end
  else
    match _min_upper (fs_upper st) d with
    | Err e => Err e
    | Ok up => Ok (MkFold (fs_lower st) (Some up) consumed)
    end.

Fixpoint fold_children (ctx : CompileContext) (cs : list ast) (st : fold_state)
  : result fold_state :=
  match cs with
  | [] => Ok st
  | c :: cs' =>
      match _consumable_date_clause c with
      | None =>
          match _reject_if_raise ctx c with Ok _ => fold_children ctx cs' st | Err e => Err e end
      | Some (key, op, d) =>
          match fold_bound st key op d with Ok st' => fold_children ctx cs' st' | Err e => Err e end
      end
  end.

Definition _fold_top_level_dates (ctx : CompileContext) (n : ast) : result fold_state :=
  let st := MkFold None None ∅ in
  match n with
  | Node op cs =>
      if negb (bool_decide (op = AND))
      then match _reject_if_raise ctx n with Ok _ => Ok st | Err e => Err e end
      else fold_children ctx cs st
  | Clause _ op _ =>
      if negb (bool_decide (op = AND))
      then match _reject_if_raise ctx n with Ok _ => Ok st | Err e => Err e end
      else Err AttributeError
  end.

Definition compile_chronicle (hash : ast -> string) (ctx : CompileContext) (n : ast)
  : result (CompiledFilter ChronicleDateBound) :=
  match _fold_top_level_dates ctx n with
  | Ok st => Ok (MkCompiled (MkBound (fs_lower st) (fs_upper st)) (fs_consumed st) (hash n))
  | Err e => Err e
  end.

(** ** Specification *)

(** Every date operand of a leaf is in UTC, as the validator leaves it. *)
Definition utc_leaf (l : ast) : bool :=
  match l with
  | Clause _ _ (VDate d) | Clause _ _ (VDateLit d) => bool_decide (dt_offset d = Some 0%Z)
  | _ => true
  end.

Definition utc_dates (n : ast) : bool := forallb utc_leaf (leaves n).

(** The instant [t] lies in the window. *)
Definition in_window (b : ChronicleDateBound) (t : Z) : Prop :=
  (forall d, created_after b = Some d -> (dt_local d <= t)%Z) /\
  (forall d, created_before b = Some d -> (t <= dt_local d)%Z).

(** ** Theorems *)

(** The bounds found so far are in UTC. *)
Definition utc_bounds (st : fold_state) : Prop :=
  (forall d, fs_lower st = Some d -> dt_offset d = Some 0%Z) /\
  (forall d, fs_upper st = Some d -> dt_offset d = Some 0%Z).

(** What a kept record's timestamp says about one folded clause. *)
Definition clause_allows (op : Op) (d : datetime) (t : Z) : Prop :=
  (op ∈ [EQ; GT; GTE] -> (dt_local d <= t)%Z) /\ (op ∈ [EQ; LT; LTE] -> (t <= dt_local d)%Z).

Definition fs_allows (st : fold_state) (t : Z) : Prop :=
  in_window (MkBound (fs_lower st) (fs_upper st)) t.

Lemma max_lower_utc cur d :
  (forall c, cur = Some c -> dt_offset c = Some 0%Z) -> dt_offset d = Some 0%Z ->
  exists lo, _max_lower cur d = Ok lo /\ dt_offset lo = Some 0%Z /\
    forall t, (forall c, cur = Some c -> (dt_local c <= t)%Z) -> (dt_local d <= t)%Z ->
      (dt_local lo <= t)%Z.
Proof.
  intros Hc Hd. destruct cur as [c|]; simpl; [|eauto].
  rewrite dt_cmp_utc by eauto. eexists. split; [done|]. case_match; split; eauto.
Qed.

Lemma min_upper_utc cur d :
  (forall c, cur = Some c -> dt_offset c = Some 0%Z) -> dt_offset d = Some 0%Z ->
  exists up, _min_upper cur d = Ok up /\ dt_offset up = Some 0%Z /\
    forall t, (forall c, cur = Some c -> (t <= dt_local c)%Z) -> (t <= dt_local d)%Z ->
      (t <= dt_local up)%Z.
Proof.
  intros Hc Hd. destruct cur as [c|]; simpl; [|eauto].
  rewrite dt_cmp_utc by eauto. eexists. split; [done|]. case_match; split; eauto.
Qed.

Definition window_op (op : Op) : bool :=
  bool_decide (op = EQ) || op_in op _LOWER_OPS || op_in op _UPPER_OPS.

(** One folded clause keeps the invariant and never raises. *)
Lemma fold_bound_spec st key op d :
  utc_bounds st -> dt_offset d = Some 0%Z -> window_op op = true ->
  exists st', fold_bound st key op d = Ok st' /\ utc_bounds st' /\
    fs_consumed st' = {[key]} ∪ fs_consumed st /\
    forall t, fs_allows st t -> clause_allows op d t -> fs_allows st' t.
Proof.
  intros [Hlo Hup] Hd Hop. unfold fold_bound.
  destruct (max_lower_utc _ _ Hlo Hd) as (lo & -> & Hlou & Hlot).
  destruct (min_upper_utc _ _ Hup Hd) as (up & -> & Hupu & Hupt).
  destruct op; try done; simpl; eexists; (split; [done|]).
  all: split; [split; simpl; [..]; intros c E; by (auto || (injection E as <-))|].
  all: split; [done|]; intros t [Hl Hu] [Hcl Hcu]; split; simpl; auto.
  all: intros c [= <-]; try apply Hlot; try apply Hupt; auto.
  all: first [apply Hcl|apply Hcu]; by repeat constructor.
Qed.

Lemma consumable_date_clause_inv n key op d :
  _consumable_date_clause n = Some (key, op, d) ->
  exists v, n = Clause ["source_timestamp"] op v /\ key = "source_timestamp" /\
    (v = VDate d \/ v = VDateLit d) /\ window_op op = true.
Proof.
  destruct n as [[|k [|]] o v|]; simpl; try done.
  destruct (String.eqb_spec k "source_timestamp") as [->|]; [|done]. simpl.
  destruct (negb _ && _ && _) eqn:E; [done|].
  destruct v; simpl; try done; intros [= <- <- <-]; eexists; split_and!; eauto; by destruct o.
Qed.

Section superset.
Context (fromisoformat : string -> option datetime) (isoformat : datetime -> string).
Context (ctx : CompileContext).

Abbreviation compile_node := (compile_node fromisoformat isoformat ctx).

(** The instant of a record's [source_timestamp], a naive one read as UTC. *)
Definition timestamp_is (r : record) (t : Z) : Prop :=
  exists a u, _resolve_system ctx r "source_timestamp" = VDate a /\ to_utc a = Ok u /\ dt_local u = t.

Lemma system_eq_date stored d :
  _system_eq stored (VDate d) = Ok true ->
  exists a a' b', stored = VDate a /\ to_utc a = Ok a' /\ to_utc d = Ok b' /\ dt_local a' = dt_local b'.
Proof.
  destruct stored as [ | | | | |a| | | | ]; try done. unfold _system_eq, _eq_aligned. simpl.
  destruct (to_utc a) as [a'|] eqn:Ea; [|done]. destruct (to_utc d) as [b'|] eqn:Eb; [|done].
  simpl. rewrite dt_eqb_utc by eauto with khora. intros [= E%Z.eqb_eq]. eauto 10.
Qed.

Lemma to_utc_id d u : dt_offset d = Some 0%Z -> to_utc d = Ok u -> dt_local u = dt_local d.
Proof.
  intros Hd E. unfold to_utc in E. rewrite Hd in E. apply dt_astimezone_aware in E as [Hu E].
  rewrite !dt_instant_aware in E by done. by injection E.
Qed.

(** A record a folded clause keeps has a timestamp the clause allows. *)
Lemma kept_allows op v d s p s1 r :
  (v = VDate d \/ v = VDateLit d) -> window_op op = true -> dt_offset d = Some 0%Z ->
  compile_node (Clause ["source_timestamp"] op v) s = Ok (p, s1) -> p r = Ok true ->
  exists t, timestamp_is r t /\ clause_allows op d t.
Proof.
  intros Hv Hop Hd Hc Hr.
  change (compile_clause fromisoformat isoformat ctx ["source_timestamp"] op v s = Ok (p, s1)) in Hc.
  apply compile_clause_cases in Hc as [(k & [= <-] & Hc)|(? & ? & ? & _)]; [|done..].
  assert (Hcase : (op = EQ /\ _system_eq (_resolve_system ctx r "source_timestamp") (VDate d) = Ok true) \/
    exists c, _RANGE_FN op = Ok c /\
      _system_range (_resolve_system ctx r "source_timestamp") (VDate d) c = Ok true).
  { destruct Hv as [-> | ->]; destruct op; try done; injection Hc as <-; eauto. }
  unfold timestamp_is. destruct Hcase as [[-> H]|(c & Hcop & H)].
  - apply system_eq_date in H as (a & a' & b' & Hres & Ha & Hb & E).
    apply to_utc_id in Hb; [|done]. exists (dt_local a'). split; [eauto|]. split; intros _; lia.
  - apply system_range_date in H as (a & Hres & a' & b' & Ha & Hb & E).
    apply to_utc_id in Hb; [|done]. exists (dt_local a'). split; [eauto|].
    rewrite Hb in E. destruct (Z.compare_spec (dt_local a') (dt_local d));
      destruct op; try done; injection Hcop as <-; try done; split; intros Hin; try lia;
      repeat (apply elem_of_cons in Hin as [Hin|Hin]; [done|]); by apply elem_of_nil in Hin.
Qed.

Lemma timestamp_unique r t t' : timestamp_is r t -> timestamp_is r t' -> t = t'.
Proof. unfold timestamp_is. intros (a & u & H1 & H2 & <-) (b & w & H3 & H4 & <-). congruence. Qed.

(** The loop over the children of a conjunction every child of which keeps [r]. *)
Lemma fold_children_sound cs st r :
  on_unsupported ctx = Split -> utc_bounds st ->
  Forall (fun c => forallb utc_leaf (leaves c) = true /\
                   exists s p s1, compile_node c s = Ok (p, s1) /\ p r = Ok true) cs ->
  exists st', fold_children ctx cs st = Ok st' /\ utc_bounds st' /\
    fs_consumed st' ⊆ fs_consumed st ∪ {["source_timestamp"]} /\
    (st' = st \/ exists t, timestamp_is r t) /\
    forall t, timestamp_is r t -> fs_allows st t -> fs_allows st' t.
Proof.
  intros Hsplit. intros Hst H. revert st Hst.
  induction H as [|c cs (Hutc & s & p & s1 & Hc & Hr) _ IH]; intros st Hst; simpl.
  - exists st. split_and!; auto. set_solver.
  - destruct (_consumable_date_clause c) as [[[key op] d]|] eqn:E.
    + apply consumable_date_clause_inv in E as (v & -> & -> & Hv & Hop).
      assert (Hd : dt_offset d = Some 0%Z).
      { destruct Hv as [-> | ->]; simpl in Hutc; rewrite andb_true_r in Hutc;
          by apply bool_decide_eq_true in Hutc. }
      destruct (kept_allows op v d s p s1 r Hv Hop Hd Hc Hr) as (t & Ht & Hal).
      destruct (fold_bound_spec st "source_timestamp" op d Hst Hd Hop) as (st1 & -> & Hst1 & Hc1 & Ha1).
      destruct (IH st1 Hst1) as (st' & -> & Hst' & Hc' & _ & Ha').
      exists st'. split_and!; auto; [set_solver|eauto|].
      intros t' Ht' Hal'. apply Ha'; [done|]. apply Ha1; [done|].
      by rewrite <- (timestamp_unique _ _ _ Ht Ht').
    + unfold _reject_if_raise. rewrite Hsplit. by apply IH.
Qed.

(** The pushed-down window never excludes a record the filter keeps: on a
    parsed conjunction, compiling in split mode succeeds, only [source_timestamp] is
    reported consumed, and every record the full predicate keeps has - when any bound
    was folded - a [source_timestamp] inside the window, whatever strictness the range
    operators had. *)
Theorem chronicle_window_superset hash cs s p s1 r :
  on_unsupported ctx = Split -> utc_dates (Node AND cs) = true ->
  compile_node (Node AND cs) s = Ok (p, s1) -> p r = Ok true ->
  exists cf, compile_chronicle hash ctx (Node AND cs) = Ok cf /\
    consumed_keys cf ⊆ {["source_timestamp"]} /\
    (predicate cf = MkBound None None \/
     exists t, timestamp_is r t /\ in_window (predicate cf) t).
Proof.
  intros Hsplit Hutc Hc Hr.
  assert (Hcs : Forall (fun c => forallb utc_leaf (leaves c) = true /\
    exists s p s1, compile_node c s = Ok (p, s1) /\ p r = Ok true) cs).
  { unfold utc_dates in Hutc. simpl in Hutc, Hc. unfold c_combine in Hc.
    destruct (c_seq (List.map compile_node cs) s) as [[ps s2]|] eqn:E; [|done].
    injection Hc as <- _. clear s1. revert s ps s2 E Hr.
    induction cs as [|c cs IH]; intros s ps s2 E Hr; [constructor|].
    simpl in Hutc. rewrite forallb_app in Hutc. apply andb_true_iff in Hutc as [Hu1 Hu2].
    simpl in E. destruct (compile_node c s) as [[q s3]|] eqn:Ec; [|done].
    destruct (c_seq (List.map compile_node cs) s3) as [[qs s4]|] eqn:Ecs; [|done].
    injection E as <- _. unfold p_all in Hr. simpl in Hr.
    destruct (q r) as [[]|] eqn:Eq; [|done|done].
    constructor; [by eauto 8|]. by eapply IH. }
  destruct (fold_children_sound cs (MkFold None None ∅) r Hsplit) as (st' & Hf & _ & Hk & Hor & Hal);
    [split; done|done|].
  eexists. unfold compile_chronicle, _fold_top_level_dates. simpl. rewrite Hf. split; [done|].
  simpl in *. split; [set_solver|]. destruct Hor as [-> |[t Ht]]; [by left|]. right.
  exists t. split; [done|]. apply Hal; [done|]. by split.
Qed.
End superset.

Lemma chronicle_window_superset_witness :
  exists cf, compile_chronicle (fun _ => "") plain_ctx
      (Node AND [Clause ["source_timestamp"] GT (VDate (dt_utc 5))]) = Ok cf /\
    consumed_keys cf ⊆ {["source_timestamp"]} /\
    (predicate cf = MkBound None None \/
     exists t, timestamp_is plain_ctx (DictRec [("source_timestamp", VDate (dt_utc 9))]) t /\
       in_window (predicate cf) t).
Proof.
  refine (chronicle_window_superset sample_fromiso (fun _ => "") plain_ctx (fun _ => "")
    [Clause ["source_timestamp"] GT (VDate (dt_utc 5))] ∅ _ _ _ eq_refl eq_refl eq_refl _).
  vm_compute. reflexivity.
Defined.
