(* ===== verification/FilterExecute.v ===== *)
(** The compile and execute seams ([filter/execute.py]), the ∃-over-provenance item
    filter ([filter/provenance.py]) and the pushdown report ([filter/report.py]). *)
From S2P Require Import Prelude PyValue FilterModel FilterAst FilterPython FilterChronicle.

Local Open Scope string_scope.
Local Open Scope list_scope.

(** ** Leaf inspection *)

Fixpoint iter_leaf_clauses (n : ast) : list ast :=
  match n with
  | Clause _ _ _ => [n]
  | Node _ cs => List.flat_map iter_leaf_clauses cs
  end.

Definition clause_key (l : ast) : string :=
  match l with Clause path _ _ => str_join "." path | Node _ _ => "" end.

Definition filter_leaf_keys (n : ast) : gset string :=
  list_to_set (List.map clause_key (iter_leaf_clauses n)).

Definition has_residual_metadata (n : ast) (consumed : gset string) : bool :=
  bool_decide (filter_leaf_keys n ∖ consumed <> ∅).

Definition filter_constrains_date_key (n : ast) : bool :=
  match n with
  | Node op cs =>
      bool_decide (op = AND) &&
      existsb (fun c =>
        match c with
        | Clause [key] _ _ => String.eqb key "occurred_at" || String.eqb key "created_at"
        | _ => false
        end) cs
  | Clause _ _ _ => false
  end.

(** The string members of an operand list. *)
Definition str_items (l : list value) : list string :=
  List.flat_map (fun v => match v with VStr s => [s] | _ => [] end) l.

(** The loop of [caller_channel_constraint]; [None] is the early [return None]. *)
Fixpoint channel_loop (cs : list ast) (channels : gset string) : result (option (gset string)) :=
  match cs with
  | [] => Ok (Some channels)
  | Clause path op operand :: cs' =>
      if negb (bool_decide (path = ["metadata"; "channel"])) then channel_loop cs' channels
      else
        match op, operand with
        | EQ, VStr s => channel_loop cs' ({[s]} ∪ channels)
        | IN, _ =>
            match py_iter operand with
            | Ok l => channel_loop cs' (list_to_set (str_items l) ∪ channels)
            | Err e => Err e
            end
        | _, _ => Ok None
        end
  | Node _ _ :: cs' => channel_loop cs' channels
  end.

Definition caller_channel_constraint (n : ast) : result (option (gset string)) :=
  match n with
  | Node op cs =>
      if negb (bool_decide (op = AND)) then Ok None
      else
        match channel_loop cs ∅ with
        | Ok (Some channels) => Ok (if bool_decide (channels = ∅) then None else Some channels)
        | r => r
        end
  | Clause _ _ _ => Ok None
  end.

(** ** The Chronicle plan *)

Definition build_compile_context (fm : option (list (string * string))) (mode : unsupported_mode)
  : CompileContext := MkContext fm mode.

Record ChronicleFilterPlan := MkPlan {
  date_bound : ChronicleDateBound;
  pushed_keys : gset string;
  post_filter : pred }.

Section execute.
Context (fromisoformat : string -> option datetime) (isoformat : datetime -> string).
Context (hash : ast -> string).

Definition plan_chronicle_filter (n : ast) : result ChronicleFilterPlan :=
  let ctx := build_compile_context None Split in
  match compile_chronicle hash ctx n with
  | Err e => Err e
  | Ok bound =>
      match compile_python fromisoformat isoformat hash ctx n with
      | Err e => Err e
      | Ok c => Ok (MkPlan (predicate bound) (consumed_keys bound) (predicate c))
      end
  end.

(** [[r for r in records if post_filter(r)]] *)
Fixpoint filter_m {A} (p : A -> result bool) (l : list A) : result (list A) :=
  match l with
  | [] => Ok []
  | x :: l' =>
      match p x with
      | Err e => Err e
      | Ok b =>
          match filter_m p l' with
          | Ok l'' => Ok (if b then x :: l'' else l'')
          | Err e => Err e
          end
      end
  end.

Definition run_chronicle_filter (n : ast) (records : list record) : result (list record) :=
  match plan_chronicle_filter n with
  | Ok plan => filter_m (post_filter plan) records
  | Err e => Err e
  end.
End execute.

(** ** Provenance *)

Definition _PAGE_SIZE : nat := 500.

Definition _DOC_KEYS : gset string :=
  list_to_set ["source_type"; "source_name"; "source_url"; "external_id"; "content_type";
               "source"; "title"].

(** A provenance chunk: its document, the raw record it is, and the four fields the
    dict record copies. *)
Record Chunk := MkChunk {
  ch_document : option Z;
  ch_raw : record;
  ch_occurred_at : value; ch_created_at : value; ch_source_timestamp : value;
  ch_metadata : value }.

(** The document keys of a [DocumentProjection], in the iteration order of the key
    set. *)
Definition projection : Type := list (string * value).

Record Degradation := MkDegradation { dg_component : string; dg_reason : string }.

(** [l[i : i + k]] for [i = 0, k, 2k, ...]; the fuel is the length of the list. *)
Fixpoint pages_fuel {A} (fuel k : nat) (l : list A) : list (list A) :=
  match fuel, l with
  | S fuel', _ :: _ => take k l :: pages_fuel fuel' k (drop k l)
  | _, _ => []
  end.

Definition pages {A} (k : nat) (l : list A) : list (list A) := pages_fuel (length l) k l.

(** [list(dict.fromkeys(l))]: first occurrences, in order. *)
Fixpoint fromkeys (seen : gset Z) (l : list Z) : list Z :=
  match l with
  | [] => []
  | x :: l' => if bool_decide (x ∈ seen) then fromkeys seen l' else x :: fromkeys ({[x]} ∪ seen) l'
  end.

Section provenance.
(** The storage seam: a page of chunks by id, a page of projections by document id;
    [None] where the call raises. *)
Context (get_chunks_batch : list Z -> option (list (Z * Chunk))).
Context (get_document_projections_batch : list Z -> option (list (Z * projection))).
Context (adapter : option (Chunk -> option projection -> record)).

(** [projections] as it is read: the last update of a document wins. *)
Definition proj_get (projections : gmap Z projection) (doc : option Z) : option projection :=
  match doc with Some d => projections !! d | None => None end.

Definition doc_fields (doc : option projection) : list (string * value) :=
  match doc with
  | None => []
  | Some p => filter (fun kv => negb (is_none kv.2) && bool_decide (kv.1 ∈ _DOC_KEYS)) p
  end.

Definition _record_for (ch : Chunk) (needs_docs : bool) (projections : gmap Z projection) : record :=
  let doc := if needs_docs then proj_get projections (ch_document ch) else None in
  match adapter with
  | Some f => f ch doc
  | None =>
      if negb needs_docs then ch_raw ch
      else
        DictRec ([("occurred_at", ch_occurred_at ch); ("created_at", ch_created_at ch);
                  ("source_timestamp", ch_source_timestamp ch);
                  ("metadata", if truthy (ch_metadata ch) then ch_metadata ch else VDict [])]
                 ++ doc_fields doc)
  end.

(** The inner loop over document pages: stops at the first page that raises, keeping
    the updates of the pages before it. *)
Fixpoint hydrate (doc_pages : list (list Z)) (projections : gmap Z projection)
  : bool * gmap Z projection :=
  match doc_pages with
  | [] => (true, projections)
  | page :: rest =>
      match get_document_projections_batch page with
      | None => (false, projections)
      | Some rows => hydrate rest (list_to_map rows ∪ projections)
      end
  end.

(** The document ids to hydrate for a page of chunks. *)
Definition missing_docs (chunks : list (Z * Chunk)) (projections : gmap Z projection) : list Z :=
  fromkeys ∅ (List.flat_map (fun ic =>
    match ch_document ic.2 with
    | Some d => if bool_decide (is_Some (projections !! d)) then [] else [d]
    | None => []
    end) chunks).

Context (predicate : pred) (needs_docs : bool) (component : string).

(** [surviving.update(cid for cid, ch in ... if predicate(...))] *)
Fixpoint survivors (chunks : list (Z * Chunk)) (projections : gmap Z projection)
    (surviving : gset Z) : result (gset Z) :=
  match chunks with
  | [] => Ok surviving
  | (cid, ch) :: rest =>
      match predicate (_record_for ch needs_docs projections) with
      | Err e => Err e
      | Ok b => survivors rest projections (if b then {[cid]} ∪ surviving else surviving)
      end
  end.

(** The page loop, with [break] on a failed fetch. *)
Fixpoint page_loop (ps : list (list Z)) (projections : gmap Z projection) (surviving : gset Z)
  : result (gset Z * list Degradation) :=
  match ps with
  | [] => Ok (surviving, [])
  | page :: rest =>
      match get_chunks_batch page with
      | None => Ok (surviving, [MkDegradation component "provenance_fetch_failed"])
      | Some chunks =>
          let '(ok, projections') :=
            if needs_docs then hydrate (pages _PAGE_SIZE (missing_docs chunks projections)) projections
            else (true, projections) in
          if negb ok then Ok (surviving, [MkDegradation component "document_fetch_failed"])
          else
            match survivors chunks projections' surviving with
            | Err e => Err e
            | Ok surviving' => page_loop rest projections' surviving'
            end
      end
  end.
End provenance.

(** An item is its identity and its [source_chunk_ids]. *)
Record Item := MkItem { it_id : string; it_chunks : list Z }.

Section filter_items.
Context (fromisoformat : string -> option datetime) (isoformat : datetime -> string).
Context (hash : ast -> string).
Context (get_chunks_batch : list Z -> option (list (Z * Chunk))).
Context (get_document_projections_batch : list Z -> option (list (Z * projection))).
Context (adapter : option (Chunk -> option projection -> record)).

Definition kept_items (items : list Item) (surviving : gset Z) : list Item :=
  filter (fun it => existsb (fun cid => bool_decide (cid ∈ surviving)) (it_chunks it)) items.

(** The kept items and the degradations appended. *)
Definition filter_items_by_provenance (items : list Item) (n : ast) (component : string)
  : result (list Item * list Degradation) :=
  match items with
  | [] => Ok ([], [])
  | _ =>
      match compile_python fromisoformat isoformat hash (build_compile_context None Split) n with
      | Err e => Err e
      | Ok c =>
          let needs_docs := bool_decide (filter_leaf_keys n ∩ _DOC_KEYS <> ∅) in
          let ordered_ids := fromkeys ∅ (List.flat_map it_chunks items) in
          match page_loop get_chunks_batch get_document_projections_batch adapter
                  (predicate c) needs_docs component (pages _PAGE_SIZE ordered_ids) ∅ ∅ with
          | Err e => Err e
          | Ok (surviving, degs) => Ok (kept_items items surviving, degs)
          end
      end
  end.
End filter_items.

(** ** The pushdown report *)

Record FilterChannelReport := MkChannelReport {
  cr_pushed : list string; cr_post : list string }.

Record FilterPushdownReport := MkReport {
  rp_pushed_down : bool; rp_post_filtered : bool;
  rp_pushed_keys : list string; rp_post_filtered_keys : list string;
  rp_unenforced_keys : list string; rp_channels : list (string * FilterChannelReport) }.

Record ChannelPlan := MkChannel {
  cp_pushed : gset string; cp_post : gset string; cp_defensive : bool }.

(** [sorted(s)] of a set of strings. *)
Definition sorted_keys (s : gset string) : list string := sort_by (fun x => x) (elements s).

Definition channel_gates (leaf : string) (plan : ChannelPlan) : bool :=
  bool_decide (leaf ∈ cp_pushed plan ∪ cp_post plan).

(** One leaf of the partition loop: in which accumulator it goes. *)
Inductive disposition := Pushed | PostFiltered | Ungated.

#[export] Instance disposition_eq_dec : EqDecision disposition.
Proof. solve_decision. Defined.

Definition leaf_disposition (plans : list ChannelPlan) (leaf : string) : disposition :=
  let gating := filter (fun p => channel_gates leaf p) plans in
  if existsb (fun p => bool_decide (leaf ∈ cp_post p)) gating then PostFiltered
  else match gating with [] => Ungated | _ => Pushed end.

Definition surface_uncovered (surface_sizes : option (list (string * Z))) (covered : gset string) : bool :=
  match surface_sizes with
  | None => false
  | Some sizes =>
      existsb (fun s => Z.ltb 0 (default 0%Z (dict_get s sizes)) && negb (bool_decide (s ∈ covered)))
        ["chunks"; "entities"; "relationships"]
  end.

Definition build_filter_report (n : option ast) (channel_inputs : list (string * ChannelPlan))
    (surface_sizes : option (list (string * Z))) (covered : gset string) : FilterPushdownReport :=
  let channels := List.map (fun '(name, plan) =>
    (name, MkChannelReport (sorted_keys (cp_pushed plan)) (sorted_keys (cp_post plan)))) channel_inputs in
  let plans := List.map snd channel_inputs in
  let any_defensive := existsb cp_defensive plans in
  let all_leaves : gset string :=
    match n with
    | Some (Node op (c :: cs)) => filter_leaf_keys (Node op (c :: cs))
    | _ => ∅
    end in
  if bool_decide (all_leaves = ∅) then MkReport false any_defensive [] [] [] channels
  else
    let pushed0 := filter (fun l => leaf_disposition plans l = Pushed) all_leaves in
    let post0 := filter (fun l => leaf_disposition plans l = PostFiltered) all_leaves in
    let surface := if surface_uncovered surface_sizes covered then all_leaves else ∅ in
    let pushed := pushed0 ∖ surface in
    let post := post0 ∖ surface in
    MkReport
      (bool_decide (post = ∅) && bool_decide (pushed = all_leaves))
      (negb (bool_decide (post = ∅)) || any_defensive)
      (sorted_keys pushed) (sorted_keys post)
      (sorted_keys ((all_leaves ∖ pushed ∖ post) ∪ surface)) channels.
