(* ===== verification/FilterExecuteFacts.v ===== *)
(** Theorems on the execution seams: the channel detector is sound for the filter it
    reads, the provenance filter implements its existential specification and fails
    closed, and the pushdown report is a total, disjoint partition. *)
From S2P Require Import Prelude PyValue FilterModel FilterAst FilterPython FilterAstFacts.
From S2P Require Import FilterPythonFacts FilterChronicle FilterExecute.

Local Open Scope string_scope.
Local Open Scope list_scope.

(** ** The channel detector *)

Section channel.
Context (fromisoformat : string -> option datetime) (isoformat : datetime -> string).
Context (ctx : CompileContext).

Abbreviation compile_node := (compile_node fromisoformat isoformat ctx).

(** The record's [metadata.channel] contains one of the channels. *)
Definition channel_hit (r : record) (channels : gset string) : Prop :=
  exists c, c ∈ channels /\
    _md_contains isoformat (_md_extract r ["channel"]) (VStr c) = true.

Lemma channel_hit_mono r c1 c2 : c1 ⊆ c2 -> channel_hit r c1 -> channel_hit r c2.
Proof. intros Hs (c & Hc & H). exists c. split; [set_solver|done]. Qed.

(** A conjunction's clause that pins the channel, on a record it keeps. *)
Lemma channel_clause_hit op v s p s1 r channels :
  compile_node (Clause ["metadata"; "channel"] op v) s = Ok (p, s1) -> p r = Ok true ->
  (op = EQ /\ (exists c, v = VStr c /\ c ∈ channels)) \/
  (op = IN /\ exists l, py_iter v = Ok l /\ Forall (fun x => exists c, x = VStr c) l /\
     list_to_set (str_items l) ⊆ channels) ->
  channel_hit r channels.
Proof.
  intros Hc Hr H.
  change (compile_clause fromisoformat isoformat ctx ["metadata"; "channel"] op v s = Ok (p, s1)) in Hc.
  apply compile_clause_cases in Hc as [(k & [=] & _)|(seg & segs & [= <- <-] & Hc)]; [|done].
  destruct H as [[-> (c & -> & Hin)]|[-> (l & Hl & Hstr & Hsub)]].
  - injection Hc as <-. simpl in Hr. injection Hr as Hr. by exists c.
  - unfold metadata_path_clause in Hc. rewrite Hl in Hc.
    destruct (negb (truthy v)); injection Hc as <-; [done|]. simpl in Hr.
    injection Hr as Hr. apply existsb_exists in Hr as (x & Hx & Hm).
    apply list_elem_of_In in Hx. rewrite Forall_forall in Hstr.
    destruct (Hstr x Hx) as [c ->]. exists c. split; [|done].
    apply Hsub, elem_of_list_to_set. unfold str_items. apply list_elem_of_In, in_flat_map.
    exists (VStr c). split; [by apply list_elem_of_In|by left].
Qed.

(** All members of every channel list are strings. *)
Definition string_members (cs : list ast) : Prop :=
  Forall (fun c => match c with
    | Clause path IN v => path = ["metadata"; "channel"] ->
        forall l, py_iter v = Ok l -> Forall (fun x => exists c, x = VStr c) l
    | _ => True end) cs.

Lemma channel_loop_sound cs : forall acc channels s ps s1 r,
  channel_loop cs acc = Ok (Some channels) -> string_members cs ->
  c_seq (List.map compile_node cs) s = Ok (ps, s1) -> p_all ps r = Ok true ->
  acc ⊆ channels /\ (channels <> acc -> channel_hit r channels).
Proof.
  induction cs as [|c cs IH]; intros acc channels s ps s1 r Hl Hs Hc Hr.
  - injection Hl as <-. done.
  - apply Forall_cons in Hs as [Hsc Hs]. simpl in Hc.
    destruct (compile_node c s) as [[p s2]|] eqn:Ec; [|done].
    destruct (c_seq (List.map compile_node cs) s2) as [[qs s3]|] eqn:Ecs; [|done].
    injection Hc as <- _. unfold p_all in Hr. simpl in Hr.
    destruct (p r) as [[]|] eqn:Ep; [|done|done].
    destruct c as [path op v|op ds]; [|simpl in Hl; by eapply IH].
    cbn [channel_loop] in Hl. case_bool_decide as Hpath; [|simpl in Hl; by eapply IH].
    subst path. cbn [negb] in Hl.
    assert (Hcase : exists add, channel_loop cs (add ∪ acc) = Ok (Some channels) /\
      (add ⊆ channels -> channel_hit r channels)).
    { destruct op; try done.
      - destruct v; try done. exists {[s0]}. split; [done|]. intros Hadd.
        eapply channel_clause_hit; [exact Ec|exact Ep|]. left. split; [done|].
        exists s0. split; [done|set_solver].
      - destruct (py_iter v) as [l|] eqn:El; [|done]. eexists. split; [exact Hl|]. intros Hadd.
        eapply channel_clause_hit; [exact Ec|exact Ep|]. right. split; [done|].
        exists l. eauto. }
    destruct Hcase as (add & Hl' & Hhit).
    destruct (IH _ _ _ _ _ _ Hl' Hs Ecs Hr) as [Hsub _].
    split; [set_solver|]. intros _. apply Hhit. set_solver.
Qed.

(** When the detector reports that a filter pins channels, every record the
    filter keeps has one of them: its [metadata.channel] is, or contains, a reported
    channel. *)
Theorem caller_channel_constraint_sound cs channels s p s1 r :
  caller_channel_constraint (Node AND cs) = Ok (Some channels) -> string_members cs ->
  compile_node (Node AND cs) s = Ok (p, s1) -> p r = Ok true ->
  channel_hit r channels.
Proof.
  simpl. intros H Hs Hc Hr. destruct (channel_loop cs ∅) as [[ch|]|] eqn:E; [|done|done].
  case_bool_decide as Hne; [done|]. injection H as ->.
  unfold c_combine in Hc. destruct (c_seq _ s) as [[ps s2]|] eqn:Ecs; [|done].
  injection Hc as <- _. by eapply channel_loop_sound in E as [_ E]; [apply E|..].
Qed.
End channel.

(** ** Pages and first occurrences *)

Lemma pages_fuel_concat {A} fuel k (l : list A) :
  0 < k -> length l <= fuel -> List.concat (pages_fuel fuel k l) = l.
Proof.
  intros Hk. revert l. induction fuel as [|fuel IH]; intros [|x l]; simpl; try done; [lia|].
  intros Hl. rewrite IH; [apply take_drop|]. rewrite length_drop. simpl. lia.
Qed.

Lemma pages_concat {A} k (l : list A) : 0 < k -> List.concat (pages k l) = l.
Proof. intros Hk. by apply pages_fuel_concat. Qed.

Lemma elem_of_fromkeys seen l x : x ∈ fromkeys seen l <-> x ∈ l /\ x ∉ seen.
Proof.
  revert seen. induction l as [|y l IH]; intros seen; simpl; [set_solver|].
  case_bool_decide; rewrite ?elem_of_cons, IH; [set_solver|].
  destruct (decide (x = y)) as [->|]; set_solver.
Qed.

Lemma elem_of_concat {A} (x : A) ls : x ∈ List.concat ls <-> exists l, l ∈ ls /\ x ∈ l.
Proof.
  rewrite list_elem_of_In, in_concat. by setoid_rewrite list_elem_of_In.
Qed.

(** ** The provenance filter against a store *)

Section provenance.
(** The committed chunks and documents, and which fetches succeed. *)
Context (store : gmap Z Chunk) (docs : gmap Z projection).
Context (chunks_up docs_up : list Z -> bool).
Context (adapter : option (Chunk -> option projection -> record)).

(** The rows of a table with an id in the page: [SELECT ... WHERE id IN page]. *)
Definition select {A} (t : gmap Z A) (page : list Z) : list (Z * A) :=
  List.flat_map (fun id => match t !! id with Some a => [(id, a)] | None => [] end) page.

Definition fetch_chunks (page : list Z) : option (list (Z * Chunk)) :=
  if chunks_up page then Some (select store page) else None.

Definition fetch_docs (page : list Z) : option (list (Z * projection)) :=
  if docs_up page then Some (select docs page) else None.

Lemma elem_of_select {A} (t : gmap Z A) page id a :
  (id, a) ∈ select t page <-> id ∈ page /\ t !! id = Some a.
Proof.
  unfold select. rewrite list_elem_of_In, in_flat_map. split.
  - intros (x & Hx & H). destruct (t !! x) eqn:E; [|done].
    destruct H as [[= -> ->]|[]]. by rewrite list_elem_of_In.
  - intros [Hin E]. exists id. split; [by apply list_elem_of_In|]. rewrite E. by left.
Qed.

Lemma select_lookup {A} (t : gmap Z A) page id :
  (list_to_map (select t page) : gmap Z A) !! id =
  if bool_decide (id ∈ page) then t !! id else None.
Proof.
  induction page as [|x page IH]; [done|]. unfold select in *. simpl.
  destruct (t !! x) as [a|] eqn:E; simpl.
  - destruct (decide (id = x)) as [->|Hne].
    + rewrite lookup_insert_eq, bool_decide_eq_true_2; [done|left].
    + rewrite lookup_insert_ne, IH by done. do 2 case_bool_decide; set_solver.
  - rewrite IH. destruct (decide (id = x)) as [->|Hne].
    + rewrite (bool_decide_eq_true_2 (x ∈ x :: page)) by left. rewrite E. by case_bool_decide.
    + do 2 case_bool_decide; set_solver.
Qed.

(** Hydrated projections are those of the store. *)
Definition proj_ok (projections : gmap Z projection) : Prop := projections ⊆ docs.

Lemma hydrate_spec ps : forall projections ok projections',
  proj_ok projections -> hydrate fetch_docs ps projections = (ok, projections') ->
  proj_ok projections' /\
  (ok = true -> projections ⊆ projections' /\
     forall d, d ∈ List.concat ps -> projections' !! d = docs !! d).
Proof.
  induction ps as [|page ps IH]; intros projections ok projections' Hp; simpl.
  - intros [= <- <-]. split; [done|]. intros _. split; [done|]. by intros d ?%elem_of_nil.
  - unfold fetch_docs at 1. destruct (docs_up page); [|by intros [= <- <-]].
    assert (Hp1 : proj_ok (list_to_map (select docs page) ∪ projections)).
    { apply map_subseteq_spec. intros d x. rewrite lookup_union_Some_raw, select_lookup.
      case_bool_decide; [|intros [?|[_ ?]]; [done|by eapply map_subseteq_spec]].
      intros [?|[? ?]]; [done|by eapply map_subseteq_spec]. }
    intros H. destruct (IH _ _ _ Hp1 H) as [Hp' Hok]. split; [done|]. intros E.
    destruct (Hok E) as [Hsub Hall].
    assert (Hpage : forall d, d ∈ page -> projections' !! d = docs !! d).
    { intros d Hd. destruct (docs !! d) as [x|] eqn:Ed.
      - eapply map_subseteq_spec; [exact Hsub|]. apply lookup_union_Some_raw. left.
        rewrite select_lookup. by rewrite bool_decide_eq_true_2.
      - destruct (projections' !! d) as [y|] eqn:Ey; [|done].
        eapply map_subseteq_spec in Ey; [|exact Hp']. congruence. }
    split.
    + apply map_subseteq_spec. intros d x Hd.
      eapply map_subseteq_spec in Hd as Hdx; [|exact Hp].
      destruct (decide (d ∈ page)); [by rewrite Hpage|].
      eapply map_subseteq_spec; [exact Hsub|]. apply lookup_union_Some_raw. right.
      rewrite select_lookup. by rewrite bool_decide_eq_false_2.
    + intros d [Hd|Hd]%elem_of_app; auto.
Qed.

Context (predicate : pred) (needs_docs : bool) (component : string).

(** The record a chunk is judged by, with its document as the store has it. *)
Definition spec_record (ch : Chunk) : record := _record_for adapter ch needs_docs docs.

(** Chunk [cid] exists and passes. *)
Definition passes (cid : Z) : Prop :=
  exists ch, store !! cid = Some ch /\ predicate (spec_record ch) = Ok true.

Lemma record_for_agree ch projections :
  (needs_docs = true -> forall d, ch_document ch = Some d -> projections !! d = docs !! d) ->
  _record_for adapter ch needs_docs projections = spec_record ch.
Proof.
  intros H. unfold spec_record, _record_for. destruct needs_docs; [|done].
  assert (proj_get projections (ch_document ch) = proj_get docs (ch_document ch)) as ->; [|done].
  unfold proj_get. destruct (ch_document ch); auto.
Qed.

Lemma survivors_spec chunks projections : forall surviving surviving',
  Forall (fun ic => needs_docs = true -> forall d, ch_document ic.2 = Some d ->
            projections !! d = docs !! d) chunks ->
  survivors adapter predicate needs_docs chunks projections surviving = Ok surviving' ->
  forall cid, cid ∈ surviving' <->
    cid ∈ surviving \/ exists ch, (cid, ch) ∈ chunks /\ predicate (spec_record ch) = Ok true.
Proof.
  induction chunks as [|[c ch] chunks IH]; intros surviving surviving' Hag H cid; simpl in H.
  - injection H as <-. split; [by left|]. intros [?|(ch & ?%elem_of_nil & _)]; done.
  - apply Forall_cons in Hag as [Hch Hag]. rewrite record_for_agree in H by done.
    destruct (predicate (spec_record ch)) as [b|] eqn:E; [|done].
    rewrite (IH _ _ Hag H). setoid_rewrite elem_of_cons. split.
    + intros [Hc|(ch' & Hin & Hp)]; [|eauto 6]. destruct b; [|by left].
      apply elem_of_union in Hc as [->%elem_of_singleton|Hc]; [|by left]. eauto 6.
    + intros [Hc|(ch' & [[= -> ->]|Hin] & Hp)].
      * left. destruct b; set_solver.
      * rewrite E in Hp. injection Hp as ->. left. set_solver.
      * eauto.
Qed.

Lemma missing_docs_elem chunks projections d :
  d ∈ missing_docs chunks projections <->
  projections !! d = None /\ exists ic, ic ∈ chunks /\ ch_document ic.2 = Some d.
Proof.
  unfold missing_docs. rewrite elem_of_fromkeys, list_elem_of_In, in_flat_map. split.
  - intros [(ic & Hin & H) _]. apply list_elem_of_In in Hin.
    destruct (ch_document ic.2) as [d'|] eqn:E; [|done]. case_bool_decide as Hs; [done|].
    destruct H as [->|[]]. split; [by apply eq_None_not_Some|]. eauto.
  - intros [Hn (ic & Hin & E)]. split; [|set_solver]. exists ic.
    rewrite <- list_elem_of_In, E. split; [done|].
    rewrite bool_decide_eq_false_2; [by left|]. rewrite Hn. by intros [].
Qed.

(** One page that hydrates: every projection its chunks need is right. *)
Lemma page_hydrated page projections ok projections' :
  proj_ok projections ->
  (if needs_docs then hydrate fetch_docs (pages _PAGE_SIZE (missing_docs (select store page) projections)) projections
   else (true, projections)) = (ok, projections') ->
  proj_ok projections' /\
  (ok = true ->
   Forall (fun ic => needs_docs = true -> forall d, ch_document ic.2 = Some d ->
             projections' !! d = docs !! d) (select store page)).
Proof.
  intros Hp H. destruct needs_docs; [|injection H as <- <-; split; [done|]; intros _; by apply Forall_forall].
  destruct (hydrate_spec _ _ _ _ Hp H) as [Hp' Hok]. split; [done|]. intros E.
  destruct (Hok E) as [Hsub Hall]. apply Forall_forall. intros ic Hic _ d Hd.
  destruct (projections !! d) as [x|] eqn:Ex.
  - eapply map_subseteq_spec in Ex as Ex1; [|exact Hsub].
    eapply map_subseteq_spec in Ex; [|exact Hp]. congruence.
  - apply Hall. rewrite pages_concat by (unfold _PAGE_SIZE; lia).
    apply missing_docs_elem. eauto.
Qed.

Lemma page_loop_spec ps : forall projections surviving surviving' degs,
  proj_ok projections ->
  page_loop fetch_chunks fetch_docs adapter predicate needs_docs component ps projections surviving
    = Ok (surviving', degs) ->
  (forall cid, cid ∈ surviving' -> cid ∈ surviving \/ passes cid) /\
  (degs = [] -> forall cid, cid ∈ surviving' <->
     cid ∈ surviving \/ (cid ∈ List.concat ps /\ passes cid)) /\
  length degs <= 1.
Proof.
  induction ps as [|page ps IH]; intros projections surviving surviving' degs Hp H; simpl in H.
  - injection H as <- <-. split_and!; [by left| |simpl; lia]. intros _ cid. set_solver.
  - unfold fetch_chunks in H at 1. destruct (chunks_up page); cycle 1.
    { injection H as <- <-. split_and!; [by left|done|simpl; lia]. }
    destruct (if needs_docs then _ else _) as [ok projections'] eqn:Eh.
    destruct (page_hydrated _ _ _ _ Hp Eh) as [Hp' Hag].
    destruct ok; cycle 1.
    { injection H as <- <-. split_and!; [by left|done|simpl; lia]. }
    simpl in H. destruct (survivors _ _ _ _ _ _) as [surv1|] eqn:Es; [|done].
    pose proof (survivors_spec _ _ _ _ (Hag eq_refl) Es) as Hs.
    assert (Hpage : forall cid, (exists ch, (cid, ch) ∈ select store page /\
        predicate (spec_record ch) = Ok true) <-> cid ∈ page /\ passes cid).
    { intros cid. unfold passes. setoid_rewrite elem_of_select. naive_solver. }
    setoid_rewrite Hpage in Hs. destruct (IH _ _ _ _ Hp' H) as (H1 & H2 & H3). split_and!; [| |done].
    + intros cid [Hc|Hc]%H1; [|by right]. apply Hs in Hc. naive_solver.
    + intros E cid. rewrite (H2 E), Hs. simpl. rewrite elem_of_app. naive_solver.
Qed.
End provenance.

Section provenance_theorem.
Context (fromisoformat : string -> option datetime) (isoformat : datetime -> string).
Context (hash : ast -> string).
Context (store : gmap Z Chunk) (docs : gmap Z projection).
Context (chunks_up docs_up : list Z -> bool).
Context (adapter : option (Chunk -> option projection -> record)).

(** The existential specification: some provenance chunk of the item exists and the
    filter keeps its record. *)
Definition proven (n : ast) (p : pred) (it : Item) : Prop :=
  exists cid, cid ∈ it_chunks it /\
    passes store docs adapter p (bool_decide (filter_leaf_keys n ∩ _DOC_KEYS <> ∅)) cid.

(** C37.  The provenance filter refines its existential specification whatever fetches
    fail.  Fail-closed: every item returned is proven, in input order, with at most
    one degradation recorded.  And when no degradation was recorded, exactly the
    proven items are returned - so paging and deduplication are invisible. *)
Theorem provenance_filter_refines n p cons hsh items component kept degs :
  compile_python fromisoformat isoformat hash (build_compile_context None Split) n
    = Ok (MkCompiled p cons hsh) ->
  filter_items_by_provenance fromisoformat isoformat hash
    (fetch_chunks store chunks_up) (fetch_docs docs docs_up) adapter items n component
    = Ok (kept, degs) ->
  sublist kept items /\ Forall (proven n p) kept /\ length degs <= 1 /\
  (degs = [] -> forall it, it ∈ items -> (it ∈ kept <-> proven n p it)).
Proof.
  intros Hc H. unfold filter_items_by_provenance in H.
  destruct items as [|it items]; [injection H as <- <-; split_and!; try done; simpl; [lia|];
    intros _ it ?%elem_of_nil; done|].
  rewrite Hc in H. simpl predicate in H. set (all := it :: items) in *. clearbody all. clear it items.
  destruct (page_loop _ _ _ _ _ _ _ _ _) as [[surviving degs']|] eqn:E; [|done].
  injection H as <- <-.
  destruct (page_loop_spec store docs chunks_up docs_up adapter p _ component _ _ _ _ _
    (map_empty_subseteq _) E) as (H1 & H2 & H3).
  assert (Hkept : forall it, it ∈ kept_items all surviving <->
    it ∈ all /\ exists cid, cid ∈ it_chunks it /\ cid ∈ surviving).
  { intros it. unfold kept_items. rewrite list_elem_of_filter, Is_true_true, existsb_exists.
    setoid_rewrite bool_decide_eq_true. setoid_rewrite <- list_elem_of_In. naive_solver. }
  split_and!; [| |done|].
  - unfold kept_items. clear. induction all as [|x l IH]; [constructor|].
    rewrite filter_cons. case_decide; by constructor.
  - apply Forall_forall. intros it (Hin & cid & Hcid & Hs)%Hkept. exists cid. split; [done|].
    destruct (H1 cid Hs) as [?%elem_of_empty|?]; done.
  - intros Hd it Hin. rewrite Hkept. unfold proven. setoid_rewrite (H2 Hd).
    rewrite pages_concat by (unfold _PAGE_SIZE; lia). setoid_rewrite elem_of_fromkeys.
    split.
    + intros (_ & cid & Hcid & [?%elem_of_empty|[_ ?]]); [done|eauto].
    + intros (cid & Hcid & Hp). split; [done|]. exists cid. split; [done|]. right.
      split; [|done]. split; [|set_solver]. apply list_elem_of_In, in_flat_map.
      exists it. by rewrite <- !list_elem_of_In.
Qed.
End provenance_theorem.

(** ** The pushdown report *)

Lemma elem_of_sorted_keys s l : l ∈ sorted_keys s <-> l ∈ s.
Proof. unfold sorted_keys. by rewrite sort_by_Permutation, elem_of_elements. Qed.

(** The leaves the report is about. *)
Definition report_leaves (n : option ast) : gset string :=
  match n with
  | Some (Node op (c :: cs)) => filter_leaf_keys (Node op (c :: cs))
  | _ => ∅
  end.

(** Some channel gates the leaf, and every channel that gates it pushed it without
    re-checking it. *)
Definition fully_pushed (plans : list ChannelPlan) (l : string) : Prop :=
  (exists p, p ∈ plans /\ l ∈ cp_pushed p) /\
  forall p, p ∈ plans -> l ∉ cp_post p.

(** Some channel re-checks the leaf in memory. *)
Definition rechecked (plans : list ChannelPlan) (l : string) : Prop :=
  exists p, p ∈ plans /\ l ∈ cp_post p.

Lemma existsb_gating plans l :
  existsb (fun p => bool_decide (l ∈ cp_post p)) (filter (fun p => channel_gates l p) plans) = true
  <-> rechecked plans l.
Proof.
  rewrite existsb_exists. unfold rechecked, channel_gates. split.
  - intros (p & Hp%list_elem_of_In & H%bool_decide_eq_true).
    apply list_elem_of_filter in Hp as [_ Hp]. eauto.
  - intros (p & Hp & H). exists p. rewrite bool_decide_eq_true, <- list_elem_of_In, list_elem_of_filter.
    split_and!; [|done|done]. apply bool_decide_spec. set_solver.
Qed.

Lemma leaf_disposition_spec plans l :
  match leaf_disposition plans l with
  | PostFiltered => rechecked plans l
  | Pushed => fully_pushed plans l
  | Ungated => forall p, p ∈ plans -> l ∉ cp_pushed p ∪ cp_post p
  end.
Proof.
  unfold leaf_disposition. destruct (existsb _ _) eqn:E; [by apply existsb_gating|].
  assert (Hn : forall p, p ∈ plans -> l ∉ cp_post p).
  { intros p Hp Hl. enough (existsb (fun p => bool_decide (l ∈ cp_post p))
      (filter (fun p => channel_gates l p) plans) = true) by congruence.
    apply existsb_gating. by exists p. }
  destruct (filter _ plans) as [|g gs] eqn:Eg.
  - intros p Hp Hl. assert (p ∈ filter (fun p => channel_gates l p) plans) as Hin;
      [|rewrite Eg in Hin; by apply elem_of_nil in Hin].
    apply list_elem_of_filter. split; [by apply bool_decide_spec|done].
  - split; [|done]. assert (g ∈ filter (fun p => channel_gates l p) plans) as Hin
      by (rewrite Eg; left).
    apply list_elem_of_filter in Hin as [Hg%bool_decide_spec Hin]. exists g. set_solver.
Qed.

Lemma leaf_disposition_pushed plans l : leaf_disposition plans l = Pushed <-> fully_pushed plans l.
Proof.
  pose proof (leaf_disposition_spec plans l) as H. split; [by intros E; rewrite E in H|].
  intros [(p & Hp & Hl) Hn]. destruct (leaf_disposition plans l); [done| |].
  - destruct H as (q & Hq & Hlq). by destruct (Hn q Hq).
  - destruct (H p Hp). set_solver.
Qed.

Lemma leaf_disposition_post plans l : leaf_disposition plans l = PostFiltered <-> rechecked plans l.
Proof.
  pose proof (leaf_disposition_spec plans l) as H. split; [by intros E; rewrite E in H|].
  intros (p & Hp & Hl). destruct (leaf_disposition plans l); [|done|].
  - destruct H as [_ Hn]. by destruct (Hn p Hp).
  - destruct (H p Hp). set_solver.
Qed.

Lemma sorted_partition (a b c t : gset string) :
  a ## b -> t = a ∪ b ∪ c -> c ## a ∪ b ->
  sorted_keys a ++ sorted_keys b ++ sorted_keys c ≡ₚ elements t.
Proof.
  intros Hab -> Hc. unfold sorted_keys. rewrite !sort_by_Permutation.
  rewrite elements_disj_union by set_solver. rewrite elements_disj_union by done.
  by rewrite app_assoc.
Qed.

Section report.
Context (n : option ast) (inputs : list (string * ChannelPlan)).
Context (sizes : option (list (string * Z))) (covered : gset string).

Let plans := List.map snd inputs.
Let rep := build_filter_report n inputs sizes covered.

(** The report is honest.  Its three key lists are a partition of the filter's
    constraint leaves, without duplicates.  A leaf is reported as pushed exactly when
    no uncovered result surface came back non-empty, some channel pushed it and no
    channel re-checks it; as post-filtered exactly when some channel re-checks it.
    [pushed_down] holds exactly when the filter has leaves and all of them are
    pushed, and [post_filtered] when a leaf is post-filtered or a channel re-checks
    defensively. *)
Theorem report_honest :
  rp_pushed_keys rep ++ rp_post_filtered_keys rep ++ rp_unenforced_keys rep
    ≡ₚ elements (report_leaves n) /\
  (forall l, l ∈ rp_pushed_keys rep <->
     l ∈ report_leaves n /\ surface_uncovered sizes covered = false /\ fully_pushed plans l) /\
  (forall l, l ∈ rp_post_filtered_keys rep <->
     l ∈ report_leaves n /\ surface_uncovered sizes covered = false /\ rechecked plans l) /\
  (rp_pushed_down rep = true <-> report_leaves n <> ∅ /\
     forall l, l ∈ report_leaves n -> l ∈ rp_pushed_keys rep) /\
  (rp_post_filtered rep = true <->
     (exists l, l ∈ rp_post_filtered_keys rep) \/ exists p, p ∈ plans /\ cp_defensive p = true).
Proof.
  assert (Hdef : existsb cp_defensive plans = true <-> exists p, p ∈ plans /\ cp_defensive p = true).
  { rewrite existsb_exists. by setoid_rewrite list_elem_of_In. }
  unfold rep, build_filter_report. fold (report_leaves n) plans.
  generalize (report_leaves n) as leaves. intros leaves. case_bool_decide as He.
  { subst leaves. simpl. rewrite elements_empty, Hdef. split_and!; set_solver. }
  set (sf := if surface_uncovered sizes covered then leaves else ∅).
  assert (Hsf : forall l, l ∈ leaves -> (l ∉ sf <-> surface_uncovered sizes covered = false))
    by (intros; subst sf; destruct (surface_uncovered sizes covered); set_solver).
  assert (Hsub : sf ⊆ leaves) by (subst sf; destruct (surface_uncovered sizes covered); set_solver).
  clearbody sf.
  set (pu := (filter (fun l => leaf_disposition plans l = Pushed) leaves) ∖ sf).
  set (po := (filter (fun l => leaf_disposition plans l = PostFiltered) leaves) ∖ sf).
  assert (Hpu : forall l, l ∈ pu <-> l ∈ leaves /\ (l ∉ sf) /\ fully_pushed plans l).
  { intros l. subst pu. rewrite elem_of_difference, elem_of_filter, leaf_disposition_pushed. naive_solver. }
  assert (Hpo : forall l, l ∈ po <-> l ∈ leaves /\ (l ∉ sf) /\ rechecked plans l).
  { intros l. subst po. rewrite elem_of_difference, elem_of_filter, leaf_disposition_post. naive_solver. }
  assert (Hdisj : pu ## po).
  { intros l (_ & _ & _ & Hn)%Hpu (_ & _ & p & Hp & Hl)%Hpo. by destruct (Hn p Hp). }
  clearbody pu po. cbn [rp_pushed_keys rp_post_filtered_keys rp_unenforced_keys rp_pushed_down rp_post_filtered].
  setoid_rewrite elem_of_sorted_keys. split_and!.
  - apply sorted_partition; [done| |set_solver]. apply set_eq. intros l.
    destruct (decide (l ∈ pu)), (decide (l ∈ po)); set_solver.
  - intros l. rewrite Hpu. naive_solver.
  - intros l. rewrite Hpo. naive_solver.
  - rewrite andb_true_iff, !bool_decide_eq_true. split; [intros [_ ->]; done|]. intros [_ Hall].
    assert (pu = leaves) as -> by set_solver. set_solver.
  - rewrite orb_true_iff, Hdef, negb_true_iff, bool_decide_eq_false.
    split; (intros [H|H]; [left|by right]).
    + by apply set_choose_L.
    + destruct H as [l Hl]. set_solver.
Qed.
End report.

(** ** Witnesses *)

Definition c1_record : record := DictRec [("metadata", VDict [("channel", VStr "C1")])].

Lemma caller_channel_constraint_sound_witness :
  exists channels, channels = {["C1"]} /\ channel_hit (fun _ => "") c1_record channels.
Proof.
  exists {["C1"]}. split; [done|].
  refine (caller_channel_constraint_sound (fun _ => None) (fun _ => "")
    (build_compile_context None Split) [Clause ["metadata"; "channel"] EQ (VStr "C1")]
    {["C1"]} ∅ _ _ c1_record eq_refl _ eq_refl eq_refl).
  by repeat constructor.
Defined.

Definition sample_chunk (title_doc : Z) : Chunk :=
  MkChunk (Some title_doc) (DictRec []) VNone VNone VNone (VDict []).

(** Two items; the documents of their chunks have different titles. *)
Definition sample_store : gmap Z Chunk := {[1%Z := sample_chunk 10; 2%Z := sample_chunk 20]}.
Definition sample_docs : gmap Z projection :=
  {[10%Z := [("title", VStr "t")]; 20%Z := [("title", VStr "u")]]}.
Definition title_is_t : ast := Node AND [Clause ["title"] EQ (VStr "t")].

Lemma provenance_filter_refines_witness :
  exists p kept (degs : list Degradation), kept = [MkItem "x" [1%Z]] /\
    sublist kept [MkItem "x" [1%Z]; MkItem "y" [2%Z]] /\
    Forall (proven sample_store sample_docs None title_is_t p) kept /\ length degs <= 1 /\
    (degs = [] -> forall it, it ∈ [MkItem "x" [1%Z]; MkItem "y" [2%Z]] ->
       (it ∈ kept <-> proven sample_store sample_docs None title_is_t p it)).
Proof.
  do 3 eexists. split; [reflexivity|].
  refine (provenance_filter_refines (fun _ => None) (fun _ => "") (fun _ => "")
    sample_store sample_docs (fun _ => true) (fun _ => true) None title_is_t _ _ _
    [MkItem "x" [1%Z]; MkItem "y" [2%Z]] "entities" _ _ eq_refl _).
  vm_compute. reflexivity.
Defined.
