(* ===== verification/RecallCache.v ===== *)
(** The epoch-invalidated recall result cache
    ([engines/vectorcypher/recall_cache.py]) and the recall and write paths of the
    engine that use it. *)
From S2P Require Import Prelude PyValue FilterAst.

Local Open Scope string_scope.
Local Open Scope list_scope.

(** ** Ordered dictionaries ([collections.OrderedDict]), oldest entry first *)

Section odict.
Context {K : Type} `{EqDecision K} {V : Type}.

Definition odict : Type := list (K * V).

Fixpoint od_get (k : K) (d : odict) : option V :=
  match d with
  | [] => None
  | (k', v) :: d' => if decide (k = k') then Some v else od_get k d'
  end.

Fixpoint od_del (k : K) (d : odict) : odict :=
  match d with
  | [] => []
  | (k', v) :: d' => if decide (k = k') then d' else (k', v) :: od_del k d'
  end.

(** [d[k] = v]: an existing key keeps its position. *)
Fixpoint od_set (k : K) (v : V) (d : odict) : odict :=
  match d with
  | [] => [(k, v)]
  | (k', v') :: d' => if decide (k = k') then (k', v) :: d' else (k', v') :: od_set k v d'
  end.

(** [d.move_to_end(k)] for a key that is present. *)
Definition od_move_to_end (k : K) (d : odict) : odict :=
  match od_get k d with Some v => od_del k d ++ [(k, v)] | None => d end.

(** [while len(d) > cap: d.popitem(last=False)] *)
Fixpoint od_evict (cap : Z) (d : odict) : odict :=
  if (cap <? Z.of_nat (length d))%Z then
    match d with [] => [] | _ :: d' => od_evict cap d' end
  else d.
End odict.
Arguments odict : clear implicits.

(** ** The cache *)

(** [ChunkTemporalFilter] ([core/temporal.py]). *)
Record ChunkTemporalFilter := MkTemporalFilter {
  occurred_after : option datetime; occurred_before : option datetime;
  created_after : option datetime; created_before : option datetime;
  source_system : option string; author : option string; channel : option string;
  tags : option (list string); additional : list (string * value) }.

(** The inputs of one recall, as the engine passes them to [get] and [set]. *)
Record RecallArgs := MkArgs {
  ra_query : string; ra_namespace : Z; ra_mode : string; ra_limit : Z;
  ra_min_similarity : pyfloat; ra_graph_depth : option Z;
  ra_hybrid_alpha : option pyfloat; ra_recency_bias : option pyfloat;
  ra_temporal_filter : option ChunkTemporalFilter; ra_filter_ast : option ast;
  ra_config_fingerprint : string }.

(** The tuple that is digested. *)
Record KeyParts := MkParts {
  kp_query : string; kp_namespace : Z; kp_epoch : Z; kp_mode : string; kp_limit : Z;
  kp_min_similarity : pyfloat; kp_graph_depth : option Z;
  kp_hybrid_alpha : option pyfloat; kp_recency_bias : option pyfloat;
  kp_temporal : string; kp_filter : option string; kp_config : string }.

Section cache.
(** [str.strip().lower()], [round(float(x), 6)], [repr] of the temporal filter's
    [asdict], [canonical_hash], and [sha256(repr(parts))]. *)
Context (strip_lower : string -> string) (round6 : pyfloat -> pyfloat).
Context (repr_temporal : option ChunkTemporalFilter -> string) (hash : ast -> string).
Context (sha256_repr : KeyParts -> string).
(** The type of the cached results. *)
Context {R : Type}.

Record RecallResultCache := MkCache {
  _max_size : Z;
  _ttl : Z;
  _store : odict string (Z * R);
  _epochs : odict Z Z;
  _epochs_cap : Z;
  _hits : Z;
  _misses : Z }.

Definition init (max_size ttl_seconds : Z) : RecallResultCache :=
  MkCache max_size ttl_seconds [] [] (Z.max max_size 1000) 0 0.

Definition enabled (c : RecallResultCache) : bool := (0 <? _max_size c)%Z.

Definition with_store (c : RecallResultCache) s :=
  MkCache (_max_size c) (_ttl c) s (_epochs c) (_epochs_cap c) (_hits c) (_misses c).
Definition with_epochs (c : RecallResultCache) e :=
  MkCache (_max_size c) (_ttl c) (_store c) e (_epochs_cap c) (_hits c) (_misses c).
Definition add_hit (c : RecallResultCache) :=
  MkCache (_max_size c) (_ttl c) (_store c) (_epochs c) (_epochs_cap c) (_hits c + 1) (_misses c).
Definition add_miss (c : RecallResultCache) :=
  MkCache (_max_size c) (_ttl c) (_store c) (_epochs c) (_epochs_cap c) (_hits c) (_misses c + 1).

(** [self._epochs.get(namespace_id, 0)] *)
Definition epoch_of (c : RecallResultCache) (ns : Z) : Z := default 0%Z (od_get ns (_epochs c)).

Definition bump_epoch (c : RecallResultCache) (ns : Z) : Z * RecallResultCache :=
  let new_epoch := (epoch_of c ns + 1)%Z in
  (new_epoch,
   with_epochs c (od_evict (_epochs_cap c) (od_move_to_end ns (od_set ns new_epoch (_epochs c))))).

Definition bump_all_epochs (c : RecallResultCache) : RecallResultCache :=
  with_store (with_epochs c (List.map (fun '(ns, e) => (ns, (e + 1)%Z)) (_epochs c))) [].

Definition current_epoch (c : RecallResultCache) (ns : Z) : Z * RecallResultCache :=
  (epoch_of c ns,
   match od_get ns (_epochs c) with
   | Some _ => with_epochs c (od_move_to_end ns (_epochs c))
   | None => c
   end).

Definition parts (a : RecallArgs) (epoch : Z) : KeyParts :=
  MkParts (strip_lower (ra_query a)) (ra_namespace a) epoch (ra_mode a) (ra_limit a)
    (round6 (ra_min_similarity a)) (ra_graph_depth a)
    (round6 <$> ra_hybrid_alpha a) (round6 <$> ra_recency_bias a)
    (repr_temporal (ra_temporal_filter a)) (hash <$> ra_filter_ast a)
    (ra_config_fingerprint a).

Definition _digest (a : RecallArgs) (epoch : Z) : string := sha256_repr (parts a epoch).

(** [now] is [datetime.now()], in the unit of [_ttl]. *)
Definition get (now : Z) (c : RecallResultCache) (a : RecallArgs) (epoch : Z)
  : option R * RecallResultCache :=
  if negb (enabled c) then (None, c)
  else
    let key := _digest a epoch in
    match od_get key (_store c) with
    | Some (timestamp, r) =>
        if (now - timestamp <? _ttl c)%Z
        then (Some r, add_hit (with_store c (od_move_to_end key (_store c))))
        else (None, add_miss (with_store c (od_del key (_store c))))
    | None => (None, add_miss c)
    end.

Definition set (now : Z) (c : RecallResultCache) (a : RecallArgs) (epoch : Z) (r : R)
  : RecallResultCache :=
  if negb (enabled c) then c
  else if negb (Z.eqb (epoch_of c (ra_namespace a)) epoch) then c
  else
    let key := _digest a epoch in
    with_store c
      (od_evict (_max_size c) (od_move_to_end key (od_set key (now, r) (_store c)))).

Definition clear (c : RecallResultCache) : RecallResultCache := with_store c [].

(** [(size, hits, misses)] *)
Definition stats (c : RecallResultCache) : nat * Z * Z :=
  (length (_store c), _hits c, _misses c).
End cache.
Arguments RecallResultCache : clear implicits.

(** ** The engine around the cache *)

(** What a recall was computed from: its inputs and the version of the namespace its
    retrieval read. *)
Record Computed := MkComputed { cm_args : RecallArgs; cm_version : nat }.

(** A recall in flight: its inputs, the epoch captured at its start, the version of
    the last write that had completed by then, and its result once computed. *)
Record Flight := MkFlight {
  fl_args : RecallArgs; fl_epoch : Z; fl_completed : nat; fl_result : option nat }.

(** A recall's answer, and whether the cache gave it. *)
Record Reply := MkReply { rp_flight : Flight; rp_cached : bool; rp_computed : Computed }.

Record Sys := MkSys {
  s_cache : RecallResultCache Computed;
  s_now : Z;
  s_version : Z -> nat;
  s_completed : Z -> nat;
  s_flights : gmap nat Flight;
  s_replies : list Reply }.

Inductive Event :=
| Start (id : nat) (a : RecallArgs)   (* VectorCypherEngine.recall: current_epoch *)
| Lookup (id : nat)                   (* get; a hit answers the recall *)
| Retrieve (id : nat)                 (* the retrieval reads the namespace *)
| Finish (id : nat)                   (* set, then answer *)
| Mutate (ns : Z)                     (* a write changes the stored state *)
| Complete (ns : Z)                   (* bump_epoch at the end of the write *)
| Undo                                (* dream-undo: bump_all_epochs *)
| Disconnect                          (* clear *)
| Tick (d : Z).

Section engine.
Context (strip_lower : string -> string) (round6 : pyfloat -> pyfloat).
Context (repr_temporal : option ChunkTemporalFilter -> string) (hash : ast -> string).
Context (sha256_repr : KeyParts -> string).

Abbreviation get := (get strip_lower round6 repr_temporal hash sha256_repr).
Abbreviation set := (set strip_lower round6 repr_temporal hash sha256_repr).

Definition sys_init (max_size ttl : Z) : Sys :=
  MkSys (init max_size ttl) 0 (fun _ => 0) (fun _ => 0) ∅ [].

Definition upd (f : Z -> nat) (ns : Z) (n : nat) : Z -> nat :=
  fun ns' => if Z.eqb ns' ns then n else f ns'.

(** One step; [None] where the event does not apply. *)
Definition sys_step (s : Sys) (e : Event) : option Sys :=
  let '(MkSys c now ver comp fl reps) := s in
  match e with
  | Start id a =>
      match fl !! id with
      | Some _ => None
      | None =>
          let '(epoch, c') := current_epoch c (ra_namespace a) in
          Some (MkSys c' now ver comp
                  (<[id := MkFlight a epoch (comp (ra_namespace a)) None]> fl) reps)
      end
  | Lookup id =>
      f ← fl !! id;
      match get now c (fl_args f) (fl_epoch f) with
      | (Some r, c') => Some (MkSys c' now ver comp (delete id fl) (MkReply f true r :: reps))
      | (None, c') => Some (MkSys c' now ver comp fl reps)
      end
  | Retrieve id =>
      f ← fl !! id;
      Some (MkSys c now ver comp
              (<[id := MkFlight (fl_args f) (fl_epoch f) (fl_completed f)
                         (Some (ver (ra_namespace (fl_args f))))]> fl) reps)
  | Finish id =>
      f ← fl !! id;
      v ← fl_result f;
      let r := MkComputed (fl_args f) v in
      Some (MkSys (set now c (fl_args f) (fl_epoch f) r) now ver comp
              (delete id fl) (MkReply f false r :: reps))
  | Mutate ns => Some (MkSys c now (upd ver ns (S (ver ns))) comp fl reps)
  | Complete ns => Some (MkSys (bump_epoch c ns).2 now ver (upd comp ns (ver ns)) fl reps)
  | Undo => Some (MkSys (bump_all_epochs c) now ver ver fl reps)
  | Disconnect => Some (MkSys (clear c) now ver comp fl reps)
  | Tick d => Some (MkSys c (now + Z.max 0 d) ver comp fl reps)
  end.

Fixpoint sys_run (s : Sys) (es : list Event) : option Sys :=
  match es with
  | [] => Some s
  | e :: es' => s' ← sys_step s e; sys_run s' es'
  end.

(** The two situations in which an epoch does not move forward: a write pushes a
    namespace out of a full epoch map, and an undo while a recall of a namespace that
    was never written is in flight. *)
Definition undisturbed (s : Sys) (e : Event) : bool :=
  let epochs := _epochs (s_cache s) in
  match e with
  | Complete ns =>
      bool_decide (is_Some (od_get ns epochs)) ||
      (Z.of_nat (length epochs) <? _epochs_cap (s_cache s))%Z
  | Undo =>
      forallb (fun idf => bool_decide (is_Some (od_get (ra_namespace (fl_args idf.2)) epochs)))
        (map_to_list (s_flights s))
  | _ => true
  end.

Fixpoint calm (s : Sys) (es : list Event) : bool :=
  match es with
  | [] => true
  | e :: es' =>
      undisturbed s e && match sys_step s e with Some s' => calm s' es' | None => true end
  end.

(** An answer is fresh when it was computed for the same key, from a state at least as
    new as the last write completed before the recall started. *)
Definition fresh (r : Reply) : Prop :=
  let key a := parts strip_lower round6 repr_temporal hash a 0 in
  key (cm_args (rp_computed r)) = key (fl_args (rp_flight r)) /\
  fl_completed (rp_flight r) <= cm_version (rp_computed r).
End engine.
