(* ===== verification/RecallCacheFacts.v ===== *)
(** Theorems on the recall cache: answers are fresh as long as epochs only move
    forward, the store is bounded, a stored result is found again; and the two
    traces on which a stale answer is served. *)
From S2P Require Import Prelude PyValue FilterAst RecallCache.

Local Open Scope string_scope.
Local Open Scope list_scope.

(** ** Ordered dictionaries *)

Section odict_facts.
Context {K : Type} `{EqDecision K} {V : Type}.
Implicit Types d : odict K V.

Lemma od_set_get k k' v d : od_get k (od_set k' v d) = if decide (k = k') then Some v else od_get k d.
Proof. induction d as [|[k2 v2] d IH]; simpl; repeat (case_decide; simplify_eq/=; try done). Qed.

Lemma od_get_app k d1 d2 :
  od_get k (d1 ++ d2) = match od_get k d1 with Some v => Some v | None => od_get k d2 end.
Proof. induction d1 as [|[k' v'] d1 IH]; simpl; [done|]. by case_decide. Qed.

Lemma od_del_get_ne k k' d : k <> k' -> od_get k (od_del k' d) = od_get k d.
Proof.
  intros Hne. induction d as [|[k2 v2] d IH]; simpl; [done|].
  destruct (decide (k' = k2)) as [->|]; simpl; [by rewrite decide_False|]. by rewrite IH.
Qed.

Lemma od_get_None k d : od_get k d = None <-> k ∉ d.*1.
Proof.
  induction d as [|[k' v'] d IH]; csimpl; [set_solver|]. rewrite elem_of_cons.
  case_decide; naive_solver.
Qed.

Lemma od_get_elem k v d : od_get k d = Some v -> (k, v) ∈ d.
Proof. induction d as [|[k' v'] d IH]; simpl; [done|]. case_decide; [naive_solver left|right; auto]. Qed.

Lemma od_set_elem k v d x : x ∈ od_set k v d -> x = (k, v) \/ x ∈ d.
Proof.
  induction d as [|[k' v'] d IH]; simpl; [set_solver|]. case_decide; set_solver.
Qed.

Lemma od_del_sublist k d : sublist (od_del k d) d.
Proof. induction d as [|[k' v'] d IH]; simpl; [done|]. case_decide; by constructor. Qed.

Lemma od_del_NoDup k d : NoDup d.*1 -> NoDup (od_del k d).*1 /\ k ∉ (od_del k d).*1.
Proof.
  intros Hd. split.
  - induction d as [|[k' v'] d IH]; csimpl; [done|]. apply NoDup_cons in Hd as [Hn Hd].
    case_decide; [done|]. csimpl. apply NoDup_cons. split; [|auto].
    rewrite list_elem_of_fmap. intros (x & -> & Hx). apply Hn, list_elem_of_fmap.
    exists x. split; [done|]. eapply elem_of_sublist; [done|apply od_del_sublist].
  - induction d as [|[k' v'] d IH]; csimpl; [by intros ?%elem_of_nil|].
    apply NoDup_cons in Hd as [Hn Hd]. case_decide; [by subst|]. csimpl.
    intros [->|Hx]%elem_of_cons; [done|]. by apply IH.
Qed.

Lemma od_move_elem k d x : x ∈ od_move_to_end k d -> x ∈ d.
Proof.
  unfold od_move_to_end. destruct (od_get k d) eqn:E; [|done].
  rewrite elem_of_app, list_elem_of_singleton. intros [Hx| ->]; [|by apply od_get_elem].
  eapply elem_of_sublist; [done|apply od_del_sublist].
Qed.

Lemma od_evict_spec cap d : exists d0, d = d0 ++ od_evict cap d.
Proof.
  induction d as [|x d IH]; [exists []; simpl; by case_match|]. simpl od_evict.
  destruct (_ <? _)%Z; [|by exists []]. destruct IH as [d0 E]. exists (x :: d0). simpl. by f_equal.
Qed.

Lemma od_evict_elem cap d x : x ∈ od_evict cap d -> x ∈ d.
Proof. destruct (od_evict_spec cap d) as [d0 E]. rewrite E at 2. set_solver. Qed.

Lemma od_evict_length cap d : (0 <= cap)%Z -> (Z.of_nat (length (od_evict cap d)) <= cap)%Z.
Proof.
  intros Hc. induction d as [|x d IH]; simpl; [by case_match|].
  destruct (Z.ltb_spec cap (Z.of_nat (S (length d)))); [done|]. simpl. lia.
Qed.

Lemma od_evict_id cap d : (Z.of_nat (length d) <= cap)%Z -> od_evict cap d = d.
Proof. intros Hl. destruct d; simpl in *; by rewrite (proj2 (Z.ltb_ge _ _)). Qed.

Lemma od_set_length k v d :
  length (od_set k v d) = match od_get k d with Some _ => length d | None => S (length d) end.
Proof.
  induction d as [|[k' v'] d IH]; simpl; [done|].
  case_decide; simpl; [done|]. rewrite IH. by case_match.
Qed.

Lemma od_del_length k d : is_Some (od_get k d) -> S (length (od_del k d)) = length d.
Proof. induction d as [|[k' v'] d IH]; simpl; [by intros []|]. case_decide; simpl; auto. Qed.

Lemma od_move_length k d : length (od_move_to_end k d) = length d.
Proof.
  unfold od_move_to_end. destruct (od_get k d) eqn:E; [|done]. rewrite length_app. simpl.
  rewrite <- (od_del_length k d) by eauto. lia.
Qed.

Lemma od_move_get k k' d : NoDup d.*1 -> od_get k (od_move_to_end k' d) = od_get k d.
Proof.
  intros Hd. unfold od_move_to_end. destruct (od_get k' d) as [v|] eqn:E; [|done].
  rewrite od_get_app. destruct (decide (k = k')) as [->|Hne].
  - rewrite (proj2 (od_get_None _ _)) by (by apply od_del_NoDup). simpl. by rewrite decide_True.
  - rewrite od_del_get_ne by done. simpl. rewrite decide_False by done. by destruct (od_get k d).
Qed.

Lemma od_set_NoDup k v d : NoDup d.*1 -> NoDup (od_set k v d).*1.
Proof.
  induction d as [|[k' v'] d IH]; csimpl; [intros; by apply NoDup_singleton|].
  intros [Hn Hd]%NoDup_cons. case_decide; csimpl; apply NoDup_cons; subst; [done|].
  split; [|auto]. intros Hin%list_elem_of_fmap. destruct Hin as ([k2 v2] & -> & [[= -> ->]|Hin]%od_set_elem).
  - done.
  - apply Hn, list_elem_of_fmap. by exists (k2, v2).
Qed.

Lemma od_move_NoDup k d : NoDup d.*1 -> NoDup (od_move_to_end k d).*1.
Proof.
  intros Hd. unfold od_move_to_end. destruct (od_get k d) as [v|] eqn:E; [|done].
  destruct (od_del_NoDup k d Hd) as [Hd' Hk]. rewrite fmap_app. apply NoDup_app.
  split_and!; [done| |apply NoDup_singleton]. intros x Hx ->%list_elem_of_singleton. done.
Qed.

Lemma od_evict_NoDup cap d : NoDup d.*1 -> NoDup (od_evict cap d).*1.
Proof.
  destruct (od_evict_spec cap d) as [d0 E]. rewrite E at 1. rewrite fmap_app.
  by intros (_ & _ & H)%NoDup_app.
Qed.
End odict_facts.

(** ** One operation *)

Section cache_facts.
Context (strip_lower : string -> string) (round6 : pyfloat -> pyfloat).
Context (repr_temporal : option ChunkTemporalFilter -> string) (hash : ast -> string).
Context (sha256_repr : KeyParts -> string).
Context {R : Type}.

Abbreviation get := (get (R := R) strip_lower round6 repr_temporal hash sha256_repr).
Abbreviation set := (set (R := R) strip_lower round6 repr_temporal hash sha256_repr).
Abbreviation parts := (parts strip_lower round6 repr_temporal hash).
Abbreviation _digest := (_digest strip_lower round6 repr_temporal hash sha256_repr).

(** Keys are unique and both maps are within their bounds. *)
Record wf (c : RecallResultCache R) : Prop := {
  wf_store : NoDup (_store c).*1;
  wf_epochs : NoDup (_epochs c).*1;
  wf_size : (Z.of_nat (length (_store c)) <= Z.max 0 (_max_size c))%Z;
  wf_cap : (Z.of_nat (length (_epochs c)) <= _epochs_cap c)%Z;
  wf_caps : (0 < _epochs_cap c)%Z }.

Lemma wf_init max_size ttl : wf (init max_size ttl).
Proof. split; simpl; try constructor; lia. Qed.

Lemma od_touch_length {K V} `{EqDecision K} cap k (v : V) (d : odict K V) :
  (0 <= cap)%Z -> (Z.of_nat (length (od_evict cap (od_move_to_end k (od_set k v d)))) <= cap)%Z.
Proof. apply od_evict_length. Qed.

Lemma od_touch_NoDup {K V} `{EqDecision K} cap k (v : V) (d : odict K V) :
  NoDup d.*1 -> NoDup (od_evict cap (od_move_to_end k (od_set k v d))).*1.
Proof. intros. by apply od_evict_NoDup, od_move_NoDup, od_set_NoDup. Qed.

Lemma wf_bump c ns : wf c -> wf (bump_epoch c ns).2.
Proof.
  intros [? ? ? ? ?]. split; simpl; [done|by apply od_touch_NoDup|done| |done].
  apply od_touch_length. lia.
Qed.

Lemma bump_all_keys (c : RecallResultCache R) : (_epochs (bump_all_epochs c)).*1 = (_epochs c).*1.
Proof. simpl. induction (_epochs c) as [|[] l IH]; csimpl; by f_equal. Qed.

Lemma wf_bump_all c : wf c -> wf (bump_all_epochs c).
Proof.
  intros [? ? ? ? ?]. split; [simpl; constructor| |simpl; lia| |done].
  - by rewrite bump_all_keys.
  - by rewrite <- (length_fmap fst), bump_all_keys, length_fmap.
Qed.

Lemma wf_current c ns : wf c -> wf (current_epoch c ns).2.
Proof.
  intros [? ? ? ? ?]. unfold current_epoch. simpl. destruct (od_get ns (_epochs c)); [|by split].
  split; simpl; try done; [by apply od_move_NoDup|by rewrite od_move_length].
Qed.

Lemma wf_get now c a e : wf c -> wf (get now c a e).2.
Proof.
  intros [? ? ? ? ?]. unfold RecallCache.get. destruct (negb _); [by split|]. cbv zeta.
  destruct (od_get _ _) as [[t r]|] eqn:E; [|by split]. destruct (_ <? _)%Z.
  - split; simpl; try done; [by apply od_move_NoDup|by rewrite od_move_length].
  - split; simpl; try done; [by apply od_del_NoDup|].
    pose proof (od_del_length (_digest a e) (_store c) ltac:(eauto)). lia.
Qed.

Lemma wf_set now c a e r : wf c -> wf (set now c a e r).
Proof.
  intros [? ? ? ? ?]. unfold RecallCache.set, enabled. destruct (Z.ltb_spec 0 (_max_size c)); [|by split].
  simpl negb. cbv iota. destruct (negb _); [by split|].
  split; simpl; try done; [by apply od_touch_NoDup|].
  pose proof (od_touch_length (_max_size c) (_digest a e) (now, r) (_store c)). lia.
Qed.

Lemma wf_clear c : wf c -> wf (clear c).
Proof. intros [? ? ? ? ?]. split; simpl; try done; [constructor|lia]. Qed.

(** *** Epochs *)

Lemma epoch_bump c ns ns' :
  wf c -> is_Some (od_get ns (_epochs c)) \/ (Z.of_nat (length (_epochs c)) < _epochs_cap c)%Z ->
  epoch_of (bump_epoch c ns).2 ns' = (if Z.eqb ns' ns then epoch_of c ns + 1 else epoch_of c ns')%Z.
Proof.
  intros [? Hn ? ? ?] Hroom. unfold epoch_of at 1. simpl.
  rewrite od_evict_id; cycle 1.
  { rewrite od_move_length, od_set_length. destruct (od_get ns (_epochs c)); [done|].
    destruct Hroom as [[]|]; [done|lia]. }
  rewrite od_move_get by (by apply od_set_NoDup). rewrite od_set_get. unfold epoch_of.
  destruct (Z.eqb_spec ns' ns) as [->|]; [by rewrite decide_True|by rewrite decide_False].
Qed.

Lemma epoch_bump_all (c : RecallResultCache R) ns :
  epoch_of (bump_all_epochs c) ns =
  match od_get ns (_epochs c) with Some e => (e + 1)%Z | None => 0%Z end.
Proof.
  unfold epoch_of. simpl. induction (_epochs c) as [|[k e] l IH]; simpl; [done|]. by case_decide.
Qed.

Lemma epoch_current c ns ns' : wf c -> epoch_of (current_epoch c ns).2 ns' = epoch_of c ns'.
Proof.
  intros Hwf. unfold current_epoch, epoch_of. simpl. destruct (od_get ns (_epochs c)); [|done].
  simpl. rewrite od_move_get; [done|by apply wf_epochs].
Qed.

Lemma epoch_get now c a e ns : epoch_of (get now c a e).2 ns = epoch_of c ns.
Proof. unfold RecallCache.get. by repeat case_match. Qed.

Lemma epoch_set now c a e r ns : epoch_of (set now c a e r) ns = epoch_of c ns.
Proof. unfold RecallCache.set. by repeat case_match. Qed.

(** *** Entries *)

Lemma get_hit now c a e r c' :
  get now c a e = (Some r, c') ->
  exists t, (_digest a e, (t, r)) ∈ _store c /\ (now - t < _ttl c)%Z.
Proof.
  unfold RecallCache.get. destruct (negb _); [done|]. cbv zeta.
  destruct (od_get _ _) as [[t r']|] eqn:E; [|done].
  destruct (Z.ltb_spec (now - t) (_ttl c)); [|done].
  intros [= <- <-]. exists t. split; [by apply od_get_elem|done].
Qed.

Lemma get_entries now c a e x : x ∈ _store (get now c a e).2 -> x ∈ _store c.
Proof.
  unfold RecallCache.get. destruct (negb _); [done|]. cbv zeta.
  destruct (od_get _ _) as [[t r']|] eqn:E; [|done]. destruct (_ <? _)%Z; simpl.
  - apply od_move_elem.
  - intros Hx. eapply elem_of_sublist; [done|apply od_del_sublist].
Qed.

Lemma set_entries now c a e r x :
  x ∈ _store (set now c a e r) ->
  x ∈ _store c \/ (x = (_digest a e, (now, r)) /\ epoch_of c (ra_namespace a) = e).
Proof.
  unfold RecallCache.set. destruct (negb (enabled c)); [auto|].
  destruct (Z.eqb_spec (epoch_of c (ra_namespace a)) e); [|auto]. simpl.
  intros Hx%od_evict_elem%od_move_elem%od_set_elem. naive_solver.
Qed.
End cache_facts.

(** ** Runs of the engine *)

Section runs.
Context (strip_lower : string -> string) (round6 : pyfloat -> pyfloat).
Context (repr_temporal : option ChunkTemporalFilter -> string) (hash : ast -> string).
Context (sha256_repr : KeyParts -> string).

Abbreviation sys_step := (sys_step strip_lower round6 repr_temporal hash sha256_repr).
Abbreviation sys_run := (sys_run strip_lower round6 repr_temporal hash sha256_repr).
Abbreviation calm := (calm strip_lower round6 repr_temporal hash sha256_repr).
Abbreviation parts := (parts strip_lower round6 repr_temporal hash).
Abbreviation _digest := (_digest strip_lower round6 repr_temporal hash sha256_repr).
Abbreviation fresh := (fresh strip_lower round6 repr_temporal hash).

Lemma step_wf s e s' : wf (s_cache s) -> sys_step s e = Some s' -> wf (s_cache s').
Proof.
  destruct s as [c now ver comp fl reps]. simpl. intros Hc H.
  destruct e as [id a|id|id|id|ns|ns| | |d]; simpl in H.
  - destruct (fl !! id); [done|]. injection H as <-.
    exact (wf_current c (ra_namespace a) Hc).
  - destruct (fl !! id) as [f|]; [|done]. simpl in H.
    pose proof (wf_get strip_lower round6 repr_temporal hash sha256_repr now c (fl_args f) (fl_epoch f) Hc) as Hg.
    destruct (get _ _ _ _ _ _ _ _ _) as [[r|] c']; by injection H as <-.
  - destruct (fl !! id); [|done]. by injection H as <-.
  - destruct (fl !! id) as [f|]; [|done]. simpl in H. destruct (fl_result f); [|done].
    injection H as <-. by apply wf_set.
  - by injection H as <-.
  - injection H as <-. by apply wf_bump.
  - injection H as <-. by apply wf_bump_all.
  - injection H as <-. by apply wf_clear.
  - by injection H as <-.
Qed.

(** No event changes the configured bounds. *)
Lemma step_config s e s' :
  sys_step s e = Some s' -> _max_size (s_cache s') = _max_size (s_cache s) /\
    _epochs_cap (s_cache s') = _epochs_cap (s_cache s).
Proof.
  destruct s as [c now ver comp fl reps]. intros H. destruct e; simpl in *;
    repeat first [done | case_match; simplify_eq/= | destruct (fl !! _); simplify_eq/=
                 | destruct (fl_result _); simplify_eq/=];
    unfold RecallCache.get, RecallCache.set in *; simplify_eq/=; try done;
    repeat case_match; by simplify_eq/=.
Qed.

(** The invariant: [D ns e] is the version of the last completed write when [ns] was at
    epoch [e]; what was captured, computed or stored under [e] is at least that new. *)
Record inv (D : Z -> Z -> nat) (s : Sys) : Prop := {
  inv_wf : wf (s_cache s);
  inv_now : forall ns, D ns (epoch_of (s_cache s) ns) = s_completed s ns;
  inv_le : forall ns, s_completed s ns <= s_version s ns;
  inv_mono : forall ns e, (e <= epoch_of (s_cache s) ns)%Z -> D ns e <= s_version s ns;
  inv_flight : forall id f, s_flights s !! id = Some f ->
    (fl_epoch f <= epoch_of (s_cache s) (ra_namespace (fl_args f)))%Z /\
    fl_completed f = D (ra_namespace (fl_args f)) (fl_epoch f) /\
    forall v, fl_result f = Some v -> fl_completed f <= v;
  inv_store : forall k t r, (k, (t, r)) ∈ _store (s_cache s) ->
    exists e, k = _digest (cm_args r) e /\
      (e <= epoch_of (s_cache s) (ra_namespace (cm_args r)))%Z /\
      D (ra_namespace (cm_args r)) e <= cm_version r;
  inv_replies : Forall fresh (s_replies s) }.

Lemma inv_init max_size ttl : inv (fun _ _ => 0) (sys_init max_size ttl).
Proof.
  split; simpl; try done; [apply wf_init|by intros ? ? ? ?%elem_of_nil].
Qed.

(** The same invariant when the cache keeps its epochs and gains no entry. *)
Lemma inv_cache D c c' now ver comp fl reps :
  inv D (MkSys c now ver comp fl reps) -> wf c' ->
  (forall ns, epoch_of c' ns = epoch_of c ns) ->
  (forall x, x ∈ _store c' -> x ∈ _store c) ->
  inv D (MkSys c' now ver comp fl reps).
Proof.
  intros [Hwf Hnow Hle Hmono Hfl Hst Hrep] Hwf' He Hs. simpl in *.
  split; simpl; try done; repeat setoid_rewrite He; eauto.
Qed.

Lemma inv_flights D c now ver comp fl fl' reps :
  inv D (MkSys c now ver comp fl reps) ->
  (forall id f, fl' !! id = Some f -> fl !! id = Some f) ->
  inv D (MkSys c now ver comp fl' reps).
Proof. intros [] Hf. split; simpl in *; eauto. Qed.

Lemma inv_start D c now ver comp fl reps id a :
  inv D (MkSys c now ver comp fl reps) ->
  inv D (MkSys (current_epoch c (ra_namespace a)).2 now ver comp
    (<[id := MkFlight a (epoch_of c (ra_namespace a)) (comp (ra_namespace a)) None]> fl) reps).
Proof.
  intros Hi. pose proof (inv_wf _ _ Hi) as Hwf. simpl in Hwf.
  apply (inv_cache _ c); [|by apply wf_current|intros; by apply epoch_current|].
  - destruct Hi as [? Hnow ? ? Hfl ? ?]. split; simpl in *; try done.
    intros id' f' [[<- <-]|[_ Hf]]%lookup_insert_Some; [|by eapply Hfl].
    split_and!; [done|by rewrite Hnow|done].
  - intros x. unfold current_epoch. simpl. by destruct (od_get _ _).
Qed.

(** Two recalls with the same digest have the same key, in the same namespace. *)
Lemma digest_inj a e a' e' :
  Inj (=) (=) sha256_repr -> _digest a e = _digest a' e' ->
  parts a 0 = parts a' 0 /\ e = e' /\ ra_namespace a = ra_namespace a'.
Proof. intros Hinj H%Hinj. unfold RecallCache.parts in *. split_and!; congruence. Qed.

Lemma inv_lookup D s id s' :
  Inj (=) (=) sha256_repr -> inv D s -> sys_step s (Lookup id) = Some s' -> inv D s'.
Proof.
  intros Hinj Hi H. destruct s as [c now ver comp fl reps]. simpl in H.
  destruct (fl !! id) as [f|] eqn:Ef; [|done]. simpl in H.
  set (g := get strip_lower round6 repr_temporal hash sha256_repr now c (fl_args f) (fl_epoch f)) in *.
  assert (Hc : inv D (MkSys g.2 now ver comp fl reps)).
  { apply (inv_cache _ c); [done|apply wf_get, Hi|intros; apply epoch_get|intros; by eapply get_entries]. }
  destruct g as [[r|] c'] eqn:Eg; injection H as <-; [|done].
  apply (inv_flights _ _ _ _ _ fl); [|by intros ? ? [_ ?]%lookup_delete_Some].
  destruct Hc as [? ? ? ? ? ? ?]. split; simpl in *; try done. constructor; [|done].
  subst g. apply get_hit in Eg as (t & Hin & _).
  destruct (inv_store _ _ Hi _ _ _ Hin) as (e & Hk & _ & Hv).
  apply digest_inj in Hk as (Hp & <- & Hns); [|done].
  destruct (inv_flight _ _ Hi _ _ Ef) as (_ & Hd & _). unfold RecallCache.fresh. simpl.
  split; [done|]. rewrite Hd, Hns. done.
Qed.

Lemma inv_retrieve D s id s' : inv D s -> sys_step s (Retrieve id) = Some s' -> inv D s'.
Proof.
  intros Hi H. destruct s as [c now ver comp fl reps]. simpl in H.
  destruct (fl !! id) as [f|] eqn:Ef; [|done]. injection H as <-.
  destruct Hi as [? ? ? Hmono Hfl ? ?]. split; simpl in *; try done.
  intros id' f' [[<- <-]|[_ Hf]]%lookup_insert_Some; [|by eapply Hfl].
  destruct (Hfl _ _ Ef) as (He & Hd & _). simpl. split_and!; try done.
  intros v [= <-]. rewrite Hd. by apply Hmono.
Qed.

Lemma inv_finish D s id s' : inv D s -> sys_step s (Finish id) = Some s' -> inv D s'.
Proof.
  intros Hi H. destruct s as [c now ver comp fl reps]. simpl in H.
  destruct (fl !! id) as [f|] eqn:Ef; [|done]. simpl in H.
  destruct (fl_result f) as [v|] eqn:Ev; [|done]. injection H as <-.
  destruct (inv_flight _ _ Hi _ _ Ef) as (He & Hd & Hv).
  apply (inv_flights _ _ _ _ _ fl); [|by intros ? ? [_ ?]%lookup_delete_Some].
  destruct Hi as [Hwf Hnow Hle Hmono Hfl Hst Hrep]. simpl in *.
  split; simpl; repeat setoid_rewrite epoch_set; try done.
  - by apply wf_set.
  - intros k t r [Hin|[[= -> -> ->] Hcur]]%set_entries; [by eapply Hst|]. simpl.
    exists (fl_epoch f). split_and!; [done|done|]. rewrite <- Hd. by apply Hv.
  - constructor; [|done]. split; [done|]. simpl. by apply Hv.
Qed.

(** A completed write starts a new epoch, at the version it wrote. *)
Lemma inv_complete D s ns s' :
  inv D s -> undisturbed s (Complete ns) = true -> sys_step s (Complete ns) = Some s' ->
  inv (fun ns' e => if (Z.eqb ns' ns && Z.eqb e (epoch_of (s_cache s) ns + 1))%bool
                    then s_version s ns else D ns' e) s'.
Proof.
  intros Hi Hu H. destruct s as [c now ver comp fl reps]. simpl in *. injection H as <-.
  pose proof (inv_wf _ _ Hi) as Hwf. simpl in Hwf.
  assert (He : forall ns', epoch_of (bump_epoch c ns).2 ns' =
    (if Z.eqb ns' ns then epoch_of c ns + 1 else epoch_of c ns')%Z).
  { intros ns'. apply epoch_bump; [done|].
    apply orb_true_iff in Hu as [Hu%bool_decide_eq_true|Hu%Z.ltb_lt]; auto. }
  assert (Hold : forall ns' e, (e <= epoch_of c ns')%Z ->
    (Z.eqb ns' ns && Z.eqb e (epoch_of c ns + 1))%bool = false).
  { intros ns' e Hle. destruct (Z.eqb_spec ns' ns) as [->|]; [|done]. apply Z.eqb_neq. lia. }
  assert (Hgrow : forall ns', (epoch_of c ns' <= epoch_of (bump_epoch c ns).2 ns')%Z).
  { intros ns'. rewrite He. destruct (Z.eqb_spec ns' ns) as [->|]; lia. }
  destruct Hi as [_ Hnow Hle Hmono Hfl Hst Hrep]. simpl in *. split; simpl.
  - by apply wf_bump.
  - intros ns'. fold (epoch_of (bump_epoch c ns).2 ns'). rewrite He. unfold upd.
    destruct (Z.eqb_spec ns' ns) as [->|]; simpl; [by rewrite Z.eqb_refl|done].
  - intros ns'. unfold upd. destruct (Z.eqb_spec ns' ns) as [->|]; auto.
  - intros ns' e. fold (epoch_of (bump_epoch c ns).2 ns'). rewrite He.
    destruct (Z.eqb_spec ns' ns) as [->|]; simpl; [|by apply Hmono].
    destruct (Z.eqb_spec e (epoch_of c ns + 1)); [done|]. intros. apply Hmono. lia.
  - intros id f Hf. destruct (Hfl _ _ Hf) as (H1 & H2 & H3).
    rewrite Hold by done. split_and!; [|done|done]. etrans; [exact H1|apply Hgrow].
  - intros k t r Hin. destruct (Hst _ _ _ Hin) as (e & H1 & H2 & H3). exists e.
    rewrite Hold by done. split_and!; [done| |done]. etrans; [exact H2|apply Hgrow].
  - done.
Qed.

(** An undo starts a new epoch of every namespace that has one. *)
Lemma inv_undo D s s' :
  inv D s -> undisturbed s Undo = true -> sys_step s Undo = Some s' ->
  inv (fun ns e => if Z.eqb e (epoch_of (bump_all_epochs (s_cache s)) ns)
                   then s_version s ns else D ns e) s'.
Proof.
  intros Hi Hu H. destruct s as [c now ver comp fl reps]. simpl in *. injection H as <-.
  destruct Hi as [Hwf Hnow Hle Hmono Hfl Hst Hrep]. simpl in *.
  assert (Hb : forall ns, is_Some (od_get ns (_epochs c)) ->
    epoch_of (bump_all_epochs c) ns = (epoch_of c ns + 1)%Z).
  { intros ns [e E]. rewrite epoch_bump_all. unfold epoch_of. by rewrite E. }
  split; simpl; try done.
  - by apply wf_bump_all.
  - intros ns. by rewrite Z.eqb_refl.
  - intros ns e. fold (epoch_of (bump_all_epochs c) ns). intros He.
    destruct (Z.eqb_spec e (epoch_of (bump_all_epochs c) ns)) as [->|]; [done|]. apply Hmono.
    rewrite epoch_bump_all in *. unfold epoch_of. destruct (od_get ns (_epochs c)); simpl; lia.
  - intros id f Hf. fold (epoch_of (bump_all_epochs c) (ra_namespace (fl_args f))).
    destruct (Hfl _ _ Hf) as (H1 & H2 & H3).
    assert (is_Some (od_get (ra_namespace (fl_args f)) (_epochs c))) as Hseen.
    { rewrite forallb_forall in Hu. specialize (Hu (id, f)).
      apply bool_decide_eq_true in Hu; [done|]. by apply list_elem_of_In, elem_of_map_to_list. }
    rewrite (Hb _ Hseen). destruct (Z.eqb_spec (fl_epoch f)
      (epoch_of c (ra_namespace (fl_args f)) + 1)); [lia|]. split_and!; [lia|done|done].
  - by intros k t r ?%elem_of_nil.
Qed.

Lemma inv_step D s e s' :
  Inj (=) (=) sha256_repr -> inv D s -> undisturbed s e = true -> sys_step s e = Some s' ->
  exists D', inv D' s'.
Proof.
  intros Hinj Hi Hu H. destruct e as [id a|id|id|id|ns|ns| | |d].
  - exists D. destruct s as [c now ver comp fl reps]. simpl in H.
    destruct (fl !! id); [done|]. injection H as <-. by apply inv_start.
  - exists D. by eapply inv_lookup.
  - exists D. by eapply inv_retrieve.
  - exists D. by eapply inv_finish.
  - exists D. destruct s as [c now ver comp fl reps]. injection H as <-.
    destruct Hi as [? ? Hle Hmono ? ? ?].
    assert (forall ns', ver ns' <= upd ver ns (S (ver ns)) ns') as Hup.
    { intros ns'. unfold upd. destruct (Z.eqb_spec ns' ns) as [->|]; lia. }
    split; simpl in *; try done; intros; (etrans; [|apply Hup]); auto.
  - eexists. by eapply inv_complete.
  - eexists. by eapply inv_undo.
  - exists D. destruct s as [c now ver comp fl reps]. injection H as <-.
    apply (inv_cache _ c); [done|apply wf_clear, Hi|done|by intros ? ?%elem_of_nil].
  - exists D. destruct s as [c now ver comp fl reps]. injection H as <-. by destruct Hi.
Qed.

Lemma inv_run es : forall D s s',
  Inj (=) (=) sha256_repr -> inv D s -> calm s es = true -> sys_run s es = Some s' ->
  exists D', inv D' s'.
Proof.
  induction es as [|e es IH]; intros D s s' Hinj Hi Hc H; simpl in *.
  - injection H as <-. eauto.
  - apply andb_true_iff in Hc as [Hu Hc]. destruct (sys_step s e) as [s1|] eqn:E; [|done].
    destruct (inv_step _ _ _ _ Hinj Hi Hu E) as [D1 Hi1]. by eapply IH.
Qed.

(** C8.  No stale hit.  In every interleaving of recalls, writes, undos, expiry and
    eviction in which epochs only move forward, every answer - from the cache or
    computed - is for the same key as the recall that gets it, and was computed from
    a state at least as new as the last write that had completed when that recall
    started.  The digest is assumed collision-free. *)
Theorem recall_never_stale max_size ttl es s :
  Inj (=) (=) sha256_repr -> calm (sys_init max_size ttl) es = true ->
  sys_run (sys_init max_size ttl) es = Some s ->
  Forall fresh (s_replies s).
Proof.
  intros Hinj Hc H. destruct (inv_run _ _ _ _ Hinj (inv_init max_size ttl) Hc H) as [D Hi].
  apply Hi.
Qed.

(** Bounded memory.  After any sequence of events the store holds at most
    [max_size] entries and the epoch map at most [max(max_size, 1000)] namespaces,
    each key once. *)
Theorem cache_bounded max_size ttl es s :
  sys_run (sys_init max_size ttl) es = Some s ->
  (Z.of_nat (length (_store (s_cache s))) <= Z.max 0 max_size)%Z /\
    (Z.of_nat (length (_epochs (s_cache s))) <= Z.max max_size 1000)%Z /\
    NoDup (_store (s_cache s)).*1 /\ NoDup (_epochs (s_cache s)).*1.
Proof.
  intros H. assert (wf (s_cache s) /\ _max_size (s_cache s) = max_size /\
    _epochs_cap (s_cache s) = Z.max max_size 1000) as ([] & <- & <-); [|done].
  enough (forall es s0, wf (s_cache s0) -> sys_run s0 es = Some s ->
    wf (s_cache s) /\ _max_size (s_cache s) = _max_size (s_cache s0) /\
    _epochs_cap (s_cache s) = _epochs_cap (s_cache s0)) as Hgen
    by (by eapply Hgen in H; [|apply wf_init]).
  clear H es. induction es as [|e es IH]; intros s0 Hwf H; simpl in H; [by injection H as <-|].
  destruct (sys_step s0 e) as [s1|] eqn:E; [|done].
  destruct (IH s1 (step_wf _ _ _ Hwf E) H) as (H1 & -> & ->). split; [done|].
  by eapply step_config.
Qed.
End runs.

(** ** A stored result is found again *)

Section roundtrip.
Context (strip_lower : string -> string) (round6 : pyfloat -> pyfloat).
Context (repr_temporal : option ChunkTemporalFilter -> string) (hash : ast -> string).
Context (sha256_repr : KeyParts -> string).
Context {R : Type}.

Abbreviation get := (get (R := R) strip_lower round6 repr_temporal hash sha256_repr).
Abbreviation set := (set (R := R) strip_lower round6 repr_temporal hash sha256_repr).
Abbreviation parts := (parts strip_lower round6 repr_temporal hash).
Abbreviation _digest := (_digest strip_lower round6 repr_temporal hash sha256_repr).

(** The newest entry is never evicted. *)
Lemma od_evict_last {K V} cap (d : odict K V) x :
  (1 <= cap)%Z -> exists d', od_evict cap (d ++ [x]) = d' ++ [x] /\ sublist d' d.
Proof.
  intros Hc. induction d as [|y d IH]; simpl.
  - exists []. by rewrite (proj2 (Z.ltb_ge _ _)).
  - destruct (_ <? _)%Z.
    + destruct IH as (d' & -> & Hs). exists d'. split; [done|by constructor].
    + by exists (y :: d).
Qed.

Lemma set_newest now c a e r :
  wf c -> enabled c = true -> epoch_of c (ra_namespace a) = e ->
  exists d, _store (set now c a e r) = d ++ [(_digest a e, (now, r))] /\ _digest a e ∉ d.*1.
Proof.
  intros [Hs _ _ _ _] He Hcur. unfold RecallCache.set. rewrite He, Hcur, Z.eqb_refl. simpl.
  unfold enabled in He. apply Z.ltb_lt in He.
  set (k := _digest a e). unfold od_move_to_end. rewrite od_set_get, decide_True by done.
  destruct (od_evict_last (_max_size c) (od_del k (od_set k (now, r) (_store c))) (k, (now, r)))
    as (d & -> & Hsub); [lia|]. exists d. split; [done|]. intros Hin.
  destruct (od_del_NoDup k (od_set k (now, r) (_store c))) as [_ Hn]; [by apply od_set_NoDup|].
  apply list_elem_of_fmap in Hin as (x & -> & Hx). apply Hn, list_elem_of_fmap.
  exists x. split; [done|]. by eapply elem_of_sublist.
Qed.

(** A result stored under the current epoch is what the next lookup with the
    same key returns while it is younger than the TTL, and the lookup counts a hit;
    from then on the lookup misses and drops the entry.  A result computed under an
    older epoch is not stored at all. *)
Theorem set_get_spec now now' c a a' e r :
  wf c -> enabled c = true -> parts a' e = parts a e ->
  if decide (epoch_of c (ra_namespace a) = e) then
    let '(answer, c') := get now' (set now c a e r) a' e in
    if (now' - now <? _ttl c)%Z
    then answer = Some r /\ _hits c' = (_hits c + 1)%Z
    else answer = None /\ _misses c' = (_misses c + 1)%Z /\ _digest a e ∉ (_store c').*1
  else set now c a e r = c.
Proof.
  intros Hwf Hen Hp. case_decide as Hcur.
  - destruct (set_newest now c a e r Hwf Hen Hcur) as (d & Hst & Hn).
    assert (Hcfg : forall c', c' = set now c a e r -> _max_size c' = _max_size c /\ _ttl c' = _ttl c /\
      _hits c' = _hits c /\ _misses c' = _misses c).
    { intros c' ->. unfold RecallCache.set. by repeat case_match. }
    remember (set now c a e r) as c1 eqn:E1. destruct (Hcfg c1 eq_refl) as (Hm & Ht & Hh & Hmi).
    unfold RecallCache.get, enabled in *. rewrite Hm, Hen. simpl.
    assert (_digest a' e = _digest a e) as -> by (unfold RecallCache._digest; by rewrite Hp).
    rewrite Hst, od_get_app. rewrite (proj2 (od_get_None _ _)) by done. simpl.
    rewrite decide_True, Ht by done. destruct (now' - now <? _ttl c)%Z; simpl; [by rewrite Hh|].
    rewrite Hmi. split_and!; [done|done|]. apply od_del_NoDup.
    rewrite <- Hst. subst c1. by apply wf_set.
  - unfold RecallCache.set. rewrite Hen. simpl. apply Z.eqb_neq in Hcur. by rewrite Hcur.
Qed.
End roundtrip.

(** ** A collision-free digest, and the two stale traces *)

Definition enc_float (f : pyfloat) : Z * Z * Z :=
  match f with
  | FNaN => (0, 0, 0)
  | FInf b => (1, Z.b2z b, 0)
  | FFin m e => (2, m, e)
  end%Z.

Definition enc_opt {A} (f : A -> list (Z + string)) (o : option A) : list (list (Z + string)) :=
  match o with Some x => [f x] | None => [] end.

Definition enc_num (f : pyfloat) : list (Z + string) :=
  let '(t, m, e) := enc_float f in [inl t; inl m; inl e].

Definition enc_int (z : Z) : list (Z + string) := [inl z].
Definition enc_str (s : string) : list (Z + string) := [inr s].

(** The fields of the key, each a list of lists of integers and strings. *)
Definition enc_parts (k : KeyParts) : list (list (list (Z + string))) :=
  [[[inr (kp_query k); inl (kp_namespace k); inl (kp_epoch k); inr (kp_mode k); inl (kp_limit k);
     inr (kp_temporal k); inr (kp_config k)]];
   [enc_num (kp_min_similarity k)];
   enc_opt enc_int (kp_graph_depth k);
   enc_opt enc_num (kp_hybrid_alpha k);
   enc_opt enc_num (kp_recency_bias k);
   enc_opt enc_str (kp_filter k)].

Lemma enc_num_inj f g : enc_num f = enc_num g -> f = g.
Proof. destruct f as [|[]|], g as [|[]|]; unfold enc_num; simpl; congruence. Qed.

Lemma enc_int_inj x y : enc_int x = enc_int y -> x = y.
Proof. by intros [= ->]. Qed.

Lemma enc_str_inj x y : enc_str x = enc_str y -> x = y.
Proof. by intros [= ->]. Qed.

Lemma enc_opt_inj {A} (f : A -> list (Z + string)) o o' :
  (forall x y, f x = f y -> x = y) -> enc_opt f o = enc_opt f o' -> o = o'.
Proof. intros Hf. destruct o, o'; simpl; intros [=]; f_equal; auto. Qed.

Lemma enc_parts_inj k k' : enc_parts k = enc_parts k' -> k = k'.
Proof.
  intros H. pose proof (f_equal (fun l => nth 0 l []) H) as [= H0 H1 H2 H3 H4 H5 H6].
  pose proof (enc_num_inj _ _ (f_equal (fun l => nth 0 (nth 1 l []) []) H)) as H7.
  pose proof (enc_opt_inj _ _ _ enc_int_inj (f_equal (fun l => nth 2 l []) H)) as H8.
  pose proof (enc_opt_inj _ _ _ enc_num_inj (f_equal (fun l => nth 3 l []) H)) as H9.
  pose proof (enc_opt_inj _ _ _ enc_num_inj (f_equal (fun l => nth 4 l []) H)) as H10.
  pose proof (enc_opt_inj _ _ _ enc_str_inj (f_equal (fun l => nth 5 l []) H)) as H11.
  clear H. destruct k, k'. simpl in *. congruence.
Qed.

Definition sample_digest (k : KeyParts) : string := pos_bits (encode (enc_parts k)).

Lemma sample_digest_inj : Inj (=) (=) sample_digest.
Proof. intros k k' H%pos_bits_inj. apply (inj encode) in H. by apply enc_parts_inj. Qed.

Definition sample_recall (ns : Z) : RecallArgs :=
  MkArgs "q" ns "hybrid" 10 (FFin 0 0) None None None None None "cfg".

Abbreviation sample_run := (sys_run (fun s => s) (fun x => x) (fun _ => "") (fun _ => "") sample_digest).
Abbreviation sample_calm := (calm (fun s => s) (fun x => x) (fun _ => "") (fun _ => "") sample_digest).
Abbreviation sample_fresh := (fresh (fun s => s) (fun x => x) (fun _ => "") (fun _ => "")).

(** A recall fills the cache, a second one hits; a write completes, the third misses. *)
Definition calm_trace : list Event :=
  [Start 0 (sample_recall 7); Lookup 0; Retrieve 0; Finish 0;
   Start 1 (sample_recall 7); Lookup 1;
   Mutate 7; Complete 7; Start 2 (sample_recall 7); Lookup 2; Retrieve 2; Finish 2].

Definition sample_final (es : list Event) : Sys :=
  default (sys_init 5 300) (sample_run (sys_init 5 300) es).

Lemma recall_never_stale_witness :
  List.map rp_cached (s_replies (sample_final calm_trace)) = [false; true; false] /\
  Forall sample_fresh (s_replies (sample_final calm_trace)).
Proof.
  split; [vm_compute; reflexivity|].
  refine (recall_never_stale (fun s => s) (fun x => x) (fun _ => "") (fun _ => "") sample_digest
    5 300 calm_trace (sample_final calm_trace) sample_digest_inj _ _); vm_compute; reflexivity.
Defined.

Lemma cache_bounded_witness :
  (Z.of_nat (length (_store (s_cache (sample_final calm_trace)))) <= Z.max 0 5)%Z.
Proof.
  refine (proj1 (cache_bounded (fun s => s) (fun x => x) (fun _ => "") (fun _ => "") sample_digest
    5 300 calm_trace (sample_final calm_trace) _)); vm_compute; reflexivity.
Defined.

Lemma set_get_spec_witness :
  let '(answer, c') := get (R := nat) (fun s => s) (fun x => x) (fun _ => "") (fun _ => "") sample_digest 10
    (set (fun s => s) (fun x => x) (fun _ => "") (fun _ => "") sample_digest 0 (init 5 300)
       (sample_recall 7) 0 42) (sample_recall 7) 0 in
  answer = Some 42 /\ _hits c' = 1%Z.
Proof.
  exact (set_get_spec (fun s => s) (fun x => x) (fun _ => "") (fun _ => "") sample_digest
    0 10 (init 5 300) (sample_recall 7) (sample_recall 7) 0 42 (wf_init 5 300) eq_refl eq_refl).
Defined.

(** Writes to 1000 other namespaces after a write to namespace 7. *)
Definition evicting_trace : list Event :=
  [Start 0 (sample_recall 7); Lookup 0; Retrieve 0; Finish 0; Mutate 7; Complete 7] ++
  List.map (fun n => Complete (Z.of_nat (100 + n))) (seq 0 1000) ++
  [Start 1 (sample_recall 7); Lookup 1].

(** A recall of a namespace that was never written is in flight during an undo. *)
Definition undo_trace : list Event :=
  [Start 0 (sample_recall 7); Lookup 0; Retrieve 0; Mutate 7; Undo; Finish 0;
   Start 1 (sample_recall 7); Lookup 1].

(** The newest answer came from the cache and predates a write completed before its
    recall started. *)
Definition stale_hit (s : Sys) : bool :=
  match s_replies s with
  | r :: _ => rp_cached r && Nat.ltb (cm_version (rp_computed r)) (fl_completed (rp_flight r))
  | [] => false
  end.

(** Both of the excluded situations do serve a stale answer.  With the default bounds, writes to 1000 other
    namespaces reset the epoch of a namespace, so the entry from before its write is
    reachable again; and an undo does not move the epoch of a namespace that was never
    written, so a recall in flight stores its result from before the undo. *)
Theorem epoch_reset_serves_stale :
  (exists s, sample_run (sys_init 1000 300) evicting_trace = Some s /\ stale_hit s = true) /\
  (exists s, sample_run (sys_init 1000 300) undo_trace = Some s /\ stale_hit s = true).
Proof. split; (eexists; split; [vm_compute; reflexivity|vm_compute; reflexivity]). Qed.
