(* ===== verification/Acl.v ===== *)
(** The access-control checker and its enforcer ([acl/checker.py], [acl/enforcer.py]). *)
From S2P Require Import Prelude PyValue.

Local Open Scope string_scope.
Local Open Scope list_scope.

(** ** Permissions *)

Inductive Permission := READ | WRITE | ADMIN | OWNER.

#[export] Instance Permission_eq_dec : EqDecision Permission.
Proof. solve_decision. Defined.

(** [order.index(p)] in [[READ, WRITE, ADMIN, OWNER]]. *)
Definition order_index (p : Permission) : nat :=
  match p with READ => 0 | WRITE => 1 | ADMIN => 2 | OWNER => 3 end.

Definition perm_ge (p q : Permission) : bool := Nat.leb (order_index q) (order_index p).
Definition perm_gt (p q : Permission) : bool := negb (bool_decide (p = q)) && perm_ge p q.
Definition perm_le (p q : Permission) : bool := perm_ge q p.
Definition perm_lt (p q : Permission) : bool := perm_gt q p.

(** ** The checker *)

Record Principal := MkPrincipal {
  principal_type : string; principal_id : string; pr_metadata : value }.

Definition user (id : string) : Principal := MkPrincipal "user" id (VDict []).
Definition role (name : string) : Principal := MkPrincipal "role" name (VDict []).
Definition api_key (id : string) : Principal := MkPrincipal "api_key" id (VDict []).
Definition system : Principal := MkPrincipal "system" "system" (VDict []).

Record PermissionGrant := MkGrant {
  g_principal : Principal; g_resource_type : string; g_resource_id : Z;
  g_permission : Permission }.

Record ACLChecker := MkChecker { _grants : list PermissionGrant }.

Definition new_checker : ACLChecker := MkChecker [].

(** The grant is for this principal (by type and id) on this resource. *)
Definition grant_on (pr : Principal) (rt : string) (rid : Z) (g : PermissionGrant) : bool :=
  String.eqb (principal_type (g_principal g)) (principal_type pr) &&
  String.eqb (principal_id (g_principal g)) (principal_id pr) &&
  String.eqb (g_resource_type g) rt && Z.eqb (g_resource_id g) rid.

Definition grant (c : ACLChecker) (pr : Principal) (rt : string) (rid : Z) (p : Permission)
  : PermissionGrant * ACLChecker :=
  let g := MkGrant pr rt rid p in (g, MkChecker (_grants c ++ [g])).

Definition revoke (c : ACLChecker) (pr : Principal) (rt : string) (rid : Z)
    (p : option Permission) : nat * ACLChecker :=
  let before := length (_grants c) in
  let kept :=
    filter (fun g => negb (grant_on pr rt rid g &&
      match p with None => true | Some q => bool_decide (g_permission g = q) end)) (_grants c) in
  (before - length kept, MkChecker kept).

(** The loop of [_has_direct_grant], with its early return. *)
Fixpoint direct_grant_loop (pr : Principal) (rt : string) (rid : Z) (req : Permission)
    (gs : list PermissionGrant) : bool :=
  match gs with
  | [] => false
  | g :: gs' =>
      if grant_on pr rt rid g && perm_ge (g_permission g) req then true
      else direct_grant_loop pr rt rid req gs'
  end.

Definition _has_direct_grant (c : ACLChecker) (pr : Principal) (rt : string) (rid : Z)
    (req : Permission) : bool := direct_grant_loop pr rt rid req (_grants c).

Definition check (c : ACLChecker) (pr : Principal) (rt : string) (rid : Z) (req : Permission) : bool :=
  if String.eqb (principal_type pr) "system" then true else _has_direct_grant c pr rt rid req.

Definition get_effective_permissions (c : ACLChecker) (pr : Principal) (rt : string) (rid : Z)
  : list PermissionGrant := filter (fun g => grant_on pr rt rid g) (_grants c).

(** An empty [resource_type] filters nothing. *)
Definition list_grants (c : ACLChecker) (pr : option Principal) (rt : option string)
    (rid : option Z) : list PermissionGrant :=
  let gs := _grants c in
  let gs :=
    match pr with
    | Some pr =>
        filter (fun g => String.eqb (principal_type (g_principal g)) (principal_type pr) &&
                         String.eqb (principal_id (g_principal g)) (principal_id pr)) gs
    | None => gs
    end in
  let gs :=
    match rt with
    | Some rt => if String.eqb rt "" then gs else filter (fun g => String.eqb (g_resource_type g) rt) gs
    | None => gs
    end in
  match rid with
  | Some rid => filter (fun g => Z.eqb (g_resource_id g) rid) gs
  | None => gs
  end.

(** ** The enforcer *)

Record ACLContext := MkACLContext { cx_principal : Principal; cx_namespace : option Z }.

Record ACLEnforcer := MkEnforcer { _checker : ACLChecker; _enabled : bool }.

Definition new_enforcer (checker : option ACLChecker) : ACLEnforcer :=
  MkEnforcer (default new_checker checker) true.

Definition enable (e : ACLEnforcer) : ACLEnforcer := MkEnforcer (_checker e) true.
Definition disable (e : ACLEnforcer) : ACLEnforcer := MkEnforcer (_checker e) false.

Definition ACLError : pyexn := OtherError "ACLError".

Definition check_permission (e : ACLEnforcer) (cx : ACLContext) (rt : string) (rid : Z)
    (req : Permission) : result bool :=
  if negb (_enabled e) then Ok true
  else if negb (check (_checker e) (cx_principal cx) rt rid req) then Err ACLError
  else Ok true.

Definition check_namespace_read (e : ACLEnforcer) (cx : ACLContext) (ns : Z) : result bool :=
  check_permission e cx "namespace" ns READ.
Definition check_namespace_write (e : ACLEnforcer) (cx : ACLContext) (ns : Z) : result bool :=
  check_permission e cx "namespace" ns WRITE.
Definition check_namespace_admin (e : ACLEnforcer) (cx : ACLContext) (ns : Z) : result bool :=
  check_permission e cx "namespace" ns ADMIN.

(** The wrapper of [require]: the keyword arguments [context] and [namespace_id], and
    the state before and after the wrapped function. *)
Definition require {St A} (e : ACLEnforcer) (rt : string) (req : Permission)
    (func : St -> result A * St) (context : option ACLContext) (resource_id : option Z)
    (st : St) : result A * St :=
  match context, resource_id with
  | Some cx, Some rid =>
      match check_permission e cx rt rid req with
      | Ok _ => func st
      | Err err => (Err err, st)
      end
  | _, _ => (Err ValueError, st)
  end.

Definition get_enforcer (default_enforcer : option ACLEnforcer) : ACLEnforcer * option ACLEnforcer :=
  let e := default (new_enforcer None) default_enforcer in (e, Some e).

(** ** Histories *)

Inductive acl_event :=
| Granted (pr : Principal) (rt : string) (rid : Z) (p : Permission)
| Revoked (pr : Principal) (rt : string) (rid : Z) (p : option Permission).

Definition acl_step (c : ACLChecker) (e : acl_event) : ACLChecker :=
  match e with
  | Granted pr rt rid p => (grant c pr rt rid p).2
  | Revoked pr rt rid p => (revoke c pr rt rid p).2
  end.

Definition acl_run (es : list acl_event) : ACLChecker := fold_left acl_step es new_checker.

Definition same_principal (pr pr' : Principal) : Prop :=
  principal_type pr = principal_type pr' /\ principal_id pr = principal_id pr'.

(** The event revokes permission [p] of the principal on the resource. *)
Definition revokes (pr : Principal) (rt : string) (rid : Z) (p : Permission) (e : acl_event) : Prop :=
  match e with
  | Revoked pr' rt' rid' q =>
      same_principal pr pr' /\ rt = rt' /\ rid = rid' /\ (q = None \/ q = Some p)
  | Granted _ _ _ _ => False
  end.

(** The order of permissions. *)
Inductive at_least : Permission -> Permission -> Prop :=
| at_least_same p : at_least p p
| write_read : at_least WRITE READ
| admin_write : at_least ADMIN WRITE
| owner_admin : at_least OWNER ADMIN
| at_least_trans p q r : at_least p q -> at_least q r -> at_least p r.

(** Some grant of at least [req] has not been revoked since. *)
Definition entitled (es : list acl_event) (pr : Principal) (rt : string) (rid : Z)
    (req : Permission) : Prop :=
  exists es1 pr' p es2, es = es1 ++ Granted pr' rt rid p :: es2 /\ same_principal pr' pr /\
    at_least p req /\ Forall (fun e => ~ revokes pr rt rid p e) es2.

(** ** Theorems *)

(** The comparisons are those of the order. *)
Lemma perm_ge_at_least p q : perm_ge p q = true <-> at_least p q.
Proof.
  split.
  - destruct p, q; try done; intros _;
      eauto 6 using at_least_same, write_read, admin_write, owner_admin, at_least_trans.
  - induction 1 as [p| | | |p q r _ IH1 _ IH2]; try done; [by destruct p|].
    unfold perm_ge in *. rewrite Nat.leb_le in *. lia.
Qed.

Lemma perm_comparisons p q :
  (perm_le p q = true <-> at_least q p) /\ (perm_gt p q = true <-> at_least p q /\ p <> q) /\
  (perm_lt p q = true <-> at_least q p /\ p <> q) /\ (at_least p q -> at_least q p -> p = q).
Proof.
  rewrite <- !perm_ge_at_least. destruct p, q; vm_compute; naive_solver.
Qed.

Lemma grant_on_true pr rt rid g :
  grant_on pr rt rid g = true <->
  same_principal (g_principal g) pr /\ g_resource_type g = rt /\ g_resource_id g = rid.
Proof.
  unfold grant_on, same_principal. rewrite !andb_true_iff, !String.eqb_eq, Z.eqb_eq. naive_solver.
Qed.

Lemma direct_grant_loop_true pr rt rid req gs :
  direct_grant_loop pr rt rid req gs = true <->
  exists g, g ∈ gs /\ grant_on pr rt rid g = true /\ perm_ge (g_permission g) req = true.
Proof.
  induction gs as [|g gs IH]; simpl; [set_solver|]. setoid_rewrite elem_of_cons.
  destruct (grant_on pr rt rid g && perm_ge (g_permission g) req) eqn:E.
  - apply andb_true_iff in E. split; [|done]. intros _. exists g. naive_solver.
  - rewrite IH. split; [naive_solver|]. intros (g' & [->|Hin] & H1 & H2); [|eauto].
    by rewrite H1, H2 in E.
Qed.

(** A grant the checker holds was given, and not revoked since. *)
Lemma grants_run es pr rt rid p g :
  (g ∈ _grants (acl_run es) /\ grant_on pr rt rid g = true /\ g_permission g = p) ->
  exists es1 es2, es = es1 ++ Granted (g_principal g) rt rid p :: es2 /\
    Forall (fun e => ~ revokes pr rt rid p e) es2.
Proof.
  unfold acl_run. induction es as [|e es IH] using rev_ind; [simpl; set_solver|].
  rewrite fold_left_app. simpl. intros (Hin & Hon & Hp). destruct e as [pr' rt' rid' p'|pr' rt' rid' q]; simpl in Hin.
  - apply elem_of_app in Hin as [Hin| ->%list_elem_of_singleton].
    + destruct IH as (es1 & es2 & -> & Hf); [done|]. exists es1, (es2 ++ [Granted pr' rt' rid' p']).
      rewrite <- app_assoc. split; [done|]. apply Forall_app. split; [done|]. apply Forall_singleton. by intros [].
    + apply grant_on_true in Hon as (_ & Hrt & Hrid). simpl in *. subst. by exists es, [].
  - apply list_elem_of_filter in Hin as [Hk Hin].
    destruct IH as (es1 & es2 & -> & Hf); [done|]. exists es1, (es2 ++ [Revoked pr' rt' rid' q]).
    rewrite <- app_assoc. split; [done|]. apply Forall_app. split; [done|]. constructor; [|done].
    intros ([Hty Hid] & Hrt & Hrid & Hq). apply Is_true_true, negb_true_iff in Hk.
    apply grant_on_true in Hon as ([Hty' Hid'] & Hrt' & Hrid').
    rewrite (proj2 (grant_on_true _ _ _ _)) in Hk by (unfold same_principal; split_and!; congruence).
    destruct Hq as [-> | ->]; [done|]. simpl in Hk. apply bool_decide_eq_false in Hk. congruence.
Qed.

(** An unrevoked grant is still held. *)
Lemma run_grants es1 pr pr' rt rid p es2 :
  same_principal pr' pr -> Forall (fun e => ~ revokes pr rt rid p e) es2 ->
  MkGrant pr' rt rid p ∈ _grants (acl_run (es1 ++ Granted pr' rt rid p :: es2)).
Proof.
  intros [Hty Hid]. unfold acl_run. rewrite fold_left_app. simpl.
  induction es2 as [|e es2 IH] using rev_ind; [simpl; set_solver|].
  intros [Hf He%Forall_inv]%Forall_app. rewrite fold_left_app. simpl. specialize (IH Hf).
  destruct e as [pr2 rt2 rid2 p2|pr2 rt2 rid2 q]; simpl; [set_solver|].
  apply list_elem_of_filter. split; [|done]. apply Is_true_true, negb_true_iff.
  destruct (grant_on _ _ _ _) eqn:Hon; [|done]. apply grant_on_true in Hon as ([? ?] & ? & ?). simpl in *.
  destruct q as [q|]; simpl.
  - apply bool_decide_eq_false. intros ->. apply He. unfold revokes, same_principal.
    split_and!; try congruence. by right.
  - exfalso. apply He. unfold revokes, same_principal. split_and!; try congruence. by left.
Qed.

(** After any history of grants and revocations, a check passes exactly for a system
    principal or for a principal some unrevoked grant of the same type and id on that
    very resource entitles - with READ < WRITE < ADMIN < OWNER, and nothing inherited
    from another resource. *)
Theorem check_iff_entitled es pr rt rid req :
  check (acl_run es) pr rt rid req = true <->
  principal_type pr = "system" \/ entitled es pr rt rid req.
Proof.
  unfold check. destruct (String.eqb_spec (principal_type pr) "system") as [E|E]; [naive_solver|].
  unfold _has_direct_grant. rewrite direct_grant_loop_true. split.
  - intros (g & Hin & Hon & Hge). right.
    destruct (grants_run es pr rt rid _ g (conj Hin (conj Hon eq_refl))) as (es1 & es2 & Hes & Hf).
    apply grant_on_true in Hon as (Hs & _). apply perm_ge_at_least in Hge.
    by exists es1, (g_principal g), (g_permission g), es2.
  - intros [?|(es1 & pr' & p & es2 & -> & Hs & Hge & Hf)]; [done|].
    exists (MkGrant pr' rt rid p). split_and!; [by apply (run_grants _ pr)| |by apply perm_ge_at_least].
    by apply grant_on_true.
Qed.

(** A function guarded by [require] runs exactly when the context and the resource
    are given and enforcement is off or the principal is permitted at the required
    level; otherwise the call fails with a value or access error and has no effect. *)
Theorem require_guards {St A} e rt req (func : St -> result A * St) context resource_id st :
  let permitted := exists cx rid, context = Some cx /\ resource_id = Some rid /\
    (_enabled e = false \/ check (_checker e) (cx_principal cx) rt rid req = true) in
  (permitted -> require e rt req func context resource_id st = func st) /\
  (~ permitted -> exists err, require e rt req func context resource_id st = (Err err, st) /\
     (err = ValueError <-> context = None \/ resource_id = None) /\
     (err = ACLError <-> is_Some context /\ is_Some resource_id)).
Proof.
  simpl. unfold require, check_permission. split.
  - intros (cx & rid & -> & -> & [-> | ->]); [done|]. by destruct (_enabled e).
  - intros Hn. destruct context as [cx|], resource_id as [rid|].
    + destruct (_enabled e) eqn:Ee; [|naive_solver].
      destruct (check _ _ _ _ _) eqn:Ec; [naive_solver|]. simpl. exists ACLError.
      split_and!; naive_solver.
    + exists ValueError. split_and!; [done| |]; split; naive_solver.
    + exists ValueError. split_and!; [done| |]; split; naive_solver.
    + exists ValueError. split_and!; [done| |]; split; naive_solver.
Qed.

(** A stronger permission passes every weaker check. *)
Lemma check_mono c pr rt rid req req' :
  perm_ge req req' = true -> check c pr rt rid req = true -> check c pr rt rid req' = true.
Proof.
  unfold check. destruct (String.eqb _ _); [done|]. unfold _has_direct_grant.
  rewrite !direct_grant_loop_true. intros Hge (g & Hin & Hon & Hg). exists g.
  split_and!; [done|done|]. unfold perm_ge in *. rewrite Nat.leb_le in *. lia.
Qed.
