(* ===== verification/HookMatch.v ===== *)
(** The event-pattern evaluator of the semantic hooks ([hooks/match_dsl.py]). *)
From S2P Require Import Prelude PyValue FilterAst FilterPython.

Local Open Scope string_scope.
Local Open Scope list_scope.

(** ** Wildcards *)

(** The regular expression a wildcard compiles to: [.*], [.] and escaped literals
    between [^] and [$], with DOTALL. *)
Inductive token := Star | AnyChar | Lit (c : string).

Definition newline : string := String (Ascii.ascii_of_nat 10) "".

Definition wildcard_token (ch : string) : list token :=
  if String.eqb ch "*" then [Star]
  else if String.eqb ch "?" then [AnyChar]
  else List.map Lit (utf8_chars ch).

(** [_compile_wildcard]: iterating a [str] yields its characters, a tuple its members;
    another operand does not hash or does not iterate. *)
Definition _compile_wildcard (pattern : value) : result (list token) :=
  match pattern with
  | VStr s => Ok (List.concat (List.map wildcard_token (utf8_chars s)))
  | VTuple l =>
      extend_m (fun ch => match ch with VStr s => Ok (wildcard_token s) | _ => Err TypeError end) l
  | _ => Err TypeError
  end.

(** [$]: at the end, or before a final newline. *)
Definition at_end (s : list string) : bool :=
  match s with [] => true | [c] => String.eqb c newline | _ => false end.

(** [compiled.match(value)], on the characters of the value. *)
Fixpoint rx_match (ts : list token) (s : list string) {struct ts} : bool :=
  match ts with
  | [] => at_end s
  | Lit c :: ts' => match s with c' :: s' => String.eqb c c' && rx_match ts' s' | [] => false end
  | AnyChar :: ts' => match s with _ :: s' => rx_match ts' s' | [] => false end
  | Star :: ts' =>
      (fix star (s : list string) : bool :=
         rx_match ts' s || match s with _ :: s' => star s' | [] => false end) s
  end.

Definition wildcard_match (pattern : value) (v : string) : result bool :=
  match _compile_wildcard pattern with
  | Ok ts => Ok (rx_match ts (utf8_chars v))
  | Err e => Err e
  end.

(** ** Operators *)

(** Whether a value hashes. *)
Fixpoint hashable (v : value) : bool :=
  match v with
  | VList _ | VDict _ => false
  | VTuple l => forallb hashable l
  | _ => true
  end.

(** A prefix or suffix test whose argument is a [str] or a tuple of them. *)
Definition affix (test : string -> bool) (arg : value) : result bool :=
  match arg with
  | VStr p => Ok (test p)
  | VTuple l => any_m (fun x => match x with VStr p => Ok (test p) | _ => Err TypeError end) l
  | _ => Err TypeError
  end.

Definition startswith (s : string) (arg : value) : result bool :=
  affix (fun p => String.prefix p s) arg.

Definition string_suffix (p s : string) : bool :=
  Nat.leb (String.length p) (String.length s) &&
  String.eqb (String.substring (String.length s - String.length p) (String.length p) s) p.

Definition endswith (s : string) (arg : value) : result bool := affix (fun p => string_suffix p s) arg.

(** [x in l] *)
Definition py_in (x : value) (l : list value) : bool := existsb (py_eq x) l.

(** [isinstance(v, (int, float)) and not isinstance(v, bool)] *)
Definition plain_number (v : value) : option pyfloat :=
  match v with VInt _ | VFloat _ => num_of v | _ => None end.

Definition numeric_test (op : string) (x t : pyfloat) : bool :=
  if String.eqb op ">=" then num_cmp CGe x t
  else if String.eqb op "<=" then num_cmp CLe x t
  else if String.eqb op ">" then num_cmp CGt x t
  else if String.eqb op "<" then num_cmp CLt x t
  else if String.eqb op "=" then num_eqb x t
  else negb (num_eqb x t).

Definition _NUMERIC_OPS : list string := [">="; "<="; "="; "!="; ">"; "<"].

(** The loop over the pairs of [ops], an even number of them. *)
Fixpoint numeric_loop (x : pyfloat) (ops : list value) : result bool :=
  match ops with
  | op :: threshold :: ops' =>
      if negb (hashable op) then Err TypeError
      else
        match op with
        | VStr o =>
            if negb (mem_str o _NUMERIC_OPS) then Ok false
            else
              match plain_number threshold with
              | None => Ok false
              | Some t => if numeric_test o x t then numeric_loop x ops' else Ok false
              end
        | _ => Ok false
        end
  | _ => Ok true
  end.

Definition _numeric_compare (v : value) (ops : list value) : result bool :=
  match plain_number v with
  | None => Ok false
  | Some x => if Nat.odd (length ops) then Ok false else numeric_loop x ops
  end.

(** [isinstance(value, str) and test(value)] *)
Definition str_and (v : value) (test : string -> result bool) : result bool :=
  match v with VStr s => test s | _ => Ok false end.

Definition _anything_but (v spec : value) : result bool :=
  match spec with
  | VList l => Ok (negb (py_in v l))
  | VDict d =>
      match dict_get "prefix" d, dict_get "suffix" d, dict_get "wildcard" d with
      | Some p, _, _ => neg_m (str_and v (fun s => startswith s p))
      | None, Some p, _ => neg_m (str_and v (fun s => endswith s p))
      | None, None, Some p => neg_m (str_and v (wildcard_match p))
      | None, None, None => Ok false
      end
  | _ => Ok (negb (py_eq v spec))
  end.

Section matching.
(** [str(x)] and [str.lower]. *)
Context (str : value -> string) (lower : string -> string).

Definition list_or_tuple (v : value) : option (list value) :=
  match v with VList l | VTuple l => Some l | _ => None end.

(** The operator object's first recognised key, in the order of the code's tests. *)
Definition _evaluate_operator (op : list (string * value)) (v : value) (present : bool) : result bool :=
  match dict_get "exists" op with
  | Some want => Ok (eqb present (truthy want))
  | None =>
  if negb present then Ok false else
  match dict_get "prefix" op with
  | Some p => str_and v (fun s => startswith s p)
  | None =>
  match dict_get "suffix" op with
  | Some p => str_and v (fun s => endswith s p)
  | None =>
  match dict_get "equals-ignore-case" op with
  | Some x => str_and v (fun s => Ok (String.eqb (lower s) (lower (str x))))
  | None =>
  match dict_get "wildcard" op with
  | Some p => str_and v (wildcard_match p)
  | None =>
  match dict_get "numeric" op with
  | Some ops => match ops with VList l => _numeric_compare v l | _ => Ok false end
  | None =>
  match dict_get "anything-but" op with
  | Some spec => _anything_but v spec
  | None =>
  match dict_get "contains-all" op with
  | Some needles =>
      match list_or_tuple needles, list_or_tuple v with
      | Some ns, Some l => Ok (forallb (fun item => py_in item l) ns)
      | _, _ => Ok false
      end
  | None => Ok false
  end end end end end end end end.

Definition match_entry (v : value) (present : bool) (entry : value) : result bool :=
  match entry with
  | VDict op => _evaluate_operator op v present
  | _ => Ok (present && py_eq v entry)
  end.

Definition _match_key (value_patterns : list value) (v : value) (present : bool) : result bool :=
  any_m (match_entry v present) value_patterns.

(** A non-list value pattern is a single-item one. *)
Definition patterns_of (vp : value) : list value :=
  match vp with VList l => l | _ => [vp] end.

Definition match_event_key (event : list (string * value)) (k : string) (vp : value) : result bool :=
  let raw := dict_get k event in
  _match_key (patterns_of vp) (default VNone raw) (bool_decide (is_Some raw)).

(** [matches(pattern, event_data)] *)
Fixpoint matches (pattern : value) (event : list (string * value)) {struct pattern} : result bool :=
  match pattern with
  | VDict d =>
      (fix go (d : list (string * value)) : result bool :=
         match d with
         | [] => Ok true
         | (k, vp) :: d' =>
             if String.eqb k "$or" then
               match vp with
               | VList branches =>
                   match (fix any (bs : list value) : result bool :=
                            match bs with
                            | [] => Ok false
                            | b :: bs' =>
                                match matches b event with
                                | Ok true => Ok true
                                | Ok false => any bs'
                                | Err e => Err e
                                end
                            end) branches with
                   | Ok true => go d'
                   | Ok false => Ok false
                   | Err e => Err e
                   end
               | _ => Ok false
               end
             else
               match match_event_key event k vp with
               | Ok true => go d'
               | Ok false => Ok false
               | Err e => Err e
               end
         end) d
  | _ => if truthy pattern then Err AttributeError else Ok true
  end.
End matching.
