(* ===== verification/HookMatchFacts.v ===== *)
(** Theorems on the hook pattern evaluator: what a wildcard matches, when evaluation
    raises, what a pattern means, and how it treats absent keys. *)
From S2P Require Import Prelude PyValue FilterAst FilterPython HookMatch.

Local Open Scope string_scope.
Local Open Scope list_scope.

(** ** Wildcards *)

(** The glob language: [*] stands for any characters, [?] for one. *)
Inductive glob : list token -> list string -> Prop :=
| glob_nil : glob [] []
| glob_lit c ts s : glob ts s -> glob (Lit c :: ts) (c :: s)
| glob_any c ts s : glob ts s -> glob (AnyChar :: ts) (c :: s)
| glob_star_stop ts s : glob ts s -> glob (Star :: ts) s
| glob_star_more c ts s : glob (Star :: ts) s -> glob (Star :: ts) (c :: s).

Lemma glob_star ts s : glob (Star :: ts) s <-> exists s1 s2, s = s1 ++ s2 /\ glob ts s2.
Proof.
  split.
  - intros H. remember (Star :: ts) as ts'. induction H as [| | |? ? ? _|? ? ? ? IH]; simplify_eq.
    + by exists [], s.
    + destruct IH as (s1 & s2 & -> & ?); [done|]. by exists (c :: s1), s2.
  - intros (s1 & s2 & -> & H). induction s1 as [|c s1 IH]; simpl; by constructor.
Qed.

Lemma at_end_true s : at_end s = true <-> s = [] \/ s = [newline].
Proof.
  destruct s as [|c [|]]; simpl; rewrite ?String.eqb_eq; naive_solver.
Qed.

(** The compiled expression accepts the glob's strings, and each with a final newline. *)
Lemma rx_match_glob ts s :
  rx_match ts s = true <-> glob ts s \/ exists s0, s = s0 ++ [newline] /\ glob ts s0.
Proof.
  revert s. induction ts as [|t ts IH]; intros s.
  - simpl. rewrite at_end_true. split.
    + intros [->| ->]; [left; constructor|]. right. exists []. split; [done|constructor].
    + intros [H|(s0 & -> & H)]; inversion H; auto.
  - destruct t as [| |c].
    + assert (Hstar : rx_match (Star :: ts) s = true <->
        exists s1 s2, s = s1 ++ s2 /\ rx_match ts s2 = true).
      { induction s as [|c s IHs]; simpl in *; rewrite orb_true_iff.
        - split; [intros [?|?]; [by exists [], []|done]|].
          intros (s1 & s2 & E & H). left. symmetry in E. by apply app_nil in E as [-> ->].
        - rewrite IHs. split.
          + intros [?|(s1 & s2 & -> & ?)]; [by exists [], (c :: s)|by exists (c :: s1), s2].
          + intros ([|c' s1] & s2 & E & ?); simplify_eq/=; [by left|]. right. eauto. }
      rewrite Hstar. setoid_rewrite IH. setoid_rewrite glob_star. split.
      * intros (s1 & s2 & -> & [H|(s0 & -> & H)]); [left; eauto|].
        right. exists (s1 ++ s0). rewrite app_assoc. eauto 6.
      * intros [(s1 & s2 & -> & H)|(s0 & -> & s1 & s2 & -> & H)]; [eauto 6|].
        exists s1, (s2 ++ [newline]). rewrite app_assoc. eauto 6.
    + simpl. destruct s as [|c s].
      { split; [done|]. intros [H|(s0 & E & H)]; [inversion H|by destruct s0]. }
      rewrite IH. split.
      * intros [?|(s0 & -> & ?)]; [left; by constructor|]. right. exists (c :: s0). split; [done|by constructor].
      * intros [H|(s0 & E & H)]; inversion H; subst; [by left|]. simplify_eq/=. eauto.
    + simpl. destruct s as [|c' s].
      { split; [done|]. intros [H|(s0 & E & H)]; [inversion H|by destruct s0]. }
      rewrite andb_true_iff, String.eqb_eq, IH. split.
      * intros [-> [?|(s0 & -> & ?)]]; [left; by constructor|]. right. exists (c' :: s0). split; [done|by constructor].
      * intros [H|(s0 & E & H)]; inversion H; subst; [by auto|]. simplify_eq/=. eauto.
Qed.

Definition glob_tokens (p : string) : list token :=
  List.concat (List.map wildcard_token (utf8_chars p)).

(** A wildcard operator accepts exactly the strings its glob denotes, and also each
    of those strings followed by one newline: the compiled [$] matches before a final
    newline, which the operator's description does not say. *)
Theorem wildcard_accepts p v :
  exists b, wildcard_match (VStr p) v = Ok b /\
    (b = true <-> glob (glob_tokens p) (utf8_chars v) \/
       exists s, utf8_chars v = s ++ [newline] /\ glob (glob_tokens p) s).
Proof. eexists. split; [reflexivity|]. apply rx_match_glob. Qed.

Example wildcard_newline :
  wildcard_match (VStr "Ac") (String.append "Ac" newline) = Ok true.
Proof. reflexivity. Qed.

(** ** Patterns *)

(** Operator objects with operands of the documented types. *)
Definition is_str (v : value) : bool := match v with VStr _ => true | _ => false end.

Definition opt_ok (o : option value) (ok : value -> bool) : bool :=
  match o with Some v => ok v | None => true end.

Definition affixes_ok (d : list (string * value)) : bool :=
  opt_ok (dict_get "prefix" d) is_str && opt_ok (dict_get "suffix" d) is_str &&
  opt_ok (dict_get "wildcard" d) is_str.

Definition operator_ok (d : list (string * value)) : bool :=
  affixes_ok d &&
  opt_ok (dict_get "numeric" d) (fun v => match v with VList l => forallb hashable l | _ => true end) &&
  opt_ok (dict_get "anything-but" d) (fun v => match v with VDict d' => affixes_ok d' | _ => true end).

Definition entry_ok (entry : value) : bool :=
  match entry with VDict d => operator_ok d | _ => true end.

Fixpoint pattern_ok (pattern : value) : bool :=
  match pattern with
  | VDict d =>
      (fix go (d : list (string * value)) : bool :=
         match d with
         | [] => true
         | (k, vp) :: d' =>
             (if String.eqb k "$or"
              then match vp with
                   | VList bs => (fix all (bs : list value) : bool :=
                       match bs with [] => true | b :: bs' => pattern_ok b && all bs' end) bs
                   | _ => true
                   end
              else forallb entry_ok (patterns_of vp)) && go d'
         end) d
  | _ => negb (truthy pattern)
  end.

Lemma affix_ok test p : is_str p = true -> exists b, affix test p = Ok b.
Proof. destruct p; naive_solver. Qed.

Lemma str_and_ok v test : (forall s, exists b, test s = Ok b) -> exists b, str_and v test = Ok b.
Proof. intros H. destruct v; simpl; eauto. Qed.

Lemma wildcard_match_ok p s : is_str p = true -> exists b, wildcard_match p s = Ok b.
Proof. destruct p; try done. intros _. eexists. reflexivity. Qed.

Lemma neg_m_ok m : (exists b, m = Ok b) -> exists b, neg_m m = Ok b.
Proof. intros [b ->]. by exists (negb b). Qed.

Lemma numeric_loop_ok x ops : forallb hashable ops = true -> exists b, numeric_loop x ops = Ok b.
Proof.
  remember (length ops) as n eqn:En. revert ops En.
  induction n as [n IH] using lt_wf_ind. intros [|op [|t ops]] En H; simpl; eauto.
  simpl in H. apply andb_true_iff in H as [-> H]. apply andb_true_iff in H as [_ H]. simpl.
  destruct op; eauto. destruct (negb _); eauto. destruct (plain_number t); eauto.
  destruct (numeric_test _ _ _); eauto. eapply IH; [|reflexivity|done]. simpl in En. lia.
Qed.

Lemma anything_but_ok v spec :
  match spec with VDict d => affixes_ok d | _ => true end = true -> exists b, _anything_but v spec = Ok b.
Proof.
  destruct spec as [ | | | | | | | | |d]; simpl; eauto. unfold affixes_ok. rewrite !andb_true_iff.
  intros [[Hp Hs] Hw]. destruct (dict_get "prefix" d); simpl in *.
  { apply neg_m_ok, str_and_ok. intros s. by apply affix_ok. }
  destruct (dict_get "suffix" d); simpl in *.
  { apply neg_m_ok, str_and_ok. intros s. by apply affix_ok. }
  destruct (dict_get "wildcard" d); simpl in *; [|eauto].
  apply neg_m_ok, str_and_ok. intros s. by apply wildcard_match_ok.
Qed.

Section facts.
Context (str : value -> string) (lower : string -> string).

Abbreviation _evaluate_operator := (_evaluate_operator str lower).
Abbreviation match_entry := (match_entry str lower).
Abbreviation match_event_key := (match_event_key str lower).
Abbreviation matches := (matches str lower).

Lemma evaluate_operator_ok op v present :
  operator_ok op = true -> exists b, _evaluate_operator op v present = Ok b.
Proof.
  unfold operator_ok, affixes_ok. rewrite !andb_true_iff. intros [[[[Hp Hs] Hw] Hn] Ha].
  unfold HookMatch._evaluate_operator.
  destruct (dict_get "exists" op); [eauto|]. destruct (negb present); [eauto|].
  destruct (dict_get "prefix" op); [apply str_and_ok; intros; by apply affix_ok|].
  destruct (dict_get "suffix" op); [apply str_and_ok; intros; by apply affix_ok|].
  destruct (dict_get "equals-ignore-case" op); [apply str_and_ok; eauto|].
  destruct (dict_get "wildcard" op); [apply str_and_ok; intros; by apply wildcard_match_ok|].
  destruct (dict_get "numeric" op) as [[]|]; eauto.
  { unfold _numeric_compare. destruct (plain_number v); eauto. destruct (Nat.odd _); eauto.
    by apply numeric_loop_ok. }
  destruct (dict_get "anything-but" op); [by apply anything_but_ok|].
  destruct (dict_get "contains-all" op); eauto.
  destruct (list_or_tuple _), (list_or_tuple v); eauto.
Qed.

Lemma match_entry_ok v present entry : entry_ok entry = true -> exists b, match_entry v present entry = Ok b.
Proof. destruct entry; simpl; eauto. apply evaluate_operator_ok. Qed.

Lemma any_m_ok {A} (f : A -> result bool) l :
  Forall (fun x => exists b, f x = Ok b) l -> exists b, any_m f l = Ok b /\
    (b = true <-> exists x, x ∈ l /\ f x = Ok true).
Proof.
  induction 1 as [|x l [b Hx] _ (b' & Hl & Hb)]; simpl.
  - exists false. split; [done|]. split; [done|]. by intros (x & ?%elem_of_nil & _).
  - rewrite Hx, Hl. setoid_rewrite elem_of_cons. destruct b.
    + exists true. split; [done|]. split; eauto.
    + exists b'. split; [done|]. rewrite Hb. split.
      * intros (y & Hy & H). eauto.
      * intros (y & [->|Hy] & H); [congruence|eauto].
Qed.

(** One key of a pattern. *)
Definition match_one (event : list (string * value)) (kv : string * value) : result bool :=
  if String.eqb kv.1 "$or"
  then match kv.2 with VList bs => any_m (fun b => matches b event) bs | _ => Ok false end
  else match_event_key event kv.1 kv.2.

Lemma matches_dict d event : matches (VDict d) event = all_m (match_one event) d.
Proof.
  simpl. induction d as [|[k vp] d IH]; [done|]. cbn [all_m]. rewrite <- IH.
  unfold match_one. simpl. destruct (String.eqb k "$or"); [|done].
  by destruct vp.
Qed.

Lemma all_m_ok {A} (f : A -> result bool) l :
  Forall (fun x => exists b, f x = Ok b) l -> exists b, all_m f l = Ok b /\
    (b = true <-> forall x, x ∈ l -> f x = Ok true).
Proof.
  induction 1 as [|x l [b Hx] _ (b' & Hl & Hb)]; simpl.
  - exists true. split; [done|]. split; [|done]. by intros _ x ?%elem_of_nil.
  - rewrite Hx, Hl. setoid_rewrite elem_of_cons. destruct b.
    + exists b'. split; [done|]. rewrite Hb. split; [|eauto].
      intros H y [->|Hy]; [done|eauto].
    + exists false. split; [done|]. split; [done|]. intros H.
      specialize (H x (or_introl eq_refl)). congruence.
Qed.

Definition key_ok (kv : string * value) : bool :=
  if String.eqb kv.1 "$or"
  then match kv.2 with VList bs => forallb pattern_ok bs | _ => true end
  else forallb entry_ok (patterns_of kv.2).

Lemma pattern_ok_dict d : pattern_ok (VDict d) = forallb key_ok d.
Proof.
  simpl. induction d as [|[k vp] d IH]; [done|]. cbn [forallb]. rewrite <- IH.
  unfold key_ok. simpl. destruct (String.eqb k "$or"); [|done].
  by destruct vp.
Qed.

(** When a key of a pattern passes. *)
Definition key_sat (event : list (string * value)) (k : string) (vp : value) : Prop :=
  if String.eqb k "$or"
  then exists bs b, vp = VList bs /\ b ∈ bs /\ matches b event = Ok true
  else exists entry, entry ∈ patterns_of vp /\
    match_entry (default VNone (dict_get k event)) (bool_decide (is_Some (dict_get k event))) entry = Ok true.

Lemma key_spec event kv :
  Forall (fun b => exists r, matches b event = Ok r)
    (match kv.2 with VList bs => if String.eqb kv.1 "$or" then bs else [] | _ => [] end) ->
  key_ok kv = true ->
  exists b, match_one event kv = Ok b /\ (b = true <-> key_sat event kv.1 kv.2).
Proof.
  destruct kv as [k vp]. unfold key_ok, match_one, key_sat. simpl.
  destruct (String.eqb k "$or").
  - intros Hbs Hok. destruct vp as [ | | | | | | |bs| | ];
      try (exists false; split; [done|]; split; [done|]; by intros (? & ? & [=] & _)).
    destruct (any_m_ok _ _ Hbs) as (b & -> & Hb). exists b. split; [done|]. rewrite Hb.
    split; [intros (x & Hx & H); eauto|]. intros (bs' & x & [= <-] & Hx & H). eauto.
  - intros _ Hok. apply any_m_ok. apply Forall_forall. intros x Hx.
    apply match_entry_ok. rewrite forallb_forall in Hok. by apply Hok, list_elem_of_In.
Qed.

(** Every key of a pattern evaluates, given that the branches of [$or] do. *)
Lemma keys_spec event d :
  Forall (fun kv => match kv.2 with
    | VList bs => Forall (fun b => pattern_ok b = true -> exists r, matches b event = Ok r) bs
    | _ => True end) d ->
  pattern_ok (VDict d) = true ->
  Forall (fun kv => exists b, match_one event kv = Ok b /\ (b = true <-> key_sat event kv.1 kv.2)) d.
Proof.
  rewrite pattern_ok_dict. intros IH Hok. rewrite forallb_forall in Hok.
  rewrite Forall_forall in IH |- *. intros kv Hin. specialize (IH kv Hin).
  specialize (Hok kv (proj1 (list_elem_of_In _ _) Hin)). apply key_spec; [|done].
  unfold key_ok in Hok. destruct (kv.2) as [ | | | | | | |bs| | ]; try constructor.
  destruct (String.eqb kv.1 "$or"); [|constructor].
  rewrite forallb_forall in Hok. rewrite Forall_forall in IH |- *. intros b Hb.
  apply IH; [done|]. by apply Hok, list_elem_of_In.
Qed.

Lemma keys_total event d :
  Forall (fun kv => exists b, match_one event kv = Ok b /\ (b = true <-> key_sat event kv.1 kv.2)) d ->
  exists b, matches (VDict d) event = Ok b /\
    (b = true <-> forall k vp, (k, vp) ∈ d -> key_sat event k vp).
Proof.
  intros Hkeys. rewrite matches_dict. destruct (all_m_ok (match_one event) d) as (b & -> & Hb).
  { eapply Forall_impl; [exact Hkeys|]. intros kv (b & H & _). eauto. }
  exists b. split; [done|]. rewrite Hb. rewrite Forall_forall in Hkeys. split.
  - intros H k vp Hin. destruct (Hkeys _ Hin) as (b' & H1 & H2). apply H2.
    rewrite (H _ Hin) in H1. congruence.
  - intros H [k vp] Hin. destruct (Hkeys _ Hin) as (b' & H1 & H2). rewrite H1. f_equal.
    apply H2, (H _ _ Hin).
Qed.

Lemma pattern_total event v :
  (pattern_ok v = true -> exists r, matches v event = Ok r) /\
  match v with
  | VList bs => Forall (fun b => pattern_ok b = true -> exists r, matches b event = Ok r) bs
  | _ => True
  end.
Proof.
  induction v as [ |b|z|f|s|dt|dt|l IH|l _|d IH] using value_rec_ind;
    (split; [|first [done|idtac]]);
    try (intros H; cbn in *; try apply negb_true_iff in H;
      first [discriminate H|rewrite ?H; eexists; reflexivity]).
  - eapply Forall_impl; [exact IH|]. by intros b [H _].
  - intros Hok. destruct (keys_total event d) as (b & H & _); [|eauto].
    apply keys_spec; [|done]. eapply Forall_impl; [exact IH|]. by intros kv [_ H].
Qed.

(** C39.  A pattern whose operands have the documented types never makes the evaluator
    raise, and it matches an event exactly when every key passes: [$or] when one of its
    branches matches, any other key when one of its entries does.  In particular the
    order of the keys, of the entries and of the branches is irrelevant. *)
Theorem matches_spec pattern event :
  pattern_ok pattern = true ->
  exists b, matches pattern event = Ok b /\
    (b = true <-> match pattern with
                  | VDict d => forall k vp, (k, vp) ∈ d -> key_sat event k vp
                  | _ => True
                  end).
Proof.
  intros Hok. destruct pattern as [ | | | | | | | | |d];
    try (cbn in *; try apply negb_true_iff in Hok; rewrite ?Hok; by exists true).
  apply keys_total, keys_spec; [|done]. apply Forall_forall. intros kv _. apply pattern_total.
Qed.

(** An absent key passes only through an entry that asks for its absence: an operator
    object whose [exists] operand is false.  Neither a literal (not even [null]) nor
    [anything-but] matches an event that lacks the key. *)
Theorem absent_key_passes event k vp :
  dict_get k event = None ->
  match_event_key event k vp = Ok true ->
  exists op want, VDict op ∈ patterns_of vp /\ dict_get "exists" op = Some want /\ truthy want = false.
Proof.
  unfold HookMatch.match_event_key, HookMatch._match_key. intros -> H. simpl in H.
  induction (patterns_of vp) as [|entry l IH]; simpl in H; [done|]. setoid_rewrite elem_of_cons.
  destruct (match_entry VNone false entry) as [[]|] eqn:E; [|naive_solver|done].
  destruct entry as [ | | | | | | | | |op]; try done. simpl in E.
  unfold HookMatch._evaluate_operator in E. destruct (dict_get "exists" op) as [want|] eqn:Ew; [|done].
  exists op, want. split_and!; [by left|done|]. by destruct (truthy want).
Qed.
End facts.

(** ** Witnesses *)

Definition sample_pattern : value :=
  VDict [("name", VList [VDict [("prefix", VStr "Ac")]; VStr "Umbrella"]);
         ("$or", VList [VDict [("score", VDict [("numeric", VList [VStr ">="; VInt 5])])];
                        VDict [("tag", VList [VDict [("exists", VBool false)]])]])].

Lemma matches_spec_witness :
  exists b, matches (fun _ => "") (fun s => s) sample_pattern
              [("name", VStr "Acme"); ("score", VInt 3)] = Ok b /\
    (b = true <-> forall k vp, (k, vp) ∈ match sample_pattern with VDict d => d | _ => [] end ->
       key_sat (fun _ => "") (fun s => s) [("name", VStr "Acme"); ("score", VInt 3)] k vp).
Proof.
  exact (matches_spec (fun _ => "") (fun s => s) sample_pattern
    [("name", VStr "Acme"); ("score", VInt 3)] eq_refl).
Defined.

Example sample_pattern_matches :
  matches (fun _ => "") (fun s => s) sample_pattern [("name", VStr "Acme"); ("score", VInt 3)] = Ok true /\
  matches (fun _ => "") (fun s => s) sample_pattern
    [("name", VStr "Acme"); ("score", VInt 3); ("tag", VNone)] = Ok false.
Proof. split; reflexivity. Qed.

Lemma absent_key_passes_witness :
  exists op want, VDict op ∈ patterns_of (VDict [("exists", VBool false)]) /\
    dict_get "exists" op = Some want /\ truthy want = false.
Proof.
  exact (absent_key_passes (fun _ => "") (fun s => s) [] "tag" (VDict [("exists", VBool false)])
    eq_refl eq_refl).
Defined.
