(* ===== verification/ReplaceMirror.v ===== *)
(** The replace-path graph mirror: the payload persisted when the graph phase of a
    document replacement fails, and its replay ([storage/replace_mirror.py]); the label
    sanitizer shared by the graph backends ([storage/backends/mixins.py]). *)
From S2P Require Import Prelude PyValue FilterAst FilterPython.

Local Open Scope string_scope.
Local Open Scope list_scope.

(** ** Labels *)

(** The characters [str.strip] removes, in UTF-8. *)
Definition of_bytes (l : list nat) : string := String.string_of_list_ascii (List.map Ascii.ascii_of_nat l).

Definition whitespace : list string :=
  List.map (fun n => of_bytes [n]) [9; 10; 11; 12; 13; 28; 29; 30; 31; 32] ++
  List.map of_bytes ([[194; 133]; [194; 160]; [225; 154; 128]] ++
    List.map (fun n => [226; 128; n]) (seq 128 11) ++
    [[226; 128; 168]; [226; 128; 169]; [226; 128; 175]; [226; 129; 159]; [227; 128; 128]]).

Fixpoint lstrip_chars (cs : list string) : list string :=
  match cs with
  | c :: cs' => if mem_str c whitespace then lstrip_chars cs' else cs
  | [] => []
  end.

Definition strip_chars (cs : list string) : list string := rev (lstrip_chars (rev (lstrip_chars cs))).

(** [[A-Za-z0-9_]] *)
Definition label_byte (a : Ascii.ascii) : bool :=
  let n := Ascii.nat_of_ascii a in
  (Nat.leb 48 n && Nat.leb n 57) || (Nat.leb 65 n && Nat.leb n 90) ||
  (Nat.leb 97 n && Nat.leb n 122) || Nat.eqb n 95.

Definition upper_byte (a : Ascii.ascii) : Ascii.ascii :=
  let n := Ascii.nat_of_ascii a in
  if Nat.leb 97 n && Nat.leb n 122 then Ascii.ascii_of_nat (n - 32) else a.

(** One character after [_CYPHER_LABEL_RE.sub("_", ...)] and [upper()]. *)
Definition label_char (c : string) : Ascii.ascii :=
  match c with
  | String a EmptyString => if label_byte a then upper_byte a else Ascii.ascii_of_nat 95
  | _ => Ascii.ascii_of_nat 95
  end.

Definition sanitize_cypher_label (label : string) : string :=
  match strip_chars (utf8_chars label) with
  | [] => "RELATES_TO"
  | cs => String.string_of_list_ascii (List.map label_char cs)
  end.

(** ** Graph model objects *)

(** A field of an [Entity] or a [Relationship]: a UUID, a datetime, a list of such, or
    plain data. *)
Inductive fval :=
| FUuid (u : Z)
| FDate (d : datetime)
| FList (l : list fval)
| FVal (v : value).

(** A dataclass instance: its fields in declaration order. *)
Definition pyobj : Type := list (string * fval).

Definition _ENTITY_UUID_FIELDS : list string := ["id"; "namespace_id"].
Definition _ENTITY_UUID_LIST_FIELDS : list string := ["source_document_ids"; "source_chunk_ids"].
Definition _ENTITY_DATETIME_FIELDS : list string :=
  ["valid_from"; "valid_until"; "created_at"; "updated_at"].
Definition _EXCLUDED_FIELDS : list string := ["source_documents"].
Definition _REL_UUID_FIELDS : list string :=
  ["id"; "namespace_id"; "source_entity_id"; "target_entity_id"].

Definition FNone : fval := FVal VNone.

(** The fields of [Entity] with their defaults; [new_id], [new_ns] and [now] are what
    the default factories return. *)
Definition entity_defaults (new_id new_ns : Z) (now : datetime) : pyobj :=
  [("id", FUuid new_id); ("namespace_id", FUuid new_ns); ("name", FVal (VStr ""));
   ("entity_type", FVal (VStr "CONCEPT")); ("description", FVal (VStr ""));
   ("attributes", FVal (VDict [])); ("source_tool", FVal (VStr ""));
   ("source_document_ids", FList []); ("source_chunk_ids", FList []);
   ("source_documents", FNone); ("mention_count", FVal (VInt 1)); ("embedding", FNone);
   ("embedding_model", FVal (VStr "")); ("valid_from", FNone); ("valid_until", FNone);
   ("confidence", FVal (VFloat (FFin 1 0))); ("metadata", FVal (VDict []));
   ("created_at", FDate now); ("updated_at", FDate now)].

Definition relationship_defaults (new_id new_ns new_src new_tgt : Z) (now : datetime) : pyobj :=
  [("id", FUuid new_id); ("namespace_id", FUuid new_ns); ("source_entity_id", FUuid new_src);
   ("target_entity_id", FUuid new_tgt); ("relationship_type", FVal (VStr "RELATES_TO"));
   ("description", FVal (VStr "")); ("source_entity_name", FVal (VStr ""));
   ("target_entity_name", FVal (VStr "")); ("properties", FVal (VDict []));
   ("source_document_ids", FList []); ("source_chunk_ids", FList []);
   ("source_documents", FNone); ("valid_from", FNone); ("valid_until", FNone);
   ("confidence", FVal (VFloat (FFin 1 0))); ("weight", FVal (VFloat (FFin 1 0)));
   ("metadata", FVal (VDict [])); ("created_at", FDate now); ("updated_at", FDate now)].

(** Construction from keyword arguments: each field takes its keyword argument or its default. *)
Definition construct (defaults : pyobj) (kwargs : list (string * fval)) : pyobj :=
  List.map (fun '(k, dflt) => (k, default dflt (dict_get k kwargs))) defaults.

(** [Entity.__post_init__] on one field. *)
Definition post_init_name (f : fval) : result fval :=
  match f with
  | FVal VNone => Ok (FVal (VStr ""))
  | FVal (VStr s) =>
      let cs := utf8_chars s in
      if Nat.ltb 512 (length cs)
      then Ok (FVal (VStr (str_join "" (take 509 cs) +:+ "...")))
      else Ok f
  | FVal (VList l) | FVal (VTuple l) => if Nat.ltb 512 (length l) then Err TypeError else Ok f
  | FVal (VDict d) => if Nat.ltb 512 (length d) then Err KeyError else Ok f
  | FList l => if Nat.ltb 512 (length l) then Err TypeError else Ok f
  | _ => Err TypeError
  end.

Definition none_to_empty (f : fval) : fval :=
  match f with FVal VNone => FVal (VStr "") | _ => f end.

Definition post_init_field (kf : string * fval) : result (string * fval) :=
  let '(k, f) := kf in
  if String.eqb k "name" then match post_init_name f with Ok f' => Ok (k, f') | Err e => Err e end
  else if String.eqb k "description" || String.eqb k "source_tool" then Ok (k, none_to_empty f)
  else Ok (k, f).

Definition __post_init__ (obj : pyobj) : result pyobj := map_m post_init_field obj.

(** ** Serialization *)

Section mirror.
(** [str(uuid)], [UUID(s)], [datetime.isoformat], [datetime.fromisoformat], and [str] of
    a value that is not a string. *)
Context (uuid_str : Z -> string) (parse_uuid : string -> option Z).
Context (isoformat : datetime -> string) (fromisoformat : string -> option datetime).
Context (str_other : value -> string).

Definition py_str (v : value) : string := match v with VStr s => s | _ => str_other v end.

Definition UUID_of (v : value) : result Z :=
  match parse_uuid (py_str v) with Some u => Ok u | None => Err ValueError end.

Definition datetime_of (v : value) : result datetime :=
  match fromisoformat (py_str v) with Some d => Ok d | None => Err ValueError end.

Fixpoint json_of_value (v : value) : value :=
  match v with
  | VDate d => VStr (isoformat d)
  | VList l => VList (List.map json_of_value l)
  | _ => v
  end.

Fixpoint _to_json_value (f : fval) : value :=
  match f with
  | FUuid u => VStr (uuid_str u)
  | FDate d => VStr (isoformat d)
  | FList l => VList (List.map _to_json_value l)
  | FVal v => json_of_value v
  end.

Definition private (k : string) : bool := String.prefix "_" k.

Definition _model_to_json (obj : pyobj) : value :=
  VDict (List.map (fun '(k, f) => (k, _to_json_value f))
    (filter (fun kf => negb (mem_str kf.1 _EXCLUDED_FIELDS) && negb (private kf.1)) obj)).

Definition coerce_item (uuid_fields datetime_fields : list string) (kv : string * value)
  : result (string * fval) :=
  let '(k, v) := kv in
  if is_none v then Ok (k, FNone)
  else if mem_str k uuid_fields then
    match UUID_of v with Ok u => Ok (k, FUuid u) | Err e => Err e end
  else if mem_str k _ENTITY_UUID_LIST_FIELDS then
    match py_iter v with
    | Ok l => match map_m UUID_of l with Ok us => Ok (k, FList (List.map FUuid us)) | Err e => Err e end
    | Err e => Err e
    end
  else if mem_str k datetime_fields then
    match datetime_of v with Ok d => Ok (k, FDate d) | Err e => Err e end
  else Ok (k, FVal v).

Definition _coerce (raw : list (string * value)) (uuid_fields datetime_fields : list string)
  : result (list (string * fval)) := map_m (coerce_item uuid_fields datetime_fields) raw.

Definition known_items (defaults : pyobj) (raw : list (string * value)) : list (string * value) :=
  filter (fun kv => mem_str kv.1 (keys defaults)) raw.

Context (entity_dflt relationship_dflt : pyobj).

Definition _entity_from_json (raw : value) : result pyobj :=
  match raw with
  | VDict d =>
      match _coerce (known_items entity_dflt d) _ENTITY_UUID_FIELDS _ENTITY_DATETIME_FIELDS with
      | Ok data => __post_init__ (construct entity_dflt data)
      | Err e => Err e
      end
  | _ => Err AttributeError
  end.

Definition _relationship_from_json (raw : value) : result pyobj :=
  match raw with
  | VDict d =>
      match _coerce (known_items relationship_dflt d) _REL_UUID_FIELDS _ENTITY_DATETIME_FIELDS with
      | Ok data => Ok (construct relationship_dflt data)
      | Err e => Err e
      end
  | _ => Err AttributeError
  end.

(** ** The plan and its payload *)

Definition REPLACE_MIRROR_PAYLOAD_VERSION : Z := 1.

Record RelationshipRetirement := MkRelRetire {
  rr_relationship_id : Z; rr_old_doc_id : Z; rr_retired_at : datetime }.

(** The graph plan of one replacement.  The entity and remap rows hold strings only. *)
Record GraphPlan := MkGraphPlan {
  gp_old_document_id : Z;
  gp_entity_retirement : list value;
  gp_relationship_retirement : list RelationshipRetirement;
  gp_entity_remap : list value;
  gp_relationship_remap : list value;
  gp_entity_strip : list Z;
  gp_relationship_strip : list Z;
  gp_net_new_entities : list pyobj;
  gp_net_new_relationships : list pyobj }.

Definition retirement_row (r : RelationshipRetirement) : value :=
  VDict [("relationship_id", VStr (uuid_str (rr_relationship_id r)));
         ("old_doc_id", VStr (uuid_str (rr_old_doc_id r)));
         ("retired_at", VStr (isoformat (rr_retired_at r)))].

Definition build_replace_mirror_payload (p : GraphPlan) (failed_at : datetime) (exception : string)
  : list (string * value) :=
  [("version", VInt REPLACE_MIRROR_PAYLOAD_VERSION);
   ("old_document_id", VStr (uuid_str (gp_old_document_id p)));
   ("failed_at", VStr (isoformat failed_at));
   ("exception", VStr exception);
   ("entity_retirement_rows", VList (gp_entity_retirement p));
   ("relationship_retirement_rows", VList (List.map retirement_row (gp_relationship_retirement p)));
   ("entity_survivor_remap_rows", VList (gp_entity_remap p));
   ("relationship_survivor_remap_rows", VList (gp_relationship_remap p));
   ("entity_survivor_strip_ids", VList (List.map (fun u => VStr (uuid_str u)) (gp_entity_strip p)));
   ("relationship_survivor_strip_ids", VList (List.map (fun u => VStr (uuid_str u)) (gp_relationship_strip p)));
   ("net_new_entities", VList (List.map _model_to_json (gp_net_new_entities p)));
   ("net_new_relationships", VList (List.map _model_to_json (gp_net_new_relationships p)))].

(** ** The graph and the replay *)

(** The calls the mirror makes on the graph and through the coordinator. *)
Inductive verb :=
| RetireEntities (rows : value)
| RetireRelationships (rows : list RelationshipRetirement) (ns : Z)
| Remap (entity_rows relationship_rows : value) (ns : Z)
| StripEntities (ids : list Z) (old ns : Z)
| StripRelationships (ids : list Z) (old ns : Z)
| UpsertEntities (ns : Z) (es : list pyobj)
| CreateRelationships (rs : list pyobj).

(** What a call answers: a number of rows, and how many of them are new. *)
Record answer := MkAnswer { a_rows : nat; a_new : nat }.

(** The graph: a state and the effect of a call, which may raise. *)
Context {G : Type} (exec : verb -> G -> result answer * G).

(** Computations on the graph that may raise. *)
Definition M (A : Type) : Type := G -> result A * G.
Definition m_ret {A} (a : A) : M A := fun g => (Ok a, g).
Definition m_lift {A} (r : result A) : M A := fun g => (r, g).
Definition m_bind {A B} (m : M A) (f : A -> M B) : M B :=
  fun g => match m g with (Ok a, g') => f a g' | (Err e, g') => (Err e, g') end.

(** [n = 0; if c: n = await graph.verb(...)] *)
Definition call_if (c : bool) (v : verb) : M answer :=
  if c then exec v else m_ret (MkAnswer 0 0).

Definition nonempty {A} (l : list A) : bool := match l with [] => false | _ => true end.

(** [payload.get(key) or []] *)
Definition get_or_empty (payload : list (string * value)) (key : string) : value :=
  match dict_get key payload with
  | Some v => if truthy v then v else VList []
  | None => VList []
  end.

(** [row[key]] *)
Definition subscript (row : value) (key : string) : result value :=
  match row with
  | VDict d => match dict_get key d with Some v => Ok v | None => Err KeyError end
  | _ => Err TypeError
  end.

Definition parse_retirement (row : value) : result RelationshipRetirement :=
  match subscript row "relationship_id" with Err e => Err e | Ok a =>
  match UUID_of a with Err e => Err e | Ok r =>
  match subscript row "old_doc_id" with Err e => Err e | Ok b =>
  match UUID_of b with Err e => Err e | Ok o =>
  match subscript row "retired_at" with Err e => Err e | Ok c =>
  match datetime_of c with Err e => Err e | Ok t => Ok (MkRelRetire r o t)
  end end end end end end.

(** [[f(x) for x in payload.get(key) or []]] *)
Definition parse_list {A} (f : value -> result A) (payload : list (string * value)) (key : string)
  : result (list A) :=
  match py_iter (get_or_empty payload key) with Ok l => map_m f l | Err e => Err e end.

Record MirrorCounts := MkCounts {
  mc_entities_retired : nat; mc_relationships_retired : nat;
  mc_entities_upserted : nat; mc_relationships_created : nat }.

Definition version_ok (payload : list (string * value)) : bool :=
  match dict_get "version" payload with
  | Some v => py_eq v (VInt REPLACE_MIRROR_PAYLOAD_VERSION)
  | None => false
  end.

Local Notation "'let*' x ':=' m 'in' k" := (m_bind m (fun x => k))
  (at level 10, x name, m at level 100, k at level 200).

Definition apply_replace_mirror_payload (payload : list (string * value)) (ns : Z) : M MirrorCounts :=
  if negb (version_ok payload) then m_lift (Err ValueError)
  else
    let* old :=
      m_lift (match dict_get "old_document_id" payload with Some v => UUID_of v | None => Err KeyError end) in
    let er := get_or_empty payload "entity_retirement_rows" in
    let* n1 := call_if (truthy er) (RetireEntities er) in
    let* rr := m_lift (parse_list parse_retirement payload "relationship_retirement_rows") in
    let* n2 := call_if (nonempty rr) (RetireRelationships rr ns) in
    let em := get_or_empty payload "entity_survivor_remap_rows" in
    let rm := get_or_empty payload "relationship_survivor_remap_rows" in
    let* _n := call_if (truthy em || truthy rm) (Remap em rm ns) in
    let* es := m_lift (parse_list UUID_of payload "entity_survivor_strip_ids") in
    let* _n := call_if (nonempty es) (StripEntities es old ns) in
    let* rs := m_lift (parse_list UUID_of payload "relationship_survivor_strip_ids") in
    let* _n := call_if (nonempty rs) (StripRelationships rs old ns) in
    let* ne := m_lift (parse_list _entity_from_json payload "net_new_entities") in
    let* n3 := call_if (nonempty ne) (UpsertEntities ns ne) in
    let* nr := m_lift (parse_list _relationship_from_json payload "net_new_relationships") in
    let* n4 := call_if (nonempty nr) (CreateRelationships nr) in
    m_ret (MkCounts (a_rows n1) (a_rows n2) (a_rows n3) (a_rows n4)).

(** The original graph phase of [replace_document_extraction], on the plan itself. *)
Definition graph_phase (p : GraphPlan) (ns : Z) : M (answer * answer * answer * answer) :=
  let old := gp_old_document_id p in
  let* n1 := call_if (nonempty (gp_entity_retirement p)) (RetireEntities (VList (gp_entity_retirement p))) in
  let* n2 := call_if (nonempty (gp_relationship_retirement p))
               (RetireRelationships (gp_relationship_retirement p) ns) in
  let* _n := call_if (nonempty (gp_entity_remap p) || nonempty (gp_relationship_remap p))
               (Remap (VList (gp_entity_remap p)) (VList (gp_relationship_remap p)) ns) in
  let* _n := call_if (nonempty (gp_entity_strip p)) (StripEntities (gp_entity_strip p) old ns) in
  let* _n := call_if (nonempty (gp_relationship_strip p))
               (StripRelationships (gp_relationship_strip p) old ns) in
  let* n3 := call_if (nonempty (gp_net_new_entities p)) (UpsertEntities ns (gp_net_new_entities p)) in
  let* n4 := call_if (nonempty (gp_net_new_relationships p))
               (CreateRelationships (gp_net_new_relationships p)) in
  m_ret (n1, n2, n3, n4).
End mirror.
