(* ===== verification/ReplaceMirrorFacts.v ===== *)
(** Theorems on the replace mirror: labels are safe to interpolate, model objects
    survive serialization, and replaying a payload issues exactly the calls of the graph
    phase it stands for. *)
From S2P Require Import Prelude PyValue FilterAst FilterPython ReplaceMirror.

Local Open Scope string_scope.
Local Open Scope list_scope.

(** ** Labels *)

(** [[A-Z0-9_]] *)
Definition upper_label_byte (a : Ascii.ascii) : bool :=
  label_byte a && negb (Nat.leb 97 (Ascii.nat_of_ascii a) && Nat.leb (Ascii.nat_of_ascii a) 122).

Definition label_ok (s : string) : Prop :=
  s <> "" /\ Forall (fun a => upper_label_byte a = true) (String.list_ascii_of_string s).

Lemma label_char_ok c : upper_label_byte (label_char c) = true.
Proof.
  destruct c as [|a [|]]; [reflexivity| |reflexivity]. simpl.
  destruct a as [[] [] [] [] [] [] [] []]; reflexivity.
Qed.

Lemma label_char_fixed a : upper_label_byte a = true -> label_char (String a "") = a.
Proof. destruct a as [[] [] [] [] [] [] [] []]; by vm_compute. Qed.

Lemma label_byte_chars l :
  Forall (fun a => upper_label_byte a = true) l ->
  utf8_chars (String.string_of_list_ascii l) = List.map (fun a => String a "") l.
Proof.
  induction 1 as [|a l Ha Hl IH]; [done|]. simpl. rewrite IH. destruct l as [|b l]; [done|]. simpl.
  assert (utf8_cont b = false) as ->; [|done].
  apply Forall_inv in Hl. clear -Hl. revert Hl.
  destruct b as [[] [] [] [] [] [] [] []]; by vm_compute.
Qed.

Lemma label_not_space a : upper_label_byte a = true -> mem_str (String a "") whitespace = false.
Proof. destruct a as [[] [] [] [] [] [] [] []]; by vm_compute. Qed.

Lemma lstrip_none cs : Forall (fun c => mem_str c whitespace = false) cs -> lstrip_chars cs = cs.
Proof. destruct 1 as [|c cs Hc _]; simpl in *; [done|]. by rewrite Hc. Qed.

Lemma strip_none cs : Forall (fun c => mem_str c whitespace = false) cs -> strip_chars cs = cs.
Proof.
  intros H. unfold strip_chars. rewrite (lstrip_none cs), lstrip_none by (try apply Forall_rev; done).
  apply rev_involutive.
Qed.

(** Whatever the type name a document yields, the sanitized label is non-empty and
    made of [A-Z], [0-9] and [_] only, so it cannot break out of the query text; and
    sanitizing again changes nothing, so the key comparison of stored and new labels is
    stable. *)
Theorem sanitized_label_safe label :
  label_ok (sanitize_cypher_label label) /\
  sanitize_cypher_label (sanitize_cypher_label label) = sanitize_cypher_label label.
Proof.
  assert (Hok : label_ok (sanitize_cypher_label label)).
  { unfold sanitize_cypher_label. destruct (strip_chars _) as [|c cs].
    - split; [done|]. by vm_compute; repeat constructor.
    - split; [done|]. rewrite String.list_ascii_of_string_of_list_ascii.
      apply Forall_forall. intros a Ha. apply list_elem_of_In, in_map_iff in Ha as (x & <- & _).
      apply label_char_ok. }
  split; [done|]. destruct Hok as [Hne Hf]. generalize dependent (sanitize_cypher_label label).
  intros s Hne Hf. unfold sanitize_cypher_label. rewrite <- (String.string_of_list_ascii_of_string s) in Hne |- *.
  rewrite label_byte_chars by done. rewrite strip_none.
  - set (l := String.list_ascii_of_string s) in *.
    assert (List.map label_char (List.map (fun a => String a "") l) = l) as E.
    { clearbody l. clear Hne. induction Hf as [|a l Ha _ IH]; [done|]. cbn [List.map]. by rewrite IH, label_char_fixed. }
    destruct (List.map (fun a => String a "") l) as [|c cs] eqn:El; [|by rewrite E].
    by destruct l.
  - apply Forall_forall. intros c Hc. apply list_elem_of_In, in_map_iff in Hc as (a & <- & Ha).
    apply label_not_space. rewrite Forall_forall in Hf. by apply Hf, list_elem_of_In.
Qed.

(** ** Model objects *)

(** Data that serialization leaves alone: no datetime in a top-level list. *)
Fixpoint json_plain (v : value) : bool :=
  match v with
  | VDate _ => false
  | VList l => forallb json_plain l
  | _ => true
  end.

Definition is_uuid (f : fval) : bool := match f with FUuid _ => true | _ => false end.

(** A field has the type its dataclass declares; [source_documents] is not loaded. *)
Definition field_wf (uuid_fields : list string) (k : string) (f : fval) : bool :=
  if mem_str k uuid_fields then is_uuid f
  else if mem_str k _ENTITY_UUID_LIST_FIELDS then match f with FList l => forallb is_uuid l | _ => false end
  else if mem_str k _ENTITY_DATETIME_FIELDS then
    match f with FDate _ | FVal VNone => true | _ => false end
  else if mem_str k _EXCLUDED_FIELDS then match f with FVal VNone => true | _ => false end
  else match f with FVal v => json_plain v | _ => false end.

Definition object_wf (uuid_fields : list string) (defaults obj : pyobj) : Prop :=
  keys obj = keys defaults /\ Forall (fun kf => field_wf uuid_fields kf.1 kf.2 = true) obj.

(** An object its constructor leaves alone: a name of at most 512 characters, no [None]
    among the sanitized strings. *)
Definition sanitized (obj : pyobj) : Prop := __post_init__ obj = Ok obj.

Section roundtrip.
Context (uuid_str : Z -> string) (parse_uuid : string -> option Z).
Context (isoformat : datetime -> string) (fromisoformat : string -> option datetime).
Context (str_other : value -> string).
(** Documented: [UUID(str(u)) == u] and [datetime.fromisoformat(d.isoformat()) == d]. *)
Context (uuid_law : forall u, parse_uuid (uuid_str u) = Some u).
Context (iso_law : forall d, fromisoformat (isoformat d) = Some d).

Abbreviation _to_json_value := (_to_json_value uuid_str isoformat).
Abbreviation _model_to_json := (_model_to_json uuid_str isoformat).
Abbreviation coerce_item := (coerce_item parse_uuid fromisoformat str_other).

Lemma json_plain_id v : json_plain v = true -> json_of_value isoformat v = v.
Proof.
  induction v as [ | | | | | | |l IH|l _|d _] using value_rec_ind; simpl; try done.
  intros H. f_equal. rewrite forallb_forall in H.
  induction IH as [|v l Hv _ IHl]; [done|]. simpl. rewrite Hv by (apply H; by left).
  f_equal. apply IHl. intros x Hx. apply H. by right.
Qed.

Lemma uuids_back l :
  forallb is_uuid l = true ->
  exists us, map_m (UUID_of parse_uuid str_other) (List.map _to_json_value l) = Ok us /\ List.map FUuid us = l.
Proof.
  induction l as [|f l IH]; simpl; [by exists []|]. rewrite andb_true_iff. intros [Hf Hl].
  destruct f as [u| | |]; try done. destruct (IH Hl) as (us & -> & Hus).
  exists (u :: us). unfold UUID_of. simpl. rewrite uuid_law. simpl. by rewrite Hus.
Qed.

(** One field survives. *)
Lemma coerce_back uuid_fields k f :
  field_wf uuid_fields k f = true -> mem_str k _EXCLUDED_FIELDS = false ->
  coerce_item uuid_fields _ENTITY_DATETIME_FIELDS (k, _to_json_value f) = Ok (k, f).
Proof.
  unfold field_wf, ReplaceMirror.coerce_item. intros Hf Hx. rewrite Hx in Hf.
  destruct (mem_str k uuid_fields).
  { destruct f; try done. unfold UUID_of. simpl. by rewrite uuid_law. }
  destruct (mem_str k _ENTITY_UUID_LIST_FIELDS).
  { destruct f as [| |l|]; try done. simpl. destruct (uuids_back l Hf) as (us & Hus & Hl).
    by rewrite Hus, Hl. }
  destruct (mem_str k _ENTITY_DATETIME_FIELDS).
  { destruct f as [|d| |[]]; try done. unfold datetime_of. simpl. by rewrite iso_law. }
  destruct f as [| | |v]; try done. simpl. rewrite json_plain_id by done.
  by destruct v.
Qed.

Definition kept (kf : string * fval) : bool := negb (mem_str kf.1 _EXCLUDED_FIELDS) && negb (private kf.1).

Lemma coerce_obj uuid_fields obj :
  Forall (fun kf => field_wf uuid_fields kf.1 kf.2 = true) obj ->
  map_m (coerce_item uuid_fields _ENTITY_DATETIME_FIELDS)
    (List.map (fun '(k, f) => (k, _to_json_value f)) (filter (fun kf => kept kf) obj))
  = Ok (filter (fun kf => kept kf) obj).
Proof.
  induction 1 as [|[k f] obj Hf _ IH]; [done|]. rewrite filter_cons.
  destruct (decide (kept (k, f))) as [Hk|]; [|done]. cbn [List.map map_m].
  apply Is_true_true, andb_true_iff in Hk as [Hk _]. apply negb_true_iff in Hk.
  by rewrite coerce_back, IH.
Qed.

Lemma filter_keeps {A} (P : A -> Prop) `{forall x, Decision (P x)} l : Forall P l -> filter P l = l.
Proof. induction 1 as [|x l Hx _ IH]; [done|]. rewrite filter_cons, decide_True by done. by rewrite IH. Qed.

Lemma known_all defaults obj :
  keys obj = keys defaults ->
  known_items defaults (List.map (fun '(k, f) => (k, _to_json_value f)) (filter (fun kf => kept kf) obj))
  = List.map (fun '(k, f) => (k, _to_json_value f)) (filter (fun kf => kept kf) obj).
Proof.
  intros Hk. unfold known_items. apply filter_keeps, Forall_forall. intros [k v] Hin.
  apply list_elem_of_In, in_map_iff in Hin as ([k' f] & [= -> _] & Hin). apply list_elem_of_In in Hin.
  apply list_elem_of_filter in Hin as [_ Hin]. apply Is_true_true, mem_str_true. rewrite <- Hk.
  apply list_elem_of_fmap. by exists (k, f).
Qed.

Lemma dict_get_filter (P : string -> bool) k (d : list (string * fval)) :
  dict_get k (filter (fun kf => P kf.1) d) = if P k then dict_get k d else None.
Proof.
  induction d as [|[k' f] d IH]; [by destruct (P k)|]. rewrite filter_cons. simpl.
  destruct (String.eqb_spec k k') as [->|Hne].
  - destruct (P k') eqn:E; simpl; [by rewrite String.eqb_refl|]. rewrite IH; by rewrite ?E.
  - destruct (P k'); simpl; [|done]. by rewrite (proj2 (String.eqb_neq _ _) Hne).
Qed.

(** The constructor rebuilds the object from the fields that were kept. *)
Lemma construct_back (P : string -> bool) defaults : forall obj data,
  keys obj = keys defaults -> NoDup (keys defaults) ->
  (forall k, k ∈ keys obj -> dict_get k data = if P k then dict_get k obj else None) ->
  Forall (fun kd => P kd.1 = false -> dict_get kd.1 obj = Some kd.2) defaults ->
  construct defaults data = obj.
Proof.
  induction defaults as [|[k dflt] defaults IH]; intros [|[k' f] obj] data; try done.
  unfold keys. csimpl. intros [= -> Hks] [Hn Hd]%NoDup_cons Hget [Hdf Hdfs]%Forall_cons. simpl in *.
  assert (Hne : forall x, x ∈ keys obj -> String.eqb x k = false).
  { intros x Hx. apply String.eqb_neq. intros ->. apply Hn. unfold keys in Hx. by rewrite <- Hks. }
  f_equal.
  - rewrite Hget by left. simpl. rewrite String.eqb_refl in *. destruct (P k); [done|]. simpl.
    f_equal. specialize (Hdf eq_refl). congruence.
  - apply IH; [done|done| |].
    + intros x Hx. rewrite Hget by (by right). simpl. by rewrite (Hne x Hx).
    + apply Forall_forall. intros [x d] Hx Hp. rewrite Forall_forall in Hdfs.
      specialize (Hdfs _ Hx Hp). simpl in *. rewrite (Hne x) in Hdfs; [done|].
      unfold keys. rewrite Hks. apply list_elem_of_fmap. by exists (x, d).
Qed.

Definition kept_key (k : string) : bool := negb (mem_str k _EXCLUDED_FIELDS) && negb (private k).

Lemma dict_get_in k (d : list (string * fval)) : k ∈ keys d -> exists f, dict_get k d = Some f /\ (k, f) ∈ d.
Proof.
  induction d as [|[k' f] d IH]; unfold keys; csimpl; [by intros ?%elem_of_nil|].
  intros [->|Hk]%elem_of_cons; [rewrite String.eqb_refl; eexists; split; [done|by left]|].
  destruct (String.eqb_spec k k') as [->|]; [eexists; split; [done|by left]|].
  destruct (IH Hk) as (g & -> & Hg). eexists. split; [done|by right].
Qed.

(** The only field that is not kept is [source_documents], and it is [None] on both sides. *)
Definition defaults_ok (uuid_fields : list string) (defaults : pyobj) : Prop :=
  NoDup (keys defaults) /\ mem_str "source_documents" uuid_fields = false /\
  Forall (fun kd => kept_key kd.1 = true \/ kd = ("source_documents", FNone)) defaults.

Lemma object_back uuid_fields defaults obj :
  defaults_ok uuid_fields defaults -> object_wf uuid_fields defaults obj ->
  match _model_to_json obj with
  | VDict d =>
      match _coerce parse_uuid fromisoformat str_other (known_items defaults d) uuid_fields _ENTITY_DATETIME_FIELDS with
      | Ok data => construct defaults data = obj
      | Err _ => False
      end
  | _ => False
  end.
Proof.
  intros (Hnd & Hsd & Hd) [Hk Hwf]. unfold ReplaceMirror._model_to_json.
  change (fun kf : string * fval => negb (mem_str kf.1 _EXCLUDED_FIELDS) && negb (private kf.1))
    with (fun kf : string * fval => kept kf).
  rewrite known_all by done. unfold _coerce. rewrite coerce_obj by done.
  apply (construct_back kept_key); [done|done| |].
  - intros k _. apply (dict_get_filter kept_key).
  - rewrite Forall_forall in Hd |- *. intros kd Hkd Hf.
    destruct (Hd _ Hkd) as [Hp| ->]; [congruence|]. simpl in *.
    destruct (dict_get_in "source_documents" obj) as (f & Hg & Hin).
    { rewrite Hk. apply list_elem_of_fmap. by exists ("source_documents", FNone). }
    rewrite Forall_forall in Hwf. specialize (Hwf _ Hin). unfold field_wf in Hwf. simpl in Hwf.
    rewrite Hsd in Hwf. simpl in Hwf. rewrite Hg. destruct f as [| | |[]]; done.
Qed.

(** *** Replay *)

Context (new_id new_ns new_src new_tgt : Z) (now : datetime).
Abbreviation entity_dflt := (entity_defaults new_id new_ns now).
Abbreviation relationship_dflt := (relationship_defaults new_id new_ns new_src new_tgt now).
Abbreviation _entity_from_json := (_entity_from_json parse_uuid fromisoformat str_other entity_dflt).
Abbreviation _relationship_from_json :=
  (_relationship_from_json parse_uuid fromisoformat str_other relationship_dflt).

Definition entity_wf (e : pyobj) : Prop := object_wf _ENTITY_UUID_FIELDS entity_dflt e /\ sanitized e.
Definition relationship_wf (r : pyobj) : Prop := object_wf _REL_UUID_FIELDS relationship_dflt r.

Lemma defaults_ok_dec uuid_fields defaults :
  bool_decide (NoDup (keys defaults)) = true -> mem_str "source_documents" uuid_fields = false ->
  forallb (fun kd => kept_key kd.1 ||
    match kd with (k, FVal VNone) => String.eqb k "source_documents" | _ => false end) defaults = true ->
  defaults_ok uuid_fields defaults.
Proof.
  intros Hn Hs Hd. split_and!; [by apply bool_decide_eq_true in Hn|done|].
  rewrite forallb_forall in Hd. apply Forall_forall. intros [k f] Hin.
  specialize (Hd _ (proj1 (list_elem_of_In _ _) Hin)). simpl in Hd.
  apply orb_true_iff in Hd as [Hd|Hd]; [by left|]. right.
  destruct f as [| | |[]]; try done. by apply String.eqb_eq in Hd as ->.
Qed.

Lemma entity_back e : entity_wf e -> _entity_from_json (_model_to_json e) = Ok e.
Proof.
  intros [Hwf Hs]. pose proof (object_back _ENTITY_UUID_FIELDS entity_dflt e) as H.
  unfold ReplaceMirror._entity_from_json. destruct (_model_to_json e); try (by destruct H; [by apply defaults_ok_dec|]).
  destruct (_coerce _ _ _ _ _ _).
  - rewrite H; [apply Hs|by apply defaults_ok_dec|done].
  - destruct H; [by apply defaults_ok_dec|done].
Qed.

Lemma relationship_back r : relationship_wf r -> _relationship_from_json (_model_to_json r) = Ok r.
Proof.
  intros Hwf. pose proof (object_back _REL_UUID_FIELDS relationship_dflt r) as H.
  unfold ReplaceMirror._relationship_from_json. destruct (_model_to_json r); try (by destruct H; [by apply defaults_ok_dec|]).
  destruct (_coerce _ _ _ _ _ _).
  - rewrite H; [done|by apply defaults_ok_dec|done].
  - destruct H; [by apply defaults_ok_dec|done].
Qed.

Lemma map_m_enc {A B} (f : value -> result A) (enc : B -> value) (dec : B -> A) l :
  Forall (fun x => f (enc x) = Ok (dec x)) l -> map_m f (List.map enc l) = Ok (List.map dec l).
Proof. induction 1 as [|x l Hx _ IH]; [done|]. simpl. by rewrite Hx, IH. Qed.

(** A list of the payload, parsed back. *)
Lemma parse_list_back {A B} (f : value -> result A) (enc : B -> value) (dec : B -> A) payload key l :
  dict_get key payload = Some (VList (List.map enc l)) ->
  Forall (fun x => f (enc x) = Ok (dec x)) l ->
  parse_list f payload key = Ok (List.map dec l).
Proof.
  intros Hg Hf. unfold parse_list, get_or_empty. rewrite Hg.
  assert (py_iter (if truthy (VList (List.map enc l)) then VList (List.map enc l) else VList [])
          = Ok (List.map enc l)) as -> by (by destruct l).
  apply map_m_enc, Hf.
Qed.

Lemma get_or_empty_list payload key l :
  dict_get key payload = Some (VList l) -> get_or_empty payload key = VList l.
Proof. unfold get_or_empty. intros ->. by destruct l. Qed.

Lemma truthy_list l : truthy (VList l) = nonempty l.
Proof. by destruct l. Qed.

Lemma retirement_back r :
  parse_retirement parse_uuid fromisoformat str_other (retirement_row uuid_str isoformat r) = Ok r.
Proof.
  destruct r as [a b t]. unfold parse_retirement, subscript, UUID_of, datetime_of. simpl.
  by rewrite !uuid_law, iso_law.
Qed.

Context {G : Type} (exec : verb -> G -> result answer * G).

Abbreviation apply_payload := (apply_replace_mirror_payload parse_uuid fromisoformat str_other
  entity_dflt relationship_dflt exec).

Definition counts_of (n : answer * answer * answer * answer) : MirrorCounts :=
  let '(n1, n2, n3, n4) := n in MkCounts (a_rows n1) (a_rows n2) (a_rows n3) (a_rows n4).

(** The lists of a payload, parsed back. *)
Lemma payload_lists p failed_at exc :
  let payload := build_replace_mirror_payload uuid_str isoformat p failed_at exc in
  Forall entity_wf (gp_net_new_entities p) -> Forall relationship_wf (gp_net_new_relationships p) ->
  parse_list (parse_retirement parse_uuid fromisoformat str_other) payload "relationship_retirement_rows"
    = Ok (gp_relationship_retirement p) /\
  parse_list (UUID_of parse_uuid str_other) payload "entity_survivor_strip_ids" = Ok (gp_entity_strip p) /\
  parse_list (UUID_of parse_uuid str_other) payload "relationship_survivor_strip_ids"
    = Ok (gp_relationship_strip p) /\
  parse_list _entity_from_json payload "net_new_entities" = Ok (gp_net_new_entities p) /\
  parse_list _relationship_from_json payload "net_new_relationships" = Ok (gp_net_new_relationships p).
Proof.
  intros payload He Hr.
  assert (Hid : forall u, UUID_of parse_uuid str_other (VStr (uuid_str u)) = Ok u)
    by (intros u; unfold UUID_of; simpl; by rewrite uuid_law).
  split_and!.
  - rewrite (parse_list_back _ (retirement_row uuid_str isoformat) (fun r => r) _ _
      (gp_relationship_retirement p)); [by rewrite map_id|done|].
    apply Forall_forall. intros r _. apply retirement_back.
  - rewrite (parse_list_back _ (fun u => VStr (uuid_str u)) (fun u => u) _ _ (gp_entity_strip p));
      [by rewrite map_id|done|]. by apply Forall_forall.
  - rewrite (parse_list_back _ (fun u => VStr (uuid_str u)) (fun u => u) _ _ (gp_relationship_strip p));
      [by rewrite map_id|done|]. by apply Forall_forall.
  - rewrite (parse_list_back _ _model_to_json (fun e => e) _ _ (gp_net_new_entities p));
      [by rewrite map_id|done|]. eapply Forall_impl; [exact He|]. apply entity_back.
  - rewrite (parse_list_back _ _model_to_json (fun e => e) _ _ (gp_net_new_relationships p));
      [by rewrite map_id|done|]. eapply Forall_impl; [exact Hr|]. apply relationship_back.
Qed.

Lemma replay_equals_phase p ns failed_at exc g :
  Forall entity_wf (gp_net_new_entities p) -> Forall relationship_wf (gp_net_new_relationships p) ->
  apply_payload (build_replace_mirror_payload uuid_str isoformat p failed_at exc) ns g =
  let '(r, g') := graph_phase exec p ns g in (counts_of <$> r, g').
Proof.
  intros He Hr. destruct (payload_lists p failed_at exc He Hr) as (E1 & E2 & E3 & E4 & E5).
  unfold apply_replace_mirror_payload.
  assert (version_ok (build_replace_mirror_payload uuid_str isoformat p failed_at exc) = true)
    as -> by reflexivity.
  rewrite E1, E2, E3, E4, E5.
  rewrite (get_or_empty_list _ "entity_retirement_rows" (gp_entity_retirement p)) by done.
  rewrite (get_or_empty_list _ "entity_survivor_remap_rows" (gp_entity_remap p)) by done.
  rewrite (get_or_empty_list _ "relationship_survivor_remap_rows" (gp_relationship_remap p)) by done.
  rewrite !truthy_list. unfold graph_phase, m_bind, m_lift, m_ret, UUID_of. simpl. rewrite uuid_law.
  repeat (destruct (call_if _ _ _ _) as [[?|?] ?]; [|done]). done.
Qed.

(** C26.  Replaying a persisted payload is the graph phase it stands for: the same calls
    with the same arguments in the same order, the same outcome - up to the first call
    that raises, included - and the same final graph. *)
Theorem replay_is_graph_phase p ns failed_at exc g :
  Forall entity_wf (gp_net_new_entities p) -> Forall relationship_wf (gp_net_new_relationships p) ->
  apply_payload (build_replace_mirror_payload uuid_str isoformat p failed_at exc) ns g =
  let '(r, g') := graph_phase exec p ns g in (counts_of <$> r, g').
Proof. apply replay_equals_phase. Qed.
End roundtrip.

(** ** Witness *)

(** Encodings that have the documented inverses. *)
#[export] Instance datetime_countable : Countable datetime.
Proof.
  refine (inj_countable' (fun d => (dt_local d, dt_offset d)) (fun '(l, o) => MkDatetime l o) _).
  by intros [].
Defined.

Definition enc_str {A} `{Countable A} (x : A) : string := pos_bits (encode x).
Definition dec_str {A} `{Countable A} (s : string) : option A := decode (bits_pos s).

Lemma dec_enc_str {A} `{Countable A} (x : A) : dec_str (enc_str x) = Some x.
Proof. unfold dec_str, enc_str. by rewrite bits_pos_bits, decode_encode. Qed.

Definition sample_entity : pyobj :=
  construct (entity_defaults 1 2 (dt_utc 5))
    [("name", FVal (VStr "Acme")); ("source_document_ids", FList [FUuid 9]);
     ("valid_from", FDate (dt_utc 3))].

Definition sample_plan : GraphPlan :=
  MkGraphPlan 7 [] [MkRelRetire 3 7 (dt_utc 4)] [] [] [5%Z] [] [sample_entity] [].

(** A graph that records its calls and refuses to strip. *)
Definition recording (v : verb) (log : list verb) : result answer * list verb :=
  match v with
  | StripEntities _ _ _ => (Err (OtherError "down"), log ++ [v])
  | _ => (Ok (MkAnswer 1 1), log ++ [v])
  end.

Lemma replay_is_graph_phase_witness :
  apply_replace_mirror_payload dec_str dec_str (fun _ => "") (entity_defaults 0 0 (dt_utc 0))
    (relationship_defaults 0 0 0 0 (dt_utc 0)) recording
    (build_replace_mirror_payload enc_str enc_str sample_plan (dt_utc 8) "Boom") 2 [] =
  (Err (OtherError "down"), [RetireRelationships [MkRelRetire 3 7 (dt_utc 4)] 2; StripEntities [5%Z] 7 2]).
Proof.
  rewrite (replay_is_graph_phase enc_str dec_str enc_str dec_str (fun _ => "") dec_enc_str dec_enc_str
    0 0 0 0 (dt_utc 0) recording sample_plan 2 (dt_utc 8) "Boom" []).
  - vm_compute. reflexivity.
  - constructor; [|constructor]. split; [split; [reflexivity|repeat constructor]|vm_compute; reflexivity].
  - constructor.
Defined.
