(* ===== verification/ReplaceDocument.v ===== *)
(** Document replacement in the storage coordinator: the retire / remap / strip plan,
    the relational transaction, the graph phase with its durable marker, and the
    reconciler ([storage/coordinator.py]). *)
From S2P Require Import Prelude PyValue FilterAst FilterPython ReplaceMirror.

Local Open Scope string_scope.
Local Open Scope list_scope.

(** ** The plan *)

(** A row of [fetch_document_extraction_state]. *)
Record EntityRecord := MkEntityRecord {
  er_namespace : option string; er_id : string; er_name : string; er_type : string;
  er_sources : Z }.

Record RelationshipRecord := MkRelRecord {
  rl_id : string; rl_source : string; rl_target : string; rl_type : string; rl_sources : Z }.

Definition attr (obj : pyobj) (k : string) : fval := default FNone (dict_get k obj).

(** [obj.k == s] and [obj.k == u] for a string and a UUID. *)
Definition attr_is_str (obj : pyobj) (k s : string) : bool :=
  match attr obj k with FVal (VStr t) => String.eqb s t | _ => false end.

Definition attr_is_uuid (obj : pyobj) (k : string) (u : Z) : bool :=
  match attr obj k with FUuid v => Z.eqb u v | _ => false end.

(** The string a field holds, for [_sanitize_neo4j_label(r.relationship_type)]. *)
Definition attr_label_is (obj : pyobj) (label : string) : bool :=
  match attr obj "relationship_type" with
  | FVal (VStr t) => String.eqb label (sanitize_cypher_label t)
  | _ => false
  end.

Section plan.
Context (uuid_str : Z -> string) (parse_uuid : string -> option Z).
Context (isoformat : datetime -> string).
Context (ns old_doc new_doc : Z).
(** The two readings of the clock, and the snapshot id drawn for a record. *)
Context (retired_at_iso retired_at : datetime) (snapshot_id : string -> string).
Context (new_entities new_relationships : list pyobj).

(** [key in new_entity_keys] *)
Definition entity_key_in (name type : string) (es : list pyobj) : bool :=
  existsb (fun e => attr_is_str e "name" name && attr_is_str e "entity_type" type) es.

(** [rel_key in new_relationship_keys] *)
Definition relationship_key_in (src tgt : Z) (label : string) (rs : list pyobj) : bool :=
  existsb (fun r => attr_is_uuid r "source_entity_id" src && attr_is_uuid r "target_entity_id" tgt &&
                    attr_label_is r label) rs.

(** What the loop does with an old entity or relationship. *)
Inductive fate := Skip | Survive | Retire | Strip.

#[global] Instance fate_eq_dec : EqDecision fate.
Proof. solve_decision. Defined.

Definition entity_fate (rec : EntityRecord) : fate :=
  if negb (bool_decide (er_namespace rec = Some (uuid_str ns))) then Skip
  else if entity_key_in (er_name rec) (er_type rec) new_entities then Survive
  else if Z.eqb (er_sources rec) 1 then Retire
  else Strip.

Definition uuid_m (s : string) : result Z :=
  match parse_uuid s with Some u => Ok u | None => Err ValueError end.

Definition relationship_key (rec : RelationshipRecord) : result (Z * Z * string) :=
  match uuid_m (rl_source rec) with
  | Err e => Err e
  | Ok s => match uuid_m (rl_target rec) with Ok t => Ok (s, t, rl_type rec) | Err e => Err e end
  end.

Definition relationship_fate (rec : RelationshipRecord) : result fate :=
  match relationship_key rec with
  | Err e => Err e
  | Ok (s, t, label) =>
      Ok (if relationship_key_in s t label new_relationships then Survive
          else if Z.eqb (rl_sources rec) 1 then Retire else Strip)
  end.

Definition entity_remap_row (id : string) : value :=
  VDict [("entity_id", VStr id); ("old_doc_id", VStr (uuid_str old_doc));
         ("new_doc_id", VStr (uuid_str new_doc))].

Definition relationship_remap_row (id : string) : value :=
  VDict [("relationship_id", VStr id); ("old_doc_id", VStr (uuid_str old_doc));
         ("new_doc_id", VStr (uuid_str new_doc))].

Definition entity_retirement_row (rec : EntityRecord) : value :=
  VDict [("current_id", VStr (er_id rec)); ("snapshot_id", VStr (snapshot_id (er_id rec)));
         ("namespace_id", VStr (default "" (er_namespace rec)));
         ("retired_at", VStr (isoformat retired_at_iso))].

(** The accumulators of the entity loop. *)
Record EntityPartition := MkEntityPartition {
  ep_retire : list value; ep_survivors : list (string * string); ep_remap : list value;
  ep_strip : list Z }.

Fixpoint entity_loop (recs : list EntityRecord) (acc : EntityPartition) : result EntityPartition :=
  match recs with
  | [] => Ok acc
  | rec :: recs' =>
      let '(MkEntityPartition re su rm st) := acc in
      match entity_fate rec with
      | Skip => entity_loop recs' acc
      | Survive =>
          entity_loop recs' (MkEntityPartition re (su ++ [(er_name rec, er_type rec)])
                               (rm ++ [entity_remap_row (er_id rec)]) st)
      | Retire => entity_loop recs' (MkEntityPartition (re ++ [entity_retirement_row rec]) su rm st)
      | Strip =>
          match uuid_m (er_id rec) with
          | Ok u => entity_loop recs' (MkEntityPartition re su rm (st ++ [u]))
          | Err e => Err e
          end
      end
  end.

Record RelationshipPartition := MkRelPartition {
  rp_retire : list RelationshipRetirement; rp_remap : list value; rp_strip : list Z }.

Fixpoint relationship_loop (recs : list RelationshipRecord) (acc : RelationshipPartition)
  : result RelationshipPartition :=
  match recs with
  | [] => Ok acc
  | rec :: recs' =>
      let '(MkRelPartition re rm st) := acc in
      match relationship_fate rec with
      | Err e => Err e
      | Ok Survive =>
          relationship_loop recs' (MkRelPartition re (rm ++ [relationship_remap_row (rl_id rec)]) st)
      | Ok Retire =>
          match uuid_m (rl_id rec) with
          | Ok u => relationship_loop recs' (MkRelPartition (re ++ [MkRelRetire u old_doc retired_at]) rm st)
          | Err e => Err e
          end
      | Ok _ =>
          match uuid_m (rl_id rec) with
          | Ok u => relationship_loop recs' (MkRelPartition re rm (st ++ [u]))
          | Err e => Err e
          end
      end
  end.

(** [(e.name, e.entity_type) in entity_survivor_keys] *)
Definition survivor_key (survivors : list (string * string)) (e : pyobj) : bool :=
  existsb (fun '(n, t) => attr_is_str e "name" n && attr_is_str e "entity_type" t) survivors.

Definition old_key (olds : list (Z * Z * string)) (r : pyobj) : bool :=
  existsb (fun '(s, t, l) => attr_is_uuid r "source_entity_id" s && attr_is_uuid r "target_entity_id" t &&
                             attr_label_is r l) olds.

Definition compute_plan (old_entities : list EntityRecord) (old_relationships : list RelationshipRecord)
  : result GraphPlan :=
  match entity_loop old_entities (MkEntityPartition [] [] [] []) with
  | Err e => Err e
  | Ok ep =>
  match relationship_loop old_relationships (MkRelPartition [] [] []) with
  | Err e => Err e
  | Ok rp =>
  match map_m relationship_key old_relationships with
  | Err e => Err e
  | Ok olds =>
      Ok (MkGraphPlan old_doc (ep_retire ep) (rp_retire rp) (ep_remap ep) (rp_remap rp)
            (ep_strip ep) (rp_strip rp)
            (filter (fun e => negb (survivor_key (ep_survivors ep) e)) new_entities)
            (filter (fun r => negb (old_key olds r)) new_relationships))
  end end end.
End plan.

(** ** Objects that calls write to

    The upsert and the create are handed the very objects of the plan and write to them: the
    ids of the rows that were there already, and normalised fields.  What is built from the
    plan afterwards shows it, also when the call raised half way. *)

Definition set_field (k : string) (f : fval) (obj : pyobj) : pyobj :=
  List.map (fun kf => if String.eqb kf.1 k then (k, f) else kf) obj.

(** The net-new entities and relationships of a plan, as objects. *)
Definition objects : Type := list pyobj * list pyobj.

Definition objects_of (p : GraphPlan) : objects := (gp_net_new_entities p, gp_net_new_relationships p).

Definition with_objects (p : GraphPlan) (o : objects) : GraphPlan :=
  MkGraphPlan (gp_old_document_id p) (gp_entity_retirement p) (gp_relationship_retirement p)
    (gp_entity_remap p) (gp_relationship_remap p) (gp_entity_strip p) (gp_relationship_strip p) o.1 o.2.

Section in_place.
Context {G : Type} (exec : verb -> G -> result answer * G).
(** The objects of a call as it leaves them, whether it returns or raises. *)
Context (leaves : verb -> G -> list pyobj).

Definition exec_in_place (v : verb) (s : G * objects) : result answer * (G * objects) :=
  let '(g, (es, rs)) := s in
  let '(r, g') := exec v g in
  (r, (g', match v with
           | UpsertEntities _ _ => (leaves v g, rs)
           | CreateRelationships _ => (es, leaves v g)
           | _ => (es, rs)
           end)).
End in_place.

(** What PostgreSQL's and Neo4j's upserts write: the id stored for the entity's name and
    type, if the call got as far. *)
Definition sync_entity (stored : string -> string -> option Z) (e : pyobj) : pyobj :=
  match attr e "name", attr e "entity_type" with
  | FVal (VStr name), FVal (VStr type) =>
      match stored name type with Some i => set_field "id" (FUuid i) e | None => e end
  | _, _ => e
  end.

(** What Neo4j's create writes: the sanitized type before its first statement, the stored id
    after the last. *)
Definition sync_relationship (stored : Z -> option Z) (r : pyobj) : pyobj :=
  let r :=
    match attr r "relationship_type" with
    | FVal (VStr t) => set_field "relationship_type" (FVal (VStr (sanitize_cypher_label t))) r
    | _ => r
    end in
  match attr r "id" with
  | FUuid i => match stored i with Some j => set_field "id" (FUuid j) r | None => r end
  | _ => r
  end.

Definition remote_leaves {G} (stored_entity : G -> string -> string -> option Z) (stored_edge : G -> Z -> option Z)
    (v : verb) (g : G) : list pyobj :=
  match v with
  | UpsertEntities _ es => List.map (sync_entity (stored_entity g)) es
  | CreateRelationships rs => List.map (sync_relationship (stored_edge g)) rs
  | _ => []
  end.

(** ** The stores *)

(** A document row: its namespace, status, counts, the time of its last update and the
    pending-mirror marker. *)
Record DocRow := MkDocRow {
  dr_ns : Z; dr_status : string; dr_chunk_count : nat; dr_entity_count : nat;
  dr_relationship_count : nat; dr_updated_at : Z;
  dr_marker : option (list (string * value)) }.

Record World (G : Type) := MkWorld {
  w_docs : gmap Z DocRow;          (* documents, by id *)
  w_chunks : gmap Z (list Z);      (* chunk ids, by document *)
  w_graph : G }.
Arguments MkWorld {G}.
Arguments w_docs {G}.
Arguments w_chunks {G}.
Arguments w_graph {G}.

(** The database operations that may fail. *)
Inductive io_op :=
| DeleteChunks | CreateChunks | UpdateDocument | ClearMarker | Commit
| PersistMarker | ListPending | ClearReplayed (doc : Z).

Record Degradation := MkDegradation {
  dg_component : string; dg_reason : string; dg_detail : string; dg_exception : pyexn }.

Record ReplaceResult := MkReplaceResult {
  rs_document_id : Z; rs_chunks_deleted : nat; rs_chunks_created : nat;
  rs_entities_created : nat; rs_entities_updated : nat; rs_entities_retired : nat;
  rs_relationships_created : nat; rs_relationships_retired : nat;
  rs_degradations : list Degradation }.

(** How a replacement ends: a result; [GraphMirrorFailedAfterPGCommitError] with its
    cause, whether the marker was persisted, and the drain's degradations; or another
    exception. *)
Inductive outcome :=
| Replaced (r : ReplaceResult)
| MirrorFailed (cause : pyexn) (pending_persisted : bool) (drain : list Degradation)
| Failed (e : pyexn).

Section coordinator.
Context (uuid_str : Z -> string) (parse_uuid : string -> option Z).
Context (isoformat : datetime -> string) (fromisoformat : string -> option datetime).
Context (str_other : value -> string).
Context (entity_dflt relationship_dflt : pyobj).
Context {G : Type} (exec : verb -> G -> result answer * G).
Context (leaves : verb -> G -> list pyobj).
(** [fetch_document_extraction_state] of the graph. *)
Context (fetch : Z -> Z -> G -> result (list EntityRecord * list RelationshipRecord)).
(** The exception a database operation raises, if it does. *)
Context (io : io_op -> option pyexn).
(** [type(exc).__name__] *)
Context (exn_name : pyexn -> string).

Abbreviation apply_payload := (apply_replace_mirror_payload parse_uuid fromisoformat str_other
  entity_dflt relationship_dflt exec).

Definition set_marker (m : option (list (string * value))) (now : Z) (d : DocRow) : DocRow :=
  MkDocRow (dr_ns d) (dr_status d) (dr_chunk_count d) (dr_entity_count d) (dr_relationship_count d) now m.

(** [partial_update_document(doc, namespace_id=ns, graph_mirror_pending=m)]: the rows
    affected and the new table. *)
Definition partial_update (docs : gmap Z DocRow) (doc ns now : Z) (m : option (list (string * value)))
  : nat * gmap Z DocRow :=
  match docs !! doc with
  | Some d => if Z.eqb (dr_ns d) ns then (1, <[doc := set_marker m now d]> docs) else (0, docs)
  | None => (0, docs)
  end.

(** *** The reconciler *)

Fixpoint insert_pending (x : Z * DocRow) (l : list (Z * DocRow)) : list (Z * DocRow) :=
  match l with
  | [] => [x]
  | y :: l' => if Z.leb (dr_updated_at x.2) (dr_updated_at y.2) then x :: l else y :: insert_pending x l'
  end.

(** [list_documents_with_graph_mirror_pending]: oldest update first. *)
Definition list_pending (docs : gmap Z DocRow) (ns : Z) (limit : nat) : list (Z * list (string * value)) :=
  let rows := filter (fun idr => Z.eqb (dr_ns idr.2) ns && bool_decide (is_Some (dr_marker idr.2)))
                (map_to_list docs) in
  List.flat_map (fun '(id, d) => match dr_marker d with Some m => [(id, m)] | None => [] end)
    (take limit (foldr insert_pending [] rows)).

Definition reconcile_component : string := "coordinator.replace_mirror.reconcile".

Fixpoint drain (pending : list (Z * list (string * value))) (ns now : Z) (w : World G)
  : list Degradation * World G :=
  match pending with
  | [] => ([], w)
  | (doc, payload) :: rest =>
      if negb (nonempty payload) then drain rest ns now w
      else
        match apply_payload payload ns (w_graph w) with
        | (Err e, g) =>
            let '(ds, w') := drain rest ns now (MkWorld (w_docs w) (w_chunks w) g) in
            (MkDegradation reconcile_component "graph_mirror_reconcile_failed" (uuid_str doc) e :: ds, w')
        | (Ok _, g) =>
            match io (ClearReplayed doc) with
            | Some e =>
                let '(ds, w') := drain rest ns now (MkWorld (w_docs w) (w_chunks w) g) in
                (MkDegradation reconcile_component "graph_mirror_pending_clear_failed" (uuid_str doc) e :: ds, w')
            | None =>
                drain rest ns now (MkWorld (partial_update (w_docs w) doc ns now None).2 (w_chunks w) g)
            end
        end
  end.

Definition reconcile_replace_graph_mirror (ns now : Z) (limit : nat) (w : World G)
  : list Degradation * World G :=
  match io ListPending with
  | Some e => ([MkDegradation reconcile_component "graph_mirror_pending_read_failed"
                  "list_documents_with_graph_mirror_pending raised" e], w)
  | None => drain (list_pending (w_docs w) ns limit) ns now w
  end.

(** *** The relational transaction *)

(** The arguments of one replacement. *)
Record ReplaceArgs := MkReplaceArgs {
  ag_ns : Z; ag_old : Z; ag_new : Z; ag_chunks : list Z;
  ag_entities : list pyobj; ag_relationships : list pyobj }.

(** [mark_completed] and [update_document], which does not touch the marker. *)
Definition completed_row (a : ReplaceArgs) (now : Z) (d : DocRow) : DocRow :=
  MkDocRow (dr_ns d) "completed" (length (ag_chunks a)) (length (ag_entities a)) 0 now (dr_marker d).

(** The document table after [update_document] and the cleared marker. *)
Definition committed_docs (a : ReplaceArgs) (now : Z) (docs : gmap Z DocRow) : gmap Z DocRow :=
  let docs :=
    match docs !! ag_new a with
    | Some d => <[ag_new a := completed_row a now d]> docs
    | None => docs
    end in
  (partial_update docs (ag_new a) (ag_ns a) now None).2.

(** The chunks after [delete_chunks_by_document] of the old document and
    [create_chunks_batch] under the new one. *)
Definition replace_chunks (a : ReplaceArgs) (chunks : gmap Z (list Z)) : gmap Z (list Z) :=
  let chunks := delete (ag_old a) chunks in
  <[ag_new a := default [] (chunks !! ag_new a) ++ ag_chunks a]> chunks.

Definition first_failure (ops : list io_op) : option pyexn :=
  foldr (fun op k => match io op with Some e => Some e | None => k end) None ops.

(** The transaction.  With a session-capable vector store everything is in it; the
    embedded one commits its chunk work on its own. *)
Definition pg_transaction (vector_in_txn : bool) (a : ReplaceArgs) (now : Z) (w : World G)
  : result nat * World G :=
  let deleted := length (default [] (w_chunks w !! ag_old a)) in
  let docs' := committed_docs a now (w_docs w) in
  let chunks' := replace_chunks a (w_chunks w) in
  if vector_in_txn then
    match first_failure [DeleteChunks; CreateChunks; UpdateDocument; ClearMarker; Commit] with
    | Some e => (Err e, w)
    | None => (Ok deleted, MkWorld docs' chunks' (w_graph w))
    end
  else
    match io DeleteChunks with
    | Some e => (Err e, w)
    | None =>
    match io CreateChunks with
    | Some e => (Err e, MkWorld (w_docs w) (delete (ag_old a) (w_chunks w)) (w_graph w))
    | None =>
    match first_failure [UpdateDocument; ClearMarker; Commit] with
    | Some e => (Err e, MkWorld (w_docs w) chunks' (w_graph w))
    | None => (Ok deleted, MkWorld docs' chunks' (w_graph w))
    end end end.

(** *** The whole operation *)

Context (configured vector_in_txn : bool).
Context (clock : datetime) (snapshot_id : string -> string).

Definition replace_document_extraction (a : ReplaceArgs) (now : Z) (w : World G) : outcome * World G :=
  if negb configured then (Failed (OtherError "RuntimeError"), w)
  else
    let '(degs, w1) := reconcile_replace_graph_mirror (ag_ns a) now 50 w in
    match fetch (ag_old a) (ag_ns a) (w_graph w1) with
    | Err e => (Failed e, w1)
    | Ok (olds, oldrs) =>
    match compute_plan uuid_str parse_uuid isoformat (ag_ns a) (ag_old a) (ag_new a) clock clock
            snapshot_id (ag_entities a) (ag_relationships a) olds oldrs with
    | Err e => (Failed e, w1)
    | Ok plan =>
    match pg_transaction vector_in_txn a now w1 with
    | (Err e, w2) => (Failed e, w2)
    | (Ok deleted, w2) =>
    match graph_phase (exec_in_place exec leaves) plan (ag_ns a) (w_graph w2, objects_of plan) with
    | (Ok (n1, n2, n3, n4), (g, _)) =>
        (Replaced (MkReplaceResult (ag_new a) deleted (length (ag_chunks a))
           (a_new n3) (length (gp_entity_remap plan) + (a_rows n3 - a_new n3)) (a_rows n1)
           (a_rows n4) (a_rows n2) degs),
         MkWorld (w_docs w2) (w_chunks w2) g)
    | (Err cause, (g, objs)) =>
        let w3 := MkWorld (w_docs w2) (w_chunks w2) g in
        let payload := build_replace_mirror_payload uuid_str isoformat (with_objects plan objs) clock
                         (exn_name cause) in
        match io PersistMarker with
        | Some _ => (MirrorFailed cause false degs, w3)
        | None =>
            let '(rows, docs) := partial_update (w_docs w3) (ag_new a) (ag_ns a) now (Some payload) in
            (MirrorFailed cause (Nat.ltb 0 rows) degs, MkWorld docs (w_chunks w3) g)
        end
    end end end end.
End coordinator.
