(* ===== verification/ReplaceDocumentFacts.v ===== *)
(** Theorems on document replacement: the plan keeps what is still sourced, a failure
    leaves the documented state, and the reconciler replays what failed. *)
From S2P Require Import Prelude PyValue FilterAst FilterPython ReplaceMirror ReplaceMirrorFacts.
From S2P Require Import ReplaceDocument.

Local Open Scope string_scope.
Local Open Scope list_scope.

(** ** The plan *)

Section plan.
Context (uuid_str : Z -> string) (parse_uuid : string -> option Z).
Context (isoformat : datetime -> string).
Context (ns old_doc new_doc : Z).
Context (retired_at_iso retired_at : datetime) (snapshot_id : string -> string).
Context (new_entities new_relationships : list pyobj).

Abbreviation entity_fate := (entity_fate uuid_str ns new_entities).
Abbreviation relationship_fate := (relationship_fate parse_uuid new_relationships).
Abbreviation entity_retirement_row := (entity_retirement_row isoformat retired_at_iso snapshot_id).
Abbreviation entity_remap_row := (entity_remap_row uuid_str old_doc new_doc).
Abbreviation relationship_remap_row := (relationship_remap_row uuid_str old_doc new_doc).
Abbreviation entity_loop := (entity_loop uuid_str parse_uuid isoformat ns old_doc new_doc
  retired_at_iso snapshot_id new_entities).
Abbreviation relationship_loop := (relationship_loop uuid_str parse_uuid old_doc new_doc
  retired_at new_relationships).
Abbreviation compute_plan := (compute_plan uuid_str parse_uuid isoformat ns old_doc new_doc
  retired_at_iso retired_at snapshot_id new_entities new_relationships).

Definition is_fate (f g : fate) : bool :=
  match f, g with
  | Skip, Skip | Survive, Survive | Retire, Retire | Strip, Strip => true
  | _, _ => false
  end.

Lemma is_fate_true f g : is_fate f g = true <-> g = f.
Proof. by destruct f, g. Qed.

Definition has_fate (f : fate) (m : result fate) : bool :=
  match m with Ok g => is_fate f g | Err _ => false end.

(** The old entities of one fate. *)
Definition entities_of (f : fate) (recs : list EntityRecord) : list EntityRecord :=
  filter (fun r => is_fate f (entity_fate r)) recs.

Definition relationships_of (f : fate) (recs : list RelationshipRecord) : list RelationshipRecord :=
  filter (fun r => has_fate f (relationship_fate r)) recs.

(** The ids of some records, parsed. *)
Definition parsed (ids : list string) (us : list Z) : Prop := List.map parse_uuid ids = List.map Some us.

Lemma entity_loop_spec recs : forall acc ep,
  entity_loop recs acc = Ok ep ->
  ep_retire ep = ep_retire acc ++ List.map entity_retirement_row (entities_of Retire recs) /\
  ep_survivors ep = ep_survivors acc ++
    List.map (fun r => (er_name r, er_type r)) (entities_of Survive recs) /\
  ep_remap ep = ep_remap acc ++ List.map (fun r => entity_remap_row (er_id r)) (entities_of Survive recs) /\
  exists us, ep_strip ep = ep_strip acc ++ us /\ parsed (List.map er_id (entities_of Strip recs)) us.
Proof.
  unfold entities_of. induction recs as [|rec recs IH]; intros [re su rm st] ep H; simpl in H.
  - injection H as <-. simpl. rewrite !app_nil_r. split_and!; try done.
    exists []. by rewrite app_nil_r.
  - rewrite !filter_cons. destruct (entity_fate rec) eqn:Ef; simpl.
    + by apply IH in H.
    + apply IH in H as (-> & -> & -> & us & -> & Hus). simpl. rewrite <- !app_assoc.
      split_and!; try done. by exists us.
    + apply IH in H as (-> & -> & -> & us & -> & Hus). simpl. rewrite <- !app_assoc.
      split_and!; try done. by exists us.
    + unfold uuid_m in H. destruct (parse_uuid (er_id rec)) as [u|] eqn:Eu; [|done].
      apply IH in H as (-> & -> & -> & us & -> & Hus). simpl.
      split_and!; try done. exists (u :: us). rewrite <- app_assoc. split; [done|].
      unfold parsed in *. simpl. rewrite Eu. f_equal. exact Hus.
Qed.

Lemma relationship_loop_spec recs : forall acc rp,
  relationship_loop recs acc = Ok rp ->
  (exists us, rp_retire rp = rp_retire acc ++ List.map (fun u => MkRelRetire u old_doc retired_at) us /\
     parsed (List.map rl_id (relationships_of Retire recs)) us) /\
  rp_remap rp = rp_remap acc ++
    List.map (fun r => relationship_remap_row (rl_id r)) (relationships_of Survive recs) /\
  (exists us, rp_strip rp = rp_strip acc ++ us /\
     parsed (List.map rl_id (relationships_of Strip recs)) us).
Proof.
  unfold relationships_of. induction recs as [|rec recs IH]; intros [re rm st] rp H; simpl in H.
  - injection H as <-. simpl. rewrite !app_nil_r. split_and!; try done;
      exists []; by rewrite ?app_nil_r.
  - rewrite !filter_cons. destruct (relationship_fate rec) as [f|] eqn:Ef; [|done].
    assert (Hf : f = Survive \/ f = Retire \/ f = Strip).
    { unfold ReplaceDocument.relationship_fate in Ef.
      destruct (relationship_key _ rec) as [[[? ?] ?]|]; [|done]. injection Ef as <-.
      destruct (relationship_key_in _ _ _ _); [auto|]. destruct (Z.eqb _ _); auto. }
    destruct Hf as [->|[->| ->]]; simpl.
    + apply IH in H as ((us & -> & ?) & -> & (us' & -> & ?)). simpl. rewrite <- app_assoc. split_and!; eauto.
    + unfold uuid_m in H. destruct (parse_uuid (rl_id rec)) as [u|] eqn:Eu; [|done].
      apply IH in H as ((us & -> & Hus) & -> & (us' & -> & ?)). simpl. split_and!; eauto.
      exists (u :: us). rewrite <- app_assoc. split; [done|]. unfold parsed in *. simpl. rewrite Eu. f_equal. exact Hus.
    + unfold uuid_m in H. destruct (parse_uuid (rl_id rec)) as [u|] eqn:Eu; [|done].
      apply IH in H as ((us & -> & ?) & -> & (us' & -> & Hus)). simpl. split_and!; eauto.
      exists (u :: us'). rewrite <- app_assoc. split; [done|]. unfold parsed in *. simpl. rewrite Eu. f_equal. exact Hus.
Qed.

(** The old entity has the key of [e], in this namespace. *)
Definition same_entity (e : pyobj) (rec : EntityRecord) : Prop :=
  er_namespace rec = Some (uuid_str ns) /\
  attr_is_str e "name" (er_name rec) = true /\ attr_is_str e "entity_type" (er_type rec) = true.

Definition same_relationship (r : pyobj) (rec : RelationshipRecord) : Prop :=
  exists s t, relationship_key parse_uuid rec = Ok (s, t, rl_type rec) /\
    attr_is_uuid r "source_entity_id" s = true /\ attr_is_uuid r "target_entity_id" t = true /\
    attr_label_is r (rl_type rec) = true.

Lemma entity_key_in_true n t es :
  entity_key_in n t es = true <->
  exists e, e ∈ es /\ attr_is_str e "name" n = true /\ attr_is_str e "entity_type" t = true.
Proof.
  unfold entity_key_in. rewrite existsb_exists. setoid_rewrite list_elem_of_In.
  by setoid_rewrite andb_true_iff.
Qed.

Lemma entity_fate_survive rec :
  entity_fate rec = Survive <-> exists e, e ∈ new_entities /\ same_entity e rec.
Proof.
  unfold ReplaceDocument.entity_fate, same_entity. case_bool_decide as Hns; simpl; [|naive_solver].
  destruct (entity_key_in (er_name rec) (er_type rec) new_entities) eqn:E.
  - apply entity_key_in_true in E as (e & He & H1 & H2). split; [|done]. intros _. by exists e.
  - split; [by destruct (Z.eqb _ _)|]. intros (e & He & _ & H1 & H2).
    assert (entity_key_in (er_name rec) (er_type rec) new_entities = true); [|congruence].
    apply entity_key_in_true. eauto.
Qed.

(** A new entity is net-new exactly when no old entity of the namespace has its key. *)
Lemma survivor_key_spec e recs :
  e ∈ new_entities ->
  survivor_key (List.map (fun r => (er_name r, er_type r)) (entities_of Survive recs)) e = true <->
  exists rec, rec ∈ recs /\ same_entity e rec.
Proof.
  intros He. unfold survivor_key. rewrite existsb_exists. split.
  - intros ([n t] & Hin & H). apply in_map_iff in Hin as (rec & [= <- <-] & Hin).
    apply list_elem_of_In, list_elem_of_filter in Hin as [Hf Hin]. apply andb_true_iff in H as [H1 H2].
    apply Is_true_true, is_fate_true, entity_fate_survive in Hf as (_ & _ & Hns & _). by exists rec.
  - intros (rec & Hin & Hs). exists (er_name rec, er_type rec). split.
    + apply in_map_iff. exists rec. split; [done|]. apply list_elem_of_In, list_elem_of_filter.
      split; [|done]. apply Is_true_true, is_fate_true, entity_fate_survive. eauto.
    + destruct Hs as (_ & -> & ->). done.
Qed.

Lemma old_key_spec r recs olds :
  map_m (relationship_key parse_uuid) recs = Ok olds ->
  old_key olds r = true <-> exists rec, rec ∈ recs /\ same_relationship r rec.
Proof.
  intros H%map_m_ok. unfold old_key, same_relationship.
  induction H as [|rec [[s t] l] recs olds Hk _ IH]; simpl; [set_solver|].
  rewrite orb_true_iff, IH. setoid_rewrite elem_of_cons.
  assert (l = rl_type rec) as ->.
  { unfold relationship_key in Hk. destruct (uuid_m _ (rl_source rec)); [|done].
    by destruct (uuid_m _ (rl_target rec)); [injection Hk as _ _ <-|]. }
  rewrite !andb_true_iff. split.
  - intros [[[H1 H2] H3]|(rec' & Hin & H)]; [|by eauto]. exists rec. split; [by left|]. by exists s, t.
  - intros (rec' & [->|Hin] & s' & t' & Hk' & H); [|right; eauto 10].
    left. rewrite Hk in Hk'. injection Hk' as <- <-. naive_solver.
Qed.

(** The fates, in terms of the records. *)
Lemma entity_fate_spec rec :
  let here := er_namespace rec = Some (uuid_str ns) in
  let again := exists e, e ∈ new_entities /\ same_entity e rec in
  (entity_fate rec = Survive <-> again) /\
  (entity_fate rec = Retire <-> here /\ ~ again /\ er_sources rec = 1%Z) /\
  (entity_fate rec = Strip <-> here /\ ~ again /\ er_sources rec <> 1%Z) /\
  (entity_fate rec = Skip <-> ~ here).
Proof.
  intros here again. pose proof (entity_fate_survive rec) as Hs. fold again in Hs.
  rewrite <- Hs. unfold ReplaceDocument.entity_fate in *. unfold here.
  case_bool_decide as Hns; simpl; [|split_and!; try done; split; naive_solver].
  destruct (entity_key_in _ _ _); [split_and!; try done; split; naive_solver|].
  destruct (Z.eqb_spec (er_sources rec) 1); split_and!; split; naive_solver.
Qed.

Lemma relationship_key_in_true s t l rs :
  relationship_key_in s t l rs = true <->
  exists r, r ∈ rs /\ attr_is_uuid r "source_entity_id" s = true /\
    attr_is_uuid r "target_entity_id" t = true /\ attr_label_is r l = true.
Proof.
  unfold relationship_key_in. rewrite existsb_exists. setoid_rewrite list_elem_of_In.
  setoid_rewrite andb_true_iff. setoid_rewrite andb_true_iff. naive_solver.
Qed.

Lemma relationship_fate_spec rec f :
  relationship_fate rec = Ok f ->
  let again := exists r, r ∈ new_relationships /\ same_relationship r rec in
  (f = Survive <-> again) /\
  (f = Retire <-> ~ again /\ rl_sources rec = 1%Z) /\
  (f = Strip <-> ~ again /\ rl_sources rec <> 1%Z) /\ f <> Skip.
Proof.
  intros H again. unfold ReplaceDocument.relationship_fate in H.
  destruct (relationship_key parse_uuid rec) as [[[s t] l]|] eqn:Ek; [|done].
  assert (l = rl_type rec) as ->.
  { unfold relationship_key in Ek. destruct (uuid_m _ (rl_source rec)); [|done].
    by destruct (uuid_m _ (rl_target rec)); [injection Ek as _ _ <-|]. }
  assert (Hag : relationship_key_in s t (rl_type rec) new_relationships = true <-> again).
  { rewrite relationship_key_in_true. unfold again, same_relationship. split.
    - intros (r & Hr & H1 & H2 & H3). exists r. split; [done|]. by exists s, t.
    - intros (r & Hr & s' & t' & Hk & H1 & H2 & H3). rewrite Ek in Hk. injection Hk as <- <-. by exists r. }
  injection H as <-. destruct (relationship_key_in _ _ _ _).
  - assert again by (by apply Hag). split_and!; [done| | |done]; by split; [|intros []].
  - assert (~ again) by (intros Ha; by apply Hag in Ha).
    destruct (Z.eqb_spec (rl_sources rec) 1); (split_and!; [| | |done]);
      split; naive_solver.
Qed.

(** The plan partitions the old extraction.  Records of other namespaces are left
    alone; an entity whose key is extracted again is remapped; one that only this
    document sources is retired; any other is kept and only loses the document - so what
    another document still sources is never retired.  The net-new entities are the
    extracted ones whose key no old record of the namespace has, and relationships
    are treated alike, by their endpoints and sanitized type. *)
Theorem plan_partitions olds oldrs p :
  compute_plan olds oldrs = Ok p ->
  (forall rec, let again := exists e, e ∈ new_entities /\ same_entity e rec in
     let here := er_namespace rec = Some (uuid_str ns) in
     (entity_fate rec = Survive <-> again) /\
     (entity_fate rec = Retire <-> here /\ ~ again /\ er_sources rec = 1%Z) /\
     (entity_fate rec = Strip <-> here /\ ~ again /\ er_sources rec <> 1%Z)) /\
  (forall rec f, relationship_fate rec = Ok f ->
     let again := exists r, r ∈ new_relationships /\ same_relationship r rec in
     (f = Survive <-> again) /\ (f = Retire <-> ~ again /\ rl_sources rec = 1%Z) /\
     (f = Strip <-> ~ again /\ rl_sources rec <> 1%Z)) /\
  gp_entity_retirement p = List.map entity_retirement_row (entities_of Retire olds) /\
  gp_entity_remap p = List.map (fun r => entity_remap_row (er_id r)) (entities_of Survive olds) /\
  parsed (List.map er_id (entities_of Strip olds)) (gp_entity_strip p) /\
  (forall e, e ∈ gp_net_new_entities p <->
     e ∈ new_entities /\ ~ exists rec, rec ∈ olds /\ same_entity e rec) /\
  parsed (List.map rl_id (relationships_of Retire oldrs))
    (List.map rr_relationship_id (gp_relationship_retirement p)) /\
  gp_relationship_remap p =
    List.map (fun r => relationship_remap_row (rl_id r)) (relationships_of Survive oldrs) /\
  parsed (List.map rl_id (relationships_of Strip oldrs)) (gp_relationship_strip p) /\
  (forall r, r ∈ gp_net_new_relationships p <->
     r ∈ new_relationships /\ ~ exists rec, rec ∈ oldrs /\ same_relationship r rec).
Proof.
  unfold ReplaceDocument.compute_plan. intros H.
  destruct (entity_loop olds _) as [ep|] eqn:Ee; [|done].
  destruct (relationship_loop oldrs _) as [rp|] eqn:Er; [|done].
  destruct (map_m _ oldrs) as [keys|] eqn:Ek; [|done]. injection H as <-. simpl.
  apply entity_loop_spec in Ee as (Hre & Hsu & Hrm & us & Hst & Hus). simpl in *.
  apply relationship_loop_spec in Er as ((us1 & Hr1 & Hus1) & Hr2 & us2 & Hr3 & Hus2). simpl in *.
  split_and!; try done; try (by rewrite ?Hst, ?Hr3).
  - intros rec. by destruct (entity_fate_spec rec) as (? & ? & ? & _).
  - intros rec f Hf. by destruct (relationship_fate_spec rec f Hf) as (? & ? & ? & _).
  - intros e. rewrite list_elem_of_filter, Is_true_true, negb_true_iff, Hsu.
    rewrite <- not_true_iff_false. split.
    + intros [H1 H2]. split; [done|]. intros Hex. apply H1. by apply survivor_key_spec.
    + intros [H1 H2]. split; [|done]. intros Hsk. apply H2. by apply survivor_key_spec in Hsk.
  - rewrite Hr1, List.map_map. simpl. by rewrite List.map_id.
  - intros r. rewrite list_elem_of_filter, Is_true_true, negb_true_iff, <- not_true_iff_false.
    rewrite (old_key_spec r oldrs keys Ek). naive_solver.
Qed.
Lemma filter_none {A} (P : A -> Prop) `{forall x, Decision (P x)} (l : list A) : (forall x, x ∈ l -> ~ P x) -> filter P l = [].
Proof.
  intros H0. induction l as [|x l IH]; [done|]. rewrite filter_cons, decide_False by (apply H0; left).
  apply IH. intros y Hy. apply H0. by right.
Qed.

Lemma filter_every {A} (P : A -> Prop) `{forall x, Decision (P x)} (l : list A) : (forall x, x ∈ l -> P x) -> filter P l = l.
Proof.
  intros H0. induction l as [|x l IH]; [done|]. rewrite filter_cons, decide_True by (apply H0; left).
  f_equal. apply IH. intros y Hy. apply H0. by right.
Qed.

(** Relationships are recognised by the ids of their endpoints.  Extraction gives every
    entity an id of its own, so when no new relationship starts at an entity of the store,
    none is recognised: no old relationship is remapped, each is retired or loses the
    document, and every new one is created anew - from the id it has, not from the id that
    the upsert finds for its entity. *)
Theorem fresh_endpoints_retire_all olds oldrs p :
  compute_plan olds oldrs = Ok p ->
  (forall r rec s, r ∈ new_relationships -> rec ∈ oldrs -> parse_uuid (rl_source rec) = Some s ->
     attr_is_uuid r "source_entity_id" s = false) ->
  gp_relationship_remap p = [] /\ gp_net_new_relationships p = new_relationships /\
  forall rec f, rec ∈ oldrs -> relationship_fate rec = Ok f -> f = Retire \/ f = Strip.
Proof.
  intros Hp Hfresh.
  assert (Hno : forall rec, rec ∈ oldrs -> ~ exists r, r ∈ new_relationships /\ same_relationship r rec).
  { intros rec Hrec (r & Hr & s & t & Hk & Hs & _). unfold relationship_key, uuid_m in Hk.
    destruct (parse_uuid (rl_source rec)) as [s'|] eqn:Es; [|done]. destruct (parse_uuid (rl_target rec)); [|done].
    injection Hk as -> _. by rewrite (Hfresh r rec s Hr Hrec Es) in Hs. }
  assert (Hfate : forall rec f, rec ∈ oldrs -> relationship_fate rec = Ok f -> f = Retire \/ f = Strip).
  { intros rec f Hrec Hf. destruct (relationship_fate_spec rec f Hf) as (H1 & _ & _ & H4).
    destruct f; [done|by destruct (Hno rec Hrec (proj1 H1 eq_refl))|by left|by right]. }
  split_and!; [| |done].
  - unfold ReplaceDocument.compute_plan in Hp. destruct (entity_loop olds _); [|done].
    destruct (relationship_loop oldrs _) as [rp|] eqn:Er; [|done]. destruct (map_m _ oldrs); [|done]. injection Hp as <-.
    cbn. apply relationship_loop_spec in Er as (_ & -> & _). cbn. unfold relationships_of. rewrite filter_none; [done|].
    intros rec Hrec. rewrite Is_true_true. unfold has_fate. destruct (relationship_fate rec) as [f|] eqn:Hf; [|done].
    rewrite is_fate_true. by destruct (Hfate rec f Hrec Hf) as [-> | ->].
  - unfold ReplaceDocument.compute_plan in Hp. destruct (entity_loop olds _); [|done].
    destruct (relationship_loop oldrs _); [|done]. destruct (map_m _ oldrs) as [keys|] eqn:Ek; [|done]. injection Hp as <-.
    cbn. apply filter_every. intros r Hr. rewrite Is_true_true, negb_true_iff, <- not_true_iff_false, (old_key_spec r oldrs keys Ek).
    intros (rec & Hrec & Hs). apply (Hno rec Hrec). by exists r.
Qed.
End plan.

(** ** Outcomes *)

Section coordinator.
Context (uuid_str : Z -> string) (parse_uuid : string -> option Z).
Context (isoformat : datetime -> string) (fromisoformat : string -> option datetime).
Context (str_other : value -> string).
Context (new_id new_ns new_src new_tgt : Z) (ctor_now : datetime).
Context {G : Type} (exec : verb -> G -> result answer * G) (leaves : verb -> G -> list pyobj).
Context (fetch : Z -> Z -> G -> result (list EntityRecord * list RelationshipRecord)).
Context (io : io_op -> option pyexn) (exn_name : pyexn -> string).
Context (vector_in_txn : bool) (clock : datetime) (snapshot_id : string -> string).

Abbreviation entity_dflt := (entity_defaults new_id new_ns ctor_now).
Abbreviation relationship_dflt := (relationship_defaults new_id new_ns new_src new_tgt ctor_now).
Abbreviation reconcile := (reconcile_replace_graph_mirror uuid_str parse_uuid fromisoformat str_other
  entity_dflt relationship_dflt exec io).
Abbreviation drain := (drain uuid_str parse_uuid fromisoformat str_other
  entity_dflt relationship_dflt exec io).
Abbreviation replace := (replace_document_extraction uuid_str parse_uuid isoformat fromisoformat str_other
  entity_dflt relationship_dflt exec leaves fetch io exn_name true vector_in_txn clock snapshot_id).
Abbreviation plan_of a olds oldrs := (compute_plan uuid_str parse_uuid isoformat (ag_ns a) (ag_old a)
  (ag_new a) clock clock snapshot_id (ag_entities a) (ag_relationships a) olds oldrs).

(** The relational side of a committed replacement. *)
Definition committed (a : ReplaceArgs) (now : Z) (w w' : World G) : Prop :=
  w_docs w' = committed_docs a now (w_docs w) /\ w_chunks w' = replace_chunks a (w_chunks w).

Lemma transaction_spec a now w r w' :
  pg_transaction io vector_in_txn a now w = (r, w') ->
  w_graph w' = w_graph w /\
  match r with
  | Ok _ => committed a now w w'
  | Err _ => w_docs w' = w_docs w /\ (vector_in_txn = true -> w' = w)
  end.
Proof.
  unfold pg_transaction, committed. intros H.
  destruct vector_in_txn; repeat (case_match; simplify_eq/=; try done).
Qed.

(** Writing to the objects of the plan does not change what the phase does to the graph. *)
Definition blind {A} (m : M (G := G * objects) A) (m0 : M (G := G) A) : Prop :=
  forall g o, m0 g = ((m (g, o)).1, (m (g, o)).2.1).

Lemma blind_ret {A} (a : A) : blind (m_ret a) (m_ret a).
Proof. done. Qed.

Lemma blind_bind {A B} (m : M A) m0 (f : A -> M B) f0 :
  blind m m0 -> (forall a, blind (f a) (f0 a)) -> blind (m_bind m f) (m_bind m0 f0).
Proof.
  intros Hm Hf g o. unfold m_bind. rewrite (Hm g o). destruct (m (g, o)) as [[a|e] [g' o']]; [apply Hf|done].
Qed.

Lemma blind_call c v : blind (call_if (exec_in_place exec leaves) c v) (call_if exec c v).
Proof.
  intros g [es rs]. destruct c; [|done]. unfold call_if, exec_in_place. by destruct (exec v g) as [r g'].
Qed.

Lemma graph_phase_in_place p ns : blind (graph_phase (exec_in_place exec leaves) p ns) (graph_phase exec p ns).
Proof.
  unfold graph_phase. do 7 (apply blind_bind; [apply blind_call|intros ?]). apply blind_ret.
Qed.

(** The objects stay in a set that the calls keep. *)
Definition stays {A} (P : objects -> Prop) (m : M (G := G * objects) A) : Prop :=
  forall s, P s.2 -> P (m s).2.2.

Lemma stays_bind {A B} P (m : M A) (f : A -> M B) : stays P m -> (forall a, stays P (f a)) -> stays P (m_bind m f).
Proof.
  intros Hm Hf s Hs. unfold m_bind. specialize (Hm s Hs). destruct (m s) as [[a|e] s']; [by apply Hf|done].
Qed.

Lemma stays_call (P : objects -> Prop) c v :
  (forall g es rs, P (es, rs) ->
     P (match v with
        | UpsertEntities _ _ => (leaves v g, rs) | CreateRelationships _ => (es, leaves v g) | _ => (es, rs) end)) ->
  stays P (call_if (exec_in_place exec leaves) c v).
Proof.
  intros H0 [g [es rs]] Hs. destruct c; [|done]. unfold call_if, exec_in_place. specialize (H0 g es rs Hs).
  by destruct (exec v g) as [r g'].
Qed.

(** The objects a phase leaves: as they were, or as the call that was handed them left them. *)
Lemma graph_phase_leaves p ns g :
  let o := (graph_phase (exec_in_place exec leaves) p ns (g, objects_of p)).2.2 in
  (o.1 = gp_net_new_entities p \/ exists g1, o.1 = leaves (UpsertEntities ns (gp_net_new_entities p)) g1) /\
  (o.2 = gp_net_new_relationships p \/ exists g1, o.2 = leaves (CreateRelationships (gp_net_new_relationships p)) g1).
Proof.
  set (P := fun o : objects =>
    (o.1 = gp_net_new_entities p \/ exists g1, o.1 = leaves (UpsertEntities ns (gp_net_new_entities p)) g1) /\
    (o.2 = gp_net_new_relationships p \/ exists g1, o.2 = leaves (CreateRelationships (gp_net_new_relationships p)) g1)).
  enough (H : stays P (graph_phase (exec_in_place exec leaves) p ns)) by (apply H; split; by left).
  unfold graph_phase.
  do 7 (apply stays_bind; [apply stays_call; intros ? es rs [H1 H2]; split; cbn [fst snd]; eauto|intros ?]).
  by intros s Hs.
Qed.

(** C27.  Every replacement ends in one of three documented states, told apart by its
    outcome, after the drain has run.  A plain failure leaves the document table as it
    was - and, when the vector store takes part in the transaction, the whole database.  A
    result means that the transaction committed and the graph phase completed.  A mirror
    failure means that the transaction committed - the row is COMPLETED with its counts,
    the chunks are replaced - and that the graph phase raised: the row then carries the
    payload of the plan exactly when the error says it was persisted, with its new entities
    and relationships as the phase left them - the stores write stored ids and types into the
    objects they are handed - and its retirements, remaps and strips as computed. *)
Theorem replacement_outcomes a now w o w' degs w1 :
  replace a now w = (o, w') -> reconcile (ag_ns a) now 50 w = (degs, w1) ->
  match o with
  | Failed _ => w_docs w' = w_docs w1 /\ w_graph w' = w_graph w1 /\ (vector_in_txn = true -> w' = w1)
  | Replaced r =>
      rs_degradations r = degs /\ committed a now w1 w' /\
      exists olds oldrs p n, fetch (ag_old a) (ag_ns a) (w_graph w1) = Ok (olds, oldrs) /\
        plan_of a olds oldrs = Ok p /\
        graph_phase exec p (ag_ns a) (w_graph w1) = (Ok n, w_graph w')
  | MirrorFailed cause pending degs' =>
      degs' = degs /\ w_chunks w' = replace_chunks a (w_chunks w1) /\
      exists olds oldrs p, fetch (ag_old a) (ag_ns a) (w_graph w1) = Ok (olds, oldrs) /\
        plan_of a olds oldrs = Ok p /\
        graph_phase exec p (ag_ns a) (w_graph w1) = (Err cause, w_graph w') /\
        exists objs, graph_phase (exec_in_place exec leaves) p (ag_ns a) (w_graph w1, objects_of p) =
          (Err cause, (w_graph w', objs)) /\
        (objs.1 = gp_net_new_entities p \/
         exists g, objs.1 = leaves (UpsertEntities (ag_ns a) (gp_net_new_entities p)) g) /\
        (objs.2 = gp_net_new_relationships p \/
         exists g, objs.2 = leaves (CreateRelationships (gp_net_new_relationships p)) g) /\
        forall d, w_docs w1 !! ag_new a = Some d -> dr_ns d = ag_ns a ->
          exists d', w_docs w' !! ag_new a = Some d' /\ dr_ns d' = ag_ns a /\
            dr_status d' = "completed" /\ dr_chunk_count d' = length (ag_chunks a) /\
            dr_entity_count d' = length (ag_entities a) /\
            dr_marker d' = if pending
              then Some (build_replace_mirror_payload uuid_str isoformat (with_objects p objs) clock (exn_name cause))
              else None
  end.
Proof.
  unfold replace_document_extraction. cbn [negb]. intros H Hd. rewrite Hd in H.
  destruct (fetch _ _ _) as [[olds oldrs]|] eqn:Ef; [|by injection H as <- <-].
  destruct (plan_of a olds oldrs) as [p|] eqn:Ep; [|by injection H as <- <-].
  destruct (pg_transaction _ _ _ _ _) as [r w2] eqn:Et. apply transaction_spec in Et as [Hg Ht].
  destruct r as [deleted|e]; [|injection H as <- <-; destruct Ht; done]. rewrite Hg in H.
  pose proof (graph_phase_in_place p (ag_ns a) (w_graph w1) (objects_of p)) as Hp.
  pose proof (graph_phase_leaves p (ag_ns a) (w_graph w1)) as Hleft. cbv zeta in Hleft.
  destruct (graph_phase _ _ _ _) as [[[[[n1 n2] n3] n4]|cause] [g objs]] eqn:Eg; destruct Ht as [Hdocs Hch].
  - injection H as <- <-. simpl. split_and!; [done|split; done|]. by exists olds, oldrs, p, (n1, n2, n3, n4).
  - destruct (io PersistMarker) as [pe|] eqn:Eio.
    + injection H as <- <-. simpl. split_and!; [done|done|]. exists olds, oldrs, p. split_and!; [done..|]. exists objs. cbn in Hleft. split_and!; [done|apply Hleft..|].
      intros d Hrow Hns. rewrite Hdocs. unfold committed_docs, partial_update. rewrite Hrow.
      rewrite !lookup_insert_eq. simpl. rewrite Hns, Z.eqb_refl. simpl. rewrite lookup_insert_eq.
      eexists. split_and!; done.
    + unfold partial_update in H. simpl in H.
      destruct (w_docs w2 !! ag_new a) as [d2|] eqn:Ed2;
        [destruct (Z.eqb_spec (dr_ns d2) (ag_ns a)) as [Hns2|]|]; injection H as <- <-; simpl;
        (split_and!; [done|done|]); exists olds, oldrs, p; (split_and!; [done..|]); exists objs; cbn in Hleft; (split_and!; [done|apply Hleft..|]); intros d Hrow Hns;
        rewrite Hdocs in Ed2; unfold committed_docs, partial_update in Ed2; rewrite Hrow in Ed2;
        rewrite !lookup_insert_eq in Ed2; simpl in Ed2; rewrite Hns, Z.eqb_refl in Ed2;
        simpl in Ed2; rewrite lookup_insert_eq in Ed2; simplify_eq/=; try done.
      rewrite lookup_insert_eq. eexists. split_and!; done.
Qed.

(** ** Recovery *)

Definition plan_wf (p : GraphPlan) : Prop :=
  Forall (entity_wf new_id new_ns ctor_now) (gp_net_new_entities p) /\
  Forall (relationship_wf new_id new_ns new_src new_tgt ctor_now) (gp_net_new_relationships p).

Context (uuid_law : forall u, parse_uuid (uuid_str u) = Some u).
Context (iso_law : forall d, fromisoformat (isoformat d) = Some d).

(** The document table once the drained markers are cleared. *)
Definition cleared (ns now : Z) (docs : gmap Z DocRow) (ids : list Z) : gmap Z DocRow :=
  fold_left (fun docs id => (partial_update docs id ns now None).2) ids docs.

(** The graph after the phases of some plans, in order. *)
Definition phases (ns : Z) (ps : list GraphPlan) (g : G) : G :=
  fold_left (fun g p => (graph_phase exec p ns g).2) ps g.

(** Recovery.  Once the graph and the database answer again, draining pending markers
    replays, oldest first, exactly the graph phases of the plans they were built from,
    clears every marker it replayed, touches no chunk and reports no degradation. *)
Theorem drain_recovers ns now w pending plans :
  Forall2 (fun dp p => plan_wf p /\ exists at_ exc, dp.2 = build_replace_mirror_payload uuid_str isoformat p at_ exc)
    pending plans ->
  (forall p g, p ∈ plans -> is_ok (graph_phase exec p ns g).1 = true) ->
  (forall id, io (ClearReplayed id) = None) ->
  drain pending ns now w =
  ([], MkWorld (cleared ns now (w_docs w) (List.map fst pending)) (w_chunks w) (phases ns plans (w_graph w))).
Proof.
  intros Hp Hok Hio. revert w. induction Hp as [|[id payload] p pending plans [[He Hr] (t & exc & Hpay)] _ IH];
    intros w; [by destruct w|]. simpl in Hpay. subst payload.
  cbn [ReplaceDocument.drain]. cbn [nonempty negb]. change (negb (nonempty (build_replace_mirror_payload uuid_str isoformat p t exc))) with false. cbn iota.
  rewrite (replay_equals_phase uuid_str parse_uuid isoformat fromisoformat str_other uuid_law iso_law
    new_id new_ns new_src new_tgt ctor_now exec p ns t exc (w_graph w) He Hr).
  specialize (Hok p (w_graph w) ltac:(left)) as Hp.
  destruct (graph_phase exec p ns (w_graph w)) as [[n|] g] eqn:Eg; [|done]. simpl. rewrite Hio.
  rewrite IH by (intros; apply Hok; by right). simpl. unfold phases. simpl. by rewrite Eg.
Qed.
End coordinator.

(** ** Witnesses *)

Definition sample_olds : list EntityRecord :=
  [MkEntityRecord (Some (enc_str 2%Z)) (enc_str 11%Z) "Acme" "CONCEPT" 1;
   MkEntityRecord (Some (enc_str 2%Z)) (enc_str 12%Z) "Bolt" "CONCEPT" 1;
   MkEntityRecord (Some (enc_str 2%Z)) (enc_str 13%Z) "Cog" "CONCEPT" 2].

(** "Acme" is extracted again, "Bolt" only this document sources, "Cog" another one too. *)
Lemma plan_partitions_witness :
  exists p, compute_plan enc_str dec_str enc_str 2 7 8 (dt_utc 1) (dt_utc 1) (fun s => s)
      [sample_entity] [] sample_olds [] = Ok p /\
    parsed dec_str (List.map er_id (entities_of enc_str 2 [sample_entity] Strip sample_olds)) (gp_entity_strip p) /\
    gp_entity_strip p = [13%Z] /\ length (gp_entity_retirement p) = 1 /\ length (gp_entity_remap p) = 1.
Proof.
  eexists. split; [vm_compute; reflexivity|]. split; [|vm_compute; done].
  refine (proj1 (proj2 (proj2 (proj2 (proj2 (plan_partitions enc_str dec_str enc_str 2 7 8 (dt_utc 1) (dt_utc 1)
    (fun s => s) [sample_entity] [] sample_olds [] _ _)))))). vm_compute. reflexivity.
Defined.

Definition sample_args : ReplaceArgs := MkReplaceArgs 2 7 7 [21; 22]%Z [sample_entity] [].

Definition sample_world : World (list verb) :=
  MkWorld {[7%Z := MkDocRow 2 "completed" 1 1 0 0 None]} {[7%Z := [20%Z]]} [].

(** A relationship of "Acme", extracted with it. *)
Definition sample_relationship : pyobj :=
  construct (relationship_defaults 3 2 1 9 (dt_utc 5)) [("relationship_type", FVal (VStr "works at"))].

Definition renewed_args : ReplaceArgs := MkReplaceArgs 2 7 7 [21; 22]%Z [sample_entity] [sample_relationship].

(** A graph that records its calls and refuses to create relationships; it holds an "Acme". *)
Definition edgeless (v : verb) (log : list verb) : result answer * list verb :=
  match v with
  | CreateRelationships _ => (Err (OtherError "down"), log ++ [v])
  | _ => (Ok (MkAnswer 1 0), log ++ [v])
  end.

Definition edgeless_leaves : verb -> list verb -> list pyobj :=
  remote_leaves (fun _ name _ => if String.eqb name "Acme" then Some 40%Z else None) (fun _ _ => None).

(** The upsert finds the stored "Acme", the create fails: the mirror fails, and the marker is
    queued. *)
Definition sample_outcome : outcome * World (list verb) :=
  replace_document_extraction enc_str dec_str enc_str dec_str (fun _ => "")
    (entity_defaults 0 0 (dt_utc 0)) (relationship_defaults 0 0 0 0 (dt_utc 0)) edgeless edgeless_leaves
    (fun _ _ _ => Ok ([], [])) (fun _ => None) (fun _ => "ServiceUnavailable")
    true true (dt_utc 1) (fun s => s) renewed_args 9 sample_world.

(** The queued entity has the stored id, the queued relationship the sanitized type - and
    still the endpoint it was extracted with. *)
Lemma replacement_outcomes_witness :
  fst sample_outcome = MirrorFailed (OtherError "down") true [] /\
  w_chunks (snd sample_outcome) = replace_chunks renewed_args (w_chunks sample_world) /\
  exists p objs row, gp_net_new_entities p = [sample_entity] /\
    w_docs (snd sample_outcome) !! 7%Z = Some row /\
    dr_marker row = Some (build_replace_mirror_payload enc_str enc_str (with_objects p objs) (dt_utc 1) "ServiceUnavailable") /\
    List.map (fun e => attr e "id") objs.1 = [FUuid 40] /\
    List.map (fun r => (attr r "relationship_type", attr r "source_entity_id")) objs.2 = [(FVal (VStr "WORKS_AT"), FUuid 1)].
Proof.
  split; [vm_compute; reflexivity|].
  assert (Hout : sample_outcome = (MirrorFailed (OtherError "down") true [], snd sample_outcome)) by (vm_compute; reflexivity).
  destruct (replacement_outcomes enc_str dec_str enc_str dec_str (fun _ => "")
    0 0 0 0 (dt_utc 0) edgeless edgeless_leaves (fun _ _ _ => Ok ([], [])) (fun _ => None)
    (fun _ => "ServiceUnavailable") true (dt_utc 1) (fun s => s) renewed_args 9 sample_world
    (MirrorFailed (OtherError "down") true []) (snd sample_outcome) [] sample_world Hout eq_refl)
    as (_ & Hch & olds & oldrs & p & Hf & Hp & _ & objs & Hg & _ & _ & Hrow).
  split; [exact Hch|]. injection Hf as <- <-.
  assert (Hnew : gp_net_new_entities p = [sample_entity]) by (vm_compute in Hp; by injection Hp as <-).
  destruct (Hrow (MkDocRow 2 "completed" 1 1 0 0 None) eq_refl eq_refl) as (row & Hr & _ & _ & _ & _ & Hm).
  exists p, objs, row. split; [exact Hnew|]. split; [exact Hr|]. split; [exact Hm|].
  vm_compute in Hp. injection Hp as <-. vm_compute in Hg. injection Hg as <-. split; reflexivity.
Defined.

(** A new extraction of one relationship: the old one is retired though it is extracted
    again. *)
Lemma fresh_endpoints_retire_all_witness :
  exists p, compute_plan enc_str dec_str enc_str 2 7 7 (dt_utc 1) (dt_utc 1) (fun s => s)
      [sample_entity] [sample_relationship] [MkEntityRecord (Some (enc_str 2%Z)) (enc_str 11%Z) "Acme" "CONCEPT" 1]
      [MkRelRecord (enc_str 5%Z) (enc_str 11%Z) (enc_str 12%Z) "WORKS_AT" 1] = Ok p /\
    List.map rr_relationship_id (gp_relationship_retirement p) = [5%Z] /\
    gp_relationship_remap p = [] /\ gp_net_new_relationships p = [sample_relationship].
Proof.
  eexists. split; [vm_compute; reflexivity|]. split; [reflexivity|].
  refine ((fun H => conj (proj1 H) (proj1 (proj2 H))) (fresh_endpoints_retire_all enc_str dec_str enc_str 2 7 7 (dt_utc 1) (dt_utc 1) (fun s => s)
    [sample_entity] [sample_relationship] [MkEntityRecord (Some (enc_str 2%Z)) (enc_str 11%Z) "Acme" "CONCEPT" 1]
      [MkRelRecord (enc_str 5%Z) (enc_str 11%Z) (enc_str 12%Z) "WORKS_AT" 1] _ _ _)).
  - vm_compute. reflexivity.
  - intros r rec s ->%list_elem_of_singleton ->%list_elem_of_singleton [= <-]. reflexivity.
Defined.

(** A graph that accepts everything. *)
Definition accepting (v : verb) (log : list verb) : result answer * list verb :=
  (Ok (MkAnswer 1 1), log ++ [v]).

Lemma accepting_ok p ns g : is_ok (graph_phase accepting p ns g).1 = true.
Proof.
  unfold graph_phase, m_bind, call_if, accepting, m_ret.
  by repeat match goal with |- context [if ?b then _ else _] => destruct b end.
Qed.

Lemma drain_recovers_witness :
  drain enc_str dec_str dec_str (fun _ => "") (entity_defaults 0 0 (dt_utc 0))
    (relationship_defaults 0 0 0 0 (dt_utc 0)) accepting (fun _ => None)
    [(7%Z, build_replace_mirror_payload enc_str enc_str sample_plan (dt_utc 8) "Boom")] 2 9 sample_world =
  ([], MkWorld (cleared 2 9 (w_docs sample_world) [7%Z]) (w_chunks sample_world)
         (phases accepting 2 [sample_plan] [])).
Proof.
  refine (drain_recovers enc_str dec_str enc_str dec_str (fun _ => "") 0 0 0 0 (dt_utc 0)
    accepting (fun _ => None) dec_enc_str dec_enc_str 2 9 sample_world
    [(7%Z, build_replace_mirror_payload enc_str enc_str sample_plan (dt_utc 8) "Boom")] [sample_plan] _ _ _).
  - constructor; [|constructor]. split; [|by exists (dt_utc 8), "Boom"]. split; [|constructor].
    constructor; [|constructor]. split; [split; [reflexivity|repeat constructor]|vm_compute; reflexivity].
  - intros. apply accepting_ok.
  - done.
Defined.
