(* ===== verification/ForgetCascade.v ===== *)
(** * The forget cascade ([engines/_forget_cascade.py]) and the stores it drives

    Forgetting a document must clean up what was extracted from it.  The cascade lists the
    entities and relationships of the namespace in one store, the primary; those citing the
    document alone are deleted, those citing others too lose the citation, and the same ids
    are handled in the other store, the mirror.  This file models the cascade over the
    methods a store exposes, and three stores of the repository: pgvector, Neo4j, and
    sqlite_lance with the per-record defaults of [GraphBackendBase].  Each call to a store
    is one transaction and may fail; failures come from a schedule, so every interruption of
    a run is a run. *)
From S2P Require Import Prelude PyValue FilterExecute.

(** ** Rows and tables *)

(** The columns of an entity the cascade depends on.  A NULL [source_document_ids] is
    [None]; times are in microseconds. *)
Record EntityRow := MkEntityRow {
  e_namespace_id : Z;
  e_sources : option (list Z);
  e_valid_until : option Z;
}.

(** A relationship; an endpoint without an id (possible in Neo4j only) is [None]. *)
Record RelationshipRow := MkRelationshipRow {
  r_namespace_id : Z;
  r_source_id : option Z;
  r_target_id : option Z;
  r_sources : option (list Z);
  r_valid_until : option Z;
  r_valid_to : option Z;
  r_invalidated_at : option Z;
}.

Record Store := MkStore {
  st_entities : gmap Z EntityRow;
  st_relationships : gmap Z RelationshipRow;
}.

(** [x or []] *)
Definition sources_of (s : option (list Z)) : list Z := default [] s.

(** [d in l] *)
Definition cites (doc : Z) (l : list Z) : bool := existsb (Z.eqb doc) l.

(** [[d for d in l if d != doc]] *)
Definition without (doc : Z) (l : list Z) : list Z := List.filter (fun d => negb (Z.eqb d doc)) l.

Definition set_entity_sources (e : EntityRow) (s : option (list Z)) : EntityRow :=
  MkEntityRow (e_namespace_id e) s (e_valid_until e).

Definition set_relationship_sources (r : RelationshipRow) (s : option (list Z)) : RelationshipRow :=
  MkRelationshipRow (r_namespace_id r) (r_source_id r) (r_target_id r) s
    (r_valid_until r) (r_valid_to r) (r_invalidated_at r).

(** ** Statements on one table *)

Section table.
Context {R : Type}.

(** The rows of a table satisfying a condition, in the order of the map. *)
Definition select (p : Z -> R -> bool) (t : gmap Z R) : list (Z * R) :=
  List.filter (fun '(i, r) => p i r) (map_to_list t).

(** [DELETE ... WHERE p] *)
Definition delete_where (p : Z -> R -> bool) (t : gmap Z R) : gmap Z R :=
  map_imap (fun i r => if p i r then None else Some r) t.

(** [UPDATE ... SET row = f(row) WHERE p] *)
Definition update_where (p : Z -> R -> bool) (f : R -> R) (t : gmap Z R) : gmap Z R :=
  map_imap (fun i r => Some (if p i r then f r else r)) t.

(** The number of rows satisfying a condition. *)
Definition count_where (p : Z -> R -> bool) (t : gmap Z R) : nat := length (select p t).
End table.

Definition mem_id (i : Z) (ids : list Z) : bool := existsb (Z.eqb i) ids.

(** [WHERE id IN ids AND namespace_id = ns] *)
Definition entity_in (ids : list Z) (ns i : Z) (e : EntityRow) : bool :=
  mem_id i ids && Z.eqb (e_namespace_id e) ns.
Definition relationship_in (ids : list Z) (ns i : Z) (r : RelationshipRow) : bool :=
  mem_id i ids && Z.eqb (r_namespace_id r) ns.

(** One of the endpoints is among the ids for which [gone] holds. *)
Definition incident (gone : Z -> bool) (r : RelationshipRow) : bool :=
  match r_source_id r with Some i => gone i | None => false end
  || match r_target_id r with Some i => gone i | None => false end.

(** [valid_until IS NULL OR valid_until > now] *)
Definition window_open (now : Z) (until : option Z) : bool :=
  match until with None => true | Some t => Z.ltb now t end.

(** [_entity_live_filter], [_relationship_live_filter]: what every listing hides. *)
Definition _entity_live_filter (now : Z) (e : EntityRow) : bool := window_open now (e_valid_until e).
Definition _relationship_live_filter (now : Z) (r : RelationshipRow) : bool :=
  bool_decide (r_valid_to r = None) && bool_decide (r_invalidated_at r = None)
  && window_open now (r_valid_until r).

(** ** Running against two stores that may fail *)

Inductive side := Vector | Graph.

(** The two stores, and for each coming call whether it fails. *)
Record World := MkWorld { w_vector : Store; w_graph : Store; w_faults : list bool }.

Definition store_of (sd : side) (w : World) : Store :=
  match sd with Vector => w_vector w | Graph => w_graph w end.

Definition set_store (sd : side) (s : Store) (w : World) : World :=
  match sd with
  | Vector => MkWorld s (w_graph w) (w_faults w)
  | Graph => MkWorld (w_vector w) s (w_faults w)
  end.

Definition M (A : Type) : Type := World -> result A * World.

#[export] Instance M_ret : MRet M := fun A a w => (Ok a, w).
#[export] Instance M_bind : MBind M :=
  fun A B f m w => match m w with (Ok a, w') => f a w' | (Err e, w') => (Err e, w') end.

Definition raise {A} (e : pyexn) : M A := fun w => (Err e, w).

(** One transaction against a store. *)
Definition call {A} (sd : side) (f : Store -> A * Store) : M A := fun w =>
  match w_faults w with
  | true :: fs => (Err (OtherError "StoreError"), MkWorld (w_vector w) (w_graph w) fs)
  | fs =>
      let '(a, s) := f (store_of sd w) in
      (Ok a, set_store sd s (MkWorld (w_vector w) (w_graph w) (List.tl fs)))
  end.

(** [if c: m] *)
Definition when (c : bool) (m : M ()) : M () := if c then m else mret ().

(** [for x in l: n += f(x)] *)
Fixpoint count_m (f : Z -> M bool) (l : list Z) : M nat :=
  match l with
  | [] => mret 0%nat
  | x :: l' => b ← f x; n ← count_m f l'; mret (Nat.b2n b + n)%nat
  end.

(** ** The methods of a store

    [getattr(store, name, None)] is a field; it is [None] when the store has no such
    method. *)
Record StoreApi := MkStoreApi {
  list_entities : option (Z -> nat -> M (list (Z * EntityRow)));
  list_relationships : option (Z -> nat -> M (list (Z * RelationshipRow)));
  delete_entities_batch : option (list Z -> Z -> M nat);
  delete_relationships_batch : option (list Z -> Z -> M nat);
  remove_document_from_entity_sources_batch : option (list Z -> Z -> Z -> M nat);
  remove_document_from_entity_sources : option (list Z -> Z -> M nat);
  strip_document_from_entities : option (list Z -> Z -> Z -> M nat);
  remove_document_from_relationship_sources_batch : option (list Z -> Z -> Z -> M nat);
  remove_document_from_relationship_sources : option (list Z -> Z -> M nat);
  strip_document_from_relationships : option (list Z -> Z -> Z -> M nat);
  delete_malformed_orphan_relationships : option (Z -> Z -> M nat);
}.

(** ** The stores

    [order_entities] and [order_relationships] are the databases' [ORDER BY] on a column
    the model leaves out; [now] is the time of the listing. *)
Section stores.
Context (order_entities : list (Z * EntityRow) -> list (Z * EntityRow)).
Context (order_relationships : list (Z * RelationshipRow) -> list (Z * RelationshipRow)).
Context (now : Z).

(** *** pgvector *)

Definition pg_list_entities (ns : Z) (limit : nat) (s : Store) : list (Z * EntityRow) :=
  take limit (order_entities
    (select (fun _ e => Z.eqb (e_namespace_id e) ns && _entity_live_filter now e) (st_entities s))).

Definition pg_list_relationships (ns : Z) (limit : nat) (s : Store) : list (Z * RelationshipRow) :=
  take limit (order_relationships
    (select (fun _ r => Z.eqb (r_namespace_id r) ns && _relationship_live_filter now r)
       (st_relationships s))).

(** The ids among [ids] of rows of the namespace. *)
Definition owned (ids : list Z) (ns : Z) (t : gmap Z EntityRow) (i : Z) : bool :=
  match t !! i with Some e => entity_in ids ns i e | None => false end.

(** The foreign keys of [relationships] cascade. *)
Definition pg_delete_entities (ids : list Z) (ns : Z) (s : Store) : nat * Store :=
  (count_where (entity_in ids ns) (st_entities s),
   MkStore (delete_where (entity_in ids ns) (st_entities s))
     (delete_where (fun _ r => incident (owned ids ns (st_entities s)) r) (st_relationships s))).

Definition pg_delete_relationships (ids : list Z) (ns : Z) (s : Store) : nat * Store :=
  (count_where (relationship_in ids ns) (st_relationships s),
   MkStore (st_entities s) (delete_where (relationship_in ids ns) (st_relationships s))).

(** [array_remove(source_document_ids, doc)]: the update has no namespace condition. *)
Definition pg_strip_entities (ids : list Z) (doc : Z) (s : Store) : nat * Store :=
  (count_where (fun i _ => mem_id i ids) (st_entities s),
   MkStore
     (update_where (fun i _ => mem_id i ids)
        (fun e => set_entity_sources e (without doc <$> e_sources e)) (st_entities s))
     (st_relationships s)).

Definition pg_strip_relationships (ids : list Z) (doc : Z) (s : Store) : nat * Store :=
  (count_where (fun i _ => mem_id i ids) (st_relationships s),
   MkStore (st_entities s)
     (update_where (fun i _ => mem_id i ids)
        (fun r => set_relationship_sources r (without doc <$> r_sources r)) (st_relationships s))).

(** A method over a list of ids starts with [if not ids: return 0]. *)
Definition batch (sd : side) (ids : list Z) (f : Store -> nat * Store) : M nat :=
  match ids with [] => mret 0%nat | _ => call sd f end.

Definition pgvector (sd : side) : StoreApi := {|
  list_entities := Some (fun ns limit => call sd (fun s => (pg_list_entities ns limit s, s)));
  list_relationships :=
    Some (fun ns limit => call sd (fun s => (pg_list_relationships ns limit s, s)));
  delete_entities_batch := Some (fun ids ns => batch sd ids (pg_delete_entities ids ns));
  delete_relationships_batch := Some (fun ids ns => batch sd ids (pg_delete_relationships ids ns));
  remove_document_from_entity_sources_batch := None;
  remove_document_from_entity_sources :=
    Some (fun ids doc => batch sd ids (pg_strip_entities ids doc));
  strip_document_from_entities := None;
  remove_document_from_relationship_sources_batch := None;
  remove_document_from_relationship_sources :=
    Some (fun ids doc => batch sd ids (pg_strip_relationships ids doc));
  strip_document_from_relationships := None;
  delete_malformed_orphan_relationships := None;
|}.

(** *** [GraphBackendBase] over the primitives of sqlite_lance *)

Definition get_entity (i ns : Z) (s : Store) : option EntityRow :=
  match st_entities s !! i with
  | Some e => if Z.eqb (e_namespace_id e) ns then Some e else None
  | None => None
  end.

(** [UPDATE entities SET ... WHERE id = ? AND namespace_id = ?] of a row read before. *)
Definition update_entity (i : Z) (e : EntityRow) (ns : Z) (s : Store) : unit * Store :=
  ((), MkStore (update_where (entity_in [i] ns) (fun _ => e) (st_entities s)) (st_relationships s)).

(** Edges of the namespace are deleted first, whether or not the entity is there; with the
    entity's row the foreign keys take its edges in any namespace. *)
Definition delete_entity (i ns : Z) (s : Store) : bool * Store :=
  let found := owned [i] ns (st_entities s) i in
  (found,
   MkStore (delete_where (entity_in [i] ns) (st_entities s))
     (delete_where (fun _ r => (Z.eqb (r_namespace_id r) ns || found) && incident (Z.eqb i) r)
        (st_relationships s))).

Definition get_relationship (i ns : Z) (s : Store) : option RelationshipRow :=
  match st_relationships s !! i with
  | Some r => if Z.eqb (r_namespace_id r) ns then Some r else None
  | None => None
  end.

Definition delete_relationship (i ns : Z) (s : Store) : bool * Store :=
  (match get_relationship i ns s with Some _ => true | None => false end,
   MkStore (st_entities s) (delete_where (relationship_in [i] ns) (st_relationships s))).

(** The upsert: an existing row keeps its sources; the two tombstone columns are not
    inserted. *)
Definition create_relationship (i : Z) (r : RelationshipRow) (s : Store) : unit * Store :=
  ((), MkStore (st_entities s)
     (<[i := match st_relationships s !! i with
             | Some old =>
                 MkRelationshipRow (r_namespace_id old) (r_source_id old) (r_target_id old)
                   (r_sources old) (r_valid_until r) (r_valid_to old) (r_invalidated_at old)
             | None =>
                 MkRelationshipRow (r_namespace_id r) (r_source_id r) (r_target_id r)
                   (r_sources r) (r_valid_until r) None None
             end]> (st_relationships s))).

Definition base_delete_entities_batch (sd : side) (ids : list Z) (ns : Z) : M nat :=
  count_m (fun i => call sd (delete_entity i ns)) ids.

Definition base_delete_relationships_batch (sd : side) (ids : list Z) (ns : Z) : M nat :=
  count_m (fun i => call sd (delete_relationship i ns)) ids.

Definition base_strip_document_from_entities (sd : side) (ids : list Z) (doc ns : Z) : M nat :=
  count_m (fun i =>
    entity ← call sd (fun s => (get_entity i ns s, s));
    match entity with
    | None => mret false
    | Some e =>
        if cites doc (sources_of (e_sources e)) then
          _ ← call sd (update_entity i
                (set_entity_sources e (Some (without doc (sources_of (e_sources e))))) ns);
          mret true
        else mret false
    end) ids.

Definition base_strip_document_from_relationships (sd : side) (ids : list Z) (doc ns : Z) : M nat :=
  count_m (fun i =>
    rel ← call sd (fun s => (get_relationship i ns s, s));
    match rel with
    | None => mret false
    | Some r =>
        if cites doc (sources_of (r_sources r)) then
          _ ← call sd (delete_relationship i ns);
          _ ← call sd (create_relationship i
                (set_relationship_sources r (Some (without doc (sources_of (r_sources r))))));
          mret true
        else mret false
    end) ids.

(** The listings of sqlite_lance have the conditions of pgvector's. *)
Definition sqlite_lance (sd : side) : StoreApi := {|
  list_entities := Some (fun ns limit => call sd (fun s => (pg_list_entities ns limit s, s)));
  list_relationships :=
    Some (fun ns limit => call sd (fun s => (pg_list_relationships ns limit s, s)));
  delete_entities_batch := Some (base_delete_entities_batch sd);
  delete_relationships_batch := Some (base_delete_relationships_batch sd);
  remove_document_from_entity_sources_batch := None;
  remove_document_from_entity_sources := None;
  strip_document_from_entities := Some (base_strip_document_from_entities sd);
  remove_document_from_relationship_sources_batch := None;
  remove_document_from_relationship_sources := None;
  strip_document_from_relationships := Some (base_strip_document_from_relationships sd);
  delete_malformed_orphan_relationships := None;
|}.

(** *** Neo4j *)

(** The endpoint is an entity node of the namespace.  A node without an id is one. *)
Definition endpoint_in (ns : Z) (t : gmap Z EntityRow) (i : option Z) : bool :=
  match i with
  | None => true
  | Some i => match t !! i with Some e => Z.eqb (e_namespace_id e) ns | None => false end
  end.

Definition malformed (r : RelationshipRow) : bool :=
  bool_decide (r_source_id r = None) || bool_decide (r_target_id r = None).

(** Rows that [_record_to_relationship] cannot read are dropped after the limit; an edge is
    hidden by [valid_until] alone. *)
Definition neo4j_list_relationships (ns : Z) (limit : nat) (s : Store) : list (Z * RelationshipRow) :=
  List.filter (fun '(_, r) => negb (malformed r))
    (take limit (order_relationships
      (select (fun _ r =>
         Z.eqb (r_namespace_id r) ns && window_open now (r_valid_until r)
         && endpoint_in ns (st_entities s) (r_source_id r)
         && endpoint_in ns (st_entities s) (r_target_id r)) (st_relationships s)))).

Definition neo4j_strip_entities (ids : list Z) (doc ns : Z) (s : Store) : nat * Store :=
  (count_where (entity_in ids ns) (st_entities s),
   MkStore
     (update_where (entity_in ids ns)
        (fun e => set_entity_sources e (Some (without doc (sources_of (e_sources e)))))
        (st_entities s))
     (st_relationships s)).

Definition neo4j_strip_relationships (ids : list Z) (doc ns : Z) (s : Store) : nat * Store :=
  (count_where (relationship_in ids ns) (st_relationships s),
   MkStore (st_entities s)
     (update_where (relationship_in ids ns)
        (fun r => set_relationship_sources r (Some (without doc (sources_of (r_sources r)))))
        (st_relationships s))).

(** The edges the sweep deletes: an endpoint has no id and the document is the only source. *)
Definition sweepable (doc ns : Z) (r : RelationshipRow) : bool :=
  Z.eqb (r_namespace_id r) ns && cites doc (sources_of (r_sources r))
  && Nat.eqb (length (sources_of (r_sources r))) 1 && malformed r.

Definition neo4j_sweep (doc ns : Z) (s : Store) : nat * Store :=
  (count_where (fun _ r => sweepable doc ns r) (st_relationships s),
   MkStore (st_entities s) (delete_where (fun _ r => sweepable doc ns r) (st_relationships s))).

(** [DETACH DELETE] deletes what [pg_delete_entities] deletes; the listing of entities has
    pgvector's condition too. *)
Definition neo4j (sd : side) : StoreApi := {|
  list_entities := Some (fun ns limit => call sd (fun s => (pg_list_entities ns limit s, s)));
  list_relationships :=
    Some (fun ns limit => call sd (fun s => (neo4j_list_relationships ns limit s, s)));
  delete_entities_batch := Some (fun ids ns => batch sd ids (pg_delete_entities ids ns));
  delete_relationships_batch := Some (fun ids ns => batch sd ids (pg_delete_relationships ids ns));
  remove_document_from_entity_sources_batch :=
    Some (fun ids doc ns => batch sd ids (neo4j_strip_entities ids doc ns));
  remove_document_from_entity_sources := None;
  strip_document_from_entities := Some (base_strip_document_from_entities sd);
  remove_document_from_relationship_sources_batch :=
    Some (fun ids doc ns => batch sd ids (neo4j_strip_relationships ids doc ns));
  remove_document_from_relationship_sources := None;
  strip_document_from_relationships := Some (base_strip_document_from_relationships sd);
  delete_malformed_orphan_relationships := Some (fun doc ns => call sd (neo4j_sweep doc ns));
|}.
End stores.

(** ** The cascade *)

Definition _SCAN_LIMIT : nat := Z.to_nat 100000.

Definition _is_orphan (doc : Z) (sources : option (list Z)) : bool :=
  cites doc (sources_of sources) && Nat.eqb (length (sources_of sources)) 1.

Definition _is_survivor (doc : Z) (sources : option (list Z)) : bool :=
  cites doc (sources_of sources) && Nat.ltb 1 (length (sources_of sources)).

Definition _can_list_and_delete (store : option StoreApi) : bool :=
  match store with
  | None => false
  | Some s =>
      match list_entities s, list_relationships s, delete_entities_batch s,
            delete_relationships_batch s with
      | Some _, Some _, Some _, Some _ => true
      | _, _, _, _ => false
      end
  end.

(** [store.name(...)]: a method the store does not have raises. *)
Definition method {F A} (o : option F) (k : F -> M A) : M A :=
  match o with Some f => k f | None => raise AttributeError end.

(** [fn = getattr(store, name, None); if callable(fn): fn(...)] *)
Definition try_method {F} (store : option StoreApi) (name : StoreApi -> option F) (k : F -> M nat) : M () :=
  match store with
  | Some s => match name s with Some f => _ ← k f; mret () | None => mret () end
  | None => mret ()
  end.

Definition _delete_entities (store : option StoreApi) (ids : list Z) (ns : Z) : M () :=
  try_method store delete_entities_batch (fun f => f ids ns).

Definition _delete_relationships (store : option StoreApi) (ids : list Z) (ns : Z) : M () :=
  try_method store delete_relationships_batch (fun f => f ids ns).

Definition _strip_entities (store : option StoreApi) (ids : list Z) (doc ns : Z) : M () :=
  match store with
  | None => mret ()
  | Some s =>
      match remove_document_from_entity_sources_batch s with
      | Some f => _ ← f ids doc ns; mret ()
      | None =>
          match remove_document_from_entity_sources s with
          | Some f => _ ← f ids doc; mret ()
          | None =>
              match strip_document_from_entities s with
              | Some f => _ ← f ids doc ns; mret ()
              | None => mret ()
              end
          end
      end
  end.

Definition _strip_relationships (store : option StoreApi) (ids : list Z) (doc ns : Z) : M () :=
  match store with
  | None => mret ()
  | Some s =>
      match remove_document_from_relationship_sources_batch s with
      | Some f => _ ← f ids doc ns; mret ()
      | None =>
          match remove_document_from_relationship_sources s with
          | Some f => _ ← f ids doc; mret ()
          | None =>
              match strip_document_from_relationships s with
              | Some f => _ ← f ids doc ns; mret ()
              | None => mret ()
              end
          end
      end
  end.

Definition _sweep_malformed_orphan_relationships (store : option StoreApi) (doc ns : Z) : M nat :=
  match store with
  | Some s =>
      match delete_malformed_orphan_relationships s with
      | Some f => f doc ns
      | None => mret 0%nat
      end
  | None => mret 0%nat
  end.

Definition nonempty {A} (l : list A) : bool := match l with [] => false | _ => true end.

(** The ids of the listed rows whose sources satisfy [p]. *)
Definition ids_of {R} (sources : R -> option (list Z)) (p : option (list Z) -> bool)
    (rows : list (Z * R)) : list Z :=
  List.map fst (List.filter (fun '(_, r) => p (sources r)) rows).

(** Deletion of the orphans, then of the malformed edges. *)
Definition delete_orphans (primary : StoreApi) (mirror graph : option StoreApi) (doc ns : Z)
    (entities : list (Z * EntityRow)) (relationships : list (Z * RelationshipRow)) : M nat :=
  let orphan_ent := ids_of e_sources (_is_orphan doc) entities in
  let orphan_rel := ids_of r_sources (_is_orphan doc) relationships in
  _ ← when (nonempty orphan_ent)
        (_ ← method (delete_entities_batch primary) (fun f => f orphan_ent ns);
         _delete_entities mirror orphan_ent ns);
  _ ← when (nonempty orphan_rel)
        (_ ← method (delete_relationships_batch primary) (fun f => f orphan_rel ns);
         _delete_relationships mirror orphan_rel ns);
  if nonempty relationships then _sweep_malformed_orphan_relationships graph doc ns
  else mret 0%nat.

(** Removal of the document from the sources of the survivors. *)
Definition strip_survivors (primary : StoreApi) (mirror : option StoreApi) (doc ns : Z)
    (entities : list (Z * EntityRow)) (relationships : list (Z * RelationshipRow)) : M () :=
  let survive_ent := ids_of e_sources (_is_survivor doc) entities in
  let survive_rel := ids_of r_sources (_is_survivor doc) relationships in
  _ ← when (nonempty survive_ent)
        (_ ← _strip_entities (Some primary) survive_ent doc ns;
         _strip_entities mirror survive_ent doc ns);
  when (nonempty survive_rel)
    (_ ← _strip_relationships (Some primary) survive_rel doc ns;
     _strip_relationships mirror survive_rel doc ns).

(** The relationships are classified off the mirror when the primary lists none. *)
Definition list_for_cascade (primary : StoreApi) (mirror : option StoreApi) (ns : Z)
    : M (list (Z * RelationshipRow)) :=
  relationships ← method (list_relationships primary) (fun f => f ns _SCAN_LIMIT);
  if nonempty relationships then mret relationships
  else
    match mirror with
    | Some m =>
        match list_relationships m with
        | Some f => f ns _SCAN_LIMIT
        | None => mret relationships
        end
    | None => mret relationships
    end.

Definition cascade_on (primary : StoreApi) (mirror graph : option StoreApi) (doc ns : Z)
    : M (list Degradation) :=
  entities ← method (list_entities primary) (fun f => f ns _SCAN_LIMIT);
  relationships ← list_for_cascade primary mirror ns;
  swept ← delete_orphans primary mirror graph doc ns entities relationships;
  _ ← strip_survivors primary mirror doc ns entities relationships;
  mret (if Nat.ltb 0 swept then [MkDegradation "forget_cascade" "malformed_relationship_swept"]
        else []).

(** A store that can hold the counts. *)
Definition capable (store : option StoreApi) : option StoreApi :=
  if _can_list_and_delete store then store else None.

Definition cascade_forget_extraction (graph vector : option StoreApi) (doc ns : Z)
    : M (list Degradation) :=
  match capable vector, capable graph with
  | Some v, _ => cascade_on v graph graph doc ns
  | None, Some g => cascade_on g vector graph doc ns
  | None, None => mret [MkDegradation "forget_cascade" "no_store_with_primitives"]
  end.
