(* ===== verification/ForgetCascadeFacts.v ===== *)
(** * Facts about the forget cascade

    The three stores satisfy one interface, [Cleanup], although their primitives differ;
    the effect of a cascade that is not interrupted is proved against the interface. *)
From S2P Require Import Prelude PyValue FilterExecute ForgetCascade.

(** ** Tables *)

Section table_facts.
Context {R : Type}.
Implicit Types t : gmap Z R.

Lemma lookup_delete_where p t i :
  delete_where p t !! i = r ← t !! i; if p i r then None else Some r.
Proof. unfold delete_where. by rewrite map_lookup_imap. Qed.

Lemma lookup_update_where p f t i :
  update_where p f t !! i = (fun r => if p i r then f r else r) <$> t !! i.
Proof. unfold update_where. rewrite map_lookup_imap. by destruct (t !! i). Qed.

Lemma elem_of_selected p t i r : (i, r) ∈ select p t <-> t !! i = Some r /\ p i r = true.
Proof.
  unfold select. rewrite list_elem_of_In, filter_In, <- list_elem_of_In.
  by rewrite elem_of_map_to_list.
Qed.

Lemma length_select p t : (length (select p t) <= size t)%nat.
Proof.
  unfold select. rewrite <- (length_map_to_list t).
  induction (map_to_list t) as [|[i r] l IH]; simpl; [lia|]. destruct (p i r); simpl; lia.
Qed.

Lemma delete_where_none p t : (forall i r, t !! i = Some r -> p i r = false) -> delete_where p t = t.
Proof.
  intros H. apply map_eq. intros i. rewrite lookup_delete_where.
  destruct (t !! i) as [r|] eqn:E; simpl; [by rewrite (H _ _ E)|done].
Qed.
End table_facts.

Lemma mem_id_spec i ids : mem_id i ids = true <-> i ∈ ids.
Proof.
  unfold mem_id. rewrite existsb_exists, list_elem_of_In. split.
  - by intros (x & Hx & ->%Z.eqb_eq).
  - intros H. exists i. by rewrite Z.eqb_refl.
Qed.

Lemma mem_id_false i ids : mem_id i ids = false <-> i ∉ ids.
Proof. rewrite <- mem_id_spec. by destruct (mem_id i ids). Qed.

Lemma cites_spec doc l : cites doc l = true <-> doc ∈ l.
Proof. apply mem_id_spec. Qed.

Lemma cites_without doc l : cites doc (without doc l) = false.
Proof.
  induction l as [|d l IH]; [done|]. simpl.
  destruct (Z.eqb_spec d doc) as [->|]; simpl; [done|].
  rewrite IH. by destruct (Z.eqb_spec doc d).
Qed.

Lemma elem_of_without doc d l : d ∈ without doc l <-> d ∈ l /\ d <> doc.
Proof.
  unfold without. rewrite !list_elem_of_In, filter_In.
  by destruct (Z.eqb_spec d doc); naive_solver.
Qed.

Lemma without_id doc l : cites doc l = false -> without doc l = l.
Proof.
  induction l as [|d l IH]; simpl; [done|].
  destruct (Z.eqb_spec doc d) as [->|]; simpl; [done|].
  intros H. destruct (Z.eqb_spec d doc); [done|]. simpl. by rewrite IH.
Qed.

(** A citing list is an orphan's or a survivor's. *)
Lemma orphan_or_survivor doc s :
  cites doc (sources_of s) = true -> _is_orphan doc s = negb (_is_survivor doc s).
Proof.
  intros H. unfold _is_orphan, _is_survivor. rewrite H. simpl.
  destruct (sources_of s) as [|? [|? ?]]; done.
Qed.

Lemma orphan_sources doc s : _is_orphan doc s = true <-> sources_of s = [doc].
Proof.
  unfold _is_orphan. split.
  - intros [H1 H2]%andb_prop. destruct (sources_of s) as [|d [|? ?]]; try done.
    simpl in H1. destruct (Z.eqb_spec doc d); by subst.
  - intros ->. simpl. by rewrite Z.eqb_refl.
Qed.

Lemma shared_survivor doc d s :
  doc ∈ sources_of s -> d ∈ sources_of s -> d <> doc -> _is_survivor doc s = true.
Proof.
  intros H1 H2 Hne. unfold _is_survivor. rewrite (proj2 (cites_spec _ _) H1). simpl.
  apply Nat.ltb_lt. destruct (sources_of s) as [|a [|b l]]; simpl; [| |lia].
  - by apply elem_of_nil in H1.
  - apply list_elem_of_singleton in H1, H2. congruence.
Qed.

(** ** What each kind of call does to a store *)

(** A row after the document is removed from its sources. *)
Definition entity_stripped (doc : Z) (e e' : EntityRow) : Prop :=
  e_namespace_id e' = e_namespace_id e /\ e_valid_until e' = e_valid_until e
  /\ sources_of (e_sources e') = without doc (sources_of (e_sources e)).

Definition relationship_stripped (doc : Z) (r r' : RelationshipRow) : Prop :=
  r_namespace_id r' = r_namespace_id r /\ r_source_id r' = r_source_id r
  /\ r_target_id r' = r_target_id r /\ r_valid_until r' = r_valid_until r
  /\ sources_of (r_sources r') = without doc (sources_of (r_sources r)).

Definition entities_deleted (ids : list Z) (ns : Z) (s s' : Store) : Prop :=
  st_entities s' = delete_where (entity_in ids ns) (st_entities s)
  /\ forall i, st_relationships s' !! i = st_relationships s !! i
     \/ (st_relationships s' !! i = None
         /\ exists r, st_relationships s !! i = Some r /\ incident (fun j => mem_id j ids) r = true).

Definition relationships_deleted (ids : list Z) (ns : Z) (s s' : Store) : Prop :=
  st_entities s' = st_entities s
  /\ st_relationships s' = delete_where (relationship_in ids ns) (st_relationships s).

(** Rows of the namespace among [ids] are stripped, others are left; nothing is said
    of a row of another namespace among [ids]. *)
Definition rows_stripped {R} (ns_of : R -> Z) (stripped : R -> R -> Prop) (ids : list Z) (ns : Z)
    (t t' : gmap Z R) : Prop :=
  forall i, match t !! i with
  | None => t' !! i = None
  | Some r => exists r', t' !! i = Some r' /\ (i ∉ ids -> r' = r)
      /\ (i ∈ ids -> ns_of r = ns -> stripped r r')
  end.

Definition entities_stripped (ids : list Z) (doc ns : Z) (s s' : Store) : Prop :=
  st_relationships s' = st_relationships s
  /\ rows_stripped e_namespace_id (entity_stripped doc) ids ns (st_entities s) (st_entities s').

Definition relationships_stripped (ids : list Z) (doc ns : Z) (s s' : Store) : Prop :=
  st_entities s' = st_entities s
  /\ rows_stripped r_namespace_id (relationship_stripped doc) ids ns
       (st_relationships s) (st_relationships s').

(** ** Calls that do not fail *)

(** [m], run when no call fails, returns a value and turns store [sd] from [s] into [s']
    with [post s a s'], leaving the other store alone. *)
Definition effect {A} (sd : side) (m : M A) (post : Store -> A -> Store -> Prop) : Prop :=
  forall w, w_faults w = [] -> exists a s',
    m w = (Ok a, set_store sd s' w) /\ post (store_of sd w) a s'.

Lemma store_set_eq sd s w : store_of sd (set_store sd s w) = s.
Proof. by destruct sd. Qed.
Lemma store_set_ne sd sd' s w : sd <> sd' -> store_of sd (set_store sd' s w) = store_of sd w.
Proof. by destruct sd, sd'. Qed.
Lemma faults_set sd s w : w_faults (set_store sd s w) = w_faults w.
Proof. by destruct sd. Qed.
Lemma set_set sd s s' w : set_store sd s (set_store sd s' w) = set_store sd s w.
Proof. by destruct sd. Qed.
Lemma set_same sd w : set_store sd (store_of sd w) w = w.
Proof. by destruct sd, w. Qed.

Lemma effect_call {A} sd (f : Store -> A * Store) :
  effect sd (call sd f) (fun s a s' => f s = (a, s')).
Proof.
  intros w Hw. unfold call. rewrite Hw. destruct (f (store_of sd w)) as [a s'] eqn:E.
  exists a, s'. split; [|done]. f_equal. destruct w; simpl in *; subst. by destruct sd.
Qed.

Lemma effect_ret {A} sd (a : A) : effect sd (mret a) (fun s b s' => b = a /\ s' = s).
Proof. intros w Hw. exists a, (store_of sd w). by rewrite set_same. Qed.

Lemma effect_bind {A B} sd (m : M A) (k : A -> M B) P Q :
  effect sd m P -> (forall a, effect sd (k a) (Q a)) ->
  effect sd (m ≫= k) (fun s b s' => exists a s1, P s a s1 /\ Q a s1 b s').
Proof.
  intros Hm Hk w Hw. destruct (Hm w Hw) as (a & s1 & E1 & H1).
  destruct (Hk a (set_store sd s1 w)) as (b & s2 & E2 & H2); [by rewrite faults_set|].
  exists b, s2. split.
  - unfold mbind, M_bind. rewrite E1, E2. by rewrite set_set.
  - exists a, s1. by rewrite store_set_eq in H2.
Qed.

Lemma effect_weaken {A} sd (m : M A) (P Q : Store -> A -> Store -> Prop) :
  effect sd m P -> (forall s a s', P s a s' -> Q s a s') -> effect sd m Q.
Proof. intros Hm HPQ w Hw. destruct (Hm w Hw) as (a & s' & E & H). eauto 6. Qed.

(** A loop over ids whose body has an effect composes as a fold does. *)
Lemma effect_count sd (f : Z -> M bool) (P : list Z -> Store -> Store -> Prop) ids :
  (forall s, P [] s s) ->
  (forall i l s s1 s2, P [i] s s1 -> P l s1 s2 -> P (i :: l) s s2) ->
  (forall i, effect sd (f i) (fun s _ s' => P [i] s s')) ->
  effect sd (count_m f ids) (fun s _ s' => P ids s s').
Proof.
  intros Hnil Hcons Hf. induction ids as [|i ids IH]; simpl.
  - eapply effect_weaken; [apply effect_ret|]. by intros s a s' [-> ->].
  - eapply effect_weaken.
    { apply (effect_bind sd _ _ _ (fun _ s _ s' => P ids s s') (Hf i)). intros b.
      eapply effect_weaken.
      { apply (effect_bind sd _ _ _ (fun n s c s' => c = (Nat.b2n b + n)%nat /\ s' = s) IH).
        intros n. apply effect_ret. }
      by intros s c s' (n & s1 & H1 & _ & ->). }
    intros s c s' (b & s1 & H1 & H2). eapply Hcons; eauto.
Qed.

(** ** Composition of the effects of single ids *)

Lemma entity_in_cons i ids ns j e :
  entity_in (i :: ids) ns j e = entity_in [i] ns j e || entity_in ids ns j e.
Proof. unfold entity_in. simpl. by destruct (Z.eqb j i), (mem_id j ids), (Z.eqb (e_namespace_id e) ns). Qed.

Lemma relationship_in_cons i ids ns j r :
  relationship_in (i :: ids) ns j r = relationship_in [i] ns j r || relationship_in ids ns j r.
Proof. unfold relationship_in. simpl. by destruct (Z.eqb j i), (mem_id j ids), (Z.eqb (r_namespace_id r) ns). Qed.

Lemma delete_where_or {R} (p q pq : Z -> R -> bool) (t : gmap Z R) :
  (forall i r, pq i r = p i r || q i r) ->
  delete_where q (delete_where p t) = delete_where pq t.
Proof.
  intros H. apply map_eq. intros i. rewrite !lookup_delete_where.
  destruct (t !! i) as [r|]; simpl; [|done]. rewrite H. by destruct (p i r).
Qed.

Lemma incident_mono (p q : Z -> bool) r :
  (forall i, p i = true -> q i = true) -> incident p r = true -> incident q r = true.
Proof.
  unfold incident. intros H. destruct (r_source_id r), (r_target_id r); simpl;
    rewrite ?orb_false_r, ?orb_true_iff; naive_solver.
Qed.

Lemma entities_deleted_nil ns s : entities_deleted [] ns s s.
Proof. split; [|by left]. symmetry. by apply delete_where_none. Qed.

Lemma entities_deleted_cons ns i ids s s1 s2 :
  entities_deleted [i] ns s s1 -> entities_deleted ids ns s1 s2 -> entities_deleted (i :: ids) ns s s2.
Proof.
  intros [E1 R1] [E2 R2]. split.
  - rewrite E2, E1. apply delete_where_or. intros. apply entity_in_cons.
  - intros j. destruct (R2 j) as [->|(-> & r & Hr & Hi)].
    + destruct (R1 j) as [->|(-> & r & Hr & Hi)]; [by left|right]. split; [done|].
      exists r. split; [done|]. eapply incident_mono; [|exact Hi]. intros k. simpl.
      by destruct (Z.eqb k i).
    + right. split; [done|]. exists r. split.
      * destruct (R1 j) as [<-|(E & _)]; congruence.
      * eapply incident_mono; [|exact Hi]. intros k Hk. simpl. rewrite Hk. by destruct (Z.eqb k i).
Qed.

Lemma relationships_deleted_nil ns s : relationships_deleted [] ns s s.
Proof. split; [done|]. symmetry. by apply delete_where_none. Qed.

Lemma relationships_deleted_cons ns i ids s s1 s2 :
  relationships_deleted [i] ns s s1 -> relationships_deleted ids ns s1 s2 ->
  relationships_deleted (i :: ids) ns s s2.
Proof.
  intros [E1 R1] [E2 R2]. split; [congruence|]. rewrite R2, R1.
  apply delete_where_or. intros. apply relationship_in_cons.
Qed.

Lemma without_again doc l : without doc (without doc l) = without doc l.
Proof. apply without_id, cites_without. Qed.

Lemma entity_stripped_trans doc e1 e2 e3 :
  entity_stripped doc e1 e2 -> entity_stripped doc e2 e3 -> entity_stripped doc e1 e3.
Proof.
  intros (? & ? & E1) (? & ? & E2). repeat split; [congruence..|]. by rewrite E2, E1, without_again.
Qed.

Lemma relationship_stripped_trans doc r1 r2 r3 :
  relationship_stripped doc r1 r2 -> relationship_stripped doc r2 r3 -> relationship_stripped doc r1 r3.
Proof.
  intros (? & ? & ? & ? & E1) (? & ? & ? & ? & E2).
  repeat split; [congruence..|]. by rewrite E2, E1, without_again.
Qed.

Section rows.
Context {R : Type} (ns_of : R -> Z) (stripped : R -> R -> Prop).
Context (stripped_ns : forall r r', stripped r r' -> ns_of r' = ns_of r).
Context (stripped_trans : forall r1 r2 r3, stripped r1 r2 -> stripped r2 r3 -> stripped r1 r3).

Lemma rows_stripped_nil ns t : rows_stripped ns_of stripped [] ns t t.
Proof.
  intros i. destruct (t !! i) as [e|] eqn:E; [|done].
  exists e. split; [done|]. split; [done|]. by intros ?%elem_of_nil.
Qed.

Lemma rows_stripped_cons ns i ids t t1 t2 :
  rows_stripped ns_of stripped [i] ns t t1 -> rows_stripped ns_of stripped ids ns t1 t2 ->
  rows_stripped ns_of stripped (i :: ids) ns t t2.
Proof.
  intros H1 H2 j. specialize (H1 j). specialize (H2 j).
  destruct (t !! j) as [e|]; [|by rewrite H1 in H2].
  destruct H1 as (e1 & E1 & N1 & S1). rewrite E1 in H2. destruct H2 as (e2 & E2 & N2 & S2).
  rewrite list_elem_of_singleton in N1, S1. exists e2. split; [done|]. split.
  - intros [Hi Hl]%not_elem_of_cons. rewrite N2; auto.
  - intros Hj Hns. destruct (decide (j = i)) as [->|Hne].
    + specialize (S1 eq_refl Hns). destruct (decide (i ∈ ids)) as [Hi|Hi].
      * eapply stripped_trans; [exact S1|]. apply S2; [done|]. by rewrite (stripped_ns _ _ S1).
      * by rewrite N2.
    + apply elem_of_cons in Hj as [?|Hj]; [done|]. rewrite N1 in S2 by done. auto.
Qed.

(** A bulk update strips when its function does. *)
Lemma rows_stripped_update p f ids ns t :
  (forall i r, i ∉ ids -> p i r = false) ->
  (forall i r, i ∈ ids -> ns_of r = ns -> p i r = true) ->
  (forall r, stripped r (f r)) ->
  rows_stripped ns_of stripped ids ns t (update_where p f t).
Proof.
  intros Hout Hin Hf i. rewrite lookup_update_where. destruct (t !! i) as [r|]; [simpl|done].
  eexists. split; [done|]. split.
  - intros Hi. by rewrite Hout.
  - intros Hi Hns. by rewrite Hin.
Qed.
End rows.

Lemma entities_stripped_nil doc ns s : entities_stripped [] doc ns s s.
Proof. split; [done|apply rows_stripped_nil]. Qed.

Lemma relationships_stripped_nil doc ns s : relationships_stripped [] doc ns s s.
Proof. split; [done|apply rows_stripped_nil]. Qed.

Lemma entities_stripped_cons doc ns i ids s s1 s2 :
  entities_stripped [i] doc ns s s1 -> entities_stripped ids doc ns s1 s2 ->
  entities_stripped (i :: ids) doc ns s s2.
Proof.
  intros [R1 H1] [R2 H2]. split; [congruence|]. eapply rows_stripped_cons; eauto.
  - by intros r r' [? _].
  - apply entity_stripped_trans.
Qed.

Lemma relationships_stripped_cons doc ns i ids s s1 s2 :
  relationships_stripped [i] doc ns s s1 -> relationships_stripped ids doc ns s1 s2 ->
  relationships_stripped (i :: ids) doc ns s s2.
Proof.
  intros [R1 H1] [R2 H2]. split; [congruence|]. eapply rows_stripped_cons; eauto.
  - by intros r r' [? _].
  - apply relationship_stripped_trans.
Qed.

#[export] Hint Resolve entities_deleted_nil relationships_deleted_nil entities_stripped_nil
  relationships_stripped_nil entities_deleted_cons relationships_deleted_cons
  entities_stripped_cons relationships_stripped_cons : khora.

(** ** The interface *)

(** A listing under a limit: only rows of the table that satisfy [p], and all of them when
    the table is within the limit. *)
Definition lists {R} (limit : nat) (p : Z -> R -> bool) (t : gmap Z R) (l : list (Z * R)) : Prop :=
  (forall i r, (i, r) ∈ l -> t !! i = Some r /\ p i r = true)
  /\ ((size t <= limit)%nat -> forall i r, t !! i = Some r -> p i r = true -> (i, r) ∈ l).

(** Edges that a sweep may delete. *)
Definition swept (doc ns : Z) (s s' : Store) : Prop :=
  st_entities s' = st_entities s
  /\ forall i, st_relationships s' !! i = st_relationships s !! i
     \/ (st_relationships s' !! i = None
         /\ exists r, st_relationships s !! i = Some r /\ sweepable doc ns r = true).

(** What the cascade needs of a store: its methods list, delete and strip, whatever their
    names and however many transactions they take.  [listed] is the condition of the
    listing of relationships. *)
Class Cleanup (now : Z) (sd : side) (api : StoreApi) (listed : Z -> Store -> RelationshipRow -> bool) := {
  cu_capable : _can_list_and_delete (Some api) = true;
  cu_list_entities ns limit :
    effect sd (method (list_entities api) (fun f => f ns limit)) (fun s l s' => s' = s /\
      lists limit (fun _ e => Z.eqb (e_namespace_id e) ns && _entity_live_filter now e) (st_entities s) l);
  cu_list_relationships ns limit :
    effect sd (method (list_relationships api) (fun f => f ns limit)) (fun s l s' => s' = s /\
      lists limit (fun _ r => Z.eqb (r_namespace_id r) ns && listed ns s r) (st_relationships s) l);
  cu_delete_entities ids ns :
    effect sd (method (delete_entities_batch api) (fun f => f ids ns))
      (fun s _ s' => entities_deleted ids ns s s');
  cu_delete_relationships ids ns :
    effect sd (method (delete_relationships_batch api) (fun f => f ids ns))
      (fun s _ s' => relationships_deleted ids ns s s');
  cu_strip_entities ids doc ns :
    effect sd (_strip_entities (Some api) ids doc ns) (fun s _ s' => entities_stripped ids doc ns s s');
  cu_strip_relationships ids doc ns :
    effect sd (_strip_relationships (Some api) ids doc ns)
      (fun s _ s' => relationships_stripped ids doc ns s s');
  cu_sweep doc ns :
    effect sd (_sweep_malformed_orphan_relationships (Some api) doc ns)
      (fun s _ s' => swept doc ns s s');
}.

Lemma effect_batch sd ids f (P : list Z -> Store -> Store -> Prop) :
  (forall s, P [] s s) -> (forall s, P ids s (f s).2) ->
  effect sd (batch sd ids f) (fun s _ s' => P ids s s').
Proof.
  intros Hnil Hf. destruct ids; simpl.
  - eapply effect_weaken; [apply effect_ret|]. by intros s a s' [_ ->].
  - eapply effect_weaken; [apply effect_call|]. intros s a s' E. specialize (Hf s). by rewrite E in Hf.
Qed.

(** Discarding a count. *)
Lemma effect_drop {A} sd (m : M A) P :
  effect sd m (fun s _ s' => P s s') -> effect sd (_ ← m; mret ()) (fun s _ s' => P s s').
Proof.
  intros H. eapply effect_weaken.
  { apply (effect_bind sd _ _ _ (fun _ s b s' => b = () /\ s' = s) H). intros a. apply effect_ret. }
  by intros s b s' (a & s1 & H1 & _ & ->).
Qed.

Lemma swept_refl doc ns s : swept doc ns s s.
Proof. split; [done|by left]. Qed.

Lemma in_without doc s : sources_of (without doc <$> s) = without doc (sources_of s).
Proof. by destruct s. Qed.

Section instances.
Context (order_entities : list (Z * EntityRow) -> list (Z * EntityRow)).
Context (order_relationships : list (Z * RelationshipRow) -> list (Z * RelationshipRow)).
Context (order_entities_perm : forall l, order_entities l ≡ₚ l).
Context (order_relationships_perm : forall l, order_relationships l ≡ₚ l).
Context (now : Z).

Lemma lists_take {R} (order : list (Z * R) -> list (Z * R)) limit p t :
  (forall l, order l ≡ₚ l) -> lists limit p t (take limit (order (select p t))).
Proof.
  intros Hperm. split.
  - intros i r Hi. apply elem_of_take in Hi as (k & Hk & _). apply list_elem_of_lookup_2 in Hk.
    rewrite (Hperm _) in Hk. by apply elem_of_selected.
  - intros Hsz i r Hi Hp. rewrite take_ge.
    + rewrite (Hperm _). by apply elem_of_selected.
    + rewrite (Hperm _). pose proof (length_select p t). lia.
Qed.

Lemma pg_lists_entities sd ns limit :
  effect sd (call sd (fun s => (pg_list_entities order_entities now ns limit s, s)))
    (fun s l s' => s' = s /\ lists limit (fun _ e => Z.eqb (e_namespace_id e) ns && _entity_live_filter now e)
       (st_entities s) l).
Proof.
  eapply effect_weaken; [apply effect_call|]. intros s l s' [= <- <-].
  split; [done|]. by apply lists_take.
Qed.

Lemma pg_lists_relationships sd ns limit :
  effect sd (call sd (fun s => (pg_list_relationships order_relationships now ns limit s, s)))
    (fun s l s' => s' = s /\ lists limit (fun _ r => Z.eqb (r_namespace_id r) ns && _relationship_live_filter now r)
       (st_relationships s) l).
Proof.
  eapply effect_weaken; [apply effect_call|]. intros s l s' [= <- <-].
  split; [done|]. by apply lists_take.
Qed.

Lemma owned_in ids ns t i : owned ids ns t i = true -> mem_id i ids = true.
Proof. unfold owned, entity_in. destruct (t !! i); [|done]. by intros [? _]%andb_prop. Qed.

Lemma detached_by p (t t' : gmap Z RelationshipRow) i ids :
  t' = delete_where p t ->
  (forall j r, p j r = true -> incident (fun k => mem_id k ids) r = true) ->
  t' !! i = t !! i \/ (t' !! i = None /\ exists r, t !! i = Some r /\ incident (fun k => mem_id k ids) r = true).
Proof.
  intros -> Hp. rewrite lookup_delete_where. destruct (t !! i) as [r'|]; simpl; [|by left].
  destruct (p i r') eqn:E; [right|by left]. split; [done|]. exists r'. eauto.
Qed.

Lemma pg_deletes_entities sd ids ns :
  effect sd (batch sd ids (pg_delete_entities ids ns)) (fun s _ s' => entities_deleted ids ns s s').
Proof.
  apply (effect_batch _ _ _ (fun ids => entities_deleted ids ns)); [auto with khora|].
  intros s. split; [done|]. intros i. eapply detached_by; [done|].
  intros j r. apply incident_mono. intros k. apply owned_in.
Qed.

Lemma pg_deletes_relationships sd ids ns :
  effect sd (batch sd ids (pg_delete_relationships ids ns)) (fun s _ s' => relationships_deleted ids ns s s').
Proof. by apply (effect_batch _ _ _ (fun ids => relationships_deleted ids ns)); [auto with khora|]. Qed.

Lemma pg_strips_entities sd ids doc ns :
  effect sd (batch sd ids (pg_strip_entities ids doc)) (fun s _ s' => entities_stripped ids doc ns s s').
Proof.
  apply (effect_batch _ _ _ (fun ids => entities_stripped ids doc ns)); [auto with khora|].
  intros s. split; [done|]. apply rows_stripped_update.
  - intros i _. apply mem_id_false.
  - intros i _ Hi _. by apply mem_id_spec.
  - intros r. repeat split. apply in_without.
Qed.

Lemma pg_strips_relationships sd ids doc ns :
  effect sd (batch sd ids (pg_strip_relationships ids doc))
    (fun s _ s' => relationships_stripped ids doc ns s s').
Proof.
  apply (effect_batch _ _ _ (fun ids => relationships_stripped ids doc ns)); [auto with khora|].
  intros s. split; [done|]. apply rows_stripped_update.
  - intros i _. apply mem_id_false.
  - intros i _ Hi _. by apply mem_id_spec.
  - intros r. repeat split. apply in_without.
Qed.

Lemma no_sweep sd doc ns : effect sd (mret 0%nat : M nat) (fun s _ s' => swept doc ns s s').
Proof. eapply effect_weaken; [apply effect_ret|]. intros s a s' [_ ->]. apply swept_refl. Qed.

#[export] Instance pgvector_cleanup sd :
  Cleanup now sd (pgvector order_entities order_relationships now sd)
    (fun _ _ => _relationship_live_filter now).
Proof.
  split; simpl; intros; auto using pg_lists_entities, pg_lists_relationships, pg_deletes_entities,
    pg_deletes_relationships, no_sweep.
  - apply effect_drop, pg_strips_entities.
  - apply effect_drop, pg_strips_relationships.
Qed.

(** *** Neo4j *)

Lemma neo4j_strips_entities sd ids doc ns :
  effect sd (batch sd ids (neo4j_strip_entities ids doc ns)) (fun s _ s' => entities_stripped ids doc ns s s').
Proof.
  apply (effect_batch _ _ _ (fun ids => entities_stripped ids doc ns)); [auto with khora|].
  intros s. split; [done|]. apply rows_stripped_update; unfold entity_in.
  - intros i r Hi. by rewrite (proj2 (mem_id_false _ _) Hi).
  - intros i r Hi ->. by rewrite (proj2 (mem_id_spec _ _) Hi), Z.eqb_refl.
  - done.
Qed.

Lemma neo4j_strips_relationships sd ids doc ns :
  effect sd (batch sd ids (neo4j_strip_relationships ids doc ns))
    (fun s _ s' => relationships_stripped ids doc ns s s').
Proof.
  apply (effect_batch _ _ _ (fun ids => relationships_stripped ids doc ns)); [auto with khora|].
  intros s. split; [done|]. apply rows_stripped_update; unfold relationship_in.
  - intros i r Hi. by rewrite (proj2 (mem_id_false _ _) Hi).
  - intros i r Hi ->. by rewrite (proj2 (mem_id_spec _ _) Hi), Z.eqb_refl.
  - done.
Qed.

(** The condition under which Neo4j lists an edge it can read. *)
Definition neo4j_listed (ns : Z) (s : Store) (r : RelationshipRow) : bool :=
  window_open now (r_valid_until r) && endpoint_in ns (st_entities s) (r_source_id r)
  && endpoint_in ns (st_entities s) (r_target_id r) && negb (malformed r).

Lemma neo4j_lists_relationships sd ns limit :
  effect sd (call sd (fun s => (neo4j_list_relationships order_relationships now ns limit s, s)))
    (fun s l s' => s' = s /\ lists limit (fun _ r => Z.eqb (r_namespace_id r) ns && neo4j_listed ns s r)
       (st_relationships s) l).
Proof.
  eapply effect_weaken; [apply effect_call|]. intros s l s' [= <- <-]. split; [done|].
  unfold neo4j_list_relationships.
  set (p := fun (_ : Z) r => Z.eqb (r_namespace_id r) ns && window_open now (r_valid_until r)
    && endpoint_in ns (st_entities s) (r_source_id r) && endpoint_in ns (st_entities s) (r_target_id r)).
  destruct (lists_take order_relationships limit p (st_relationships s) order_relationships_perm) as [H1 H2].
  unfold neo4j_listed. split.
  - intros i r [Hi Hm]%list_elem_of_In%filter_In. apply list_elem_of_In in Hi.
    destruct (H1 i r Hi) as [Hr Hp]. split; [done|]. unfold p in Hp.
    by rewrite Hm, andb_true_r, !andb_assoc.
  - intros Hsz i r Hr. rewrite !andb_assoc. intros [Hp Hm]%andb_prop.
    apply list_elem_of_In, filter_In. split; [|done]. apply list_elem_of_In. auto.
Qed.

#[export] Instance neo4j_cleanup sd :
  Cleanup now sd (neo4j order_entities order_relationships now sd) neo4j_listed.
Proof.
  split; simpl; intros; auto using pg_lists_entities, neo4j_lists_relationships, pg_deletes_entities,
    pg_deletes_relationships.
  - apply effect_drop, neo4j_strips_entities.
  - apply effect_drop, neo4j_strips_relationships.
  - eapply effect_weaken; [apply effect_call|]. intros s n s' [= <- <-]. split; [done|].
    intros i. simpl. rewrite lookup_delete_where. destruct (st_relationships s !! i) as [r|]; simpl; [|by left].
    destruct (sweepable doc ns r) eqn:E; [right|by left]. eauto.
Qed.

(** *** The per-record defaults over sqlite_lance *)

Lemma base_deletes_entities sd ids ns :
  effect sd (base_delete_entities_batch sd ids ns) (fun s _ s' => entities_deleted ids ns s s').
Proof.
  apply (effect_count _ _ (fun ids => entities_deleted ids ns)); eauto with khora.
  intros i. eapply effect_weaken; [apply effect_call|]. intros s b s' [= _ <-]. split; [done|].
  intros j. eapply detached_by; [done|]. intros k r [_ H]%andb_prop. revert H. apply incident_mono.
  intros k'. simpl. rewrite orb_false_r. intros ->%Z.eqb_eq. apply Z.eqb_refl.
Qed.

Lemma base_deletes_relationships sd ids ns :
  effect sd (base_delete_relationships_batch sd ids ns) (fun s _ s' => relationships_deleted ids ns s s').
Proof.
  apply (effect_count _ _ (fun ids => relationships_deleted ids ns)); eauto with khora.
  intros i. eapply effect_weaken; [apply effect_call|]. by intros s b s' [= _ <-].
Qed.

(** A row that is not cited, or absent from the namespace, needs no stripping. *)
Lemma rows_stripped_skip {R} (ns_of : R -> Z) (stripped : R -> R -> Prop) i ns t :
  (forall r, t !! i = Some r -> ns_of r = ns -> stripped r r) -> rows_stripped ns_of stripped [i] ns t t.
Proof.
  intros H j. destruct (t !! j) as [r|] eqn:E; [|done]. exists r. split; [done|]. split; [done|].
  intros ->%list_elem_of_singleton. eauto.
Qed.

Lemma entity_stripped_uncited doc e :
  cites doc (sources_of (e_sources e)) = false -> entity_stripped doc e e.
Proof. intros H. repeat split. by rewrite without_id. Qed.

Lemma relationship_stripped_uncited doc r :
  cites doc (sources_of (r_sources r)) = false -> relationship_stripped doc r r.
Proof. intros H. repeat split. by rewrite without_id. Qed.

Lemma get_entity_spec i ns s e :
  get_entity i ns s = Some e <-> st_entities s !! i = Some e /\ e_namespace_id e = ns.
Proof.
  unfold get_entity. destruct (st_entities s !! i) as [e'|]; [|naive_solver].
  destruct (Z.eqb_spec (e_namespace_id e') ns); naive_solver.
Qed.

Lemma get_relationship_spec i ns s r :
  get_relationship i ns s = Some r <-> st_relationships s !! i = Some r /\ r_namespace_id r = ns.
Proof.
  unfold get_relationship. destruct (st_relationships s !! i) as [e'|]; [|naive_solver].
  destruct (Z.eqb_spec (r_namespace_id e') ns); naive_solver.
Qed.

(** Reading a row, then acting on it if it cites the document. *)
Lemma effect_read_act {R} sd (get : Store -> option R) (test : R -> bool) (act : R -> M bool)
    (after : R -> Store -> Store) (P : Store -> Store -> Prop) :
  (forall r, effect sd (act r) (fun s _ s' => s' = after r s)) ->
  (forall s, get s = None -> P s s) ->
  (forall s r, get s = Some r -> P s (if test r then after r s else s)) ->
  effect sd (row ← call sd (fun s => (get s, s));
             match row with None => mret false | Some r => if test r then act r else mret false end)
    (fun s _ s' => P s s').
Proof.
  intros Hact Hnone Hsome. eapply effect_weaken.
  { apply (effect_bind sd _ _ _ (fun row s (_ : bool) s' =>
      s' = match row with Some r => if test r then after r s else s | None => s end) (effect_call _ _)).
    intros [r|]; [destruct (test r)|].
    - apply Hact.
    - eapply effect_weaken; [apply effect_ret|]. by intros ? ? ? [_ ->].
    - eapply effect_weaken; [apply effect_ret|]. by intros ? ? ? [_ ->]. }
  intros s b s' (row & s1 & [= <- <-] & ->). destruct (get s) as [r|] eqn:E; auto.
Qed.

(** A call followed by [return True]. *)
Lemma effect_then sd {A} (f : Store -> A * Store) :
  effect sd (_ ← call sd f; mret true) (fun s _ s' => s' = (f s).2).
Proof.
  eapply effect_weaken.
  { apply (effect_bind sd _ _ _ (fun _ s b s' => b = true /\ s' = s) (effect_call _ _)).
    intros a. apply effect_ret. }
  by intros s b s' (a & s1 & -> & _ & ->).
Qed.

Lemma base_strips_entities sd ids doc ns :
  effect sd (base_strip_document_from_entities sd ids doc ns)
    (fun s _ s' => entities_stripped ids doc ns s s').
Proof.
  apply (effect_count _ _ (fun ids => entities_stripped ids doc ns)); eauto with khora.
  intros i. apply (effect_read_act _ _ (fun e => cites doc (sources_of (e_sources e))) _ _ _
    (fun e => effect_then _ _)).
  - intros s Hn. split; [done|]. apply rows_stripped_skip. intros e He Hns.
    rewrite (proj2 (get_entity_spec _ _ _ _) (conj He Hns)) in Hn. done.
  - intros s e [He Hns]%get_entity_spec. destruct (cites _ _) eqn:Hc; (split; [done|]).
    + intros j. cbn. rewrite lookup_update_where. destruct (st_entities s !! j) as [e'|] eqn:E; [|done].
      eexists. split; [done|]. unfold entity_in. simpl. rewrite orb_false_r. split.
      * intros Hj. destruct (Z.eqb_spec j i) as [->|]; [|done]. by destruct Hj; apply list_elem_of_singleton.
      * intros ->%list_elem_of_singleton Hns'. rewrite Z.eqb_refl, (proj2 (Z.eqb_eq _ _) Hns').
        rewrite He in E. injection E as <-. done.
    + apply rows_stripped_skip. intros e' He' _. rewrite He in He'. injection He' as <-.
      by apply entity_stripped_uncited.
Qed.

Lemma effect_then2 sd {A B} (f : Store -> A * Store) (g : Store -> B * Store) :
  effect sd (_ ← call sd f; _ ← call sd g; mret true) (fun s _ s' => s' = (g (f s).2).2).
Proof.
  eapply effect_weaken.
  { apply (effect_bind sd _ _ _ (fun _ s _ s' => s' = (g s).2) (effect_call _ _)).
    intros a. apply effect_then. }
  by intros s b s' (a & s1 & -> & ->).
Qed.

(** Deleting a row and creating it again is an update that clears the tombstones. *)
Lemma recreated i ns r r' s :
  st_relationships s !! i = Some r -> r_namespace_id r = ns ->
  st_relationships (create_relationship i r' (delete_relationship i ns s).2).2 =
  <[i := MkRelationshipRow (r_namespace_id r') (r_source_id r') (r_target_id r') (r_sources r')
           (r_valid_until r') None None]> (st_relationships s).
Proof.
  intros Hr Hns. cbn. rewrite lookup_delete_where, Hr. cbn.
  unfold relationship_in at 1. simpl. rewrite Z.eqb_refl, (proj2 (Z.eqb_eq _ _) Hns). simpl.
  apply map_eq. intros j. destruct (decide (j = i)) as [->|Hne]; [by rewrite !lookup_insert_eq|].
  rewrite !lookup_insert_ne, lookup_delete_where by done. unfold relationship_in. simpl.
  destruct (st_relationships s !! j); simpl; [|done]. by destruct (Z.eqb_spec j i).
Qed.

Lemma base_strips_relationships sd ids doc ns :
  effect sd (base_strip_document_from_relationships sd ids doc ns)
    (fun s _ s' => relationships_stripped ids doc ns s s').
Proof.
  apply (effect_count _ _ (fun ids => relationships_stripped ids doc ns)); eauto with khora.
  intros i. apply (effect_read_act _ _ (fun r => cites doc (sources_of (r_sources r))) _ _ _
    (fun r => effect_then2 _ _ _)).
  - intros s Hn. split; [done|]. apply rows_stripped_skip. intros e He Hns.
    rewrite (proj2 (get_relationship_spec _ _ _ _) (conj He Hns)) in Hn. done.
  - intros s r [Hr Hns]%get_relationship_spec. destruct (cites _ _) eqn:Hc; (split; [done|]).
    + rewrite (recreated _ _ _ _ _ Hr Hns). intros j. destruct (decide (j = i)) as [->|Hne].
      * rewrite Hr, lookup_insert_eq. eexists. split; [done|]. split; [|done].
        intros []. by apply list_elem_of_singleton.
      * rewrite lookup_insert_ne by done. destruct (st_relationships s !! j) as [r'|]; [|done].
        eexists. split; [done|]. split; [done|]. by intros ?%list_elem_of_singleton.
    + apply rows_stripped_skip. intros e' He' _. rewrite Hr in He'. injection He' as <-.
      by apply relationship_stripped_uncited.
Qed.

#[export] Instance sqlite_lance_cleanup sd :
  Cleanup now sd (sqlite_lance order_entities order_relationships now sd)
    (fun _ _ => _relationship_live_filter now).
Proof.
  split; simpl; intros; auto using pg_lists_entities, pg_lists_relationships, base_deletes_entities,
    base_deletes_relationships, no_sweep.
  - apply effect_drop, base_strips_entities.
  - apply effect_drop, base_strips_relationships.
Qed.
End instances.

(** ** The cascade on two stores *)

Definition other (sd : side) : side := match sd with Vector => Graph | Graph => Vector end.

Lemma other_ne sd : sd <> other sd.
Proof. by destruct sd. Qed.
Lemma side_cases p sd : sd = p \/ sd = other p.
Proof. destruct p, sd; auto. Qed.

(** [m], run when no call fails, changes the primary, and the mirror if there is one, by
    steps that satisfy [P]. *)
Definition on_stores {A} (p : side) (mirrored : Prop) (m : M A) (P : Store -> Store -> Prop) : Prop :=
  forall w, w_faults w = [] -> exists a w',
    m w = (Ok a, w') /\ w_faults w' = []
    /\ forall sd, sd = p \/ mirrored -> P (store_of sd w) (store_of sd w').

Lemma on_stores_ret {A} p mirrored (a : A) (P : Store -> Store -> Prop) :
  (forall s, P s s) -> on_stores p mirrored (mret a) P.
Proof. intros HP w Hw. by exists a, w. Qed.

Lemma on_stores_bind {A B} p mirrored (m : M A) (k : A -> M B) P Q :
  on_stores p mirrored m P -> (forall a, on_stores p mirrored (k a) Q) ->
  on_stores p mirrored (m ≫= k) (fun s s' => exists s1, P s s1 /\ Q s1 s').
Proof.
  intros Hm Hk w Hw. destruct (Hm w Hw) as (a & w1 & E1 & F1 & H1).
  destruct (Hk a w1 F1) as (b & w2 & E2 & F2 & H2). exists b, w2.
  unfold mbind, M_bind. rewrite E1, E2. split_and!; [done..|]. intros sd Hsd. eauto.
Qed.

Lemma on_stores_when p mirrored (c : bool) m (P : Store -> Store -> Prop) :
  (c = false -> forall s, P s s) -> on_stores p mirrored m P -> on_stores p mirrored (when c m) P.
Proof. destruct c; simpl; [done|]. intros HP _. apply on_stores_ret; auto. Qed.

(** The primary's call, then the mirror's, if there is a mirror. *)
Lemma on_stores_both {A B} p (mirrored : Prop) (m1 : M A) (m2 : M B) P :
  effect p m1 (fun s _ s' => P s s') ->
  (mirrored /\ effect (other p) m2 (fun s _ s' => P s s')
   \/ ~ mirrored /\ exists b, m2 = mret b) ->
  on_stores p mirrored (_ ← m1; m2) P.
Proof.
  intros H1 H2 w Hw. destruct (H1 w Hw) as (a & s1 & E1 & P1).
  unfold mbind, M_bind. rewrite E1. destruct H2 as [[Hm H2]|[Hm [b ->]]].
  - destruct (H2 (set_store p s1 w)) as (b & s2 & E2 & P2); [by rewrite faults_set|].
    rewrite E2. exists b. eexists. split; [done|]. rewrite !faults_set. split; [done|].
    intros sd _. destruct (side_cases p sd) as [->| ->].
    + by rewrite store_set_ne, store_set_eq by apply other_ne.
    + rewrite store_set_eq. by rewrite store_set_ne in P2 by (apply not_eq_sym, other_ne).
  - exists b. eexists. split; [done|]. rewrite faults_set. split; [done|].
    intros sd [->|?]; [|done]. by rewrite store_set_eq.
Qed.

(** A call on one of the two stores. *)
Lemma on_stores_one {A} p mirrored sd0 (m : M A) (P : Store -> Store -> Prop) :
  (forall s, P s s) -> effect sd0 m (fun s _ s' => P s s') -> on_stores p mirrored m P.
Proof.
  intros HP Hm w Hw. destruct (Hm w Hw) as (a & s1 & E1 & P1). exists a. eexists.
  split; [done|]. rewrite faults_set. split; [done|]. intros sd _.
  destruct (side_cases sd0 sd) as [->| ->].
  - by rewrite store_set_eq.
  - by rewrite store_set_ne by (apply not_eq_sym, other_ne).
Qed.

(** What a cascade that deletes and strips the given ids does to one store. *)
Definition phases (doc ns : Z) (oe ore se sr : list Z) (s s' : Store) : Prop :=
  exists s1 s2 s3 s4,
    entities_deleted oe ns s s1 /\ relationships_deleted ore ns s1 s2 /\ swept doc ns s2 s3
    /\ entities_stripped se doc ns s3 s4 /\ relationships_stripped sr doc ns s4 s'.

Section phases.
Context (doc ns : Z) (oe ore se sr : list Z) (s s' : Store).
Context (Hphases : phases doc ns oe ore se sr s s').

Lemma phases_entity i :
  match st_entities s !! i with
  | None => st_entities s' !! i = None
  | Some e =>
      (i ∈ oe -> e_namespace_id e = ns -> st_entities s' !! i = None)
      /\ (i ∉ oe -> i ∈ se -> e_namespace_id e = ns ->
          exists e', st_entities s' !! i = Some e' /\ entity_stripped doc e e')
      /\ (i ∉ oe -> i ∉ se -> st_entities s' !! i = Some e)
  end.
Proof.
  destruct Hphases as (s1 & s2 & s3 & s4 & [D _] & [E2 _] & [E3 _] & [_ S] & [E5 _]).
  specialize (S i). rewrite E3, E2, D, lookup_delete_where in S. rewrite E5.
  destruct (st_entities s !! i) as [e|]; simpl in S; [|done]. unfold entity_in in S. split_and!.
  - intros Hi Hns. rewrite (proj2 (mem_id_spec _ _) Hi), (proj2 (Z.eqb_eq _ _) Hns) in S. done.
  - intros Ho Hi Hns. rewrite (proj2 (mem_id_false _ _) Ho) in S. simpl in S.
    destruct S as (e' & E & _ & S). eauto.
  - intros Ho Hi. rewrite (proj2 (mem_id_false _ _) Ho) in S. simpl in S.
    destruct S as (e' & E & S & _). by rewrite E, S.
Qed.

(** An edge also goes with an endpoint, or with a sweep. *)
Lemma phases_relationship i :
  match st_relationships s !! i with
  | None => st_relationships s' !! i = None
  | Some r =>
      (st_relationships s' !! i = None /\ (incident (fun j => mem_id j oe) r = true \/ sweepable doc ns r = true))
      \/ (i ∈ ore -> r_namespace_id r = ns -> st_relationships s' !! i = None)
      /\ (i ∉ ore -> i ∈ sr -> r_namespace_id r = ns ->
          exists r', st_relationships s' !! i = Some r' /\ relationship_stripped doc r r')
      /\ (i ∉ ore -> i ∉ sr -> st_relationships s' !! i = Some r)
  end.
Proof.
  destruct Hphases as (s1 & s2 & s3 & s4 & [_ D1] & [_ D2] & [_ D3] & [E4 _] & [_ S]).
  specialize (S i). specialize (D1 i). specialize (D3 i). rewrite E4 in S. clear E4.
  rewrite D2, lookup_delete_where in D3. clear D2.
  destruct D1 as [D1|(D1 & r & Hr & Hi)]; rewrite D1 in D3; simpl in D3.
  2: { rewrite Hr. left. destruct D3 as [D3|(D3 & _ & [=] & _)]. rewrite D3 in S. auto. }
  destruct (st_relationships s !! i) as [r|]; simpl in D3.
  2: { destruct D3 as [D3|(D3 & _ & [=] & _)]. by rewrite D3 in S. }
  unfold relationship_in in D3. destruct D3 as [D3|(D3 & r' & Hr & Hs)]; rewrite D3 in S; clear D3.
  - right. split_and!.
    + intros Hi Hns. rewrite (proj2 (mem_id_spec _ _) Hi), (proj2 (Z.eqb_eq _ _) Hns) in S. done.
    + intros Ho Hi Hns. rewrite (proj2 (mem_id_false _ _) Ho) in S. destruct S as (e' & E & _ & S). eauto.
    + intros Ho Hi. rewrite (proj2 (mem_id_false _ _) Ho) in S. destruct S as (e' & E & S & _). by rewrite E, S.
  - left. split; [done|]. destruct (mem_id i ore && _); simplify_eq. auto.
Qed.
End phases.

Lemma effect_method {F A} sd (o : option F) (k : F -> M A) P :
  effect sd (method o k) P -> exists f, o = Some f.
Proof.
  intros H. destruct o as [f|]; [by exists f|].
  destruct (H (MkWorld (MkStore ∅ ∅) (MkStore ∅ ∅) []) eq_refl) as (a & s' & [=] & _).
Qed.

Lemma effect_try {F} sd api (name : StoreApi -> option F) (k : F -> M nat) P :
  effect sd (method (name api) k) (fun s _ s' => P s s') ->
  effect sd (try_method (Some api) name k) (fun s _ s' => P s s').
Proof.
  intros H. destruct (effect_method _ _ _ _ H) as [f E]. simpl. rewrite E in H |- *.
  by apply effect_drop.
Qed.

Lemma nonempty_false {A} (l : list A) : nonempty l = false <-> l = [].
Proof. by destruct l. Qed.

Section run.
Context (now : Z) (p : side) (pa : StoreApi) (Lp Lm : Z -> Store -> RelationshipRow -> bool).
Context `{CP : !Cleanup now p pa Lp}.
Context (mirror graph : option StoreApi).
Context (CM : forall m, mirror = Some m -> Cleanup now (other p) m Lm).
Context (Hgraph : graph = None \/ graph = Some pa \/ graph = mirror).

Local Abbreviation stores_do := (on_stores p (is_Some mirror)).

(** The mirror's half of a step. *)
Lemma mirror_step (k : option StoreApi -> M ()) (P : Store -> Store -> Prop) :
  k None = mret () ->
  (forall m, Cleanup now (other p) m Lm -> effect (other p) (k (Some m)) (fun s _ s' => P s s')) ->
  is_Some mirror /\ effect (other p) (k mirror) (fun s _ s' => P s s')
  \/ ~ is_Some mirror /\ exists b, k mirror = mret b.
Proof.
  intros Hnone Hsome. destruct mirror as [m|]; [left|right]; [eauto|].
  split; [by intros []|eauto].
Qed.

Lemma sweep_runs doc ns :
  stores_do (_sweep_malformed_orphan_relationships graph doc ns) (swept doc ns).
Proof.
  assert (on_stores p (is_Some mirror) (mret 0%nat : M nat) (swept doc ns)) as Hnone
    by (apply on_stores_ret, swept_refl).
  destruct Hgraph as [->|[->| ->]]; [done| |].
  - eapply on_stores_one; [apply swept_refl|]. apply cu_sweep.
  - destruct mirror as [m|]; [|done]. specialize (CM _ eq_refl).
    eapply on_stores_one; [apply swept_refl|]. apply cu_sweep.
Qed.

Lemma delete_orphans_runs doc ns ents rels :
  stores_do (delete_orphans pa mirror graph doc ns ents rels) (fun s s' => exists s1, entities_deleted
    (ids_of e_sources (_is_orphan doc) ents) ns s s1 /\ exists s2, relationships_deleted
    (ids_of r_sources (_is_orphan doc) rels) ns s1 s2 /\ swept doc ns s2 s').
Proof.
  unfold delete_orphans. apply on_stores_bind; [|intros _; apply on_stores_bind; [|intros _]].
  - apply on_stores_when; [intros ->%nonempty_false; auto with khora|].
    apply on_stores_both; [apply cu_delete_entities|].
    apply (mirror_step (fun m => _delete_entities m _ _)); [done|].
    intros m C. apply effect_try, cu_delete_entities.
  - apply on_stores_when; [intros ->%nonempty_false; auto with khora|].
    apply on_stores_both; [apply cu_delete_relationships|].
    apply (mirror_step (fun m => _delete_relationships m _ _)); [done|].
    intros m C. apply effect_try, cu_delete_relationships.
  - destruct (nonempty rels); [apply sweep_runs|]. apply on_stores_ret, swept_refl.
Qed.

Lemma strip_survivors_runs doc ns ents rels :
  stores_do (strip_survivors pa mirror doc ns ents rels) (fun s s' => exists s1, entities_stripped
    (ids_of e_sources (_is_survivor doc) ents) doc ns s s1 /\ relationships_stripped
    (ids_of r_sources (_is_survivor doc) rels) doc ns s1 s').
Proof.
  unfold strip_survivors. apply on_stores_bind; [|intros _].
  - apply on_stores_when; [intros ->%nonempty_false; auto with khora|].
    apply on_stores_both; [apply cu_strip_entities|].
    apply (mirror_step (fun m => _strip_entities m _ _ _)); [done|].
    intros m C. apply cu_strip_entities.
  - apply on_stores_when; [intros ->%nonempty_false; auto with khora|].
    apply on_stores_both; [apply cu_strip_relationships|].
    apply (mirror_step (fun m => _strip_relationships m _ _ _)); [done|].
    intros m C. apply cu_strip_relationships.
Qed.

Definition rels_listed ns sd (L : Z -> Store -> RelationshipRow -> bool) w rels : Prop :=
  lists _SCAN_LIMIT (fun _ r => Z.eqb (r_namespace_id r) ns && L ns (store_of sd w) r)
    (st_relationships (store_of sd w)) rels.

(** The relationships come from the primary or, when it lists none, from the mirror. *)
Lemma list_for_cascade_runs ns w :
  w_faults w = [] -> exists rels, list_for_cascade pa mirror ns w = (Ok rels, w)
    /\ (rels_listed ns p Lp w rels /\ (is_Some mirror -> rels <> [])
        \/ is_Some mirror /\ rels_listed ns p Lp w [] /\ rels_listed ns (other p) Lm w rels).
Proof.
  intros Hw. unfold list_for_cascade.
  destruct (cu_list_relationships ns _SCAN_LIMIT w Hw) as (rels & s' & E & -> & Hl).
  rewrite set_same in E. unfold mbind, M_bind. rewrite E. destruct (nonempty rels) eqn:Hne.
  { exists rels. split; [done|]. left. split; [done|]. by intros _ ->. }
  apply nonempty_false in Hne as ->. destruct mirror as [m|].
  2: { exists []. split; [done|]. left. split; [done|]. by intros []. }
  specialize (CM _ eq_refl).
  pose proof (cu_list_relationships (Cleanup := CM) ns _SCAN_LIMIT) as H2.
  destruct (effect_method _ _ _ _ H2) as [f Ef].
  destruct (H2 w Hw) as (rels & s' & E2 & -> & Hl2). rewrite set_same in E2. rewrite Ef in E2 |- *.
  exists rels. split; [done|]. right. split; [by eexists|done].
Qed.

Lemma cascade_runs doc ns w :
  w_faults w = [] -> exists ents rels ds w',
    cascade_on pa mirror graph doc ns w = (Ok ds, w')
    /\ lists _SCAN_LIMIT (fun _ e => Z.eqb (e_namespace_id e) ns && _entity_live_filter now e)
         (st_entities (store_of p w)) ents
    /\ (rels_listed ns p Lp w rels /\ (is_Some mirror -> rels <> [])
        \/ is_Some mirror /\ rels_listed ns p Lp w [] /\ rels_listed ns (other p) Lm w rels)
    /\ forall sd, sd = p \/ is_Some mirror ->
         phases doc ns (ids_of e_sources (_is_orphan doc) ents) (ids_of r_sources (_is_orphan doc) rels)
           (ids_of e_sources (_is_survivor doc) ents) (ids_of r_sources (_is_survivor doc) rels)
           (store_of sd w) (store_of sd w').
Proof.
  intros Hw. unfold cascade_on.
  destruct (cu_list_entities ns _SCAN_LIMIT w Hw) as (ents & s' & E & -> & Hents).
  rewrite set_same in E. destruct (list_for_cascade_runs ns w Hw) as (rels & E2 & Hrels).
  destruct (delete_orphans_runs doc ns ents rels w Hw) as (n & w1 & E3 & F1 & H1).
  destruct (strip_survivors_runs doc ns ents rels w1 F1) as ([] & w2 & E4 & F2 & H2).
  exists ents, rels. unfold mbind, M_bind. rewrite E, E2, E3, E4. do 2 eexists.
  split; [done|]. split_and!; [done..|]. intros sd Hsd.
  destruct (H1 sd Hsd) as (s1 & ? & s2 & ? & ?), (H2 sd Hsd) as (s4 & ? & ?).
  exists s1, s2, (store_of sd w1), s4. auto.
Qed.
End run.

(** ** What a forgotten document leaves *)

Definition entity_in_scope (now ns : Z) (e : EntityRow) : bool :=
  Z.eqb (e_namespace_id e) ns && _entity_live_filter now e.

Definition relationship_in_scope (L : Z -> Store -> RelationshipRow -> bool) (ns : Z) (s : Store)
    (r : RelationshipRow) : bool :=
  Z.eqb (r_namespace_id r) ns && L ns s r.

(** An entity citing the document alone is gone, one citing another stays without the
    document, any other is as it was. *)
Definition entities_forgotten (now doc ns : Z) (s s' : Store) : Prop := forall i,
  match st_entities s !! i with
  | None => st_entities s' !! i = None
  | Some e =>
      if entity_in_scope now ns e && cites doc (sources_of (e_sources e)) then
        (sources_of (e_sources e) = [doc] -> st_entities s' !! i = None)
        /\ (forall d, d ∈ sources_of (e_sources e) -> d <> doc -> is_Some (st_entities s' !! i))
        /\ (forall e', st_entities s' !! i = Some e' -> entity_stripped doc e e')
      else st_entities s' !! i = Some e
  end.

(** The same for relationships, save that one may go with an endpoint or a sweep. *)
Definition relationships_forgotten (L : Z -> Store -> RelationshipRow -> bool) (doc ns : Z)
    (s s' : Store) : Prop := forall i,
  match st_relationships s !! i with
  | None => st_relationships s' !! i = None
  | Some r =>
      (st_relationships s' !! i = None /\
        (incident (fun j => bool_decide (st_entities s' !! j = None)) r = true \/ sweepable doc ns r = true))
      \/ if relationship_in_scope L ns s r && cites doc (sources_of (r_sources r)) then
           (sources_of (r_sources r) = [doc] -> st_relationships s' !! i = None)
           /\ (forall d, d ∈ sources_of (r_sources r) -> d <> doc -> is_Some (st_relationships s' !! i))
           /\ (forall r', st_relationships s' !! i = Some r' -> relationship_stripped doc r r')
         else st_relationships s' !! i = Some r
  end.

(** Rows stored on both sides are in scope together and have the same sources. *)
Definition agree {R} (src : R -> option (list Z)) (fp fm : R -> bool) (tp tm : gmap Z R) : Prop :=
  forall i r r', tp !! i = Some r -> tm !! i = Some r' ->
    fp r = fm r' /\ sources_of (src r) = sources_of (src r').

(** Every row of the mirror in scope is in the primary. *)
Definition covers {R} (fm : R -> bool) (tp tm : gmap Z R) : Prop :=
  forall i r', tm !! i = Some r' -> fm r' = true -> is_Some (tp !! i).

(** The mirror is in step with the primary; the primary's relationships may all be absent,
    as in the table that pgvector keeps unwritten. *)
Definition in_step (now ns : Z) (Lp Lm : Z -> Store -> RelationshipRow -> bool) (sp sm : Store) : Prop :=
  agree e_sources (entity_in_scope now ns) (entity_in_scope now ns) (st_entities sp) (st_entities sm)
  /\ covers (entity_in_scope now ns) (st_entities sp) (st_entities sm)
  /\ agree r_sources (relationship_in_scope Lp ns sp) (relationship_in_scope Lm ns sm)
       (st_relationships sp) (st_relationships sm)
  /\ (covers (relationship_in_scope Lm ns sm) (st_relationships sp) (st_relationships sm)
      \/ forall i r, st_relationships sp !! i = Some r -> relationship_in_scope Lp ns sp r = false).

(** [ids] are, among the rows of the table, those in scope whose sources satisfy [pred]. *)
Definition classified {R} (src : R -> option (list Z)) (f : R -> bool) (pred : option (list Z) -> bool)
    (ids : list Z) (t : gmap Z R) : Prop :=
  forall i r, t !! i = Some r -> (i ∈ ids <-> f r = true /\ pred (src r) = true).

Section classify.
Context {R : Type} (src : R -> option (list Z)) (pred : option (list Z) -> bool).
Context (pred_sources : forall s s', sources_of s = sources_of s' -> pred s = pred s').

Lemma elem_of_ids_of rows i : i ∈ ids_of src pred rows <-> exists r, (i, r) ∈ rows /\ pred (src r) = true.
Proof.
  unfold ids_of. rewrite list_elem_of_In, in_map_iff. split.
  - intros ([j r] & <- & [H ?]%filter_In). exists r. by rewrite list_elem_of_In.
  - intros (r & H & ?). exists (i, r). split; [done|]. apply filter_In. by rewrite <- list_elem_of_In.
Qed.

Lemma classified_own f t rows limit :
  lists limit (fun _ r => f r) t rows -> (size t <= limit)%nat ->
  classified src f pred (ids_of src pred rows) t
  /\ forall i, i ∈ ids_of src pred rows -> is_Some (t !! i).
Proof.
  intros [H1 H2] Hsz. split.
  - intros i r Hi. rewrite elem_of_ids_of. split.
    + intros (r' & Hr & Hp). destruct (H1 _ _ Hr) as [Hi' Hf]. by simplify_eq.
    + intros [Hf Hp]. exists r. split; [|done]. by apply H2.
  - intros i (r & Hr & _)%elem_of_ids_of. destruct (H1 _ _ Hr) as [-> _]. by eexists.
Qed.

Lemma classified_agree fp fm tp tm ids :
  agree src fp fm tp tm -> covers fm tp tm ->
  classified src fp pred ids tp -> (forall i, i ∈ ids -> is_Some (tp !! i)) ->
  classified src fm pred ids tm.
Proof.
  intros Ha Hc Hcl Hdom i r' Hi. split.
  - intros Hids. destruct (Hdom i Hids) as [r Hr]. destruct (Ha _ _ _ Hr Hi) as [<- Hs].
    rewrite <- (pred_sources _ _ Hs). by apply (Hcl _ _ Hr).
  - intros [Hf Hp]. destruct (Hc _ _ Hi Hf) as [r Hr]. apply (Hcl _ _ Hr).
    destruct (Ha _ _ _ Hr Hi) as [-> Hs]. by rewrite (pred_sources _ _ Hs).
Qed.

(** In a table where no row in scope has the id, nothing is classified. *)
Lemma classified_absent fp fm tp tm ids :
  agree src fp fm tp tm -> (forall i r, tp !! i = Some r -> fp r = false) ->
  classified src fm pred ids tm -> (forall i, i ∈ ids -> is_Some (tm !! i)) ->
  classified src fp pred ids tp.
Proof.
  intros Ha Hn Hcl Hdom i r Hr. split; [|by rewrite (Hn _ _ Hr); intros []].
  intros Hids. destruct (Hdom i Hids) as [r' Hr']. destruct (proj1 (Hcl _ _ Hr') Hids) as [Hf _].
  destruct (Ha _ _ _ Hr Hr') as [E _]. rewrite (Hn _ _ Hr) in E. congruence.
Qed.
End classify.

Lemma orphan_ext doc s s' : sources_of s = sources_of s' -> _is_orphan doc s = _is_orphan doc s'.
Proof. unfold _is_orphan. by intros ->. Qed.
Lemma survivor_ext doc s s' : sources_of s = sources_of s' -> _is_survivor doc s = _is_survivor doc s'.
Proof. unfold _is_survivor. by intros ->. Qed.

(** From the classification of a store's rows to what is left of them. *)
Section conclude.
Context (now doc ns : Z) (L : Z -> Store -> RelationshipRow -> bool) (oe ore se sr : list Z) (s s' : Store).
Context (Hphases : phases doc ns oe ore se sr s s').
Context (Hoe : classified e_sources (entity_in_scope now ns) (_is_orphan doc) oe (st_entities s)).
Context (Hse : classified e_sources (entity_in_scope now ns) (_is_survivor doc) se (st_entities s)).
Context (Hore : classified r_sources (relationship_in_scope L ns s) (_is_orphan doc) ore (st_relationships s)).
Context (Hsr : classified r_sources (relationship_in_scope L ns s) (_is_survivor doc) sr (st_relationships s)).

(** A row's three fates, in terms of its sources. *)
Lemma fate {R} (t t' : gmap Z R) (src : R -> option (list Z)) (scope : R -> bool) (stripped : R -> R -> Prop)
    (o sv : list Z) i r :
  t !! i = Some r ->
  classified src scope (_is_orphan doc) o t -> classified src scope (_is_survivor doc) sv t ->
  (i ∈ o -> t' !! i = None) ->
  (i ∉ o -> i ∈ sv -> exists r', t' !! i = Some r' /\ stripped r r') ->
  (i ∉ o -> i ∉ sv -> t' !! i = Some r) ->
  if scope r && cites doc (sources_of (src r)) then
    (sources_of (src r) = [doc] -> t' !! i = None)
    /\ (forall d, d ∈ sources_of (src r) -> d <> doc -> is_Some (t' !! i))
    /\ (forall r', t' !! i = Some r' -> stripped r r')
  else t' !! i = Some r.
Proof.
  intros Hi Ho Hs H1 H2 H3. specialize (Ho i r Hi). specialize (Hs i r Hi).
  destruct (scope r); [destruct (cites doc (sources_of (src r))) eqn:Hc|]; simpl.
  - pose proof (orphan_or_survivor doc (src r) Hc) as Hos.
    destruct (_is_survivor doc (src r)) eqn:Esv; simpl in Hos; rewrite Hos in Ho.
    + destruct H2 as (r' & E & Hr'); [naive_solver..|]. split_and!.
      * intros Hd%orphan_sources. congruence.
      * by rewrite E.
      * intros r2. rewrite E. by intros [= <-].
    + rewrite H1 by naive_solver. split_and!; [done| |done].
      apply orphan_sources in Hos. rewrite Hos. intros d ->%list_elem_of_singleton. done.
  - apply H3; [rewrite Ho|rewrite Hs]; unfold _is_orphan, _is_survivor; rewrite Hc; by intros [].
  - apply H3; naive_solver.
Qed.

Lemma concluded : entities_forgotten now doc ns s s' /\ relationships_forgotten L doc ns s s'.
Proof.
  split; intros i.
  - pose proof (phases_entity _ _ _ _ _ _ _ _ Hphases i) as Hp.
    destruct (st_entities s !! i) as [e|] eqn:E; [|done]. destruct Hp as (H1 & H2 & H3).
    assert (forall ids p, classified e_sources (entity_in_scope now ns) p ids (st_entities s) ->
      i ∈ ids -> e_namespace_id e = ns) as Hns.
    { intros ids p Hcl Hi. by destruct (proj1 (Hcl _ _ E) Hi) as [[Hn%Z.eqb_eq _]%andb_prop _]. }
    apply (fate (st_entities s) _ _ _ _ oe se); eauto.
  - pose proof (phases_relationship _ _ _ _ _ _ _ _ Hphases i) as Hp.
    destruct (st_relationships s !! i) as [r|] eqn:E; [|done].
    destruct Hp as [(Hn & Hg)|(H1 & H2 & H3)].
    + left. split; [done|]. destruct Hg as [Hg|Hg]; [left|by right]. revert Hg. apply incident_mono.
      intros j Hj%mem_id_spec. apply bool_decide_eq_true.
      pose proof (phases_entity _ _ _ _ _ _ _ _ Hphases j) as Hj'.
      destruct (st_entities s !! j) as [e|] eqn:Ej; [|done]. apply Hj'; [done|].
      by destruct (proj1 (Hoe _ _ Ej) Hj) as [[Hn'%Z.eqb_eq _]%andb_prop _].
    + right.
      assert (forall ids p, classified r_sources (relationship_in_scope L ns s) p ids (st_relationships s) ->
        i ∈ ids -> r_namespace_id r = ns) as Hns.
      { intros ids p Hcl Hi. by destruct (proj1 (Hcl _ _ E) Hi) as [[Hn%Z.eqb_eq _]%andb_prop _]. }
      apply (fate (st_relationships s) _ _ _ _ ore sr); eauto.
Qed.
End conclude.

Definition within_limit (s : Store) : Prop :=
  (size (st_entities s) <= _SCAN_LIMIT)%nat /\ (size (st_relationships s) <= _SCAN_LIMIT)%nat.

Definition forgotten (now : Z) (L : Z -> Store -> RelationshipRow -> bool) (doc ns : Z) (s s' : Store) : Prop :=
  entities_forgotten now doc ns s s' /\ relationships_forgotten L doc ns s s'.

Section erases.
Context (now : Z) (p : side) (pa : StoreApi) (Lp Lm : Z -> Store -> RelationshipRow -> bool).
Context `{CP : !Cleanup now p pa Lp}.
Context (mirror graph : option StoreApi).
Context (CM : forall m, mirror = Some m -> Cleanup now (other p) m Lm).
Context (Hgraph : graph = None \/ graph = Some pa \/ graph = mirror).

Lemma cascade_on_erases doc ns w :
  w_faults w = [] -> (forall sd, within_limit (store_of sd w)) ->
  (is_Some mirror -> in_step now ns Lp Lm (store_of p w) (store_of (other p) w)) ->
  exists ds w', cascade_on pa mirror graph doc ns w = (Ok ds, w')
    /\ forgotten now Lp doc ns (store_of p w) (store_of p w')
    /\ (is_Some mirror -> forgotten now Lm doc ns (store_of (other p) w) (store_of (other p) w')).
Proof.
  intros Hw Hlim Hstep.
  destruct (cascade_runs now p pa Lp Lm mirror graph CM Hgraph doc ns w Hw)
    as (ents & rels & ds & w' & E & Hents & Hrels & Hph).
  exists ds, w'. split; [done|]. destruct (Hlim p) as [Le Lr], (Hlim (other p)) as [_ Lr'].
  pose proof (fun pred => classified_own e_sources pred _ _ _ _ Hents Le) as Ce.
  destruct Hrels as [[Hr Hne]|(Hm & Hnil & Hr)].
  - pose proof (fun pred => classified_own r_sources pred _ _ _ _ Hr Lr) as Cr. split.
    + eapply concluded; [by apply Hph; left|apply Ce..|apply Cr|apply Cr].
    + intros Hm. destruct (Hstep Hm) as (A1 & A2 & A3 & A4).
      assert (covers (relationship_in_scope Lm ns (store_of (other p) w)) (st_relationships (store_of p w))
                (st_relationships (store_of (other p) w))) as A4'.
      { destruct A4 as [?|A4]; [done|]. destruct rels as [|[i r] rels]; [by destruct (Hne Hm)|].
        destruct (proj1 Hr i r) as [H1 H2]; [left|]. specialize (A4 _ _ H1). unfold relationship_in_scope in A4. congruence. }
      eapply concluded; [by apply Hph; right|..];
        eapply classified_agree; eauto using orphan_ext, survivor_ext; first [apply Ce|apply Cr].
  - pose proof (fun pred => classified_own r_sources pred _ _ _ _ Hr Lr') as Cr.
    destruct (Hstep Hm) as (A1 & A2 & A3 & _).
    assert (forall i r, st_relationships (store_of p w) !! i = Some r ->
              relationship_in_scope Lp ns (store_of p w) r = false) as Hno.
    { intros i r Hi. destruct (relationship_in_scope Lp ns (store_of p w) r) eqn:E2; [|done].
      by pose proof (proj2 Hnil Lr _ _ Hi E2) as ?%elem_of_nil. }
    split.
    + eapply concluded; [by apply Hph; left|apply Ce..| |]; eapply classified_absent; eauto; apply Cr.
    + intros _. eapply concluded; [by apply Hph; right| | |apply Cr..];
        eapply classified_agree; eauto using orphan_ext, survivor_ext; apply Ce.
Qed.
End erases.

(** ** Deployments *)

Inductive StoreKind := PgVector | SqliteLance | Neo4j.

Section deployment.
Context (order_entities : list (Z * EntityRow) -> list (Z * EntityRow)).
Context (order_relationships : list (Z * RelationshipRow) -> list (Z * RelationshipRow)).
Context (now : Z).

Definition api_of (k : StoreKind) (sd : side) : StoreApi :=
  match k with
  | PgVector => pgvector order_entities order_relationships now sd
  | SqliteLance => sqlite_lance order_entities order_relationships now sd
  | Neo4j => neo4j order_entities order_relationships now sd
  end.

(** The condition under which a store lists a relationship of its namespace. *)
Definition listed_of (k : StoreKind) (ns : Z) (s : Store) (r : RelationshipRow) : bool :=
  match k with Neo4j => neo4j_listed now ns s r | _ => _relationship_live_filter now r end.

(** The two configured stores, and the cascade over them. *)
Definition forget_on (vector graph : option StoreKind) (doc ns : Z) : M (list Degradation) :=
  cascade_forget_extraction ((fun k => api_of k Graph) <$> graph) ((fun k => api_of k Vector) <$> vector) doc ns.

Definition stores_in_step (vector graph : option StoreKind) (ns : Z) (w : World) : Prop :=
  match vector, graph with
  | Some kv, Some kg => in_step now ns (listed_of kv) (listed_of kg) (w_vector w) (w_graph w)
  | _, _ => True
  end.

Context (order_entities_perm : forall l, order_entities l ≡ₚ l).
Context (order_relationships_perm : forall l, order_relationships l ≡ₚ l).

#[local] Instance api_of_cleanup k sd : Cleanup now sd (api_of k sd) (listed_of k).
Proof.
  destruct k; simpl.
  - by apply pgvector_cleanup.
  - by apply sqlite_lance_cleanup.
  - by apply neo4j_cleanup.
Qed.

Lemma capable_api k sd : capable (Some (api_of k sd)) = Some (api_of k sd).
Proof. by destruct k. Qed.

End deployment.

(** A PostgreSQL stack with a Neo4j graph: entity 1 is sourced by documents 7 and 8,
    entity 2 by document 7 alone, and the edge between them, by document 7, is in Neo4j. *)
Definition sample_entities : gmap Z EntityRow :=
  {[1 := MkEntityRow 5 (Some [7; 8]) None; 2 := MkEntityRow 5 (Some [7]) None]}%Z.
Definition sample_edges : gmap Z RelationshipRow :=
  {[3 := MkRelationshipRow 5 (Some 1) (Some 2) (Some [7]) None None None]}%Z.
Definition sample_world (faults : list bool) : World :=
  MkWorld (MkStore sample_entities ∅) (MkStore sample_entities sample_edges) faults.

Lemma sample_in_step ns now : stores_in_step now (Some PgVector) (Some Neo4j) ns (sample_world []).
Proof.
  split_and!.
  - intros i r r'. simpl. intros -> [= ->]. done.
  - intros i r' H _. by exists r'.
  - intros i r r' H. cbn in H. by rewrite lookup_empty in H.
  - right. intros i r H. cbn in H. by rewrite lookup_empty in H.
Qed.

Lemma small_within_limit s :
  Nat.leb (size (st_entities s)) 10 && Nat.leb (size (st_relationships s)) 10 = true -> within_limit s.
Proof.
  intros [H1%Nat.leb_le H2%Nat.leb_le]%andb_prop. unfold within_limit, _SCAN_LIMIT. split; lia.
Qed.

