(* ===== verification/ForgetFaults.v ===== *)
(** * The forget cascade under failures, and what it can leave behind

    Whatever call fails, an entity that another document sources is kept by the primary;
    proved by triples over runs, method by method.  Then four concrete runs after which a
    store still holds what forgetting should have removed, or lost what it should keep. *)
From S2P Require Import Prelude PyValue FilterExecute ForgetCascade ForgetCascadeFacts.

(** ** Calls that fail *)

(** [P] holds after [m] whatever happens, and [Q] of what [m] returns. *)
Definition triple {A} (P : World -> Prop) (m : M A) (Q : A -> Prop) : Prop :=
  forall w, P w -> P (m w).2 /\ forall a, (m w).1 = Ok a -> Q a.

Lemma triple_ret {A} P (a : A) (Q : A -> Prop) : Q a -> triple P (mret a) Q.
Proof. intros HQ w HP. split; [done|]. by intros b [= <-]. Qed.

Lemma triple_raise {A} P e (Q : A -> Prop) : triple P (raise e) Q.
Proof. intros w HP. by split. Qed.

Lemma triple_bind {A B} P (m : M A) (k : A -> M B) Q R :
  triple P m Q -> (forall a, Q a -> triple P (k a) R) -> triple P (m ≫= k) R.
Proof.
  intros Hm Hk w HP. destruct (Hm w HP) as [H1 H2]. unfold mbind, M_bind.
  destruct (m w) as [[a|e] w']; simpl in *; [|done]. by apply (Hk a (H2 a eq_refl)).
Qed.

Lemma triple_weaken {A} P (m : M A) (Q Q' : A -> Prop) :
  triple P m Q -> (forall a, Q a -> Q' a) -> triple P m Q'.
Proof. intros Hm HQ w HP. destruct (Hm w HP). eauto. Qed.

Lemma triple_when P c (m : M ()) : triple P m (fun _ => True) -> triple P (when c m) (fun _ => True).
Proof. destruct c; [done|]. intros _. by apply triple_ret. Qed.

Lemma triple_count P f ids :
  (forall i, i ∈ ids -> triple P (f i) (fun _ => True)) -> triple P (count_m f ids) (fun _ => True).
Proof.
  induction ids as [|i ids IH]; simpl; intros H; [by apply triple_ret|].
  eapply triple_bind; [apply H; left|]. intros b _.
  eapply triple_bind; [apply IH; intros; apply H; by right|]. intros n _. by apply triple_ret.
Qed.

(** A row of an entity as it was, or without the document. *)
Definition entity_kept (doc : Z) (e e' : EntityRow) : Prop := e' = e \/ entity_stripped doc e e'.

Definition store_keeps (doc i : Z) (e : EntityRow) (s : Store) : Prop :=
  exists e', st_entities s !! i = Some e' /\ entity_kept doc e e'.

Lemma kept_stripped doc e e1 e2 : entity_kept doc e e1 -> entity_stripped doc e1 e2 -> entity_kept doc e e2.
Proof. intros [->|H] H2; right; [done|]. eapply entity_stripped_trans; eauto. Qed.

Lemma kept_sources doc d e e' :
  entity_kept doc e e' -> d ∈ sources_of (e_sources e) -> d <> doc -> d ∈ sources_of (e_sources e').
Proof. intros [->|(_ & _ & ->)]; [done|]. intros. by apply elem_of_without. Qed.

(** A transaction on either store, seen from store [sd]. *)
Lemma triple_call {A} sd sd' (K : Store -> Prop) (f : Store -> A * Store) (Q : A -> Prop) :
  (forall s, (sd' = sd -> K s) -> Q (f s).1) -> (forall s, sd' = sd -> K s -> K (f s).2) ->
  triple (fun w => K (store_of sd w)) (call sd' f) Q.
Proof.
  intros HQ HK w HP. unfold call.
  assert (forall fs, K (store_of sd (set_store sd' (f (store_of sd' w)).2 (MkWorld (w_vector w) (w_graph w) fs))))
    as Hset.
  { intros fs. destruct sd, sd'; simpl in *; auto. }
  assert (Q (f (store_of sd' w)).1) as Hq by (apply HQ; by intros ->).
  destruct (w_faults w) as [|[] fs]; simpl.
  - specialize (Hset []). destruct (f (store_of sd' w)) as [a s']; simpl in *. split; [done|]. by intros ? [= <-].
  - split; [by destruct sd|done].
  - specialize (Hset fs). destruct (f (store_of sd' w)) as [a s']; simpl in *. split; [done|]. by intros ? [= <-].
Qed.

Lemma triple_batch sd sd' (K : Store -> Prop) ids f :
  (forall s, sd' = sd -> K s -> K (f s).2) ->
  triple (fun w => K (store_of sd w)) (batch sd' ids f) (fun _ => True).
Proof. intros HK. destruct ids; simpl; [by apply triple_ret|]. by apply triple_call. Qed.

Lemma keeps_delete doc i e ids ns s s' :
  i ∉ ids -> st_entities s' = delete_where (entity_in ids ns) (st_entities s) ->
  store_keeps doc i e s -> store_keeps doc i e s'.
Proof.
  intros Hi E (e' & He & Hk). exists e'. split; [|done]. rewrite E, lookup_delete_where, He. simpl.
  unfold entity_in. by rewrite (proj2 (mem_id_false _ _) Hi).
Qed.

Lemma keeps_update doc i e p f s s' :
  (forall e', entity_stripped doc e' (f e')) -> st_entities s' = update_where p f (st_entities s) ->
  store_keeps doc i e s -> store_keeps doc i e s'.
Proof.
  intros Hf E (e' & He & Hk). unfold store_keeps. rewrite E, lookup_update_where, He. simpl.
  eexists. split; [done|]. destruct (p i e'); [|done]. by eapply kept_stripped.
Qed.

Lemma keeps_same doc i e s s' : st_entities s' = st_entities s -> store_keeps doc i e s -> store_keeps doc i e s'.
Proof. unfold store_keeps. by intros ->. Qed.

(** *** The stores keep the row of an entity they are not asked to delete *)

Section keeps.
Context (sd : side) (doc ns i : Z) (e : EntityRow).

Local Abbreviation Kept := (fun w => store_keeps doc i e (store_of sd w)).

(** What a store's methods keep, whichever call fails: [api] is on either side. *)
Class Keeps (api : StoreApi) : Prop := {
  kp_list_relationships n limit :
    triple Kept (method (list_relationships api) (fun f => f n limit)) (fun _ => True);
  kp_delete_entities ids : i ∉ ids ->
    triple Kept (method (delete_entities_batch api) (fun f => f ids ns)) (fun _ => True);
  kp_delete_relationships ids :
    triple Kept (method (delete_relationships_batch api) (fun f => f ids ns)) (fun _ => True);
  kp_strip_entities ids : triple Kept (_strip_entities (Some api) ids doc ns) (fun _ => True);
  kp_strip_relationships ids : triple Kept (_strip_relationships (Some api) ids doc ns) (fun _ => True);
  kp_sweep : triple Kept (_sweep_malformed_orphan_relationships (Some api) doc ns) (fun _ => True);
}.

Lemma triple_drop {A} P (m : M A) :
  triple P m (fun _ => True) -> triple P (_ ← m; mret ()) (fun _ => True).
Proof. intros H. eapply triple_bind; [exact H|]. intros a _. by apply triple_ret. Qed.

Lemma keeps_read {A} sd' (f : Store -> A) :
  triple Kept (call sd' (fun s => (f s, s))) (fun _ => True).
Proof. by apply triple_call. Qed.

Lemma base_keeps_delete_entities sd' ids : i ∉ ids ->
  triple Kept (base_delete_entities_batch sd' ids ns) (fun _ => True).
Proof.
  intros Hi. apply triple_count. intros j Hj. apply triple_call; [done|]. intros s _.
  apply keeps_delete with (ids := [j]) (ns := ns); [|done].
  rewrite list_elem_of_singleton. by intros ->.
Qed.

Lemma base_keeps_delete_relationships sd' ids :
  triple Kept (base_delete_relationships_batch sd' ids ns) (fun _ => True).
Proof. apply triple_count. intros j Hj. by apply triple_call. Qed.

Lemma base_keeps_strip_entities sd' ids :
  triple Kept (base_strip_document_from_entities sd' ids doc ns) (fun _ => True).
Proof.
  apply triple_count. intros j _. eapply triple_bind.
  { apply triple_call with (Q := fun o => forall e0, o = Some e0 -> sd' = sd -> j = i -> entity_kept doc e e0).
    - intros s HK e0 [He0 _]%get_entity_spec Hsd ->. destruct (HK Hsd) as (e' & He' & Hk). by simplify_eq.
    - done. }
  intros [e0|] H0; [|by apply triple_ret].
  destruct (cites doc _); [|by apply triple_ret].
  eapply triple_bind; [|intros u _; by apply triple_ret].
  apply triple_call with (Q := fun _ => True); [done|]. intros s Hsd (e' & He' & Hk).
  unfold store_keeps, update_entity. cbn. rewrite lookup_update_where, He'. eexists. split; [done|].
  unfold entity_in. simpl. destruct (Z.eqb_spec i j) as [->|]; simpl; [|done].
  destruct (Z.eqb _ _); [|done]. eapply kept_stripped; [by apply (H0 e0)|]. by repeat split.
Qed.

Lemma base_keeps_strip_relationships sd' ids :
  triple Kept (base_strip_document_from_relationships sd' ids doc ns) (fun _ => True).
Proof.
  apply triple_count. intros j _. eapply triple_bind; [apply keeps_read|].
  intros [r|] _; [|by apply triple_ret]. destruct (cites doc _); [|by apply triple_ret].
  eapply triple_bind; [by apply (triple_call _ _ (store_keeps doc i e)) with (Q := fun _ => True)|].
  intros b _. eapply triple_bind; [by apply (triple_call _ _ (store_keeps doc i e)) with (Q := fun _ => True)|].
  intros u _. by apply triple_ret.
Qed.

Lemma keeps_batch sd' ids f :
  (forall s, store_keeps doc i e s -> store_keeps doc i e (f s).2) ->
  triple Kept (batch sd' ids f) (fun _ => True).
Proof. intros Hf. apply triple_batch. auto. Qed.
End keeps.

Section interrupted.
Context (order_entities : list (Z * EntityRow) -> list (Z * EntityRow)).
Context (order_relationships : list (Z * RelationshipRow) -> list (Z * RelationshipRow)).
Context (order_entities_perm : forall l, order_entities l ≡ₚ l).
Context (now : Z).

Local Abbreviation api k sd' := (api_of order_entities order_relationships now k sd').

Lemma api_keeps sd doc ns i e k sd' : Keeps sd doc ns i e (api k sd').
Proof.
  destruct k; split; simpl; intros;
    auto using base_keeps_delete_entities, base_keeps_delete_relationships, keeps_read, triple_ret;
    try (apply triple_drop;
         auto using base_keeps_strip_entities, base_keeps_strip_relationships).
  all: try (apply keeps_batch; intros s; eapply keeps_delete; [done|reflexivity]).
  all: try (apply keeps_batch; intros s; apply keeps_same; reflexivity).
  all: try (apply keeps_batch; intros s; eapply keeps_update; [|reflexivity]; intros e'; repeat split; apply in_without).
  apply triple_call; [done|]. intros s _. by apply keeps_same.
Qed.

Lemma try_keeps {F} P (api : StoreApi) (name : StoreApi -> option F) (k : F -> M nat) :
  triple P (method (name api) k) (fun _ => True) ->
  triple P (try_method (Some api) name k) (fun _ => True).
Proof.
  simpl. destruct (name api); simpl; intros H; [by apply triple_drop|by apply triple_ret].
Qed.

(** The rows listed from a store that keeps the row are its rows. *)
Lemma listed_kept doc d sd i e k ns :
  d ∈ sources_of (e_sources e) -> d <> doc ->
  triple (fun w => store_keeps doc i e (store_of sd w))
    (method (list_entities (api k sd)) (fun f => f ns _SCAN_LIMIT))
    (fun rows => i ∉ ids_of e_sources (_is_orphan doc) rows).
Proof.
  intros Hd Hne.
  assert (forall f : Store -> list (Z * EntityRow),
    (forall s, lists _SCAN_LIMIT (fun _ r => Z.eqb (e_namespace_id r) ns && _entity_live_filter now r)
       (st_entities s) (f s)) ->
    triple (fun w => store_keeps doc i e (store_of sd w)) (call sd (fun s => (f s, s)))
      (fun rows => i ∉ ids_of e_sources (_is_orphan doc) rows)) as H.
  { intros f Hf. apply triple_call; [|done]. intros s HK. destruct (HK eq_refl) as (e' & He' & Hk).
    rewrite elem_of_ids_of. intros (r & Hr & Ho). destruct (proj1 (Hf s) _ _ Hr) as [Hr' _]. simplify_eq.
    pose proof (kept_sources _ _ _ _ Hk Hd Hne) as Hd'. apply orphan_sources in Ho. rewrite Ho in Hd'.
    by apply list_elem_of_singleton in Hd'. }
  destruct k; apply H; intros s; by apply lists_take.
Qed.

Section two_stores.
Context (doc ns i : Z) (e : EntityRow) (sd : side) (primary : StoreApi) (mirror graph : option StoreApi).
Context (HP : Keeps sd doc ns i e primary).
Context (HM : forall m, mirror = Some m -> Keeps sd doc ns i e m).
Context (HG : forall g, graph = Some g -> Keeps sd doc ns i e g).

Local Abbreviation keeps m := (triple (fun w => store_keeps doc i e (store_of sd w)) m (fun _ => True)).

Lemma list_for_cascade_keeps : keeps (list_for_cascade primary mirror ns).
Proof.
  unfold list_for_cascade. eapply triple_bind; [by apply (kp_list_relationships sd doc ns i e)|]. intros rels _.
  destruct (nonempty rels); [by apply triple_ret|]. destruct mirror as [m|]; [|by apply triple_ret].
  pose proof (kp_list_relationships sd doc ns i e (Keeps := HM m eq_refl) ns _SCAN_LIMIT) as H.
  destruct (list_relationships m); [done|by apply triple_ret].
Qed.

Lemma delete_orphans_keeps ents rels :
  i ∉ ids_of e_sources (_is_orphan doc) ents -> keeps (delete_orphans primary mirror graph doc ns ents rels).
Proof.
  intros Hi. unfold delete_orphans. eapply triple_bind; [|intros [] _; eapply triple_bind; [|intros [] _]].
  - apply triple_when. eapply triple_bind; [by apply kp_delete_entities|]. intros n _.
    destruct mirror as [m|]; [|by apply triple_ret]. specialize (HM m eq_refl).
    by apply try_keeps, kp_delete_entities.
  - apply triple_when. eapply triple_bind; [by apply kp_delete_relationships|]. intros n _.
    destruct mirror as [m|]; [|by apply triple_ret]. specialize (HM m eq_refl).
    by apply try_keeps, kp_delete_relationships.
  - destruct (nonempty rels); [|by apply triple_ret].
    destruct graph as [g|]; [|by apply triple_ret]. specialize (HG g eq_refl). by apply kp_sweep.
Qed.

Lemma strip_survivors_keeps ents rels : keeps (strip_survivors primary mirror doc ns ents rels).
Proof.
  unfold strip_survivors. eapply triple_bind; [|intros [] _].
  - apply triple_when. eapply triple_bind; [by apply kp_strip_entities|]. intros n _.
    destruct mirror as [m|]; [|by apply triple_ret]. specialize (HM m eq_refl). by apply kp_strip_entities.
  - apply triple_when. eapply triple_bind; [by apply kp_strip_relationships|]. intros n _.
    destruct mirror as [m|]; [|by apply triple_ret]. specialize (HM m eq_refl). by apply kp_strip_relationships.
Qed.

Lemma cascade_on_keeps :
  triple (fun w => store_keeps doc i e (store_of sd w))
    (method (list_entities primary) (fun f => f ns _SCAN_LIMIT))
    (fun rows => i ∉ ids_of e_sources (_is_orphan doc) rows) ->
  keeps (cascade_on primary mirror graph doc ns).
Proof.
  intros Hlist. unfold cascade_on. eapply triple_bind; [exact Hlist|]. intros ents Hi.
  eapply triple_bind; [apply list_for_cascade_keeps|]. intros rels _.
  eapply triple_bind; [by apply delete_orphans_keeps|]. intros n _.
  eapply triple_bind; [apply strip_survivors_keeps|]. intros [] _. by apply triple_ret.
Qed.
End two_stores.

(** C38.  A cascade may be interrupted at any call; whatever it then leaves behind, an entity
    of the primary that another document still sources is never lost: its row is there, as
    it was or without the forgotten document.  This needs no agreement between the stores. *)
Theorem shared_entity_survives (vector graph : option StoreKind) doc ns w i e d :
  let primary := match vector with Some _ => Vector | None => Graph end in
  st_entities (store_of primary w) !! i = Some e ->
  d ∈ sources_of (e_sources e) -> d <> doc ->
  exists e', st_entities (store_of primary
      (forget_on order_entities order_relationships now vector graph doc ns w).2) !! i = Some e'
    /\ entity_kept doc e e'.
Proof.
  intros primary He Hd Hne.
  assert (store_keeps doc i e (store_of primary w)) as HK by (exists e; split; [done|by left]).
  revert w He HK. unfold primary, forget_on, cascade_forget_extraction.
  destruct vector as [kv|]; cbn [fmap option_fmap option_map];
    [|destruct graph as [kg|]; cbn [fmap option_fmap option_map]]; rewrite ?capable_api; intros w _ HK.
  - eapply (cascade_on_keeps doc ns i e Vector); [apply api_keeps| | |by eapply listed_kept|exact HK];
      destruct graph; intros m [= <-]; apply api_keeps.
  - eapply (cascade_on_keeps doc ns i e Graph); [apply api_keeps|done| |by eapply listed_kept|exact HK].
    intros m [= <-]. apply api_keeps.
  - done.
Qed.
End interrupted.

Lemma shared_entity_survives_witness : exists e',
  st_entities (w_vector (forget_on (fun l => l) (fun l => l) 0 (Some PgVector) (Some Neo4j) 7 5
    (sample_world [false; false; false; false; true])).2) !! 1%Z = Some e'
  /\ entity_kept 7 (MkEntityRow 5 (Some [7; 8]%Z) None) e'.
Proof.
  apply (shared_entity_survives (fun l => l) (fun l => l) (fun l => reflexivity l) 0 (Some PgVector) (Some Neo4j)
    7 5 (sample_world [false; false; false; false; true]) 1 (MkEntityRow 5 (Some [7; 8]%Z) None) 8).
  - reflexivity.
  - simpl. right. left.
  - done.
Defined.

(** ** Residues

    Document 7 of namespace 5 is forgotten, at time 0. *)

(** One relationship of Neo4j or sqlite_lance between two entities sourced elsewhere. *)
Definition one_edge (sources : list Z) : Store :=
  MkStore {[1 := MkEntityRow 5 (Some [9]) None; 2 := MkEntityRow 5 (Some [9]) None]}%Z
    {[3 := MkRelationshipRow 5 (Some 1) (Some 2) (Some sources) None None None]}%Z.

Definition empty_store : Store := MkStore ∅ ∅.

Local Abbreviation forget7 vector graph w :=
  (forget_on (fun l => l) (fun l => l) 0 vector graph 7 5 w).

(** Four runs that leave a residue or lose a row.
    An edge that Neo4j lists as sourced twice by the document, and by no other, counts as
    shared and stays, with no source at all.
    An entity retired by the dream jobs, whose window is closed, is not listed and stays
    sourced by the document alone.
    A cascade interrupted between the deletion in the primary and the one in the mirror,
    then run again without failure, leaves the orphan in the mirror.
    A strip in sqlite_lance interrupted between its deletion and its creation loses an edge
    that another document sources. *)
Theorem forget_leaves_residues :
  (let r := forget7 None (Some Neo4j) (MkWorld empty_store (one_edge [7; 7]%Z) []) in
   is_ok r.1 = true
   /\ option_map r_sources (st_relationships (w_graph r.2) !! 3%Z) = Some (Some []))
  /\ (let w := MkWorld (MkStore {[1 := MkEntityRow 5 (Some [7]) (Some (-1))]}%Z ∅) empty_store [] in
      let r := forget7 (Some PgVector) None w in
      is_ok r.1 = true
      /\ option_map e_sources (st_entities (w_vector r.2) !! 1%Z) = Some (Some [7%Z]))
  /\ (let r1 := forget7 (Some PgVector) (Some Neo4j) (sample_world [false; false; false; false; true]) in
      let r2 := forget7 (Some PgVector) (Some Neo4j) r1.2 in
      is_ok r1.1 = false /\ w_faults r1.2 = [] /\ is_ok r2.1 = true
      /\ st_entities (w_vector r2.2) !! 2%Z = None
      /\ option_map e_sources (st_entities (w_graph r2.2) !! 2%Z) = Some (Some [7%Z]))
  /\ (let r := forget7 None (Some SqliteLance)
                (MkWorld empty_store (one_edge [7; 8]%Z) [false; false; false; false; true]) in
      is_ok r.1 = false /\ st_relationships (w_graph r.2) !! 3%Z = None).
Proof. by vm_compute. Qed.
