(* ===== verification/PyText.v ===== *)
(** * Text as Python sees it

    A [str] as the list of its code points, with the operations the chunkers use: slicing,
    stripping, searching, splitting and joining. *)
From S2P Require Import Prelude.

Local Open Scope Z_scope.

Definition text := list Z.

(** [len(l)] *)
Definition len {A} (l : list A) : Z := Z.of_nat (length l).

(** The code points [str.strip] removes. *)
Definition is_space (c : Z) : bool :=
  Z.leb 9 c && Z.leb c 13 || Z.leb 28 c && Z.leb c 32 || Z.eqb c 133 || Z.eqb c 160
  || Z.eqb c 5760 || Z.leb 8192 c && Z.leb c 8202 || Z.eqb c 8232 || Z.eqb c 8233
  || Z.eqb c 8239 || Z.eqb c 8287 || Z.eqb c 12288.

(** A literal in the source, in ASCII. *)
Fixpoint lit (s : string) : text :=
  match s with
  | EmptyString => []
  | String a s' => Z.of_nat (Ascii.nat_of_ascii a) :: lit s'
  end.

(** [l[a:b]]: a negative bound counts from the end, and bounds are clamped. *)
Definition clamp (n i : Z) : Z :=
  if Z.ltb i 0 then Z.max 0 (i + n) else Z.min i n.

Definition slice {A} (l : list A) (a b : Z) : list A :=
  let a := clamp (len l) a in
  let b := clamp (len l) b in
  take (Z.to_nat (b - a)) (drop (Z.to_nat a) l).

Fixpoint lstrip (s : text) : text :=
  match s with
  | [] => []
  | c :: s' => if is_space c then lstrip s' else s
  end.

(** [s.strip()] *)
Definition strip (s : text) : text := reverse (lstrip (reverse (lstrip s))).

(** [bool(s)] *)
Definition truthy_text (s : text) : bool := match s with [] => false | _ => true end.

Fixpoint starts_with (p s : text) : bool :=
  match p, s with
  | [], _ => true
  | c :: p', d :: s' => Z.eqb c d && starts_with p' s'
  | _ :: _, [] => false
  end.

(** The first offset in [s] at which [p] starts, counted from [i]. *)
Fixpoint find_at (p s : text) (i : Z) : Z :=
  if starts_with p s then i
  else match s with [] => -1 | _ :: s' => find_at p s' (i + 1) end.

(** [s.find(p, start)]: there is no match beyond the end. *)
Definition find (p s : text) (start : Z) : Z :=
  if Z.ltb (len s) start then -1
  else let a := clamp (len s) start in find_at p (drop (Z.to_nat a) s) a.

(** The last offset at which [c] occurs in [s], counted from [i]; [best] when none. *)
Fixpoint rfind_at (c : Z) (s : text) (i best : Z) : Z :=
  match s with
  | [] => best
  | d :: s' => rfind_at c s' (i + 1) (if Z.eqb c d then i else best)
  end.

(** [s.rfind(c, lo, hi)] for a one-character string. *)
Definition rfind (c : Z) (s : text) (lo hi : Z) : Z :=
  rfind_at c (slice s lo hi) (clamp (len s) lo) (-1).

(** Splitting at the matches of [m], which gets the character before the place and the
    rest of the text and returns the length of the separator there, or 0.  [cur] is the
    piece being read, reversed; [skip] counts the characters of a separator still to pass. *)
Fixpoint split_loop (m : option Z -> text -> nat) (prev : option Z) (s cur : text) (skip : nat) : list text :=
  match s with
  | [] => [reverse cur]
  | c :: s' =>
      match skip with
      | S k => split_loop m (Some c) s' cur k
      | O =>
          match m prev s with
          | O => split_loop m (Some c) s' (c :: cur) 0
          | S k => reverse cur :: split_loop m (Some c) s' [] k
          end
      end
  end.

(** [s.split(sep)] for a non-empty separator. *)
Definition split_text (sep s : text) : list text :=
  split_loop (fun _ s' => if starts_with sep s' then length sep else 0%nat) None s [] 0.

(** The longest prefix of white space, and its length up to the last newline in it. *)
Fixpoint space_run (s : text) : text :=
  match s with
  | [] => []
  | c :: s' => if is_space c then c :: space_run s' else []
  end.

Fixpoint upto_last_newline (s : text) (i best : nat) : nat :=
  match s with
  | [] => best
  | c :: s' => upto_last_newline s' (S i) (if Z.eqb c 10 then S i else best)
  end.

(** The regular expression [\n\s*\n]: greedy, backing off to the last newline of the run. *)
Definition paragraph_break (_ : option Z) (s : text) : nat :=
  match s with
  | [] => 0
  | c :: s' =>
      if Z.eqb c 10 then
        match upto_last_newline (space_run s') 0 0 with O => 0 | n => S n end
      else 0
  end.

(** The regular expression [(?<=[.!?])\s+]. *)
Definition sentence_break (prev : option Z) (s : text) : nat :=
  match prev with
  | Some c => if Z.eqb c 46 || Z.eqb c 33 || Z.eqb c 63 then length (space_run s) else 0
  | None => 0
  end.

(** [sep.join(l)] *)
Fixpoint join (sep : text) (l : list text) : text :=
  match l with
  | [] => []
  | [x] => x
  | x :: l' => x ++ sep ++ join sep l'
  end.

(** The characters that are not white space. *)
Definition ink (s : text) : text := List.filter (fun c => negb (is_space c)) s.

(** ** Lemmas *)

Lemma len_app {A} (l1 l2 : list A) : len (l1 ++ l2) = len l1 + len l2.
Proof. unfold len. rewrite length_app. lia. Qed.

Lemma len_nonneg {A} (l : list A) : 0 <= len l.
Proof. unfold len. lia. Qed.

Lemma ink_app s t : ink (s ++ t) = ink s ++ ink t.
Proof. apply List.filter_app. Qed.

Lemma ink_lstrip s : ink (lstrip s) = ink s.
Proof. unfold ink. induction s as [|c s IH]; simpl; [done|]. destruct (is_space c) eqn:E; simpl; by rewrite ?E. Qed.

Lemma ink_reverse s : ink (reverse s) = reverse (ink s).
Proof.
  induction s as [|c s IH]; [done|]. rewrite reverse_cons, ink_app, IH. unfold ink. simpl.
  destruct (is_space c); simpl; [by rewrite app_nil_r|]. by rewrite reverse_cons.
Qed.

(** Stripping removes white space only. *)
Lemma ink_strip s : ink (strip s) = ink s.
Proof. unfold strip. by rewrite ink_reverse, ink_lstrip, ink_reverse, reverse_involutive, ink_lstrip. Qed.

Lemma lstrip_nil s : lstrip s = [] <-> ink s = [].
Proof.
  unfold ink. induction s as [|c s IH]; simpl; [done|]. by destruct (is_space c); simpl.
Qed.

(** A text is blank exactly when it has no ink. *)
Lemma strip_nil s : strip s = [] <-> ink s = [].
Proof.
  unfold strip. split.
  - intros H%(f_equal reverse). rewrite reverse_involutive, reverse_nil in H.
    apply lstrip_nil in H. rewrite ink_reverse in H. apply (f_equal reverse) in H.
    by rewrite reverse_involutive, ink_lstrip in H.
  - intros H. assert (lstrip s = []) as -> by by apply lstrip_nil. done.
Qed.

Lemma clamp_id n i : 0 <= i <= n -> clamp n i = i.
Proof. unfold clamp. intros. destruct (Z.ltb_spec i 0); lia. Qed.

Lemma clamp_bounds n i : 0 <= n -> 0 <= clamp n i <= n.
Proof. unfold clamp. intros. destruct (Z.ltb_spec i 0); lia. Qed.

Lemma rfind_at_spec c s i best :
  rfind_at c s i best = best \/ i <= rfind_at c s i best < i + len s.
Proof.
  revert i best. induction s as [|d s IH]; intros i best; simpl; [by left|].
  unfold len in *. simpl. destruct (Z.eqb c d).
  - right. destruct (IH (i + 1) i) as [->|H]; lia.
  - destruct (IH (i + 1) best) as [->|H]; [by left|right]. lia.
Qed.

(** A match of [rfind] is between the bounds. *)
Lemma rfind_spec c s lo hi :
  0 <= lo -> 0 <= hi <= len s -> rfind c s lo hi = -1 \/ lo <= rfind c s lo hi < hi.
Proof.
  intros Hlo Hhi. unfold rfind. pose proof (len_nonneg s).
  destruct (rfind_at_spec c (slice s lo hi) (clamp (len s) lo) (-1)) as [->|H0]; [by left|right].
  revert H0. unfold slice. set (n := take _ _).
  assert (len n <= Z.max 0 (clamp (len s) hi - clamp (len s) lo)) as Hn.
  { unfold n, len. rewrite length_take. lia. }
  pose proof (clamp_bounds (len s) lo). unfold clamp in *.
  destruct (Z.ltb_spec lo 0), (Z.ltb_spec hi 0); lia.
Qed.

Lemma starts_with_app p s : starts_with p s = true -> exists s', s = p ++ s'.
Proof.
  revert s. induction p as [|c p IH]; intros s; simpl; [by exists s|].
  destruct s as [|d s]; [done|]. intros [->%Z.eqb_eq H]%andb_prop. destruct (IH s H) as [s' ->]. by exists s'.
Qed.

Lemma split_loop_nonempty m prev s cur skip : split_loop m prev s cur skip <> [].
Proof.
  revert prev cur skip. induction s as [|c s IH]; intros prev cur skip; simpl; [done|].
  destruct skip; [|done]. by destruct (m prev (c :: s)).
Qed.

Lemma join_cons sep x l : l <> [] -> join sep (x :: l) = x ++ sep ++ join sep l.
Proof. by destruct l. Qed.

(** [sep.join(s.split(sep)) == s], on the text left to read. *)
Lemma join_split_loop sep prev s cur skip :
  sep <> [] -> (skip <= length s)%nat ->
  join sep (split_loop (fun _ s' => if starts_with sep s' then length sep else 0%nat) prev s cur skip) =
  reverse cur ++ drop skip s.
Proof.
  intros Hne. revert prev cur skip. induction s as [|c s IH]; intros prev cur skip Hsk; simpl.
  - destruct skip; simpl in *; [by rewrite app_nil_r|lia].
  - destruct skip as [|k]; simpl in *; [|apply IH; lia].
    destruct (starts_with sep (c :: s)) eqn:E.
    + apply starts_with_app in E as [s' E]. destruct sep as [|d sep]; [done|]. cbn [length].
      cbn [app] in E. injection E as <- ->. rewrite join_cons by apply split_loop_nonempty.
      rewrite IH by (simpl; rewrite length_app; lia). simpl. by rewrite drop_app_length.
    + rewrite IH by lia. rewrite reverse_cons, <- app_assoc. done.
Qed.

Lemma join_split_text sep s : sep <> [] -> join sep (split_text sep s) = s.
Proof. intros H. unfold split_text. rewrite join_split_loop; [done|done|lia]. Qed.

(** Splitting at white space keeps the ink, in order. *)
Lemma ink_split_loop m prev s cur skip :
  (forall p t, ink (take (m p t) t) = []) -> ink (take skip s) = [] ->
  ink (concat (split_loop m prev s cur skip)) = ink (reverse cur) ++ ink s.
Proof.
  intros Hm. revert prev cur skip. induction s as [|c s IH]; intros prev cur skip Hsk; simpl.
  - by rewrite !app_nil_r.
  - destruct skip as [|k].
    + pose proof (Hm prev (c :: s)) as Hb. destruct (m prev (c :: s)) as [|k]; simpl in Hb |- *.
      * rewrite IH by done. rewrite reverse_cons, ink_app. unfold ink at 2. unfold ink at 4. simpl.
        destruct (is_space c); simpl; [by rewrite app_nil_r|]. by rewrite <- app_assoc.
      * rewrite ink_app. unfold ink in Hb |- * at 4. simpl in *. destruct (is_space c); [|done]. simpl in *.
        by rewrite IH.
    + unfold ink in Hsk |- * at 3. simpl in *. destruct (is_space c); [|done]. by apply IH.
Qed.

Lemma ink_space_run s n : ink (take n (space_run s)) = [].
Proof.
  revert n. induction s as [|c s IH]; intros n; simpl; [by rewrite take_nil|].
  destruct (is_space c) eqn:E; [|by rewrite take_nil]. destruct n; [done|].
  unfold ink. simpl. rewrite E. apply IH.
Qed.

Lemma take_space_run s n : (n <= length (space_run s))%nat -> take n s = take n (space_run s).
Proof.
  revert n. induction s as [|c s IH]; intros n; simpl; [done|].
  destruct (is_space c); simpl; intros H.
  - destruct n; simpl; [done|]. rewrite IH; [done|lia].
  - by assert (n = 0)%nat as -> by lia.
Qed.

Lemma upto_last_newline_le s i best : (best <= i)%nat -> (upto_last_newline s i best <= i + length s)%nat.
Proof.
  revert i best. induction s as [|c s IH]; intros i best H; simpl; [lia|].
  destruct (Z.eqb c 10); (etransitivity; [apply IH|]); lia.
Qed.

Lemma paragraph_break_blank p s : ink (take (paragraph_break p s) s) = [].
Proof.
  destruct s as [|c s]; simpl; [done|]. destruct (Z.eqb_spec c 10) as [->|]; [|done].
  pose proof (upto_last_newline_le (space_run s) 0 0 (Nat.le_refl 0)) as Hle. simpl in Hle.
  destruct (upto_last_newline _ _ _) as [|n]; [done|]. simpl take. unfold ink. simpl.
  change (ink (take (S n) s) = []). rewrite take_space_run by done. apply ink_space_run.
Qed.

Lemma sentence_break_blank p s : ink (take (sentence_break p s) s) = [].
Proof.
  unfold sentence_break. destruct p as [c|]; [|done].
  destruct (_ || _); [|done]. rewrite take_space_run by done. apply ink_space_run.
Qed.

#[export] Hint Resolve paragraph_break_blank sentence_break_blank : khora.
#[export] Hint Rewrite ink_app ink_strip : khora.
