(* ===== verification/Chunkers.v ===== *)
(** * The chunkers ([extraction/chunkers/])

    Fixed, recursive and semantic chunkers over a text.  The tokenizer (tiktoken) and the
    sentence splitter (spaCy) are arguments. *)
From S2P Require Import Prelude PyText.

Local Open Scope Z_scope.

(** ** [base.py] *)

Record ChunkResult := MkChunkResult {
  content : text;
  index : Z;
  start_char : Z;
  end_char : Z;
  token_count : Z;
  chunker : string;
}.

(** A tokenizer with tokens in [tok]. *)
Record Encoding (tok : Type) := MkEncoding {
  encode : text -> list tok;
  decode : list tok -> text;
}.
Arguments MkEncoding {tok} _ _.
Arguments encode {tok} _ _.
Arguments decode {tok} _ _.

Definition MIN_CHUNK_CHARS : Z := 10.

(** The sizes of a chunker, in tokens. *)
Record Chunker := MkChunker { chunk_size : Z; chunk_overlap : Z }.

(** [Chunker.__init__] *)
Definition new_chunker (size overlap : Z) : result Chunker :=
  if Z.ltb overlap 0 then Err ValueError
  else if Z.leb size overlap then Err ValueError
  else Ok (MkChunker size overlap).

Definition set_index (i : nat) (c : ChunkResult) : ChunkResult :=
  MkChunkResult (content c) (Z.of_nat i) (start_char c) (end_char c) (token_count c) (chunker c).

Definition filter_empty_chunks (chunks : list ChunkResult) : list ChunkResult :=
  imap set_index
    (List.filter (fun c => truthy_text (strip (content c))
                           && Z.leb MIN_CHUNK_CHARS (len (strip (content c)))) chunks).

Section chunkers.
Context {tok : Type} (encoding : option (Encoding tok)).
Context (self : Chunker).

Definition count_tokens (s : text) : Z :=
  match encoding with
  | Some e => len (encode e s)
  | None => len s / 4
  end.

(** ** [fixed.py] *)

(** Where the approximate position of a chunk is looked up. *)
Definition fixed_start (s chunk_text : text) (chunk_index : Z) : Z :=
  if Z.eqb chunk_index 0 then 0
  else let p := find (slice chunk_text 0 50) s 0 in if Z.eqb p (-1) then 0 else p.

(** The [while] loop over the tokens; [None] when the fuel runs out. *)
Fixpoint fixed_loop (fuel : nat) (e : Encoding tok) (s : text) (tokens : list tok)
    (start chunk_index : Z) : option (list ChunkResult) :=
  if Z.ltb start (len tokens) then
    match fuel with
    | O => None
    | S fuel =>
        let stop := Z.min (start + chunk_size self) (len tokens) in
        let chunk_tokens := slice tokens start stop in
        let chunk_text := strip (decode e chunk_tokens) in
        let start_char := fixed_start s chunk_text chunk_index in
        let chunk := MkChunkResult chunk_text chunk_index start_char (start_char + len chunk_text)
                       (len chunk_tokens) "fixed" in
        let start := if Z.ltb stop (len tokens) then stop - chunk_overlap self else stop in
        option_map (cons chunk) (fixed_loop fuel e s tokens start (chunk_index + 1))
    end
  else Some [].

(** Where a chunk of the character fallback stops: at a space of its second half if it can. *)
Definition chars_stop (s : text) (start : Z) : Z :=
  let chars_per_chunk := chunk_size self * 4 in
  let stop := Z.min (start + chars_per_chunk) (len s) in
  if Z.ltb stop (len s) then
    let space_pos := rfind 32 s (start + chars_per_chunk / 2) stop in
    if Z.ltb start space_pos then space_pos else stop
  else stop.

(** The [while] loop of [_chunk_by_chars]. *)
Fixpoint chars_loop (fuel : nat) (s : text) (start chunk_index : Z) : option (list ChunkResult) :=
  if Z.ltb start (len s) then
    match fuel with
    | O => None
    | S fuel =>
        let overlap_chars := chunk_overlap self * 4 in
        let stop := chars_stop s start in
        let chunk_text := strip (slice s start stop) in
        let next := if Z.ltb stop (len s) then stop - overlap_chars else stop in
        if truthy_text chunk_text then
          let chunk := MkChunkResult chunk_text chunk_index start stop (len chunk_text / 4) "fixed" in
          option_map (cons chunk) (chars_loop fuel s next (chunk_index + 1))
        else chars_loop fuel s next chunk_index
    end
  else Some [].

Definition _chunk_by_chars (fuel : nat) (s : text) : option (list ChunkResult) := chars_loop fuel s 0 0.

(** [FixedChunker.chunk] *)
Definition fixed_chunk (fuel : nat) (s : text) : option (list ChunkResult) :=
  if truthy_text (strip s) then
    match encoding with
    | None => _chunk_by_chars fuel s
    | Some e => option_map filter_empty_chunks (fixed_loop fuel e s (encode e s) 0 0)
    end
  else Some [].

(** ** [recursive.py] *)

Definition DEFAULT_SEPARATORS : list text :=
  [[10; 10]; [10]; lit ". "; lit ", "; lit " "; []].

(** The pieces of a text with their separator re-added. *)
Definition pieces (separator s : text) : list text :=
  let splits := split_text separator s in
  imap (fun i p => if Nat.ltb i (length splits - 1) then p ++ separator else p) splits.

Fixpoint _split_text (s : text) (separators : list text) : list text :=
  match separators with
  | [] => [s]
  | separator :: remaining =>
      match separator with
      | [] => List.map (fun c => [c]) s
      | _ =>
          concat (List.map (fun split =>
            if negb (truthy_text (strip split)) then []
            else if Z.leb (count_tokens split) (chunk_size self) then [split]
            else match remaining with
                 | [] => [split]
                 | _ => _split_text split remaining
                 end) (pieces separator s))
      end
  end.

Definition _get_overlap_text (s : text) : text :=
  match encoding with
  | Some e =>
      let tokens := encode e s in
      if Z.leb (len tokens) (chunk_overlap self) then s
      else decode e (slice tokens (- chunk_overlap self) (len tokens))
  | None =>
      let overlap_chars := chunk_overlap self * 4 in
      if Z.ltb overlap_chars (len s) then slice s (- overlap_chars) (len s) else s
  end.

Definition recursive_chunk_result (content : text) (index : Z) (original : text) : ChunkResult :=
  let start_char := find content original 0 in
  let start_char :=
    if Z.eqb start_char (-1) then
      if Z.ltb 50 (len content) then find (slice content 0 50) original 0 else 0
    else start_char in
  let end_char := if Z.leb 0 start_char then start_char + len content else len content in
  MkChunkResult content index (Z.max 0 start_char) end_char (count_tokens content) "recursive".

(** The chunk being built, saved unless it is blank. *)
Definition save_current (current : text) (chunk_index : Z) (original : text) : list ChunkResult :=
  if truthy_text (strip current) then [recursive_chunk_result (strip current) chunk_index original]
  else [].

(** The text a new chunk starts with. *)
Definition overlap_prefix (current : text) : text :=
  if Z.ltb 0 (chunk_overlap self) && truthy_text current then _get_overlap_text current else [].

Fixpoint merge_loop (splits : list text) (current : text) (tokens chunk_index : Z) (original : text)
    : list ChunkResult :=
  match splits with
  | [] => save_current current chunk_index original
  | split :: splits =>
      let split_tokens := count_tokens split in
      if Z.leb (tokens + split_tokens) (chunk_size self) then
        merge_loop splits (current ++ split) (tokens + split_tokens) chunk_index original
      else
        let saved := save_current current chunk_index original in
        let next := overlap_prefix current ++ split in
        let next_tokens :=
          if Z.ltb 0 (chunk_overlap self) && truthy_text current then count_tokens next
          else split_tokens in
        saved ++ merge_loop splits next next_tokens (chunk_index + len saved) original
  end.

Definition _merge_splits (splits : list text) (original : text) : list ChunkResult :=
  merge_loop splits [] 0 0 original.

(** [RecursiveChunker.chunk] *)
Definition recursive_chunk (separators : list text) (s : text) : list ChunkResult :=
  if truthy_text (strip s) then
    filter_empty_chunks (_merge_splits (_split_text s separators) s)
  else [].

(** ** [semantic.py] *)

(** [range(0, n, k)] for a positive [k]. *)
Definition range_step (n k : Z) : list Z :=
  List.map (fun i => Z.of_nat i * k) (seq 0 (Z.to_nat ((n + k - 1) / k))).

(** The [while] loop of [_fixed_split]. *)
Fixpoint split_tokens_loop (fuel : nat) (e : Encoding tok) (tokens : list tok) (start : Z)
    : option (list text) :=
  if Z.ltb start (len tokens) then
    match fuel with
    | O => None
    | S fuel =>
        let stop := Z.min (start + chunk_size self) (len tokens) in
        let chunk_text := strip (decode e (slice tokens start stop)) in
        let next := if Z.ltb stop (len tokens) then stop - chunk_overlap self else stop in
        let rest := split_tokens_loop fuel e tokens next in
        if truthy_text chunk_text then option_map (cons chunk_text) rest else rest
    end
  else Some [].

Definition _fixed_split (fuel : nat) (s : text) : option (list text) :=
  match encoding with
  | Some e => split_tokens_loop fuel e (encode e s) 0
  | None =>
      let chars_per_chunk := chunk_size self * 4 in
      Some (List.map (fun i => slice s i (i + chars_per_chunk))
             (range_step (len s) (chars_per_chunk - chunk_overlap self * 4)))
  end.

(** The sentencizer of spaCy, when it is installed. *)
Context (nlp : option (text -> list text)).

Definition nonblank (l : list text) : list text :=
  List.filter truthy_text (List.map strip l).

Definition _split_sentences (s : text) : list text :=
  nonblank (match nlp with
            | Some sents => sents s
            | None => split_loop sentence_break None s [] 0
            end).

Definition _split_paragraphs (s : text) : list text :=
  nonblank (split_loop paragraph_break None s [] 0).

Record SemanticConfig := MkSemanticConfig { respect_sentences : bool; respect_paragraphs : bool }.
Context (cfg : SemanticConfig).

Fixpoint sentence_loop (fuel : nat) (sentences : list text) (current : text) (tokens : Z)
    : option (list text) :=
  match sentences with
  | [] => Some (if truthy_text current then [current] else [])
  | sentence :: sentences =>
      let sentence_tokens := count_tokens sentence in
      if Z.leb (tokens + sentence_tokens) (chunk_size self) then
        sentence_loop fuel sentences (strip (current ++ [32] ++ sentence)) (tokens + sentence_tokens)
      else
        let saved := if truthy_text current then [current] else [] in
        if Z.ltb (chunk_size self) sentence_tokens then
          parts ← _fixed_split fuel sentence;
          rest ← sentence_loop fuel sentences [] 0;
          Some (saved ++ parts ++ rest)
        else
          rest ← sentence_loop fuel sentences sentence sentence_tokens;
          Some (saved ++ rest)
  end.

Definition _split_large_paragraph (fuel : nat) (para : text) : option (list text) :=
  if respect_sentences cfg then sentence_loop fuel (_split_sentences para) [] 0
  else _fixed_split fuel para.

Definition semantic_chunk_result (content : text) (index hint_start : Z) (full : text) : ChunkResult :=
  let start_char := find content full (Z.max 0 (hint_start - 100)) in
  let start_char := if Z.eqb start_char (-1) then hint_start else start_char in
  MkChunkResult content index start_char (start_char + len content) (count_tokens content) "semantic".

(** Consecutive results at the same hint. *)
Definition results_from (contents : list text) (index hint : Z) (full : text) : list ChunkResult :=
  imap (fun i c => semantic_chunk_result c (index + Z.of_nat i) hint full) contents.

Fixpoint paragraph_loop (fuel : nat) (paragraphs : list text) (current : text) (tokens index start : Z)
    (full : text) : option (list ChunkResult) :=
  match paragraphs with
  | [] => Some (if truthy_text current then [semantic_chunk_result current index start full] else [])
  | para :: paragraphs =>
      let para_tokens := count_tokens para in
      if Z.leb (tokens + para_tokens) (chunk_size self) then
        let current := if truthy_text current then current ++ [10; 10] ++ para else para in
        paragraph_loop fuel paragraphs current (tokens + para_tokens) index start full
      else
        let saved := if truthy_text current then [semantic_chunk_result current index start full] else [] in
        let index := index + len saved in
        if Z.ltb (chunk_size self) para_tokens then
          sub_chunks ← _split_large_paragraph fuel para;
          rest ← paragraph_loop fuel paragraphs [] 0 (index + len sub_chunks) start full;
          Some (saved ++ results_from sub_chunks index start full ++ rest)
        else
          let start := if truthy_text para then find para full 0 else start in
          rest ← paragraph_loop fuel paragraphs para para_tokens index start full;
          Some (saved ++ rest)
  end.

(** [SemanticChunker.chunk] *)
Definition semantic_chunk (fuel : nat) (s : text) : option (list ChunkResult) :=
  if truthy_text (strip s) then
    let paragraphs := if respect_paragraphs cfg then _split_paragraphs s else [s] in
    option_map filter_empty_chunks (paragraph_loop fuel paragraphs [] 0 0 0 s)
  else Some [].
End chunkers.
