(* ===== verification/ChunkersFacts.v ===== *)
(** * Facts about the text chunkers

    The loops of the fixed chunker terminate and its windows cover the tokens; one
    configuration on which the character fallback does not terminate; the recursive and the
    semantic chunker keep the text, in order. *)
From S2P Require Import Prelude PyText Chunkers.

Local Open Scope Z_scope.

(** ** Slices *)

Lemma slice_in_range {A} (l : list A) a b :
  0 <= a <= b -> b <= len l -> slice l a b = take (Z.to_nat (b - a)) (drop (Z.to_nat a) l).
Proof. intros Ha Hb. unfold slice. by rewrite !clamp_id by lia. Qed.

Lemma len_slice {A} (l : list A) a b : 0 <= a <= b -> b <= len l -> len (slice l a b) = b - a.
Proof.
  intros Ha Hb. rewrite slice_in_range by done. unfold len in *.
  rewrite length_take, length_drop. lia.
Qed.

(** A valid chunker. *)
Definition valid (self : Chunker) : Prop := 0 <= chunk_overlap self < chunk_size self.

Lemma new_chunker_valid size overlap self : new_chunker size overlap = Ok self -> valid self.
Proof.
  unfold new_chunker, valid. destruct (Z.ltb_spec overlap 0); [done|].
  destruct (Z.leb_spec size overlap); [done|]. intros [= <-]. simpl. lia.
Qed.

(** ** The windows of the token loops *)

Section windows.
Context {tok : Type} (self : Chunker) (Hvalid : valid self).

(** Consecutive windows: each but the last is full, and each starts [chunk_overlap] before
    the end of the one before it. *)
Inductive windows (tokens : list tok) : Z -> list (list tok) -> Prop :=
| windows_done start : len tokens <= start -> windows tokens start []
| windows_last start :
    start < len tokens <= start + chunk_size self ->
    windows tokens start [slice tokens start (len tokens)]
| windows_next start ws :
    start + chunk_size self < len tokens ->
    windows tokens (start + chunk_size self - chunk_overlap self) ws ->
    windows tokens start (slice tokens start (start + chunk_size self) :: ws).

Lemma drop_slice (tokens : list tok) start k :
  0 <= start -> 0 <= k -> start + k <= len tokens ->
  drop (Z.to_nat start) tokens = slice tokens start (start + k) ++ drop (Z.to_nat (start + k)) tokens.
Proof.
  intros H0 Hk Hle. rewrite slice_in_range by lia.
  replace (start + k - start) with k by lia.
  rewrite <- (take_drop (Z.to_nat k) (drop (Z.to_nat start) tokens)) at 1.
  f_equal. rewrite drop_drop. f_equal. lia.
Qed.

(** Without the tokens they share, the windows are the tokens. *)
Lemma windows_cover tokens start ws :
  windows tokens start ws -> 0 <= start -> start < len tokens ->
  exists w ws', ws = w :: ws' /\ drop (Z.to_nat start) tokens =
    w ++ concat (List.map (drop (Z.to_nat (chunk_overlap self))) ws').
Proof.
  unfold valid in Hvalid.
  induction 1 as [start H|start H|start ws H Hws IH]; intros H0 Hlt; [lia| |].
  - eexists _, []. split; [done|]. simpl. rewrite app_nil_r, slice_in_range by lia.
    rewrite take_ge; [done|]. rewrite length_drop. unfold len in *. lia.
  - destruct IH as (w & ws' & -> & E); [lia|lia|]. eexists _, _. split; [done|]. simpl.
    rewrite (drop_slice tokens start (chunk_size self)) by lia. f_equal.
    assert (exists x, w = take (Z.to_nat (chunk_overlap self)) w ++ x /\
      (Z.to_nat (chunk_overlap self) <= length w)%nat) as (x & Ew & Hl).
    { exists (drop (Z.to_nat (chunk_overlap self)) w). split; [by rewrite take_drop|].
      inversion Hws as [? H1 |? H1 Es|? ? H1 ? Es]; subst.
      - pose proof (len_slice tokens (start + chunk_size self - chunk_overlap self) (len tokens)) as Hl.
        unfold len in *. lia.
      - pose proof (len_slice tokens (start + chunk_size self - chunk_overlap self)
          (start + chunk_size self - chunk_overlap self + chunk_size self)) as Hl.
        unfold len in *. lia. }
    replace (Z.to_nat (start + chunk_size self)) with
      (Z.to_nat (start + chunk_size self - chunk_overlap self) + Z.to_nat (chunk_overlap self))%nat by lia.
    rewrite <- drop_drop, E. rewrite drop_app_le by lia. done.
Qed.

(** What a loop over the windows has made of them. *)
Context (e : Encoding tok) (s : text).

Lemma fixed_loop_windows fuel tokens start i :
  0 <= start -> (Z.to_nat (len tokens - start) < fuel)%nat ->
  exists ws chunks, windows tokens start ws /\ fixed_loop self fuel e s tokens start i = Some chunks
    /\ List.map content chunks = List.map (fun w => strip (decode e w)) ws
    /\ List.map token_count chunks = List.map len ws.
Proof.
  unfold valid in Hvalid. revert start i. induction fuel as [|fuel IH]; intros start i H0 Hf; [lia|]. simpl.
  destruct (Z.ltb_spec start (len tokens)) as [Hlt|Hge].
  2: { exists [], []. by repeat (constructor; [lia|]) || (split; [by constructor|]). }
  destruct (Z.ltb_spec (Z.min (start + chunk_size self) (len tokens)) (len tokens)) as [Hn|Hl].
  - rewrite Z.min_l by lia.
    destruct (IH (start + chunk_size self - chunk_overlap self) (i + 1)) as (ws & chunks & H1 & -> & H2 & H3); [lia..|].
    eexists (_ :: ws), _. split; [apply windows_next; [lia|done]|]. split; [done|]. simpl. by rewrite H2, H3.
  - rewrite Z.min_r by lia.
    assert (fixed_loop self fuel e s tokens (len tokens) (i + 1) = Some []) as ->.
    { destruct fuel; simpl; by rewrite Z.ltb_irrefl. }
    eexists [_], _. split; [by apply windows_last; lia|]. split; [done|]. by simpl.
Qed.

Lemma split_tokens_loop_windows fuel tokens start :
  0 <= start -> (Z.to_nat (len tokens - start) < fuel)%nat ->
  exists ws, windows tokens start ws
    /\ split_tokens_loop self fuel e tokens start = Some (List.filter truthy_text (List.map (fun w => strip (decode e w)) ws)).
Proof.
  unfold valid in Hvalid. revert start. induction fuel as [|fuel IH]; intros start H0 Hf; [lia|]. simpl.
  destruct (Z.ltb_spec start (len tokens)) as [Hlt|Hge].
  2: { exists []. split; [by constructor|done]. }
  destruct (Z.ltb_spec (Z.min (start + chunk_size self) (len tokens)) (len tokens)) as [Hn|Hl].
  - rewrite Z.min_l by lia.
    destruct (IH (start + chunk_size self - chunk_overlap self)) as (ws & H1 & ->); [lia..|].
    eexists (_ :: ws). split; [apply windows_next; [lia|done]|]. simpl. by destruct (truthy_text _).
  - rewrite Z.min_r by lia.
    assert (split_tokens_loop self fuel e tokens (len tokens) = Some []) as ->.
    { destruct fuel; simpl; by rewrite Z.ltb_irrefl. }
    eexists [_]. split; [by apply windows_last; lia|]. simpl. by destruct (truthy_text _).
Qed.
End windows.

(** ** The character fallback *)

(** A chunk of the fallback ends past its middle. *)
Lemma chars_stop_bounds self s start :
  valid self -> 0 <= start -> start < len s ->
  chars_stop self s start = len s \/ start + 2 * chunk_size self <= chars_stop self s start < len s.
Proof.
  intros Hv H0 Hlt. unfold valid in Hv. unfold chars_stop.
  replace (chunk_size self * 4 / 2) with (chunk_size self * 2)
    by (apply (Z.div_unique_exact _ 2); lia).
  destruct (Z.ltb_spec (Z.min (start + chunk_size self * 4) (len s)) (len s)) as [Hn|Hn]; [|left; lia].
  right. rewrite Z.min_l by lia.
  destruct (rfind_spec 32 s (start + chunk_size self * 2) (start + chunk_size self * 4)) as [->|H]; [lia..| |].
  - destruct (Z.ltb_spec start (-1)); lia.
  - destruct (Z.ltb_spec start (rfind 32 s (start + chunk_size self * 2) (start + chunk_size self * 4))); lia.
Qed.

Lemma chars_loop_terminates self fuel s start i :
  valid self -> 2 * chunk_overlap self < chunk_size self -> 0 <= start ->
  (Z.to_nat (len s - start) < fuel)%nat -> is_Some (chars_loop self fuel s start i).
Proof.
  intros Hv Hov. revert start i. induction fuel as [|fuel IH]; intros start i H0 Hf; [lia|]. simpl.
  destruct (Z.ltb_spec start (len s)) as [Hlt|]; [|by eexists].
  pose proof (chars_stop_bounds self s start Hv H0 Hlt) as Hstop. unfold valid in Hv.
  assert (forall j, is_Some (chars_loop self fuel s (if Z.ltb (chars_stop self s start) (len s)
    then chars_stop self s start - chunk_overlap self * 4 else chars_stop self s start) j)) as Hrest.
  { intros j. destruct (Z.ltb_spec (chars_stop self s start) (len s)); apply IH; lia. }
  destruct (truthy_text _); [|apply Hrest]. destruct (Hrest (i + 1)) as [cs ->]. by eexists.
Qed.

(** Fuel enough for every loop. *)
Definition chunk_fuel {tok} (encoding : option (Encoding tok)) (s : text) : nat :=
  match encoding with Some e => S (length (encode e s)) | None => S (length s) end.

(** C40.  The fixed chunker terminates for every chunker the constructor accepts when there
    is a tokenizer, and without one when twice the overlap is less than the size: as many
    windows as the text has tokens, or characters, are enough, with one more step for the
    test that ends the loop. *)
Theorem fixed_chunk_terminates {tok} (encoding : option (Encoding tok)) size overlap self s :
  new_chunker size overlap = Ok self -> (encoding = None -> 2 * overlap < size) ->
  is_Some (fixed_chunk encoding self (chunk_fuel encoding s) s).
Proof.
  intros Hnew Hov. pose proof (new_chunker_valid _ _ _ Hnew) as Hv.
  assert (encoding = None -> 2 * chunk_overlap self < chunk_size self) as Hov'.
  { unfold new_chunker in Hnew. destruct (Z.ltb overlap 0), (Z.leb size overlap); simplify_eq. done. }
  unfold fixed_chunk, chunk_fuel. destruct (truthy_text _); [|by eexists].
  destruct encoding as [e|].
  - destruct (fixed_loop_windows self Hv e s (S (length (encode e s))) (encode e s) 0 0)
      as (ws & chunks & _ & -> & _); [lia|unfold len; lia|]. by eexists.
  - apply chars_loop_terminates; auto; [lia|]. unfold len; lia.
Qed.

(** The first chunk ends at the space that the next one starts at. *)
Definition looping_text : text := lit "aaaa bbbbbbbb".

(** Without a tokenizer, a chunker the constructor accepts may not terminate: with a
    size of 2 and an overlap of 1 the loop over this text goes back to where it started
    after each chunk, however many steps it is given. *)
Theorem char_fallback_diverges : exists self,
  new_chunker 2 1 = Ok self
  /\ forall fuel, fixed_chunk (tok := unit) None self fuel looping_text = None.
Proof.
  exists (MkChunker 2 1). split; [done|]. intros fuel. unfold fixed_chunk.
  change (truthy_text (strip looping_text)) with true. cbv iota.
  unfold _chunk_by_chars. generalize 0 at 2. induction fuel as [|fuel IH]; intros i; [done|].
  cbn -[Z.add Z.of_nat]. by rewrite IH.
Qed.

(** ** The recursive chunker keeps the text *)

Lemma concat_pieces_from sep l k :
  l <> [] ->
  concat (imap (fun i p => if Nat.ltb (i + k) (length l + k - 1) then p ++ sep else p) l) = join sep l.
Proof.
  revert k. induction l as [|x l IH]; intros k Hne; [done|].
  destruct l as [|y l].
  - simpl. rewrite Nat.sub_0_r, Nat.ltb_irrefl. by rewrite app_nil_r.
  - rewrite imap_cons. cbn [concat]. rewrite join_cons by done. rewrite <- (IH (S k)) by done.
    destruct (Nat.ltb_spec (0 + k) (length (x :: y :: l) + k - 1)) as [_|H]; [|simpl in H; lia].
    rewrite <- app_assoc. do 2 f_equal. f_equal. apply imap_ext. intros i p _. cbn [length compose].
    destruct (Nat.ltb_spec (S i + k) (S (S (length l)) + k - 1)),
      (Nat.ltb_spec (i + S k) (S (length l) + S k - 1)); first [done|lia].
Qed.

Lemma concat_pieces sep s : sep <> [] -> concat (pieces sep s) = s.
Proof.
  intros Hne. transitivity (join sep (split_text sep s)); [|by apply join_split_text].
  rewrite <- (concat_pieces_from sep (split_text sep s) 0) by (unfold split_text; apply split_loop_nonempty).
  unfold pieces. f_equal. apply imap_ext. intros i p _. simpl. by rewrite !Nat.add_0_r.
Qed.

Lemma ink_concat_map (f : text -> list text) l :
  (forall p, p ∈ l -> ink (concat (f p)) = ink p) -> ink (concat (concat (List.map f l))) = ink (concat l).
Proof.
  induction l as [|p l IH]; intros H; [done|]. cbn [List.map concat]. rewrite concat_app, !ink_app.
  rewrite H by left. f_equal. apply IH. intros q Hq. apply H. by right.
Qed.

Lemma truthy_strip s : truthy_text (strip s) = false <-> ink s = [].
Proof. rewrite <- strip_nil. by destruct (strip s). Qed.

Section keep.
Context {tok : Type} (encoding : option (Encoding tok)) (self : Chunker).

Lemma ink_split_text separators s :
  ink (concat (_split_text encoding self s separators)) = ink s.
Proof.
  revert s. induction separators as [|sep seps IH]; intros s; simpl; [by rewrite app_nil_r|].
  destruct sep as [|c sep].
  - f_equal. induction s; simpl; congruence.
  - rewrite <- (concat_pieces (c :: sep) s) at 2 by done. apply ink_concat_map. intros p _.
    destruct (truthy_text (strip p)) eqn:Ht; simpl; [|by symmetry; apply truthy_strip].
    destruct (Z.leb _ _); simpl; [by rewrite app_nil_r|].
    destruct seps; [by simpl; rewrite app_nil_r|apply IH].
Qed.

(** The chunks being built, each a prefix taken from the one before and a body: [chained]
    relates the prefix of each to the text of the one before. *)
Fixpoint chained (current : text) (ps : list (text * text)) : Prop :=
  match ps with
  | [] => True
  | (p, b) :: ps => p = overlap_prefix encoding self current /\ chained (p ++ b) ps
  end.

Definition chunk_texts (ps : list (text * text)) : list text :=
  List.filter truthy_text (List.map (fun '(p, b) => strip (p ++ b)) ps).

Lemma save_current_texts current i original :
  List.map content (save_current encoding current i original) = List.filter truthy_text [strip current].
Proof. unfold save_current. simpl. by destruct (truthy_text (strip current)). Qed.

Lemma merge_loop_bodies splits pre body tokens i original :
  exists b ps, List.map content (merge_loop encoding self splits (pre ++ body) tokens i original) =
      chunk_texts ((pre, b) :: ps)
    /\ chained (pre ++ b) ps /\ concat (b :: List.map snd ps) = body ++ concat splits.
Proof.
  revert pre body tokens i. induction splits as [|split splits IH]; intros pre body tokens i; simpl.
  - exists body, []. by rewrite save_current_texts.
  - destruct (Z.leb _ _).
    + rewrite <- app_assoc. destruct (IH pre (body ++ split) (tokens + count_tokens encoding split) i)
        as (b & ps & E & Hc & Hb).
      exists b, ps. rewrite E, <- app_assoc in *. by split_and!.
    + destruct (IH (overlap_prefix encoding self (pre ++ body)) split
        (if Z.ltb 0 (chunk_overlap self) && truthy_text (pre ++ body)
         then count_tokens encoding (overlap_prefix encoding self (pre ++ body) ++ split)
         else count_tokens encoding split)
        (i + len (save_current encoding (pre ++ body) i original))) as (b & ps & E & Hc & Hb).
      exists body, ((overlap_prefix encoding self (pre ++ body), b) :: ps). split_and!.
      * rewrite List.map_app, E, save_current_texts. unfold chunk_texts. simpl.
        by destruct (truthy_text (strip (pre ++ body))).
      * done.
      * simpl in *. by rewrite Hb.
Qed.

Lemma chained_no_overlap current ps :
  chunk_overlap self = 0 -> chained current ps -> List.map fst ps = List.map (fun _ => []) ps.
Proof.
  intros H0. revert current. induction ps as [|[p b] ps IH]; intros current; simpl; [done|].
  intros [-> Hc]. rewrite (IH _ Hc). unfold overlap_prefix. by rewrite H0.
Qed.

Lemma ink_chunk_texts ps :
  List.map fst ps = List.map (fun _ => []) ps -> ink (concat (chunk_texts ps)) = ink (concat (List.map snd ps)).
Proof.
  induction ps as [|[p b] ps IH]; intros H; [done|]. simpl in H. injection H as -> H.
  unfold chunk_texts in *. cbn [List.map List.filter app snd].
  destruct (truthy_text (strip b)) eqn:E; cbn [concat]; rewrite ?ink_app, IH, ?ink_strip by done; [done|].
  by rewrite (proj1 (truthy_strip b) E).
Qed.
End keep.

(** The recursive chunker loses no text and keeps its order.  The chunks it merges,
    blank ones left out, are bodies, each after a prefix repeated from the end of the one
    before it; the bodies in sequence are the text, up to white space; with no overlap, so
    are the chunks. *)
Theorem recursive_keeps_text {tok} (encoding : option (Encoding tok)) self separators s :
  let chunks := _merge_splits encoding self (_split_text encoding self s separators) s in
  (exists ps, List.map content chunks = chunk_texts ps
     /\ chained encoding self [] ps /\ ink (concat (List.map snd ps)) = ink s)
  /\ (chunk_overlap self = 0 -> ink (concat (List.map content chunks)) = ink s).
Proof.
  intros chunks.
  destruct (merge_loop_bodies encoding self (_split_text encoding self s separators) [] [] 0 0 s)
    as (b & ps & E & Hc & Hb).
  assert (List.map content chunks = chunk_texts (([], b) :: ps)) as Hcs by exact E.
  assert (chained encoding self [] (([], b) :: ps)) as Hch.
  { simpl. split; [|done]. unfold overlap_prefix. by rewrite andb_false_r. }
  assert (ink (concat (List.map snd (([], b) :: ps))) = ink s) as Hink.
  { cbn [List.map snd]. rewrite Hb. simpl. apply ink_split_text. }
  split; [by exists (([], b) :: ps)|]. intros H0. rewrite Hcs, ink_chunk_texts; [done|].
  by eapply chained_no_overlap.
Qed.

(** ** The semantic chunker keeps the text *)

Lemma ink_nonblank l : ink (concat (nonblank l)) = ink (concat l).
Proof.
  unfold nonblank. induction l as [|x l IH]; [done|]. cbn [List.map List.filter concat].
  rewrite ink_app, <- IH, <- (ink_strip x). destruct (strip x) as [|c y]; simpl; [done|].
  change (ink ((c :: y) ++ concat (List.filter truthy_text (List.map strip l))) =
          ink (c :: y) ++ ink (concat (List.filter truthy_text (List.map strip l)))).
  apply ink_app.
Qed.

Lemma ink_saved (current : text) : ink (concat (if truthy_text current then [current] else [])) = ink current.
Proof. destruct current; simpl; [done|]. by rewrite app_nil_r. Qed.

Lemma ink_joined (current x : text) :
  ink (if truthy_text current then current ++ 10 :: 10 :: x else x) = ink current ++ ink x.
Proof. destruct current as [|c current]; [done|]. cbn [truthy_text]. by rewrite ink_app. Qed.

Section semantic.
Context {tok : Type} (encoding : option (Encoding tok)) (self : Chunker).
Context (nlp : option (text -> list text)) (cfg : SemanticConfig).
Context (nlp_partitions : forall sents s, nlp = Some sents -> ink (concat (sents s)) = ink s).

Lemma ink_paragraphs s : ink (concat (_split_paragraphs s)) = ink s.
Proof.
  unfold _split_paragraphs. rewrite ink_nonblank, ink_split_loop; [done| |done].
  intros p t. apply paragraph_break_blank.
Qed.

Lemma ink_sentences s : ink (concat (_split_sentences nlp s)) = ink s.
Proof.
  unfold _split_sentences. rewrite ink_nonblank. destruct nlp as [sents|] eqn:E; [by apply nlp_partitions|].
  rewrite ink_split_loop; [done| |done]. intros p t. apply sentence_break_blank.
Qed.

(** No piece needs the fixed split, which repeats text. *)
Definition fits (s : text) : Prop := count_tokens encoding s <= chunk_size self.

Lemma sentence_loop_keeps fuel sentences current tokens :
  Forall fits sentences -> exists l, sentence_loop encoding self fuel sentences current tokens = Some l
    /\ ink (concat l) = ink current ++ ink (concat sentences).
Proof.
  intros Hfit. revert current tokens. induction Hfit as [|x l Hx _ IH]; intros current tokens; simpl.
  - eexists. split; [done|]. by rewrite ink_saved, app_nil_r.
  - destruct (Z.leb _ _).
    + edestruct IH as (r & E1 & E2). rewrite E1. exists r. split; [done|].
      rewrite E2, ink_strip, !ink_app, <- app_assoc. done.
    + unfold fits in Hx. destruct (Z.ltb_spec (chunk_size self) (count_tokens encoding x)); [lia|].
      destruct (IH x (count_tokens encoding x)) as (r & -> & E). simpl. eexists. split; [done|].
      by rewrite concat_app, !ink_app, ink_saved, E.
Qed.

(** Every paragraph that is too large is split into sentences that fit. *)
Definition splittable (para : text) : Prop :=
  fits para \/ respect_sentences cfg = true /\ Forall fits (_split_sentences nlp para).

Lemma large_paragraph_keeps fuel para :
  splittable para -> ~ fits para -> exists l, _split_large_paragraph encoding self nlp cfg fuel para = Some l
    /\ ink (concat l) = ink para.
Proof.
  intros [?|[Hr Hs]] Hn; [done|]. unfold _split_large_paragraph. rewrite Hr.
  destruct (sentence_loop_keeps fuel _ [] 0 Hs) as (l & -> & E). exists l. split; [done|].
  by rewrite E, ink_sentences.
Qed.

Lemma results_from_contents l i hint full :
  List.map content (results_from encoding l i hint full) = l.
Proof.
  unfold results_from. revert i. induction l as [|x l IH]; intros i; [done|]. rewrite imap_cons. simpl.
  f_equal. rewrite <- (IH (i + 1)) at 2. f_equal. apply imap_ext. intros k y _. simpl.
  unfold semantic_chunk_result. f_equal. lia.
Qed.

Lemma paragraph_loop_keeps fuel paragraphs current tokens i start full :
  Forall splittable paragraphs ->
  exists cs, paragraph_loop encoding self nlp cfg fuel paragraphs current tokens i start full = Some cs
    /\ ink (concat (List.map content cs)) = ink current ++ ink (concat paragraphs).
Proof.
  assert (forall c k h, List.map content (if truthy_text c then [semantic_chunk_result encoding c k h full] else [])
            = (if truthy_text c then [c] else [])) as Hsaved by (by intros []).
  intros Hs. revert current tokens i start.
  induction Hs as [|x l Hx _ IH]; intros current tokens i start; simpl.
  - eexists. split; [done|]. by rewrite Hsaved, ink_saved, app_nil_r.
  - destruct (Z.leb _ _).
    + edestruct IH as (r & E1 & E2). rewrite E1.
      exists r. split; [done|]. by rewrite E2, ink_joined, ink_app, app_assoc.
    + destruct (Z.ltb_spec (chunk_size self) (count_tokens encoding x)) as [Hbig|Hfit].
      * destruct (large_paragraph_keeps fuel x Hx) as (subs & -> & Es); [unfold fits; lia|]. simpl.
        edestruct IH as (r & E1 & E2). rewrite E1. simpl. eexists. split; [done|].
        rewrite !List.map_app, !concat_app, !ink_app, Hsaved, ink_saved, results_from_contents, Es, E2. done.
      * edestruct IH as (r & E1 & E2). rewrite E1. simpl. eexists. split; [done|].
        by rewrite List.map_app, concat_app, !ink_app, Hsaved, ink_saved, E2.
Qed.

(** The semantic chunker loses no text, repeats none and keeps its order, up to white
    space, when no sentence of a paragraph that is too large is too large itself: then the
    loops also end whatever the fuel. *)
Theorem semantic_keeps_text fuel s :
  let paragraphs := if respect_paragraphs cfg then _split_paragraphs s else [s] in
  Forall splittable paragraphs ->
  exists cs, paragraph_loop encoding self nlp cfg fuel paragraphs [] 0 0 0 s = Some cs
    /\ ink (concat (List.map content cs)) = ink s
    /\ (truthy_text (strip s) = true ->
        semantic_chunk encoding self nlp cfg fuel s = Some (filter_empty_chunks cs)).
Proof.
  intros paragraphs Hs. destruct (paragraph_loop_keeps fuel paragraphs [] 0 0 0 s Hs) as (cs & E1 & E2).
  exists cs. split_and!; [done| |].
  - rewrite E2. simpl. unfold paragraphs. destruct (respect_paragraphs cfg); [apply ink_paragraphs|].
    simpl. by rewrite app_nil_r.
  - intros Ht. unfold semantic_chunk. rewrite Ht. fold paragraphs. by rewrite E1.
Qed.
End semantic.

Lemma fixed_chunk_terminates_witness :
  new_chunker 5 2 = Ok (MkChunker 5 2)
  /\ is_Some (fixed_chunk (tok := unit) None (MkChunker 5 2)
       (chunk_fuel (tok := unit) None looping_text) looping_text).
Proof.
  split; [done|]. apply (fixed_chunk_terminates None 5 2 (MkChunker 5 2) looping_text); [done|].
  intros _. lia.
Defined.

Definition two_sentences : text := lit "One sentence here.  Another one there." .

Lemma semantic_keeps_text_witness : exists cs,
  paragraph_loop (tok := unit) None (MkChunker 5 1) None (MkSemanticConfig true true) 9
    (_split_paragraphs two_sentences) [] 0 0 0 two_sentences = Some cs
  /\ ink (concat (List.map content cs)) = ink two_sentences
  /\ (truthy_text (strip two_sentences) = true ->
      semantic_chunk (tok := unit) None (MkChunker 5 1) None (MkSemanticConfig true true) 9 two_sentences
      = Some (filter_empty_chunks cs)).
Proof.
  apply (semantic_keeps_text (tok := unit) None (MkChunker 5 1) None (MkSemanticConfig true true)).
  - done.
  - apply Forall_forall. intros p [<-|[]]%list_elem_of_In. right. split; [done|].
    apply Forall_forall. intros q [<-|[<-|[]]]%list_elem_of_In; vm_compute; discriminate.
Defined.
