(* ===== verification/Conversation.v ===== *)
(** * The conversation chunker ([extraction/chunkers/conversation.py])

    Messages are grouped by thread, top-level ones by time gaps; groups are cut and merged
    to a size, numbered with sessions and rendered.  Times are microseconds; their text
    forms and the tokenizer are arguments. *)
From S2P Require Import Prelude PyText Chunkers.

Local Open Scope Z_scope.

Record SlackMessage := MkSlackMessage {
  m_text : text;
  m_author : text;
  m_timestamp : Z;
  m_message_id : string;
  m_thread_ts : option string;
  m_channel : option string;
}.

Record ConversationChunkerConfig := MkConversationConfig {
  time_gap_minutes : Z;
  session_gap_minutes : Z;
  max_group_size : Z;
  min_group_size : Z;
  include_message_metadata : bool;
}.

Definition default_config : ConversationChunkerConfig := MkConversationConfig 15 30 50 2 true.

Definition minute : Z := 60 * 1000000.

(** [sorted(messages, key=lambda m: m.timestamp)], which is stable. *)
Fixpoint insert_message (m : SlackMessage) (l : list SlackMessage) : list SlackMessage :=
  match l with
  | [] => [m]
  | x :: l' => if Z.leb (m_timestamp m) (m_timestamp x) then m :: l else x :: insert_message m l'
  end.

Fixpoint sort_messages (l : list SlackMessage) : list SlackMessage :=
  match l with
  | [] => []
  | m :: l' => insert_message m (sort_messages l')
  end.

(** [if s] for an optional string, and [next(x for x in xs if x)]. *)
Definition truthy_str (s : option string) : option string :=
  match s with Some EmptyString => None | _ => s end.

Fixpoint first_truthy (l : list (option string)) : option string :=
  match l with
  | [] => None
  | s :: l' => match truthy_str s with Some x => Some x | None => first_truthy l' end
  end.

Section conversation.
Context (config : ConversationChunkerConfig).

(** [threads.setdefault(ts, []).append(msg)] *)
Definition append_thread (ts : string) (m : SlackMessage) (threads : list (string * list SlackMessage))
    : list (string * list SlackMessage) :=
  dict_set ts (default [] (dict_get ts threads) ++ [m]) threads.

Fixpoint group_loop (messages : list SlackMessage) (threads : list (string * list SlackMessage))
    (top_level : list SlackMessage) : list (string * list SlackMessage) * list SlackMessage :=
  match messages with
  | [] => (threads, top_level)
  | m :: messages =>
      match truthy_str (m_thread_ts m) with
      | Some ts => group_loop messages (append_thread ts m threads) top_level
      | None => group_loop messages threads (top_level ++ [m])
      end
  end.

Definition _group_by_threads (messages : list SlackMessage)
    : list (string * list SlackMessage) * list SlackMessage :=
  let '(threads, top_level) := group_loop messages [] [] in
  (List.map (fun '(ts, l) => (ts, sort_messages l)) threads, top_level).

(** The groups so far, the last one [cur] apart. *)
Fixpoint gap_loop (gap : Z) (messages : list SlackMessage) (groups : list (list SlackMessage))
    (cur : list SlackMessage) (prev : SlackMessage) : list (list SlackMessage) :=
  match messages with
  | [] => groups ++ [cur]
  | m :: messages =>
      if Z.ltb gap (m_timestamp m - m_timestamp prev)
      then gap_loop gap messages (groups ++ [cur]) [m] m
      else gap_loop gap messages groups (cur ++ [m]) m
  end.

Definition _split_by_time_gaps (messages : list SlackMessage) (gap_minutes : Z) : list (list SlackMessage) :=
  match messages with
  | [] => []
  | m :: messages => gap_loop (gap_minutes * minute) messages [] [m] m
  end.

(** [range(0, n, k)], which raises for [k = 0] and is empty for a negative [k]. *)
Definition range_from_0 (n k : Z) : result (list Z) :=
  if Z.eqb k 0 then Err ValueError else if Z.ltb k 0 then Ok [] else Ok (range_step n k).

Definition cut_group (group : list SlackMessage) : result (list (list SlackMessage)) :=
  if Z.leb (len group) (max_group_size config) then Ok [group]
  else
    starts ← range_from_0 (len group) (max_group_size config);
    Ok (List.map (fun i => slice group i (i + max_group_size config)) starts).

(** The merged groups so far, the last one [last] apart. *)
Fixpoint merge_groups (groups merged : list (list SlackMessage)) (last : list SlackMessage)
    : list (list SlackMessage) * list SlackMessage :=
  match groups with
  | [] => (merged, last)
  | group :: groups =>
      if Z.ltb (len last) (min_group_size config) || Z.ltb (len group) (min_group_size config)
      then merge_groups groups merged (last ++ group)
      else merge_groups groups (merged ++ [last]) group
  end.

(** [merged[-2].extend(merged[-1]); merged.pop()] when the last group is undersized. *)
Definition final_pass (merged : list (list SlackMessage)) (last : list SlackMessage)
    : list (list SlackMessage) :=
  match reverse merged with
  | [] => [last]
  | before :: rest =>
      if Z.ltb (len last) (min_group_size config) then reverse rest ++ [before ++ last]
      else merged ++ [last]
  end.

Definition _enforce_size_limits (groups : list (list SlackMessage)) : result (list (list SlackMessage)) :=
  split ← extend_m cut_group groups;
  match split with
  | [] => Ok []
  | [g] => Ok [g]
  | first :: rest => let '(merged, last) := merge_groups rest [] first in Ok (final_pass merged last)
  end.

(** [max] and [min] of the times of a non-empty group. *)
Definition latest (g : list SlackMessage) : Z :=
  match g with [] => 0 | m :: g' => foldr (fun x acc => Z.max (m_timestamp x) acc) (m_timestamp m) g' end.
Definition earliest (g : list SlackMessage) : Z :=
  match g with [] => 0 | m :: g' => foldr (fun x acc => Z.min (m_timestamp x) acc) (m_timestamp m) g' end.

Fixpoint session_loop (prev : list SlackMessage) (groups : list (list SlackMessage)) (current : Z) : list Z :=
  match groups with
  | [] => []
  | curr :: groups =>
      let next :=
        match prev, curr with
        | _ :: _, _ :: _ =>
            if Z.ltb (session_gap_minutes config * minute) (earliest curr - latest prev)
            then current + 1 else current
        | _, _ => current
        end in
      next :: session_loop curr groups next
  end.

Definition _assign_session_ids (groups : list (list SlackMessage)) : list Z :=
  match groups with [] => [] | g :: groups => 0 :: session_loop g groups 0 end.

(** ** Rendering *)

Context (hh_mm : Z -> text) (isoformat : Z -> text) (count_tokens : text -> Z).

(** One line of a group: the time in brackets, the author, a colon and the text. *)
Definition line (m : SlackMessage) : text :=
  [91] ++ hh_mm (m_timestamp m) ++ [93; 32] ++ m_author m ++ [58; 32] ++ m_text m.

Definition _format_group (messages : list SlackMessage) : text := join [10] (List.map line messages).

Record MessageMeta := MkMessageMeta {
  mm_id : string;
  mm_author : text;
  mm_timestamp : text;
  mm_start_char : Z;
  mm_end_char : Z;
}.

(** The loop over the messages: [offset] is where the next line starts. *)
Fixpoint meta_loop (messages : list SlackMessage) (offset : Z) : list MessageMeta :=
  match messages with
  | [] => []
  | m :: messages =>
      let stop := offset + len (line m) in
      MkMessageMeta (m_message_id m) (m_author m) (isoformat (m_timestamp m)) offset stop
      :: meta_loop messages (stop + match messages with [] => 0 | _ => 1 end)
  end.

Record ConversationChunk := MkConversationChunk {
  cc_result : ChunkResult;
  cc_channel : option string;
  cc_thread_ts : option string;
  cc_session_id : Z;
  cc_message_count : Z;
  cc_time_start : text;
  cc_time_end : text;
  cc_authors : list text;
  cc_messages : option (list MessageMeta);
}.

(** [list(dict.fromkeys(l))] *)
Fixpoint from_keys (seen l : list text) : list text :=
  match l with
  | [] => []
  | x :: l' => if bool_decide (x ∈ seen) then from_keys seen l' else x :: from_keys (x :: seen) l'
  end.

(** The caller passes non-empty groups only. *)
Definition _build_chunk_result (messages : list SlackMessage) (index session_id : Z) : ConversationChunk :=
  let content := _format_group messages in
  MkConversationChunk
    (MkChunkResult content index 0 (len content) (count_tokens content) "conversation")
    (first_truthy (List.map m_channel messages))
    (first_truthy (List.map m_thread_ts messages))
    session_id (len messages)
    (match messages with [] => [] | m :: _ => isoformat (m_timestamp m) end)
    (match last messages with None => [] | Some m => isoformat (m_timestamp m) end)
    (from_keys [] (List.map m_author messages))
    (if include_message_metadata config then Some (meta_loop messages 0) else None).

(** The chunks of the non-empty groups, indexed from 0 at the end. *)
Definition build_chunks (groups : list (list SlackMessage)) (sessions : list Z) : list ConversationChunk :=
  imap (fun i '(g, sid) => _build_chunk_result g (Z.of_nat i) sid)
    (List.filter (fun '(g, _) => match g with [] => false | _ => true end) (zip groups sessions)).

(** The groups [chunk_messages] renders. *)
Definition message_groups (messages : list SlackMessage) : result (list (list SlackMessage)) :=
  let '(threads, top_level) := _group_by_threads (sort_messages messages) in
  let top_groups := _split_by_time_gaps top_level (time_gap_minutes config) in
  _enforce_size_limits (List.map snd threads ++ top_groups).

Definition chunk_messages (messages : list SlackMessage) : result (list ConversationChunk) :=
  match messages with
  | [] => Ok []
  | _ =>
      all_groups ← message_groups messages;
      Ok (build_chunks all_groups (_assign_session_ids all_groups))
  end.
End conversation.
