(* ===== verification/ConversationFacts.v ===== *)
(** * Facts about the conversation chunker

    Every message is rendered in exactly one chunk, at the offsets its metadata states;
    sizes after the merge; undersized groups are merged without bound. *)
From S2P Require Import Prelude PyText Chunkers ChunkersFacts Conversation.

Local Open Scope Z_scope.

(** ** Sorting and grouping permute the messages *)

Lemma insert_message_perm m l : insert_message m l ≡ₚ m :: l.
Proof.
  induction l as [|x l IH]; simpl; [done|]. destruct (Z.leb _ _); [done|].
  rewrite IH. apply Permutation_swap.
Qed.

Lemma sort_messages_perm l : sort_messages l ≡ₚ l.
Proof. induction l as [|m l IH]; simpl; [done|]. by rewrite insert_message_perm, IH. Qed.

(** The messages of the threads. *)
Definition threaded (threads : list (string * list SlackMessage)) : list SlackMessage :=
  concat (List.map snd threads).

Lemma dict_set_threaded ts l threads old :
  dict_get ts threads = Some old -> threaded (dict_set ts l threads) ++ old ≡ₚ threaded threads ++ l.
Proof.
  unfold threaded. induction threads as [|[k v] d IH]; simpl; [done|].
  destruct (String.eqb ts k); simpl.
  - intros [= ->]. solve_Permutation.
  - intros H. rewrite <- !app_assoc. by rewrite (IH H).
Qed.

Lemma dict_set_new ts (l : list SlackMessage) threads :
  dict_get ts threads = None -> threaded (dict_set ts l threads) = threaded threads ++ l.
Proof.
  unfold threaded. induction threads as [|[k v] d IH]; simpl; [by rewrite app_nil_r|].
  destruct (String.eqb ts k); simpl; [done|]. intros H. by rewrite IH, app_assoc.
Qed.

Lemma append_thread_perm ts m threads : threaded (append_thread ts m threads) ≡ₚ threaded threads ++ [m].
Proof.
  unfold append_thread. destruct (dict_get ts threads) as [old|] eqn:E; simpl.
  - apply (Permutation_app_inv_r old). rewrite (dict_set_threaded _ _ _ _ E). solve_Permutation.
  - by rewrite dict_set_new.
Qed.

Lemma group_loop_perm messages threads top :
  let '(threads', top') := group_loop messages threads top in
  threaded threads' ++ top' ≡ₚ threaded threads ++ top ++ messages.
Proof.
  revert threads top. induction messages as [|m l IH]; intros threads top; simpl; [by rewrite app_nil_r|].
  destruct (truthy_str (m_thread_ts m)) as [ts|].
  - specialize (IH (append_thread ts m threads) top). destruct (group_loop _ _ _) as [t' p'].
    rewrite IH, append_thread_perm. solve_Permutation.
  - specialize (IH threads (top ++ [m])). destruct (group_loop _ _ _) as [t' p'].
    rewrite IH. solve_Permutation.
Qed.

Lemma threaded_sorted threads :
  threaded (List.map (fun '(ts, l) => (ts, sort_messages l)) threads) ≡ₚ threaded threads.
Proof.
  unfold threaded. induction threads as [|[k v] d IH]; simpl; [done|]. by rewrite sort_messages_perm, IH.
Qed.

Lemma gap_loop_concat gap messages groups cur prev :
  concat (gap_loop gap messages groups cur prev) = concat groups ++ cur ++ messages.
Proof.
  revert groups cur prev. induction messages as [|m l IH]; intros groups cur prev; simpl.
  - rewrite concat_app. simpl. by rewrite !app_nil_r.
  - destruct (Z.ltb _ _); rewrite IH, ?concat_app; simpl; rewrite ?app_nil_r, <- ?app_assoc; done.
Qed.

Lemma split_by_time_gaps_concat messages gap : concat (_split_by_time_gaps messages gap) = messages.
Proof. destruct messages as [|m l]; [done|]. apply gap_loop_concat. Qed.

(** ** Cutting and merging *)

Lemma slices_from {A} (l : list A) k i n :
  0 < k -> (Z.to_nat (len l) <= (i + n) * Z.to_nat k)%nat ->
  concat (List.map (fun j => slice l (Z.of_nat j * k) (Z.of_nat j * k + k)) (seq i n)) = drop (i * Z.to_nat k) l.
Proof.
  intros Hk. revert i. induction n as [|n IH]; intros i Hn; simpl.
  - rewrite drop_ge; [done|]. unfold len in Hn. lia.
  - rewrite (IH (S i)) by lia. unfold slice.
    assert (0 <= Z.of_nat i * k) by nia.
    destruct (Z.le_gt_cases (len l) (Z.of_nat i * k)) as [Hge|Hlt].
    + assert (len l <= Z.of_nat i * k + k) by lia. unfold clamp.
      destruct (Z.ltb_spec (Z.of_nat i * k) 0); [lia|]. destruct (Z.ltb_spec (Z.of_nat i * k + k) 0); [lia|].
      rewrite !Z.min_r, Z.sub_diag by lia. simpl. unfold len in *. rewrite !drop_ge by nia. done.
    + unfold clamp. destruct (Z.ltb_spec (Z.of_nat i * k) 0); [lia|].
      destruct (Z.ltb_spec (Z.of_nat i * k + k) 0); [lia|]. rewrite (Z.min_l (Z.of_nat i * k)) by lia.
      replace (Z.to_nat (Z.of_nat i * k)) with (i * Z.to_nat k)%nat by nia.
      transitivity (take (Z.to_nat k) (drop (i * Z.to_nat k) l) ++ drop (Z.to_nat k) (drop (i * Z.to_nat k) l));
        [|apply take_drop]. rewrite drop_drop.
      replace (i * Z.to_nat k + Z.to_nat k)%nat with (S i * Z.to_nat k)%nat by lia. f_equal.
      destruct (Z.le_gt_cases (Z.of_nat i * k + k) (len l)).
      * rewrite Z.min_l by lia. by replace (Z.of_nat i * k + k - Z.of_nat i * k) with k by lia.
      * rewrite Z.min_r by lia. rewrite !take_ge; [done|..]; rewrite length_drop; unfold len in *; nia.
Qed.

Lemma concat_slices {A} (l : list A) k :
  0 < k -> concat (List.map (fun i => slice l i (i + k)) (range_step (len l) k)) = l.
Proof.
  intros Hk. unfold range_step. rewrite List.map_map. rewrite slices_from; [by rewrite Nat.mul_0_l|done|].
  pose proof (len_nonneg l). pose proof (Z.div_mod (len l + k - 1) k) as E.
  pose proof (Z.mod_pos_bound (len l + k - 1) k). nia.
Qed.

Section sizes.
Context (config : ConversationChunkerConfig).

Lemma cut_group_concat group :
  0 < max_group_size config -> exists gs, cut_group config group = Ok gs /\ concat gs = group.
Proof.
  intros Hmax. unfold cut_group, range_from_0. destruct (Z.leb _ _).
  - exists [group]. split; [done|]. simpl. by rewrite app_nil_r.
  - destruct (Z.eqb_spec (max_group_size config) 0); [lia|].
    destruct (Z.ltb_spec (max_group_size config) 0); [lia|]. eexists. split; [done|]. by apply concat_slices.
Qed.

Lemma cut_groups_concat groups :
  0 < max_group_size config ->
  exists split, extend_m (cut_group config) groups = Ok split /\ concat split = concat groups.
Proof.
  intros Hmax. unfold extend_m. induction groups as [|g gs IH]; simpl; [by exists []|].
  destruct (cut_group_concat g Hmax) as (a & -> & Ea).
  destruct (map_m (cut_group config) gs) as [ys|] eqn:Em.
  2: { destruct IH as (? & ? & _). done. }
  destruct IH as (split & [= <-] & E2). simpl. eexists. split; [done|]. by rewrite concat_app, Ea, E2.
Qed.

Lemma merge_groups_concat groups merged last :
  let '(merged', last') := merge_groups config groups merged last in
  concat merged' ++ last' = concat merged ++ last ++ concat groups.
Proof.
  revert merged last. induction groups as [|g gs IH]; intros merged last; simpl; [by rewrite app_nil_r|].
  destruct (_ || _).
  - specialize (IH merged (last ++ g)). destruct (merge_groups _ _ _ _). rewrite IH. by rewrite <- !app_assoc.
  - specialize (IH (merged ++ [last]) g). destruct (merge_groups _ _ _ _). rewrite IH, concat_app. simpl.
    by rewrite app_nil_r, <- !app_assoc.
Qed.

Lemma final_pass_concat merged last : concat (final_pass config merged last) = concat merged ++ last.
Proof.
  unfold final_pass. destruct (reverse merged) as [|b rest] eqn:E.
  - apply (f_equal reverse) in E. rewrite reverse_involutive in E. subst. simpl. by rewrite app_nil_r.
  - apply (f_equal reverse) in E. rewrite reverse_involutive, reverse_cons in E. subst.
    destruct (Z.ltb _ _); rewrite !concat_app; simpl; by rewrite ?app_nil_r, ?app_assoc.
Qed.

Lemma enforce_concat groups :
  0 < max_group_size config ->
  exists gs, _enforce_size_limits config groups = Ok gs /\ concat gs = concat groups.
Proof.
  intros Hmax. unfold _enforce_size_limits. destruct (cut_groups_concat groups Hmax) as (split & E & Ec).
  unfold mbind, result_bind. rewrite E. destruct split as [|first [|second rest]]; [by exists []|by exists [first]|].
  pose proof (merge_groups_concat (second :: rest) [] first) as Hm.
  destruct (merge_groups config (second :: rest) [] first) as [merged last]. eexists. split; [done|].
  rewrite final_pass_concat, Hm. done.
Qed.

Lemma message_groups_perm messages :
  0 < max_group_size config ->
  exists gs, message_groups config messages = Ok gs /\ concat gs ≡ₚ messages.
Proof.
  intros Hmax. unfold message_groups, _group_by_threads.
  pose proof (group_loop_perm (sort_messages messages) [] []) as Hg.
  destruct (group_loop (sort_messages messages) [] []) as [threads top].
  destruct (enforce_concat (List.map snd (List.map (fun '(ts, l) => (ts, sort_messages l)) threads)
    ++ _split_by_time_gaps top (time_gap_minutes config)) Hmax) as (gs & E & Ec).
  exists gs. split; [done|]. rewrite Ec, concat_app, split_by_time_gaps_concat.
  rewrite (threaded_sorted threads), Hg. simpl. apply sort_messages_perm.
Qed.

(** After the merge every group has the minimal size, unless it is the only one. *)
Lemma merge_groups_sizes groups merged last :
  let big g := min_group_size config <= len g in
  Forall big merged -> let '(merged', _) := merge_groups config groups merged last in Forall big merged'.
Proof.
  intros big. revert merged last. induction groups as [|g gs IH]; intros merged last Hm; simpl; [done|].
  destruct (Z.ltb_spec (len last) (min_group_size config)) as [H1|H1]; [by apply IH|].
  destruct (Z.ltb_spec (len g) (min_group_size config)) as [H2|H2]; [by apply IH|].
  apply IH. apply Forall_app. split; [done|]. by repeat constructor.
Qed.

Lemma final_pass_sizes merged last :
  let big g := min_group_size config <= len g in
  Forall big merged -> (2 <= length (final_pass config merged last))%nat ->
  Forall big (final_pass config merged last).
Proof.
  intros big Hm. unfold final_pass. destruct (reverse merged) as [|b rest] eqn:E; simpl; [lia|].
  apply (f_equal reverse) in E. rewrite reverse_involutive, reverse_cons in E. subst.
  apply Forall_app in Hm as [Hr Hb]. inversion Hb as [|? ? Hb1 _]; subst.
  intros _. destruct (Z.ltb_spec (len last) (min_group_size config)) as [H|H].
  - apply Forall_app. split; [done|]. repeat constructor. unfold big in *. rewrite len_app.
    pose proof (len_nonneg last). lia.
  - apply Forall_app. split; [by apply Forall_app|]. by repeat constructor.
Qed.

Lemma enforce_min_size groups gs :
  _enforce_size_limits config groups = Ok gs -> (2 <= length gs)%nat ->
  Forall (fun g => min_group_size config <= len g) gs.
Proof.
  unfold _enforce_size_limits, mbind, result_bind. destruct (extend_m _ _) as [split|]; [|done].
  destruct split as [|first [|second rest]]; [by intros [= <-]; simpl; lia..|].
  pose proof (merge_groups_sizes (second :: rest) [] first (Forall_nil_2 _)) as Hm.
  destruct (merge_groups config (second :: rest) [] first) as [merged last].
  intros [= <-]. by apply final_pass_sizes.
Qed.

Lemma merge_undersized groups merged last :
  Forall (fun g => len g < min_group_size config) groups ->
  merge_groups config groups merged last = (merged, last ++ concat groups).
Proof.
  intros H. revert last. induction H as [|g gs Hg _ IH]; intros last; simpl; [by rewrite app_nil_r|].
  destruct (Z.ltb_spec (len g) (min_group_size config)); [|lia]. rewrite orb_true_r, IH.
  by rewrite app_assoc.
Qed.

(** Groups that are all below the minimal size are merged into one, whatever their
    number, the maximal size and the times between them: the limit is applied before the
    merge, and the merge has none. *)
Theorem undersized_groups_merge_unbounded groups :
  0 < max_group_size config -> min_group_size config <= max_group_size config + 1 -> groups <> [] ->
  Forall (fun g => len g < min_group_size config) groups ->
  _enforce_size_limits config groups = Ok [concat groups].
Proof.
  intros Hmax Hmm Hne Hs. unfold _enforce_size_limits, extend_m.
  assert (map_m (cut_group config) groups = Ok (List.map (fun g => [g]) groups)) as ->.
  { clear Hne. induction Hs as [|g gs Hg _ IH]; simpl; [done|]. unfold cut_group at 1.
    destruct (Z.leb_spec (len g) (max_group_size config)); [|lia]. by rewrite IH. }
  assert (forall l : list (list SlackMessage), concat (List.map (fun g => [g]) l) = l) as ->
    by (induction l; simpl; congruence).
  unfold mbind, result_bind. destruct Hs as [|g gs Hg Hgs]; [done|].
  destruct gs as [|g2 gs]; [simpl; by rewrite app_nil_r|]. by rewrite merge_undersized.
Qed.
End sizes.

(** ** Rendering *)

Section render.
Context (config : ConversationChunkerConfig).
Context (hh_mm isoformat : Z -> text) (count_tokens : text -> Z).

Lemma slice_middle {A} (pre x post : list A) :
  slice (pre ++ x ++ post) (len pre) (len pre + len x) = x.
Proof.
  rewrite slice_in_range; [|pose proof (len_nonneg pre); pose proof (len_nonneg x); lia|
    rewrite !len_app; pose proof (len_nonneg post); lia].
  replace (Z.to_nat (len pre + len x - len pre)) with (length x) by (unfold len; lia).
  unfold len. rewrite Nat2Z.id, drop_app_length, take_app_length. done.
Qed.

Lemma meta_loop_offsets messages pre :
  Forall2 (fun m mm => mm_id mm = m_message_id m /\ mm_author mm = m_author m
      /\ slice (pre ++ join [10] (List.map (line hh_mm) messages)) (mm_start_char mm) (mm_end_char mm)
         = line hh_mm m)
    messages (meta_loop hh_mm isoformat messages (len pre)).
Proof.
  revert pre. induction messages as [|m l IH]; intros pre; cbn [meta_loop]; constructor.
  - split_and!; [done..|]. cbn [mm_start_char mm_end_char List.map]. destruct l as [|m2 l]; cbn [List.map join].
    + rewrite <- (app_nil_r (line hh_mm m)) at 1. apply slice_middle.
    + rewrite slice_middle. done.
  - destruct l as [|m2 l]; [constructor|].
    specialize (IH (pre ++ line hh_mm m ++ [10])). rewrite !len_app in IH.
    replace (len pre + (len (line hh_mm m) + len [10])) with (len pre + len (line hh_mm m) + 1) in IH
      by (change (len [10]) with 1; lia).
    rewrite <- !app_assoc in IH. exact IH.
Qed.

(** What a chunk must be for the group of messages it renders. *)
Definition renders (g : list SlackMessage) (c : ConversationChunk) : Prop :=
  content (cc_result c) = _format_group hh_mm g /\ cc_message_count c = len g
  /\ (include_message_metadata config = true -> exists metas, cc_messages c = Some metas
      /\ Forall2 (fun m mm => mm_id mm = m_message_id m /\ mm_author mm = m_author m
           /\ slice (content (cc_result c)) (mm_start_char mm) (mm_end_char mm) = line hh_mm m) g metas).

Lemma build_renders g i sid : renders g (_build_chunk_result config hh_mm isoformat count_tokens g i sid).
Proof.
  unfold renders, _build_chunk_result. simpl. split_and!; [done..|]. intros ->. eexists. split; [done|].
  apply (meta_loop_offsets g []).
Qed.

Lemma session_ids_length groups : length (_assign_session_ids config groups) = length groups.
Proof.
  destruct groups as [|g gs]; [done|]. simpl. f_equal. generalize g 0.
  induction gs as [|h gs IH]; intros g' c; simpl; [done|]. by rewrite IH.
Qed.

Lemma build_chunks_renders groups sids :
  length sids = length groups ->
  exists gs, concat gs = concat groups /\ Forall2 renders gs (build_chunks config hh_mm isoformat count_tokens groups sids)
    /\ Forall (fun g => g <> []) gs
    /\ List.map (fun c => index (cc_result c)) (build_chunks config hh_mm isoformat count_tokens groups sids)
       = List.map Z.of_nat (seq 0 (length gs)).
Proof.
  intros Hlen. unfold build_chunks.
  set (l := List.filter _ _). exists (List.map fst l). split_and!.
  - unfold l. clear l. revert sids Hlen. induction groups as [|g gs IH]; intros [|sid sids] Hlen; simpl in *; [done..|].
    destruct g as [|m g]; simpl; rewrite IH by lia; done.
  - clearbody l. generalize 0%nat as k. intros k0. clear k0.
    assert (forall f : nat -> nat, Forall2 renders (List.map fst l)
      (imap (fun i '(g, sid) => _build_chunk_result config hh_mm isoformat count_tokens g (Z.of_nat (f i)) sid) l)) as H.
    { induction l as [|[g sid] l IH]; intros f; simpl; constructor; [apply build_renders|]. apply (IH (f ∘ S)). }
    apply (H id).
  - unfold l. apply Forall_forall. intros g Hg. apply list_elem_of_In, in_map_iff in Hg as ([g' sid] & <- & Hin).
    apply filter_In in Hin as [_ Hin]. simpl. by destruct g'.
  - clearbody l. rewrite length_map.
    assert (forall k, List.map (fun c => index (cc_result c))
      (imap (fun i '(g, sid) => _build_chunk_result config hh_mm isoformat count_tokens g (Z.of_nat (k + i)) sid) l)
      = List.map Z.of_nat (seq k (length l))) as H.
    { induction l as [|[g sid] l IH]; intros k; simpl; [done|]. rewrite Nat.add_0_r. f_equal.
      rewrite <- (IH (S k)). f_equal. apply imap_ext. intros i [g' sid'] _. simpl. by rewrite Nat.add_succ_r. }
    apply (H 0%nat).
Qed.

(** Every message is rendered in exactly one chunk: the chunks, indexed from 0, render
    groups that together are the messages, and the offsets a chunk's metadata states for a
    message cut its line out of the chunk. *)
Theorem conversation_partitions messages :
  0 < max_group_size config ->
  exists chunks gs,
    chunk_messages config hh_mm isoformat count_tokens messages = Ok chunks
    /\ concat gs ≡ₚ messages /\ Forall (fun g => g <> []) gs /\ Forall2 renders gs chunks
    /\ List.map (fun c => index (cc_result c)) chunks = List.map Z.of_nat (seq 0 (length chunks)).
Proof.
  intros Hmax. unfold chunk_messages. destruct messages as [|m l].
  { exists [], []. split_and!; constructor. }
  destruct (message_groups_perm config (m :: l) Hmax) as (groups & E & Hp).
  destruct (build_chunks_renders groups (_assign_session_ids config groups) (session_ids_length groups))
    as (gs & Hc & Hr & Hne & Hi).
  exists (build_chunks config hh_mm isoformat count_tokens groups (_assign_session_ids config groups)), gs.
  rewrite E. split_and!; [done| |done|done|].
  - by rewrite Hc.
  - by rewrite Hi, (Forall2_length _ _ _ Hr).
Qed.
End render.

Definition sample_message (i : Z) : SlackMessage :=
  MkSlackMessage (lit "hello") (lit "ann") (i * 3600 * 1000000) "m"
    (if Z.eqb i 0 then None else Some "t"%string) None.

(** Sixty messages, each its own group, an hour apart. *)
Lemma undersized_groups_merge_unbounded_witness :
  let groups := List.map (fun i => [sample_message (Z.of_nat i)]) (seq 0 60) in
  _enforce_size_limits default_config groups = Ok [concat groups]
  /\ len (concat groups) = 60 /\ max_group_size default_config = 50.
Proof.
  intros groups. split; [|split; reflexivity].
  apply (undersized_groups_merge_unbounded default_config groups); [done|done|done|].
  repeat constructor; done.
Defined.

Lemma conversation_partitions_witness : exists chunks gs,
  chunk_messages default_config (fun _ => lit "00:00") (fun _ => []) len [sample_message 1; sample_message 0]
    = Ok chunks
  /\ concat gs ≡ₚ [sample_message 1; sample_message 0] /\ Forall (fun g => g <> []) gs
  /\ Forall2 (renders default_config (fun _ => lit "00:00")) gs chunks
  /\ List.map (fun c => index (cc_result c)) chunks = List.map Z.of_nat (seq 0 (length chunks)).
Proof. by apply (conversation_partitions default_config (fun _ => lit "00:00") (fun _ => []) len). Defined.
