(* ===== verification/RankFusion.v ===== *)
(** * Rank fusion ([engines/vectorcypher/fusion.py]) and the rerank window
    ([_select_rerank_window] of [engines/vectorcypher/retriever.py])

    Fusion of ranked lists by reciprocal rank, by calibrated score, and by the union modes
    that preserve ranks.  Floats are IEEE doubles, computed with the Standard Library's
    specification of them; dicts keep insertion order; a division by zero raises. *)
From Stdlib Require Import SpecFloat.
From S2P Require Import Prelude PyText.

Local Open Scope Z_scope.

(** ** Doubles *)

Abbreviation float := spec_float.

Definition fadd : float -> float -> float := SFadd 53 1024.
Definition fsub : float -> float -> float := SFsub 53 1024.
Definition fmul : float -> float -> float := SFmul 53 1024.
Definition flt : float -> float -> bool := SFltb.
Definition feq : float -> float -> bool := SFeqb.

Definition of_Z (z : Z) : float := binary_normalize 53 1024 z 0 false.
Definition f0 : float := S754_zero false.
Definition f1 : float := of_Z 1.

(** [x / y] *)
Definition fdiv (x y : float) : result float :=
  match y with S754_zero _ => Err (OtherError "ZeroDivisionError") | _ => Ok (SFdiv 53 1024 x y) end.

(** [max(x, y)]: the first unless the second is greater. *)
Definition fmax (x y : float) : float := if flt x y then y else x.
Definition fmin (x y : float) : float := if flt y x then y else x.

(** [sum(l)]: the first term is added to the integer 0, the rest with a running
    compensation, which the result takes in when it is a finite non-zero number. *)
Definition fabs (x : float) : float := SFabs x.
Definition is_finite (x : float) : bool :=
  match x with S754_infinity _ | S754_nan => false | _ => true end.

Fixpoint sum_loop (l : list float) (hi lo : float) : float :=
  match l with
  | [] =>
      match lo with
      | S754_zero _ => hi
      | _ => if is_finite lo then fadd hi lo else hi
      end
  | x :: l =>
      let t := fadd hi x in
      let lo := fadd lo (if flt (fabs hi) (fabs x) then fadd (fsub x t) hi else fadd (fsub hi t) x) in
      sum_loop l t lo
  end.

Definition fsum (l : list float) : float :=
  match l with [] => f0 | x :: l => sum_loop l (fadd f0 x) f0 end.

(** ** Dicts keyed by ids *)

Section dicts.
Context {K B : Type} `{EqDecision K}.

Fixpoint zget (k : K) (d : list (K * B)) : option B :=
  match d with
  | [] => None
  | (k', v) :: d' => if decide (k = k') then Some v else zget k d'
  end.

Fixpoint zset (k : K) (v : B) (d : list (K * B)) : list (K * B) :=
  match d with
  | [] => [(k, v)]
  | (k', v') :: d' => if decide (k = k') then (k', v) :: d' else (k', v') :: zset k v d'
  end.

(** [d.setdefault(k, v)] *)
Definition setdefault (k : K) (v : B) (d : list (K * B)) : list (K * B) :=
  match zget k d with Some _ => d | None => d ++ [(k, v)] end.
End dicts.

(** [d[k] += x] on a [defaultdict(float)]. *)
Definition add_score (k : Z) (x : float) (d : list (Z * float)) : list (Z * float) :=
  zset k (fadd (default f0 (zget k d)) x) d.

(** ** Fused results *)

Section fusion.
Context {item : Type}.

(** [(item_id, score, item)] *)
Definition hit : Type := Z * float * item.
Definition hit_id (h : hit) : Z := h.1.1.
Definition hit_score (h : hit) : float := h.1.2.

Record FusedResult := MkFusedResult {
  item_id : Z;
  fr_item : item;
  rrf_score : float;
  vector_rank : option Z;
  graph_rank : option Z;
  vector_score : option float;
  graph_score : option float;
  bm25_rank : option Z;
  bm25_score : option float;
}.

Definition set_score (r : FusedResult) (x : float) : FusedResult :=
  MkFusedResult (item_id r) (fr_item r) x (vector_rank r) (graph_rank r) (vector_score r)
    (graph_score r) (bm25_rank r) (bm25_score r).

(** [l.sort(key=lambda r: r.rrf_score, reverse=True)]: stable, the greater first. *)
Fixpoint insert_desc (r : FusedResult) (l : list FusedResult) : list FusedResult :=
  match l with
  | [] => [r]
  | x :: l' => if flt (rrf_score r) (rrf_score x) then x :: insert_desc r l' else r :: l
  end.
Definition sort_desc (l : list FusedResult) : list FusedResult := foldr insert_desc [] l.

(** [enumerate(l, start=1)] *)
Definition ranked {A} (l : list A) : list (Z * A) := imap (fun i x => (Z.of_nat i + 1, x)) l.

(** [for x in l: acc = f(acc, x)] where [f] may raise. *)
Fixpoint fold_m {A S} (f : S -> A -> result S) (acc : S) (l : list A) : result S :=
  match l with
  | [] => Ok acc
  | x :: l' => match f acc x with Ok acc => fold_m f acc l' | Err e => Err e end
  end.

Definition _min_max_normalize (scores : list float) : result (list float) :=
  match scores with
  | [] => Ok []
  | s :: rest =>
      let min_score := foldl fmin s rest in
      let max_score := foldl fmax s rest in
      if feq max_score min_score then Ok (List.map (fun _ => f1) scores)
      else map_m (fun s => fdiv (fsub s min_score) (fsub max_score min_score)) scores
  end.

(** The dicts the two-channel fusers fill. *)
Record Acc := MkAcc {
  a_scores : list (Z * float);
  a_contributions : list (Z * float);
  a_items : list (Z * item);
  a_vector_ranks : list (Z * Z);
  a_graph_ranks : list (Z * Z);
  a_vector_scores : list (Z * float);
  a_graph_scores : list (Z * float);
}.
Definition empty_acc : Acc := MkAcc [] [] [] [] [] [] [].

Definition fused_of (a : Acc) (scores : list (Z * float)) : result (list FusedResult) :=
  map_m (fun '(i, score) =>
    match zget i (a_items a) with
    | None => Err KeyError
    | Some it =>
        Ok (MkFusedResult i it score (zget i (a_vector_ranks a)) (zget i (a_graph_ranks a))
              (zget i (a_vector_scores a)) (zget i (a_graph_scores a)) None None)
    end) scores.

(** *** Reciprocal rank fusion *)

Definition rrf_step (k : Z) (list_idx : nat) (a : Acc) (x : Z * hit) : result Acc :=
  let '(rank, (i, score, it)) := x in
  contribution ← fdiv f1 (of_Z (k + rank));
  Ok (MkAcc (add_score i contribution (a_scores a)) (a_contributions a) (zset i it (a_items a))
    (if Nat.eqb list_idx 0 then zset i rank (a_vector_ranks a) else a_vector_ranks a)
    (if Nat.eqb list_idx 1 then zset i rank (a_graph_ranks a) else a_graph_ranks a)
    (if Nat.eqb list_idx 0 then zset i score (a_vector_scores a) else a_vector_scores a)
    (if Nat.eqb list_idx 1 then zset i score (a_graph_scores a) else a_graph_scores a)).

Definition reciprocal_rank_fusion (result_lists : list (list hit)) (k : Z) : result (list FusedResult) :=
  a ← fold_m (fun a '(idx, results) => fold_m (rrf_step k idx) a (ranked results)) empty_acc
        (imap pair result_lists);
  fused ← fused_of a (a_scores a);
  Ok (sort_desc fused).

Inductive channel := VectorChannel | GraphChannel.

(** One hit of a channel: the contribution, the normalized score's small one, the item
    (a graph hit does not replace the item of a vector hit) and the provenance. *)
Definition channel_step (k : Z) (c : channel) (weight : float) (a : Acc) (x : Z * (hit * float))
    : result Acc :=
  let '(rank, ((i, score, it), small)) := x in
  contribution ← fdiv weight (of_Z (k + rank));
  Ok (match c with
      | VectorChannel =>
          MkAcc (add_score i contribution (a_scores a)) (add_score i small (a_contributions a))
            (zset i it (a_items a)) (zset i rank (a_vector_ranks a)) (a_graph_ranks a)
            (zset i score (a_vector_scores a)) (a_graph_scores a)
      | GraphChannel =>
          MkAcc (add_score i contribution (a_scores a)) (add_score i small (a_contributions a))
            (setdefault i it (a_items a)) (a_vector_ranks a) (zset i rank (a_graph_ranks a))
            (a_vector_scores a) (zset i score (a_graph_scores a))
      end).

Definition weighted_rrf (vector_results graph_results : list hit) (k : Z)
    (vector_weight graph_weight : float) : result (list FusedResult) :=
  let plain l := List.map (fun h => (h, f0)) l in
  a ← fold_m (channel_step k VectorChannel vector_weight) empty_acc (ranked (plain vector_results));
  a ← fold_m (channel_step k GraphChannel graph_weight) a (ranked (plain graph_results));
  fused ← fused_of a (a_scores a);
  Ok (sort_desc fused).

(** The literal [0.01]. *)
Definition hundredth : float := S754_finite false 5764607523034235 (-59).

(** The hits of a source with [weight * norm * 0.01] each. *)
Definition with_small (weight : float) (results : list hit) : result (list (hit * float)) :=
  normalized ← _min_max_normalize (List.map hit_score results);
  Ok (zip results (List.map (fun norm => fmul (fmul weight norm) hundredth) normalized)).

(** [rrf_scores[i] + score_contributions[i]] *)
Definition final_scores (a : Acc) : list (Z * float) :=
  List.map (fun '(i, s) => (i, fadd s (default f0 (zget i (a_contributions a))))) (a_scores a).

Definition weighted_rrf_normalized (vector_results graph_results : list hit) (k : Z)
    (vector_weight graph_weight : float) : result (list FusedResult) :=
  vs ← with_small vector_weight vector_results;
  a ← fold_m (channel_step k VectorChannel vector_weight) empty_acc (ranked vs);
  gs ← with_small graph_weight graph_results;
  a ← fold_m (channel_step k GraphChannel graph_weight) a (ranked gs);
  fused ← fused_of a (final_scores a);
  Ok (sort_desc fused).

Definition nlist_step (k : Z) (weight : float) (a : Acc) (x : Z * (hit * float)) : result Acc :=
  let '(rank, ((i, _, it), small)) := x in
  contribution ← fdiv weight (of_Z (k + rank));
  Ok (MkAcc (add_score i contribution (a_scores a)) (add_score i small (a_contributions a))
        (setdefault i it (a_items a)) [] [] [] []).

Definition weighted_rrf_nlist (sources : list (list hit * float)) (k : Z) : result (list FusedResult) :=
  a ← fold_m (fun a '(results, weight) =>
        hs ← with_small weight results; fold_m (nlist_step k weight) a (ranked hs)) empty_acc sources;
  fused ← fused_of a (final_scores a);
  Ok (sort_desc fused).

(** *** Score-calibrated fusion *)

(** The hits of a channel with their normalized scores. *)
Definition with_norm (results : list hit) : result (list (hit * float)) :=
  normalized ← _min_max_normalize (List.map hit_score results);
  Ok (zip results normalized).

(** [a_contributions] holds [norm_vector], [a_scores] holds [norm_graph]. *)
Definition calibrated_vector (a : Acc) (x : Z * (hit * float)) : Acc :=
  let '(rank, ((i, score, it), norm)) := x in
  MkAcc (a_scores a) (zset i norm (a_contributions a)) (zset i it (a_items a))
    (zset i rank (a_vector_ranks a)) (a_graph_ranks a) (zset i score (a_vector_scores a)) (a_graph_scores a).

Definition calibrated_graph (a : Acc) (x : Z * (hit * float)) : Acc :=
  let '(rank, ((i, score, it), norm)) := x in
  MkAcc (zset i norm (a_scores a)) (a_contributions a) (setdefault i it (a_items a))
    (a_vector_ranks a) (zset i rank (a_graph_ranks a)) (a_vector_scores a) (zset i score (a_graph_scores a)).

Definition calibrated_score (vector_weight graph_weight : float) (a : Acc) (i : Z) : float :=
  fadd (fmul vector_weight (default f0 (zget i (a_contributions a))))
       (fmul graph_weight (default f0 (zget i (a_scores a)))).

Definition score_calibrated_fusion (vector_results graph_results : list hit)
    (vector_weight graph_weight : float) : result (list FusedResult) :=
  vs ← with_norm vector_results;
  gs ← with_norm graph_results;
  let a := foldl calibrated_graph (foldl calibrated_vector empty_acc (ranked vs)) (ranked gs) in
  fused ← fused_of a (List.map (fun '(i, _) => (i, calibrated_score vector_weight graph_weight a i)) (a_items a));
  Ok (sort_desc fused).

Definition calibrated_nlist_step (weight : float) (a : Acc) (x : hit * float) : Acc :=
  let '((i, _, it), norm) := x in
  MkAcc (add_score i (fmul weight norm) (a_scores a)) [] (setdefault i it (a_items a)) [] [] [] [].

Definition score_calibrated_fusion_nlist (sources : list (list hit * float)) : result (list FusedResult) :=
  a ← fold_m (fun a '(results, weight) =>
        hs ← with_norm results; Ok (foldl (calibrated_nlist_step weight) a hs)) empty_acc sources;
  fused ← fused_of a (a_scores a);
  Ok (sort_desc fused).

(** *** The union modes *)

(** Ranks, scores, items and normalized scores, by id and then by channel name. *)
Record Union := MkUnion {
  u_ranks : list (Z * list (string * Z));
  u_scores : list (Z * list (string * float));
  u_items : list (Z * item);
  u_norms : list (Z * list (string * float));
}.

(** [d.setdefault(i, {})[name] = v] *)
Definition set_in {B} (i : Z) (name : string) (v : B) (d : list (Z * list (string * B)))
    : list (Z * list (string * B)) :=
  zset i (dict_set name v (default [] (zget i d))) d.

Definition union_step (name : string) (u : Union) (x : Z * (hit * option float)) : Union :=
  let '(rank, ((i, score, it), norm)) := x in
  MkUnion (set_in i name rank (u_ranks u)) (set_in i name score (u_scores u))
    (setdefault i it (u_items u))
    (match norm with Some n => set_in i name n (u_norms u) | None => u_norms u end).

Definition limited (per_channel_limit : option Z) (results : list hit) : list hit :=
  match per_channel_limit with Some n => slice results 0 n | None => results end.

Definition _union_channel_ranks (channels : list (string * list hit)) (per_channel_limit : option Z)
    (with_norm : bool) : result Union :=
  fold_m (fun u '(name, results) =>
    let results := limited per_channel_limit results in
    normalized ← (if with_norm then List.map Some <$> _min_max_normalize (List.map hit_score results)
                  else Ok (List.map (fun _ => None) results));
    Ok (foldl (union_step name) u (ranked (zip results normalized))))
    (MkUnion [] [] [] []) channels.

(** [min] of a non-empty list. *)
Definition zmin (l : list Z) : Z := match l with [] => 0 | x :: l => foldl Z.min x l end.

(** The index of a channel among the channels, in their order. *)
Definition priority (channels : list (string * list hit)) : list (string * Z) :=
  foldl (fun d '(idx, (name, _)) => dict_set name (Z.of_nat idx) d) [] (imap pair channels).

(** [min(names, key=lambda n: priority[n])]: the first of the least. *)
Fixpoint min_priority (prio : list (string * Z)) (best : string * Z) (names : list string)
    : result (string * Z) :=
  match names with
  | [] => Ok best
  | n :: names =>
      match dict_get n prio with
      | None => Err KeyError
      | Some p => min_priority prio (if Z.ltb p best.2 then (n, p) else best) names
      end
  end.

Definition _best_channel (item_ranks : list (string * Z)) (prio : list (string * Z))
    : result (Z * (string * Z)) :=
  let best_rank := zmin (List.map snd item_ranks) in
  match List.map fst (List.filter (fun '(_, r) => Z.eqb r best_rank) item_ranks) with
  | [] => Err ValueError
  | n :: names =>
      match dict_get n prio with
      | None => Err KeyError
      | Some p => best ← min_priority prio (n, p) names; Ok (best_rank, best)
      end
  end.

Definition _build_union_result (i : Z) (it : item) (score : float) (item_ranks : list (string * Z))
    (item_scores : list (string * float)) : FusedResult :=
  MkFusedResult i it score (dict_get "vector" item_ranks) (dict_get "graph" item_ranks)
    (dict_get "vector" item_scores) (dict_get "graph" item_scores)
    (dict_get "bm25" item_ranks) (dict_get "bm25" item_scores).

(** A sort key: tuples compare at the first place where they differ. *)
Inductive sort_part := PInt (z : Z) | PFloat (x : float) | PStr (s : string).

Definition part_eq (a b : sort_part) : bool :=
  match a, b with
  | PInt x, PInt y => Z.eqb x y
  | PFloat x, PFloat y => feq x y
  | PStr x, PStr y => String.eqb x y
  | _, _ => false
  end.

Definition part_lt (a b : sort_part) : bool :=
  match a, b with
  | PInt x, PInt y => Z.ltb x y
  | PFloat x, PFloat y => flt x y
  | PStr x, PStr y => String.ltb x y
  | _, _ => false
  end.

Fixpoint key_lt (a b : list sort_part) : bool :=
  match a, b with
  | x :: a, y :: b => if part_eq x y then key_lt a b else part_lt x y
  | [], _ :: _ => true
  | _, _ => false
  end.

(** [sorted(l, key=f)] on keys computed beforehand: stable, the lesser first. *)
Fixpoint insert_key {A} (x : list sort_part * A) (l : list (list sort_part * A)) : list (list sort_part * A) :=
  match l with
  | [] => [x]
  | y :: l' => if key_lt y.1 x.1 then y :: insert_key x l' else x :: l
  end.
Definition sort_keyed {A} (l : list (list sort_part * A)) : list (list sort_part * A) := foldr insert_key [] l.

Context (uuid_str : Z -> string).

(** [-x] *)
Definition fneg (x : float) : float := SFopp x.

Definition best_rank_key (u : Union) (prio : list (string * Z)) (i : Z) : result (list sort_part) :=
  let ranks := default [] (zget i (u_ranks u)) in
  best ← _best_channel ranks prio;
  let '(best_rank, (best_channel, p)) := best in
  match dict_get best_channel (default [] (zget i (u_norms u))) with
  | None => Err KeyError
  | Some norm => Ok [PInt best_rank; PInt (- len ranks); PInt p; PFloat (fneg norm); PStr (uuid_str i)]
  end.

(** The ids of the union in the order of their keys. *)
Definition union_order (key : Z -> result (list sort_part)) (u : Union) : result (list Z) :=
  keyed ← map_m (fun '(i, _) => k ← key i; Ok (k, i)) (u_items u);
  Ok (List.map snd (sort_keyed keyed)).

(** The results of the ids, each with its position from 1. *)
Definition union_results (u : Union) (score : Z -> Z -> result float) (ordered : list Z)
    : result (list FusedResult) :=
  map_m (fun '(pos, i) =>
    s ← score pos i;
    match zget i (u_items u) with
    | None => Err KeyError
    | Some it => Ok (_build_union_result i it s (default [] (zget i (u_ranks u)))
                       (default [] (zget i (u_scores u))))
    end) (ranked ordered).

Definition union_best_rank_fusion (channels : list (string * list hit)) (rrf_k : Z)
    (per_channel_limit : option Z) : result (list FusedResult) :=
  u ← _union_channel_ranks channels per_channel_limit true;
  ordered ← union_order (best_rank_key u (priority channels)) u;
  union_results u (fun pos _ => fdiv f1 (of_Z (rrf_k + pos))) ordered.

Definition mnz_score (weights : list (string * float)) (rrf_k : Z) (ranks : list (string * Z)) : result float :=
  terms ← map_m (fun '(name, rank) => fdiv (default f0 (dict_get name weights)) (of_Z (rrf_k + rank))) ranks;
  Ok (fmul (of_Z (len ranks)) (fsum terms)).

Definition mnz_key (u : Union) (mnz : list (Z * float)) (prio : list (string * Z)) (i : Z)
    : result (list sort_part) :=
  let ranks := default [] (zget i (u_ranks u)) in
  best ← _best_channel ranks prio;
  let '(best_rank, (_, p)) := best in
  Ok [PFloat (fneg (default f0 (zget i mnz))); PInt best_rank; PInt (- len ranks); PInt p; PStr (uuid_str i)].

Definition union_mnz_fusion (channels : list (string * list hit)) (weights : list (string * float))
    (rrf_k : Z) (per_channel_limit : option Z) : result (list FusedResult) :=
  u ← _union_channel_ranks channels per_channel_limit false;
  mnz ← map_m (fun '(i, ranks) => s ← mnz_score weights rrf_k ranks; Ok (i, s)) (u_ranks u);
  ordered ← union_order (mnz_key u mnz (priority channels)) u;
  union_results u (fun _ i => Ok (default f0 (zget i mnz))) ordered.

(** ** The rerank window *)

Record WindowConfig := MkWindowConfig { fusion_mode : string; union_rank_channels : list string }.

Definition _UNION_FUSION_MODES : list string := ["union_best_rank"; "union_mnz"]%string.

Definition channel_attr_by_name : list (string * (FusedResult -> option Z)) :=
  [("vector", vector_rank); ("graph", graph_rank); ("bm25", bm25_rank)]%string.

Definition active_channels (cfg : WindowConfig) (fused : list FusedResult) : list (FusedResult -> option Z) :=
  List.map snd (List.filter (fun '(name, attr) =>
    mem_str name (union_rank_channels cfg)
    && existsb (fun r => match attr r with Some _ => true | None => false end) fused) channel_attr_by_name).

(** The members of a channel, by their rank in it. *)
Definition members (attr : FusedResult -> option Z) (fused : list FusedResult) : list FusedResult :=
  List.map snd (sort_keyed (omap (fun r => match attr r with Some k => Some ([PInt k], r) | None => None end) fused)).

(** The ids taken by post-boost order until the window is full. *)
Fixpoint fill_window (top_n : Z) (fused : list FusedResult) (ids : list Z) : list Z :=
  match fused with
  | [] => ids
  | r :: fused =>
      if Z.leb top_n (len ids) then ids
      else fill_window top_n fused (if bool_decide (item_id r ∈ ids) then ids else item_id r :: ids)
  end.

(** The distinct ids of the guaranteed members. *)
Definition guaranteed (quota : Z) (active : list (FusedResult -> option Z)) (fused : list FusedResult) : list Z :=
  if Z.leb 1 quota then
    foldl (fun ids attr => foldl (fun ids r => if bool_decide (item_id r ∈ ids) then ids else item_id r :: ids)
             ids (slice (members attr fused) 0 quota)) [] active
  else [].

Definition _select_rerank_window (cfg : WindowConfig) (fused : list FusedResult) (top_n : Z)
    : list FusedResult * list FusedResult :=
  let plain := (slice fused 0 top_n, slice fused top_n (len fused)) in
  if negb (mem_str (fusion_mode cfg) _UNION_FUSION_MODES) then plain
  else
    let active := active_channels cfg fused in
    if match active with [] => true | _ => false end || Z.leb top_n 0 then plain
    else
      let quota := top_n / len active in
      let ids := fill_window top_n fused (guaranteed quota active fused) in
      (List.filter (fun r => bool_decide (item_id r ∈ ids)) fused,
       List.filter (fun r => negb (bool_decide (item_id r ∈ ids))) fused).

(** ** After the fusion *)

Definition normalize_scores (results : list FusedResult) : result (list FusedResult) :=
  match results with
  | [] => Ok []
  | r :: rest =>
      let scores := List.map rrf_score rest in
      let max_score := foldl fmax (rrf_score r) scores in
      let min_score := foldl fmin (rrf_score r) scores in
      if feq max_score min_score then Ok (List.map (fun r => set_score r f1) results)
      else map_m (fun r => x ← fdiv (fsub (rrf_score r) min_score) (fsub max_score min_score);
                           Ok (set_score r x)) results
  end.

(** [x ** y] of the C library. *)
Context (fpow : float -> float -> float).

Definition f2 : float := of_Z 2.

Definition apply_recency_boost (results : list FusedResult) (recency_scores : list (Z * float))
    (recency_weight recency_floor : float) : list FusedResult :=
  sort_desc (List.map (fun r =>
    let recency := default recency_floor (zget (item_id r) recency_scores) in
    let clamped := fmax recency recency_floor in
    set_score r (fmul (rrf_score r) (fpow clamped (fmul f2 recency_weight)))) results).

(** An item's embedding, and the accelerated cosine of the embeddings passed to it: pairs
    of an index and a similarity. *)
Context (embedding : item -> option (list float)).
Context (batch_cosine_similarity : list float -> list (list float) -> list (nat * float)).

(** What the first pass decides for a result: a score, or an embedding still to compare. *)
Inductive relevance := Keep | Score (x : float) | Pending (emb : list float).

Definition relevance_of (raw_cosine_by_id : option (list (Z * float))) (query_embedding : option (list float))
    (r : FusedResult) : relevance :=
  let fallback :=
    match vector_score r, graph_score r with
    | None, None => Keep
    | _, _ =>
        match query_embedding, embedding (fr_item r) with
        | Some _, Some ((_ :: _) as emb) => Pending emb
        | _, _ => Score f0
        end
    end in
  match raw_cosine_by_id with
  | Some m => match zget (item_id r) m with Some c => Score (fmax c f0) | None => fallback end
  | None => match vector_score r with Some c => Score (fmax c f0) | None => fallback end
  end.

Definition pending_embeddings (l : list relevance) : list (list float) :=
  omap (fun d => match d with Pending emb => Some emb | _ => None end) l.

(** The second pass: [idx] counts the pending results. *)
Fixpoint set_relevance (sims : list (nat * float)) (idx : nat) (l : list (FusedResult * relevance)) : list FusedResult :=
  match l with
  | [] => []
  | (r, Keep) :: l => r :: set_relevance sims idx l
  | (r, Score x) :: l => set_score r x :: set_relevance sims idx l
  | (r, Pending _) :: l => set_score r (fmax (default f0 (zget idx sims)) f0) :: set_relevance sims (S idx) l
  end.

Definition attach_relevance_scores (results : list FusedResult) (raw_cosine_by_id : option (list (Z * float)))
    (query_embedding : option (list float)) : list FusedResult :=
  let decided := List.map (relevance_of raw_cosine_by_id query_embedding) results in
  let pending := pending_embeddings decided in
  let sims := match pending, query_embedding with
              | _ :: _, Some q => batch_cosine_similarity q pending
              | _, _ => []
              end in
  set_relevance sims 0 (zip results decided).

(** [text.lower().split()] *)
Context (lower_words : item -> option (list string)).

Definition _ARTICLES : list string := ["the"; "a"; "an"; "this"; "that"; "these"; "those"]%string.
Definition _PREPOSITIONS : list string :=
  ["in"; "of"; "to"; "for"; "with"; "on"; "at"; "by"; "from"; "about"]%string.
Definition _FUNCTION : list string :=
  _ARTICLES ++ _PREPOSITIONS ++ ["is"; "are"; "was"; "were"; "and"; "or"; "but"; "not"]%string.

(** The coherent and the total transitions of the words. *)
Fixpoint transitions (words : list string) : Z * Z :=
  match words with
  | w1 :: (w2 :: _) as rest =>
      let '(coherent, total) := transitions rest in
      if mem_str w1 _ARTICLES then
        (if mem_str w2 _FUNCTION then coherent else coherent + 1, total + 1)
      else if mem_str w1 _PREPOSITIONS then
        (if mem_str w2 _ARTICLES || negb (mem_str w2 _PREPOSITIONS) then coherent + 1 else coherent, total + 1)
      else (coherent, total)
  | _ => (0, 0)
  end.

Definition bigram_coherence_score (words : list string) : result float :=
  if Z.ltb (len words) 6 then Ok f1
  else
    let '(coherent, total) := transitions words in
    if Z.eqb total 0 then Ok f1 else fdiv (of_Z coherent) (of_Z total).

Definition apply_coherence_boost (results : list FusedResult) (coherence_weight : float)
    : result (list FusedResult) :=
  boosted ← map_m (fun r =>
    coherence ← bigram_coherence_score (default [] (lower_words (fr_item r)));
    Ok (set_score r (fadd (fmul (fsub f1 coherence_weight) (rrf_score r)) (fmul coherence_weight coherence)))) results;
  Ok (sort_desc boosted).
End fusion.
