(* ===== verification/RankFusionFacts.v ===== *)
(** * Facts about rank fusion

    The union mode keeps the head of every channel near the front, whatever the scores; the
    rerank window keeps the head of every active channel, whatever the order its input was
    put in, and partitions it. *)
From S2P Require Import Prelude PyText RankFusion.

Local Open Scope Z_scope.

(** ** Dicts *)

Section dict_facts.
Context {K B : Type} `{EqDecision K}.
Implicit Types d : list (K * B).

Lemma zget_zset_eq k v d : zget k (zset k v d) = Some v.
Proof.
  induction d as [|[k' v'] d IH]; simpl; [by rewrite decide_True|].
  destruct (decide (k = k')) eqn:E; simpl; by rewrite E.
Qed.

Lemma zget_zset_ne k k' v d : k <> k' -> zget k (zset k' v d) = zget k d.
Proof.
  intros Hne. induction d as [|[k2 v2] d IH]; simpl.
  - by rewrite decide_False.
  - destruct (decide (k' = k2)) as [->|]; simpl; [by rewrite !decide_False|].
    destruct (decide (k = k2)); [done|apply IH].
Qed.

Lemma zget_is_Some k d : is_Some (zget k d) <-> k ∈ List.map fst d.
Proof.
  induction d as [|[k' v] d IH]; simpl.
  - split; [by intros []|by intros ?%elem_of_nil].
  - rewrite elem_of_cons. destruct (decide (k = k')) as [->|]; naive_solver.
Qed.

Lemma zget_app k d d' : zget k (d ++ d') = match zget k d with Some v => Some v | None => zget k d' end.
Proof. induction d as [|[k' v] d IH]; simpl; [done|]. by destruct (decide (k = k')). Qed.

Lemma keys_zset k v d :
  List.map fst (zset k v d) = if bool_decide (k ∈ List.map fst d) then List.map fst d else List.map fst d ++ [k].
Proof.
  induction d as [|[k' v'] d IH]; simpl; [done|]. destruct (decide (k = k')) as [->|Hne]; simpl.
  - rewrite bool_decide_true; [done|left].
  - rewrite IH. destruct (decide (k ∈ List.map fst d)) as [Hin|Hin].
    + rewrite !bool_decide_true; [done|by right|done].
    + rewrite !bool_decide_false; [done| |done]. by intros [?|?]%elem_of_cons.
Qed.

Lemma keys_setdefault k v d :
  List.map fst (setdefault k v d) = if bool_decide (k ∈ List.map fst d) then List.map fst d else List.map fst d ++ [k].
Proof.
  unfold setdefault. destruct (zget k d) as [x|] eqn:E.
  - rewrite bool_decide_true; [done|]. apply zget_is_Some. by eexists.
  - rewrite bool_decide_false, List.map_app; [done|]. rewrite <- zget_is_Some, E. by intros [].
Qed.
End dict_facts.

(** ** Sorting by keys *)

Section sorting.
Context {A : Type} (f : A -> Z).

Lemma insert_key_perm {B} (x : list sort_part * B) l : insert_key x l ≡ₚ x :: l.
Proof.
  induction l as [|y l IH]; simpl; [done|]. destruct (key_lt y.1 x.1); [|done].
  rewrite IH. apply Permutation_swap.
Qed.

Lemma sort_keyed_perm {B} (l : list (list sort_part * B)) : sort_keyed l ≡ₚ l.
Proof. induction l as [|x l IH]; simpl; [done|]. by rewrite insert_key_perm, IH. Qed.

Lemma insert_desc_perm {item} (r : FusedResult (item := item)) l : insert_desc r l ≡ₚ r :: l.
Proof.
  induction l as [|x l IH]; simpl; [done|]. destruct (flt _ _); [|done]. rewrite IH. apply Permutation_swap.
Qed.

Lemma sort_desc_perm {item} (l : list (FusedResult (item := item))) : sort_desc l ≡ₚ l.
Proof. induction l as [|r l IH]; simpl; [done|]. by rewrite insert_desc_perm, IH. Qed.

(** The first part of every key is the integer [f]. *)
Definition headed (x : list sort_part * A) : Prop := exists rest, x.1 = PInt (f x.2) :: rest.

Definition first_le (x y : list sort_part * A) : Prop := f x.2 <= f y.2.

Lemma key_lt_headed x y :
  headed x -> headed y ->
  (key_lt y.1 x.1 = true -> first_le y x) /\ (key_lt y.1 x.1 = false -> first_le x y).
Proof.
  intros [rx Ex] [ry Ey]. rewrite Ex, Ey. unfold first_le. simpl.
  destruct (Z.eqb_spec (f y.2) (f x.2)), (Z.ltb_spec (f y.2) (f x.2)); split; intros; lia || done.
Qed.

Lemma insert_key_sorted x l :
  headed x -> Forall headed l -> StronglySorted first_le l -> StronglySorted first_le (insert_key x l).
Proof.
  intros Hx Hl. induction l as [|y l IH]; simpl; intros Hs; [by repeat constructor|].
  inversion Hl as [|? ? Hy Hl']; subst. apply StronglySorted_inv in Hs as [Hs Hall].
  destruct (key_lt_headed x y Hx Hy) as [H1 H2].
  destruct (key_lt y.1 x.1); constructor; auto.
  - rewrite (insert_key_perm x l). constructor; auto.
  - by constructor.
  - specialize (H2 eq_refl). constructor; [done|]. eapply Forall_impl; [exact Hall|].
    unfold first_le in *. intros z. lia.
Qed.

Lemma sort_keyed_sorted l : Forall headed l -> StronglySorted first_le (sort_keyed l).
Proof.
  induction l as [|x l IH]; simpl; intros H; [constructor|]. inversion H; subst.
  apply insert_key_sorted; auto. unfold sort_keyed. fold (sort_keyed l). by rewrite sort_keyed_perm.
Qed.

(** In a sorted list the elements below a bound come first. *)
Lemma sorted_prefix (l : list A) b x :
  StronglySorted (fun a c => f a <= f c) l -> x ∈ l -> f x <= b ->
  x ∈ take (length (List.filter (fun a => Z.leb (f a) b) l)) l.
Proof.
  induction 1 as [|y l Hs IH Hall]; intros Hx Hb; [by apply elem_of_nil in Hx|]. simpl.
  assert (f y <= b) as Hy.
  { apply elem_of_cons in Hx as [->|Hx]; [done|]. rewrite Forall_forall in Hall. specialize (Hall x Hx). lia. }
  rewrite (proj2 (Z.leb_le _ _) Hy). simpl. apply elem_of_cons in Hx as [->|Hx]; [left|right; auto].
Qed.

Lemma sorted_prefix_count (l : list A) b k x :
  StronglySorted (fun a c => f a <= f c) l -> x ∈ l -> f x <= b ->
  (length (List.filter (fun a => Z.leb (f a) b) l) <= k)%nat -> x ∈ take k l.
Proof.
  intros Hs Hx Hb Hk. pose proof (sorted_prefix l b x Hs Hx Hb) as H.
  apply elem_of_take in H as (i & Hi & Hlt). apply elem_of_take. exists i. split; [done|lia].
Qed.
End sorting.

Lemma NoDup_count {A} (l l' : list A) : NoDup l -> (forall x, x ∈ l -> x ∈ l') -> (length l <= length l')%nat.
Proof.
  intros Hn Hin. apply NoDup_incl_length; [by apply NoDup_ListNoDup|].
  intros x Hx. apply list_elem_of_In, Hin, list_elem_of_In, Hx.
Qed.

Lemma NoDup_filter_bool {A} (p : A -> bool) l : NoDup l -> NoDup (List.filter p l).
Proof. rewrite !NoDup_ListNoDup. apply List.NoDup_filter. Qed.

Lemma elem_of_filter_bool {A} (p : A -> bool) l x : x ∈ List.filter p l <-> x ∈ l /\ p x = true.
Proof. by rewrite !list_elem_of_In, filter_In. Qed.

(** The least element of a non-empty list. *)
Lemma foldl_min_le l a : foldl Z.min a l <= a /\ (forall x, x ∈ l -> foldl Z.min a l <= x).
Proof.
  revert a. induction l as [|y l IH]; intros a; simpl; [split; [lia|by intros ? ?%elem_of_nil]|].
  destruct (IH (Z.min a y)) as [H1 H2]. split; [lia|].
  intros x [->|Hx]%elem_of_cons; [lia|auto].
Qed.

Lemma foldl_min_in l a : foldl Z.min a l = a \/ foldl Z.min a l ∈ l.
Proof.
  revert a. induction l as [|y l IH]; intros a; simpl; [by left|].
  destruct (IH (Z.min a y)) as [->|H]; [|right; by right].
  destruct (Z.min_spec a y) as [[_ ->]|[_ ->]]; [by left|right; left].
Qed.

Lemma zmin_spec l : l <> [] -> zmin l ∈ l /\ forall x, x ∈ l -> zmin l <= x.
Proof.
  destruct l as [|a l]; [done|]. intros _. unfold zmin. destruct (foldl_min_le l a) as [H1 H2]. split.
  - destruct (foldl_min_in l a) as [->|H]; [left|by right].
  - intros x [->|Hx]%elem_of_cons; auto.
Qed.

(** ** The ranks the union collects *)

Lemma dict_keys_set {B} k (v : B) d : NoDup (keys d) -> NoDup (keys (dict_set k v d)).
Proof.
  unfold keys. induction d as [|[k' v'] d IH]; csimpl; [by repeat constructor; intros ?%elem_of_nil|].
  intros [Hn Hd]%NoDup_cons. destruct (String.eqb_spec k k') as [->|Hne]; csimpl; [by constructor|].
  constructor; [|auto]. intros Hin. apply Hn. clear - Hin Hne.
  induction d as [|[k2 v2] d IH]; csimpl in *.
  - by apply list_elem_of_singleton in Hin.
  - destruct (String.eqb_spec k k2) as [->|]; csimpl in *; [done|].
    apply elem_of_cons in Hin as [->|Hin]; [left|right; auto].
Qed.

Lemma dict_get_elem {B} k (v : B) d : NoDup (keys d) -> (k, v) ∈ d <-> dict_get k d = Some v.
Proof.
  unfold keys. induction d as [|[k' v'] d IH]; csimpl.
  - intros _. by split; [intros ?%elem_of_nil|].
  - intros [Hn Hd]%NoDup_cons. rewrite elem_of_cons, (IH Hd). destruct (String.eqb_spec k k') as [->|Hne].
    + split; [intros [[= ->]|H]; [done|]|intros [= ->]; by left].
      destruct Hn. apply (IH Hd) in H. apply list_elem_of_fmap. by exists (k', v).
    + split; [intros [[= -> ->]|H]; [done|done]|by right].
Qed.

Section union.
Context {item : Type}.
Implicit Types (u : Union (item := item)) (results : list (hit (item := item))).

Definition ranks_of u (i : Z) : list (string * Z) := default [] (zget i (u_ranks u)).
Definition known u : list Z := List.map fst (u_ranks u).

Lemma zget_set_in {B} i j name (v : B) d :
  default [] (zget i (set_in j name v d)) =
  if decide (i = j) then dict_set name v (default [] (zget j d)) else default [] (zget i d).
Proof.
  unfold set_in. destruct (decide (i = j)) as [->|Hne]; [by rewrite zget_zset_eq|by rewrite zget_zset_ne].
Qed.

(** The ids and ranks of what one channel adds. *)
Definition entries (l : list (Z * (hit (item := item) * option float))) : list (Z * Z) :=
  List.map (fun x => (hit_id x.2.1, x.1)) l.

Lemma known_step name u x :
  known (union_step name u x) =
  (if bool_decide (hit_id x.2.1 ∈ known u) then known u else known u ++ [hit_id x.2.1])
  /\ (List.map fst (u_items u) = known u -> List.map fst (u_items (union_step name u x)) = known (union_step name u x)).
Proof.
  destruct x as [rank [[[i score] it] norm]]. unfold known. simpl. split.
  - apply keys_zset.
  - unfold set_in. rewrite keys_zset, keys_setdefault. by intros ->.
Qed.

Lemma union_channel name l u :
  List.map fst (u_items u) = known u -> NoDup (known u) -> (forall i, NoDup (keys (ranks_of u i))) ->
  NoDup (List.map fst (entries l)) ->
  let u' := foldl (union_step name) u l in
  List.map fst (u_items u') = known u' /\ NoDup (known u') /\ (forall i, NoDup (keys (ranks_of u' i)))
  /\ (forall i, i ∈ known u' <-> i ∈ known u \/ i ∈ List.map fst (entries l))
  /\ (forall i n, dict_get n (ranks_of u' i) =
        if decide (n = name) then
          match zget i (entries l) with Some r => Some r | None => dict_get name (ranks_of u i) end
        else dict_get n (ranks_of u i)).
Proof.
  revert u. induction l as [|x l IH]; intros u Hit Hnd Hin Hl; simpl.
  - split_and!; [done..| |].
    + intros i. split; [by left|intros [?|?%elem_of_nil]; done].
    + intros i n. by destruct (decide (n = name)) as [->|].
  - destruct (known_step name u x) as [Hk Hit']. simpl in Hl. apply NoDup_cons in Hl as [Hx Hl].
    destruct (IH (union_step name u x)) as (I1 & I2 & I3 & I4 & I5); [auto| | |done|].
    + rewrite Hk. destruct (decide (hit_id x.2.1 ∈ known u)) as [H|H].
      * by rewrite bool_decide_true.
      * rewrite bool_decide_false by done. apply NoDup_app. split_and!; [done| |by apply NoDup_singleton].
        by intros y Hy ->%list_elem_of_singleton.
    + intros i. unfold ranks_of in *. destruct x as [rank [[[j score] it] norm]]. simpl. rewrite zget_set_in.
      destruct (decide (i = j)); [by apply dict_keys_set|done].
    + split_and!; [done..| |].
      * intros i. rewrite I4, Hk. cbn [entries List.map fst]. rewrite elem_of_cons.
        destruct (decide (hit_id x.2.1 ∈ known u)) as [H|H].
        -- rewrite bool_decide_true by done. naive_solver.
        -- rewrite bool_decide_false, elem_of_app, list_elem_of_singleton by done. naive_solver.
      * intros i n. rewrite I5. clear - Hx. destruct x as [rank [[[j score] it] norm]].
        unfold ranks_of. simpl. rewrite zget_set_in. unfold hit_id in *. simpl in *.
        destruct (decide (n = name)) as [->|Hne].
        -- destruct (decide (i = j)) as [->|]; [|done].
           destruct (zget j (entries l)) eqn:E; [|by rewrite dict_set_eq].
           destruct Hx. apply zget_is_Some. by eexists.
        -- destruct (decide (i = j)) as [->|]; [|done]. by rewrite dict_set_ne.
Qed.

Lemma entries_ids (l : list (hit (item := item) * option float)) k :
  List.map fst (entries (imap (fun i x => (Z.of_nat (k + i) + 1, x)) l)) = List.map (fun x => hit_id x.1) l.
Proof.
  revert k. induction l as [|x l IH]; intros k; [done|]. rewrite imap_cons. cbn [entries List.map fst snd].
  f_equal. rewrite <- (IH (S k)). unfold entries. f_equal. f_equal. apply imap_ext. intros i y _. simpl.
  by rewrite Nat.add_succ_r.
Qed.

Lemma entries_rank (l : list (hit (item := item) * option float)) k i r :
  NoDup (List.map (fun x => hit_id x.1) l) ->
  zget i (entries (imap (fun i x => (Z.of_nat (k + i) + 1, x)) l)) = Some r <->
  Z.of_nat k + 1 <= r /\ List.map (fun x => hit_id x.1) l !! Z.to_nat (r - 1 - Z.of_nat k) = Some i.
Proof.
  revert k. induction l as [|x l IH]; intros k Hn; [simpl; naive_solver|].
  rewrite imap_cons. cbn [entries List.map zget fst snd]. cbn [List.map] in Hn. apply NoDup_cons in Hn as [Hx Hn].
  rewrite Nat.add_0_r.
  replace (List.map (fun x => (hit_id x.2.1, x.1)) (imap ((fun i x => (Z.of_nat (k + i) + 1, x)) ∘ S) l))
    with (entries (imap (fun i x => (Z.of_nat (S k + i) + 1, x)) l)).
  2: { unfold entries. f_equal. apply imap_ext. intros j y _. simpl. by rewrite Nat.add_succ_r. }
  destruct (decide (i = hit_id x.1)) as [->|Hne].
  - split.
    + intros [= <-]. split; [lia|].
      by replace (Z.to_nat _) with 0%nat by lia.
    + intros [Hr Hl]. destruct (Z.to_nat (r - 1 - Z.of_nat k)) as [|n] eqn:E; [f_equal; lia|].
      simpl in Hl. by apply list_elem_of_lookup_2 in Hl.
  - rewrite IH by done. split; intros [Hr Hl].
    + split; [lia|]. replace (Z.to_nat (r - 1 - Z.of_nat k)) with (S (Z.to_nat (r - 1 - Z.of_nat (S k)))) by lia. done.
    + destruct (Z.to_nat (r - 1 - Z.of_nat k)) as [|n] eqn:E; simpl in Hl; [congruence|].
      split; [lia|]. by replace (Z.to_nat (r - 1 - Z.of_nat (S k))) with n by lia.
Qed.

(** The hit [i] is at rank [r] of the channel. *)
Definition at_rank limit results (r i : Z) : Prop :=
  1 <= r /\ List.map hit_id (limited limit results) !! Z.to_nat (r - 1) = Some i.

(** What the union knows once the channels [chs] are in. *)
Definition collected limit (chs : list (string * list (hit (item := item)))) u : Prop :=
  List.map fst (u_items u) = known u /\ NoDup (known u) /\ (forall i, NoDup (keys (ranks_of u i)))
  /\ (forall i, i ∈ known u <-> exists name results r, (name, results) ∈ chs /\ at_rank limit results r i)
  /\ (forall i name r, dict_get name (ranks_of u i) = Some r <->
        exists results, (name, results) ∈ chs /\ at_rank limit results r i).

Lemma collected_step limit chs name results normalized u :
  collected limit chs u -> name ∉ List.map fst chs -> NoDup (List.map hit_id (limited limit results)) ->
  length normalized = length (limited limit results) ->
  collected limit (chs ++ [(name, results)])
    (foldl (union_step name) u (ranked (zip (limited limit results) normalized))).
Proof.
  intros (C1 & C2 & C3 & C4 & C5) Hname Hnd Hlen.
  assert (List.map (fun x => hit_id x.1) (zip (limited limit results) normalized) = List.map hit_id (limited limit results))
    as Hids.
  { rewrite <- (List.map_map fst). f_equal. apply fst_zip. lia. }
  assert (List.map fst (entries (ranked (zip (limited limit results) normalized))) =
          List.map hit_id (limited limit results)) as Hei.
  { rewrite <- Hids. exact (entries_ids _ 0). }
  assert (forall i r, zget i (entries (ranked (zip (limited limit results) normalized))) = Some r <->
            at_rank limit results r i) as Her.
  { intros i r. unfold at_rank. rewrite <- Hids in Hnd |- *. rewrite <- (Z.sub_0_r (r - 1)).
    exact (entries_rank _ 0 i r Hnd). }
  destruct (union_channel name (ranked (zip (limited limit results) normalized)) u C1 C2 C3) as (I1 & I2 & I3 & I4 & I5).
  { by rewrite Hei. }
  assert (forall i, i ∈ List.map hit_id (limited limit results) <-> exists r, at_rank limit results r i) as Hin.
  { intros i. unfold at_rank. rewrite list_elem_of_lookup. split.
    - intros [k Hk]. exists (Z.of_nat k + 1). split; [lia|]. by replace (Z.to_nat _) with k by lia.
    - intros (r & _ & Hr). eauto. }
  split_and!; [done..| |].
  - intros i. rewrite I4, C4, Hei, Hin. split.
    + intros [(n & rs & r & H1 & H2)|[r Hr]].
      * exists n, rs, r. split; [|done]. apply elem_of_app. by left.
      * exists name, results, r. split; [|done]. apply elem_of_app. right. by apply list_elem_of_singleton.
    + intros (n & rs & r & [H1|H1%list_elem_of_singleton]%elem_of_app & H2); [left; eauto 6|].
      injection H1 as -> ->. right; eauto.
  - intros i n r. rewrite I5. destruct (decide (n = name)) as [->|Hne].
    + assert (dict_get name (ranks_of u i) = None) as ->.
      { destruct (dict_get name (ranks_of u i)) as [r'|] eqn:E; [|done].
        apply C5 in E as (rs & H1 & _). destruct Hname. apply list_elem_of_In, in_map_iff.
        exists (name, rs). by rewrite <- list_elem_of_In. }
      transitivity (zget i (entries (ranked (zip (limited limit results) normalized))) = Some r).
      { by destruct (zget i _). }
      rewrite Her. split.
      * intros H. exists results. split; [apply elem_of_app; right; by apply list_elem_of_singleton|done].
      * intros (rs & [H1|H1%list_elem_of_singleton]%elem_of_app & H2); [|by injection H1 as ->].
        destruct Hname. apply list_elem_of_In, in_map_iff. exists (name, rs). by rewrite <- list_elem_of_In.
    + rewrite C5. split; intros (rs & H1 & H2); exists rs; (split; [|done]).
      * apply elem_of_app. by left.
      * apply elem_of_app in H1 as [?|H1%list_elem_of_singleton]; [done|]. by injection H1 as -> ->.
Qed.

Lemma map_m_length {A B} (f : A -> result B) l ys : map_m f l = Ok ys -> length ys = length l.
Proof. intros H. apply map_m_ok in H. symmetry. by eapply Forall2_length. Qed.

Lemma normalize_length scores l : _min_max_normalize scores = Ok l -> length l = length scores.
Proof.
  destruct scores as [|s rest]; cbv beta delta [_min_max_normalize] iota zeta; [by intros [= <-]|].
  destruct (feq _ _); [intros H; injection H as <-; simpl; by rewrite length_map|apply map_m_length].
Qed.

Definition channel_body limit (wn : bool) u '((name, results) : string * list (hit (item := item))) :=
  let results := limited limit results in
  normalized ← (if wn then List.map Some <$> _min_max_normalize (List.map hit_score results)
                else Ok (List.map (fun _ => None) results));
  Ok (foldl (union_step name) u (ranked (zip results normalized))).

Lemma channel_norms_length (wn : bool) results normalized :
  (if wn then List.map Some <$> _min_max_normalize (List.map hit_score results)
   else Ok (List.map (fun _ => None) results)) = Ok normalized -> length normalized = length results.
Proof.
  destruct wn; [|intros H; injection H as <-; by rewrite length_map].
  destruct (_min_max_normalize _) as [ns|] eqn:E; [|done]. intros H. injection H as <-.
  rewrite length_map. apply normalize_length in E. by rewrite E, length_map.
Qed.

Lemma fold_collected limit wn channels before u0 u :
  NoDup (List.map fst (before ++ channels)) ->
  (forall name results, (name, results) ∈ channels -> NoDup (List.map hit_id (limited limit results))) ->
  collected limit before u0 ->
  fold_m (channel_body limit wn) u0 channels = Ok u -> collected limit (before ++ channels) u.
Proof.
  revert before u0. induction channels as [|[name results] channels IH]; intros before u0 Hn Hd H0; cbn [fold_m].
  - intros [= <-]. by rewrite app_nil_r.
  - unfold channel_body at 1. cbv zeta. destruct (if wn then _ else _) as [normalized|] eqn:En; [|done].
    cbn [mbind result_bind]. intros Hrest.
    apply channel_norms_length in En.
    rewrite (cons_middle (name, results)), app_assoc. eapply IH; [| | |exact Hrest].
    + by rewrite <- app_assoc.
    + intros n rs Hin. apply (Hd n rs). by right.
    + apply collected_step; [done| |apply (Hd name results); left|done].
      rewrite List.map_app in Hn. apply NoDup_app in Hn as (_ & Hdis & _). intros Hin.
      apply (Hdis _ Hin). left.
Qed.

Lemma channel_ranks_collected limit wn channels u :
  NoDup (List.map fst channels) ->
  (forall name results, (name, results) ∈ channels -> NoDup (List.map hit_id (limited limit results))) ->
  _union_channel_ranks channels limit wn = Ok u -> collected limit channels u.
Proof.
  intros Hn Hd Hu. apply (fold_collected limit wn channels [] (MkUnion [] [] [] []) u); [done|done| |exact Hu].
  split_and!; [done|constructor|intros; constructor| |].
  - intros i. split; [by intros ?%elem_of_nil|by intros (? & ? & ? & ?%elem_of_nil & _)].
  - intros i name r. split; [done|by intros (? & ?%elem_of_nil & _)].
Qed.

(** ** The order of the union *)

Definition best u (i : Z) : Z := zmin (List.map snd (ranks_of u i)).

Lemma best_channel_rank ranks prio b : _best_channel ranks prio = Ok b -> b.1 = zmin (List.map snd ranks).
Proof.
  unfold _best_channel. destruct (List.map fst _) as [|n names]; [done|].
  destruct (dict_get n prio); [|done]. destruct (min_priority _ _ _) as [x|]; [|done].
  by intros [= <-].
Qed.

Lemma best_rank_key_headed uuid_str u prio i k :
  best_rank_key uuid_str u prio i = Ok k -> exists rest, k = PInt (best u i) :: rest.
Proof.
  unfold best_rank_key, best, ranks_of. destruct (_best_channel _ _) as [[b [n p]]|] eqn:E; [|done].
  apply best_channel_rank in E. simpl in E. subst b. cbn [mbind result_bind].
  destruct (dict_get n _); [|done]. intros [= <-]. by eexists.
Qed.

Lemma union_order_perm key u ordered : union_order key u = Ok ordered -> ordered ≡ₚ List.map fst (u_items u).
Proof.
  unfold union_order. destruct (map_m _ (u_items u)) as [keyed|] eqn:E; [|done]. intros [= <-].
  apply map_m_ok in E. rewrite sort_keyed_perm.
  cut (List.map snd keyed = List.map fst (u_items u)); [by intros ->|].
  induction E as [|[i it] [k j] items keyed H E IH]; simpl; [done|].
  rewrite IH. destruct (key i); [|done]. by injection H as _ <-.
Qed.

(** The ids in the order of keys headed by [f]. *)
Lemma union_order_sorted key u (f : Z -> Z) ordered :
  (forall i k, key i = Ok k -> exists rest, k = PInt (f i) :: rest) ->
  union_order key u = Ok ordered -> StronglySorted (fun a c => f a <= f c) ordered.
Proof.
  intros Hkey. unfold union_order.
  destruct (map_m _ (u_items u)) as [keyed|] eqn:E; [|done]. intros [= <-]. apply map_m_ok in E.
  assert (Forall (headed f) keyed) as Hh.
  { induction E as [|[i it] [k j] items keyed H E IH]; constructor; [|done].
    destruct (key i) as [k'|] eqn:Ek; [|done]. injection H as -> <-. by apply Hkey. }
  apply sort_keyed_sorted in Hh. induction Hh as [|x l Hs IH Hall]; simpl; constructor; [done|].
  apply Forall_map. exact Hall.
Qed.

Lemma imap_snd {A I} (g : nat -> I) (l : list A) : List.map snd (imap (fun i x => (g i, x)) l) = l.
Proof.
  revert g. induction l as [|x l IH]; intros g; [done|]. rewrite imap_cons. simpl. f_equal.
  apply (IH (fun i => g (S i))).
Qed.

Lemma union_results_ids u score ordered fused :
  union_results u score ordered = Ok fused -> List.map item_id fused = ordered.
Proof.
  unfold union_results, ranked. intros H. apply map_m_ok in H.
  rewrite <- (imap_snd (fun i => Z.of_nat i + 1) ordered).
  induction H as [|[pos i] r l fused H _ IH]; simpl; [done|]. rewrite IH. f_equal.
  destruct (score pos i); [|done]. simpl in H. destruct (zget i (u_items u)); [|done]. by injection H as <-.
Qed.

(** The ids at rank [m] or better in some channel. *)
Lemma heads_count limit channels m :
  (length (List.concat (List.map (fun c : string * list (hit (item := item)) =>
      take m (List.map hit_id (limited limit c.2))) channels))
    <= m * length channels)%nat.
Proof.
  induction channels as [|c l IH]; simpl; [lia|]. rewrite length_app, length_take. lia.
Qed.

Lemma at_rank_head limit results m r i :
  at_rank limit results r i -> r <= Z.of_nat m -> i ∈ take m (List.map hit_id (limited limit results)).
Proof. intros [H1 H2] H. apply elem_of_take. exists (Z.to_nat (r - 1)). split; [done|lia]. Qed.

Lemma best_spec limit channels u i :
  collected limit channels u -> i ∈ known u ->
  (exists name results, (name, results) ∈ channels /\ at_rank limit results (best u i) i)
  /\ forall name results r, (name, results) ∈ channels -> at_rank limit results r i -> best u i <= r.
Proof.
  intros (C1 & C2 & C3 & C4 & C5) Hi.
  assert (List.map snd (ranks_of u i) <> []) as Hne.
  { apply C4 in Hi as (name & results & r & Hc & Hr).
    assert (dict_get name (ranks_of u i) = Some r) as E by (apply C5; eauto).
    destruct (ranks_of u i); [done|discriminate]. }
  destruct (zmin_spec _ Hne) as [H1 H2]. split.
  - apply list_elem_of_In, in_map_iff in H1 as ([name r] & Hr & H1). simpl in Hr. apply list_elem_of_In in H1.
    apply dict_get_elem, C5 in H1 as (results & ? & ?); [|done]. exists name, results. split; [done|].
    unfold best. by rewrite <- Hr.
  - intros name results r Hc Hr. apply H2. assert (dict_get name (ranks_of u i) = Some r) as E by (apply C5; eauto).
    apply dict_get_elem in E; [|done]. apply list_elem_of_In, in_map_iff. exists (name, r).
    by rewrite <- list_elem_of_In.
Qed.

(** Union fusion by best rank shows the heads of all channels first.  When the channel
    names are distinct and no channel repeats an id, each id some channel returned (within
    the limit per channel) appears exactly once in the fused list, and the first [m] hits of
    every one of the [n] channels are among its first [m * n] results, whatever the scores,
    the sizes of the other channels and the [rrf_k]. *)
Theorem union_exposes_heads uuid_str rrf_k limit channels fused :
  NoDup (List.map fst channels) ->
  (forall name results, (name, results) ∈ channels -> NoDup (List.map hit_id (limited limit results))) ->
  union_best_rank_fusion (item := item) uuid_str channels rrf_k limit = Ok fused ->
  NoDup (List.map item_id fused)
  /\ (forall i, i ∈ List.map item_id fused <->
        exists name results, (name, results) ∈ channels /\ i ∈ List.map hit_id (limited limit results))
  /\ (forall m name results i, (name, results) ∈ channels ->
        i ∈ take m (List.map hit_id (limited limit results)) ->
        i ∈ take (m * length channels) (List.map item_id fused)).
Proof.
  intros Hn Hd. unfold union_best_rank_fusion.
  destruct (_union_channel_ranks channels limit true) as [u|] eqn:Eu; [|done]. cbn [mbind result_bind].
  destruct (union_order _ u) as [ordered|] eqn:Eo; [|done]. cbn [mbind result_bind]. intros Hr.
  apply union_results_ids in Hr as ->. apply channel_ranks_collected in Eu; [|done..].
  pose proof (union_order_perm _ _ _ Eo) as Hp.
  pose proof (union_order_sorted _ u (best u) ordered (best_rank_key_headed uuid_str u _) Eo) as Hs.
  pose proof Eu as (C1 & C2 & C3 & C4 & C5). rewrite C1 in Hp.
  assert (forall i, i ∈ ordered <->
     exists name results, (name, results) ∈ channels /\ i ∈ List.map hit_id (limited limit results)) as Hin.
  { intros i. rewrite Hp, C4. unfold at_rank. split.
    - intros (n & rs & r & Hc & _ & Hr). exists n, rs. split; [done|]. by eapply list_elem_of_lookup_2.
    - intros (n & rs & Hc & [k Hk]%list_elem_of_lookup). exists n, rs, (Z.of_nat k + 1).
      split_and!; [done|lia|]. by replace (Z.to_nat _) with k by lia. }
  split_and!; [by rewrite Hp|done|]. intros m name results i Hc Hi.
  apply elem_of_take in Hi as (k & Hk & Hlt).
  assert (i ∈ ordered) as Hio.
  { apply Hin. exists name, results. split; [done|]. by eapply list_elem_of_lookup_2. }
  apply (sorted_prefix_count (best u) _ (Z.of_nat m)); [done|done| |].
  - destruct (best_spec limit channels u i Eu) as [_ Hb]; [by rewrite <- Hp|].
    specialize (Hb name results (Z.of_nat k + 1) Hc). unfold at_rank in Hb.
    replace (Z.to_nat (Z.of_nat k + 1 - 1)) with k in Hb by lia. specialize (Hb ltac:(split; [lia|done])). lia.
  - etransitivity; [|apply (heads_count limit)]. apply NoDup_count; [apply NoDup_filter_bool; by rewrite Hp|].
    intros j [Hj Hb%Z.leb_le]%elem_of_filter_bool. rewrite Hp in Hj.
    destruct (best_spec limit channels u j Eu Hj) as [(n & rs & Hcj & Hrj) _].
    apply list_elem_of_In, in_concat. exists (take m (List.map hit_id (limited limit rs))).
    rewrite in_map_iff, <- !list_elem_of_In. split; [|by eapply at_rank_head].
    exists (n, rs). by rewrite <- list_elem_of_In.
Qed.
End union.

(** ** The rerank window *)

Section window.
Context {item : Type}.
Implicit Types (fused : list (FusedResult (item := item))) (ids : list Z).

Lemma fill_window_spec top_n fused ids :
  NoDup ids -> len ids <= top_n ->
  let ids' := fill_window top_n fused ids in
  NoDup ids' /\ len ids' <= top_n /\ (forall i, i ∈ ids -> i ∈ ids')
  /\ (forall i, i ∈ ids' -> i ∈ ids \/ i ∈ List.map item_id fused)
  /\ (len ids' = top_n \/ forall i, i ∈ List.map item_id fused -> i ∈ ids').
Proof.
  revert ids. induction fused as [|r fused IH]; intros ids Hn Hl; simpl.
  - split_and!; [done..|by left|]. right. by intros i ?%elem_of_nil.
  - destruct (Z.leb_spec top_n (len ids)).
    + split_and!; [done..|by left|]. left. lia.
    + set (ids1 := if bool_decide _ then _ else _).
      assert (NoDup ids1 /\ len ids1 <= top_n /\ (forall i, i ∈ ids1 <-> i ∈ ids \/ i = item_id r)) as (H1 & H2 & H3).
      { subst ids1. destruct (decide (item_id r ∈ ids)) as [Hr|Hr].
        - rewrite bool_decide_true by done. split_and!; [done|lia|]. intros i. naive_solver.
        - rewrite bool_decide_false by done. split_and!; [by constructor|unfold len in *; simpl; lia|].
          intros i. rewrite elem_of_cons. naive_solver. }
      destruct (IH ids1 H1 H2) as (I1 & I2 & I3 & I4 & I5). split_and!; [done..| | |].
      * intros i Hi. apply I3, H3. by left.
      * intros i [Hi|Hi]%I4; [apply H3 in Hi as [?| ->]; [by left|right; left]|right; by right].
      * destruct I5 as [?|I5]; [by left|right]. intros i [->|Hi]%elem_of_cons; [|auto]. apply I3, H3. by right.
Qed.

(** The ids of a list added to a set of ids. *)
Lemma add_ids_spec ids (l : list (FusedResult (item := item))) :
  NoDup ids ->
  let ids' := foldl (fun ids r => if bool_decide (item_id r ∈ ids) then ids else item_id r :: ids) ids l in
  NoDup ids' /\ (forall i, i ∈ ids' <-> i ∈ ids \/ i ∈ List.map item_id l) /\ len ids' <= len ids + len l.
Proof.
  revert ids. induction l as [|r l IH]; intros ids Hn; simpl.
  - split_and!; [done| |unfold len; simpl; lia]. intros i. split; [by left|by intros [?|?%elem_of_nil]].
  - destruct (IH (if bool_decide (item_id r ∈ ids) then ids else item_id r :: ids)) as (I1 & I2 & I3).
    { destruct (decide (item_id r ∈ ids)); [by rewrite bool_decide_true|].
      rewrite bool_decide_false by done. by constructor. }
    split_and!; [done| |].
    + intros i. rewrite I2, elem_of_cons. destruct (decide (item_id r ∈ ids)).
      * rewrite bool_decide_true by done. naive_solver.
      * rewrite bool_decide_false, elem_of_cons by done. naive_solver.
    + revert I3. unfold len. generalize (foldl (fun ids r => if bool_decide (item_id r ∈ ids) then ids else item_id r :: ids)
        (if bool_decide (item_id r ∈ ids) then ids else item_id r :: ids) l).
      intros ids' I3. destruct (bool_decide (item_id r ∈ ids)); simpl length in *; lia.
Qed.

Lemma slice_take {A} (l : list A) q : 0 <= q -> slice l 0 q = take (Z.to_nat q) l.
Proof.
  intros Hq. unfold slice, clamp, len. destruct (Z.ltb_spec 0 0), (Z.ltb_spec q 0); try lia.
  rewrite (Z.min_l 0) by lia. simpl (Z.to_nat 0). rewrite drop_0, Z.sub_0_r. destruct (Z.min_spec q (Z.of_nat (length l))) as [[_ ->]|[? ->]]; [done|].
  rewrite Nat2Z.id, !take_ge; [done|lia|lia].
Qed.

Lemma slice_drop {A} (l : list A) q : 0 <= q -> slice l q (len l) = drop (Z.to_nat q) l.
Proof.
  intros Hq. unfold slice, clamp, len. destruct (Z.ltb_spec q 0), (Z.ltb_spec (Z.of_nat (length l)) 0); try lia.
  rewrite Z.min_id. destruct (Z.min_spec q (Z.of_nat (length l))) as [[_ ->]|[? ->]].
  - rewrite take_ge; [done|]. rewrite length_drop. lia.
  - rewrite Z.sub_diag, Nat2Z.id, drop_ge; [|lia]. by rewrite drop_ge by lia.
Qed.

Lemma members_spec (attr : FusedResult (item := item) -> option Z) fused :
  (forall r, r ∈ members attr fused <-> r ∈ fused /\ is_Some (attr r))
  /\ (NoDup fused -> NoDup (members attr fused))
  /\ StronglySorted (fun a c => default 0 (attr a) <= default 0 (attr c)) (members attr fused).
Proof.
  unfold members. set (l := omap _ fused).
  assert (List.map snd l = List.filter (fun r => match attr r with Some _ => true | None => false end) fused) as E.
  { subst l. induction fused as [|r fused IH]; simpl; [done|]. destruct (attr r); simpl; [by f_equal|done]. }
  assert (List.map snd (sort_keyed l) ≡ₚ List.map snd l) as Hp by by rewrite sort_keyed_perm.
  split_and!.
  - intros r. rewrite Hp, E, elem_of_filter_bool. destruct (attr r); [split; intros [? ?]; eauto|].
    split; intros [? H]; [done|by inversion H].
  - intros Hn. rewrite Hp, E. by apply NoDup_filter_bool.
  - assert (Forall (headed (fun r => default 0 (attr r))) l) as Hh.
    { subst l. clear. induction fused as [|r fused IH]; simpl; [constructor|].
      destruct (attr r) eqn:Ea; [constructor; [|done]|done]. exists []. simpl. by rewrite Ea. }
    apply sort_keyed_sorted in Hh. clear Hp E.
    induction Hh as [|x ls Hs IH Hall]; simpl; constructor; [done|by apply Forall_map].
Qed.

(** A member of rank [k] is among the first [k] when the ranks are distinct positions. *)
Lemma member_head attr fused r k :
  NoDup fused -> (forall r k, r ∈ fused -> attr r = Some k -> 1 <= k) ->
  (forall r r' k, r ∈ fused -> r' ∈ fused -> attr r = Some k -> attr r' = Some k -> r = r') ->
  r ∈ fused -> attr r = Some k -> r ∈ take (Z.to_nat k) (members attr fused).
Proof.
  intros Hn Hpos Hinj Hr Hk. destruct (members_spec attr fused) as (M1 & M2 & M3).
  apply (sorted_prefix_count (fun r => default 0 (attr r)) _ k); [done| | |].
  - apply M1. split; [done|by eexists].
  - rewrite Hk. simpl. lia.
  - rewrite <- (length_map (fun r => default 0 (attr r))).
    transitivity (length (seqZ 1 k)); [|rewrite length_seqZ; lia]. apply NoDup_count.
    + apply NoDup_fmap_2_strong; [|by apply NoDup_filter_bool, M2].
      intros a b [[Ha [ka Ea]]%M1 _]%elem_of_filter_bool [[Hb [kb Eb]]%M1 _]%elem_of_filter_bool.
      rewrite Ea, Eb. simpl. intros ->. eauto.
    + intros x Hx. apply list_elem_of_In, in_map_iff in Hx as (a & <- & Ha). apply list_elem_of_In in Ha.
      apply elem_of_filter_bool in Ha as [[Ha [ka Ea]]%M1 Hle%Z.leb_le].
      apply elem_of_seqZ. rewrite Ea in *. simpl in *. specialize (Hpos a ka Ha Ea). lia.
Qed.

Lemma guaranteed_spec quota active fused :
  let ids := guaranteed quota active fused in
  NoDup ids /\ (forall i, i ∈ ids -> i ∈ List.map item_id fused) /\ len ids <= Z.max 0 quota * len active
  /\ (forall attr r, attr ∈ active -> 1 <= quota -> r ∈ take (Z.to_nat quota) (members attr fused) -> item_id r ∈ ids).
Proof.
  unfold guaranteed. destruct (Z.leb_spec 1 quota) as [Hq|Hq]; simpl.
  2: { split_and!; [constructor|by intros i ?%elem_of_nil|unfold len; simpl; lia|]. intros. lia. }
  rewrite Z.max_r by lia.
  assert (forall ids, NoDup ids -> (forall i, i ∈ ids -> i ∈ List.map item_id fused) ->
    let ids' := foldl (fun ids attr => foldl (fun ids r => if bool_decide (item_id r ∈ ids) then ids else item_id r :: ids)
             ids (slice (members attr fused) 0 quota)) ids active in
    NoDup ids' /\ (forall i, i ∈ ids' -> i ∈ List.map item_id fused) /\ len ids' <= len ids + quota * len active
    /\ (forall i, i ∈ ids -> i ∈ ids')
    /\ (forall attr r, attr ∈ active -> r ∈ take (Z.to_nat quota) (members attr fused) -> item_id r ∈ ids')) as H.
  { induction active as [|attr active IH]; intros ids Hn Hin; simpl.
    { split_and!; [done..|unfold len; simpl; lia|done|]. by intros ? ? ?%elem_of_nil. }
    rewrite slice_take by lia.
    destruct (add_ids_spec ids (take (Z.to_nat quota) (members attr fused)) Hn) as (A1 & A2 & A3).
    destruct (IH _ A1) as (I1 & I2 & I3 & I4 & I5).
    { intros i [?|Hi]%A2; [auto|]. apply list_elem_of_In, in_map_iff in Hi as (r & <- & Hr).
      apply list_elem_of_In, in_map, list_elem_of_In. apply list_elem_of_In in Hr.
      apply elem_of_take in Hr as (j & Hj & _). apply list_elem_of_lookup_2 in Hj.
      by apply members_spec in Hj as [? _]. }
    split_and!; [done..| | |].
    - etransitivity; [exact I3|]. revert A3. unfold len. rewrite length_take. simpl length. lia.
    - intros i Hi. apply I4, A2. by left.
    - intros a r [->|Ha]%elem_of_cons Hr; [|by eapply I5]. apply I4, A2. right.
      apply list_elem_of_In, in_map, list_elem_of_In, Hr. }
  destruct (H []) as (H1 & H2 & H3 & H4 & H5); [constructor|by intros ? ?%elem_of_nil|].
  split_and!; [done|done| |eauto]. etransitivity; [exact H3|]. unfold len. simpl. lia.
Qed.

Definition is_union (cfg : WindowConfig) : bool := mem_str (fusion_mode cfg) _UNION_FUSION_MODES.

(** The window is a choice of ids. *)
Definition splits (p : list (FusedResult (item := item)) * list (FusedResult (item := item))) fused : Prop :=
  p.1 `sublist_of` fused /\ p.2 `sublist_of` fused /\ p.1 ++ p.2 ≡ₚ fused.

Lemma filter_sublist (f : FusedResult (item := item) -> bool) l : List.filter f l `sublist_of` l.
Proof. induction l as [|x l IH]; simpl; [done|]. destruct (f x); by constructor. Qed.

Lemma filter_splits (f : FusedResult (item := item) -> bool) l :
  splits (List.filter f l, List.filter (fun r => negb (f r)) l) l.
Proof.
  split_and!; [apply filter_sublist..|]. simpl. induction l as [|x l IH]; simpl; [done|].
  destruct (f x); simpl; [by f_equiv|]. by rewrite <- Permutation_middle, IH.
Qed.

(** Distinct ids chosen among those of a list without repeats: as many results. *)
Lemma filter_count ids fused :
  NoDup ids -> NoDup (List.map item_id fused) -> (forall i, i ∈ ids -> i ∈ List.map item_id fused) ->
  length (List.filter (fun r => bool_decide (item_id r ∈ ids)) fused) = length ids.
Proof.
  intros Hi Hn Hin. rewrite <- (length_map item_id). apply Permutation_length, NoDup_Permutation; [|done|].
  - eapply sublist_NoDup; [exact Hn|]. apply (fmap_sublist item_id), filter_sublist.
  - intros i. rewrite list_elem_of_In, in_map_iff. split.
    + intros (r & <- & [_ Hr]%filter_In). by apply bool_decide_eq_true in Hr.
    + intros H. pose proof (Hin i H) as (r & <- & Hr)%list_elem_of_In%in_map_iff. exists r. split; [done|].
      apply filter_In. split; [done|]. by apply bool_decide_eq_true.
Qed.

Lemma plain_window top_n fused :
  0 <= top_n ->
  splits (slice fused 0 top_n, slice fused top_n (len fused)) fused
  /\ len (slice fused 0 top_n) = Z.min top_n (len fused).
Proof.
  intros Ht. rewrite slice_take, slice_drop by done. split.
  - split_and!; simpl; [apply sublist_take|apply sublist_drop|by rewrite take_drop].
  - unfold len. rewrite length_take. lia.
Qed.

(** The guaranteed ids fit in the window. *)
Lemma quota_fits top_n (active : list (FusedResult (item := item) -> option Z)) :
  0 <= top_n -> Z.max 0 (top_n / len active) * len active <= top_n.
Proof.
  intros Ht. destruct (decide (len active = 0)) as [->|Hne]; [lia|].
  assert (0 < len active) by (unfold len in *; lia).
  pose proof (Z.div_pos top_n (len active)). rewrite Z.max_r by auto.
  pose proof (Z.mul_div_le top_n (len active)). lia.
Qed.

(** What the union branch of the window computes. *)
Lemma union_window_spec cfg fused top_n :
  0 < top_n -> NoDup (List.map item_id fused) ->
  let active := active_channels cfg fused in
  let ids := fill_window top_n fused (guaranteed (top_n / len active) active fused) in
  NoDup ids /\ len ids = Z.min top_n (len fused) /\ (forall i, i ∈ ids -> i ∈ List.map item_id fused)
  /\ (forall i, i ∈ guaranteed (top_n / len active) active fused -> i ∈ ids).
Proof.
  intros Ht Hn active ids.
  destruct (guaranteed_spec (top_n / len active) active fused) as (G1 & G2 & G3 & G4).
  pose proof (quota_fits top_n active ltac:(lia)) as Hq.
  destruct (fill_window_spec top_n fused (guaranteed (top_n / len active) active fused)) as (I1 & I2 & I3 & I4 & I5);
    [done|lia|].
  fold ids in I1, I2, I3, I4, I5.
  assert (forall i, i ∈ ids -> i ∈ List.map item_id fused) as Hin by (intros i [?|?]%I4; auto).
  split_and!; [done| |done|done].
  pose proof (NoDup_count _ _ I1 Hin) as Hle. rewrite length_map in Hle. unfold len in *.
  destruct I5 as [?|I5]; [lia|]. pose proof (NoDup_count _ _ Hn I5) as Hge. rewrite length_map in Hge. lia.
Qed.

(** The rerank window and its remainder share out the fused results, each in the order
    they came in, and the window holds [top_n] of them, or all when there are fewer, in
    every fusion mode and however the channels overlap. *)
Theorem window_partitions cfg fused top_n :
  0 <= top_n -> NoDup (List.map item_id fused) ->
  splits (_select_rerank_window cfg fused top_n) fused
  /\ len (_select_rerank_window cfg fused top_n).1 = Z.min top_n (len fused).
Proof.
  intros Ht Hn. pose proof (plain_window top_n fused Ht) as Hp. unfold _select_rerank_window.
  destruct (negb _); [exact Hp|]. destruct (_ || _) eqn:E; [exact Hp|].
  apply orb_false_iff in E as [_ Htop%Z.leb_gt].
  destruct (union_window_spec cfg fused top_n Htop Hn) as (U1 & U2 & U3 & _).
  split; [apply filter_splits|]. cbn [fst]. unfold len at 1. by rewrite filter_count.
Qed.

(** The ranks a channel gave the results of a list. *)
Definition channel_ranked (attr : FusedResult (item := item) -> option Z) fused : Prop :=
  (forall r k, r ∈ fused -> attr r = Some k -> 1 <= k)
  /\ forall r r' k, r ∈ fused -> r' ∈ fused -> attr r = Some k -> attr r' = Some k -> r = r'.

Lemma window_head cfg fused top_n attr r k :
  is_union cfg = true -> NoDup (List.map item_id fused) ->
  attr ∈ active_channels cfg fused -> channel_ranked attr fused ->
  r ∈ fused -> attr r = Some k -> k <= top_n / len (active_channels cfg fused) ->
  r ∈ (_select_rerank_window cfg fused top_n).1.
Proof.
  intros Hu Hn Ha [Hpos Hinj] Hr Hk Hle. unfold _select_rerank_window, is_union in *. rewrite Hu. cbn [negb].
  pose proof (Hpos r k Hr Hk) as Hk1. set (active := active_channels cfg fused) in *.
  assert (0 < len active) as Hlen by (unfold len; destruct active; [by apply elem_of_nil in Ha|simpl; lia]).
  assert (0 < top_n) as Htop.
  { apply Z.lt_nge. intros H. pose proof (Z.div_le_mono top_n 0 (len active) Hlen H) as Hd.
    rewrite Z.div_0_l in Hd; lia. }
  destruct active as [|a0 active0] eqn:Eact; [by apply elem_of_nil in Ha|]. rewrite <- Eact in *.
  rewrite (proj2 (Z.leb_gt _ _) Htop). cbn [orb fst].
  apply elem_of_filter_bool. split; [done|]. apply bool_decide_eq_true.
  destruct (union_window_spec cfg fused top_n Htop Hn) as (_ & _ & _ & U4).
  fold active in U4. rewrite Eact in U4. rewrite <- Eact in U4. apply U4.
  destruct (guaranteed_spec (top_n / len active) active fused) as (_ & _ & _ & G4).
  apply (G4 attr r Ha); [lia|].
  pose proof (member_head attr fused r k (NoDup_fmap_1 item_id _ Hn) Hpos Hinj Hr Hk) as Hm.
  apply elem_of_take in Hm as (j & Hj & Hlt). apply elem_of_take. exists j. split; [done|lia].
Qed.
End window.

(** ** Concrete runs *)

Module Channels_run.
Definition hits (l : list Z) : list (hit (item := unit)) := List.map (fun i => (i, of_Z i, tt)) l.
Definition channels : list (string * list (hit (item := unit))) :=
  [("vector", hits [1; 2; 3]); ("graph", hits [4; 2]); ("bm25", hits [5; 1])]%string.
Definition cfg : WindowConfig := MkWindowConfig "union_best_rank" ["vector"; "graph"; "bm25"].
Definition fused : result (list (FusedResult (item := unit))) :=
  union_best_rank_fusion (fun _ => ""%string) channels 60 None.
End Channels_run.

(** The head 5 of the third channel is among the first three. *)
Lemma union_exposes_heads_witness :
  match Channels_run.fused with
  | Ok l => NoDup (List.map item_id l) /\ 5 ∈ take (1 * 3) (List.map item_id l)
  | Err _ => False
  end.
Proof.
  destruct Channels_run.fused as [l|] eqn:E; [|vm_compute in E; discriminate]. unfold Channels_run.fused in E.
  destruct (union_exposes_heads (fun _ => ""%string) 60 None Channels_run.channels l) as (H1 & _ & H3); [| |exact E|].
  - apply (bool_decide_unpack _). vm_compute. reflexivity.
  - intros name results H. apply list_elem_of_lookup in H as [[|[|[|n]]] H]; [..|done]; injection H as <- <-;
      apply (bool_decide_unpack _); vm_compute; reflexivity.
  - split; [exact H1|]. apply (H3 1%nat "bm25"%string (Channels_run.hits [5; 1]) 5); [right; right; left|left].
Defined.

Lemma window_partitions_witness :
  match Channels_run.fused with
  | Ok l => splits (_select_rerank_window Channels_run.cfg l 3) l
            /\ len (_select_rerank_window Channels_run.cfg l 3).1 = Z.min 3 (len l)
  | Err _ => False
  end.
Proof.
  destruct Channels_run.fused as [l|] eqn:E; [|vm_compute in E; discriminate].
  apply (window_partitions Channels_run.cfg l 3); [lia|].
  vm_compute in E. injection E as <-. apply (bool_decide_unpack _). vm_compute. reflexivity.
Defined.
