(* ===== verification/Scoring.v ===== *)
(** * The scoring pipeline ([_fuse_results] and [_score_and_rank] of
    [engines/vectorcypher/retriever.py], [query/fusion.py], the rerankers of
    [query/reranking.py] and the diversity selection of [_accel.py])

    The three channels' hits are fused, boosted, reranked and diversified.  A cross-encoder
    and an LLM are functions from the candidates to scores that may fail; so are the
    accelerated vector routines.  A chunk of the model has the fields the pipeline reads.
    Sorting by a float is meant for scores without a NaN. *)
From Stdlib Require Import SpecFloat.
From S2P Require Import Prelude PyValue FilterPython PyText RankFusion.

Local Open Scope Z_scope.

(** ** Literals *)

Definition lit_0_5 : float := S754_finite false 4503599627370496 (-53).
Definition lit_0_7 : float := S754_finite false 6305039478318694 (-53).
Definition lit_0_85 : float := S754_finite false 7656119366529843 (-53).
Definition lit_0_15 : float := S754_finite false 5404319552844595 (-55).
Definition lit_0_4 : float := S754_finite false 7205759403792794 (-54).
Definition lit_0_2 : float := S754_finite false 7205759403792794 (-55).
Definition lit_1e_9 : float := S754_finite false 4835703278458517 (-82).

(** [x / y] on integers: the quotient, rounded once. *)
Definition exact (z : Z) : float :=
  match z with Z0 => f0 | Zpos p => S754_finite false p 0 | Zneg p => S754_finite true p 0 end.
Definition int_div (x y : Z) : result float :=
  if Z.eqb y 0 then Err (OtherError "ZeroDivisionError") else Ok (SFdiv 53 1024 (exact x) (exact y)).

(** ** [query/fusion.py] *)

Section query_fusion.
Context {item K : Type} `{EqDecision K}.

(** A fresh id stands for each distinct key: its place among the keys seen. *)
Definition fresh_id (key : K) (ids : list (K * Z)) : Z * list (K * Z) :=
  match zget key ids with Some u => (u, ids) | None => (len ids, ids ++ [(key, len ids)]) end.

Definition convert_source (id_extractor : item -> K) (acc : list (K * Z) * list (Z * item))
    (source : list (item * float)) : (list (K * Z) * list (Z * item)) * list (hit (item := item)) :=
  foldl (fun '((ids, items), out) '(it, score) =>
    let '(uid, ids) := fresh_id (id_extractor it) ids in
    ((ids, zset uid it items), out ++ [(uid, score, it)])) (acc, []) source.

Definition convert_sources (id_extractor : item -> K) (sources : list (string * list (item * float)))
    : (list (K * Z) * list (Z * item)) * list (list (hit (item := item))) :=
  foldl (fun '(acc, out) '(_, source) =>
    let '(acc, converted) := convert_source id_extractor acc source in (acc, out ++ [converted]))
    (([], []), []) sources.

Definition weight_of (weights : list (string * float)) (name : string) : float :=
  default f1 (dict_get name weights).

Definition query_normalized_weights (names : list string) (weights : option (list (string * float)))
    : result (list (string * float)) :=
  let weights := match weights with Some w => w | None => List.map (fun s => (s, f1)) names end in
  let total := fsum (List.map (weight_of weights) names) in
  if feq total f0 then map_m (fun s => w ← fdiv f1 (of_Z (len names)); Ok (s, w)) names
  else map_m (fun s => w ← fdiv (weight_of weights s) total; Ok (s, w)) names.

Definition query_reciprocal_rank_fusion (ranked_lists : list (string * list (item * float))) (k : Z)
    (weights : option (list (string * float))) (id_extractor : item -> K) : result (list (item * float)) :=
  let sources := List.filter (fun '(_, l) => match l with [] => false | _ => true end) ranked_lists in
  match sources with
  | [] => Ok []
  | _ =>
      nw ← query_normalized_weights (List.map fst sources) weights;
      let '((_, items), converted) := convert_sources id_extractor sources in
      fused ← weighted_rrf_nlist (zip converted (List.map (fun '(s, _) => weight_of nw s) sources)) k;
      map_m (fun r => match zget (item_id r) items with
                      | Some it => Ok (it, rrf_score r) | None => Err KeyError end) fused
  end.

(** [sorted(l, key=..., reverse=True)] on pairs with a float key. *)
Fixpoint insert_score {A} (x : A * float) (l : list (A * float)) : list (A * float) :=
  match l with
  | [] => [x]
  | y :: l' => if flt x.2 y.2 then y :: insert_score x l' else x :: l
  end.
Definition sort_scores {A} (l : list (A * float)) : list (A * float) := foldr insert_score [] l.

Definition combine_with_weights (results : list (list (item * float))) (weights : list float)
    (id_extractor : item -> K) : result (list (item * float)) :=
  let total := fsum weights in
  nw ← (if feq total f0 then map_m (fun _ => fdiv f1 (of_Z (len weights))) weights
        else map_m (fun w => fdiv w total) weights);
  let '(scores, items) :=
    foldl (fun acc '(l, weight) =>
      foldl (fun '(scores, items) '(it, score) =>
        let i := id_extractor it in
        let weighted := fmul score weight in
        match zget i scores with
        | Some s => (zset i (fadd s weighted) scores, items)
        | None => (zset i weighted scores, zset i it items)
        end) acc l) ([], []) (zip results nw) in
  map_m (fun '(i, s) => match zget i items with Some it => Ok (it, s) | None => Err KeyError end)
    (sort_scores scores).
End query_fusion.

(** ** The retriever's settings and a call's parameters *)

Record Chunk := MkChunk {
  chunk_id : Z;
  chunk_metadata : list (string * value);
  occurred_at : option datetime;
  chunk_embedding : option (list float);
}.

Abbreviation chunk_hit := (hit (item := Chunk)).
Abbreviation chunk_result := (FusedResult (item := Chunk)).

Record RetrieverConfig := MkRetrieverConfig {
  rrf_k : Z;
  vector_weight : float; graph_weight : float;
  rc_fusion_mode : string;
  rc_union_rank_channels : list string;
  union_rank_per_channel_limit : option Z;
  simple_vector_weight : float; simple_graph_weight : float;
  complex_vector_weight : float; complex_graph_weight : float;
  temporal_vector_weight : float; temporal_graph_weight : float;
  recency_decay_days : float;
  recency_decay_type : string;
  temporal_reference_wall_clock : bool;
  temporal_per_source_decay : bool;
  temporal_default_decay_by_source : list (string * Z);
  coherence_weight : float;
  bm25_weight : float;
  enable_reranking : bool; reranking_top_n : Z; reranking_blend_weight : float;
  enable_llm_reranking : bool; llm_reranking_top_n : Z;
  llm_reranking_confidence_threshold : float;
  llm_reranking_mode : string;
  llm_reranking_min_top_score : float; llm_reranking_decisive_gap : float;
  enable_diversity : bool; diversity_lambda : float; diversity_min_gap : float;
}.

Definition window_config (cfg : RetrieverConfig) : WindowConfig :=
  MkWindowConfig (rc_fusion_mode cfg) (rc_union_rank_channels cfg).

Inductive QueryComplexity := SIMPLE | MODERATE | COMPLEX.

Inductive TemporalCategory :=
| CatNone | CatExplicit | CatStateQuery | CatOrdinal | CatAggregate | CatRecency | CatChange.

Record TemporalSignal := MkTemporalSignal { is_temporal : bool; ts_category : TemporalCategory }.

Record RetrievalParams := MkRetrievalParams {
  recency_weight : float; decay_days_override : option Z; recency_floor : float }.

(** ** [_fuse_results] *)

Definition fusion_weights (cfg : RetrieverConfig) (is_temporal : bool) (routing : option QueryComplexity)
    (graph_count : Z) : float * float :=
  if is_temporal then
    if Z.eqb graph_count 0 then (lit_0_85, lit_0_15)
    else if Z.ltb graph_count 3 then (vector_weight cfg, graph_weight cfg)
    else (temporal_vector_weight cfg, temporal_graph_weight cfg)
  else
    match routing with
    | Some SIMPLE => (simple_vector_weight cfg, simple_graph_weight cfg)
    | Some COMPLEX => (complex_vector_weight cfg, complex_graph_weight cfg)
    | _ => (vector_weight cfg, graph_weight cfg)
    end.

Definition hit_item (h : chunk_hit) : Chunk := h.2.

(** The ids the vector or the graph channel surfaced. *)
Definition non_lexical_ids (vector_chunks graph_chunks : list chunk_hit) : list Z :=
  List.map hit_id vector_chunks ++ List.map hit_id graph_chunks.

(** The channels of a union: those configured, in that order, that returned something. *)
Definition union_channels (cfg : RetrieverConfig) (vector_chunks graph_chunks : list chunk_hit)
    (bm25_chunks : option (list chunk_hit)) : list (string * list chunk_hit) :=
  let channel_lists :=
    [("vector", vector_chunks); ("graph", graph_chunks); ("bm25", default [] bm25_chunks)]%string in
  omap (fun name => match dict_get name channel_lists with
                    | Some ((_ :: _) as l) => Some (name, l) | _ => None end)
    (rc_union_rank_channels cfg).

(** [{cid: x for ... in enumerate(l, start=1)}] *)
Definition rank_map {A} (f : Z -> chunk_hit -> A) (l : list chunk_hit) : list (Z * A) :=
  foldl (fun d '(rank, h) => zset (hit_id h) (f rank h) d) [] (ranked l).

Section fuse.
Context (uuid_str : Z -> string).

Definition fuse_union (cfg : RetrieverConfig) (vw gw : float) (fusion_mode : string) (exclude_bm25_only : bool)
    (vector_chunks graph_chunks : list chunk_hit) (bm25_chunks : option (list chunk_hit))
    : result (list chunk_result) :=
  let channels := union_channels cfg vector_chunks graph_chunks bm25_chunks in
  fused ← (if String.eqb fusion_mode "union_mnz" then
             union_mnz_fusion uuid_str channels
               [("vector", vw); ("graph", gw); ("bm25", bm25_weight cfg)]%string
               (rrf_k cfg) (union_rank_per_channel_limit cfg)
           else union_best_rank_fusion uuid_str channels (rrf_k cfg) (union_rank_per_channel_limit cfg));
  Ok (if exclude_bm25_only then
        List.filter (fun r => bool_decide (item_id r ∈ non_lexical_ids vector_chunks graph_chunks)) fused
      else fused).

Definition fuse_three (cfg : RetrieverConfig) (vw gw : float) (calibrated exclude_bm25_only : bool)
    (vector_chunks graph_chunks bm25_chunks : list chunk_hit) : result (list chunk_result) :=
  let listed l := List.map (fun h => (hit_item h, hit_score h)) l in
  fused_raw ← (if calibrated then
      fused ← score_calibrated_fusion_nlist
                [(vector_chunks, vw); (graph_chunks, gw); (bm25_chunks, bm25_weight cfg)];
      Ok (List.map (fun r => (fr_item r, rrf_score r)) fused)
    else
      query_reciprocal_rank_fusion
        ((match vector_chunks with [] => [] | _ => [("vector"%string, listed vector_chunks)] end)
         ++ (match graph_chunks with [] => [] | _ => [("graph"%string, listed graph_chunks)] end)
         ++ [("bm25"%string, listed bm25_chunks)])
        (rrf_k cfg) (Some [("vector", vw); ("graph", gw); ("bm25", bm25_weight cfg)]%string) chunk_id);
  let fused_raw :=
    if exclude_bm25_only then
      List.filter (fun '(c, _) => bool_decide (chunk_id c ∈ non_lexical_ids vector_chunks graph_chunks)) fused_raw
    else fused_raw in
  let vranks := rank_map (fun rank _ => rank) vector_chunks in
  let vscores := rank_map (fun _ h => hit_score h) vector_chunks in
  let granks := rank_map (fun rank _ => rank) graph_chunks in
  let gscores := rank_map (fun _ h => hit_score h) graph_chunks in
  Ok (List.map (fun '(c, score) =>
        MkFusedResult (chunk_id c) c score (zget (chunk_id c) vranks) (zget (chunk_id c) granks)
          (zget (chunk_id c) vscores) (zget (chunk_id c) gscores) None None) fused_raw).

Definition _fuse_results (cfg : RetrieverConfig) (vector_chunks graph_chunks : list chunk_hit)
    (bm25_chunks : option (list chunk_hit)) (use_normalization : bool) (routing : option QueryComplexity)
    (is_temporal exclude_bm25_only : bool) (fusion_mode : string)
    (raw_cosine_by_id : option (list (Z * float))) : result (list chunk_result) :=
  let '(vw, gw) := fusion_weights cfg is_temporal routing (len graph_chunks) in
  let calibrated := String.eqb fusion_mode "calibrated" in
  let vector_chunks :=
    match raw_cosine_by_id with
    | Some ((_ :: _) as raw) =>
        if calibrated then
          List.map (fun '(i, score, c) => (i, default score (zget i raw), c)) vector_chunks
        else vector_chunks
    | _ => vector_chunks
    end in
  if mem_str fusion_mode _UNION_FUSION_MODES then
    fuse_union cfg vw gw fusion_mode exclude_bm25_only vector_chunks graph_chunks bm25_chunks
  else
    match bm25_chunks with
    | Some ((_ :: _) as bm25) => fuse_three cfg vw gw calibrated exclude_bm25_only vector_chunks graph_chunks bm25
    | _ =>
        if calibrated then score_calibrated_fusion vector_chunks graph_chunks vw gw
        else if use_normalization then weighted_rrf_normalized vector_chunks graph_chunks (rrf_k cfg) vw gw
        else weighted_rrf vector_chunks graph_chunks (rrf_k cfg) vw gw
    end.
End fuse.

(** ** Recency *)

Section recency.
(** [math.exp], [math.log(2)], the clock in microseconds, and [str(v).strip()]. *)
Context (exp : float -> float) (log2 : float) (now_utc : Z) (str_strip : value -> string).

(** The instant of a datetime, a naive one read as UTC. *)
Definition instant (d : datetime) : Z := default (dt_local d) (dt_instant d).

Definition _extract_source_system (c : Chunk) : option string :=
  match dict_get "source_system" (chunk_metadata c) with
  | None | Some VNone => None
  | Some v => let s := str_strip v in if String.eqb s "" then None else Some s
  end.

Definition _decay_for (cfg : RetrieverConfig) (override : option Z) (c : Chunk) : float :=
  if negb (temporal_per_source_decay cfg) then
    match override with
    | Some d => if Z.eqb d 0 then recency_decay_days cfg else of_Z d
    | None => recency_decay_days cfg
    end
  else
    let m := temporal_default_decay_by_source cfg in
    let fallback := match dict_get "_default" m with Some d => of_Z d | None => recency_decay_days cfg end in
    match _extract_source_system c with
    | Some src => match dict_get src m with Some d => of_Z d | None => fallback end
    | None => fallback
    end.

Definition reference_time (cfg : RetrieverConfig) (bench_mode : bool) (times : list (Z * Z)) : Z :=
  if negb bench_mode && temporal_reference_wall_clock cfg then now_utc
  else match List.map snd times with [] => now_utc | t :: ts => foldl Z.max t ts end.

Definition recency_of (cfg : RetrieverConfig) (override : option Z) (now : Z) (c : Chunk) (t : Z) : result float :=
  let decay := _decay_for cfg override c in
  let decay := if SFleb decay f0 then recency_decay_days cfg else decay in
  seconds ← int_div (now - t) 1000000;
  days ← fdiv seconds (of_Z 86400);
  let days_old := fmax f0 days in
  if String.eqb (recency_decay_type cfg) "exponential" then
    half_life_lambda ← fdiv log2 decay;
    Ok (exp (fmul (fneg half_life_lambda) days_old))
  else
    x ← fdiv days_old decay;
    Ok (fmax f0 (fsub f1 x)).

Definition _calculate_recency_scores (cfg : RetrieverConfig) (bench_mode : bool) (override : option Z)
    (results : list chunk_result) : result (list (Z * float)) :=
  let times := foldl (fun d r => match occurred_at (fr_item r) with
                                 | Some t => zset (item_id r) (instant t) d | None => d end) [] results in
  let now := reference_time cfg bench_mode times in
  fold_m (fun scores r =>
    match zget (item_id r) times with
    | Some t => x ← recency_of cfg override now (fr_item r) t; Ok (zset (item_id r) x scores)
    | None => Ok (zset (item_id r) lit_0_5 scores)
    end) [] results.
End recency.

(** ** Reranking *)

(** A candidate: the fused result and its score in the window, scaled to [0, 1]. *)
Definition Candidate : Type := chunk_result * float.

Definition rerank_candidates (window : list chunk_result) : result (list Candidate) :=
  match List.map rrf_score window with
  | [] => Ok []
  | s :: scores =>
      let score_min := foldl fmin s scores in
      let score_range := fsub (foldl fmax s scores) score_min in
      map_m (fun r =>
        if flt lit_1e_9 score_range then x ← fdiv (fsub (rrf_score r) score_min) score_range; Ok (r, x)
        else Ok (r, lit_0_5)) window
  end.

(** [blend * rerank + (1 - blend) * original] *)
Definition blended (blend rerank original : float) : float :=
  fadd (fmul blend rerank) (fmul (fsub f1 blend) original).

(** The candidates in the order of their original scores. *)
Definition fallback_ranking (candidates : list Candidate) (top_k : Z) : list (chunk_result * float) :=
  slice (sort_scores candidates) 0 top_k.

Section rerank.
(** The scores the cross-encoder gives the candidates, as floats; [None] when it raises. *)
Context (predict : list chunk_result -> option (list float)).

Definition cross_encoder_rerank (candidates : list Candidate) (top_k : Z) (blend : float)
    : list (chunk_result * float) :=
  match candidates with
  | [] => []
  | _ =>
      let attempt :=
        match predict (List.map fst candidates) with
        | None => Err (OtherError "model")
        | Some scores =>
            normalized ← match scores with
              | [] => Ok []
              | s :: rest =>
                  let min_score := foldl fmin s rest in
                  let score_range := fsub (foldl fmax s rest) min_score in
                  if flt f0 score_range then map_m (fun s => fdiv (fsub s min_score) score_range) scores
                  else Ok (List.map (fun _ => lit_0_5) scores)
              end;
            Ok (slice (sort_scores (List.map (fun '((r, original), norm) => (r, blended blend norm original))
                                      (zip candidates normalized))) 0 top_k)
        end in
      match attempt with Ok results => results | Err _ => fallback_ranking candidates top_k end
  end.

Definition _apply_reranking (cfg : RetrieverConfig) (fused : list chunk_result) : result (list chunk_result) :=
  match fused with
  | [] => Ok []
  | _ =>
      let top_n := Z.min (reranking_top_n cfg) (len fused) in
      let '(window, remainder) := _select_rerank_window (window_config cfg) fused top_n in
      candidates ← rerank_candidates window;
      Ok (List.map (fun '(r, s) => set_score r s)
            (cross_encoder_rerank candidates top_n (reranking_blend_weight cfg)) ++ remainder)
  end.

(** The numbers of the model's answer to a batch; [None] when the call or its parsing
    raises. *)
Context (llm_answer : list chunk_result -> option (list float)).

Definition score_batch (batch : list Candidate) : list float :=
  match llm_answer (List.map fst batch) with
  | None => List.map (fun _ => of_Z 5) batch
  | Some scores =>
      let scores := List.map (fun s => fmax f0 (fmin (of_Z 10) s)) scores in
      take (length batch) (scores ++ List.repeat (of_Z 5) (length batch - length scores))
  end.

(** [[l[i : i + 10] for i in range(0, len(l), 10)]] *)
Fixpoint batches_of (fuel : nat) {A} (l : list A) : list (list A) :=
  match fuel, l with
  | O, _ | _, [] => []
  | S fuel, _ => take 10 l :: batches_of fuel (drop 10 l)
  end.

Definition llm_rerank (candidates : list Candidate) (top_k : Z) (blend : float) : list (chunk_result * float) :=
  let results :=
    map_m (fun '((r, original), raw) => x ← fdiv raw (of_Z 10); Ok (r, blended blend x original))
      (List.concat (List.map (fun batch => zip batch (score_batch batch))
         (batches_of (length candidates) candidates))) in
  match results with
  | Ok results => slice (sort_scores results) 0 top_k
  | Err _ => fallback_ranking candidates top_k
  end.

Definition _apply_llm_reranking (cfg : RetrieverConfig) (fused : list chunk_result) : result (list chunk_result) :=
  match fused with
  | [] => Ok []
  | _ =>
      let top_n := Z.min (llm_reranking_top_n cfg) (len fused) in
      candidates ← rerank_candidates (slice fused 0 top_n);
      Ok (List.map (fun '(r, s) => set_score r s) (llm_rerank candidates top_n lit_0_7)
          ++ slice fused top_n (len fused))
  end.

(** *** When the LLM runs *)

Definition _candidates_have_versions (l : list chunk_result) : bool :=
  existsb (fun r => match dict_get "version" (chunk_metadata (fr_item r)) with
                    | Some v => truthy v | None => false end) l.

Definition _extract_top_two_scores (l : list chunk_result) : option (float * float) :=
  match l with a :: b :: _ => Some (rrf_score a, rrf_score b) | _ => None end.

Definition _should_skip_llm_rerank (cfg : RetrieverConfig) (top_score gap : float) : bool :=
  SFleb (llm_reranking_confidence_threshold cfg) gap
  || SFleb (llm_reranking_min_top_score cfg) top_score && SFleb (llm_reranking_decisive_gap cfg) gap.

Definition _evaluate_llm_rerank_gate (cfg : RetrieverConfig) (candidates : list chunk_result)
    (signal : option TemporalSignal) (top_raw second_raw : option float) : bool * option string :=
  if negb (enable_llm_reranking cfg) then (false, Some "not_temporal"%string)
  else if negb (match signal with Some s => is_temporal s | None => false end) then (false, Some "not_temporal"%string)
  else match candidates with
  | [] => (false, Some "decisive_winner"%string)
  | _ =>
      if String.eqb (llm_reranking_mode cfg) "auto" && negb (_candidates_have_versions (slice candidates 0 10)) then
        (false, Some "no_version_metadata"%string)
      else
        let decisive :=
          match top_raw with
          | Some top => Some (top, fmax (fsub top (default f0 second_raw)) f0)
          | None => match _extract_top_two_scores candidates with
                    | Some (a, b) => Some (a, fsub a b) | None => None end
          end in
        match decisive with
        | Some (top, gap) =>
            if _should_skip_llm_rerank cfg top gap then (false, Some "decisive_winner"%string) else (true, None)
        | None => (true, None)
        end
  end.
End rerank.

(** ** Version-aware scoring *)

Section versions.
(** [int(s)] of a string; [None] when it raises. *)
Context (int_of_str : string -> option Z).

(** [int(v)] *)
Definition py_int (v : value) : result Z :=
  match v with
  | VInt z => Ok z
  | VBool b => Ok (Z.b2z b)
  | VFloat FNaN => Err ValueError
  | VFloat (FInf _) => Err OverflowError
  | VFloat (FFin m e) => Ok (if Z.leb 0 e then m * 2 ^ e else Z.quot m (2 ^ (- e)))
  | VStr s => match int_of_str s with Some z => Ok z | None => Err ValueError end
  | _ => Err TypeError
  end.

(** The characters of a string kept as UTF-8 bytes. *)
Definition continuation (c : Ascii.ascii) : bool := Nat.eqb (Nat.div (Ascii.nat_of_ascii c) 64) 2.

Fixpoint chars (s : string) : list string :=
  match s with
  | EmptyString => []
  | String a s' =>
      match chars s' with
      | (String b _ as c) :: rest => if continuation b then String a c :: rest else String a EmptyString :: c :: rest
      | l => String a EmptyString :: l
      end
  end.

(** [for x in v]: the elements. *)
Definition iterate (v : value) : result (list value) :=
  match v with
  | VList l | VTuple l => Ok l
  | VStr s => Ok (List.map VStr (chars s))
  | VDict d => Ok (List.map (fun p => VStr p.1) d)
  | _ => Err TypeError
  end.

Fixpoint hashable (v : value) : bool :=
  match v with
  | VList _ | VDict _ => false
  | VTuple l => forallb hashable l
  | _ => true
  end.

(** A dict keyed by values. *)
Fixpoint vget (k : value) (d : list (value * Z)) : option Z :=
  match d with
  | [] => None
  | (k', z) :: d' => if py_eq k k' then Some z else vget k d'
  end.

Fixpoint vset (k : value) (z : Z) (d : list (value * Z)) : list (value * Z) :=
  match d with
  | [] => [(k, z)]
  | (k', z') :: d' => if py_eq k k' then (k', z) :: d' else (k', z') :: vset k z d'
  end.

(** [meta.get(k) or other] *)
Definition get_or (k : string) (other : value) (meta : list (string * value)) : value :=
  match dict_get k meta with Some v => if truthy v then v else other | None => other end.

Definition version_value (meta : list (string * value)) : value :=
  get_or "version" (default (VInt 0) (dict_get "entity_version" meta)) meta.

Definition entity_refs (meta : list (string * value)) : result (list value) :=
  iterate (get_or "entity_refs" (VList []) meta).

Definition add_version (version : value) (versions : list (value * Z)) (ref : value) : result (list (value * Z)) :=
  if hashable ref then v ← py_int version; Ok (vset ref (Z.max (default 0 (vget ref versions)) v) versions)
  else Err TypeError.

(** The versions of the entities and of the chunks. *)
Definition collect_versions (results : list chunk_result) : result (list (value * Z) * list (Z * Z)) :=
  fold_m (fun '(entities, chunks) r =>
    let meta := chunk_metadata (fr_item r) in
    let version := version_value meta in
    if truthy version then
      v ← py_int version;
      refs ← entity_refs meta;
      entities ← fold_m (add_version version) entities refs;
      Ok (entities, zset (item_id r) v chunks)
    else Ok (entities, chunks)) ([], []) results.

(** The first reference with a newer version decays the score. *)
Fixpoint decay_by_refs (entities : list (value * Z)) (v : Z) (r : chunk_result) (refs : list value)
    : result chunk_result :=
  match refs with
  | [] => Ok r
  | ref :: refs =>
      if hashable ref then
        let max_v := default v (vget ref entities) in
        if Z.ltb v max_v then
          ratio ← int_div v max_v;
          Ok (set_score r (fmul (rrf_score r) (fsub f1 (fmul lit_0_7 (fsub f1 ratio)))))
        else decay_by_refs entities v r refs
      else Err TypeError
  end.

Definition version_scoring (signal : option TemporalSignal) (results : list chunk_result) : result (list chunk_result) :=
  match signal with
  | Some (MkTemporalSignal _ CatStateQuery) | Some (MkTemporalSignal _ CatRecency) =>
      vs ← collect_versions results;
      let '(entities, chunks) := vs in
      match entities with
      | [] => Ok results
      | _ =>
          map_m (fun r =>
            let v := default 0 (zget (item_id r) chunks) in
            if Z.ltb 0 v then
              refs ← entity_refs (chunk_metadata (fr_item r));
              decay_by_refs entities v r refs
            else Ok r) results
      end
  | _ => Ok results
  end.
End versions.

(** ** Diversity *)

(** The scores rounded to single precision. *)
Definition to_f32 (x : float) : float :=
  match x with
  | S754_finite s m e => binary_normalize 24 128 (if s then Zneg m else Zpos m) e s
  | _ => x
  end.

Section mmr.
(** The similarities of the rows to a row. *)
Context (dots : nat -> list float).

(** The best available index, with its value. *)
Fixpoint best_mmr (lambda : float) (selected_any : bool) (i : nat)
    (rows : list (bool * float * float)) (best : option (nat * float)) : option (nat * float) :=
  match rows with
  | [] => best
  | (available, score, max_sim) :: rows =>
      let best :=
        if available then
          let sim_to_sel := if selected_any then fmax f0 max_sim else f0 in
          let mmr := fsub (fmul lambda score) (fmul (fsub f1 lambda) sim_to_sel) in
          let best_so_far := match best with Some (_, b) => b | None => S754_infinity true end in
          if flt best_so_far mmr then Some (i, mmr) else best
        else best in
      best_mmr lambda selected_any (S i) rows best
  end.

(** Mark the index as taken and update the others' greatest similarity. *)
Fixpoint take_row (chosen i : nat) (sims : list float) (rows : list (bool * float * float))
    : list (bool * float * float) :=
  match rows with
  | [] => []
  | (available, score, max_sim) :: rows =>
      let available := available && negb (Nat.eqb i chosen) in
      let sim := nth i sims f0 in
      (available, score, if available && flt max_sim sim then sim else max_sim)
        :: take_row chosen (S i) sims rows
  end.

Fixpoint mmr_loop (lambda : float) (k : nat) (rows : list (bool * float * float)) (selected : list nat) : list nat :=
  match k with
  | O => selected
  | S k =>
      match best_mmr lambda (match selected with [] => false | _ => true end) 0 rows None with
      | None => selected
      | Some (i, _) => mmr_loop lambda k (take_row i 0 (dots i) rows) (selected ++ [i])
      end
  end.

Definition mmr_diversity_select (scores : list float) (lambda : float) (k : Z) : list nat :=
  mmr_loop lambda (Z.to_nat (Z.min k (len scores)))
    (List.map (fun s => (true, to_f32 s, S754_infinity true)) scores) [].
End mmr.

Definition _diversity_skip_reason (cfg : RetrieverConfig) (scores : list float) : option string :=
  let gap := diversity_min_gap cfg in
  if SFleb gap f0 then None
  else if Z.ltb (len scores) 3 then Some "too_few_candidates"%string
  else
    match List.map snd (sort_scores (List.map (fun s => (tt, s)) scores)) with
    | a :: b :: _ => if flt gap (fsub a b) then Some "decisive_winner"%string else None
    | _ => None
    end.

(** [np.median] of a non-empty list without a NaN. *)
Definition median (l : list float) : result float :=
  let sorted := reverse (List.map snd (sort_scores (List.map (fun s => (tt, s)) l))) in
  let n := length l in
  let a := nth (Nat.div n 2) sorted f0 in
  if Nat.odd n then Ok a else fdiv (fadd (nth (Nat.pred (Nat.div n 2)) sorted f0) a) f2.

(** [l[i] for i in selected], then the others in their order. *)
Definition selected_first {A} (l : list A) (selected : list nat) : list A :=
  omap (fun i => l !! i) selected ++ omap (fun '(i, x) => if bool_decide (i ∈ selected) then None else Some x) (imap pair l).

Section pipeline.
(** The similarities of the normalized embeddings of the rows to one of them, a missing
    embedding being a zero row; the embeddings of one index are of one length, and the error
    of NumPy for others is left out. *)
Context (row_dots : list (option (list float)) -> nat -> list float).

Definition _mmr_select_fused (fused : list chunk_result) (relevance_scores : list float) (k : Z) (lambda : float)
    : result (list chunk_result) :=
  if Z.leb (len fused) k then Ok fused
  else
    let embeddings := List.map (fun r => chunk_embedding (fr_item r)) fused in
    if forallb (fun e => match e with None => true | Some _ => false end) embeddings then Ok fused
    else
      neutral ← median (omap (fun '(s, e) => match e with Some _ => Some s | None => None end)
                          (zip relevance_scores embeddings));
      let scores := List.map (fun '(s, e) => match e with Some _ => s | None => neutral end)
                      (zip relevance_scores (embeddings : list (option (list float)))) in
      Ok (selected_first fused (mmr_diversity_select (row_dots embeddings) scores lambda k)).

(** ** The pipeline *)

Context (uuid_str : Z -> string) (fpow : float -> float -> float).
Context (exp : float -> float) (log2 : float) (now_utc : Z) (str_strip : value -> string) (bench_mode : bool).
Context (lower_words : Chunk -> option (list string)).
Context (batch_cosine_similarity : list float -> list (list float) -> list (nat * float)).
Context (predict llm_answer : list chunk_result -> option (list float)).
Context (int_of_str : string -> option Z).

Definition effective_recency (params : RetrievalParams) (temporal_filter : bool) (recency_bias : option float) : float :=
  match recency_bias with
  | Some b => b
  | None =>
      let w := recency_weight params in
      if temporal_filter && flt f0 w then fmax w lit_0_4 else w
  end.

(** Steps 8 and 8b. *)
Definition boosted (cfg : RetrieverConfig) (params : RetrievalParams) (recency : float)
    (fused : list chunk_result) : result (list chunk_result) :=
  fused ← (if flt f0 recency then
      scores ← _calculate_recency_scores exp log2 now_utc str_strip cfg bench_mode (decay_days_override params) fused;
      Ok (apply_recency_boost fpow fused scores recency (recency_floor params))
    else Ok fused);
  if flt f0 (coherence_weight cfg) then
    fused ← normalize_scores fused;
    apply_coherence_boost lower_words fused (coherence_weight cfg)
  else Ok fused.

(** Step 8d. *)
Definition llm_step (cfg : RetrieverConfig) (signal : option TemporalSignal) (raw_cosine_by_id : list (Z * float))
    (fused : list chunk_result) : result (list chunk_result) :=
  if enable_llm_reranking cfg then
    let raw_of i := match fused !! i with
                    | Some r => Some (default f0 (zget (item_id r) raw_cosine_by_id)) | None => None end in
    if (_evaluate_llm_rerank_gate cfg fused signal (raw_of 0%nat) (raw_of 1%nat)).1
    then _apply_llm_reranking llm_answer cfg fused else Ok fused
  else Ok fused.

(** Step 8f, on the scores taken before the reported ones replaced them. *)
Definition diversity_step (cfg : RetrieverConfig) (limit : Z) (ranking_scores : list float)
    (fused : list chunk_result) : result (list chunk_result) :=
  if enable_diversity cfg && Z.ltb limit (len fused) then
    normalized ← _min_max_normalize ranking_scores;
    match _diversity_skip_reason cfg normalized with
    | Some _ => Ok fused
    | None => _mmr_select_fused fused normalized limit (diversity_lambda cfg)
    end
  else Ok fused.

Definition _score_and_rank (cfg : RetrieverConfig) (vector_chunks graph_chunks bm25_chunks : list chunk_hit)
    (query_embedding : list float) (limit : Z) (routing : option QueryComplexity) (params : RetrievalParams)
    (signal : option TemporalSignal) (temporal_filter : bool) (recency_bias : option float) (min_similarity : float)
    (raw_cosine_by_id : list (Z * float)) : result (list chunk_result * float) :=
  fused ← _fuse_results uuid_str cfg vector_chunks graph_chunks
            (match bm25_chunks with [] => None | _ => Some bm25_chunks end) true routing
            (flt lit_0_2 (recency_weight params)) (flt f0 min_similarity) (rc_fusion_mode cfg) (Some raw_cosine_by_id);
  let recency := effective_recency params temporal_filter recency_bias in
  fused ← boosted cfg params recency fused;
  fused ← (if enable_reranking cfg then _apply_reranking predict cfg fused else Ok fused);
  fused ← llm_step cfg signal raw_cosine_by_id fused;
  fused ← version_scoring int_of_str signal fused;
  let ranking_scores := List.map rrf_score fused in
  let fused := attach_relevance_scores chunk_embedding batch_cosine_similarity fused (Some raw_cosine_by_id)
                 (Some query_embedding) in
  fused ← diversity_step cfg limit ranking_scores fused;
  Ok (fused, recency).
End pipeline.
