(* ===== verification/FuseFacts.v ===== *)
(** * Facts about the fusers

    Every fuser returns each id its channels hold exactly once, with an item a channel
    paired with it. *)
From Stdlib Require Import SpecFloat.
From S2P Require Import Prelude PyValue PyText RankFusion RankFusionFacts Scoring.

Local Open Scope Z_scope.

(** ** Folds *)

(** An invariant that knows what the fold has consumed. *)
Lemma fold_m_history {A S} (f : S -> A -> result S) (I : list A -> S -> Prop) l before s s' :
  (forall before s x s', I before s -> f s x = Ok s' -> I (before ++ [x]) s') ->
  I before s -> fold_m f s l = Ok s' -> I (before ++ l) s'.
Proof.
  intros Hstep. revert before s. induction l as [|x l IH]; intros before s Hs; cbn [fold_m].
  - intros [= <-]. by rewrite app_nil_r.
  - destruct (f s x) as [s1|] eqn:E; [|done]. intros H. rewrite (cons_middle x before l), app_assoc. eauto.
Qed.

Lemma fold_m_pure {A S} (f : S -> A -> S) l s : fold_m (fun s x => Ok (f s x)) s l = Ok (foldl f s l).
Proof. revert s. induction l as [|x l IH]; intros s; cbn [fold_m foldl]; [done|apply IH]. Qed.

Lemma foldl_history {A S} (f : S -> A -> S) (I : list A -> S -> Prop) l before s :
  (forall before s x, I before s -> I (before ++ [x]) (f s x)) -> I before s -> I (before ++ l) (foldl f s l).
Proof.
  intros Hstep Hs. apply (fold_m_history (fun s x => Ok (f s x)) I l before s); [|done|apply fold_m_pure].
  intros b s1 x s2 H [= <-]. auto.
Qed.

(** ** Dicts *)

Section dicts.
Context {K B : Type} `{EqDecision K}.
Implicit Types d : list (K * B).

Lemma zset_keys k v d i : i ∈ List.map fst (zset k v d) <-> i = k \/ i ∈ List.map fst d.
Proof.
  rewrite keys_zset. destruct (decide (k ∈ List.map fst d)) as [H|H].
  - rewrite bool_decide_true by done. naive_solver.
  - rewrite bool_decide_false, elem_of_app, list_elem_of_singleton by done. naive_solver.
Qed.

Lemma setdefault_keys k v d i : i ∈ List.map fst (setdefault k v d) <-> i = k \/ i ∈ List.map fst d.
Proof.
  rewrite keys_setdefault. destruct (decide (k ∈ List.map fst d)) as [H|H].
  - rewrite bool_decide_true by done. naive_solver.
  - rewrite bool_decide_false, elem_of_app, list_elem_of_singleton by done. naive_solver.
Qed.

Lemma NoDup_snoc_if {A} `{EqDecision A} (x : A) l : NoDup l -> NoDup (if bool_decide (x ∈ l) then l else l ++ [x]).
Proof.
  intros Hn. destruct (decide (x ∈ l)); [by rewrite bool_decide_true|]. rewrite bool_decide_false by done.
  apply NoDup_app. split_and!; [done| |apply NoDup_singleton]. by intros y Hy ->%list_elem_of_singleton.
Qed.

Lemma zset_NoDup k v d : NoDup (List.map fst d) -> NoDup (List.map fst (zset k v d)).
Proof. intros H. rewrite keys_zset. by apply NoDup_snoc_if. Qed.

Lemma setdefault_NoDup k v d : NoDup (List.map fst d) -> NoDup (List.map fst (setdefault k v d)).
Proof. intros H. rewrite keys_setdefault. by apply NoDup_snoc_if. Qed.

Lemma zset_pairs k v d i x : (i, x) ∈ zset k v d -> (i, x) = (k, v) \/ (i, x) ∈ d.
Proof.
  induction d as [|[k' v'] d IH]; simpl; [intros ->%list_elem_of_singleton; by left|].
  destruct (decide (k = k')) as [->|]; intros [->|H]%elem_of_cons.
  - by left.
  - right. by right.
  - right. left.
  - destruct (IH H) as [?|?]; [by left|right; by right].
Qed.

Lemma setdefault_pairs k v d i x : (i, x) ∈ setdefault k v d -> (i, x) = (k, v) \/ (i, x) ∈ d.
Proof.
  unfold setdefault. destruct (zget k d); [by right|]. intros [?|H]%elem_of_app; [by right|].
  apply list_elem_of_singleton in H. by left.
Qed.

Lemma zget_pair k v d : zget k d = Some v -> (k, v) ∈ d.
Proof.
  induction d as [|[k' v'] d IH]; simpl; [done|]. destruct (decide (k = k')) as [->|].
  - intros [= ->]. left.
  - right. auto.
Qed.
End dicts.

(** ** What a fuser returns *)

Section fusers.
Context {item : Type}.
Implicit Types (hs : list (hit (item := item))) (l : list (FusedResult (item := item))) (a : Acc (item := item)).

(** Each id of the hits once, with an item of one of its hits. *)
Definition from_hits hs l : Prop :=
  NoDup (List.map item_id l) /\ (forall i, i ∈ List.map item_id l <-> i ∈ List.map hit_id hs)
  /\ forall r, r ∈ l -> exists s, (item_id r, s, fr_item r) ∈ hs.

Definition items_from hs (items : list (Z * item)) : Prop := forall i it, (i, it) ∈ items -> exists s, (i, s, it) ∈ hs.

Definition keys_are {B} hs (d : list (Z * B)) : Prop :=
  NoDup (List.map fst d) /\ forall i, i ∈ List.map fst d <-> i ∈ List.map hit_id hs.

Lemma elem_ids_snoc hs h i : i ∈ List.map hit_id (hs ++ [h]) <-> i = hit_id h \/ i ∈ List.map hit_id hs.
Proof. rewrite List.map_app, elem_of_app. cbn [List.map]. rewrite list_elem_of_singleton. naive_solver. Qed.

Lemma keys_zset_snoc {B} hs h (v : B) d : keys_are hs d -> keys_are (hs ++ [h]) (zset (hit_id h) v d).
Proof.
  intros [H1 H2]. split; [by apply zset_NoDup|]. intros i. by rewrite zset_keys, elem_ids_snoc, H2.
Qed.

Lemma keys_setdefault_snoc {B} hs h (v : B) d : keys_are hs d -> keys_are (hs ++ [h]) (setdefault (hit_id h) v d).
Proof.
  intros [H1 H2]. split; [by apply setdefault_NoDup|]. intros i. by rewrite setdefault_keys, elem_ids_snoc, H2.
Qed.

Lemma items_snoc hs h items items' :
  items_from hs items -> (forall i it, (i, it) ∈ items' -> (i, it) = (hit_id h, h.2) \/ (i, it) ∈ items) ->
  items_from (hs ++ [h]) items'.
Proof.
  intros Hi Hs i it [Heq|H]%Hs.
  - injection Heq as -> ->. exists (hit_score h). apply elem_of_app. right. destruct h as [[i s] it]. left.
  - destruct (Hi i it H) as [s Hs']. exists s. apply elem_of_app. by left.
Qed.

(** The invariant of the scoring loops, and of the loops that only fill the items. *)
Definition acc_inv hs a : Prop := keys_are hs (a_scores a) /\ items_from hs (a_items a).

Lemma empty_inv : acc_inv [] empty_acc.
Proof. split; [split; [constructor|done]|]. by intros i it ?%elem_of_nil. Qed.

Lemma fused_of_hits hs a scores l :
  keys_are hs scores -> items_from hs (a_items a) -> fused_of a scores = Ok l -> from_hits hs l.
Proof.
  intros [K1 K2] Hi H. apply map_m_ok in H.
  assert (List.map item_id l = List.map fst scores
          /\ forall r, r ∈ l -> exists s, (item_id r, s, fr_item r) ∈ hs) as [E Hr].
  { clear K1 K2. induction H as [|[i s] r scores l H _ [IH1 IH2]]; [split; [done|by intros r ?%elem_of_nil]|].
    destruct (zget i (a_items a)) as [it|] eqn:E; [|done]. injection H as <-. simpl. rewrite IH1. split; [done|].
    intros r [->|Hr]%elem_of_cons; [|auto]. apply zget_pair in E. exact (Hi _ _ E). }
  unfold from_hits. rewrite E. done.
Qed.

Lemma from_hits_perm hs l l' : l' ≡ₚ l -> from_hits hs l -> from_hits hs l'.
Proof.
  intros Hp (H1 & H2 & H3). unfold from_hits. split_and!.
  - by rewrite Hp.
  - intros i. by rewrite Hp.
  - intros r. rewrite Hp. apply H3.
Qed.

Lemma ranked_snd {A} (l : list A) : List.map snd (ranked l) = l.
Proof. apply (imap_snd (fun i => Z.of_nat i + 1)). Qed.

Lemma ranked_loop_inv {X} (hit_of : X -> hit) (step : Acc -> Z * X -> result Acc) hs xs a a' :
  (forall hs a x a', acc_inv hs a -> step a x = Ok a' -> acc_inv (hs ++ [hit_of x.2]) a') ->
  acc_inv hs a -> fold_m step a (ranked xs) = Ok a' -> acc_inv (hs ++ List.map hit_of xs) a'.
Proof.
  intros Hstep Ha H. rewrite <- (ranked_snd xs), List.map_map.
  apply (fold_m_history step (fun before a => acc_inv (hs ++ List.map (fun x => hit_of x.2) before) a) (ranked xs) [] a);
    [|by rewrite app_nil_r|done].
  intros before a1 x a2 H1 H2. rewrite List.map_app, app_assoc. by eapply Hstep.
Qed.

Lemma acc_inv_snoc hs h a a' s (v : float) :
  acc_inv hs a -> a_scores a' = zset (hit_id h) v s -> s = a_scores a ->
  (a_items a' = zset (hit_id h) h.2 (a_items a) \/ a_items a' = setdefault (hit_id h) h.2 (a_items a)) ->
  acc_inv (hs ++ [h]) a'.
Proof.
  intros [H1 H2] Es -> Ei. split; [rewrite Es; by apply keys_zset_snoc|].
  apply (items_snoc hs h (a_items a)); [done|]. intros i it.
  destruct Ei as [->| ->]; [apply zset_pairs|apply setdefault_pairs].
Qed.

Lemma channel_step_inv k c w hs a (x : Z * (hit (item := item) * float)) a' :
  acc_inv hs a -> channel_step k c w a x = Ok a' -> acc_inv (hs ++ [x.2.1]) a'.
Proof.
  intros Ha. destruct x as [rank [[[i s] it] small]]. unfold channel_step.
  destruct (fdiv _ _) as [y|]; [|done]. cbn [mbind result_bind]. intros [= <-].
  destruct c; (eapply (acc_inv_snoc hs (i, s, it)); [done|done|done|]); [by left|by right].
Qed.

Lemma nlist_step_inv k w hs a (x : Z * (hit (item := item) * float)) a' :
  acc_inv hs a -> nlist_step k w a x = Ok a' -> acc_inv (hs ++ [x.2.1]) a'.
Proof.
  intros Ha. destruct x as [rank [[[i s] it] small]]. unfold nlist_step.
  destruct (fdiv _ _) as [y|]; [|done]. cbn [mbind result_bind]. intros [= <-].
  eapply (acc_inv_snoc hs (i, s, it)); [done|done|done|by right].
Qed.

Lemma rrf_step_inv k idx hs a (x : Z * hit (item := item)) a' :
  acc_inv hs a -> rrf_step k idx a x = Ok a' -> acc_inv (hs ++ [x.2]) a'.
Proof.
  intros Ha. destruct x as [rank [[i s] it]]. unfold rrf_step.
  destruct (fdiv _ _) as [y|]; [|done]. cbn [mbind result_bind]. intros [= <-].
  eapply (acc_inv_snoc hs (i, s, it)); [done|done|done|by left].
Qed.

Lemma with_small_fst w (results : list (hit (item := item))) xs : with_small w results = Ok xs -> List.map fst xs = results.
Proof.
  unfold with_small. destruct (_min_max_normalize _) as [ns|] eqn:E; [|done]. cbn [mbind result_bind].
  intros [= <-]. apply normalize_length in E. rewrite length_map in E. apply fst_zip. rewrite length_map. lia.
Qed.

Lemma with_norm_fst (results : list (hit (item := item))) xs : with_norm results = Ok xs -> List.map fst xs = results.
Proof.
  unfold with_norm. destruct (_min_max_normalize _) as [ns|] eqn:E; [|done]. cbn [mbind result_bind].
  intros [= <-]. apply normalize_length in E. rewrite length_map in E. apply fst_zip. lia.
Qed.

Lemma fused_sorted hs a scores l :
  keys_are hs scores -> items_from hs (a_items a) ->
  (fused ← fused_of a scores; Ok (sort_desc fused)) = Ok l -> from_hits hs l.
Proof.
  intros Hk Hi. destruct (fused_of a scores) as [f|] eqn:E; [|done]. cbn [mbind result_bind]. intros [= <-].
  apply (from_hits_perm hs f); [apply sort_desc_perm|]. by eapply fused_of_hits.
Qed.

Lemma final_keys hs a : keys_are hs (a_scores a) -> keys_are hs (final_scores a).
Proof.
  intros H. unfold keys_are. assert (List.map fst (final_scores a) = List.map fst (a_scores a)) as ->; [|exact H].
  unfold final_scores. rewrite List.map_map. apply List.map_ext. by intros [i s].
Qed.

Lemma weighted_rrf_hits (v g : list (hit (item := item))) k vw gw l :
  weighted_rrf v g k vw gw = Ok l -> from_hits (v ++ g) l.
Proof.
  unfold weighted_rrf. cbv zeta.
  destruct (fold_m _ empty_acc _) as [a1|] eqn:E1; [|done]. cbn [mbind result_bind].
  destruct (fold_m _ a1 _) as [a2|] eqn:E2; [|done]. cbn [mbind result_bind].
  apply (ranked_loop_inv fst _ []) in E1; [|intros; by eapply channel_step_inv|apply empty_inv].
  apply (ranked_loop_inv fst _ _) with (1 := fun hs a x a' => channel_step_inv _ _ _ hs a x a') (2 := E1) in E2.
  rewrite !List.map_map in E2. cbn [fst] in E2. rewrite !List.map_id in E2. destruct E2.
  by apply fused_sorted.
Qed.

Lemma weighted_rrf_normalized_hits (v g : list (hit (item := item))) k vw gw l :
  weighted_rrf_normalized v g k vw gw = Ok l -> from_hits (v ++ g) l.
Proof.
  unfold weighted_rrf_normalized.
  destruct (with_small vw v) as [vs|] eqn:Ev; [|done]. cbn [mbind result_bind].
  destruct (fold_m _ empty_acc _) as [a1|] eqn:E1; [|done]. cbn [mbind result_bind].
  destruct (with_small gw g) as [gs|] eqn:Eg; [|done]. cbn [mbind result_bind].
  destruct (fold_m _ a1 _) as [a2|] eqn:E2; [|done]. cbn [mbind result_bind].
  apply (ranked_loop_inv fst _ []) in E1; [|intros; by eapply channel_step_inv|apply empty_inv].
  apply (ranked_loop_inv fst _ _) with (1 := fun hs a x a' => channel_step_inv _ _ _ hs a x a') (2 := E1) in E2.
  apply with_small_fst in Ev, Eg. rewrite Ev, Eg in E2. destruct E2. apply fused_sorted; [by apply final_keys|done].
Qed.

Lemma reciprocal_rank_fusion_hits (lists : list (list (hit (item := item)))) k l :
  reciprocal_rank_fusion lists k = Ok l -> from_hits (List.concat lists) l.
Proof.
  unfold reciprocal_rank_fusion. destruct (fold_m _ empty_acc _) as [a|] eqn:E; [|done]. cbn [mbind result_bind].
  apply (fold_m_history _ (fun before a => acc_inv (List.concat (List.map snd before)) a) _ []) in E; [| |apply empty_inv].
  - cbn [app] in E. rewrite (imap_snd (fun i => i)) in E. destruct E. by apply fused_sorted.
  - intros before a1 [idx results] a2 Ha H. rewrite List.map_app, List.concat_app. cbn [List.map snd List.concat].
    rewrite app_nil_r, <- (List.map_id results) at 1.
    by apply (ranked_loop_inv id _ _) with (1 := fun hs a x a' => rrf_step_inv _ _ hs a x a') (2 := Ha) in H.
Qed.

Lemma nlist_hits (sources : list (list (hit (item := item)) * float)) k l :
  weighted_rrf_nlist sources k = Ok l -> from_hits (List.concat (List.map fst sources)) l.
Proof.
  unfold weighted_rrf_nlist. destruct (fold_m _ empty_acc _) as [a|] eqn:E; [|done]. cbn [mbind result_bind].
  apply (fold_m_history _ (fun before a => acc_inv (List.concat (List.map fst before)) a) _ []) in E; [| |apply empty_inv].
  - destruct E. apply fused_sorted; [by apply final_keys|done].
  - intros before a1 [results w] a2 Ha. destruct (with_small w results) as [xs|] eqn:Ex; [|done].
    cbn [mbind result_bind]. intros H. rewrite List.map_app, List.concat_app. cbn [List.map fst List.concat].
    apply with_small_fst in Ex. rewrite app_nil_r, <- Ex.
    by apply (ranked_loop_inv fst _ _) with (1 := fun hs a x a' => nlist_step_inv _ _ hs a x a') (2 := Ha) in H.
Qed.

(** *** The calibrated fusers *)

Lemma calibrated_loop (f : Acc -> Z * (hit (item := item) * float) -> Acc) hs xs a :
  (forall hs a x, keys_are hs (a_items a) /\ items_from hs (a_items a) ->
     keys_are (hs ++ [x.2.1]) (a_items (f a x)) /\ items_from (hs ++ [x.2.1]) (a_items (f a x))) ->
  keys_are hs (a_items a) /\ items_from hs (a_items a) ->
  let a' := foldl f a (ranked xs) in
  keys_are (hs ++ List.map fst xs) (a_items a') /\ items_from (hs ++ List.map fst xs) (a_items a').
Proof.
  intros Hf Ha. cbv zeta. rewrite <- (ranked_snd xs) at 1 3. rewrite List.map_map.
  apply (foldl_history f (fun before a => keys_are (hs ++ List.map (fun x => x.2.1) before) (a_items a)
    /\ items_from (hs ++ List.map (fun x => x.2.1) before) (a_items a)) (ranked xs) []); [|by rewrite app_nil_r].
  intros before a1 x H. rewrite List.map_app, app_assoc. by apply Hf.
Qed.

Lemma score_calibrated_hits (v g : list (hit (item := item))) vw gw l :
  score_calibrated_fusion v g vw gw = Ok l -> from_hits (v ++ g) l.
Proof.
  unfold score_calibrated_fusion.
  destruct (with_norm v) as [vs|] eqn:Ev; [|done]. cbn [mbind result_bind].
  destruct (with_norm g) as [gs|] eqn:Eg; [|done]. cbn [mbind result_bind]. cbv zeta.
  destruct (calibrated_loop calibrated_vector [] vs empty_acc) as [V1 V2].
  { intros hs a [rank [[[i s] it] norm]] [H1 H2]. unfold calibrated_vector. cbn [a_items fst snd].
    split; [by apply (keys_zset_snoc hs (i, s, it))|]. eapply (items_snoc hs (i, s, it)); [exact H2|].
    intros. by apply zset_pairs. }
  { split; [split; [constructor|done]|by intros i it ?%elem_of_nil]. }
  destruct (calibrated_loop calibrated_graph ([] ++ List.map fst vs) gs (foldl calibrated_vector empty_acc (ranked vs))) as [G1 G2].
  { intros hs a [rank [[[i s] it] norm]] [H1 H2]. unfold calibrated_graph. cbn [a_items fst snd].
    split; [by apply (keys_setdefault_snoc hs (i, s, it))|]. eapply (items_snoc hs (i, s, it)); [exact H2|].
    intros. by apply setdefault_pairs. }
  { done. }
  apply with_norm_fst in Ev, Eg. rewrite Ev, Eg in G1, G2. apply fused_sorted; [|exact G2].
  assert (forall (f : Z -> float) (m : list (Z * item)),
    List.map fst (List.map (fun '(i, _) => (i, f i)) m) = List.map fst m) as E.
  { intros f m. rewrite List.map_map. apply List.map_ext. by intros []. }
  unfold keys_are. rewrite (E (calibrated_score vw gw _)). exact G1.
Qed.

Lemma score_calibrated_nlist_hits (sources : list (list (hit (item := item)) * float)) l :
  score_calibrated_fusion_nlist sources = Ok l -> from_hits (List.concat (List.map fst sources)) l.
Proof.
  unfold score_calibrated_fusion_nlist. destruct (fold_m _ empty_acc _) as [a|] eqn:E; [|done]. cbn [mbind result_bind].
  apply (fold_m_history _ (fun before a => acc_inv (List.concat (List.map fst before)) a) _ []) in E; [| |apply empty_inv].
  - destruct E. by apply fused_sorted.
  - intros before a1 [results w] a2 Ha. destruct (with_norm results) as [xs|] eqn:Ex; [|done].
    cbn [mbind result_bind]. intros [= <-]. rewrite List.map_app, List.concat_app. cbn [List.map fst List.concat].
    apply with_norm_fst in Ex. rewrite app_nil_r, <- Ex. clear Ex.
    apply (foldl_history (calibrated_nlist_step w)
      (fun before' a => acc_inv (List.concat (List.map fst before) ++ List.map fst before') a) xs []);
      [|by rewrite app_nil_r].
    intros before' a2 [[[i s] it] norm] Ha2. rewrite List.map_app, app_assoc.
    eapply (acc_inv_snoc _ (i, s, it)); [exact Ha2|done|done|by right].
Qed.

(** *** The union modes *)

Definition union_hits (limit : option Z) (channels : list (string * list (hit (item := item)))) :=
  List.concat (List.map (fun c => limited limit c.2) channels).

Definition union_inv hs (u : Union (item := item)) : Prop := keys_are hs (u_items u) /\ items_from hs (u_items u).

Lemma union_loop_inv hs name xs u :
  union_inv hs u -> union_inv (hs ++ List.map fst xs) (foldl (union_step name) u (ranked xs)).
Proof.
  intros Hu. rewrite <- (ranked_snd xs) at 1. rewrite List.map_map.
  apply (foldl_history (union_step name) (fun before u => union_inv (hs ++ List.map (fun x => x.2.1) before) u) (ranked xs) []);
    [|by rewrite app_nil_r].
  intros before u1 [rank [[[i s] it] norm]] [H1 H2]. rewrite List.map_app, app_assoc.
  split; [by apply (keys_setdefault_snoc _ (i, s, it))|].
  eapply (items_snoc _ (i, s, it)); [exact H2|]. intros. by apply setdefault_pairs.
Qed.

Lemma union_ranks_inv limit wn channels u :
  _union_channel_ranks channels limit wn = Ok u -> union_inv (union_hits limit channels) u.
Proof.
  intros H. apply (fold_m_history (channel_body limit wn) (fun before u => union_inv (union_hits limit before) u)
    channels [] (MkUnion [] [] [] [])); [| |exact H].
  - clear. intros before u [name results] u' Hu. unfold channel_body. cbv zeta.
    destruct (if wn then _ else _) as [normalized|] eqn:En; [|done]. cbn [mbind result_bind]. intros [= <-].
    apply channel_norms_length in En.
    unfold union_hits. rewrite List.map_app, List.concat_app. cbn [List.map List.concat snd]. rewrite app_nil_r.
    rewrite <- (fst_zip (limited limit results) normalized) at 1 by lia. by apply union_loop_inv.
  - split; [split; [constructor|done]|by intros i it ?%elem_of_nil].
Qed.

Lemma union_results_hits hs key u score ordered fused :
  union_inv hs u -> union_order key u = Ok ordered -> union_results u score ordered = Ok fused -> from_hits hs fused.
Proof.
  intros [[K1 K2] Hi] Ho Hr. pose proof (union_order_perm _ _ _ Ho) as Hp.
  pose proof (union_results_ids _ _ _ _ Hr) as Eids. split_and!.
  - rewrite Eids. by rewrite Hp.
  - intros i. by rewrite Eids, Hp.
  - intros r H. unfold union_results in Hr. apply map_m_ok in Hr.
    apply list_elem_of_lookup in H as [n Hn]. eapply Forall2_lookup_r in Hr as ([pos i] & _ & Hr); [|exact Hn].
    destruct (score pos i); [|done]. cbn [mbind result_bind] in Hr.
    destruct (zget i (u_items u)) as [it|] eqn:E; [|done]. injection Hr as <-. apply zget_pair in E. exact (Hi _ _ E).
Qed.

Lemma union_best_rank_hits uuid_str channels k limit fused :
  union_best_rank_fusion uuid_str channels k limit = Ok fused -> from_hits (union_hits limit channels) fused.
Proof.
  unfold union_best_rank_fusion. destruct (_union_channel_ranks _ _ _) as [u|] eqn:Eu; [|done]. cbn [mbind result_bind].
  destruct (union_order _ u) as [ordered|] eqn:Eo; [|done]. cbn [mbind result_bind].
  apply union_results_hits with (key := best_rank_key uuid_str u (priority channels)); [|done].
  by eapply union_ranks_inv.
Qed.

Lemma union_mnz_hits uuid_str channels weights k limit fused :
  union_mnz_fusion uuid_str channels weights k limit = Ok fused -> from_hits (union_hits limit channels) fused.
Proof.
  unfold union_mnz_fusion. destruct (_union_channel_ranks _ _ _) as [u|] eqn:Eu; [|done]. cbn [mbind result_bind].
  destruct (map_m _ (u_ranks u)) as [mnz|]; [|done]. cbn [mbind result_bind].
  destruct (union_order _ u) as [ordered|] eqn:Eo; [|done]. cbn [mbind result_bind].
  apply union_results_hits with (key := mnz_key uuid_str u mnz (priority channels)); [|done].
  by eapply union_ranks_inv.
Qed.
End fusers.

(** ** The generic front of [query/fusion.py] *)

Section query_facts.
Context {item K : Type} `{EqDecision K} (key : item -> K).
Implicit Types (hs : list (hit (item := item))) (ids : list (K * Z)).

(** The ids given to the keys of the items seen, and the hits they became. *)
Definition converted ids (items : list (Z * item)) (src : list item) hs : Prop :=
  (forall k u, zget k ids = Some u -> 0 <= u < len ids)
  /\ (forall k1 k2 u, zget k1 ids = Some u -> zget k2 ids = Some u -> k1 = k2)
  /\ (forall u it, (u, it) ∈ items -> zget (key it) ids = Some u /\ it ∈ src)
  /\ (forall h, h ∈ hs -> zget (key h.2) ids = Some (hit_id h))
  /\ List.map snd hs = src.

Lemma fresh_id_spec k ids u ids' :
  (forall k u, zget k ids = Some u -> 0 <= u < len ids) ->
  (forall k1 k2 u, zget k1 ids = Some u -> zget k2 ids = Some u -> k1 = k2) ->
  fresh_id k ids = (u, ids') ->
  zget k ids' = Some u /\ (forall k' u', zget k' ids = Some u' -> zget k' ids' = Some u')
  /\ (forall k u, zget k ids' = Some u -> 0 <= u < len ids')
  /\ (forall k1 k2 u, zget k1 ids' = Some u -> zget k2 ids' = Some u -> k1 = k2).
Proof.
  intros H1 H2. unfold fresh_id. destruct (zget k ids) as [v|] eqn:E; intros [= <- <-]; [done|].
  assert (forall k' u', zget k' (ids ++ [(k, len ids)]) = Some u' <->
            zget k' ids = Some u' \/ (k' = k /\ u' = len ids)) as Hz.
  { intros k' u'. rewrite zget_app. simpl. destruct (zget k' ids) as [w|] eqn:E'.
    - split; [by left|intros [?|[-> _]]; [done|congruence]].
    - destruct (decide (k' = k)) as [->|]; naive_solver. }
  assert (len (ids ++ [(k, len ids)]) = len ids + 1) as Hl by (rewrite len_app; done).
  split_and!.
  - apply Hz. by right.
  - intros k' u' H. apply Hz. by left.
  - intros k' u' [H|[_ ->]]%Hz; rewrite Hl; [specialize (H1 _ _ H); lia|unfold len; lia].
  - intros k1 k2 u' [A|[-> ->]]%Hz [B|[-> HB]]%Hz.
    + by eapply H2.
    + subst u'. specialize (H1 _ _ A). lia.
    + specialize (H1 _ _ B). lia.
    + done.
Qed.

Lemma convert_source_inv ids items src hs source ids' items' out :
  converted ids items src hs -> convert_source key (ids, items) source = ((ids', items'), out) ->
  converted ids' items' (src ++ List.map fst source) (hs ++ out).
Proof.
  intros Hc E. unfold convert_source in E.
  match type of E with foldl ?g _ _ = _ => set (f := g) in E end.
  pose proof (foldl_history f (fun before '((ids, items), out) =>
    converted ids items (src ++ List.map fst before) (hs ++ out)) source [] ((ids, items), [])) as H.
  rewrite E in H. apply H; [|by rewrite !app_nil_r]. clear. 
  intros before [[ids items] out] [it s] (C1 & C2 & C3 & C4 & C5). unfold f.
  destruct (fresh_id (key it) ids) as [u ids'] eqn:E.
  destruct (fresh_id_spec _ _ _ _ C1 C2 E) as (F1 & F2 & F3 & F4).
  rewrite List.map_app, !app_assoc. split_and!; [exact F3|exact F4| | |].
  - intros u' it' [[= -> ->]|H]%zset_pairs.
    + split; [done|]. apply elem_of_app. right. left.
    + destruct (C3 _ _ H) as [H1 H2]. split; [auto|]. apply elem_of_app. by left.
  - intros h [H| ->%list_elem_of_singleton]%elem_of_app; [auto|done].
  - etransitivity; [exact (List.map_app _ _ _)|exact (f_equal (fun l => l ++ [it]) C5)].
Qed.

Lemma convert_sources_inv (sources : list (string * list (item * float))) ids items outs :
  convert_sources key sources = ((ids, items), outs) ->
  converted ids items (List.map fst (List.concat (List.map snd sources))) (List.concat outs).
Proof.
  intros E. unfold convert_sources in E.
  match type of E with foldl ?g _ _ = _ => set (f := g) in E end.
  pose proof (foldl_history f (fun before '((ids, items), outs) =>
    converted ids items (List.map fst (List.concat (List.map snd before))) (List.concat outs)) sources [] (([], []), [])) as H.
  rewrite E in H. apply H.
  - clear. intros before [[ids items] outs] [name source] Hc. unfold f.
    destruct (convert_source key (ids, items) source) as [[ids' items'] out] eqn:E.
    rewrite List.map_app, !List.concat_app, List.map_app. cbn [List.map List.concat snd]. rewrite !app_nil_r.
    by eapply convert_source_inv.
  - split_and!; [done|done|by intros u it ?%elem_of_nil|by intros h ?%elem_of_nil|done].
Qed.

Lemma convert_sources_length (sources : list (string * list (item * float))) st outs :
  convert_sources key sources = (st, outs) -> length outs = length sources.
Proof.
  intros E. unfold convert_sources in E. match type of E with foldl ?g _ _ = _ => set (f := g) in E end.
  pose proof (foldl_history f (fun before s => length s.2 = length before) sources [] (([], []), [])) as H.
  rewrite E in H. apply H; [|done]. clear. intros before [[ids items] outs] [name source] Hl. unfold f.
  destruct (convert_source _ _ _) as [st out]. simpl in *. rewrite !length_app. simpl. lia.
Qed.

Lemma concat_filter_nil (sources : list (string * list (item * float))) :
  List.concat (List.map snd (List.filter (fun '(_, l) => match l with [] => false | _ => true end) sources))
  = List.concat (List.map snd sources).
Proof.
  induction sources as [|[n l] sources IH]; simpl; [done|]. destruct l; simpl; [done|by rewrite IH].
Qed.

(** Each key of the sources once, whatever the weights. *)
Lemma query_rrf_items (sources : list (string * list (item * float))) k weights out :
  query_reciprocal_rank_fusion sources k weights key = Ok out ->
  NoDup (List.map (fun p => key p.1) out)
  /\ forall x, x ∈ List.map (fun p => key p.1) out <->
       x ∈ List.map (fun p => key p.1) (List.concat (List.map snd sources)).
Proof.
  unfold query_reciprocal_rank_fusion. cbv zeta. rewrite <- (concat_filter_nil sources).
  set (live := List.filter _ sources). destruct live as [|s0 rest] eqn:El; [intros [= <-]; split; [constructor|done]|]. rewrite <- El.
  clearbody live. clear El. destruct (query_normalized_weights _ _) as [nw|]; [|done]. cbn [mbind result_bind].
  destruct (convert_sources key live) as [[ids items] outs] eqn:Ec.
  pose proof (convert_sources_length _ _ _ Ec) as Hlen. apply convert_sources_inv in Ec.
  destruct Ec as (C1 & C2 & C3 & C4 & C5).
  destruct (weighted_rrf_nlist _ _) as [fused|] eqn:Ew; [|done]. cbn [mbind result_bind].
  assert (List.concat (List.map fst (zip outs (List.map (fun '(s, _) => weight_of nw s) live))) = List.concat outs) as Ez.
  { rewrite fst_zip; [done|]. rewrite length_map. lia. }
  apply nlist_hits in Ew. rewrite Ez in Ew. destruct Ew as (W1 & W2 & _). intros Ho. apply map_m_ok in Ho.
  assert (List.map (fun p => zget (key p.1) ids) out = List.map Some (List.map item_id fused)
          /\ forall p, p ∈ out -> p.1 ∈ List.map fst (List.concat (List.map snd live))) as [Em Hsrc].
  { clear W1 W2. induction Ho as [|r [it s] fused out H _ [IH1 IH2]]; simpl; [split; [done|by intros p ?%elem_of_nil]|].
    destruct (zget (item_id r) items) as [it'|] eqn:E; [|done]. injection H as -> _.
    apply zget_pair, C3 in E as [E1 E2]. rewrite E1, IH1. split; [done|].
    intros p [->|Hp]%elem_of_cons; auto. }
  split.
  - apply NoDup_ListNoDup, (List.NoDup_map_inv (fun k => zget k ids)), NoDup_ListNoDup.
    rewrite List.map_map, Em. by apply (NoDup_fmap_2 Some).
  - intros x. split.
    + intros Hx. apply list_elem_of_In, in_map_iff in Hx as (p & <- & Hp%list_elem_of_In%Hsrc).
      rewrite <- (List.map_map fst key). by apply list_elem_of_In, in_map, list_elem_of_In.
    + intros Hx. rewrite <- (List.map_map fst key) in Hx. rewrite <- C5, List.map_map in Hx.
      apply list_elem_of_In, in_map_iff in Hx as (h & <- & Hh%list_elem_of_In).
      assert (hit_id h ∈ List.map item_id fused) as Hf by (apply W2, list_elem_of_In, in_map, list_elem_of_In, Hh).
      assert (Some (hit_id h) ∈ List.map (fun p => zget (key p.1) ids) out) as Ho'.
      { rewrite Em. by apply list_elem_of_In, in_map, list_elem_of_In. }
      apply list_elem_of_In, in_map_iff in Ho' as (p & Hp & Hin).
      rewrite <- (C2 _ _ _ Hp (C4 h Hh)). by apply list_elem_of_In, (in_map (fun p => key p.1)).
Qed.
End query_facts.

(** ** [_fuse_results] *)

(** Each hit is filed under the id of its chunk. *)
Definition coherent (hs : list chunk_hit) : Prop := forall h, h ∈ hs -> chunk_id (hit_item h) = hit_id h.

(** The ids of the results, each once, each its chunk's, all among [allowed] and comprising [required]. *)
Definition sound_fusion (allowed required : Z -> Prop) (fused : list chunk_result) : Prop :=
  NoDup (List.map item_id fused)
  /\ (forall r, r ∈ fused -> chunk_id (fr_item r) = item_id r /\ allowed (item_id r))
  /\ (forall i, required i -> i ∈ List.map item_id fused).

Lemma from_hits_sound hs (allowed required : Z -> Prop) (fused : list chunk_result) :
  coherent hs -> from_hits hs fused ->
  (forall i, i ∈ List.map hit_id hs -> allowed i) -> (forall i, required i -> i ∈ List.map hit_id hs) ->
  sound_fusion allowed required fused.
Proof.
  intros Hc (H1 & H2 & H3) Ha Hr. split_and!; [done| |].
  - intros r Hin. split.
    + destruct (H3 r Hin) as [s Hs]. exact (Hc _ Hs).
    + apply Ha, H2. by apply list_elem_of_In, in_map, list_elem_of_In.
  - intros i Hi. by apply H2, Hr.
Qed.

Lemma sound_filter (ids : list Z) (allowed required : Z -> Prop) (fused : list chunk_result) :
  sound_fusion allowed required fused ->
  sound_fusion (fun i => allowed i /\ i ∈ ids) (fun i => required i /\ i ∈ ids)
    (List.filter (fun r => bool_decide (item_id r ∈ ids)) fused).
Proof.
  intros (H1 & H2 & H3). split_and!.
  - eapply sublist_NoDup; [exact H1|]. apply (fmap_sublist item_id), filter_sublist.
  - intros r [Hr Hp%bool_decide_eq_true]%elem_of_filter_bool. destruct (H2 r Hr). done.
  - intros i [Hi Hp]. apply H3, list_elem_of_In, in_map_iff in Hi as (r & <- & Hr).
    apply list_elem_of_In, in_map, filter_In. split; [done|]. by apply bool_decide_eq_true.
Qed.

Lemma sound_mono (allowed allowed' required required' : Z -> Prop) fused :
  (forall i, allowed i -> allowed' i) -> (forall i, required' i -> required i) ->
  sound_fusion allowed required fused -> sound_fusion allowed' required' fused.
Proof. intros Ha Hr (H1 & H2 & H3). split_and!; [done| |by intros i ?%Hr%H3]. intros r [? ?%Ha]%H2. done. Qed.

Lemma limited_incl limit (l : list chunk_hit) h : h ∈ limited limit l -> h ∈ l.
Proof.
  unfold limited, slice. destruct limit as [n|]; [|done].
  intros (i & Hi & _)%elem_of_take. rewrite lookup_drop in Hi. by apply list_elem_of_lookup_2 in Hi.
Qed.

Section fuse_facts.
Context (v g : list chunk_hit) (b : option (list chunk_hit)).
Context (Hv : coherent v) (Hg : coherent g) (Hb : coherent (default [] b)).

Lemma union_channels_elem cfg name l :
  (name, l) ∈ union_channels cfg v g b ->
  name ∈ rc_union_rank_channels cfg
  /\ dict_get name [("vector", v); ("graph", g); ("bm25", default [] b)]%string = Some l.
Proof.
  unfold union_channels. cbv zeta. intros (n & Hn & E)%list_elem_of_omap.
  destruct (dict_get n _) as [[|h hs]|] eqn:Ed; [done| |done]. by injection E as <- <-.
Qed.

Lemma union_hits_incl cfg h : h ∈ union_hits (union_rank_per_channel_limit cfg) (union_channels cfg v g b) ->
  h ∈ v \/ h ∈ g \/ h ∈ default [] b.
Proof.
  unfold union_hits. intros (l & Hl & Hh)%list_elem_of_In%in_concat. apply list_elem_of_In in Hh.
  apply in_map_iff in Hl as ([name l'] & <- & Hl). apply limited_incl in Hh.
  apply list_elem_of_In, union_channels_elem in Hl as [_ Hl]. cbn [dict_get snd] in *.
  repeat (destruct (String.eqb _ _); [injection Hl as <-; auto|]). done.
Qed.

(** The ids the channels hold: the lexical ones only when they are not excluded. *)
Definition channel_ids (exclude : bool) (i : Z) : Prop :=
  i ∈ non_lexical_ids v g \/ (exclude = false /\ i ∈ List.map hit_id (default [] b)).

Lemma fuse_union_sound uuid_str cfg vw gw mode exclude fused :
  fuse_union uuid_str cfg vw gw mode exclude v g b = Ok fused -> sound_fusion (channel_ids exclude) (fun _ => False) fused.
Proof.
  unfold fuse_union. cbv zeta. destruct (if String.eqb mode _ then _ else _) as [f|] eqn:Ef; [|done].
  cbn [mbind result_bind]. intros [= <-].
  assert (from_hits (union_hits (union_rank_per_channel_limit cfg) (union_channels cfg v g b)) f) as Hf.
  { destruct (String.eqb mode _); [by eapply union_mnz_hits|by eapply union_best_rank_hits]. }
  assert (sound_fusion (channel_ids false) (fun _ => False) f) as Hs.
  { eapply from_hits_sound; [|exact Hf| |done].
    - intros h [?|[?|?]]%union_hits_incl; auto.
    - intros i Hi. apply list_elem_of_In, in_map_iff in Hi as (h & <- & Hh%list_elem_of_In%union_hits_incl).
      unfold channel_ids, non_lexical_ids. rewrite elem_of_app, !list_elem_of_In.
      destruct Hh as [?|[?|?]]; [left; left|left; right|right; split; [done|]]; by apply in_map, list_elem_of_In. }
  destruct exclude; [|exact Hs]. eapply sound_mono; [| |apply (sound_filter (non_lexical_ids v g)), Hs]; [|by intros i ?].
  intros i [_ Hi]. by left.
Qed.

(** What the three-channel branch makes of the fused pairs. *)
Lemma pairs_sound (raw : list (Chunk * float)) exclude vr gr vs gs :
  NoDup (List.map (fun p => chunk_id p.1) raw) ->
  (forall x, x ∈ List.map (fun p => chunk_id p.1) raw <-> x ∈ non_lexical_ids v g \/ x ∈ List.map hit_id (default [] b)) ->
  sound_fusion (channel_ids exclude) (channel_ids exclude)
    (List.map (fun '(c, score) =>
        MkFusedResult (chunk_id c) c score (zget (chunk_id c) vr) (zget (chunk_id c) gr)
          (zget (chunk_id c) vs) (zget (chunk_id c) gs) None None)
      (if exclude then List.filter (fun '(c, _) => bool_decide (chunk_id c ∈ non_lexical_ids v g)) raw else raw)).
Proof.
  intros Hn Hin. set (mk := fun p : Chunk * float => _).
  assert (sound_fusion (channel_ids false) (channel_ids false) (List.map mk raw)) as Hs.
  { assert (List.map item_id (List.map mk raw) = List.map (fun p => chunk_id p.1) raw) as Eids.
    { rewrite List.map_map. apply List.map_ext. by intros []. }
    split_and!; [by rewrite Eids| |].
    - intros r Hr. apply list_elem_of_In, in_map_iff in Hr as ([c s] & <- & Hr). split; [done|].
      assert (chunk_id c ∈ List.map (fun p => chunk_id p.1) raw) as [?|?]%Hin.
      { apply list_elem_of_In, (in_map (fun p => chunk_id p.1) raw (c, s) Hr). }
      + by left.
      + by right.
    - intros i Hi. rewrite Eids. apply Hin. destruct Hi as [?|[_ ?]]; [by left|by right]. }
  destruct exclude; [|exact Hs].
  apply (sound_filter (non_lexical_ids v g)) in Hs.
  assert (List.map mk (List.filter (fun '(c, _) => bool_decide (chunk_id c ∈ non_lexical_ids v g)) raw)
    = List.filter (fun r => bool_decide (item_id r ∈ non_lexical_ids v g)) (List.map mk raw)) as ->.
  { clear. induction raw as [|[c s] raw IH]; simpl; [done|]. destruct (bool_decide _); simpl; by rewrite IH. }
  eapply sound_mono; [| |exact Hs]; unfold channel_ids; naive_solver.
Qed.

Lemma three_ids (l : list chunk_hit) : coherent l -> List.map (fun h => chunk_id (hit_item h)) l = List.map hit_id l.
Proof. intros H. apply List.map_ext_in. intros h Hh. apply H. by apply list_elem_of_In. Qed.

Lemma fuse_three_sound cfg vw gw calibrated exclude bm25 fused :
  b = Some bm25 -> fuse_three cfg vw gw calibrated exclude v g bm25 = Ok fused ->
  sound_fusion (channel_ids exclude) (channel_ids exclude) fused.
Proof.
  intros Eb. unfold fuse_three. cbv zeta.
  destruct (if calibrated then _ else _) as [raw|] eqn:Er; [|done]. cbn [mbind result_bind].
  intros H. injection H as <-.
  assert (List.map hit_id (default [] b) = List.map hit_id bm25) as Ebm by by rewrite Eb.
  assert (coherent bm25) as Hbm by (by rewrite Eb in Hb).
  assert (forall i, i ∈ List.map hit_id (v ++ g ++ bm25) <-> i ∈ non_lexical_ids v g \/ i ∈ List.map hit_id (default [] b)) as Hall.
  { intros i. rewrite Ebm. unfold non_lexical_ids. rewrite !List.map_app, !elem_of_app. tauto. }
  destruct calibrated.
  - destruct (score_calibrated_fusion_nlist _) as [f|] eqn:E; [|done]. injection Er as <-.
    apply score_calibrated_nlist_hits in E. cbn [List.map fst List.concat] in E. rewrite app_nil_r in E.
    destruct E as (H1 & H2 & H3).
    assert (List.map (fun p => chunk_id p.1) (List.map (fun r : chunk_result => (fr_item r, rrf_score r)) f)
      = List.map item_id f) as Eids.
    { rewrite List.map_map. apply List.map_ext_in. intros r Hr. apply list_elem_of_In, H3 in Hr as [s Hs].
      apply elem_of_app in Hs as [Hs|[Hs|Hs]%elem_of_app]; [exact (Hv _ Hs)|exact (Hg _ Hs)|exact (Hbm _ Hs)]. }
    apply pairs_sound; rewrite Eids; [exact H1|]. intros x. by rewrite H2, Hall.
  - apply query_rrf_items in Er as [H1 H2]. apply pairs_sound; [exact H1|]. intros x. rewrite H2, <- Hall.
    assert (forall (n : string) (l : list chunk_hit) (rest : list (list (Chunk * float))),
      List.concat (List.map snd (match l with [] => [] | _ => [(n, List.map (fun h => (hit_item h, hit_score h)) l)] end) ++ rest)
      = List.map (fun h => (hit_item h, hit_score h)) l ++ List.concat rest) as Hl.
    { intros n [|h l] rest; simpl; by rewrite ?app_nil_r. }
    rewrite (List.map_app snd), Hl, (List.map_app snd), Hl. cbn [List.map List.concat snd].
    rewrite app_nil_r, <- !List.map_app, List.map_map. cbn [fst].
    rewrite three_ids; [done|]. intros h [?|[?|?]%elem_of_app]%elem_of_app; auto.
Qed.

End fuse_facts.

Section dispatch.
Context (v g : list chunk_hit) (b : option (list chunk_hit)).

(** The vector hits with their raw cosines, as the calibrated mode takes them. *)
Definition recalibrated (raw : option (list (Z * float))) (calibrated : bool) : list chunk_hit :=
  match raw with
  | Some ((_ :: _) as raw) =>
      if calibrated then List.map (fun '(i, score, c) => (i, default score (zget i raw), c)) v else v
  | _ => v
  end.

Lemma recalibrated_ids raw calibrated :
  List.map hit_id (recalibrated raw calibrated) = List.map hit_id v
  /\ (coherent v -> coherent (recalibrated raw calibrated)).
Proof.
  unfold recalibrated. destruct raw as [[|x raw]|]; try done. destruct calibrated; [|done]. split.
  - rewrite List.map_map. apply List.map_ext. by intros [[i s] c].
  - intros H h Hh. apply list_elem_of_In, in_map_iff in Hh as ([[i s] c] & <- & Hh%list_elem_of_In). exact (H _ Hh).
Qed.

Lemma two_channels_sound (bm : option (list chunk_hit)) (v' : list chunk_hit) exclude fused :
  List.map hit_id v' = List.map hit_id v -> coherent v' -> coherent g -> default [] bm = [] ->
  from_hits (v' ++ g) fused -> sound_fusion (channel_ids v g bm exclude) (channel_ids v g bm exclude) fused.
Proof.
  intros Hids Hv Hg Hb Hf.
  assert (forall i, i ∈ List.map hit_id (v' ++ g) <-> channel_ids v g bm exclude i) as Hi.
  { intros i. unfold channel_ids, non_lexical_ids. rewrite Hb, List.map_app, Hids. split; [by left|].
    intros [?|[_ ?%elem_of_nil]]; done. }
  eapply from_hits_sound; [|exact Hf|by intros i ?%Hi|by intros i ?%Hi].
  intros h [?|?]%elem_of_app; auto.
Qed.

Lemma fusion_sound uuid_str cfg norm routing temporal exclude mode raw fused :
  coherent v -> coherent g -> coherent (default [] b) ->
  _fuse_results uuid_str cfg v g b norm routing temporal exclude mode raw = Ok fused ->
  sound_fusion (channel_ids v g b exclude)
    (fun i => mem_str mode _UNION_FUSION_MODES = false /\ channel_ids v g b exclude i) fused.
Proof.
  intros Hv Hg Hb. unfold _fuse_results. destruct (fusion_weights _ _ _ _) as [vw gw]. cbv zeta.
  change (match raw with Some ((_ :: _) as raw) => _ | _ => v end) with (recalibrated raw (String.eqb mode "calibrated")).
  destruct (recalibrated_ids raw (String.eqb mode "calibrated")) as [Rids Rc]. specialize (Rc Hv).
  set (v' := recalibrated _ _) in *.
  assert (forall i, channel_ids v' g b exclude i <-> channel_ids v g b exclude i) as Hi.
  { intros i. unfold channel_ids, non_lexical_ids. by rewrite Rids. }
  destruct (mem_str mode _).
  - intros H. eapply (sound_mono (channel_ids v' g b exclude)); [| |by eapply fuse_union_sound]; [by intros i ?%Hi|].
    by intros i [? _].
  - intros H. apply (sound_mono (channel_ids v g b exclude) _ (channel_ids v g b exclude)); [done|by intros i [_ ?]|].
    destruct b as [[|h bm25]|] eqn:Eb.
    2: { apply (sound_mono (channel_ids v' g (Some (h :: bm25)) exclude) _ (channel_ids v' g (Some (h :: bm25)) exclude));
           [by intros i ?%Hi|by intros i ?%Hi|]. by eapply fuse_three_sound. }
    all: apply (two_channels_sound _ v'); try done; destruct (String.eqb _ _);
      [by eapply score_calibrated_hits|destruct norm; [by eapply weighted_rrf_normalized_hits|by eapply weighted_rrf_hits]].
Qed.

(** The fusion of the channels neither repeats, loses nor invents a chunk.  In every
    fusion mode each id of the result appears once, belongs to the chunk it comes with, and
    was returned by a channel; when the lexical channel's own hits are excluded it was
    returned by the vector or the graph channel.  Outside the union modes the result holds
    every id of the channels that is not excluded. *)
Theorem fusion_keeps_channels uuid_str cfg norm routing temporal exclude mode raw fused :
  coherent v -> coherent g -> coherent (default [] b) ->
  _fuse_results uuid_str cfg v g b norm routing temporal exclude mode raw = Ok fused ->
  sound_fusion (channel_ids v g b exclude)
    (fun i => mem_str mode _UNION_FUSION_MODES = false /\ channel_ids v g b exclude i) fused.
Proof. apply fusion_sound. Qed.
End dispatch.
