(* ===== verification/ScoringFacts.v ===== *)
(** * Facts about the scoring pipeline

    After the fusion the pipeline only rescores and reorders; each channel's head reaches
    the cross-encoder in the union modes. *)
From Stdlib Require Import SpecFloat.
From S2P Require Import Prelude PyValue FilterPython PyText RankFusion RankFusionFacts Scoring FuseFacts.

Local Open Scope Z_scope.

(** ** Lists of results up to scores and order *)

Section same.
Context {item : Type}.
Implicit Types (r : FusedResult (item := item)) (l : list (FusedResult (item := item))).

Definition unscored r : FusedResult := set_score r f0.

(** The same results, whatever their scores and their order. *)
Definition same_results l l' : Prop := List.map unscored l ≡ₚ List.map unscored l'.

#[export] Instance same_results_equiv : Equivalence same_results.
Proof. unfold same_results. split; red; intros; [done|by symmetry|by etransitivity]. Qed.

#[export] Instance perm_same : subrelation Permutation same_results.
Proof. intros l l' H. unfold same_results. by apply Permutation_map. Qed.

Lemma unscored_set r x : unscored (set_score r x) = unscored r.
Proof. done. Qed.

Lemma unscored_id r : item_id (unscored r) = item_id r.
Proof. done. Qed.

Lemma same_map l l' : List.map unscored l = List.map unscored l' -> same_results l l'.
Proof. unfold same_results. by intros ->. Qed.

(** A step that rescores each result in place. *)
Lemma same_rescored (f : FusedResult -> FusedResult) l :
  (forall r, r ∈ l -> unscored (f r) = unscored r) -> same_results (List.map f l) l.
Proof.
  intros H. apply same_map. rewrite List.map_map. apply List.map_ext_in. intros r Hr. apply H.
  by apply list_elem_of_In.
Qed.

Lemma same_map_m (f : FusedResult -> result FusedResult) l l' :
  (forall r r', f r = Ok r' -> unscored r' = unscored r) -> map_m f l = Ok l' -> same_results l' l.
Proof.
  intros Hf H. apply map_m_ok in H. apply same_map. induction H; simpl; [done|]. f_equal; auto.
Qed.

Lemma same_app l1 l1' l2 l2' : same_results l1 l1' -> same_results l2 l2' -> same_results (l1 ++ l2) (l1' ++ l2').
Proof. unfold same_results. rewrite !List.map_app. by intros -> ->. Qed.

Lemma same_ids l l' : same_results l l' -> List.map item_id l ≡ₚ List.map item_id l'.
Proof.
  intros H. apply (Permutation_map item_id) in H. rewrite !List.map_map in H. exact H.
Qed.

Lemma same_length l l' : same_results l l' -> len l = len l'.
Proof. intros H%Permutation_length. rewrite !length_map in H. unfold len. by rewrite H. Qed.

Lemma same_elem l l' r : same_results l l' -> r ∈ l -> exists r', r' ∈ l' /\ unscored r' = unscored r.
Proof.
  intros H Hr. assert (unscored r ∈ List.map unscored l') as Hin.
  { unfold same_results in H. rewrite <- H. by apply list_elem_of_In, in_map, list_elem_of_In. }
  apply list_elem_of_In, in_map_iff in Hin as (r' & ? & Hr'). exists r'. by rewrite list_elem_of_In.
Qed.

Lemma recency_same fpow l scores w floor :
  same_results (apply_recency_boost fpow l scores w floor) l.
Proof. unfold apply_recency_boost. rewrite sort_desc_perm. by apply same_rescored. Qed.

Lemma normalize_same l l' : normalize_scores l = Ok l' -> same_results l' l.
Proof.
  unfold normalize_scores. destruct l as [|r rest]; [by intros [= <-]|]. cbv zeta.
  destruct (feq _ _).
  - intros H. injection H as <-. exact (same_rescored (fun r => set_score r f1) (r :: rest) (fun _ _ => eq_refl)).
  - apply same_map_m. intros r1 r2. destruct (fdiv _ _); [|done]. by intros [= <-].
Qed.

Lemma coherence_same words l w l' : apply_coherence_boost words l w = Ok l' -> same_results l' l.
Proof.
  unfold apply_coherence_boost. destruct (map_m _ l) as [b|] eqn:E; [|done]. intros [= <-].
  rewrite sort_desc_perm. eapply same_map_m; [|exact E]. intros r1 r2. simpl.
  destruct (bigram_coherence_score _); [|done]. by intros [= <-].
Qed.

Lemma relevance_same embedding cosine l raw q :
  same_results (attach_relevance_scores embedding cosine l raw q) l.
Proof.
  unfold attach_relevance_scores. cbv zeta.
  match goal with |- context [set_relevance ?s] => generalize s end. intros sims. apply same_map.
  assert (forall decided idx, length decided = length l ->
    List.map unscored (set_relevance sims idx (zip l decided)) = List.map unscored l) as H; [|apply H, length_map].
  induction l as [|r l IH]; intros [|d decided] idx Hl; try done. simpl in Hl.
  destruct d; simpl; f_equal; apply IH; lia.
Qed.

(** Results of a list without repeats are told apart by their ids. *)
Lemma same_id_same l r r' : NoDup (List.map item_id l) -> r ∈ l -> r' ∈ l -> item_id r = item_id r' -> r = r'.
Proof.
  induction l as [|x l IH]; [by intros ? ?%elem_of_nil|]. simpl. intros [Hx Hn]%NoDup_cons Hr Hr' He.
  assert (forall y, y ∈ l -> item_id y ∈ List.map item_id l) as Hm.
  { intros y Hy. by apply list_elem_of_In, in_map, list_elem_of_In. }
  apply elem_of_cons in Hr as [->|Hr], Hr' as [->|Hr']; auto.
  - destruct Hx. rewrite He. auto.
  - destruct Hx. rewrite <- He. auto.
Qed.
End same.

(** ** Sorting, batching and selecting *)

Lemma sort_scores_perm {A} (l : list (A * float)) : sort_scores l ≡ₚ l.
Proof.
  induction l as [|x l IH]; simpl; [done|]. rewrite <- IH at 2. generalize (sort_scores l). clear.
  induction l as [|y l IH]; simpl; [done|]. destruct (flt _ _); [|done]. rewrite IH. apply Permutation_swap.
Qed.

Lemma batches_concat fuel {A} (l : list A) : (length l <= fuel)%nat -> List.concat (batches_of fuel l) = l.
Proof.
  revert l. induction fuel as [|fuel IH]; intros [|x l] H; try done; [simpl in H; lia|].
  cbn [batches_of List.concat]. rewrite IH; [apply take_drop|]. rewrite length_drop. simpl in *. lia.
Qed.

Lemma omap_lookup_seq {A} (l : list A) (p : nat -> bool) (k : nat) (l' : list A) :
  drop k l = l' ->
  omap (fun '((i, x) : nat * A) => if p i then Some x else None) (imap (fun i x => ((k + i)%nat, x)) l')
  = omap (fun i => l !! i) (List.filter p (seq k (length l'))).
Proof.
  revert k. induction l' as [|x l' IH]; intros k H; [done|].
  assert (l !! k = Some x) as Hk by (rewrite <- (Nat.add_0_r k), <- lookup_drop, H; done).
  assert (drop (S k) l = l') as Hd by (rewrite <- Nat.add_1_r, <- drop_drop, H; by destruct l').
  specialize (IH (S k) Hd).
  assert (imap ((fun i x => ((k + i)%nat, x)) ∘ S) l' = imap (fun i x => ((S k + i)%nat, x)) l') as Hi.
  { apply imap_ext. intros i y _. simpl. by rewrite Nat.add_succ_r. }
  rewrite imap_cons, Hi. cbn [omap list_omap seq length List.filter]. rewrite Nat.add_0_r.
  destruct (p k); cbn [omap list_omap]; [rewrite Hk; f_equal|]; exact IH.
Qed.

Lemma selected_first_perm {A} (l : list A) selected :
  NoDup selected -> Forall (fun i => (i < length l)%nat) selected -> selected_first l selected ≡ₚ l.
Proof.
  intros Hn Hb. unfold selected_first.
  set (p := fun i => negb (bool_decide (i ∈ selected))).
  assert (forall q, omap (fun '((i, x) : nat * A) => if (q : nat -> bool) i then Some x else None) (imap pair l)
          = omap (fun i => l !! i) (List.filter q (seq 0 (length l)))) as Hq.
  { intros q. exact (omap_lookup_seq l q 0 l eq_refl). }
  assert (omap (fun '(i, x) => if bool_decide (i ∈ selected) then None else Some x) (imap pair l)
          = omap (fun i => l !! i) (List.filter p (seq 0 (length l)))) as ->.
  { rewrite <- Hq. generalize (imap pair l). intros m. induction m as [|[j x] m IH]; csimpl; [done|].
    unfold p at 1. destruct (bool_decide _); simpl; by rewrite IH. }
  assert (l = omap (fun i => l !! i) (seq 0 (length l))) as El.
  { transitivity (omap (fun i => l !! i) (List.filter (fun _ => true) (seq 0 (length l)))).
    - rewrite <- Hq. rewrite <- (imap_snd id l) at 1. change (fun i x => (id i, x)) with (@pair nat A).
      generalize (imap pair l). intros m. induction m as [|[j x] m IH]; csimpl; [done|by rewrite <- IH].
    - f_equal. generalize (seq 0 (length l)). intros m. induction m as [|x m IH]; simpl; [done|by rewrite IH]. }
  transitivity (omap (fun i => l !! i) (seq 0 (length l))); [|by rewrite <- El]. rewrite <- omap_app. apply omap_Permutation, NoDup_Permutation.
  - apply NoDup_app. split_and!; [done| |apply NoDup_filter_bool, NoDup_ListNoDup, List.seq_NoDup].
    intros i Hi [_ Hp]%elem_of_filter_bool. unfold p in Hp. by rewrite bool_decide_true in Hp.
  - apply NoDup_ListNoDup, List.seq_NoDup.
  - intros i. rewrite elem_of_app, elem_of_filter_bool, elem_of_seq. rewrite Forall_forall in Hb.
    unfold p. destruct (decide (i ∈ selected)) as [H|H].
    + specialize (Hb i H). split; [lia|by left].
    + rewrite bool_decide_false by done. naive_solver lia.
Qed.

(** ** The diversity selection *)

Section mmr_facts.
Context (dots : nat -> list float).
Implicit Types rows : list (bool * float * float).

Definition avail rows (i : nat) : Prop := exists s m, rows !! i = Some (true, s, m).

Lemma best_mmr_spec lambda any k rows best i x :
  best_mmr lambda any k rows best = Some (i, x) ->
  best = Some (i, x) \/ exists j, i = (k + j)%nat /\ avail rows j.
Proof.
  revert k best. induction rows as [|[[av s] m] rows IH]; intros k best; cbn [best_mmr]; [by left|].
  intros [H|(j & -> & Hj)]%IH.
  - destruct av; [|by left]. destruct (flt _ _) eqn:E.
    + injection H as <- _. right. exists 0%nat. rewrite Nat.add_0_r. split; [done|by exists s, m].
    + by left.
  - right. exists (S j). split; [lia|]. destruct Hj as (s' & m' & Hj). by exists s', m'.
Qed.

Lemma take_row_lookup chosen k sims rows j :
  avail (take_row chosen k sims rows) j <-> avail rows j /\ (k + j)%nat <> chosen.
Proof.
  unfold avail. revert k j. induction rows as [|[[av s] m] rows IH]; intros k [|j]; cbn [take_row lookup list_lookup].
  1, 2: split; [intros (? & ? & ?); done|intros [(? & ? & ?) _]; done].
  - rewrite Nat.add_0_r. destruct (Nat.eqb_spec k chosen) as [->|Hne], av; simpl; split;
      try (intros (s' & m' & H); first [discriminate|split; eauto]);
      intros [(s' & m' & H) H']; first [discriminate|done|eauto].
  - rewrite IH. by rewrite Nat.add_succ_r.
Qed.

Lemma take_row_length chosen k sims rows : length (take_row chosen k sims rows) = length rows.
Proof. revert k. induction rows as [|[[av s] m] rows IH]; intros k; simpl; [done|]. by rewrite IH. Qed.

Lemma mmr_loop_spec lambda k rows selected :
  NoDup selected -> (forall i, avail rows i -> i ∉ selected) -> Forall (fun i => (i < length rows)%nat) selected ->
  let out := mmr_loop dots lambda k rows selected in
  NoDup out /\ Forall (fun i => (i < length rows)%nat) out /\ (length out <= k + length selected)%nat.
Proof.
  revert rows selected. induction k as [|k IH]; intros rows selected Hn Ha Hb; cbn [mmr_loop]; [done|].
  destruct (best_mmr _ _ _ _ _) as [[i x]|] eqn:E; [|split_and!; [done..|lia]].
  apply best_mmr_spec in E as [?|(j & -> & Hj)]; [done|]. cbn [Nat.add] in *.
  destruct (IH (take_row j 0 (dots j) rows) (selected ++ [j])) as (I1 & I2 & I3).
  - apply NoDup_app. split_and!; [done| |apply NoDup_singleton].
    intros y Hy ->%list_elem_of_singleton. by apply (Ha j).
  - intros i [Hi Hne]%take_row_lookup. cbn in Hne.
    intros [?| ->%list_elem_of_singleton]%elem_of_app; [by apply (Ha i)|done].
  - rewrite take_row_length. apply Forall_app. split; [done|]. constructor; [|done].
    destruct Hj as (s & m & Hj). by apply lookup_lt_Some in Hj.
  - rewrite take_row_length in I2. rewrite length_app in I3. simpl in I3. split_and!; [done..|lia].
Qed.
End mmr_facts.

Lemma mmr_spec dots scores lambda k :
  let out := mmr_diversity_select dots scores lambda k in
  NoDup out /\ Forall (fun i => (i < length scores)%nat) out /\ len out <= Z.max 0 k.
Proof.
  unfold mmr_diversity_select.
  destruct (mmr_loop_spec dots lambda (Z.to_nat (Z.min k (len scores)))
    (List.map (fun s => (true, to_f32 s, S754_infinity true)) scores) []) as (M1 & M2 & M3).
  - constructor.
  - by intros i _ ?%elem_of_nil.
  - constructor.
  - rewrite length_map in M2. split_and!; [done..|]. unfold len in *. simpl in M3. lia.
Qed.

(** ** Each step rescores and reorders *)

(** The scored results are those of the candidates. *)
Definition covers (results : list (chunk_result * float)) (window : list chunk_result) : Prop :=
  List.map fst results ≡ₚ window.

Lemma rescored_same results window :
  covers results window -> same_results (List.map (fun '(r, s) => set_score r s) results) window.
Proof.
  unfold covers. intros H%perm_same. rewrite <- H. apply same_map. clear.
  induction results as [|[r s] l IH]; simpl; [done|by f_equal].
Qed.

Lemma slice_all {A} (l : list A) k : len l <= k -> slice l 0 k = l.
Proof. intros H. unfold len in H. rewrite slice_take by lia. apply take_ge. lia. Qed.

Lemma covers_sorted l window top_k :
  List.map fst l = window -> len window <= top_k -> covers (slice (sort_scores l) 0 top_k) window.
Proof.
  intros <- Hk. unfold covers. unfold len in Hk. rewrite length_map in Hk.
  rewrite slice_all; [by rewrite sort_scores_perm|]. unfold len. by rewrite (Permutation_length (sort_scores_perm l)).
Qed.

Lemma candidates_fst window candidates : rerank_candidates window = Ok candidates -> List.map fst candidates = window.
Proof.
  unfold rerank_candidates. destruct window as [|r window]; [by intros [= <-]|]. cbn [List.map]. cbv zeta.
  generalize (foldl fmin (rrf_score r) (List.map rrf_score window)). intros mn. generalize (fsub (foldl fmax (rrf_score r) (List.map rrf_score window)) mn).
  intros range H. apply map_m_ok in H. induction H as [|a [b s] l l' H _ IH]; simpl; [done|]. f_equal; [|done].
  destruct (flt _ _); [|by injection H as <-]. destruct (fdiv _ _); [|done]. by injection H as <-.
Qed.

Lemma zip_blend blend (candidates : list Candidate) normalized :
  length normalized = length candidates ->
  List.map fst (List.map (fun '((r, original), norm) => (r, blended blend norm original)) (zip candidates normalized))
  = List.map fst candidates.
Proof.
  revert normalized. induction candidates as [|[r o] l IH]; intros [|x n] H; simpl in *; try done.
  f_equal. apply IH. lia.
Qed.

(** The cross-encoder answers one score per candidate. *)
Definition scores_each (predict : list chunk_result -> option (list float)) : Prop :=
  forall l scores, predict l = Some scores -> length scores = length l.

Lemma cross_encoder_covers predict candidates top_k blend :
  scores_each predict -> len candidates <= top_k ->
  covers (cross_encoder_rerank predict candidates top_k blend) (List.map fst candidates).
Proof.
  intros Hp Hk. unfold cross_encoder_rerank. destruct candidates as [|c l] eqn:Ec; [exact (Permutation_refl _)|]. rewrite <- Ec in *.
  assert (len (List.map fst candidates) <= top_k) as Hk' by (unfold len in *; by rewrite length_map).
  assert (covers (fallback_ranking candidates top_k) (List.map fst candidates)) as Hf by by apply covers_sorted.
  destruct (predict _) as [scores|] eqn:E; [|exact Hf]. apply Hp in E. rewrite length_map in E.
  match goal with |- context [mbind ?f ?m] => destruct m as [normalized|] eqn:En end; [|exact Hf].
  cbn [mbind result_bind]. apply covers_sorted; [|done]. apply zip_blend. transitivity (length scores); [|exact E]. clear - En.
  destruct scores as [|s rest]; [by injection En as <-|]. cbv zeta in En. destruct (flt _ _).
  - by apply map_m_length in En.
  - injection En as <-. simpl. by rewrite length_map.
Qed.

Lemma score_batch_length llm batch : length (score_batch llm batch) = length batch.
Proof.
  unfold score_batch. destruct (llm _); [|by rewrite length_map].
  rewrite length_take, length_app, repeat_length. lia.
Qed.

Lemma llm_covers llm candidates top_k blend :
  len candidates <= top_k -> covers (llm_rerank llm candidates top_k blend) (List.map fst candidates).
Proof.
  intros Hk. assert (len (List.map fst candidates) <= top_k) as Hk' by (unfold len in *; by rewrite length_map).
  unfold llm_rerank. destruct (map_m _ _) as [results|] eqn:E; [|by apply covers_sorted].
  apply covers_sorted; [|done]. apply map_m_ok in E.
  assert (List.map fst results = List.map (fun x => x.1.1) (List.concat
    (List.map (fun batch => zip batch (score_batch llm batch)) (batches_of (length candidates) candidates)))) as ->.
  { induction E as [|[[r o] raw] [r' s] l l' H _ IH]; simpl; [done|]. f_equal; [|done].
    destruct (fdiv _ _); [|done]. by injection H as <-. }
  transitivity (List.map fst (List.concat (batches_of (length candidates) candidates)));
    [|by rewrite batches_concat].
  rewrite !List.concat_map, !List.map_map. f_equal. apply List.map_ext. intros batch.
  pose proof (score_batch_length llm batch) as Hl. revert Hl. generalize (score_batch llm batch). clear.
  induction batch as [|c batch IH]; intros [|s scores] H; simpl in *; try done. f_equal. apply IH. lia.
Qed.

Lemma reranking_same predict cfg fused l :
  scores_each predict -> 0 <= reranking_top_n cfg -> NoDup (List.map item_id fused) ->
  _apply_reranking predict cfg fused = Ok l -> same_results l fused.
Proof.
  intros Hp Ht Hn. unfold _apply_reranking. destruct fused as [|r rest] eqn:Ef; [by intros [= <-]|].
  rewrite <- Ef in *. cbv zeta. set (top_n := Z.min _ _).
  assert (0 <= top_n) as Htop by (unfold top_n, len; lia).
  destruct (window_partitions (window_config cfg) fused top_n Htop Hn) as [(_ & _ & Hperm) Hlen].
  destruct (_select_rerank_window _ _ _) as [window remainder]. cbn [fst snd] in *.
  destruct (rerank_candidates window) as [candidates|] eqn:E; [|done]. cbn [mbind result_bind].
  intros [= <-]. apply candidates_fst in E.
  etransitivity; [|exact (perm_same _ _ Hperm)]. apply same_app; [|done]. apply rescored_same. rewrite <- E.
  apply cross_encoder_covers; [done|]. unfold len in *. rewrite <- E, length_map in Hlen.
  etransitivity; [exact (Z.eq_le_incl _ _ Hlen)|lia].
Qed.

Lemma llm_reranking_same llm cfg fused l :
  0 <= llm_reranking_top_n cfg -> _apply_llm_reranking llm cfg fused = Ok l -> same_results l fused.
Proof.
  intros Ht. unfold _apply_llm_reranking. destruct fused as [|r rest] eqn:Ef; [by intros [= <-]|].
  rewrite <- Ef in *. cbv zeta. set (top_n := Z.min _ _).
  assert (0 <= top_n) as Htop by (unfold top_n, len; lia).
  destruct (plain_window top_n fused Htop) as [(_ & _ & Hperm) Hlen]. cbn [fst snd] in Hperm.
  destruct (rerank_candidates _) as [candidates|] eqn:E; [|done]. cbn [mbind result_bind].
  intros [= <-]. apply candidates_fst in E.
  etransitivity; [|exact (perm_same _ _ Hperm)]. apply same_app; [|done]. apply rescored_same. rewrite <- E.
  apply llm_covers. unfold len in *. rewrite <- E, length_map in Hlen.
  etransitivity; [exact (Z.eq_le_incl _ _ Hlen)|lia].
Qed.

Lemma decay_same entities v r refs r' : decay_by_refs entities v r refs = Ok r' -> unscored r' = unscored r.
Proof.
  induction refs as [|ref refs IH]; cbn [decay_by_refs]; [by intros [= <-]|].
  destruct (hashable ref); [|done]. cbv zeta. destruct (Z.ltb _ _); [|exact IH].
  destruct (int_div _ _); [|done]. by intros [= <-].
Qed.

Lemma version_same int_of_str signal l l' : version_scoring int_of_str signal l = Ok l' -> same_results l' l.
Proof.
  assert (forall vs : result (list (value * Z) * list (Z * Z)),
    (vs0 ← vs; let '(entities, chunks) := vs0 in
     match entities with
     | [] => Ok l
     | _ => map_m (fun r => let v := default 0 (zget (item_id r) chunks) in
              if Z.ltb 0 v then refs ← entity_refs (chunk_metadata (fr_item r)); decay_by_refs entities v r refs
              else Ok r) l
     end) = Ok l' -> same_results l' l) as H.
  { intros [[entities chunks]|]; [|done]. cbn [mbind result_bind].
    destruct entities as [|e es]; [by intros [= <-]|]. apply same_map_m. intros r r'. cbv zeta.
    destruct (Z.ltb _ _); [|by intros [= <-]]. destruct (entity_refs _); [|done]. apply decay_same. }
  unfold version_scoring. destruct signal as [[? []]|]; try (by intros [= <-]); apply H.
Qed.

Lemma mmr_same row_dots l scores k lambda l' :
  length scores = length l -> _mmr_select_fused row_dots l scores k lambda = Ok l' -> same_results l' l.
Proof.
  intros Hl. unfold _mmr_select_fused. destruct (Z.leb _ _); [by intros [= <-]|]. cbv zeta.
  destruct (forallb _ _); [by intros [= <-]|]. destruct (median _) as [neutral|]; [|done].
  cbn [mbind result_bind]. intros [= <-]. apply perm_same.
  match goal with |- selected_first _ (mmr_diversity_select ?d ?s ?a ?k) ≡ₚ _ =>
    destruct (mmr_spec d s a k) as (M1 & M2 & _); assert (length s = length l) as Hs end.
  { rewrite length_map, length_zip, length_map. lia. }
  rewrite Hs in M2. by apply selected_first_perm.
Qed.

Lemma diversity_same row_dots cfg limit scores l l' :
  length scores = length l -> diversity_step row_dots cfg limit scores l = Ok l' -> same_results l' l.
Proof.
  intros Hl. unfold diversity_step. destruct (_ && _); [|by intros [= <-]].
  destruct (_min_max_normalize scores) as [ns|] eqn:E; [|done]. cbn [mbind result_bind].
  destruct (_diversity_skip_reason _ _); [by intros [= <-]|]. apply mmr_same. rewrite <- Hl. by apply normalize_length.
Qed.

Lemma llm_step_same llm cfg signal raw l l' :
  0 <= llm_reranking_top_n cfg -> llm_step llm cfg signal raw l = Ok l' -> same_results l' l.
Proof.
  intros Ht. unfold llm_step. destruct (enable_llm_reranking cfg); [|by intros [= <-]]. cbv zeta.
  destruct (fst _); [|by intros [= <-]]. by apply llm_reranking_same.
Qed.

Lemma boosted_same fpow exp log2 now str_strip bench words cfg params recency l l' :
  boosted fpow exp log2 now str_strip bench words cfg params recency l = Ok l' -> same_results l' l.
Proof.
  unfold boosted. destruct (if flt f0 recency then _ else _) as [b|] eqn:E; [|done]. cbn [mbind result_bind].
  assert (same_results b l) as Hb.
  { destruct (flt f0 recency); [|by injection E as <-].
    destruct (_calculate_recency_scores _ _ _ _ _ _ _ _); [|done]. injection E as <-. apply recency_same. }
  intros H. transitivity b; [|exact Hb]. destruct (flt f0 (coherence_weight cfg)); [|by injection H as <-].
  destruct (normalize_scores b) as [n|] eqn:En; [|done]. cbn [mbind result_bind] in H.
  transitivity n; [by apply coherence_same in H|by apply normalize_same].
Qed.

(** ** The head of a channel and the reranker *)

Section heads.
Context (v g : list chunk_hit) (b : option (list chunk_hit)) (cfg : RetrieverConfig).
Context (Hv : NoDup (List.map hit_id v)) (Hg : NoDup (List.map hit_id g)) (Hb : NoDup (List.map hit_id (default [] b))).
Context (Hnames : NoDup (rc_union_rank_channels cfg)).

Abbreviation channels := (union_channels cfg v g b).
Abbreviation limit := (union_rank_per_channel_limit cfg).

(** The ranks of the results are those the union collected. *)
Definition provenance (u : Union (item := Chunk)) (l : list chunk_result) : Prop :=
  forall r name attr, r ∈ l -> (name, attr) ∈ channel_attr_by_name -> attr r = dict_get name (ranks_of u (item_id r)).

Lemma union_results_provenance u score ordered fused : union_results u score ordered = Ok fused -> provenance u fused.
Proof.
  unfold union_results. intros H%map_m_ok r name attr Hr Ha.
  apply list_elem_of_lookup in Hr as [n Hn]. eapply Forall2_lookup_r in H as ([pos i] & _ & H); [|exact Hn].
  destruct (score pos i); [|done]. cbn [mbind result_bind] in H.
  destruct (zget i (u_items u)) as [it|]; [|done]. injection H as <-. unfold _build_union_result, ranks_of. cbn [item_id].
  unfold channel_attr_by_name in Ha. repeat (apply elem_of_cons in Ha as [[= -> ->]|Ha]; [done|]). by apply elem_of_nil in Ha.
Qed.

Lemma omap_names {B} (f : string -> option (string * B)) names :
  (forall n p, f n = Some p -> p.1 = n) -> NoDup names -> NoDup (List.map fst (omap f names)).
Proof.
  intros Hf. induction 1 as [|n names Hn _ IH]; [constructor|]. csimpl.
  destruct (f n) as [p|] eqn:E; [|exact IH]. apply Hf in E as <-. csimpl. constructor; [|exact IH].
  intros H. apply Hn. apply list_elem_of_In, in_map_iff in H as (q & Hq & H).
  apply list_elem_of_In, list_elem_of_omap in H as (n2 & H2 & E2). apply Hf in E2 as <-. by rewrite <- Hq.
Qed.

Lemma names_NoDup : NoDup (List.map fst channels).
Proof.
  apply omap_names; [|exact Hnames]. intros n p.
  match goal with |- (match ?x with _ => _ end) = _ -> _ => destruct x as [[|h l]|] end; [done| |done].
  by intros [= <-].
Qed.

Lemma limited_sublist (l : list chunk_hit) : limited limit l `sublist_of` l.
Proof.
  unfold limited, slice. destruct limit as [n|]; [|done].
  etransitivity; [apply sublist_take|apply sublist_drop].
Qed.

Lemma channel_ids_NoDup name l : (name, l) ∈ channels -> NoDup (List.map hit_id (limited limit l)).
Proof.
  intros [_ H]%union_channels_elem. cbn [dict_get] in H.
  eapply sublist_NoDup; [|apply (fmap_sublist hit_id), limited_sublist].
  repeat (destruct (String.eqb _ _); [by injection H as <-|]). done.
Qed.

(** What both union fusers return. *)
Lemma fuse_union_ranks uuid_str vw gw mode exclude fused :
  fuse_union uuid_str cfg vw gw mode exclude v g b = Ok fused ->
  exists u, collected limit channels u /\ provenance u fused
    /\ forall i, i ∈ known u -> exclude = false \/ i ∈ non_lexical_ids v g -> i ∈ List.map item_id fused.
Proof.
  unfold fuse_union. cbv zeta. destruct (if String.eqb mode _ then _ else _) as [f|] eqn:Ef; [|done].
  cbn [mbind result_bind]. intros [= <-].
  assert (exists u, collected limit channels u /\ provenance u f /\ forall i, i ∈ known u -> i ∈ List.map item_id f)
    as (u & C & P & K).
  { destruct (String.eqb mode _).
    - unfold union_mnz_fusion in Ef. destruct (_union_channel_ranks _ _ _) as [u|] eqn:Eu; [|done].
      cbn [mbind result_bind] in Ef. destruct (map_m _ (u_ranks u)) as [mnz|]; [|done]. cbn [mbind result_bind] in Ef.
      destruct (union_order _ u) as [ordered|] eqn:Eo; [|done]. cbn [mbind result_bind] in Ef.
      exists u. apply channel_ranks_collected in Eu; [|exact names_NoDup|exact channel_ids_NoDup].
      split_and!; [done|by eapply union_results_provenance|]. intros i Hi. rewrite (union_results_ids _ _ _ _ Ef).
      apply union_order_perm in Eo. destruct Eu as (E & _). rewrite Eo, E. done.
    - unfold union_best_rank_fusion in Ef. destruct (_union_channel_ranks _ _ _) as [u|] eqn:Eu; [|done].
      cbn [mbind result_bind] in Ef.
      destruct (union_order _ u) as [ordered|] eqn:Eo; [|done]. cbn [mbind result_bind] in Ef.
      exists u. apply channel_ranks_collected in Eu; [|exact names_NoDup|exact channel_ids_NoDup].
      split_and!; [done|by eapply union_results_provenance|]. intros i Hi. rewrite (union_results_ids _ _ _ _ Ef).
      apply union_order_perm in Eo. destruct Eu as (E & _). rewrite Eo, E. done. }
  exists u. split_and!; [done| |].
  - intros r name attr Hr. apply P. destruct exclude; [|done]. by apply elem_of_filter_bool in Hr as [? _].
  - intros i Hi Hx. apply K in Hi. destruct exclude; [|done]. destruct Hx as [?|Hx]; [done|].
    apply list_elem_of_In, in_map_iff in Hi as (r & <- & Hr). apply list_elem_of_In, in_map, filter_In.
    split; [done|]. by apply bool_decide_eq_true.
Qed.

Lemma provenance_same u l l' : same_results l' l -> provenance u l -> provenance u l'.
Proof.
  intros Hs P r name attr Hr Ha. destruct (same_elem _ _ r Hs Hr) as (r0 & Hr0 & E).
  specialize (P r0 name attr Hr0 Ha).
  assert (item_id r0 = item_id r) as <- by by rewrite <- (unscored_id r0), E.
  assert (attr r = attr r0) as ->; [|done].
  unfold channel_attr_by_name in Ha.
  repeat (apply elem_of_cons in Ha as [[= _ ->]|Ha]; [by destruct r, r0; injection E|]). by apply elem_of_nil in Ha.
Qed.

(** Collected ranks are positions in their channel. *)
Lemma provenance_ranked u l name attr :
  collected limit channels u -> provenance u l -> NoDup (List.map item_id l) ->
  (name, attr) ∈ channel_attr_by_name -> channel_ranked attr l.
Proof.
  intros (_ & _ & _ & _ & C5) P Hn Ha. split.
  - intros r k Hr Hk. rewrite (P r name attr Hr Ha) in Hk. apply C5 in Hk as (results & _ & Hk & _). lia.
  - intros r r' k Hr Hr' Hk Hk'. rewrite (P r name attr Hr Ha) in Hk. rewrite (P r' name attr Hr' Ha) in Hk'.
    apply C5 in Hk as (l1 & H1 & _ & Hk), Hk' as (l2 & H2 & _ & Hk').
    apply union_channels_elem in H1 as [_ H1], H2 as [_ H2]. rewrite H1 in H2. injection H2 as ->.
    rewrite Hk in Hk'. injection Hk' as Hid. by apply (same_id_same l).
Qed.

(** No more channels are active than were fused. *)
Lemma active_count u l :
  collected limit channels u -> provenance u l -> len (active_channels (window_config cfg) l) <= len channels.
Proof.
  intros (_ & _ & _ & _ & C5) P. unfold active_channels, len.
  rewrite length_map, <- (length_map fst), <- (length_map fst channels). apply Nat2Z.inj_le, NoDup_count.
  - eapply sublist_NoDup.
    2: { apply (fmap_sublist fst). instantiate (1 := channel_attr_by_name).
      generalize (channel_attr_by_name (item := Chunk)). intros m. induction m as [|x m IH]; simpl; [done|].
      destruct x. destruct (_ && _); by constructor. }
    repeat constructor; by rewrite ?elem_of_cons, ?elem_of_nil; intros; naive_solver.
  - intros n Hn. apply list_elem_of_In, in_map_iff in Hn as ([name attr] & <- & [Ha Hx]%filter_In).
    apply andb_true_iff in Hx as [_ (r & Hr & Hk)%existsb_exists].
    destruct (attr r) as [k|] eqn:E; [|done]. apply list_elem_of_In in Ha, Hr.
    rewrite (P r name attr Hr Ha) in E. apply C5 in E as (results & Hc & _).
    apply list_elem_of_In, in_map_iff. exists (name, results). by rewrite <- list_elem_of_In.
Qed.

Lemma attr_of_channel name l : (name, l) ∈ channels -> exists attr, (name, attr) ∈ channel_attr_by_name (item := Chunk).
Proof.
  intros [_ H]%union_channels_elem. cbn [dict_get] in H. unfold channel_attr_by_name.
  destruct (String.eqb_spec name "vector") as [->|_]; [eexists; left|].
  destruct (String.eqb_spec name "graph") as [->|_]; [eexists; right; left|].
  destruct (String.eqb_spec name "bm25") as [->|_]; [eexists; right; right; left|done].
Qed.

(** C25.  In the union modes the head of every channel reaches the cross-encoder.  When no
    channel repeats an id, the hits a listed channel ranks within [top_n] divided by the
    number of channels fused are in the rerank window of the boosted results, whatever the
    recency and coherence boosts did to the order, provided a lexical hit is not excluded. *)
Theorem heads_reach_reranker uuid_str norm routing temporal exclude raw fused
    fpow exp log2 now str_strip bench words params recency pool top_n name l k i :
  coherent v -> coherent g -> coherent (default [] b) ->
  is_union (window_config cfg) = true ->
  _fuse_results uuid_str cfg v g b norm routing temporal exclude (rc_fusion_mode cfg) raw = Ok fused ->
  boosted fpow exp log2 now str_strip bench words cfg params recency fused = Ok pool ->
  (name, l) ∈ channels -> List.map hit_id (limited limit l) !! k = Some i ->
  exclude = false \/ i ∈ non_lexical_ids v g ->
  Z.of_nat k + 1 <= top_n / len channels ->
  i ∈ List.map item_id (_select_rerank_window (window_config cfg) pool top_n).1.
Proof.
  intros Cv Cg Cb Hu Hf Hp Hc Hk Hx Hle. apply boosted_same in Hp.
  destruct (fusion_sound v g b _ _ _ _ _ _ _ _ _ Cv Cg Cb Hf) as (Hn & _ & _).
  unfold _fuse_results in Hf. destruct (fusion_weights _ _ _ _) as [vw gw]. cbv zeta in Hf.
  unfold is_union, window_config in Hu. cbn [fusion_mode] in Hu. rewrite Hu in Hf.
  assert (String.eqb (rc_fusion_mode cfg) "calibrated" = false) as Ecal.
  { apply mem_str_true in Hu. unfold _UNION_FUSION_MODES in Hu.
    by repeat (apply elem_of_cons in Hu as [->|Hu]; [done|]); apply elem_of_nil in Hu. }
  rewrite Ecal in Hf. assert (fuse_union uuid_str cfg vw gw (rc_fusion_mode cfg) exclude v g b = Ok fused) as Hf'.
  { by destruct raw as [[]|]. }
  destruct (fuse_union_ranks _ _ _ _ _ _ Hf') as (u & Cu & P & K).
  assert (NoDup (List.map item_id pool)) as Hn' by by rewrite (same_ids _ _ Hp).
  pose proof (provenance_same _ _ _ Hp P) as P'.
  assert (at_rank limit l (Z.of_nat k + 1) i) as Hrank.
  { split; [lia|]. by replace (Z.to_nat _) with k by lia. }
  pose proof Cu as (_ & _ & _ & C4 & C5).
  assert (i ∈ List.map item_id pool) as Hi.
  { rewrite (same_ids _ _ Hp). apply K; [apply C4; eauto|done]. }
  apply list_elem_of_In, in_map_iff in Hi as (r & Hri & Hr%list_elem_of_In).
  destruct (attr_of_channel name l Hc) as [attr Ha].
  assert (attr r = Some (Z.of_nat k + 1)) as Hattr.
  { rewrite (P' r name attr Hr Ha), Hri. apply C5. eauto. }
  assert (attr ∈ active_channels (window_config cfg) pool) as Hact.
  { unfold active_channels. apply list_elem_of_In, in_map_iff. exists (name, attr). split; [done|].
    apply filter_In. split; [by apply list_elem_of_In|]. apply andb_true_iff. split.
    - apply mem_str_true. by apply union_channels_elem in Hc as [? _].
    - apply existsb_exists. exists r. rewrite Hattr. split; [by apply list_elem_of_In|done]. }
  rewrite <- Hri. apply list_elem_of_In, in_map, list_elem_of_In.
  apply (window_head _ _ _ attr r (Z.of_nat k + 1)); try done.
  - by eapply provenance_ranked.
  - pose proof (active_count _ _ Cu P') as Hcount.
    assert (0 < len (active_channels (window_config cfg) pool)) as Hpos.
    { unfold len. destruct (active_channels _ _); [by apply elem_of_nil in Hact|simpl; lia]. }
    assert (0 <= top_n).
    { apply Z.nlt_ge. intros Hneg. pose proof (Z.div_le_mono top_n 0 (len channels)) as Hd.
      rewrite Z.div_0_l in Hd; lia. }
    etransitivity; [exact Hle|]. apply Z.div_le_compat_l; lia.
Qed.
End heads.

(** ** The whole pipeline *)

(** The steps before the version decay. *)
Lemma before_versions_same fpow exp log2 now str_strip bench words predict llm cfg params recency signal raw fused l1 l2 l3 :
  scores_each predict -> 0 <= reranking_top_n cfg -> 0 <= llm_reranking_top_n cfg -> NoDup (List.map item_id fused) ->
  boosted fpow exp log2 now str_strip bench words cfg params recency fused = Ok l1 ->
  (if enable_reranking cfg then _apply_reranking predict cfg l1 else Ok l1) = Ok l2 ->
  llm_step llm cfg signal raw l2 = Ok l3 -> same_results l3 fused.
Proof.
  intros Hp Ht Hl Hn E1 E2 E3. apply boosted_same in E1. apply llm_step_same in E3; [|done].
  rewrite E3, <- E1. destruct (enable_reranking cfg); [|by injection E2 as <-].
  eapply reranking_same; [done|done| |exact E2]. by rewrite (same_ids _ _ E1).
Qed.

(** C24.  The scoring pipeline only rescores and reorders what the fusion returned.  The
    recency boost, the coherence boost, both rerankers (failed ones too), the version decay,
    the reported relevance and the diversity selection together drop nothing, repeat nothing
    and alter nothing but the scores, when the cross-encoder answers one score per candidate
    and the window sizes are not negative. *)
Theorem pipeline_keeps_fused row_dots uuid_str fpow exp log2 now str_strip bench words cosine predict llm int_of_str
    cfg v g bm25 q limit routing params signal tf bias min_sim raw out w :
  coherent v -> coherent g -> coherent bm25 ->
  scores_each predict -> 0 <= reranking_top_n cfg -> 0 <= llm_reranking_top_n cfg ->
  _score_and_rank row_dots uuid_str fpow exp log2 now str_strip bench words cosine predict llm int_of_str
    cfg v g bm25 q limit routing params signal tf bias min_sim raw = Ok (out, w) ->
  exists fused,
    _fuse_results uuid_str cfg v g (match bm25 with [] => None | _ => Some bm25 end) true routing
      (flt lit_0_2 (recency_weight params)) (flt f0 min_sim) (rc_fusion_mode cfg) (Some raw) = Ok fused
    /\ same_results out fused /\ NoDup (List.map item_id out).
Proof.
  intros Cv Cg Cb Hp Ht Hl. unfold _score_and_rank.
  destruct (_fuse_results _ _ _ _ _ _ _ _ _ _ _) as [fused|] eqn:Ef; [|done]. cbn [mbind result_bind]. cbv zeta.
  assert (coherent (default [] (match bm25 with [] => None | _ => Some bm25 end))) as Cb'.
  { by destruct bm25. }
  destruct (fusion_sound v g _ _ _ _ _ _ _ _ _ _ Cv Cg Cb' Ef) as (Hn & _ & _).
  destruct (boosted _ _ _ _ _ _ _ _ _ _ _) as [l1|] eqn:E1; [|done]. cbn [mbind result_bind].
  destruct (if enable_reranking cfg then _ else _) as [l2|] eqn:E2; [|done]. cbn [mbind result_bind].
  destruct (llm_step _ _ _ _ _) as [l3|] eqn:E3; [|done]. cbn [mbind result_bind].
  pose proof (before_versions_same _ _ _ _ _ _ _ _ _ _ _ _ _ _ _ _ _ _ Hp Ht Hl Hn E1 E2 E3) as S3. clear E1 E2 E3.
  destruct (version_scoring _ _ _) as [l4|] eqn:E4; [|done]. cbn [mbind result_bind]. apply version_same in E4.
  destruct (diversity_step _ _ _ _ _) as [l6|] eqn:E6; [|done]. cbn [mbind result_bind].
  pose proof (relevance_same chunk_embedding cosine l4 (Some raw) (Some q)) as S5.
  apply diversity_same in E6.
  2: { pose proof (same_length _ _ S5) as Hlen. unfold len in Hlen. rewrite length_map. lia. }
  intros H. injection H as -> <-. exists fused. split; [done|].
  assert (same_results out fused) as Hs by by rewrite E6, S5, E4, S3.
  split; [exact Hs|]. by rewrite (same_ids _ _ Hs).
Qed.

(** ** Failures *)

Lemma fold_m_fails {A S} (f : S -> A -> result S) l s x :
  x ∈ l -> (forall s, exists e, f s x = Err e) -> exists e, fold_m f s l = Err e.
Proof.
  intros Hx Hf. revert s. induction l as [|y l IH]; intros s; [by apply elem_of_nil in Hx|]. cbn [fold_m].
  apply elem_of_cons in Hx as [->|Hx].
  - destruct (Hf s) as [e ->]. by exists e.
  - destruct (f s y); [auto|by eexists].
Qed.

(** A version that is not a number. *)
Definition bad_version (int_of_str : string -> option Z) (r : chunk_result) : Prop :=
  exists s, dict_get "version" (chunk_metadata (fr_item r)) = Some (VStr s) /\ s <> ""%string /\ int_of_str s = None.

Lemma bad_version_fails int_of_str signal l r :
  ts_category signal = CatStateQuery \/ ts_category signal = CatRecency ->
  r ∈ l -> bad_version int_of_str r -> exists e, version_scoring int_of_str (Some signal) l = Err e.
Proof.
  intros Hs Hr (s & Hv & Hne & Hi). assert (exists e, collect_versions int_of_str l = Err e) as [e He].
  { apply (fold_m_fails _ l _ r Hr). intros [entities chunks]. unfold version_value, get_or. rewrite Hv.
    assert (truthy (VStr s) = true) as -> by (simpl; by destruct (String.eqb_spec s "")).
    exists ValueError. simpl. rewrite Hi. destruct (String.eqb_spec s ""); done. }
  unfold version_scoring. destruct signal as [t c]. cbn [ts_category] in Hs.
  destruct Hs as [->| ->]; rewrite He; by eexists.
Qed.

(** One chunk whose version is not a number makes a recall fail.  When the query asks for
    a current state or for what is recent and the fusion returned a chunk whose stored
    [version] is a non-empty string that [int] rejects, such as a release name, the scoring
    pipeline raises, whatever the other chunks are and whether or not this one would be
    among the results. *)
Theorem bad_version_fails_recall row_dots uuid_str fpow exp log2 now str_strip bench words cosine predict llm int_of_str
    cfg v g bm25 q limit routing params signal tf bias min_sim raw fused r :
  coherent v -> coherent g -> coherent bm25 ->
  scores_each predict -> 0 <= reranking_top_n cfg -> 0 <= llm_reranking_top_n cfg ->
  ts_category signal = CatStateQuery \/ ts_category signal = CatRecency ->
  _fuse_results uuid_str cfg v g (match bm25 with [] => None | _ => Some bm25 end) true routing
    (flt lit_0_2 (recency_weight params)) (flt f0 min_sim) (rc_fusion_mode cfg) (Some raw) = Ok fused ->
  r ∈ fused -> bad_version int_of_str r ->
  is_ok (_score_and_rank row_dots uuid_str fpow exp log2 now str_strip bench words cosine predict llm int_of_str
    cfg v g bm25 q limit routing params (Some signal) tf bias min_sim raw) = false.
Proof.
  intros Cv Cg Cb Hp Ht Hl Hs Ef Hr Hbad. unfold _score_and_rank. rewrite Ef. cbn [mbind result_bind]. cbv zeta.
  assert (coherent (default [] (match bm25 with [] => None | _ => Some bm25 end))) as Cb' by by destruct bm25.
  destruct (fusion_sound v g _ _ _ _ _ _ _ _ _ _ Cv Cg Cb' Ef) as (Hn & _ & _).
  destruct (boosted _ _ _ _ _ _ _ _ _ _ _) as [l1|] eqn:E1; [|done]. cbn [mbind result_bind].
  destruct (if enable_reranking cfg then _ else _) as [l2|] eqn:E2; [|done]. cbn [mbind result_bind].
  destruct (llm_step _ _ _ _ _) as [l3|] eqn:E3; [|done]. cbn [mbind result_bind].
  pose proof (before_versions_same _ _ _ _ _ _ _ _ _ _ _ _ _ _ _ _ _ _ Hp Ht Hl Hn E1 E2 E3) as S3.
  assert (same_results fused l3) as Hsame by by rewrite S3.
  destruct (same_elem _ _ r Hsame Hr) as (r3 & Hr3 & Eq).
  assert (bad_version int_of_str r3) as Hbad3.
  { unfold bad_version. assert (fr_item r3 = fr_item r) as -> by by destruct r3, r; injection Eq. done. }
  by destruct (bad_version_fails int_of_str signal l3 r3 Hs Hr3 Hbad3) as [e ->].
Qed.

(** An LLM reranker's score that is not a number counts as the highest score, 10, not as
    the neutral 5 of a missing one: the clamp keeps its bound when the comparison with it
    fails.  The answer then outranks a candidate scored 9. *)
Theorem nan_score_ranks_first a b :
  score_batch (fun _ => Some [S754_nan; of_Z 9]) [(a, lit_0_5); (b, lit_0_5)] = [of_Z 10; of_Z 9]
  /\ List.map fst (llm_rerank (fun _ => Some [of_Z 9; S754_nan]) [(a, lit_0_5); (b, lit_0_5)] 2 lit_0_7) = [b; a].
Proof. split; vm_compute; reflexivity. Qed.

(** ** Concrete runs *)

Module Example_run.
Definition chunk (i : Z) : Chunk := MkChunk i [] None None.
Definition named (i : Z) (version : string) : Chunk :=
  MkChunk i [("version", VStr version); ("entity_refs", VList [VStr "e"])]%string None None.
Definition vector : list chunk_hit := [(1, f1, chunk 1); (2, lit_0_5, chunk 2)].
Definition graph : list chunk_hit := [(3, of_Z 7, chunk 3); (2, of_Z 5, chunk 2)].
Definition lexical : list chunk_hit := [(4, of_Z 9, named 4 "v2")].

Definition cfg (mode : string) : RetrieverConfig :=
  MkRetrieverConfig 60 lit_0_7 lit_0_4 mode ["vector"; "graph"; "bm25"]%string None
    lit_0_85 lit_0_15 lit_0_4 lit_0_7 lit_0_4 lit_0_7 (of_Z 30) "linear" false false []
    hundredth lit_0_4 true 3 lit_0_7 true 5 hundredth "always" lit_0_7 hundredth true lit_0_5 lit_0_5.

Definition params : RetrievalParams := MkRetrievalParams lit_0_4 None lit_0_5.
Definition predict (l : list chunk_result) : option (list float) := Some (List.map (fun r => of_Z (item_id r)) l).
Definition int_of_str (s : string) : option Z := if String.eqb s "2" then Some 2 else None.
Definition signal : TemporalSignal := MkTemporalSignal true CatRecency.

Lemma coherent_all : coherent vector /\ coherent graph /\ coherent lexical.
Proof. split_and!; intros h; apply (proj1 (Forall_forall (fun h => chunk_id (hit_item h) = hit_id h) _)); by repeat constructor. Qed.

Lemma predict_each : scores_each predict.
Proof. intros l scores. unfold predict. intros H. injection H as <-. apply length_map. Qed.

Definition run (mode : string) (signal : option TemporalSignal) : result (list chunk_result * float) :=
  _score_and_rank (fun _ _ => []) (fun _ => "") (fun x _ => x) (fun x => x) lit_0_7 0 (fun _ => "") false (fun _ => None)
    (fun _ _ => []) predict (fun _ => None) int_of_str (cfg mode) vector graph lexical [] 2 None params signal false None f0 [].

Definition fused (mode : string) : result (list chunk_result) :=
  _fuse_results (fun _ => "") (cfg mode) vector graph (Some lexical) true None (flt lit_0_2 (recency_weight params))
    (flt f0 f0) mode (Some []).
End Example_run.

Lemma fusion_keeps_channels_witness :
  exists l, Example_run.fused "calibrated" = Ok l
    /\ sound_fusion (channel_ids Example_run.vector Example_run.graph (Some Example_run.lexical) false)
         (fun i => mem_str "calibrated" _UNION_FUSION_MODES = false
                   /\ channel_ids Example_run.vector Example_run.graph (Some Example_run.lexical) false i) l.
Proof.
  eexists. split; [vm_compute; reflexivity|]. destruct Example_run.coherent_all as (Hv & Hg & Hb).
  apply (fusion_keeps_channels Example_run.vector Example_run.graph (Some Example_run.lexical) (fun _ => ""%string)
    (Example_run.cfg "calibrated") true None true false "calibrated" (Some []) _ Hv Hg Hb).
  vm_compute. reflexivity.
Defined.

(** The first graph hit is in a window of three, one slot per channel. *)
Lemma heads_reach_reranker_witness :
  match Example_run.fused "union_best_rank" with
  | Ok l =>
      match boosted (fun x _ => x) (fun x => x) lit_0_7 0 (fun _ => ""%string) false (fun _ => None)
              (Example_run.cfg "union_best_rank") Example_run.params lit_0_4 l with
      | Ok pool =>
          3 ∈ List.map item_id (_select_rerank_window (window_config (Example_run.cfg "union_best_rank")) pool 3).1
      | Err _ => False
      end
  | Err _ => False
  end.
Proof.
  destruct (Example_run.fused "union_best_rank") as [l|] eqn:E; [|vm_compute in E; discriminate].
  destruct (boosted _ _ _ _ _ _ _ _ _ _ l) as [pool|] eqn:E2.
  2: { vm_compute in E. injection E as <-. vm_compute in E2. discriminate. }
  destruct Example_run.coherent_all as (Hv & Hg & Hb).
  eapply (heads_reach_reranker Example_run.vector Example_run.graph (Some Example_run.lexical)
    (Example_run.cfg "union_best_rank")) with (5 := Hv) (6 := Hg) (7 := Hb) (9 := E) (10 := E2)
    (name := "graph"%string) (l := Example_run.graph) (k := 0%nat).
  1-4: apply (bool_decide_unpack _); vm_compute; reflexivity.
  - reflexivity.
  - vm_compute. right. left.
  - reflexivity.
  - by left.
  - vm_compute. discriminate.
Defined.

Lemma pipeline_keeps_fused_witness :
  exists out w fused, Example_run.run "rrf" None = Ok (out, w) /\ Example_run.fused "rrf" = Ok fused
    /\ same_results out fused /\ NoDup (List.map item_id out).
Proof.
  destruct (Example_run.run "rrf" None) as [[out w]|] eqn:E; [|vm_compute in E; discriminate].
  destruct Example_run.coherent_all as (Hv & Hg & Hb).
  assert (0 <= reranking_top_n (Example_run.cfg "rrf") /\ 0 <= llm_reranking_top_n (Example_run.cfg "rrf")) as [H1 H2].
  { split; vm_compute; discriminate. }
  unfold Example_run.run in E.
  destruct (pipeline_keeps_fused _ _ _ _ _ _ _ _ _ _ _ _ _ _ _ _ _ _ _ _ _ _ _ _ _ _ _ _
    Hv Hg Hb Example_run.predict_each H1 H2 E) as (fused & H).
  exists out, w, fused. split; [reflexivity|exact H].
Defined.

(** The chunk whose version is "v2". *)
Lemma bad_version_fails_recall_witness : is_ok (Example_run.run "rrf" (Some Example_run.signal)) = false.
Proof.
  destruct (Example_run.fused "rrf") as [l|] eqn:E; [|vm_compute in E; discriminate].
  destruct Example_run.coherent_all as (Hv & Hg & Hb).
  assert (exists r, r ∈ l /\ bad_version Example_run.int_of_str r) as (r & Hr & Hbad).
  { vm_compute in E. injection E as <-. eexists. split; [do 3 right; left|]. exists "v2"%string. by split_and!. }
  assert (0 <= reranking_top_n (Example_run.cfg "rrf") /\ 0 <= llm_reranking_top_n (Example_run.cfg "rrf")) as [H1 H2].
  { split; vm_compute; discriminate. }
  assert (ts_category Example_run.signal = CatStateQuery \/ ts_category Example_run.signal = CatRecency) as Hcat by by right.
  unfold Example_run.fused in E. unfold Example_run.run.
  exact (bad_version_fails_recall _ _ _ _ _ _ _ _ _ _ _ _ _ (Example_run.cfg "rrf") _ _ Example_run.lexical _ _ _ _ _ _ _ _ _ l r Hv Hg Hb
    Example_run.predict_each H1 H2 Hcat E Hr Hbad).
Defined.
