(* ===== verification/DocumentScan.v ===== *)
(** Enumerating the documents of a namespace by keyset: the bounded scan of the three
    families of relational stores ([storage/backends/_documents_scan.py], [base.py],
    [postgresql.py], [sqlite_lance/relational.py], [sqlite.py],
    [surrealdb/relational.py]), the page loop of [storage/coordinator.py], and the
    facade [Khora.list_documents].  A store is seen at a sequence of instants, one per
    statement: no transaction spans two of them. *)
From S2P Require Import Prelude PyValue FilterModel FilterAst FilterPython FilterExecute PyText.

Local Open Scope string_scope.
Local Open Scope list_scope.
Local Open Scope Z_scope.

(** ** Key orders *)

(** The order a store sorts a column by. *)
Class KeyOrder (K : Type) := {
  klt : K -> K -> bool;
  klt_irrefl a : klt a a = false;
  klt_trans a b c : klt a b = true -> klt b c = true -> klt a c = true;
  klt_total a b : a <> b -> klt a b = true \/ klt b a = true }.

#[export] Hint Mode KeyOrder ! : typeclass_instances.

#[export] Instance Z_key : KeyOrder Z.
Proof.
  refine {| klt := Z.ltb |}; intros *; rewrite ?Z.ltb_irrefl, ?Z.ltb_lt; try done; lia.
Defined.

(** TEXT under the binary collation. *)
Definition text_lt (s t : string) : bool := negb (String.leb t s).

#[export] Instance text_key : KeyOrder string.
Proof.
  refine {| klt := text_lt |}; unfold text_lt.
  - intros a. rewrite negb_false_iff. apply leb_le. apply reflexivity.
  - intros a b c. rewrite !negb_true_iff. intros H1 H2.
    apply leb_false_le in H1 as L1. apply leb_false_le in H2 as L2.
    destruct (String.leb c a) eqn:E; [|done]. exfalso.
    apply leb_le in E. assert (a = b) as ->.
    { apply (anti_symm String.le); [done|]. by transitivity c. }
    apply leb_le in E. congruence.
  - intros a b Hne. rewrite !negb_true_iff.
    destruct (String.leb b a) eqn:E1; [|by left]. destruct (String.leb a b) eqn:E2; [|by right].
    apply leb_le in E1, E2. by destruct Hne; apply (anti_symm String.le).
Defined.

(** The row-value comparison [(a1, a2) < (b1, b2)]. *)
Definition row_value_lt {A B} `{KeyOrder A, KeyOrder B, EqDecision A} (a b : A * B) : bool :=
  klt a.1 b.1 || (bool_decide (a.1 = b.1) && klt a.2 b.2).

#[export] Instance pair_key {A B} `{KeyOrder A, KeyOrder B, EqDecision A, EqDecision B} : KeyOrder (A * B).
Proof.
  refine {| klt := row_value_lt |}; unfold row_value_lt.
  - intros [a b]. cbn. by rewrite !klt_irrefl, andb_false_r.
  - intros [a1 a2] [b1 b2] [c1 c2]; cbn.
    rewrite !orb_true_iff, !andb_true_iff, !bool_decide_eq_true.
    intros [H1|[-> H1]] [H2|[-> H2]]; eauto using klt_trans.
  - intros [a1 a2] [b1 b2] Hne; cbn.
    rewrite !orb_true_iff, !andb_true_iff, !bool_decide_eq_true.
    destruct (decide (a1 = b1)) as [->|Hn]; [|destruct (klt_total _ _ Hn); tauto].
    destruct (klt_total a2 b2) as [E|E]; [congruence| |]; tauto.
Defined.

(** ** Statements *)

Section statements.
Context {Row K : Type} `{KeyOrder K} (row_key : Row -> K).

(** [ORDER BY created_at DESC, id DESC] *)
Fixpoint insert_desc (r : Row) (l : list Row) : list Row :=
  match l with
  | [] => [r]
  | x :: l' => if klt (row_key x) (row_key r) then r :: l else x :: insert_desc r l'
  end.

Fixpoint order_by_desc (l : list Row) : list Row :=
  match l with [] => [] | r :: l' => insert_desc r (order_by_desc l') end.

(** A [SELECT] on one table: its conjuncts and its [LIMIT].  A conjunct keeps the rows
    it is TRUE of. *)
Record Select := MkSelect { s_where : list (Row -> bool); s_limit : Z }.

Definition where_ (q : Select) (p : Row -> bool) : Select :=
  MkSelect (s_where q ++ [p]) (s_limit q).

Definition selected (conds : list (Row -> bool)) (table : list Row) : list Row :=
  order_by_desc (List.filter (fun r => forallb (fun p => p r) conds) table).

Definition execute (table : list Row) (q : Select) : list Row :=
  take (Z.to_nat (s_limit q)) (selected (s_where q) table).
End statements.
Arguments MkSelect {Row}.
Arguments s_where {Row}.
Arguments s_limit {Row}.
Arguments where_ {Row}.

(** ** Documents *)

Definition DocumentStatus_values : list string :=
  ["pending"; "processing"; "completed"; "failed"; "archived"].

(** [DocumentStatus(s)] *)
Definition DocumentStatus (s : string) : result string :=
  if mem_str s DocumentStatus_values then Ok s else Err ValueError.

Record Document := MkDocument {
  doc_id : Z; doc_namespace_id : Z; doc_content : string; doc_status : string;
  doc_title : option string; doc_source : option string; doc_source_type : string;
  doc_source_name : option string; doc_source_url : option string;
  doc_content_type : option string; doc_author : option string; doc_language : option string;
  doc_checksum : option string; doc_size_bytes : Z; doc_metadata : value;
  doc_chunk_count : Z; doc_entity_count : Z; doc_relationship_count : Z;
  doc_error_message : option string; doc_extraction_config_hash : option string;
  doc_extraction_params : value; doc_graph_mirror_pending : value;
  doc_external_id : option string; doc_created_at : datetime; doc_updated_at : option datetime;
  doc_processed_at : option datetime; doc_source_timestamp : option datetime;
  doc_session_id : option Z }.

Definition opt_len_gt (s : option string) (n : nat) : bool :=
  match s with Some s => Nat.ltb n (length (utf8_chars s)) | None => false end.

(** The code point a character of a UTF-8 string stands for. *)
Definition code_point (c : string) : Z :=
  match List.map (fun a => Z.of_nat (Ascii.nat_of_ascii a)) (String.list_ascii_of_string c) with
  | [a] => a
  | [a; b] => Z.lor (Z.shiftl (Z.land a 31) 6) (Z.land b 63)
  | [a; b; d] => Z.lor (Z.shiftl (Z.land a 15) 12) (Z.lor (Z.shiftl (Z.land b 63) 6) (Z.land d 63))
  | _ => 65536
  end.

(** [not s.strip()] *)
Definition is_blank (s : string) : bool :=
  bool_decide (strip (List.map code_point (utf8_chars s)) = []).

Definition Document_post_init (d : Document) : result Document :=
  if match doc_external_id d with Some s => is_blank s | None => false end
     || opt_len_gt (doc_external_id d) 512
     || opt_len_gt (doc_extraction_config_hash d) 255
  then Err ValueError else Ok d.

Definition _none_if_empty (v : option string) : option string :=
  match v with Some "" => None | _ => v end.

(** [v or dflt] on a nullable text. *)
Definition or_text (v : option string) (dflt : string) : string :=
  match v with None | Some "" => dflt | Some s => s end.

(** What the predicate of a filter reads off a [Document]: the system keys and
    [metadata]; it has no [occurred_at] and no [source_document]. *)
Definition opt_str (o : option string) : value := match o with Some s => VStr s | None => VNone end.
Definition opt_dt (o : option datetime) : value := match o with Some d => VDate d | None => VNone end.

Definition doc_record (d : Document) : record :=
  ObjRec [("title", opt_str (doc_title d)); ("source", opt_str (doc_source d));
          ("source_type", VStr (doc_source_type d)); ("source_name", opt_str (doc_source_name d));
          ("source_url", opt_str (doc_source_url d)); ("content_type", opt_str (doc_content_type d));
          ("external_id", opt_str (doc_external_id d)); ("created_at", VDate (doc_created_at d));
          ("source_timestamp", opt_dt (doc_source_timestamp d));
          ("metadata", doc_metadata d)] None.

(** ** One step of a scan *)

Record DocumentScanStep (Cur : Type) := MkStep {
  documents : list Document;
  last_scanned : option Cur;
  exhausted : bool;
  step_consumed_keys : gset string }.
Arguments MkStep {Cur}.
Arguments documents {Cur}.
Arguments last_scanned {Cur}.
Arguments exhausted {Cur}.
Arguments step_consumed_keys {Cur}.

Definition build_scan_step {Cur} (docs : list Document) (last_scanned : option Cur)
    (raw_row_count scan_limit : Z) (consumed : gset string) : DocumentScanStep Cur :=
  MkStep docs last_scanned (raw_row_count <? scan_limit) consumed.

(** [if status: conditions.append(...)]: an empty status does not narrow. *)
Definition status_conditions {Row} (col : Row -> string) (status : option string) : list (Row -> bool) :=
  match status with
  | None | Some "" => []
  | Some s => [fun r => String.eqb (col r) s]
  end.

(** The pushed part of a filter: what a store's compiler returns for it. *)
Definition pushdown (Row : Type) : Type := option (result (CompiledFilter (Row -> bool))).

(** ** The SQLAlchemy stores: PostgreSQL and sqlite_lance *)

Module Sql.
Record DocumentModel := MkModel {
  id : Z; namespace_id : Z; content : string; status : string;
  source : option string; source_type : option string; source_name : option string;
  source_url : option string; content_type : option string; title : option string;
  author : option string; language : option string; checksum : option string;
  size_bytes : Z; metadata_ : option (list (string * value)); external_id : option string;
  chunk_count : Z; entity_count : Z; relationship_count : Z;
  error_message : option string; extraction_config_hash : option string;
  extraction_params : value; graph_mirror_pending : value;
  created_at : datetime; updated_at : option datetime; processed_at : option datetime;
  source_timestamp : option datetime; session_id : option Z }.

Inductive dialect := Postgres | SqliteLance.

(** What a store converts of a row: the embedded store leaves the mirror marker out. *)
Definition _document_model_to_domain (dl : dialect) (m : DocumentModel) : result Document :=
  st ← DocumentStatus (status m);
  Document_post_init {|
    doc_id := id m; doc_namespace_id := namespace_id m; doc_content := content m;
    doc_status := st; doc_title := _none_if_empty (title m);
    doc_source := _none_if_empty (source m);
    doc_source_type := or_text (source_type m) "library";
    doc_source_name := _none_if_empty (source_name m);
    doc_source_url := _none_if_empty (source_url m);
    doc_content_type := _none_if_empty (content_type m);
    doc_author := _none_if_empty (author m); doc_language := _none_if_empty (language m);
    doc_checksum := _none_if_empty (checksum m); doc_size_bytes := size_bytes m;
    doc_metadata := VDict (default [] (metadata_ m));
    doc_chunk_count := chunk_count m; doc_entity_count := entity_count m;
    doc_relationship_count := relationship_count m; doc_error_message := error_message m;
    doc_extraction_config_hash := extraction_config_hash m;
    doc_extraction_params := extraction_params m;
    doc_graph_mirror_pending :=
      match dl with Postgres => graph_mirror_pending m | SqliteLance => VNone end;
    doc_external_id := external_id m; doc_created_at := created_at m;
    doc_updated_at := updated_at m; doc_processed_at := processed_at m;
    doc_source_timestamp := source_timestamp m; doc_session_id := session_id m |}.

Section store.
(** The offset of the zone the host runs in, where the PostgreSQL driver resolves a
    naive datetime. *)
Context (dl : dialect) (host_offset : Z).

(** Where a datetime falls in the order of a timestamp column: an instant on
    PostgreSQL, a wall clock with its offset discarded on the embedded store. *)
Definition stored_time (d : datetime) : Z :=
  match dl with
  | Postgres => dt_local d - default host_offset (dt_offset d)
  | SqliteLance => dt_local d
  end.

Definition position (k : datetime * Z) : Z * Z := (stored_time k.1, k.2).
Definition scan_key (m : DocumentModel) : datetime * Z := (created_at m, id m).
Definition row_position (m : DocumentModel) : Z * Z := position (scan_key m).

(** [updated_at < bound], NULL for a NULL column. *)
Definition updated_conditions (updated_before : option datetime) : list (DocumentModel -> bool) :=
  match updated_before with
  | None => []
  | Some b => [fun m => match updated_at m with
                        | Some u => stored_time u <? stored_time b
                        | None => false
                        end]
  end.

Definition after_conditions (after : option (datetime * Z)) : list (DocumentModel -> bool) :=
  match after with
  | None => []
  | Some k => [fun m => klt (row_position m) (position k)]
  end.

Definition build_documents_scan_query (ns : Z) (status_ : option string)
    (updated_before : option datetime) (after : option (datetime * Z)) (scan_limit : Z)
  : result (Select (Row := DocumentModel)) :=
  if scan_limit <? 1 then Err ValueError
  else Ok (MkSelect ((fun m => namespace_id m =? ns) :: status_conditions status status_
                       ++ updated_conditions updated_before ++ after_conditions after) scan_limit).

(** [scan_documents] on the table as its one statement finds it. *)
Definition scan_documents (table : list DocumentModel) (ns : Z) (filter_ast : pushdown DocumentModel)
    (status_ : option string) (updated_before : option datetime)
    (after : option (datetime * Z)) (scan_limit : Z) : result (DocumentScanStep (datetime * Z)) :=
  query ← build_documents_scan_query ns status_ updated_before after scan_limit;
  '(query, consumed) ←
    match filter_ast with
    | None => Ok (query, ∅)
    | Some compiled => c ← compiled; Ok (where_ query (predicate c), consumed_keys c)
    end;
  let rows := execute row_position table query in
  docs ← map_m (_document_model_to_domain dl) rows;
  Ok (build_scan_step docs (scan_key <$> last rows) (len rows) scan_limit consumed).

(** [list_documents]: one page by offset. *)
Definition list_documents (table : list DocumentModel) (ns : Z) (status_ : option string)
    (updated_before : option datetime) (limit offset : nat) : result (list Document) :=
  map_m (_document_model_to_domain dl)
    (take limit (drop offset (selected row_position
       ((fun m => namespace_id m =? ns) :: status_conditions status status_
          ++ updated_conditions updated_before) table))).
End store.
End Sql.

(** ** The raw SQLite store *)

Module Sqlite.
(** Timestamps and ids are TEXT, written by [isoformat] and [str]. *)
Record row := MkRow {
  id : string; namespace_id : string; content : option string; status : option string;
  title : option string; source : option string; source_type : option string;
  source_name : option string; source_url : option string; content_type : option string;
  author : option string; language : option string; checksum : option string;
  size_bytes : option Z; metadata_ : option string;
  chunk_count : option Z; entity_count : option Z; relationship_count : option Z;
  error_message : option string; extraction_config_hash : option string;
  extraction_params : option string; created_at : string; updated_at : string;
  processed_at : option string; source_timestamp : option string; external_id : option string }.

Section store.
Context (fromisoformat : string -> option datetime) (isoformat : datetime -> string).
Context (uuid_of : string -> option Z) (uuid_str : Z -> string).
Context (json_loads : string -> result value) (now : datetime).

Definition _dt_to_str : datetime -> string := isoformat.

Definition _parse_dt (val : option string) : result (option datetime) :=
  match val with
  | None | Some "" => Ok None
  | Some s => match fromisoformat s with Some d => Ok (Some d) | None => Err ValueError end
  end.

Definition _json_loads (text : option string) : result value :=
  match text with None | Some "" => Ok (VDict []) | Some s => json_loads s end.

Definition UUID (s : string) : result Z :=
  match uuid_of s with Some u => Ok u | None => Err ValueError end.

Definition _row_to_document (r : row) : result Document :=
  i ← UUID (id r);
  ns ← UUID (namespace_id r);
  st ← DocumentStatus (or_text (status r) "pending");
  md ← _json_loads (metadata_ r);
  ep ← match extraction_params r with
       | None | Some "" => Ok VNone
       | Some s => _json_loads (Some s)
       end;
  ca ← _parse_dt (Some (created_at r));
  ua ← _parse_dt (Some (updated_at r));
  pa ← _parse_dt (processed_at r);
  sts ← _parse_dt (source_timestamp r);
  Document_post_init {|
    doc_id := i; doc_namespace_id := ns; doc_content := or_text (content r) "";
    doc_status := st; doc_title := _none_if_empty (title r);
    doc_source := _none_if_empty (source r); doc_source_type := or_text (source_type r) "library";
    doc_source_name := _none_if_empty (source_name r); doc_source_url := _none_if_empty (source_url r);
    doc_content_type := _none_if_empty (content_type r); doc_author := _none_if_empty (author r);
    doc_language := _none_if_empty (language r); doc_checksum := _none_if_empty (checksum r);
    doc_size_bytes := default 0 (size_bytes r); doc_metadata := md;
    doc_chunk_count := default 0 (chunk_count r); doc_entity_count := default 0 (entity_count r);
    doc_relationship_count := default 0 (relationship_count r);
    doc_error_message := error_message r; doc_extraction_config_hash := extraction_config_hash r;
    doc_extraction_params := ep; doc_graph_mirror_pending := VNone;
    doc_external_id := external_id r; doc_created_at := default now ca;
    doc_updated_at := Some (default now ua); doc_processed_at := pa;
    doc_source_timestamp := sts; doc_session_id := None |}.

(** The position comes off the raw row and raises rather than masks. *)
Definition _scan_key_from_row (r : row) : result (datetime * Z) :=
  ca ← _parse_dt (Some (created_at r));
  match ca with
  | None => Err ValueError
  | Some d => u ← UUID (id r); Ok (d, u)
  end.

Definition row_position (r : row) : string * string := (created_at r, id r).
Definition position (k : datetime * Z) : string * string := (_dt_to_str k.1, uuid_str k.2).

Definition _documents_where (ns : Z) (status_ : option string) (updated_before : option datetime)
  : list (row -> bool) :=
  (fun r => String.eqb (namespace_id r) (uuid_str ns))
  :: status_conditions (fun r => default "" (status r)) status_
  ++ match updated_before with
     | None => []
     | Some b => [fun r => klt (updated_at r) (_dt_to_str b)]
     end.

Definition scan_documents (table : list row) (ns : Z) (filter_ast : pushdown row)
    (status_ : option string) (updated_before : option datetime)
    (after : option (datetime * Z)) (scan_limit : Z) : result (DocumentScanStep (datetime * Z)) :=
  if scan_limit <? 1 then Err ValueError
  else
    let conditions :=
      _documents_where ns status_ updated_before
      ++ match after with None => [] | Some k => [fun r => klt (row_position r) (position k)] end in
    '(conditions, consumed) ←
      match filter_ast with
      | None => Ok (conditions, ∅)
      | Some compiled => c ← compiled; Ok (conditions ++ [predicate c], consumed_keys c)
      end;
    let rows := execute row_position table (MkSelect conditions scan_limit) in
    docs ← map_m _row_to_document rows;
    last_scanned ← match last rows with
                   | None => Ok None
                   | Some r => k ← _scan_key_from_row r; Ok (Some k)
                   end;
    Ok (build_scan_step docs last_scanned (len rows) scan_limit consumed).
End store.
End Sqlite.

(** ** The SurrealDB store *)

(** [[^:]+:⟨?([0-9a-fA-F\-]{36})⟩?] matched at the start: the group, and what follows
    the match. *)
Definition uuid_char (a : Ascii.ascii) : bool :=
  let n := Z.of_nat (Ascii.nat_of_ascii a) in
  (48 <=? n) && (n <=? 57) || (65 <=? n) && (n <=? 70) || (97 <=? n) && (n <=? 102) || (n =? 45).

(** What follows [[^:]+:]. *)
Fixpoint after_colon (seen : bool) (s : string) : option string :=
  match s with
  | EmptyString => None
  | String a s' =>
      if Ascii.eqb a (Ascii.ascii_of_nat 58) then (if seen then Some s' else None) else after_colon true s'
  end.

Fixpoint strip_prefix (p s : string) : option string :=
  match p, s with
  | EmptyString, _ => Some s
  | String a p', String b s' => if Ascii.eqb a b then strip_prefix p' s' else None
  | String _ _, EmptyString => None
  end.

Fixpoint uuid_run (n : nat) (s : string) : option (string * string) :=
  match n, s with
  | O, _ => Some (EmptyString, s)
  | S n', String a s' =>
      if uuid_char a then
        match uuid_run n' s' with Some (g, rest) => Some (String a g, rest) | None => None end
      else None
  | S _, EmptyString => None
  end.

Definition _RECORD_ID_RE (raw : string) : option (string * string) :=
  match after_colon false raw with
  | None => None
  | Some s =>
      match uuid_run 36 (default s (strip_prefix "⟨" s)) with
      | Some (g, rest) => Some (g, default rest (strip_prefix "⟩" rest))
      | None => None
      end
  end.

Module Surreal.
Section store.
(** Record ids as the driver has them, with the engine's order, the text form the
    driver gives them, and the constructor of a [document] record id. *)
Context {rid : Type} `{KeyOrder rid, EqDecision rid}.
Context (rid_str : rid -> string) (record_id : Z -> rid).
Context (uuid_of : string -> option Z) (uuid_str : Z -> string) (uuid5 : string -> Z).

(** Timestamps are stored in nanoseconds; the driver gives microseconds, in UTC. *)
Record row := MkRow {
  id : rid; namespace_id : string; content : string; status : string;
  title : option string; source : option string; source_type : option string;
  source_name : option string; source_url : option string; content_type : option string;
  author : option string; language : option string; checksum : option string;
  size_bytes : Z; metadata_ : option (list (string * value));
  chunk_count : Z; entity_count : Z; relationship_count : Z;
  error_message : option string; extraction_config_hash : option string;
  extraction_params : value; created_at_ns : Z; updated_at_ns : Z;
  processed_at : option datetime; source_timestamp : option datetime;
  external_id : option string; session_id : option rid }.

Definition read_time (ns : Z) : datetime := dt_utc (ns / 1000).
Definition bind_time (d : datetime) : Z := (dt_local d - default 0 (dt_offset d)) * 1000.

Definition _parse_uuid (record_id : rid) (strict : bool) : result Z :=
  let raw := rid_str record_id in
  match _RECORD_ID_RE raw with
  | Some (g, rest) =>
      if strict && negb (String.eqb rest "") then Err ValueError
      else match uuid_of g with Some u => Ok u | None => Err ValueError end
  | None =>
      match uuid_of raw with
      | Some u => Ok u
      | None => if strict then Err ValueError else Ok (uuid5 raw)
      end
  end.

(** [UUID(s)] *)
Definition UUID (s : string) : result Z :=
  match uuid_of s with Some u => Ok u | None => Err ValueError end.

Definition _row_to_document (r : row) : result Document :=
  i ← _parse_uuid (id r) false;
  ns ← UUID (namespace_id r);
  st ← DocumentStatus (status r);
  sid ← match session_id r with
        | None => Ok None
        | Some s => u ← _parse_uuid s false; Ok (Some u)
        end;
  Document_post_init {|
    doc_id := i; doc_namespace_id := ns; doc_content := content r; doc_status := st;
    doc_title := _none_if_empty (title r); doc_source := _none_if_empty (source r);
    doc_source_type := or_text (source_type r) "library";
    doc_source_name := _none_if_empty (source_name r); doc_source_url := _none_if_empty (source_url r);
    doc_content_type := _none_if_empty (content_type r); doc_author := _none_if_empty (author r);
    doc_language := _none_if_empty (language r); doc_checksum := _none_if_empty (checksum r);
    doc_size_bytes := size_bytes r; doc_metadata := VDict (default [] (metadata_ r));
    doc_chunk_count := chunk_count r; doc_entity_count := entity_count r;
    doc_relationship_count := relationship_count r; doc_error_message := error_message r;
    doc_extraction_config_hash := extraction_config_hash r;
    doc_extraction_params := extraction_params r; doc_graph_mirror_pending := VNone;
    doc_external_id := external_id r; doc_created_at := read_time (created_at_ns r);
    doc_updated_at := Some (read_time (updated_at_ns r)); doc_processed_at := processed_at r;
    doc_source_timestamp := source_timestamp r; doc_session_id := sid |}.

Definition _scan_key_from_row (r : row) : result (datetime * Z) :=
  u ← _parse_uuid (id r) true; Ok (read_time (created_at_ns r), u).

Definition row_position (r : row) : Z * rid := (created_at_ns r, id r).
Definition position (k : datetime * Z) : Z * rid := (bind_time k.1, record_id k.2).

(** The conjuncts both statements carry, and the consumed keys. *)
Definition _documents_where (ns : Z) (status_ : option string) (updated_before : option datetime)
    (filter_ast : pushdown row) : result (list (row -> bool) * gset string) :=
  let conditions :=
    (fun r => String.eqb (namespace_id r) (uuid_str ns))
    :: status_conditions status status_
    ++ match updated_before with
       | None => []
       | Some b => [fun r => updated_at_ns r <? bind_time b]
       end in
  match filter_ast with
  | None => Ok (conditions, ∅)
  | Some compiled => c ← compiled; Ok (conditions ++ [predicate c], consumed_keys c)
  end.

(** Two statements: the tie block at the cursor's instant, then the rows strictly
    older.  [table1] and [table2] are the table as each finds it. *)
Definition scan_documents (table1 table2 : list row) (ns : Z) (filter_ast : pushdown row)
    (status_ : option string) (updated_before : option datetime)
    (after : option (datetime * Z)) (scan_limit : Z) : result (DocumentScanStep (datetime * Z)) :=
  if scan_limit <? 1 then Err ValueError
  else
    '(conditions, consumed) ← _documents_where ns status_ updated_before filter_ast;
    let rows :=
      match after with
      | None => []
      | Some k =>
          execute id table1
            (MkSelect (conditions ++ [fun r => created_at_ns r =? bind_time k.1;
                                      fun r => klt (id r) (record_id k.2)]) scan_limit)
      end in
    let remaining := scan_limit - len rows in
    let rows :=
      if remaining >? 0 then
        rows ++ execute row_position table2
          (MkSelect (conditions ++ match after with
                                   | None => []
                                   | Some k => [fun r => created_at_ns r <? bind_time k.1]
                                   end) remaining)
      else rows in
    docs ← map_m _row_to_document rows;
    last_scanned ← match last rows with
                   | None => Ok None
                   | Some r => k ← _scan_key_from_row r; Ok (Some k)
                   end;
    Ok (build_scan_step docs last_scanned (len rows) scan_limit consumed).
End store.
End Surreal.

(** ** The page loop of the coordinator *)

Record DocumentPage (Cur : Type) := MkPage {
  page_documents : list Document;
  next_after : option Cur;
  page_exhausted : bool;
  page_post_filtered_keys : list string }.
Arguments MkPage {Cur}.
Arguments page_documents {Cur}.
Arguments next_after {Cur}.
Arguments page_exhausted {Cur}.
Arguments page_post_filtered_keys {Cur}.

(** The public cursor is the position, re-wrapped. *)
Definition _cursor_from_key {Cur} (key : option Cur) : option Cur := key.

Section page.
Context {Cur : Type}.
(** The relational backend's scan: at its [t]-th call, from a position, bounded. *)
Context (scan_documents : nat -> option Cur -> Z -> result (DocumentScanStep Cur)).
Context (post_filter : option pred) (limit : Z).

Definition post_filtered (docs : list Document) : result (list Document) :=
  match post_filter with
  | None => Ok docs
  | Some p => filter_m (fun d => p (doc_record d)) docs
  end.

(** What the loop leaves behind: the call counter, the matches, the last position, the
    consumed keys, and whether the scan is exhausted. *)
Record outcome := MkOutcome {
  o_calls : nat; o_matches : list Document; o_last : option Cur;
  o_consumed : gset string; o_exhausted : bool }.

(** The [while True] loop; [None] when the fuel runs out. *)
Fixpoint page_loop (fuel t : nat) (cursor last : option Cur) (matches : list Document)
    (consumed : gset string) (remaining : Z) : option (result outcome) :=
  match fuel with
  | O => None
  | S fuel' =>
      let need := limit - len matches in
      let step_limit := Z.min need remaining in
      if need <=? 0 then Some (Ok (MkOutcome t matches last consumed false))
      else if step_limit <=? 0 then Some (Ok (MkOutcome t matches last consumed false))
      else
        match scan_documents t cursor step_limit with
        | Err e => Some (Err e)
        | Ok step =>
            let consumed := consumed ∪ step_consumed_keys step in
            match post_filtered (documents step) with
            | Err e => Some (Err e)
            | Ok rows =>
                let matches := matches ++ rows in
                let remaining := remaining - len (documents step) in
                let last := match last_scanned step with Some k => Some k | None => last end in
                if exhausted step then Some (Ok (MkOutcome (S t) matches last consumed true))
                else page_loop fuel' (S t) (last_scanned step) last matches consumed remaining
            end
        end
  end.
End page.
Arguments MkOutcome {Cur}.
Arguments o_calls {Cur}.
Arguments o_matches {Cur}.
Arguments o_last {Cur}.
Arguments o_consumed {Cur}.
Arguments o_exhausted {Cur}.

Definition RuntimeError : pyexn := OtherError "RuntimeError".

Section coordinator.
Context {Cur : Type}.
Context (fromisoformat : string -> option datetime) (isoformat : datetime -> string).
Context (hash : ast -> string).

(** [None] for a backend that is not configured.  A loop that is given [scan_bound + 1]
    turns always finishes. *)
Definition scan_documents_page
    (relational : option (nat -> option Cur -> Z -> result (DocumentScanStep Cur)))
    (t : nat) (filter_ast : option ast) (limit : Z) (after : option Cur) (scan_bound : option Z)
  : option (result (nat * DocumentPage Cur)) :=
  match relational with
  | None => Some (Err RuntimeError)
  | Some scan =>
      if limit <? 1 then Some (Err ValueError)
      else
        let scan_bound := match scan_bound with None => Z.max (limit * 10) 1000 | Some b => b end in
        if scan_bound <? 1 then Some (Err ValueError)
        else
          match
            match filter_ast with
            | None => Ok (None, ∅)
            | Some n =>
                c ← compile_python fromisoformat isoformat hash (build_compile_context None Split) n;
                Ok (Some (predicate c), filter_leaf_keys n)
            end
          with
          | Err e => Some (Err e)
          | Ok (post_filter, leaf_keys) =>
              match page_loop scan post_filter limit (S (Z.to_nat scan_bound)) t after None [] ∅ scan_bound with
              | None => None
              | Some (Err e) => Some (Err e)
              | Some (Ok o) =>
                  Some (Ok (o_calls o,
                    MkPage (o_matches o)
                      (if o_exhausted o then None else _cursor_from_key (o_last o)) (o_exhausted o)
                      match filter_ast with
                      | None => []
                      | Some _ => sorted_keys (leaf_keys ∖ o_consumed o)
                      end))
              end
          end
  end.
End coordinator.

(** ** Namespaces and the facade *)

Record NamespaceModel := MkNamespace { ns_row_id : Z; ns_stable_id : Z; ns_is_active : bool }.

Definition resolve_namespace (table : list NamespaceModel) (namespace_id : Z) : result Z :=
  match List.filter (fun m => ((ns_stable_id m =? namespace_id) || (ns_row_id m =? namespace_id))
                              && ns_is_active m) table with
  | [] => Err ValueError
  | [m] => Ok (ns_row_id m)
  | _ => Err (OtherError "MultipleResultsFound")
  end.

Definition _reject_non_enumerable_keys (filter_ast : ast) : result unit :=
  if existsb (fun c => match c with
                       | Clause path _ _ => bool_decide (path = ["occurred_at"])
                       | Node _ _ => false
                       end) (iter_leaf_clauses filter_ast)
  then Err (ValidationError "occurred_at" "key_not_enumerable") else Ok tt.

(** [document_scan_overfetch_multiplier] and [document_scan_min_bound], as validated. *)
Record QueryConfig := MkQueryConfig { overfetch_multiplier : Z; min_bound : Z }.

(** A namespace argument: an id, or a text to parse. *)
Inductive namespace_arg := NsId (u : Z) | NsText (s : string).

Section facade.
Context (fromisoformat : string -> option datetime) (isoformat : datetime -> string).
Context (hash : ast -> string) (uuid_of : string -> option Z).

Definition _resolve_namespace (namespaces : list NamespaceModel) (namespace : namespace_arg) : result Z :=
  match namespace with
  | NsId u => resolve_namespace namespaces u
  | NsText s =>
      match uuid_of s with Some u => resolve_namespace namespaces u | None => Err ValueError end
  end.

(** [Khora.list_documents], on a backend given as a function of the resolved namespace,
    the lowered filter, the status and the bound. *)
Definition khora_list_documents {Cur} (cfg : QueryConfig) (namespaces : list NamespaceModel)
    (backend : Z -> option ast -> option string -> nat -> option Cur -> Z -> result (DocumentScanStep Cur))
    (t : nat) (namespace : namespace_arg) (filter : option RecallFilter) (status : option string)
    (limit : Z) (after : option Cur) : option (result (nat * DocumentPage Cur)) :=
  match
    filter_ast ← match filter with
                 | None => Ok None
                 | Some f =>
                     n ← parse_to_ast fromisoformat f;
                     _ ← _reject_non_enumerable_keys n;
                     Ok (Some n)
                 end;
    status_value ← match status with
                   | None => Ok None
                   | Some s => v ← DocumentStatus s; Ok (Some v)
                   end;
    let scan_bound := Z.max (limit * overfetch_multiplier cfg) (min_bound cfg) in
    namespace_id ← _resolve_namespace namespaces namespace;
    Ok (filter_ast, status_value, scan_bound, namespace_id)
  with
  | Err e => Some (Err e)
  | Ok (filter_ast, status_value, scan_bound, namespace_id) =>
      scan_documents_page fromisoformat isoformat hash
        (Some (backend namespace_id filter_ast status_value)) t filter_ast limit after (Some scan_bound)
  end.
End facade.
