(* ===== verification/DocumentScanFacts.v ===== *)
(** The keyset walk is exactly-once: the contract a relational store's scan offers the
    page loop, the three families of stores meeting it, the page loop and the whole walk
    proved against the contract, and the statements for the concrete stores. *)
From S2P Require Import Prelude PyValue FilterModel FilterAst FilterPython FilterExecute PyText.
From S2P Require Import DocumentScan.

Local Open Scope string_scope.
Local Open Scope list_scope.
Local Open Scope Z_scope.

(** ** Lists of outcomes *)

Lemma map_m_app {A B} (f : A -> result B) l1 l2 :
  map_m f (l1 ++ l2) = (a ← map_m f l1; b ← map_m f l2; Ok (a ++ b)).
Proof.
  induction l1 as [|x l1 IH]; cbn; [by destruct (map_m f l2)|].
  destruct (f x); cbn; [|done]. rewrite IH. destruct (map_m f l1); cbn; [|done].
  by destruct (map_m f l2).
Qed.

Lemma filter_m_app {A} (p : A -> result bool) l1 l2 :
  filter_m p (l1 ++ l2) = (a ← filter_m p l1; b ← filter_m p l2; Ok (a ++ b)).
Proof.
  induction l1 as [|x l1 IH]; cbn; [by destruct (filter_m p l2)|].
  destruct (p x) as [b|]; cbn; [|done]. rewrite IH. destruct (filter_m p l1); cbn; [|done].
  destruct (filter_m p l2); cbn; by destruct b.
Qed.

Lemma filter_m_length {A} (p : A -> result bool) l k : filter_m p l = Ok k -> (length k <= length l)%nat.
Proof.
  revert k. induction l as [|x l IH]; cbn; intros k Hk; [simplify_eq; cbn; lia|].
  destruct (p x) as [b|]; [|done]. destruct (filter_m p l) as [k'|]; [|done].
  specialize (IH _ eq_refl). destruct b; simplify_eq; cbn; lia.
Qed.

Lemma map_m_ok_length {A B} (f : A -> result B) l k : map_m f l = Ok k -> length k = length l.
Proof. intros Hk. apply map_m_ok, Forall2_length in Hk. done. Qed.

(** ** Ordered statements *)

Section ordered.
Context {Row K : Type} `{KeyOrder K} (row_key : Row -> K).

Definition newer (a b : Row) : Prop := klt (row_key b) (row_key a) = true.

#[export] Instance newer_trans : Transitive newer.
Proof. intros a b c H1 H2. unfold newer in *. eauto using klt_trans. Qed.

#[export] Instance newer_antisymm : AntiSymm (=) newer.
Proof.
  intros a b H1 H2. unfold newer in *. pose proof (klt_trans _ _ _ H1 H2) as E.
  by rewrite klt_irrefl in E.
Qed.

Lemma newer_irrefl a : ~ newer a a.
Proof. unfold newer. by rewrite klt_irrefl. Qed.

Lemma klt_asymm (a b : K) : klt a b = true -> klt b a = false.
Proof.
  intros H1. destruct (klt b a) eqn:E; [|done].
  pose proof (klt_trans _ _ _ H1 E) as F. by rewrite klt_irrefl in F.
Qed.

Lemma insert_newest_perm r l : insert_desc row_key r l ≡ₚ r :: l.
Proof.
  induction l as [|x l IH]; [done|]. cbn. destruct klt; [done|].
  rewrite IH. apply perm_swap.
Qed.

Lemma order_by_desc_perm l : order_by_desc row_key l ≡ₚ l.
Proof. induction l as [|r l IH]; [done|]. cbn. by rewrite insert_newest_perm, IH. Qed.

Lemma insert_desc_sorted r l :
  StronglySorted newer l -> row_key r ∉ row_key <$> l -> StronglySorted newer (insert_desc row_key r l).
Proof.
  induction 1 as [|x l Hs IH Hx]; intros Hr; [repeat constructor|]. cbn.
  apply not_elem_of_cons in Hr as [Hrx Hr].
  destruct (klt (row_key x) (row_key r)) eqn:E.
  - constructor; [by constructor|]. constructor; [done|].
    eapply Forall_impl; [exact Hx|]. intros y Hy. by transitivity x.
  - constructor; [auto|]. rewrite insert_newest_perm. constructor; [|done].
    destruct (klt_total (row_key r) (row_key x)) as [|E']; [done|done|congruence].
Qed.

Lemma order_by_desc_sorted l : NoDup (row_key <$> l) -> StronglySorted newer (order_by_desc row_key l).
Proof.
  induction l as [|r l IH]; intros Hn; [constructor|]. cbn in *. apply NoDup_cons in Hn as [Hr Hn].
  apply insert_desc_sorted; [auto|]. by rewrite order_by_desc_perm.
Qed.

Lemma sorted_filter (p : Row -> bool) l : StronglySorted newer l -> StronglySorted newer (List.filter p l).
Proof.
  induction 1 as [|x l Hs IH Hx]; [constructor|]. cbn. destruct (p x); [|done].
  constructor; [done|]. rewrite Forall_forall in *. intros y Hy. apply Hx.
  apply list_elem_of_In, filter_In in Hy as [Hy _]. by apply list_elem_of_In.
Qed.

Lemma filter_perm (p : Row -> bool) (l l' : list Row) : l ≡ₚ l' -> List.filter p l ≡ₚ List.filter p l'.
Proof. induction 1; cbn; repeat destruct (p _); eauto using perm_trans, perm_swap. Qed.

Lemma NoDup_filter_keys (p : Row -> bool) l : NoDup (row_key <$> l) -> NoDup (row_key <$> List.filter p l).
Proof.
  induction l as [|x l IH]; [done|]. cbn. rewrite NoDup_cons. intros [Hx Hn].
  destruct (p x); [|by auto]. cbn. apply NoDup_cons. split; [|auto].
  intros Hin. apply Hx. apply list_elem_of_fmap in Hin as (y & -> & Hy).
  apply list_elem_of_fmap. exists y. split; [done|].
  apply list_elem_of_In in Hy. apply filter_In in Hy as [Hy _]. by apply list_elem_of_In.
Qed.

(** Narrowing a statement is filtering its rows. *)
Lemma selected_app conds conds' table :
  NoDup (row_key <$> table) ->
  selected row_key (conds ++ conds') table =
  List.filter (fun r => forallb (fun p => p r) conds') (selected row_key conds table).
Proof.
  intros Hn. apply (StronglySorted_unique newer).
  - apply order_by_desc_sorted, NoDup_filter_keys, Hn.
  - apply sorted_filter, order_by_desc_sorted, NoDup_filter_keys, Hn.
  - unfold selected. rewrite order_by_desc_perm.
    rewrite (filter_perm _ _ _ (order_by_desc_perm _)).
    clear Hn. induction table as [|x l IH]; [done|]. cbn. rewrite forallb_app.
    destruct (forallb _ conds); cbn; [|done]. destruct (forallb _ conds'); by rewrite IH.
Qed.

Lemma selected_sorted conds table :
  NoDup (row_key <$> table) -> StronglySorted newer (selected row_key conds table).
Proof. intros Hn. by apply order_by_desc_sorted, NoDup_filter_keys. Qed.

Lemma elem_of_rows_filter (p : Row -> bool) l x : x ∈ List.filter p l <-> x ∈ l /\ p x = true.
Proof. by rewrite !list_elem_of_In, filter_In. Qed.

Lemma elem_of_selected_rows conds table r :
  r ∈ selected row_key conds table <-> r ∈ table /\ forallb (fun p => p r) conds = true.
Proof. unfold selected. by rewrite order_by_desc_perm, elem_of_rows_filter. Qed.
End ordered.

(** ** The contract of a scan *)

(** What a relational store promises the page loop: at its [t]-th call, resumed from
    [after], it serves a window of a view of the namespace, newest first.  The view may
    differ from call to call. *)
Class ScanBackend (Cur Row K : Type) := {
  sb_position : Cur -> K;
  sb_row_position : Row -> K;
  sb_cursor : Row -> Cur;
  sb_domain : Row -> result Document;
  sb_view : nat -> option Cur -> list Row;
  sb_consumed : gset string }.

Section contract.
Context {Cur Row K : Type} `{KeyOrder K} `{!ScanBackend Cur Row K}.

Definition below (after : option Cur) (r : Row) : bool :=
  match after with None => true | Some k => klt (sb_row_position r) (sb_position k) end.

Definition window (t : nat) (after : option Cur) (n : Z) : list Row :=
  take (Z.to_nat n) (List.filter (below after) (sb_view t after)).

Class LawfulScan (scan : nat -> option Cur -> Z -> result (DocumentScanStep Cur)) := {
  view_sorted t a : StronglySorted (newer sb_row_position) (sb_view t a);
  cursor_position t a r : r ∈ sb_view t a -> sb_position (sb_cursor r) = sb_row_position r;
  scan_spec t a n : 1 <= n ->
    scan t a n =
    (docs ← map_m sb_domain (window t a n);
     Ok (build_scan_step docs (sb_cursor <$> last (window t a n)) (len (window t a n)) n sb_consumed)) }.

Context (scan : nat -> option Cur -> Z -> result (DocumentScanStep Cur)) `{!LawfulScan scan}.

(** The raw rows of calls [t .. t' - 1] of a scan resumed from [after]; [ended] when the
    last of them was exhausted. *)
Definition resume (raws : list Row) (after : option Cur) : option Cur :=
  match last raws with Some r => Some (sb_cursor r) | None => after end.

Record segment (t t' : nat) (after : option Cur) (raws : list Row) (ended : bool) : Prop := {
  seg_sorted : StronglySorted (newer sb_row_position) raws;
  seg_below : Forall (fun r => below after r = true) raws;
  seg_seen : Forall (fun r => exists u a, r ∈ sb_view u a) raws;
  seg_cover r : (forall u a, (t <= u < t')%nat -> r ∈ sb_view u a) -> below after r = true ->
    r ∈ raws \/ (ended = false /\ below (resume raws after) r = true) }.

Lemma elem_of_last (raws : list Row) r : last raws = Some r -> r ∈ raws.
Proof. apply last_Some_elem_of. Qed.

Lemma seen_cursor r : (exists u a, r ∈ sb_view u a) -> sb_position (sb_cursor r) = sb_row_position r.
Proof. intros (u & a & Hr). by eapply cursor_position. Qed.

Lemma below_resume raws after r :
  Forall (fun r => exists u a, r ∈ sb_view u a) raws ->
  Forall (fun r => below after r = true) raws ->
  below (resume raws after) r = true -> below after r = true.
Proof.
  intros Hs Hb. unfold resume. destruct (last raws) as [x|] eqn:E; [|done].
  apply elem_of_last in E. rewrite Forall_forall in Hs, Hb. specialize (Hs _ E). specialize (Hb _ E).
  cbn. rewrite (seen_cursor x Hs). destruct after as [k|]; [|done]. cbn in *. eauto using klt_trans.
Qed.

Lemma sorted_last_newer raws x y :
  StronglySorted (newer sb_row_position) raws -> last raws = Some x -> y ∈ raws ->
  y = x \/ newer sb_row_position y x.
Proof.
  induction 1 as [|z l Hs IH Hz]; [done|]. intros Hl Hy.
  destruct l as [|w l]; [by cbn in Hl; simplify_eq; left; apply list_elem_of_singleton in Hy|].
  rewrite last_cons_cons in Hl. apply elem_of_cons in Hy as [->|Hy]; [|by auto].
  right. rewrite Forall_forall in Hz. apply Hz. by apply elem_of_last.
Qed.

Lemma resume_app l1 l2 after : resume (l1 ++ l2) after = resume l2 (resume l1 after).
Proof. unfold resume. rewrite last_app. by destruct (last l2). Qed.

Lemma segment_app t t1 t2 after l1 l2 e :
  (t <= t1 <= t2)%nat ->
  segment t t1 after l1 false -> segment t1 t2 (resume l1 after) l2 e ->
  segment t t2 after (l1 ++ l2) e.
Proof.
  intros Ht [S1 B1 N1 C1] [S2 B2 N2 C2]. constructor.
  - apply StronglySorted_app_2; [|done|done]. intros x y Hx Hy.
    rewrite Forall_forall in B2. specialize (B2 _ Hy). unfold resume in B2.
    destruct (last l1) as [z|] eqn:E.
    + cbn in B2. rewrite seen_cursor in B2 by (rewrite Forall_forall in N1; eauto using elem_of_last).
      destruct (sorted_last_newer _ _ _ S1 E Hx) as [->|Hxz]; [done|]. by transitivity z.
    + apply last_None in E. subst. by apply not_elem_of_nil in Hx.
  - apply Forall_app; split; [done|]. eapply Forall_impl; [exact B2|]. intros r. by apply below_resume.
  - by apply Forall_app.
  - intros r Hr Hb. rewrite elem_of_app, resume_app.
    destruct (C1 r) as [?|[_ Hb']]; [intros; apply Hr; lia|done|by auto|].
    destruct (C2 r) as [?|?]; [intros; apply Hr; lia|done|by auto|by auto].
Qed.

Lemma sorted_nodup (l : list Row) : StronglySorted (newer sb_row_position) l -> NoDup l.
Proof.
  induction 1 as [|x l Hs IH Hx]; constructor; [|done]. intros Hin.
  rewrite Forall_forall in Hx. by destruct (newer_irrefl sb_row_position x (Hx _ Hin)).
Qed.

(** On a view that does not change, a finished scan has read exactly the rows below its
    start. *)
Lemma segment_static t t' after raws v :
  (t < t')%nat -> (forall u a, sb_view u a = v) -> segment t t' after raws true ->
  raws = List.filter (below after) v.
Proof.
  intros Ht Hv [S B N C].
  assert (Sv : StronglySorted (newer sb_row_position) v) by (rewrite <- (Hv t after); apply view_sorted).
  apply (StronglySorted_unique (newer sb_row_position)); [done|by apply sorted_filter|].
  apply NoDup_Permutation; [by apply sorted_nodup|by apply sorted_nodup, sorted_filter|].
  intros r. rewrite elem_of_rows_filter. rewrite !Forall_forall in *. split.
  - intros Hr. split; [|by auto]. destruct (N _ Hr) as (u & a & Hu). by rewrite Hv in Hu.
  - intros [Hr Hb]. destruct (C r) as [?|[? _]]; [|done|done|done].
    intros u a _. by rewrite Hv.
Qed.

(** One call is a segment. *)
Lemma window_segment t after n : 1 <= n ->
  segment t (S t) after (window t after n) (len (window t after n) <? n).
Proof.
  intros Hn. unfold window. set (F := List.filter (below after) (sb_view t after)).
  assert (SF : StronglySorted (newer sb_row_position) F) by apply sorted_filter, view_sorted.
  assert (HF : forall r, r ∈ F -> r ∈ sb_view t after /\ below after r = true)
    by (intros r; apply elem_of_rows_filter).
  rewrite <- (take_drop (Z.to_nat n) F) in SF. apply StronglySorted_app in SF as (Hlt & S1 & _).
  assert (Hin : forall r, r ∈ take (Z.to_nat n) F -> r ∈ F)
    by (intros r Hr; rewrite <- (take_drop (Z.to_nat n) F); apply elem_of_app; by left).
  constructor; [done| | |].
  - apply Forall_forall. intros r Hr. by apply HF, Hin.
  - apply Forall_forall. intros r Hr. exists t, after. by apply HF, Hin.
  - intros r Hr Hb. assert (HrF : r ∈ F) by (apply elem_of_rows_filter; split; [apply Hr; lia|done]).
    rewrite <- (take_drop (Z.to_nat n) F), elem_of_app in HrF. destruct HrF as [?|Hd]; [by left|right].
    assert (Hlen : (Z.to_nat n < length F)%nat).
    { destruct (decide (length F <= Z.to_nat n)%nat); [|lia].
      rewrite drop_ge in Hd by lia. by apply not_elem_of_nil in Hd. }
    split; [apply Z.ltb_ge; unfold len; rewrite length_take; lia|].
    unfold resume. destruct (last (take (Z.to_nat n) F)) as [x|] eqn:E.
    + cbn. rewrite seen_cursor; [apply Hlt; [by apply elem_of_last|done]|].
      exists t, after. by apply HF, Hin, elem_of_last.
    + apply last_None in E. apply (f_equal length) in E. rewrite length_take in E. cbn in E. lia.
Qed.

(** ** The page loop *)

Context (post_filter : option pred) (limit : Z).

(** What a list of raw rows contributes to the matches. *)
Definition kept (raws : list Row) : result (list Document) :=
  docs ← map_m sb_domain raws; post_filtered post_filter docs.

Lemma kept_app l1 l2 k1 k2 : kept l1 = Ok k1 -> kept l2 = Ok k2 -> kept (l1 ++ l2) = Ok (k1 ++ k2).
Proof.
  unfold kept. rewrite map_m_app. destruct (map_m _ l1); cbn; [|done].
  destruct (map_m _ l2); cbn; [|by destruct (post_filtered _ _)].
  unfold post_filtered. destruct post_filter; [|congruence].
  rewrite filter_m_app. intros -> ->. done.
Qed.

Lemma kept_nil : kept [] = Ok [].
Proof. unfold kept. cbn. by destruct post_filter. Qed.

Lemma post_filtered_length docs k : post_filtered post_filter docs = Ok k -> (length k <= length docs)%nat.
Proof.
  unfold post_filtered. destruct post_filter; [apply filter_m_length|]. intros. by simplify_eq.
Qed.

Lemma segment_nil t after : segment t t after [] false.
Proof. split; [constructor|constructor|constructor|intros x _ Hb; by right]. Qed.

(** What the loop leaves behind, started from [cursor] with [matches] and [remaining]. *)
Record loop_spec (t : nat) (cursor last_ : option Cur) (matches : list Document) (remaining : Z)
    (o : outcome (Cur := Cur)) (raws : list Row) : Prop := {
  ls_calls : (t <= o_calls o)%nat;
  ls_segment : segment t (o_calls o) cursor raws (o_exhausted o);
  ls_kept : exists k, kept raws = Ok k /\ o_matches o = matches ++ k;
  ls_last : o_last o = resume raws last_;
  ls_budget : len raws <= remaining;
  ls_limit : len matches <= limit -> len (o_matches o) <= limit;
  ls_progress : o_exhausted o = false -> len matches < limit -> 0 < remaining -> raws <> [];
  ls_ended : o_exhausted o = true -> (t < o_calls o)%nat;
  ls_more : o_exhausted o = false -> len (o_matches o) = limit \/ len raws = remaining \/ limit < len matches }.

Lemma page_loop_runs fuel t cursor last_ matches consumed remaining :
  0 <= remaining < Z.of_nat fuel ->
  exists out, page_loop scan post_filter limit fuel t cursor last_ matches consumed remaining = Some out /\
    forall o, out = Ok o -> exists raws, loop_spec t cursor last_ matches remaining o raws.
Proof.
  revert t cursor last_ matches consumed remaining.
  induction fuel as [|fuel IH]; intros t cursor last_ matches consumed remaining Hr; [lia|]. cbn [page_loop].
  destruct (limit - len matches <=? 0) eqn:E1.
  { eexists; split; [done|]. intros o [= <-]. exists []. apply Z.leb_le in E1.
    constructor; cbn; try done; try lia; try (intros; exfalso; lia);
      try (unfold len in *; cbn [length] in *; lia);
      [apply segment_nil|exists []; split; [apply kept_nil|by rewrite app_nil_r]]. }
  apply Z.leb_gt in E1.
  destruct (Z.min (limit - len matches) remaining <=? 0) eqn:E2.
  { eexists; split; [done|]. intros o [= <-]. exists []. apply Z.leb_le in E2.
    constructor; cbn; try done; try lia; try (intros; exfalso; lia);
      try (unfold len in *; cbn [length] in *; lia);
      [apply segment_nil|exists []; split; [apply kept_nil|by rewrite app_nil_r]]. }
  apply Z.leb_gt in E2. set (n := Z.min (limit - len matches) remaining) in *.
  rewrite scan_spec by lia. pose proof (window_segment t cursor n ltac:(lia)) as Seg.
  set (w := window t cursor n) in *.
  assert (Hw : len w <= n) by (unfold len, w, window; rewrite length_take; lia).
  destruct (map_m sb_domain w) as [docs|e] eqn:Ed; cbn; [|by eexists].
  pose proof (map_m_ok_length _ _ _ Ed) as Ld.
  destruct (post_filtered post_filter docs) as [rows|e] eqn:Ep; [|by eexists].
  pose proof (post_filtered_length _ _ Ep) as Lp.
  assert (Hk : kept w = Ok rows) by (unfold kept; rewrite Ed; done).
  assert (Hlast : match sb_cursor <$> last w with Some k => Some k | None => last_ end = resume w last_)
    by (unfold resume; by destruct (last w)).
  rewrite Hlast. destruct (len w <? n) eqn:Ee.
  { eexists; split; [done|]. intros o [= <-]. exists w.
    constructor; cbn; try done; try lia; try (intros; exfalso; lia); [by exists rows|].
    intros _. unfold len in *. rewrite length_app. lia. }
  apply Z.ltb_ge in Ee. assert (Hn : len w = n) by lia.
  assert (Hne : w <> []) by (intros ->; unfold len in Hn; cbn in Hn; lia).
  assert (Hcur : sb_cursor <$> last w = resume w cursor).
  { unfold resume. destruct (last w) eqn:E; [done|]. by apply last_None in E. }
  assert (Hld : len docs = n) by (unfold len in *; lia). rewrite Hcur, Hld.
  edestruct (IH (S t) (resume w cursor) (resume w last_) (matches ++ rows)) as (out & -> & Hout); [lia|].
  eexists; split; [done|]. intros o ->. destruct (Hout _ eq_refl) as (raws & [L1 L2 (k & L3 & L3') L4 L5 L6 L7 L8 L9]).
  assert (Hm : len (matches ++ rows) <= limit) by (unfold len in *; rewrite length_app; lia).
  exists (w ++ raws). constructor; try lia.
  - eapply segment_app; [|exact Seg|exact L2]. lia.
  - exists (rows ++ k). split; [by apply kept_app|by rewrite L3', app_assoc].
  - by rewrite L4, resume_app.
  - unfold len in *. rewrite length_app. lia.
  - intros _ _ _ Happ. apply app_eq_nil in Happ as [? _]. done.
  - intros Hf. destruct (L9 Hf) as [?|[Hb|?]]; [by left|right; left|lia].
    unfold len in *. rewrite length_app. lia.
Qed.
End contract.

(** ** Pages and the walk *)

(** The walk a caller makes: [while not page.exhausted], feeding [next_after] back. *)
Fixpoint walk {Cur} (page : nat -> option Cur -> option (result (nat * DocumentPage Cur)))
    (fuel t : nat) (after : option Cur) : option (result (list Document)) :=
  match fuel with
  | O => None
  | S fuel' =>
      match page t after with
      | None => None
      | Some (Err e) => Some (Err e)
      | Some (Ok (t', pg)) =>
          if page_exhausted pg then Some (Ok (page_documents pg))
          else
            match walk page fuel' t' (next_after pg) with
            | Some (Ok ds) => Some (Ok (page_documents pg ++ ds))
            | r => r
            end
      end
  end.

Lemma filter_shorter {A} (p q : A -> bool) l x :
  (forall y, y ∈ l -> q y = true -> p y = true) -> x ∈ l -> p x = true -> q x = false ->
  (length (List.filter q l) < length (List.filter p l))%nat.
Proof.
  intros Hpq Hx Hp Hq. induction l as [|y l IH]; [by apply elem_of_nil in Hx|]. cbn.
  assert (Hle : (length (List.filter q l) <= length (List.filter p l))%nat).
  { clear IH Hx. induction l as [|z l IH]; [done|]. cbn.
    assert (Hl : (length (List.filter q l) <= length (List.filter p l))%nat).
    { apply IH. intros y' Hy'. apply Hpq. rewrite !elem_of_cons in *. tauto. }
    destruct (q z) eqn:Ez; [|destruct (p z); cbn; lia].
    rewrite (Hpq z) by (done || (right; left)). cbn. lia. }
  apply elem_of_cons in Hx as [<-|Hx]; [rewrite Hp, Hq; cbn; lia|].
  specialize (IH ltac:(intros y' Hy'; apply Hpq; by right) Hx).
  destruct (q y) eqn:Ey; [|destruct (p y); cbn; lia]. rewrite (Hpq y) by (done || left). cbn. lia.
Qed.

Section pages.
Context {Cur Row K : Type} `{KeyOrder K} `{!ScanBackend Cur Row K}.
Context (scan : nat -> option Cur -> Z -> result (DocumentScanStep Cur)) `{!LawfulScan scan}.
Context (fromisoformat : string -> option datetime) (isoformat : datetime -> string).
Context (hash : ast -> string) (filter_ast : option ast).

(** The post-filter of a page, when the filter compiles. *)
Definition page_filter : result (option pred) :=
  match filter_ast with
  | None => Ok None
  | Some n =>
      c ← compile_python fromisoformat isoformat hash (build_compile_context None Split) n;
      Ok (Some (predicate c))
  end.

Context (limit : Z) (scan_bound : option Z).

Definition effective_bound : Z :=
  match scan_bound with None => Z.max (limit * 10) 1000 | Some b => b end.

Definition page (t : nat) (after : option Cur) : option (result (nat * DocumentPage Cur)) :=
  scan_documents_page fromisoformat isoformat hash (Some scan) t filter_ast limit after scan_bound.

Lemma page_runs t after pf :
  1 <= limit -> 1 <= effective_bound -> page_filter = Ok pf ->
  exists out, page t after = Some out /\
    forall t' pg, out = Ok (t', pg) -> exists o raws,
      loop_spec pf limit t after None [] effective_bound o raws /\
      t' = o_calls o /\ page_documents pg = o_matches o /\ page_exhausted pg = o_exhausted o /\
      next_after pg = if o_exhausted o then None else o_last o.
Proof.
  intros Hl Hb Hf. unfold page, scan_documents_page.
  rewrite (proj2 (Z.ltb_ge limit 1)) by lia. fold effective_bound.
  rewrite (proj2 (Z.ltb_ge effective_bound 1)) by lia.
  assert (E : exists leaf, match filter_ast with
    | None => Ok (None, ∅)
    | Some n =>
        c ← compile_python fromisoformat isoformat hash (build_compile_context None Split) n;
        Ok (Some (predicate c), filter_leaf_keys n)
    end = Ok (pf, leaf)).
  { unfold page_filter in Hf. destruct filter_ast as [n|]; [|simplify_eq; eauto].
    destruct compile_python; cbn in *; simplify_eq. eauto. }
  destruct E as [leaf E]. rewrite E.
  destruct (page_loop_runs scan pf limit (S (Z.to_nat effective_bound)) t after None [] ∅ effective_bound)
    as (out & -> & Hout); [lia|].
  destruct out as [o|e]; [|by eexists]. eexists; split; [done|]. intros t' pg [= <- <-].
  destruct (Hout _ eq_refl) as [raws Hs]. exists o, raws. done.
Qed.

Lemma page_never_fails_to_return t after :
  1 <= limit -> 1 <= effective_bound -> exists out, page t after = Some out.
Proof.
  intros Hl Hb. destruct page_filter as [pf|e] eqn:E.
  - destruct (page_runs t after pf) as (out & -> & _); eauto.
  - unfold page, scan_documents_page. fold effective_bound.
    rewrite (proj2 (Z.ltb_ge limit 1)), (proj2 (Z.ltb_ge effective_bound 1)) by lia.
    unfold page_filter in E. destruct filter_ast; [|done].
    destruct compile_python; cbn in *; [done|]. eauto.
Qed.

Context (Hlimit : 1 <= limit) (Hbound : 1 <= effective_bound).
Context (pf : option pred) (Hpf : page_filter = Ok pf).

(** What one page establishes. *)
Lemma page_segment t after t' pg :
  page t after = Some (Ok (t', pg)) ->
  exists raws, segment t t' after raws (page_exhausted pg) /\ kept pf raws = Ok (page_documents pg) /\
    len (page_documents pg) <= limit /\ len raws <= effective_bound /\ (t <= t')%nat /\
    (page_exhausted pg = true -> next_after pg = None /\ (t < t')%nat) /\
    (page_exhausted pg = false -> raws <> [] /\ next_after pg = resume raws after /\
       is_Some (next_after pg) /\
       (len (page_documents pg) = limit \/ len raws = effective_bound)).
Proof.
  intros Hp. destruct (page_runs t after pf) as (out & Hout & Hspec); [done..|].
  rewrite Hout in Hp. simplify_eq.
  destruct (Hspec _ _ eq_refl) as (o & raws & [L1 L2 (k & L3 & L3') L4 L5 L6 L7 L8 L9] & -> & Hd & He & Hn).
  rewrite Hd, He, Hn. cbn in L3'. exists raws. subst k.
  change (len (@nil Document)) with 0 in *.
  split_and!; try done; [by apply L6; lia| |]; intros E; rewrite E; cbn; [auto|].
  specialize (L7 E). assert (Hne : raws <> []) by (apply L7; lia).
  rewrite L4. unfold resume. destruct (last raws) eqn:El; [|by apply last_None in El].
  split_and!; [done|done|done|]. destruct (L9 E) as [?|[?|?]]; auto; lia.
Qed.

Lemma walk_segment fuel t after ds :
  walk page fuel t after = Some (Ok ds) ->
  exists raws t', segment t t' after raws true /\ kept pf raws = Ok ds /\ (t < t')%nat.
Proof.
  revert t after ds. induction fuel as [|fuel IH]; intros t after ds Hw; [done|]. cbn [walk] in Hw.
  destruct (page t after) as [[[t1 pg]|e]|] eqn:Ep; [|done|done].
  destruct (page_segment _ _ _ _ Ep) as (raws & Hs & Hk & _ & _ & Ht & H1 & H2).
  destruct (page_exhausted pg) eqn:Ee.
  { simplify_eq. exists raws, t1. destruct (H1 eq_refl). done. }
  destruct (H2 eq_refl) as (_ & Hn & _ & _). rewrite Hn in Hw.
  destruct (walk page fuel t1 (resume raws after)) as [[ds'|]|] eqn:Ew; [|done|done]. simplify_eq.
  destruct (IH _ _ _ Ew) as (raws' & t' & Hs' & Hk' & Ht').
  exists (raws ++ raws'), t'. split_and!; [|by apply kept_app|lia].
  eapply (segment_app scan); [|exact Hs|exact Hs']. lia.
Qed.

(** A page that is not the last leaves strictly fewer rows below its cursor, among all the
    rows that ever were in a view. *)
Lemma resume_shrinks t t' after raws rows :
  (forall u a r, r ∈ sb_view u a -> r ∈ rows) -> segment t t' after raws false -> raws <> [] ->
  (length (List.filter (below (resume raws after)) rows) < length (List.filter (below after) rows))%nat.
Proof.
  intros Hv [S B N C] Hne. destruct (last raws) as [x|] eqn:E; [|by apply last_None in E].
  pose proof (elem_of_last _ _ E) as Hx. pose proof N as N'. pose proof B as B'. rewrite !Forall_forall in N', B'.
  destruct (N' _ Hx) as (u & a & Hxv).
  apply filter_shorter with (x := x).
  - intros y _ Hb. by eapply (below_resume scan).
  - by eapply Hv.
  - by apply B'.
  - unfold resume. rewrite E. cbn. rewrite (seen_cursor scan) by by exists u, a. apply klt_irrefl.
Qed.

Lemma walk_returns rows fuel t after :
  (forall u a r, r ∈ sb_view u a -> r ∈ rows) -> (length (List.filter (below after) rows) < fuel)%nat ->
  exists out, walk page fuel t after = Some out.
Proof.
  intros Hv. revert t after. induction fuel as [|fuel IH]; intros t after Hlt; [lia|]. cbn [walk].
  destruct (page_never_fails_to_return t after) as (out & Ep); [done..|]. rewrite Ep.
  destruct out as [[t1 pg]|e]; [|by eexists].
  destruct (page_segment _ _ _ _ Ep) as (raws & Hs & _ & _ & _ & _ & _ & H2).
  destruct (page_exhausted pg) eqn:Ee; [by eexists|].
  destruct (H2 eq_refl) as (Hne & -> & _ & _).
  destruct (IH t1 (resume raws after)) as (out & ->).
  - pose proof (resume_shrinks _ _ _ _ _ Hv Hs Hne). lia.
  - destruct out; by eexists.
Qed.
End pages.

(** ** The stores meet the contract *)

Lemma NoDup_fmap_weaken {A B C} (f : A -> B) (g : A -> C) (l : list A) :
  (forall a b, g a = g b -> f a = f b) -> NoDup (f <$> l) -> NoDup (g <$> l).
Proof.
  intros Hfg. induction l as [|x l IH]; [constructor|]. cbn. rewrite !NoDup_cons. intros [Hx Hn].
  split; [|auto]. intros Hin. apply Hx. apply list_elem_of_fmap in Hin as (y & Hy & Hin).
  apply list_elem_of_fmap. exists y. auto.
Qed.

Lemma selected_ext {Row K} `{KeyOrder K} (key : Row -> K) conds conds' table :
  (forall r, forallb (fun p => p r) conds = forallb (fun p => p r) conds') ->
  selected key conds table = selected key conds' table.
Proof.
  intros E. unfold selected. f_equal. induction table as [|x l IH]; [done|]. cbn. by rewrite E, IH.
Qed.

Lemma rows_filter_ext {A} (p q : A -> bool) l :
  (forall x, x ∈ l -> p x = q x) -> List.filter p l = List.filter q l.
Proof.
  induction l as [|x l IH]; [done|]. intros E. cbn. rewrite (E x) by left.
  rewrite IH; [done|]. intros y Hy. apply E. by right.
Qed.

Definition pushed {Row} (push : option (CompiledFilter (Row -> bool))) : list (Row -> bool) :=
  match push with None => [] | Some c => [predicate c] end.

Definition pushed_keys {Row} (push : option (CompiledFilter (Row -> bool))) : gset string :=
  match push with None => ∅ | Some c => consumed_keys c end.

Section sql.
Context (dl : Sql.dialect) (host : Z) (db : nat -> list Sql.DocumentModel).
Context (ns : Z) (status : option string) (updated_before : option datetime).
Context (push : option (CompiledFilter (Sql.DocumentModel -> bool))).

(** The rows a scan admits: namespace, status, cutoff, and the pushed fragment. *)
Definition sql_conditions : list (Sql.DocumentModel -> bool) :=
  (fun m => Sql.namespace_id m =? ns) :: status_conditions Sql.status status
  ++ Sql.updated_conditions dl host updated_before ++ pushed push.

#[export] Instance sql_backend : ScanBackend (datetime * Z) Sql.DocumentModel (Z * Z) := {|
  sb_position := Sql.position dl host;
  sb_row_position := Sql.row_position dl host;
  sb_cursor := Sql.scan_key;
  sb_domain := Sql._document_model_to_domain dl;
  sb_view t _ := selected (Sql.row_position dl host) sql_conditions (db t);
  sb_consumed := pushed_keys push |}.

Definition sql_scan (t : nat) (after : option (datetime * Z)) (n : Z) :=
  Sql.scan_documents dl host (db t) ns (Ok <$> push) status updated_before after n.

Lemma sql_keys_nodup (l : list Sql.DocumentModel) :
  NoDup (Sql.id <$> l) -> NoDup (Sql.row_position dl host <$> l).
Proof. apply NoDup_fmap_weaken. by intros a b [= _ ?]. Qed.

Lemma sql_lawful : (forall t, NoDup (Sql.id <$> db t)) -> LawfulScan sql_scan.
Proof.
  intros Hn. split.
  - intros t a. apply selected_sorted, sql_keys_nodup, Hn.
  - done.
  - intros t a n Hpos. unfold sql_scan, Sql.scan_documents, Sql.build_documents_scan_query.
    rewrite (proj2 (Z.ltb_ge n 1)) by lia. cbn [mbind result_bind].
    assert (E : forall conds', (forall r, forallb (fun p => p r) conds' =
        forallb (fun p => p r) (sql_conditions ++ [below a])) ->
      execute (Sql.row_position dl host) (db t) (MkSelect conds' n) = window t a n).
    { intros conds' E. unfold execute, window. cbn [s_limit s_where]. f_equal.
      rewrite (selected_ext _ _ _ _ E), selected_app by apply sql_keys_nodup, Hn.
      apply rows_filter_ext. intros r _. cbn. by rewrite andb_true_r. }
    assert (Ha : forall r, forallb (fun p => p r) (Sql.after_conditions dl host a) = below a r).
    { intros r. destruct a; cbn; [by rewrite andb_true_r|done]. }
    destruct push as [c|] eqn:Ep; cbn [fmap option_fmap option_map mbind result_bind].
    + unfold where_. cbn [s_where s_limit]. rewrite E.
      { destruct map_m; cbn; rewrite ?Ep; reflexivity. }
      intros r. unfold sql_conditions. rewrite Ep. cbn. rewrite !forallb_app. cbn.
      rewrite Ha, !andb_true_r, <- !andb_assoc. do 3 f_equal. by rewrite andb_comm.
    + rewrite E.
      { destruct map_m; cbn; rewrite ?Ep; reflexivity. }
      intros r. unfold sql_conditions. rewrite Ep. cbn. rewrite !forallb_app. cbn.
      by rewrite Ha, !andb_true_r, <- !andb_assoc.
Qed.
End sql.

(** ** What the matches of a scan are *)

(** A document passes the post-filter. *)
Definition passes (pf : option pred) (d : Document) : Prop :=
  match pf with None => True | Some p => p (doc_record d) = Ok true end.

Lemma filter_m_elem {A} (p : A -> result bool) l k :
  filter_m p l = Ok k -> forall x, x ∈ k <-> x ∈ l /\ p x = Ok true.
Proof.
  revert k. induction l as [|y l IH]; cbn; intros k Hk x.
  { simplify_eq. rewrite elem_of_nil. tauto. }
  destruct (p y) as [b|] eqn:Ep; [|done]. destruct (filter_m p l) as [k'|]; [|done].
  specialize (IH _ eq_refl x). rewrite elem_of_cons.
  destruct b; simplify_eq; rewrite ?elem_of_cons, IH; naive_solver congruence.
Qed.

Lemma filter_m_sublist {A} (p : A -> result bool) l k : filter_m p l = Ok k -> k `sublist_of` l.
Proof.
  revert k. induction l as [|y l IH]; cbn; intros k Hk; [by simplify_eq|].
  destruct (p y) as [b|]; [|done]. destruct (filter_m p l) as [k'|]; [|done].
  specialize (IH _ eq_refl). destruct b; simplify_eq; by constructor.
Qed.

Lemma post_filtered_elem pf docs ds :
  post_filtered pf docs = Ok ds -> forall d, d ∈ ds <-> d ∈ docs /\ passes pf d.
Proof.
  unfold post_filtered, passes. destruct pf; [apply filter_m_elem|]. intros [= ->]. tauto.
Qed.

Lemma post_filtered_sublist pf docs ds : post_filtered pf docs = Ok ds -> ds `sublist_of` docs.
Proof. unfold post_filtered. destruct pf; [apply filter_m_sublist|]. by intros [= ->]. Qed.

Lemma sublist_sorted {A} (R : relation A) l k : k `sublist_of` l -> StronglySorted R l -> StronglySorted R k.
Proof.
  induction 1 as [|x l k Hs IH|x l k Hs IH]; intros HS; [done|..]; apply StronglySorted_cons in HS as [Hx HS].
  - constructor; [by auto|]. rewrite Forall_forall in *. intros y Hy. apply Hx.
    by eapply elem_of_sublist.
  - by auto.
Qed.

Section kept.
Context {Cur Row K : Type} `{KeyOrder K} `{!ScanBackend Cur Row K}.

Lemma kept_elem pf (raws : list Row) ds : kept pf raws = Ok ds ->
  forall d, d ∈ ds <-> exists r, r ∈ raws /\ sb_domain r = Ok d /\ passes pf d.
Proof.
  unfold kept. destruct (map_m sb_domain raws) as [docs|] eqn:E; cbn; [|done]. intros Hp d.
  rewrite (post_filtered_elem _ _ _ Hp). apply map_m_ok in E. split.
  - intros [Hd Hps]. apply list_elem_of_lookup in Hd as [i Hi].
    destruct (Forall2_lookup_r _ _ _ _ _ E Hi) as (r & Hr & Hrd).
    exists r. split; [by eapply list_elem_of_lookup_2|done].
  - intros (r & Hr & Hrd & Hps). split; [|done]. apply list_elem_of_lookup in Hr as [i Hi].
    destruct (Forall2_lookup_l _ _ _ _ _ E Hi) as (d' & Hd & Hrd').
    rewrite Hrd in Hrd'. simplify_eq. by eapply list_elem_of_lookup_2.
Qed.

Lemma kept_converts pf (raws : list Row) ds r : kept pf raws = Ok ds -> r ∈ raws -> is_ok (sb_domain r) = true.
Proof.
  unfold kept. destruct (map_m sb_domain raws) as [docs|] eqn:E; cbn; [|done]. intros _ Hr.
  apply map_m_ok in E. apply list_elem_of_lookup in Hr as [i Hi].
  by destruct (Forall2_lookup_l _ _ _ _ _ E Hi) as (d' & _ & ->).
Qed.

Lemma kept_sorted pf (raws : list Row) ds (P : Document -> K) :
  (forall r d, sb_domain r = Ok d -> P d = sb_row_position r) ->
  StronglySorted (newer sb_row_position) raws -> kept pf raws = Ok ds ->
  StronglySorted (newer P) ds.
Proof.
  intros HP HS. unfold kept. destruct (map_m sb_domain raws) as [docs|] eqn:E; cbn; [|done].
  intros Hp. eapply sublist_sorted; [by eapply post_filtered_sublist|].
  apply map_m_ok in E. clear Hp ds. induction E as [|r d raws docs Hrd E IH]; [constructor|].
  apply StronglySorted_cons in HS as [Hr HS]. constructor; [auto|].
  apply Forall_forall. intros d' Hd'. apply list_elem_of_lookup in Hd' as [i Hi].
  destruct (Forall2_lookup_r _ _ _ _ _ E Hi) as (r' & Hr' & Hrd').
  rewrite Forall_forall in Hr. specialize (Hr r' (list_elem_of_lookup_2 _ _ _ Hr')).
  unfold newer in *. by rewrite (HP _ _ Hrd), (HP _ _ Hrd').
Qed.

Lemma below_none (l : list Row) : List.filter (below None) l = l.
Proof. induction l as [|x l IH]; [done|]. cbn. by rewrite IH. Qed.
End kept.

(** The walk over any lawful store: newest first, no position twice, every row that is in
    every view, nothing that was in none. *)
Lemma lawful_walk {Cur Row K} `{KeyOrder K} `{!ScanBackend Cur Row K}
    (scan : nat -> option Cur -> Z -> result (DocumentScanStep Cur)) `{!LawfulScan scan}
    fromisoformat isoformat hash filter_ast limit scan_bound pf fuel ds (P : Document -> K) :
  1 <= limit -> 1 <= effective_bound limit scan_bound ->
  page_filter fromisoformat isoformat hash filter_ast = Ok pf ->
  (forall r d, sb_domain r = Ok d -> P d = sb_row_position r) ->
  walk (page scan fromisoformat isoformat hash filter_ast limit scan_bound) fuel 0 None = Some (Ok ds) ->
  StronglySorted (newer P) ds /\
  (forall r d, (forall u a, r ∈ sb_view u a) -> sb_domain r = Ok d -> passes pf d -> d ∈ ds) /\
  (forall d, d ∈ ds -> exists u a r, r ∈ sb_view u a /\ sb_domain r = Ok d /\ passes pf d).
Proof.
  intros Hl Hb Hpf HP Hw.
  eapply walk_segment in Hw as (raws & t' & [S B N C] & Hk & Ht); [|done..]. split_and!.
  - by eapply kept_sorted.
  - intros r d Hr Hd Hps. apply (kept_elem _ _ _ Hk). exists r. split; [|done].
    by destruct (C r) as [?|[? _]].
  - intros d Hd. apply (kept_elem _ _ _ Hk) in Hd as (r & Hr & Hrd & Hps).
    rewrite Forall_forall in N. destruct (N _ Hr) as (u & a & Hu). by exists u, a, r.
Qed.

(** ** The walk over a SQLAlchemy store *)

Lemma sql_domain_key dl host m d :
  Sql._document_model_to_domain dl m = Ok d ->
  Sql.position dl host (doc_created_at d, doc_id d) = Sql.row_position dl host m.
Proof.
  unfold Sql._document_model_to_domain, Document_post_init.
  destruct DocumentStatus; cbn; [|done]. case_match; [done|]. by intros [= <-].
Qed.

Section sql_walk.
Context (dl : Sql.dialect) (host : Z).
Context (fromisoformat : string -> option datetime) (isoformat : datetime -> string).
Context (hash : ast -> string) (filter_ast : option ast).
Context (ns : Z) (status : option string) (updated_before : option datetime).
Context (push : option (CompiledFilter (Sql.DocumentModel -> bool))).
Context (limit : Z) (scan_bound : option Z).

(** A page of [list_documents] over the instants [db]. *)
Definition sql_page (db : nat -> list Sql.DocumentModel) :=
  page (sql_scan dl host db ns status updated_before push) fromisoformat isoformat hash filter_ast
    limit scan_bound.

(** The row is what the call asks for, apart from the filter. *)
Definition in_scope (m : Sql.DocumentModel) : Prop :=
  forallb (fun p => p m) (sql_conditions dl host ns status updated_before None) = true.

Lemma sql_conditions_push m :
  forallb (fun p => p m) (sql_conditions dl host ns status updated_before push) = true <->
  in_scope m /\ forallb (fun p => p m) (pushed push) = true.
Proof.
  unfold in_scope, sql_conditions. cbn. rewrite !forallb_app. cbn. rewrite andb_true_r.
  rewrite !andb_true_iff. tauto.
Qed.

Definition doc_key (d : Document) : Z * Z := Sql.position dl host (doc_created_at d, doc_id d).

(** The store's fragment of the filter lets the row through. *)
Definition pushed_admits (m : Sql.DocumentModel) : Prop := forallb (fun p => p m) (pushed push) = true.

Lemma walk_exactly_once db rows pf fuel :
  (forall t, NoDup (Sql.id <$> db t)) -> (forall t m, m ∈ db t -> m ∈ rows) -> (length rows < fuel)%nat ->
  1 <= limit -> 1 <= effective_bound limit scan_bound ->
  page_filter fromisoformat isoformat hash filter_ast = Ok pf ->
  exists out, walk (sql_page db) fuel 0 None = Some out /\ forall ds, out = Ok ds ->
  StronglySorted (newer doc_key) ds /\
  (forall m d, (forall t, m ∈ db t) -> in_scope m -> pushed_admits m ->
     Sql._document_model_to_domain dl m = Ok d -> passes pf d -> d ∈ ds) /\
  (forall d, d ∈ ds -> exists t m, m ∈ db t /\ in_scope m /\ pushed_admits m /\
     Sql._document_model_to_domain dl m = Ok d /\ passes pf d).
Proof.
  intros Hn Hrows Hfuel Hl Hb Hpf. pose proof (sql_lawful dl host db ns status updated_before push Hn) as HL.
  destruct (@walk_returns _ _ _ _ _ _ HL fromisoformat isoformat hash filter_ast limit scan_bound Hl Hb pf Hpf
    rows fuel 0 None) as (out & Hw).
  { intros t a r Hr. apply elem_of_selected_rows in Hr as [Hr _]. by eapply Hrows. }
  { by rewrite below_none. }
  exists out. split; [done|]. intros ds ->.
  destruct (@lawful_walk _ _ _ _ _ _ HL _ _ _ _ _ _ _ _ _ doc_key Hl Hb Hpf (sql_domain_key dl host) Hw) as (S & C & N).
  split_and!; [done| |].
  - intros m d Hm Hs Hp Hd Hps. apply (C m); [|done|done]. intros u a.
    apply elem_of_selected_rows. split; [done|]. by apply sql_conditions_push.
  - intros d Hd. destruct (N _ Hd) as (u & a & m & Hu & Hmd & Hps).
    apply elem_of_selected_rows in Hu as [Hu Hc]. apply sql_conditions_push in Hc as [Hc Hp].
    by exists u, m.
Qed.

(** On a table that does not change the walk returns, within one page per row and one
    more, and reads every admitted row. *)
Lemma walk_static table pf :
  NoDup (Sql.id <$> table) -> 1 <= limit -> 1 <= effective_bound limit scan_bound ->
  page_filter fromisoformat isoformat hash filter_ast = Ok pf ->
  exists out, walk (sql_page (fun _ => table)) (S (length table)) 0 None = Some out /\
    forall ds, out = Ok ds ->
      @kept _ _ _ (sql_backend dl host (fun _ => table) ns status updated_before push) pf
        (selected (Sql.row_position dl host) (sql_conditions dl host ns status updated_before push) table)
      = Ok ds.
Proof.
  intros Hn Hl Hb Hpf.
  pose proof (sql_lawful dl host (fun _ => table) ns status updated_before push (fun _ => Hn)) as HL.
  set (v := selected _ _ _).
  destruct (@walk_returns _ _ _ _ _ _ HL
    fromisoformat isoformat hash filter_ast limit scan_bound Hl Hb pf Hpf v (S (length table)) 0 None)
    as (out & Ho); [by intros u a r| |].
  { rewrite below_none. unfold v, selected. rewrite order_by_desc_perm.
    pose proof (List.filter_length_le (fun r => forallb (fun p => p r)
      (sql_conditions dl host ns status updated_before push)) table). lia. }
  exists out. split; [done|]. intros ds ->.
  eapply walk_segment in Ho as (raws & t' & Hseg & Hk & Ht); [|done..].
  eapply (segment_static _ _ _ _ _ v) in Hseg; [|done|done].
  rewrite below_none in Hseg. by subst raws.
Qed.
End sql_walk.
