(* ===== verification/DocumentStores.v ===== *)
(** The raw SQLite and SurrealDB stores meet the contract of a scan; keyset against
    offset enumeration; the statements about pages, walks and the facade, with their
    witnesses. *)
From S2P Require Import Prelude PyValue FilterModel FilterAst FilterPython FilterExecute PyText.
From S2P Require Import DocumentScan DocumentScanFacts.

Local Open Scope string_scope.
Local Open Scope list_scope.
Local Open Scope Z_scope.

(** ** Raw SQLite *)

Section sqlite.
Context (fromisoformat : string -> option datetime) (isoformat : datetime -> string).
Context (uuid_of : string -> option Z) (uuid_str : Z -> string).
Context (json_loads : string -> result value) (now : datetime).
Context (db : nat -> list Sqlite.row) (ns : Z) (status : option string) (updated_before : option datetime).
Context (push : option (CompiledFilter (Sqlite.row -> bool))).

Local Abbreviation scan_key := (Sqlite._scan_key_from_row fromisoformat uuid_of).
Local Abbreviation position := (Sqlite.position isoformat uuid_str).

Definition sqlite_conditions : list (Sqlite.row -> bool) :=
  Sqlite._documents_where isoformat uuid_str ns status updated_before ++ pushed push.

(** A row as [create_document] writes it: its timestamp and id are the text forms of a
    datetime and a UUID, which parse back. *)
Definition sqlite_written (r : Sqlite.row) : Prop :=
  exists k, scan_key r = Ok k /\ position k = Sqlite.row_position r.

#[local] Instance sqlite_backend : ScanBackend (datetime * Z) Sqlite.row (string * string) := {|
  sb_position := position;
  sb_row_position := Sqlite.row_position;
  sb_cursor r := match scan_key r with Ok k => k | Err _ => (now, 0) end;
  sb_domain := Sqlite._row_to_document fromisoformat uuid_of json_loads now;
  sb_view t _ := selected Sqlite.row_position sqlite_conditions (db t);
  sb_consumed := pushed_keys push |}.

Definition sqlite_scan (t : nat) (after : option (datetime * Z)) (n : Z) :=
  Sqlite.scan_documents fromisoformat isoformat uuid_of uuid_str json_loads now (db t) ns
    (Ok <$> push) status updated_before after n.

Lemma sqlite_cursor r k : scan_key r = Ok k -> sb_cursor r = k.
Proof. intros E. unfold sb_cursor, sqlite_backend. by rewrite E. Qed.

Lemma sqlite_lawful :
  (forall t, NoDup (Sqlite.id <$> db t)) -> (forall t, Forall sqlite_written (db t)) ->
  LawfulScan sqlite_scan.
Proof.
  intros Hn Hw.
  assert (Hk : forall t, NoDup (Sqlite.row_position <$> db t)).
  { intros t. eapply NoDup_fmap_weaken; [|apply Hn]. by intros a b [= _ ?]. }
  assert (Hc : forall t a r, r ∈ sb_view t a -> sqlite_written r).
  { intros t a r Hr. apply elem_of_selected_rows in Hr as [Hr _]. specialize (Hw t).
    rewrite Forall_forall in Hw. auto. }
  split.
  - intros t a. apply selected_sorted, Hk.
  - intros t a r Hr. destruct (Hc _ _ _ Hr) as (k & E & P). by rewrite (sqlite_cursor _ _ E).
  - intros t a n Hpos. unfold sqlite_scan, Sqlite.scan_documents.
    rewrite (proj2 (Z.ltb_ge n 1)) by lia.
    set (conds := Sqlite._documents_where _ _ _ _ _).
    set (aft := match a with None => [] | Some k => _ end).
    assert (E : forall conds', (forall r, forallb (fun p => p r) conds' =
        forallb (fun p => p r) (sqlite_conditions ++ [below a])) ->
      execute Sqlite.row_position (db t) (MkSelect conds' n) = window t a n).
    { intros conds' E. unfold execute, window. cbn [s_limit s_where]. f_equal.
      rewrite (selected_ext _ _ _ _ E), selected_app by apply Hk.
      apply rows_filter_ext. intros r _. cbn. by rewrite andb_true_r. }
    assert (Ha : forall r, forallb (fun p => p r) aft = below a r).
    { intros r. unfold aft. destruct a; [|done]. apply andb_true_r. }
    assert (Hl : match last (window t a n) with
                 | None => Ok None
                 | Some r => k ← scan_key r; Ok (Some k)
                 end = Ok (sb_cursor <$> last (window t a n))).
    { destruct (last (window t a n)) as [r|] eqn:El; [|done].
      apply elem_of_last in El. unfold window in El.
      assert (Hr : r ∈ sb_view t a).
      { eapply elem_of_sublist in El; [|apply sublist_take].
        by apply elem_of_rows_filter in El as [? _]. }
      destruct (Hc _ _ _ Hr) as (k & Ek & _). rewrite Ek. cbn [fmap option_fmap option_map].
      by rewrite (sqlite_cursor _ _ Ek). }
    destruct push as [c|] eqn:Ep; cbn [fmap option_fmap option_map mbind result_bind].
    + rewrite E.
      { rewrite Hl. destruct map_m; cbn; rewrite ?Ep; reflexivity. }
      intros r. unfold sqlite_conditions. fold conds. rewrite Ep, !forallb_app, Ha. cbn.
      by destruct (below a r), (predicate c r); rewrite ?andb_true_r, ?andb_false_r.
    + rewrite E.
      { rewrite Hl. destruct map_m; cbn; rewrite ?Ep; reflexivity. }
      intros r. unfold sqlite_conditions. fold conds. rewrite Ep, !forallb_app, Ha. cbn.
      by rewrite !andb_true_r.
Qed.
End sqlite.

(** ** SurrealDB *)

Lemma rows_filter_filter {A} (p q : A -> bool) l :
  List.filter p (List.filter q l) = List.filter (fun x => q x && p x) l.
Proof.
  induction l as [|x l IH]; [done|]. cbn. destruct (q x); cbn; [|done]. destruct (p x); by rewrite IH.
Qed.

Section surreal.
Context {rid : Type} `{KeyOrder rid, EqDecision rid}.
Context (rid_str : rid -> string) (record_id : Z -> rid).
Context (uuid_of : string -> option Z) (uuid_str : Z -> string) (uuid5 : string -> Z).
Context (db1 db2 : nat -> list (Surreal.row (rid := rid))).
Context (ns : Z) (status : option string) (updated_before : option datetime).
Context (push : option (CompiledFilter (Surreal.row (rid := rid) -> bool))).

Local Abbreviation scan_key := (Surreal._scan_key_from_row rid_str uuid_of).
Local Abbreviation position := (Surreal.position record_id).
Local Abbreviation row := (Surreal.row (rid := rid)).

Definition surreal_conditions : list (row -> bool) :=
  (fun r => String.eqb (Surreal.namespace_id r) (uuid_str ns))
  :: status_conditions Surreal.status status
  ++ match updated_before with
     | None => []
     | Some b => [fun r => Surreal.updated_at_ns r <? Surreal.bind_time b]
     end ++ pushed push.

(** A row as the program writes it: a UUID record id, and microseconds. *)
Definition surreal_written (r : row) : Prop :=
  exists u, Surreal._parse_uuid rid_str uuid_of uuid5 (Surreal.id r) true = Ok u /\
    record_id u = Surreal.id r /\ Surreal.created_at_ns r mod 1000 = 0.

Definition older (k : datetime * Z) (r : row) : bool := Surreal.created_at_ns r <? Surreal.bind_time k.1.

(** What the two statements of a step see together: the first statement's table down to
    the cursor's instant, the second's below it. *)
Definition surreal_view (t : nat) (after : option (datetime * Z)) : list row :=
  match after with
  | None => selected Surreal.row_position surreal_conditions (db2 t)
  | Some k =>
      List.filter (fun r => negb (older k r)) (selected Surreal.row_position surreal_conditions (db1 t))
      ++ List.filter (older k) (selected Surreal.row_position surreal_conditions (db2 t))
  end.

#[local] Instance surreal_backend : ScanBackend (datetime * Z) row (Z * rid) := {|
  sb_position := position;
  sb_row_position := Surreal.row_position;
  sb_cursor r := match Surreal._scan_key_from_row rid_str uuid_of uuid5 r with
                 | Ok k => k | Err _ => (dt_utc 0, 0) end;
  sb_domain := Surreal._row_to_document rid_str uuid_of uuid5;
  sb_view := surreal_view;
  sb_consumed := pushed_keys push |}.

Definition surreal_scan (t : nat) (after : option (datetime * Z)) (n : Z) :=
  Surreal.scan_documents rid_str record_id uuid_of uuid_str uuid5 (db1 t) (db2 t) ns (Ok <$> push)
    status updated_before after n.

Context (Hn1 : forall t, NoDup (Surreal.id <$> db1 t)) (Hn2 : forall t, NoDup (Surreal.id <$> db2 t)).
Context (Hw1 : forall t, Forall surreal_written (db1 t)) (Hw2 : forall t, Forall surreal_written (db2 t)).

Lemma surreal_keys (l : list row) : NoDup (Surreal.id <$> l) -> NoDup (Surreal.row_position <$> l).
Proof. apply NoDup_fmap_weaken. by intros a b [= _ ?]. Qed.

Lemma written_cursor r : surreal_written r ->
  Surreal._scan_key_from_row rid_str uuid_of uuid5 r = Ok (sb_cursor r) /\
  sb_position (sb_cursor r) = sb_row_position r.
Proof.
  intros (u & Hu & Hr & Hm). assert (E : Surreal._scan_key_from_row rid_str uuid_of uuid5 r =
    Ok (Surreal.read_time (Surreal.created_at_ns r), u))
    by (unfold Surreal._scan_key_from_row; rewrite Hu; done).
  assert (C : sb_cursor r = (Surreal.read_time (Surreal.created_at_ns r), u))
    by (unfold sb_cursor, surreal_backend; by rewrite E).
  rewrite C. split; [done|]. unfold sb_position, sb_row_position, surreal_backend.
  unfold Surreal.position, Surreal.row_position, Surreal.bind_time, Surreal.read_time. cbn.
  rewrite Hr. f_equal. pose proof (Z.div_mod (Surreal.created_at_ns r) 1000). lia.
Qed.

Lemma view_elem t a r : r ∈ surreal_view t a -> surreal_written r.
Proof.
  specialize (Hw1 t). specialize (Hw2 t). rewrite Forall_forall in Hw1, Hw2. unfold surreal_view.
  destruct a as [k|].
  - rewrite elem_of_app, !elem_of_rows_filter, !elem_of_selected_rows. intros [[[? _] _]|[[? _] _]]; auto.
  - rewrite elem_of_selected_rows. intros [? _]. auto.
Qed.

Lemma surreal_view_sorted t a : StronglySorted (newer Surreal.row_position) (surreal_view t a).
Proof.
  unfold surreal_view. destruct a as [k|]; [|by apply selected_sorted, surreal_keys].
  apply StronglySorted_app_2; [|by apply sorted_filter, selected_sorted, surreal_keys..].
  intros x y Hx Hy. apply elem_of_rows_filter in Hx as [_ Hx], Hy as [_ Hy].
  unfold newer, older in *. cbn. unfold row_value_lt. apply orb_true_iff. left. cbn.
  apply negb_true_iff, Z.ltb_ge in Hx. apply Z.ltb_lt in Hy. apply Z.ltb_lt. lia.
Qed.

(** The tie block of the cursor, ordered by id alone, is a part of the ordered table. *)
Lemma tie_block k t :
  selected Surreal.id (surreal_conditions ++
    [fun r => Surreal.created_at_ns r =? Surreal.bind_time k.1;
     fun r => klt (Surreal.id r) (record_id k.2)]) (db1 t) =
  List.filter (below (Some k))
    (List.filter (fun r => negb (older k r)) (selected Surreal.row_position surreal_conditions (db1 t))).
Proof.
  set (S := selected Surreal.row_position surreal_conditions (db1 t)).
  assert (SS : StronglySorted (newer Surreal.row_position) S) by (by apply selected_sorted, surreal_keys).
  rewrite selected_app by done. set (S' := selected Surreal.id surreal_conditions (db1 t)).
  assert (Hperm : S' ≡ₚ S) by (unfold S, S', selected; by rewrite !order_by_desc_perm).
  set (p := fun r => forallb _ _).
  assert (Ep : forall r, p r = negb (older k r) && below (Some k) r).
  { intros r. unfold p, older. cbn. unfold row_value_lt. cbn. rewrite andb_true_r.
    destruct (Z.eqb_spec (Surreal.created_at_ns r) (Surreal.bind_time k.1)) as [->|Hne]; cbn.
    - rewrite Z.ltb_irrefl. cbn. by rewrite bool_decide_true.
    - rewrite (bool_decide_false _ Hne). cbn. rewrite orb_false_r. by destruct (_ <? _). }
  rewrite rows_filter_filter. rewrite (rows_filter_ext _ p S (fun r _ => eq_sym (Ep r))).
  apply (StronglySorted_unique (newer Surreal.id)).
  - by apply sorted_filter, selected_sorted.
  - assert (Hp : forall r, r ∈ List.filter p S -> Surreal.created_at_ns r = Surreal.bind_time k.1).
    { intros r Hr. apply elem_of_rows_filter in Hr as [_ Hr]. unfold p in Hr. cbn in Hr.
      apply andb_true_iff in Hr as [Hr _]. by apply Z.eqb_eq. }
    apply (sorted_filter Surreal.row_position p) in SS. revert SS Hp. generalize (List.filter p S) as l.
    induction 1 as [|x l HS IH Hx]; intros Hp; [constructor|]. constructor.
    + apply IH. intros r Hr. apply Hp. by right.
    + rewrite Forall_forall in *. intros y Hy. specialize (Hx y Hy). unfold newer in *. cbn in Hx.
      unfold row_value_lt in Hx. cbn in Hx. rewrite !Hp, Z.ltb_irrefl in Hx; [|by left|by right].
      cbn in Hx. by apply andb_true_iff in Hx as [_ Hx].
  - by apply filter_perm.
Qed.

Lemma surreal_window k t n : 1 <= n ->
  let q1 := execute Surreal.id (db1 t) (MkSelect (surreal_conditions ++
    [fun r => Surreal.created_at_ns r =? Surreal.bind_time k.1;
     fun r => klt (Surreal.id r) (record_id k.2)]) n) in
  (if n - len q1 >? 0 then
     q1 ++ execute Surreal.row_position (db2 t)
       (MkSelect (surreal_conditions ++ [fun r => Surreal.created_at_ns r <? Surreal.bind_time k.1]) (n - len q1))
   else q1) = window t (Some k) n.
Proof.
  intros Hpos q1. unfold window, sb_view, surreal_backend, surreal_view. rewrite List.filter_app, <- tie_block.
  rewrite (rows_filter_filter (below (Some k)) (older k)), (rows_filter_ext _ (older k)).
  2:{ intros r _. unfold older. destruct (_ <? _) eqn:E; [|done]. cbn. unfold row_value_lt. cbn. by rewrite E. }
  unfold q1, execute. cbn [s_where s_limit]. set (X := selected Surreal.id _ _).
  rewrite selected_app by (by apply surreal_keys).
  rewrite (rows_filter_ext (fun r => forallb _ _) (older k)) by (intros; apply andb_true_r).
  set (Y := List.filter (older k) _). rewrite take_app. unfold len. rewrite length_take.
  destruct (n - Z.of_nat (Z.to_nat n `min` length X) >? 0) eqn:E.
  - f_equal. f_equal. lia.
  - rewrite Z.gtb_ltb, Z.ltb_ge in E. replace (Z.to_nat n - length X)%nat with 0%nat by lia.
    by rewrite take_0, app_nil_r.
Qed.

Lemma surreal_view_single t a : db1 t = db2 t ->
  surreal_view t a = selected Surreal.row_position surreal_conditions (db2 t).
Proof.
  intros E. pose proof (surreal_view_sorted t a) as HS. revert HS. unfold surreal_view. rewrite E.
  destruct a as [k|]; [|done]. intros HS.
  apply (StronglySorted_unique (newer Surreal.row_position)); [done|by apply selected_sorted, surreal_keys|].
  clear HS. induction (selected _ _ _) as [|x l IH]; [done|]. cbn. destruct (older k x); cbn.
  - by rewrite <- Permutation_middle, IH.
  - by rewrite IH.
Qed.

Lemma surreal_lawful : LawfulScan surreal_scan.
Proof.
  split.
  - apply surreal_view_sorted.
  - intros t a r Hr. by apply written_cursor, (view_elem t a).
  - intros t a n Hpos. unfold surreal_scan, Surreal.scan_documents.
    rewrite (proj2 (Z.ltb_ge n 1)) by lia.
    assert (Hw : Surreal._documents_where uuid_str ns status updated_before (Ok <$> push) =
      Ok (surreal_conditions, pushed_keys push)).
    { unfold Surreal._documents_where, surreal_conditions, pushed_keys.
      destruct push as [c|]; cbn; [|by rewrite app_nil_r]. by rewrite <- app_assoc. }
    rewrite Hw. cbn [mbind result_bind].
    match goal with |- context [map_m _ (if ?b then ?x else ?y)] =>
      assert (E : (if b then x else y) = window t a n) end.
    { destruct a as [k|]; [by apply surreal_window|].
      replace (n - len [] >? 0) with true by (symmetry; apply Z.gtb_lt; unfold len; cbn; lia).
      rewrite app_nil_r. unfold execute, window. cbn [s_where s_limit]. rewrite below_none.
      unfold len. cbn [length]. by rewrite Z.sub_0_r. }
    rewrite E.
    assert (Hl : match last (window t a n) with
                 | None => Ok None
                 | Some r => k ← Surreal._scan_key_from_row rid_str uuid_of uuid5 r; Ok (Some k)
                 end = Ok (sb_cursor <$> last (window t a n))).
    { destruct (last (window t a n)) as [r|] eqn:El; [|done]. apply elem_of_last in El. unfold window in El.
      eapply elem_of_sublist in El; [|apply sublist_take]. apply elem_of_rows_filter in El as [Hr _].
      apply view_elem in Hr. destruct (written_cursor r Hr) as [-> _]. done. }
    rewrite Hl. by destruct map_m.
Qed.
End surreal.

(** ** The walk *)

(** C13.  Exactly once, while the table changes: walking the pages of [list_documents] over
    a SQLAlchemy store, each statement seeing a table of its own, returns when it may turn
    more pages than there are rows that ever were in the table - with documents, or with the
    error of a row that does not convert or that the filter raises on.  The documents are
    strictly newest first, so none comes twice; they are every matching document in the
    table throughout which the fragment that the store pushed down admits (all of them when
    nothing is pushed), and nothing that was not in the namespace and matching in the table
    some statement saw. *)
Theorem keyset_walk_exactly_once dl host fromisoformat isoformat hash filter_ast ns status
    updated_before push limit scan_bound db rows pf fuel :
  (forall t, NoDup (Sql.id <$> db t)) -> (forall t m, m ∈ db t -> m ∈ rows) -> (length rows < fuel)%nat ->
  1 <= limit -> 1 <= effective_bound limit scan_bound ->
  page_filter fromisoformat isoformat hash filter_ast = Ok pf ->
  exists out, walk (sql_page dl host fromisoformat isoformat hash filter_ast ns status updated_before push
    limit scan_bound db) fuel 0 None = Some out /\ forall ds, out = Ok ds ->
  StronglySorted (newer (doc_key dl host)) ds /\
  (forall m d, (forall t, m ∈ db t) -> in_scope dl host ns status updated_before m -> pushed_admits push m ->
     Sql._document_model_to_domain dl m = Ok d -> passes pf d -> d ∈ ds) /\
  (forall d, d ∈ ds -> exists t m, m ∈ db t /\ in_scope dl host ns status updated_before m /\ pushed_admits push m /\
     Sql._document_model_to_domain dl m = Ok d /\ passes pf d).
Proof. apply walk_exactly_once. Qed.

(** C35.  The walk ends: over a table that does not change it returns after at most one page
    per row and one more, whatever the filter keeps; and it returns documents only if
    every row the statements admit converts, so that one row with an unknown status or a
    blank [external_id] stops the enumeration for good. *)
Theorem keyset_walk_terminates dl host fromisoformat isoformat hash filter_ast ns status
    updated_before push limit scan_bound table pf :
  NoDup (Sql.id <$> table) -> 1 <= limit -> 1 <= effective_bound limit scan_bound ->
  page_filter fromisoformat isoformat hash filter_ast = Ok pf ->
  exists out,
    walk (sql_page dl host fromisoformat isoformat hash filter_ast ns status updated_before push
      limit scan_bound (fun _ => table)) (S (length table)) 0 None = Some out /\
    (is_ok out = true -> forall m, m ∈ table -> in_scope dl host ns status updated_before m ->
       forallb (fun p => p m) (pushed push) = true ->
       is_ok (Sql._document_model_to_domain dl m) = true).
Proof.
  intros Hn Hl Hb Hpf.
  destruct (walk_static dl host fromisoformat isoformat hash filter_ast ns status updated_before push
    limit scan_bound table pf Hn Hl Hb Hpf) as (out & Ho & Hk).
  exists out. split; [done|]. intros Hok m Hm Hs Hp. destruct out as [ds|]; [|done].
  eapply (@kept_converts _ _ _ (sql_backend dl host (fun _ => table) ns status updated_before push));
    [by apply Hk|].
  apply elem_of_selected_rows. split; [done|]. by apply sql_conditions_push.
Qed.

(** A page of the coordinator over a SQLAlchemy store always comes back; it reads at
    most [scan_bound] rows, holds at most [limit] documents, and its [next_after] is
    [None] exactly when it is exhausted; otherwise it is the position of the last raw row
    read, matching or not, and the page is full or has used up the bound. *)
Theorem page_contract dl host fromisoformat isoformat hash filter_ast ns status
    updated_before push limit scan_bound db pf t after :
  (forall t, NoDup (Sql.id <$> db t)) -> 1 <= limit -> 1 <= effective_bound limit scan_bound ->
  page_filter fromisoformat isoformat hash filter_ast = Ok pf ->
  exists out,
    sql_page dl host fromisoformat isoformat hash filter_ast ns status updated_before push
      limit scan_bound db t after = Some out /\
    forall t' pg, out = Ok (t', pg) ->
      len (page_documents pg) <= limit /\
      (next_after pg = None <-> page_exhausted pg = true) /\
      exists raws, len raws <= effective_bound limit scan_bound /\
        (forall d, d ∈ page_documents pg <->
           exists m, m ∈ raws /\ Sql._document_model_to_domain dl m = Ok d /\ passes pf d) /\
        (page_exhausted pg = false ->
           next_after pg = Sql.scan_key <$> last raws /\
           (len (page_documents pg) = limit \/ len raws = effective_bound limit scan_bound)).
Proof.
  intros Hn Hl Hb Hpf.
  pose proof (sql_lawful dl host db ns status updated_before push Hn) as HL.
  destruct (@page_never_fails_to_return _ _ _ _ _ _ HL
    fromisoformat isoformat hash filter_ast limit scan_bound t after Hl Hb) as (out & Ho).
  exists out. split; [done|]. intros t' pg ->.
  destruct (@page_segment _ _ _ _ _ _ HL _ _ _ _ _ _ Hl Hb pf Hpf _ _ _ _ Ho)
    as (raws & _ & Hk & Hlen & Hbud & _ & He & Hne).
  split_and!; [done| |].
  - destruct (page_exhausted pg) eqn:E; [by destruct (He eq_refl)|].
    destruct (Hne eq_refl) as (_ & _ & [k ->] & _). done.
  - exists raws. split_and!; [done|by apply (kept_elem _ _ _ Hk)|]. intros E.
    destruct (Hne E) as (Hr & -> & _ & Hf). split; [|done]. unfold resume.
    destruct (last raws) eqn:El; [done|]. by apply last_None in El.
Qed.

(** SurrealDB has no row-value comparison: its scan reads the tie block of the cursor's
    instant and the rows strictly older by two statements.  On one table their
    concatenation is the row-value window the other stores read, in order and within the
    limit. *)
Theorem surreal_split_is_window {rid : Type} `{KeyOrder rid, EqDecision rid}
    (rid_str : rid -> string) record_id uuid_of uuid_str uuid5 table ns status updated_before push after n :
  NoDup (Surreal.id <$> table) -> Forall (surreal_written rid_str record_id uuid_of uuid5) table -> 1 <= n ->
  let rows := take (Z.to_nat n)
    (List.filter (fun r => match after with
                           | None => true
                           | Some k => klt (Surreal.row_position r) (Surreal.position record_id k)
                           end)
       (selected Surreal.row_position (surreal_conditions uuid_str ns status updated_before push) table)) in
  exists last_scanned,
    Surreal.position record_id <$> last_scanned = Surreal.row_position <$> last rows /\
    Surreal.scan_documents rid_str record_id uuid_of uuid_str uuid5 table table ns (Ok <$> push)
      status updated_before after n =
    (docs ← map_m (Surreal._row_to_document rid_str uuid_of uuid5) rows;
     Ok (build_scan_step docs last_scanned (len rows) n (pushed_keys push))).
Proof.
  intros Hn Hw Hpos rows.
  pose proof (surreal_lawful rid_str record_id uuid_of uuid_str uuid5 (fun _ => table) (fun _ => table)
    ns status updated_before push (fun _ => Hn) (fun _ => Hn) (fun _ => Hw) (fun _ => Hw)) as HL.
  set (SB := surreal_backend rid_str record_id uuid_of uuid_str uuid5 (fun _ => table) (fun _ => table)
    ns status updated_before push) in *.
  assert (E : window 0 after n = rows).
  { unfold window, rows. f_equal. unfold sb_view, SB, surreal_backend.
    rewrite surreal_view_single by done. apply rows_filter_ext. by intros r _; destruct after. }
  exists (sb_cursor <$> last rows). split.
  - rewrite <- E. destruct (last (window 0 after n)) as [r|] eqn:El; [|done]. cbn [fmap option_fmap option_map].
    f_equal. assert (Hr : r ∈ sb_view 0 after).
    { apply elem_of_last in El. unfold window in El.
      eapply elem_of_sublist in El; [|apply sublist_take]. by apply elem_of_rows_filter in El as [? _]. }
    exact (@cursor_position _ _ _ _ _ _ HL 0%nat after r Hr).
  - rewrite <- E. apply (scan_spec (LawfulScan := HL) 0 after n Hpos).
Qed.

(** ** Keyset and offset *)

Lemma sorted_below_drop {Row K} `{KeyOrder K} (key : Row -> K) (S : list Row) k x :
  StronglySorted (newer key) S -> S !! k = Some x ->
  List.filter (fun r => klt (key r) (key x)) S = drop (Datatypes.S k) S.
Proof.
  intros HS. revert k. induction HS as [|y S HS IH Hy]; intros k Hk; [done|].
  rewrite Forall_forall in Hy. destruct k as [|k]; cbn in *.
  - simplify_eq. rewrite klt_irrefl.
    transitivity (List.filter (fun _ => true) S).
    + apply rows_filter_ext. intros r Hr. by apply Hy.
    + clear. induction S as [|z S IH]; [done|]. cbn. by rewrite IH.
  - rewrite (klt_asymm (key x) (key y)); [by apply IH|]. apply Hy. by eapply list_elem_of_lookup_2.
Qed.

(** Keyset agrees with offset: on one table, the scan resumed from the [k]-th admitted
    row serves the page [list_documents] serves at offset [k + 1]. *)
Theorem offset_page_is_window dl host table ns status updated_before limit k prev :
  NoDup (Sql.id <$> table) -> (1 <= limit)%nat ->
  selected (Sql.row_position dl host) (sql_conditions dl host ns status updated_before None) table !! k
    = Some prev ->
  (s ← Sql.scan_documents dl host table ns None status updated_before (Some (Sql.scan_key prev))
         (Z.of_nat limit); Ok (documents s)) =
  Sql.list_documents dl host table ns status updated_before limit (S k).
Proof.
  intros Hn Hl Hk.
  pose proof (sql_lawful dl host (fun _ => table) ns status updated_before None (fun _ => Hn)) as HL.
  pose proof (@scan_spec _ _ _ _ _ _ HL 0%nat (Some (Sql.scan_key prev)) (Z.of_nat limit) ltac:(lia)) as E.
  unfold sql_scan in E. cbn [fmap option_fmap option_map] in E. rewrite E.
  unfold Sql.list_documents, window. rewrite Nat2Z.id. unfold sb_view, sql_backend.
  change (List.filter (below (Some (Sql.scan_key prev)))) with
    (List.filter (fun r => klt (Sql.row_position dl host r) (Sql.row_position dl host prev))).
  rewrite (sorted_below_drop _ _ k); [|by apply selected_sorted, sql_keys_nodup|done].
  unfold sql_conditions, pushed, sb_domain. rewrite app_nil_r.
  by destruct (map_m (Sql._document_model_to_domain dl) _).
Qed.

(** ** The facade *)

(** What [Khora.list_documents] lets through: a page is served only for a namespace
    that resolves, a positive limit, a known status, and a filter no leaf of which, at any
    depth, is [occurred_at], which a document does not have. *)
Theorem list_documents_guards {Cur} fromisoformat isoformat hash uuid_of cfg namespaces
    (backend : Z -> option ast -> option string -> nat -> option Cur -> Z -> result (DocumentScanStep Cur))
    t namespace filter status limit after t' pg :
  khora_list_documents fromisoformat isoformat hash uuid_of cfg namespaces backend t namespace filter
    status limit after = Some (Ok (t', pg)) ->
  is_ok (_resolve_namespace uuid_of namespaces namespace) = true /\ 1 <= limit /\
  (forall s, status = Some s -> s ∈ DocumentStatus_values) /\
  (forall f, filter = Some f -> exists n, parse_to_ast fromisoformat f = Ok n /\
     forall path op v, Clause path op v ∈ iter_leaf_clauses n -> path <> ["occurred_at"]).
Proof.
  unfold khora_list_documents. intros Hp.
  match type of Hp with (match ?m with _ => _ end = _) => destruct m as [[[[fa st] sb] nsid]|e] eqn:E end;
    [|done].
  assert (Hl : 1 <= limit).
  { unfold scan_documents_page in Hp. destruct (limit <? 1) eqn:El; [done|]. apply Z.ltb_ge in El. lia. }
  destruct filter as [f|]; cbn in E.
  - destruct (parse_to_ast fromisoformat f) as [n|] eqn:En; cbn in E; [|done].
    unfold _reject_non_enumerable_keys in E. destruct (existsb _ _) eqn:Ex; cbn in E; [done|].
    destruct (match status with None => _ | Some s => _ end) eqn:Es; cbn in E; [|done].
    destruct (_resolve_namespace _ _ _) eqn:Er; cbn in E; [|done].
    split_and!; [done|done| |].
    + intros s ->. unfold DocumentStatus in Es. destruct (mem_str s _) eqn:Em; cbn in Es; [by apply mem_str_true|done].
    + intros f' [= <-]. exists n. split; [done|]. intros path op v Hin ->.
      apply not_true_iff_false in Ex. apply Ex, existsb_exists.
      eexists; split; [by apply list_elem_of_In|]. by apply bool_decide_eq_true.
  - destruct (match status with None => _ | Some s => _ end) eqn:Es; cbn in E; [|done].
    destruct (_resolve_namespace _ _ _) eqn:Er; cbn in E; [|done].
    split_and!; [done|done| |done].
    intros s ->. unfold DocumentStatus in Es. destruct (mem_str s _) eqn:Em; cbn in Es; [by apply mem_str_true|done].
Qed.

(** ** Witnesses *)

Definition sample_doc (i t : Z) (st : string) (source_type : string) : Sql.DocumentModel :=
  Sql.MkModel i 7 "" st None (Some source_type) None None None None None None None 0 None None
    0 0 0 None None VNone VNone (dt_utc t) (Some (dt_utc t)) None None None.

(** A document arrives above the walk and one leaves behind it. *)
Definition sample_db (t : nat) : list Sql.DocumentModel :=
  match t with
  | O => [sample_doc 1 10 "completed" "web"; sample_doc 2 20 "completed" "mail";
          sample_doc 3 20 "completed" "web"; sample_doc 4 30 "completed" "web"]
  | _ => [sample_doc 9 40 "completed" "web"; sample_doc 1 10 "completed" "web";
          sample_doc 2 20 "completed" "mail"; sample_doc 3 20 "completed" "web"]
  end.

Definition sample_web : ast := Node AND [Clause ["source_type"] EQ (VStr "web")].

Definition sample_push : option (CompiledFilter (Sql.DocumentModel -> bool)) :=
  Some (MkCompiled (fun m => String.eqb (or_text (Sql.source_type m) "library") "web") {["source_type"]} "").

Definition sample_pred : option pred :=
  match page_filter (fun _ => None) (fun _ => "") (fun _ => "") (Some sample_web) with
  | Ok pf => pf | Err _ => None
  end.

(** All rows that are ever in the table. *)
Definition sample_rows : list Sql.DocumentModel := sample_doc 9 40 "completed" "web" :: sample_db 0.

Lemma keyset_walk_exactly_once_witness :
  exists ds, walk (sql_page Sql.Postgres 0 (fun _ => None) (fun _ => "") (fun _ => "") (Some sample_web) 7
    None None sample_push 1 (Some 10) sample_db) 6 0 None = Some (Ok ds) /\
  doc_id <$> ds = [4; 3; 1] /\ StronglySorted (newer (doc_key Sql.Postgres 0)) ds.
Proof.
  destruct (keyset_walk_exactly_once Sql.Postgres 0 (fun _ => None) (fun _ => "") (fun _ => "")
    (Some sample_web) 7 None None sample_push 1 (Some 10) sample_db sample_rows sample_pred 6) as (out & Hw & H).
  - intros [|t]; apply (bool_decide_unpack _); vm_compute; exact I.
  - intros [|t] m; unfold sample_rows, sample_db; rewrite !elem_of_cons; tauto.
  - cbn. lia.
  - lia.
  - vm_compute. done.
  - reflexivity.
  - rewrite Hw. vm_compute in Hw. injection Hw as <-. eexists. split; [reflexivity|].
    split; [reflexivity|]. by apply (H _ eq_refl).
Defined.

(** A row the program cannot convert. *)
Definition sample_bad : list Sql.DocumentModel :=
  [sample_doc 1 10 "completed" "web"; sample_doc 2 20 "lost" "web"].

Lemma keyset_walk_terminates_witness :
  exists out, walk (sql_page Sql.SqliteLance 0 (fun _ => None) (fun _ => "") (fun _ => "") None 7
    None None None 5 None (fun _ => sample_bad)) 3 0 None = Some out /\ is_ok out = false.
Proof.
  destruct (keyset_walk_terminates Sql.SqliteLance 0 (fun _ => None) (fun _ => "") (fun _ => "") None 7
    None None None 5 None sample_bad None) as (out & Ho & Hc).
  - apply (bool_decide_unpack _); vm_compute; exact I.
  - lia.
  - vm_compute. done.
  - reflexivity.
  - exists out. split; [exact Ho|]. destruct (is_ok out) eqn:E; [|done].
    specialize (Hc eq_refl (sample_doc 2 20 "lost" "web")). cbn in Hc. exfalso.
    apply diff_false_true, Hc; [by right; left|reflexivity|reflexivity].
Defined.

Lemma page_contract_witness :
  exists out, sql_page Sql.Postgres 0 (fun _ => None) (fun _ => "") (fun _ => "") (Some sample_web) 7
    None None None 2 (Some 3) sample_db 0 None = Some out /\ is_ok out = true.
Proof.
  destruct (page_contract Sql.Postgres 0 (fun _ => None) (fun _ => "") (fun _ => "") (Some sample_web) 7
    None None None 2 (Some 3) sample_db sample_pred 0 None) as (out & Ho & _).
  - intros [|t]; apply (bool_decide_unpack _); vm_compute; exact I.
  - lia.
  - vm_compute. done.
  - reflexivity.
  - exists out. split; [exact Ho|]. revert Ho. vm_compute. by intros [= <-].
Defined.

Definition sample_surreal (i t : Z) : Surreal.row (rid := Z) :=
  Surreal.MkRow i "7" "" "completed" None None None None None None None None None 0 None 0 0 0 None None
    VNone (t * 1000) (t * 1000) None None None None.

Definition sample_surreal_table : list (Surreal.row (rid := Z)) :=
  [sample_surreal 1 10; sample_surreal 2 20; sample_surreal 3 20; sample_surreal 4 20; sample_surreal 5 30].

(** A UUID text form, for the witness: the identity of small numbers. *)
Definition sample_uuid (s : string) : option Z :=
  match s with
  | "1" => Some 1 | "2" => Some 2 | "3" => Some 3 | "4" => Some 4 | "5" => Some 5 | "7" => Some 7
  | _ => None
  end.

Definition sample_str (z : Z) : string :=
  match z with 1 => "1" | 2 => "2" | 3 => "3" | 4 => "4" | 5 => "5" | 7 => "7" | _ => "" end.

Lemma surreal_split_is_window_witness :
  doc_id <$> default [] (match Surreal.scan_documents sample_str (fun z => z) sample_uuid sample_str
      (fun _ => 0) sample_surreal_table sample_surreal_table 7 None None None (Some (dt_utc 20, 4)) 3 with
    | Ok s => Some (documents s) | Err _ => None end) = [3; 2; 1].
Proof.
  destruct (surreal_split_is_window sample_str (fun z => z) sample_uuid sample_str (fun _ => 0)
    sample_surreal_table 7 None None None (Some (dt_utc 20, 4)) 3) as (l & _ & E).
  - apply (bool_decide_unpack _); vm_compute; exact I.
  - repeat constructor; eexists; (split; [vm_compute; reflexivity|split; reflexivity]).
  - lia.
  - cbn [fmap option_fmap option_map] in E. rewrite E. vm_compute. reflexivity.
Defined.

Lemma offset_page_is_window_witness :
  (s ← Sql.scan_documents Sql.Postgres 0 (sample_db 0) 7 None None None
         (Some (Sql.scan_key (sample_doc 3 20 "completed" "web"))) 2; Ok (documents s)) =
  Sql.list_documents Sql.Postgres 0 (sample_db 0) 7 None None 2 2.
Proof.
  apply (offset_page_is_window Sql.Postgres 0 (sample_db 0) 7 None None 2 1).
  - apply (bool_decide_unpack _); vm_compute; exact I.
  - lia.
  - vm_compute. reflexivity.
Defined.

Definition sample_namespaces : list NamespaceModel := [MkNamespace 7 70 true; MkNamespace 6 70 false].

Lemma list_documents_guards_witness :
  exists t pg, khora_list_documents (fun _ => None) (fun _ => "") (fun _ => "") (fun _ => None)
    (MkQueryConfig 10 1000) sample_namespaces
    (fun ns _ status t after n =>
       Sql.scan_documents Sql.Postgres 0 (sample_db t) ns None status None after n)
    0 (NsId 70) None (Some "completed") 2 None = Some (Ok (t, pg)) /\ 1 <= 2.
Proof.
  eexists _, _. split; [vm_compute; reflexivity|].
  eapply (proj1 (proj2 (list_documents_guards (fun _ => None) (fun _ => "") (fun _ => "") (fun _ => None)
    (MkQueryConfig 10 1000) sample_namespaces
    (fun ns _ status t after n =>
       Sql.scan_documents Sql.Postgres 0 (sample_db t) ns None status None after n)
    0 (NsId 70) None (Some "completed") 2 None _ _ _))).
  Unshelve. 3: vm_compute; reflexivity.
Defined.
