(* ===== verification/HookDispatch.v ===== *)
(** The hook dispatcher ([hooks/dispatcher.py]): in-process and durable subscriptions, the
    filter cascade with its namespace cache, dispatch, and the durable store
    ([hooks/subscription_store.py]) it is reloaded from after a restart.

    A [SemanticFilter] is a mutable object that the caller may hold and register more than
    once, so filters live on a heap and a subscription holds a reference.  A dispatch is
    taken as one step: nothing else runs between its lookups. *)
From Stdlib Require Import SpecFloat.
From S2P Require Import Prelude PyValue FilterPython PyText HookMatch RankFusion Scoring DocumentScan.

Local Open Scope string_scope.
Local Open Scope list_scope.
Local Open Scope Z_scope.

(** ** Data *)

Record SemanticFilter := MkFilter {
  f_id : Z; f_name : string; f_description : string;
  entity_types : list string; relationship_types : list string;
  dream_op_types : list string; dream_decisions : list string;
  match_ : option value; examples : list string; anti_examples : list string;
  embedding : option (list float); similarity_threshold : float;
  llm_confidence_threshold : float; filter_model : option string;
  f_namespace_id : option Z }.

Record MemoryEvent := MkEvent {
  e_namespace_id : Z; e_event_type : string; e_resource_type : string;
  e_data : list (string * value); e_embedding : option (list float) }.

(** A reference to a filter object. *)
Definition ref := Z.

Record HookSubscription := MkSub {
  s_id : Z; s_event_type : string; s_callback : Z; s_filter : option ref; s_enabled : bool }.

Record PersistentSubscription := MkPersistent {
  p_id : Z; p_event_type : string; p_delivery : value; p_namespace_id : option Z;
  p_filter : option ref; p_paused : bool }.

(** A row of [khora_hook_subscriptions]: the filter without its embedding and its
    namespace. *)
Record SerializedFilter := MkSerialized {
  sf_id : Z; sf_name : string; sf_description : string;
  sf_entity_types : list string; sf_relationship_types : list string;
  sf_dream_op_types : list string; sf_dream_decisions : list string;
  sf_match : option value; sf_examples : list string; sf_anti_examples : list string;
  sf_similarity_threshold : float; sf_llm_confidence_threshold : float;
  sf_filter_model : option string }.

Record HookRow := MkHookRow {
  row_id : Z; row_namespace_id : option Z; row_event_type : string;
  row_filter : option SerializedFilter; row_delivery : value; row_paused : bool }.

Definition serialize_filter (f : SemanticFilter) : SerializedFilter :=
  {| sf_id := f_id f; sf_name := f_name f; sf_description := f_description f;
     sf_entity_types := entity_types f; sf_relationship_types := relationship_types f;
     sf_dream_op_types := dream_op_types f; sf_dream_decisions := dream_decisions f;
     sf_match := match_ f; sf_examples := examples f; sf_anti_examples := anti_examples f;
     sf_similarity_threshold := similarity_threshold f;
     sf_llm_confidence_threshold := llm_confidence_threshold f; sf_filter_model := filter_model f |}.

Definition deserialize_filter (raw : SerializedFilter) (namespace_id : option Z) : SemanticFilter :=
  {| f_id := sf_id raw; f_name := sf_name raw; f_description := sf_description raw;
     entity_types := sf_entity_types raw; relationship_types := sf_relationship_types raw;
     dream_op_types := sf_dream_op_types raw; dream_decisions := sf_dream_decisions raw;
     match_ := sf_match raw; examples := sf_examples raw; anti_examples := sf_anti_examples raw;
     embedding := None; similarity_threshold := sf_similarity_threshold raw;
     llm_confidence_threshold := sf_llm_confidence_threshold raw; filter_model := sf_filter_model raw;
     f_namespace_id := namespace_id |}.

Definition set_namespace (n : option Z) (f : SemanticFilter) : SemanticFilter :=
  MkFilter (f_id f) (f_name f) (f_description f) (entity_types f) (relationship_types f)
    (dream_op_types f) (dream_decisions f) (match_ f) (examples f) (anti_examples f) (embedding f)
    (similarity_threshold f) (llm_confidence_threshold f) (filter_model f) n.

Definition set_embedding (e : list float) (f : SemanticFilter) : SemanticFilter :=
  MkFilter (f_id f) (f_name f) (f_description f) (entity_types f) (relationship_types f)
    (dream_op_types f) (dream_decisions f) (match_ f) (examples f) (anti_examples f) (Some e)
    (similarity_threshold f) (llm_confidence_threshold f) (filter_model f) (f_namespace_id f).

(** [SemanticFilter(namespace_id=n)] *)
Definition bare_filter (fid n : Z) : SemanticFilter :=
  MkFilter fid "" "" [] [] [] [] None [] [] None lit_0_5 lit_0_5 None (Some n).

(** ** A registry: subscriptions by event type and by id *)

Class Registered (S : Type) := { reg_id : S -> Z; reg_key : S -> string }.
#[export] Instance sub_registered : Registered HookSubscription := {| reg_id := s_id; reg_key := s_event_type |}.
#[export] Instance persistent_registered : Registered PersistentSubscription :=
  {| reg_id := p_id; reg_key := p_event_type |}.

Section registry.
Context {S : Type} `{Registered S}.

Record registry := MkRegistry { by_key : gmap string (list S); by_id : gmap Z S }.

Definition listed (g : registry) (key : string) : list S := default [] (by_key g !! key).

Definition without (i : Z) (l : list S) : list S := List.filter (fun s => negb (reg_id s =? i)) l.

(** [self._subscriptions[key].append(sub); self._sub_by_id[sub.id] = sub] *)
Definition add (s : S) (g : registry) : registry :=
  MkRegistry (<[reg_key s := listed g (reg_key s) ++ [s]]> (by_key g)) (<[reg_id s := s]> (by_id g)).

(** Pop by id, then rebuild the list of its event type. *)
Definition remove (i : Z) (g : registry) : bool * registry :=
  match by_id g !! i with
  | None => (false, g)
  | Some s =>
      (true, MkRegistry (<[reg_key s := without i (listed g (reg_key s))]> (by_key g)) (delete i (by_id g)))
  end.

(** [_add_persistent_in_memory]: a prior copy with the same id leaves its list first. *)
Definition replace (s : S) (g : registry) : registry :=
  let g := match by_id g !! reg_id s with
           | None => g
           | Some old =>
               MkRegistry (<[reg_key old := without (reg_id s) (listed g (reg_key old))]> (by_key g)) (by_id g)
           end in
  add s g.

Definition empty_registry : registry := MkRegistry ∅ ∅.
End registry.
Arguments registry S : clear implicits.

(** ** The dispatcher's state *)

Record State := MkState {
  heap : gmap ref SemanticFilter;
  next_ref : ref;
  ns_resolve_cache : gmap Z Z;
  subscriptions : registry HookSubscription;
  persistents : registry PersistentSubscription;
  embedding_cache : gmap Z (list float * list Z * Z);
  pending_filters : list (Z * ref);
  last_persist_degradation : option string;
  subscription_store : option (gmap Z HookRow) }.

(** A dispatcher of a new process, on a store. *)
Definition HookDispatcher (store : option (gmap Z HookRow)) : State :=
  MkState ∅ 0 ∅ empty_registry empty_registry ∅ [] None store.

(** Field updates. *)
Definition with_heap h st := MkState h (next_ref st) (ns_resolve_cache st) (subscriptions st)
  (persistents st) (embedding_cache st) (pending_filters st) (last_persist_degradation st) (subscription_store st).
Definition with_next n st := MkState (heap st) n (ns_resolve_cache st) (subscriptions st)
  (persistents st) (embedding_cache st) (pending_filters st) (last_persist_degradation st) (subscription_store st).
Definition with_cache c st := MkState (heap st) (next_ref st) c (subscriptions st)
  (persistents st) (embedding_cache st) (pending_filters st) (last_persist_degradation st) (subscription_store st).
Definition with_subs g st := MkState (heap st) (next_ref st) (ns_resolve_cache st) g
  (persistents st) (embedding_cache st) (pending_filters st) (last_persist_degradation st) (subscription_store st).
Definition with_persistents g st := MkState (heap st) (next_ref st) (ns_resolve_cache st) (subscriptions st)
  g (embedding_cache st) (pending_filters st) (last_persist_degradation st) (subscription_store st).
Definition with_embeddings c st := MkState (heap st) (next_ref st) (ns_resolve_cache st) (subscriptions st)
  (persistents st) c (pending_filters st) (last_persist_degradation st) (subscription_store st).
Definition with_pending p st := MkState (heap st) (next_ref st) (ns_resolve_cache st) (subscriptions st)
  (persistents st) (embedding_cache st) p (last_persist_degradation st) (subscription_store st).
Definition with_degradation d st := MkState (heap st) (next_ref st) (ns_resolve_cache st) (subscriptions st)
  (persistents st) (embedding_cache st) (pending_filters st) (Some d) (subscription_store st).
Definition with_store s st := MkState (heap st) (next_ref st) (ns_resolve_cache st) (subscriptions st)
  (persistents st) (embedding_cache st) (pending_filters st) (last_persist_degradation st) s.

(** A new filter object. *)
Definition alloc (f : SemanticFilter) (st : State) : ref * State :=
  (next_ref st, with_next (next_ref st + 1) (with_heap (<[next_ref st := f]> (heap st)) st)).

Definition assign_namespace (r : ref) (n : Z) (st : State) : State :=
  with_heap (alter (set_namespace (Some n)) r (heap st)) st.

(** ** The embedding filter ([hooks/embedding_filter.py]) *)

(** [np.packbits]: eight to a byte, most significant first, the last byte padded. *)
Fixpoint byte_of (n : nat) (bits : list bool) : Z :=
  match n with
  | O => 0
  | S n' =>
      match bits with
      | [] => 0
      | b :: bits' => (if b then 2 ^ Z.of_nat n' else 0) + byte_of n' bits'
      end
  end.

Fixpoint packbits (fuel : nat) (bits : list bool) : list Z :=
  match fuel, bits with
  | S fuel', _ :: _ => byte_of 8 bits :: packbits fuel' (drop 8 bits)
  | _, _ => []
  end.

Definition _to_binary (e : list float) : list Z :=
  let bits := List.map (fun x => flt f0 (to_f32 x)) e in packbits (length bits) bits.

(** [bin(x).count("1")] of a byte. *)
Definition popcount (x : Z) : Z :=
  Z.of_nat (length (List.filter (fun i => Z.testbit x (Z.of_nat i)) (seq 0 8))).

Definition _hamming_distance (a b : list Z) : Z :=
  foldr (fun xy acc => popcount (Z.lxor xy.1 xy.2) + acc) 0 (zip a b).

Definition _hamming_similarity (a b : list Z) (n_bits : Z) : result float :=
  if n_bits =? 0 then Ok f0
  else d ← int_div (_hamming_distance a b) n_bits; Ok (fsub f1 d).

(** [register_filter] *)
Definition register_filter (f : SemanticFilter) (c : gmap Z (list float * list Z * Z))
  : gmap Z (list float * list Z * Z) :=
  match embedding f with
  | None => c
  | Some e => <[f_id f := (e, _to_binary e, len e)]> c
  end.

Section dispatcher.
(** numpy's dot product and norm, in single precision. *)
Context (np_dot : list float -> list float -> float) (np_norm : list float -> float).
(** [str] and [str.lower], for the match DSL. *)
Context (str : value -> string) (lower : string -> string).
(** Level 2: whether it is enabled, and the evaluator's answers. *)
Context (llm_enabled : bool) (llm_evaluate : MemoryEvent -> SemanticFilter -> bool).
(** Whether a delivery sink is wired. *)
Context (has_sink : bool).

Definition cosine_similarity (a b : list float) : result float :=
  let dot := np_dot a b in
  let norm_a := np_norm a in
  let norm_b := np_norm b in
  if feq norm_a f0 || feq norm_b f0 then Ok f0 else fdiv dot (fmul norm_a norm_b).

Definition passes_embedding_gate (c : gmap Z (list float * list Z * Z)) (entity : list float)
    (f : SemanticFilter) : result bool :=
  match embedding f with
  | None => Ok true
  | Some fe =>
      if SFleb (similarity_threshold f) f0 then Ok true
      else
        let cached := c !! f_id f in
        let filter_n_bits := match cached with Some (_, _, n) => n | None => len fe end in
        if negb (len entity =? filter_n_bits) then Ok false
        else
          fast_reject ← match cached with
                        | Some (_, b, _) =>
                            if filter_n_bits >? 0 then
                              s ← _hamming_similarity (_to_binary entity) b filter_n_bits;
                              Ok (flt s lit_0_4)
                            else Ok false
                        | None => Ok false
                        end;
          if fast_reject : bool then Ok false
          else
            match cached with
            | None => Ok true
            | Some (e, _, _) => sim ← cosine_similarity entity e; Ok (SFleb (similarity_threshold f) sim)
            end
  end.

(** ** Namespace scope *)

(** The resolver at this moment; [None] for a call that raises. *)
Context (resolver : option (Z -> option Z)).

Definition _resolve_ns (n : Z) (refresh : bool) (cache : gmap Z Z) : Z * gmap Z Z :=
  match resolver with
  | None => (n, cache)
  | Some resolve =>
      match (if refresh then None else cache !! n) with
      | Some cached => (cached, cache)
      | None =>
          match resolve n with
          | None => (n, cache)
          | Some resolved => (resolved, <[n := resolved]> cache)
          end
      end
  end.

Definition same_ns (a b : Z) (cache : gmap Z Z) : bool * gmap Z Z :=
  let '(x, cache) := _resolve_ns a false cache in
  let '(y, cache) := _resolve_ns b false cache in
  (x =? y, cache).

(** Served from an entry that does not map the id to itself. *)
Definition stale_suspect (cache : gmap Z Z) (n : Z) : bool :=
  match cache !! n with Some r => negb (r =? n) | None => false end.

Definition _namespace_scope_matches (e : MemoryEvent) (scope_ns : option Z) (cache : gmap Z Z)
  : bool * gmap Z Z :=
  match scope_ns with
  | None => (true, cache)
  | Some scope =>
      let event_ns := e_namespace_id e in
      let stale_suspects := List.filter (stale_suspect cache) [event_ns; scope] in
      let '(eq, cache) := same_ns event_ns scope cache in
      if eq then (true, cache)
      else
        match stale_suspects with
        | [] => (false, cache)
        | _ =>
            same_ns event_ns scope (foldl (fun c n => (_resolve_ns n true c).2) cache stale_suspects)
        end
  end.

(** ** The filter cascade *)

(** [v and v not in allowed], for [v = data.get(key, "")]. *)
Definition excluded (data : list (string * value)) (key : string) (allowed : list string) : bool :=
  let v := default (VStr "") (dict_get key data) in
  truthy v && negb (py_in v (List.map VStr allowed)).

Definition nonempty {A} (l : list A) : bool := match l with [] => false | _ => true end.

Definition _passes_type_filter (e : MemoryEvent) (f : SemanticFilter) : result bool :=
  let data := e_data e in
  let of_type kind := String.eqb (e_resource_type e) kind in
  if nonempty (entity_types f) && of_type "entity" && excluded data "entity_type" (entity_types f) then Ok false
  else if nonempty (relationship_types f) && of_type "relationship"
          && excluded data "relationship_type" (relationship_types f) then Ok false
  else if of_type "dream" && nonempty (dream_op_types f) && excluded data "op_type" (dream_op_types f)
  then Ok false
  else if of_type "dream" && nonempty (dream_decisions f) && excluded data "decision" (dream_decisions f)
  then Ok false
  else match match_ f with None => Ok true | Some p => matches str lower p data end.

(** The cascade on a filter object, threading the namespace cache. *)
Definition _passes_filter_cascade (st : State) (e : MemoryEvent) (filter : option ref) (cache : gmap Z Z)
  : result (bool * gmap Z Z) :=
  match filter with
  | None => Ok (true, cache)
  | Some r =>
      match heap st !! r with
      | None => Err AssertionError
      | Some f =>
          let '(in_scope, cache) := _namespace_scope_matches e (f_namespace_id f) cache in
          if negb in_scope then Ok (false, cache)
          else
            type_ok ← _passes_type_filter e f;
            if negb type_ok then Ok (false, cache)
            else
              level1 ← match embedding f, e_embedding e with
                       | Some _, Some entity => passes_embedding_gate (embedding_cache st) entity f
                       | _, _ => Ok true
                       end;
              if negb level1 then Ok (false, cache)
              else Ok (negb (llm_enabled && nonempty (examples f)) || llm_evaluate e f, cache)
      end
  end.

(** ** Dispatch *)

(** What a dispatch sets off: deliveries through the sink, then callbacks. *)
Inductive effect := Deliver (p : PersistentSubscription) | Invoke (s : HookSubscription).

Fixpoint matching_subs (st : State) (e : MemoryEvent) (subs : list HookSubscription) (cache : gmap Z Z)
  : result (list HookSubscription * gmap Z Z) :=
  match subs with
  | [] => Ok ([], cache)
  | s :: rest =>
      if negb (s_enabled s) then matching_subs st e rest cache
      else
        '(ok, cache) ← _passes_filter_cascade st e (s_filter s) cache;
        '(l, cache) ← matching_subs st e rest cache;
        Ok (if ok : bool then s :: l else l, cache)
  end.

(** The loop of [_dispatch_persistent]: a scope of its own, then the cascade. *)
Fixpoint matching_persistent (st : State) (e : MemoryEvent) (subs : list PersistentSubscription)
    (cache : gmap Z Z) : result (list PersistentSubscription * gmap Z Z) :=
  match subs with
  | [] => Ok ([], cache)
  | p :: rest =>
      if p_paused p then matching_persistent st e rest cache
      else
        let '(in_scope, cache) := _namespace_scope_matches e (p_namespace_id p) cache in
        if negb in_scope then matching_persistent st e rest cache
        else
          '(ok, cache) ← _passes_filter_cascade st e (p_filter p) cache;
          '(l, cache) ← matching_persistent st e rest cache;
          Ok (if ok : bool then p :: l else l, cache)
  end.

(** [dispatch]: the count it returns, what it sets off, and the state.  A callback or a
    delivery that raises or times out changes none of them.  An exception of the cascade
    leaves [dispatch]; what the namespace cache learnt before it is kept, and is not
    modelled. *)
Definition dispatch (st : State) (e : MemoryEvent) : result (Z * list effect * State) :=
  let key := e_event_type e in
  let subs := listed (subscriptions st) key in
  let persistent := listed (persistents st) key in
  match subs, persistent with
  | [], [] => Ok (0, [], st)
  | _, _ =>
      '(matching, cache) ← matching_subs st e subs (ns_resolve_cache st);
      '(delivered, cache) ← match persistent with
                            | [] => Ok ([], cache)
                            | _ => matching_persistent st e persistent cache
                            end;
      Ok (len matching, (if has_sink then List.map Deliver delivered else []) ++ List.map Invoke matching,
          with_cache cache st)
  end.

Definition subscription_count (st : State) : Z := Z.of_nat (size (by_id (subscriptions st))).
Definition persistent_count (st : State) : Z := Z.of_nat (size (by_id (persistents st))).

(** The coordinator's guard and its dispatch ([storage/coordinator.py]). *)
Definition should_dispatch_hooks (dispatcher : option State) : bool :=
  match dispatcher with Some st => subscription_count st >? 0 | None => false end.

Definition dispatch_hook (dispatcher : option State) (e : MemoryEvent) : result (list effect) :=
  match dispatcher with
  | Some st =>
      if should_dispatch_hooks dispatcher then '(_, effects, _) ← dispatch st e; Ok effects else Ok []
  | None => Ok []
  end.
End dispatcher.

(** ** Subscriptions *)

Definition queue_embedding (r : ref) (st : State) : State :=
  match heap st !! r with
  | None => st
  | Some f =>
      match embedding f with
      | Some _ => with_embeddings (register_filter f (embedding_cache st)) st
      | None =>
          if String.eqb (f_description f) "" then st
          else with_pending (zset (f_id f) r (pending_filters st)) st
      end
  end.

(** [subscribe]; [sub_id] and [filter_id] are the ids drawn for new objects. *)
Definition subscribe (sub_id filter_id : Z) (event_type : string) (callback : Z)
    (filter : option ref) (namespace_id : option Z) (st : State) : Z * State :=
  let '(filter, st) :=
    match namespace_id with
    | None => (filter, st)
    | Some n =>
        match filter with
        | None => let '(r, st) := alloc (bare_filter filter_id n) st in (Some r, st)
        | Some r => (Some r, assign_namespace r n st)
        end
    end in
  let sub := MkSub sub_id event_type callback filter true in
  let st := with_subs (add sub (subscriptions st)) st in
  (sub_id, match filter with Some r => queue_embedding r st | None => st end).

Definition unsubscribe (i : Z) (st : State) : bool * State :=
  let '(found, g) := remove i (subscriptions st) in (found, with_subs g st).

Definition clear (st : State) : State :=
  with_persistents empty_registry (with_pending [] (with_subs empty_registry st)).

(** The row a subscription is stored as. *)
Definition row_of (st : State) (p : PersistentSubscription) : HookRow :=
  MkHookRow (p_id p) (p_namespace_id p) (p_event_type p)
    (match p_filter p with Some r => serialize_filter <$> heap st !! r | None => None end)
    (p_delivery p) (p_paused p).

(** [HookSubscriptionStore]: insert or replace, and delete, in a transaction. *)
Definition persist (row : HookRow) (rows : gmap Z HookRow) : gmap Z HookRow := <[row_id row := row]> rows.
Definition delete_row (i : Z) (rows : gmap Z HookRow) : gmap Z HookRow := delete i rows.

(** [if filter and namespace_id: filter.namespace_id = namespace_id] *)
Definition scope_filter (filter : option ref) (namespace_id : option Z) (st : State) : State :=
  match filter, namespace_id with
  | Some r, Some n => assign_namespace r n st
  | _, _ => st
  end.

(** [register_persistent]; [fails] when the store's write raises. *)
Definition register_persistent (sub_id : Z) (fails : bool) (event_type : string) (delivery : value)
    (filter : option ref) (namespace_id : option Z) (st : State) : result Z * State :=
  let st := scope_filter filter namespace_id st in
  let sub := MkPersistent sub_id event_type delivery namespace_id filter false in
  match subscription_store st with
  | None => (Err RuntimeError, st)
  | Some rows =>
      let st := if fails then with_degradation "persist_failed" st
                else with_store (Some (persist (row_of st sub) rows)) st in
      let st := with_persistents (replace sub (persistents st)) st in
      (Ok sub_id, match filter with Some r => queue_embedding r st | None => st end)
  end.

Definition unregister_persistent (fails : bool) (i : Z) (st : State) : bool * State :=
  match remove i (persistents st) with
  | (false, _) => (false, st)
  | (true, g) =>
      let st := with_persistents g st in
      (true,
       match subscription_store st with
       | None => st
       | Some rows =>
           if fails then with_degradation "delete_failed" st
           else with_store (Some (delete_row i rows)) st
       end)
  end.

(** [_row_to_subscription], with its filter object. *)
Definition _row_to_subscription (row : HookRow) (st : State) : PersistentSubscription * State :=
  let '(filter, st) :=
    match row_filter row with
    | None => (None, st)
    | Some raw => let '(r, st) := alloc (deserialize_filter raw (row_namespace_id row)) st in (Some r, st)
    end in
  (MkPersistent (row_id row) (row_event_type row) (row_delivery row) (row_namespace_id row) filter
     (row_paused row), st).

Fixpoint load_all (rows : list HookRow) (st : State) : list PersistentSubscription * State :=
  match rows with
  | [] => ([], st)
  | row :: rest =>
      let '(p, st) := _row_to_subscription row st in
      let '(l, st) := load_all rest st in
      (p :: l, st)
  end.

Definition load_one (st : State) (p : PersistentSubscription) : State :=
  let st := with_persistents (replace p (persistents st)) st in
  match p_filter p with Some r => queue_embedding r st | None => st end.

(** [load_persistent]: the rows come in no particular order. *)
Definition load_persistent (fails : bool) (st : State) : Z * State :=
  match subscription_store st with
  | None => (0, st)
  | Some rows =>
      if fails then (0, with_degradation "load_failed" st)
      else
        let '(records, st) := load_all (List.map snd (map_to_list rows)) st in
        (len records, foldl load_one (with_persistents empty_registry st) records)
  end.

(** [embed_pending_filters]; [embed_batch] returns [None] when it raises, and its answer
    must be as long as the batch, or the [zip] raises after the filters before the end. *)
Fixpoint embed_loop (pending : list (Z * ref)) (embeddings : list (list float)) (st : State)
  : result Z * State :=
  match pending, embeddings with
  | [], [] => (Ok 0, st)
  | (_, r) :: pending, emb :: embeddings =>
      let st := with_heap (alter (set_embedding emb) r (heap st)) st in
      let st := match heap st !! r with
                | None => st
                | Some f =>
                    with_pending (List.filter (fun fr => negb (fr.1 =? f_id f)) (pending_filters st))
                      (with_embeddings (register_filter f (embedding_cache st)) st)
                end in
      match embed_loop pending embeddings st with
      | (Ok n, st) => (Ok (n + 1), st)
      | r => r
      end
  | _, _ => (Err ValueError, st)
  end.

Definition embed_pending_filters (embed_batch : list string -> option (list (list float))) (st : State)
  : result Z * State :=
  match pending_filters st with
  | [] => (Ok 0, st)
  | pending =>
      match embed_batch (List.map (fun fr => default "" (f_description <$> heap st !! fr.2)) pending) with
      | None => (Ok 0, st)
      | Some embeddings => embed_loop pending embeddings st
      end
  end.
