(* ===== verification/HookDispatchFacts.v ===== *)
(** The dispatcher's tables stay consistent under every operation; scope isolation and
    self-healing over a versioned namespace table; what a restart keeps of a durable
    subscription; and where delivery goes wrong. *)
From Stdlib Require Import SpecFloat.
From S2P Require Import Prelude PyValue FilterPython PyText HookMatch RankFusion Scoring DocumentScan HookDispatch.

Local Open Scope string_scope.
Local Open Scope list_scope.
Local Open Scope Z_scope.

(** ** Registries *)

Section registry_facts.
Context {S : Type} `{Registered S}.
Implicit Types g : registry S.

(** The two tables agree, and an id is registered once. *)
Definition reg_ok g : Prop :=
  (forall key s, s ∈ listed g key -> reg_key s = key /\ by_id g !! reg_id s = Some s) /\
  (forall i s, by_id g !! i = Some s -> reg_id s = i /\ s ∈ listed g (reg_key s)) /\
  (forall key, NoDup (reg_id <$> listed g key)).

Lemma listed_insert k k' l (m : gmap string (list S)) b :
  listed (MkRegistry (<[k := l]> m) b) k' = if decide (k = k') then l else default [] (m !! k').
Proof.
  unfold listed. cbn. destruct (decide (k = k')) as [->|]; [by rewrite lookup_insert_eq|].
  by rewrite lookup_insert_ne.
Qed.

Lemma elem_of_without_id i (l : list S) s : s ∈ without i l <-> s ∈ l /\ reg_id s <> i.
Proof. unfold without. rewrite !list_elem_of_In, filter_In, negb_true_iff, Z.eqb_neq. tauto. Qed.

Lemma NoDup_without i (l : list S) : NoDup (reg_id <$> l) -> NoDup (reg_id <$> without i l).
Proof.
  induction l as [|x l IH]; [done|]. rewrite fmap_cons, NoDup_cons. intros [Hx Hn].
  change (without i (x :: l)) with (if negb (reg_id x =? i) then x :: without i l else without i l).
  destruct (reg_id x =? i); cbn [negb]; [by auto|]. rewrite fmap_cons. apply NoDup_cons. split; [|auto].
  intros (y & E & Hy)%list_elem_of_fmap. apply Hx, list_elem_of_fmap.
  apply elem_of_without_id in Hy as [Hy _]. eauto.
Qed.

Lemma empty_registry_ok : reg_ok empty_registry.
Proof.
  split_and!; unfold listed; cbn; [|done|intros key; rewrite lookup_empty; constructor].
  intros key s. rewrite lookup_empty. by intros ?%not_elem_of_nil.
Qed.

Lemma add_ok s g : by_id g !! reg_id s = None -> reg_ok g -> reg_ok (add s g).
Proof.
  intros Hs (H1 & H2 & H3). unfold add. split_and!.
  - intros key t. rewrite listed_insert. cbn [by_id]. case_decide as E.
    + rewrite elem_of_app, list_elem_of_singleton. intros [Ht| ->]; [|by split; [|rewrite lookup_insert_eq]].
      destruct (H1 _ _ Ht) as [Hk Ht']. subst key. split; [done|].
      rewrite lookup_insert_ne; [done|]. intros Eq. by rewrite Eq, Ht' in Hs.
    + intros Ht. destruct (H1 key t Ht) as [Hk Ht']. split; [done|].
      rewrite lookup_insert_ne; [done|]. intros Eq. by rewrite Eq, Ht' in Hs.
  - intros i t. cbn [by_id]. rewrite listed_insert. destruct (decide (reg_id s = i)) as [Es|Hne].
    + rewrite Es, lookup_insert_eq. intros [= <-]. split; [done|]. rewrite decide_True by done.
      apply elem_of_app. right. by apply list_elem_of_singleton.
    + rewrite lookup_insert_ne by done. intros Ht. destruct (H2 _ _ Ht) as [Hi Ht']. split; [done|].
      case_decide as E; [|done]. rewrite elem_of_app. left. by rewrite E.
  - intros key. rewrite listed_insert. case_decide as E; [|apply (H3 key)].
    rewrite fmap_app. apply NoDup_app. split_and!; [apply H3| |apply NoDup_singleton].
    intros x (t & -> & Ht)%list_elem_of_fmap. cbn. rewrite list_elem_of_singleton. intros Eq.
    destruct (H1 _ _ Ht) as [_ Ht']. by rewrite Eq, Hs in Ht'.
Qed.

Lemma remove_ok i g b g' : remove i g = (b, g') -> reg_ok g -> reg_ok g' /\ by_id g' !! i = None.
Proof.
  unfold remove. intros E (H1 & H2 & H3). destruct (by_id g !! i) as [s|] eqn:Hi; [|by simplify_eq].
  destruct (H2 _ _ Hi) as [Hs Hin]. simplify_eq. split; [|cbn; apply lookup_delete_eq]. split_and!.
  - intros key t. rewrite listed_insert. cbn [by_id]. intros Ht.
    assert (Ht' : t ∈ listed g key /\ reg_id t <> reg_id s).
    { case_decide as E; [subst key; by apply elem_of_without_id|]. split; [done|].
      intros Eq. destruct (H1 key t Ht) as [Hk Hb]. rewrite Eq, Hi in Hb. congruence. }
    destruct Ht' as [Ht' Hne]. destruct (H1 _ _ Ht') as [Hk Hb]. split; [done|].
    by rewrite lookup_delete_ne.
  - intros j t. cbn [by_id]. rewrite lookup_delete_Some, listed_insert. intros [Hne Hj].
    destruct (H2 _ _ Hj) as [Hjt Ht]. split; [done|]. case_decide as E; [|done].
    rewrite E. apply elem_of_without_id. split; [done|]. congruence.
  - intros key. rewrite listed_insert. case_decide; [by apply NoDup_without|apply (H3 key)].
Qed.

(** Replacing is removing, then adding. *)
Lemma replace_remove s g :
  reg_ok g -> replace s g = add s (remove (reg_id s) g).2.
Proof.
  intros (H1 & H2 & H3). unfold replace, remove. destruct (by_id g !! reg_id s) as [old|]; [|done].
  unfold add, listed. cbn. f_equal. by rewrite insert_delete_eq.
Qed.

Lemma replace_ok s g : reg_ok g -> reg_ok (replace s g).
Proof.
  intros Hg. rewrite replace_remove by done. destruct (remove (reg_id s) g) as [b g'] eqn:E.
  destruct (remove_ok _ _ _ _ E Hg) as [Hg' Hn]. by apply add_ok.
Qed.

Lemma replace_by_id s g : by_id (replace s g) = <[reg_id s := s]> (by_id g).
Proof. unfold replace, add. by destruct (by_id g !! reg_id s). Qed.
End registry_facts.

(** ** Namespaces with versions *)

(** Every id belongs to a family, the stable id its versions share; some ids are row ids.
    A resolver maps an id to a row of its family, and a row to itself while it is active:
    what [resolve_namespace] does of a table of versions. *)
Record lawful (family : Z -> Z) (is_row : Z -> Prop) (resolve : Z -> option Z) : Prop := {
  same_family n m : resolve n = Some m -> family m = family n;
  lands_on_row n m : resolve n = Some m -> is_row m;
  row_fixed n m : is_row n -> resolve n = Some m -> m = n }.

Definition lawful_opt family is_row (resolver : option (Z -> option Z)) : Prop :=
  match resolver with Some resolve => lawful family is_row resolve | None => True end.

(** A table of versions: rows are recorded under their stable ids, which are no rows. *)
Definition versions (family : Z -> Z) (is_row : Z -> Prop) (table : list NamespaceModel) : Prop :=
  forall m, m ∈ table ->
    family (ns_row_id m) = ns_stable_id m /\ family (ns_stable_id m) = ns_stable_id m /\
    is_row (ns_row_id m) /\ ~ is_row (ns_stable_id m).

Definition resolve_on (table : list NamespaceModel) (n : Z) : option Z :=
  match resolve_namespace table n with Ok r => Some r | Err _ => None end.

Lemma resolve_on_spec table n r :
  resolve_on table n = Some r ->
  exists m, m ∈ table /\ ns_row_id m = r /\ (ns_stable_id m = n \/ ns_row_id m = n) /\ ns_is_active m = true.
Proof.
  unfold resolve_on, resolve_namespace.
  destruct (List.filter _ table) as [|m [|]] eqn:E; [done| |done]. intros [= <-]. exists m.
  assert (Hm : m ∈ List.filter (fun m => ((ns_stable_id m =? n) || (ns_row_id m =? n)) && ns_is_active m) table)
    by (rewrite E; left).
  apply list_elem_of_In, filter_In in Hm as [Hm Hp]. rewrite <- list_elem_of_In in Hm.
  apply andb_true_iff in Hp as [Hp Ha]. apply orb_true_iff in Hp. rewrite !Z.eqb_eq in Hp. done.
Qed.

Lemma resolve_namespace_lawful family is_row table :
  versions family is_row table -> lawful family is_row (resolve_on table).
Proof.
  intros Hv. split; intros n r; [| |intros Hrow]; intros (m & Hm & <- & Hor & _)%resolve_on_spec;
    destruct (Hv _ Hm) as (Hf & Hs & Hr & Hn); [|done|].
  - destruct Hor as [<-|<-]; congruence.
  - by destruct Hor as [<-|<-].
Qed.

Section scope.
Context (family : Z -> Z) (is_row : Z -> Prop).

(** What the cache holds was once the resolver's answer. *)
Definition cache_ok (cache : gmap Z Z) : Prop :=
  forall n m, cache !! n = Some m -> family m = family n /\ is_row m.

Section resolving.
Context (resolver : option (Z -> option Z)) (Hlaw : lawful_opt family is_row resolver).

Lemma resolve_ns_ok n b cache x cache' :
  _resolve_ns resolver n b cache = (x, cache') -> cache_ok cache ->
  family x = family n /\ cache_ok cache'.
Proof.
  unfold _resolve_ns. intros E Hc. destruct resolver as [resolve|]; [|by simplify_eq].
  destruct (if b then None else cache !! n) as [m|] eqn:Em.
  { simplify_eq. destruct b; [done|]. by destruct (Hc _ _ Em). }
  destruct (resolve n) as [m|] eqn:Er; simplify_eq; [|done].
  split; [by eapply same_family|]. intros k v. rewrite lookup_insert_Some. intros [[<- <-]|[_ Hk]]; [|by apply Hc].
  split; [by eapply same_family|by eapply lands_on_row].
Qed.

Lemma same_ns_ok a b cache v cache' :
  same_ns resolver a b cache = (v, cache') -> cache_ok cache ->
  cache_ok cache' /\ (v = true -> family a = family b).
Proof.
  unfold same_ns. intros E Hc.
  destruct (_resolve_ns resolver a false cache) as [x c1] eqn:E1.
  destruct (_resolve_ns resolver b false c1) as [y c2] eqn:E2. simplify_eq.
  destruct (resolve_ns_ok _ _ _ _ _ E1 Hc) as [Fx Hc1]. destruct (resolve_ns_ok _ _ _ _ _ E2 Hc1) as [Fy Hc2].
  split; [done|]. intros E%Z.eqb_eq. congruence.
Qed.

Lemma scope_matches_ok e scope cache b cache' :
  _namespace_scope_matches resolver e scope cache = (b, cache') -> cache_ok cache ->
  cache_ok cache' /\ (b = true -> forall s, scope = Some s -> family (e_namespace_id e) = family s).
Proof.
  unfold _namespace_scope_matches. intros E Hc. destruct scope as [s|]; [|by simplify_eq].
  destruct (same_ns resolver _ s cache) as [v c1] eqn:E1. destruct (same_ns_ok _ _ _ _ _ E1 Hc) as [Hc1 Hv].
  destruct v; [simplify_eq; split; [done|]; intros _ ? [= <-]; auto|].
  destruct (List.filter (stale_suspect cache) _) as [|x l]; [by simplify_eq|].
  assert (Hf : forall l c, cache_ok c -> cache_ok (foldl (fun c n => (_resolve_ns resolver n true c).2) c l)).
  { induction l0 as [|y l0 IH]; intros c Hcc; [done|]. cbn. apply IH.
    destruct (_resolve_ns resolver y true c) as [z c'] eqn:E2. by apply (resolve_ns_ok _ _ _ _ _ E2). }
  destruct (same_ns_ok _ _ _ _ _ E (Hf _ _ Hc1)) as [Hc2 Hv2].
  split; [done|]. intros -> ? [= <-]. auto.
Qed.
End resolving.
End scope.

(** *** Self-healing *)

Section heal.
Context (family : Z -> Z) (is_row : Z -> Prop) (resolve : Z -> option Z) (Hlaw : lawful family is_row resolve).

(** A lookup of [n] in [c] now gives what the resolver gives. *)
Definition current (c : gmap Z Z) (n row : Z) : Prop := c !! n = None \/ c !! n = Some row.

Lemma resolve_current c n row :
  resolve n = Some row -> current c n row -> _resolve_ns (Some resolve) n false c = (row, <[n := row]> c).
Proof.
  intros Hr [Hn|Hn]; unfold _resolve_ns; rewrite Hn; [by rewrite Hr|].
  by rewrite insert_id.
Qed.

Lemma same_current c a b row :
  resolve a = Some row -> resolve b = Some row -> current c a row -> current c b row ->
  (same_ns (Some resolve) a b c).1 = true.
Proof.
  intros Ha Hb Ca Cb. unfold same_ns. rewrite (resolve_current c a row) by done.
  rewrite (resolve_current _ b row); [cbn; apply Z.eqb_refl|done|].
  unfold current in *. destruct (decide (a = b)) as [->|]; [right; by rewrite lookup_insert_eq|].
  by rewrite lookup_insert_ne.
Qed.

Lemma refresh_current c n m row :
  resolve n = Some row -> resolve m = Some row -> current c m row \/ m = n ->
  current (_resolve_ns (Some resolve) n true c).2 m row.
Proof.
  intros Hn Hm Hc. unfold _resolve_ns, current. rewrite Hn. cbn.
  destruct (decide (n = m)) as [->|]; [right; by rewrite lookup_insert_eq|].
  rewrite lookup_insert_ne by done. by destruct Hc as [?| ->].
Qed.

(** An entry that is not a suspect is current. *)
Lemma unsuspected_current c n row :
  cache_ok family is_row c -> resolve n = Some row -> stale_suspect c n = false -> current c n row.
Proof.
  intros Hc Hr. unfold stale_suspect, current. destruct (c !! n) as [m|] eqn:E; [|by left].
  intros Hs. apply negb_false_iff, Z.eqb_eq in Hs. subst m. right.
  destruct (Hc _ _ E) as [_ Hrow]. by rewrite (row_fixed _ _ _ Hlaw n row Hrow Hr).
Qed.

(** Looking an id up keeps what is current, and does not make another stale. *)
Lemma lookup_keeps c n m row :
  resolve m = Some row -> current c m row ->
  current (_resolve_ns (Some resolve) n false c).2 m row.
Proof.
  intros Hm Hc. unfold _resolve_ns. destruct (c !! n) as [x|] eqn:E; [done|].
  destruct (resolve n) as [x|] eqn:En; [|done]. unfold current in *. cbn.
  destruct (decide (n = m)) as [->|]; [right; rewrite lookup_insert_eq; congruence|by rewrite lookup_insert_ne].
Qed.

Lemma heals c e n row :
  cache_ok family is_row c -> resolve (e_namespace_id e) = Some row -> resolve n = Some row ->
  fst (_namespace_scope_matches (Some resolve) e (Some n) c) = true.
Proof.
  set (a := e_namespace_id e). intros Hc Ha Hn. unfold _namespace_scope_matches. fold a.
  destruct (same_ns (Some resolve) a n c) as [v c1] eqn:E1. destruct v; [done|].
  assert (K : forall m, resolve m = Some row -> current c m row -> current c1 m row).
  { intros m Hm Hcm. unfold same_ns in E1.
    pose proof (lookup_keeps c a m row Hm Hcm) as K1.
    destruct (_resolve_ns (Some resolve) a false c) as [x c2]. cbn in K1.
    pose proof (lookup_keeps c2 n m row Hm K1) as K2.
    destruct (_resolve_ns (Some resolve) n false c2) as [y c3]. by simplify_eq. }
  pose proof (unsuspected_current c a row Hc Ha) as Ua. pose proof (unsuspected_current c n row Hc Hn) as Un.
  cbn [List.filter].
  destruct (stale_suspect c a), (stale_suspect c n); cbn [foldl].
  - apply (same_current _ a n row); [done|done| |].
    + destruct (decide (a = n)) as [->|]; [apply refresh_current; auto|].
      apply refresh_current; [done|done|]. left. apply refresh_current; auto.
    + apply refresh_current; auto.
  - apply (same_current _ a n row); [done|done|apply refresh_current; auto|].
    apply refresh_current; [done|done|]. left. auto.
  - apply (same_current _ a n row); [done|done| |apply refresh_current; auto].
    apply refresh_current; [done|done|]. left. auto.
  - pose proof (same_current c a n row Ha Hn (Ua eq_refl) (Un eq_refl)) as E. by rewrite E1 in E.
Qed.
End heal.

(** ** The cascade and the dispatch *)

Section dispatching.
Context (np_dot : list float -> list float -> float) (np_norm : list float -> float).
Context (str : value -> string) (lower : string -> string).
Context (llm_enabled : bool) (llm_evaluate : MemoryEvent -> SemanticFilter -> bool) (has_sink : bool).
Context (family : Z -> Z) (is_row : Z -> Prop).
Context (resolver : option (Z -> option Z)) (Hlaw : lawful_opt family is_row resolver).

Local Abbreviation cascade := (_passes_filter_cascade np_dot np_norm str lower llm_enabled llm_evaluate resolver).
Local Abbreviation run_dispatch := (dispatch np_dot np_norm str lower llm_enabled llm_evaluate has_sink resolver).
Local Abbreviation cache_ok := (cache_ok family is_row).

(** The scope a filter object carries now. *)
Definition filter_scope (st : State) (filter : option ref) : option Z :=
  match filter with Some r => f ← heap st !! r; f_namespace_id f | None => None end.

Definition in_family (e : MemoryEvent) (scope : option Z) : Prop :=
  forall s, scope = Some s -> family (e_namespace_id e) = family s.

Lemma cascade_ok st e filter cache b cache' :
  cascade st e filter cache = Ok (b, cache') -> cache_ok cache ->
  cache_ok cache' /\ (b = true -> in_family e (filter_scope st filter)).
Proof.
  unfold _passes_filter_cascade, filter_scope, in_family. intros E Hc.
  destruct filter as [r|]; [|by simplify_eq]. cbn. destruct (heap st !! r) as [f|]; [|done]. cbn.
  destruct (_namespace_scope_matches resolver e (f_namespace_id f) cache) as [v c1] eqn:Es.
  destruct (scope_matches_ok _ _ _ Hlaw _ _ _ _ _ Es Hc) as [Hc1 Hv].
  destruct v; cbn in E; [|by simplify_eq].
  destruct (_passes_type_filter str lower e f) as [t|]; cbn in E; [|done].
  destruct t; cbn in E; [|by simplify_eq].
  destruct (match embedding f with Some _ => _ | None => _ end) as [l|]; cbn in E; [|done].
  destruct l; cbn in E; simplify_eq; [|done]. split; [done|]. intros _. by apply Hv.
Qed.

Lemma matching_subs_ok st e subs cache l cache' :
  matching_subs np_dot np_norm str lower llm_enabled llm_evaluate resolver st e subs cache = Ok (l, cache') ->
  cache_ok cache ->
  cache_ok cache' /\ forall s, s ∈ l -> s ∈ subs /\ s_enabled s = true /\ in_family e (filter_scope st (s_filter s)).
Proof.
  revert cache l cache'. induction subs as [|s subs IH]; cbn; intros cache l cache' E Hc.
  { simplify_eq. split; [done|]. by intros s ?%not_elem_of_nil. }
  destruct (s_enabled s) eqn:En; cbn in E.
  - destruct (cascade st e (s_filter s) cache) as [[b c1]|] eqn:Ec; cbn in E; [|done].
    destruct (cascade_ok _ _ _ _ _ _ Ec Hc) as [Hc1 Hb].
    destruct (matching_subs _ _ _ _ _ _ _ st e subs c1) as [[l1 c2]|] eqn:Em; cbn in E; [|done].
    destruct (IH _ _ _ Em Hc1) as [Hc2 Hl]. simplify_eq. split; [done|]. intros t.
    destruct b; [rewrite elem_of_cons; intros [->|Ht]|intros Ht].
    + split_and!; [by left|done|by apply Hb].
    + destruct (Hl _ Ht) as (? & ? & ?). split_and!; [by right|done|done].
    + destruct (Hl _ Ht) as (? & ? & ?). split_and!; [by right|done|done].
  - destruct (IH _ _ _ E Hc) as [Hc1 Hl]. split; [done|]. intros t Ht.
    destruct (Hl _ Ht) as (? & ? & ?). split_and!; [by right|done|done].
Qed.

Lemma matching_persistent_ok st e subs cache l cache' :
  matching_persistent np_dot np_norm str lower llm_enabled llm_evaluate resolver st e subs cache = Ok (l, cache') ->
  cache_ok cache ->
  cache_ok cache' /\ forall p, p ∈ l -> p ∈ subs /\ p_paused p = false /\
    in_family e (p_namespace_id p) /\ in_family e (filter_scope st (p_filter p)).
Proof.
  revert cache l cache'. induction subs as [|p subs IH]; cbn; intros cache l cache' E Hc.
  { simplify_eq. split; [done|]. by intros s ?%not_elem_of_nil. }
  assert (Hskip : forall cache l cache', matching_persistent np_dot np_norm str lower llm_enabled llm_evaluate
    resolver st e subs cache = Ok (l, cache') -> cache_ok cache ->
    cache_ok cache' /\ forall q, q ∈ l -> q ∈ p :: subs /\ p_paused q = false /\
      in_family e (p_namespace_id q) /\ in_family e (filter_scope st (p_filter q))).
  { intros c k c' Em Hcc. destruct (IH _ _ _ Em Hcc) as [Hc1 Hl]. split; [done|]. intros q Hq.
    destruct (Hl _ Hq) as (? & ? & ? & ?). split_and!; [by right|done..]. }
  destruct (p_paused p) eqn:En; [by eapply Hskip|].
  destruct (_namespace_scope_matches resolver e (p_namespace_id p) cache) as [v c1] eqn:Es.
  destruct (scope_matches_ok _ _ _ Hlaw _ _ _ _ _ Es Hc) as [Hc1 Hv].
  destruct v; cbn in E; [|by eapply Hskip].
  destruct (cascade st e (p_filter p) c1) as [[b c2]|] eqn:Ec; cbn in E; [|done].
  destruct (cascade_ok _ _ _ _ _ _ Ec Hc1) as [Hc2 Hb].
  destruct (matching_persistent _ _ _ _ _ _ _ st e subs c2) as [[l1 c3]|] eqn:Em; cbn in E; [|done].
  destruct (Hskip _ _ _ Em Hc2) as [Hc3 Hl]. simplify_eq. split; [done|]. intros q.
  destruct b; [rewrite elem_of_cons; intros [->|Hq]|by apply Hl]; [|by apply Hl].
  split_and!; [by left|done|intros s Hs; by apply Hv|by apply Hb].
Qed.

(** What a dispatch that returns has done. *)
Lemma dispatch_spec st e n effs st' :
  run_dispatch st e = Ok (n, effs, st') -> cache_ok (ns_resolve_cache st) ->
  (exists cache, st' = with_cache cache st /\ cache_ok cache) /\
  (forall s, Invoke s ∈ effs -> s ∈ listed (subscriptions st) (e_event_type e) /\ s_enabled s = true /\
     in_family e (filter_scope st (s_filter s))) /\
  (forall p, Deliver p ∈ effs -> p ∈ listed (persistents st) (e_event_type e) /\ p_paused p = false /\
     in_family e (p_namespace_id p) /\ in_family e (filter_scope st (p_filter p))).
Proof.
  intros E Hc. unfold dispatch in E.
  set (subs := listed (subscriptions st) _) in *. set (pers := listed (persistents st) _) in *.
  clearbody subs pers.
  assert (Hnone : subs = [] /\ pers = [] /\ Ok (0, [], st) = Ok (n, effs, st') \/
    (ml ← matching_subs np_dot np_norm str lower llm_enabled llm_evaluate resolver st e subs (ns_resolve_cache st);
     dl ← match pers with
          | [] => Ok ([], ml.2)
          | _ => matching_persistent np_dot np_norm str lower llm_enabled llm_evaluate resolver st e pers ml.2
          end;
     Ok (len ml.1, (if has_sink then List.map Deliver dl.1 else []) ++ List.map Invoke ml.1,
         with_cache dl.2 st)) = Ok (n, effs, st')).
  { destruct subs as [|s0 subs0], pers as [|p0 pers0]; [by left|right..]; rewrite <- E; clear E;
      (destruct (matching_subs _ _ _ _ _ _ _ st e _ _) as [[ml c]|]; [|done]);
      cbn [mbind result_bind fst snd]; try done;
      by destruct (matching_persistent _ _ _ _ _ _ _ st e (p0 :: pers0) c) as [[]|]. }
  clear E. destruct Hnone as [(-> & -> & E)|E].
  { injection E as <- <- <-. split_and!; [|by intros s ?%not_elem_of_nil..].
    exists (ns_resolve_cache st). by destruct st. }
  destruct (matching_subs _ _ _ _ _ _ _ st e subs _) as [[ml c1]|] eqn:Em; cbn in E; [|done].
  destruct (matching_subs_ok _ _ _ _ _ _ Em Hc) as [Hc1 Hm].
  assert (Hp : exists dl c2, (match pers with
      | [] => Ok ([], c1)
      | _ => matching_persistent np_dot np_norm str lower llm_enabled llm_evaluate resolver st e pers c1
      end) = Ok (dl, c2) /\ cache_ok c2 /\ (forall p, p ∈ dl -> p ∈ pers /\ p_paused p = false /\
      in_family e (p_namespace_id p) /\ in_family e (filter_scope st (p_filter p)))).
  { destruct pers as [|p0 pers0]; [exists [], c1; split_and!; [done|done|by intros ? ?%not_elem_of_nil]|].
    destruct (matching_persistent _ _ _ _ _ _ _ st e _ _) as [[dl c2]|] eqn:Ep; [|done].
    exists dl, c2. split; [done|]. by apply (matching_persistent_ok _ _ _ _ _ _ Ep). }
  destruct Hp as (dl & c2 & Ep & Hc2 & Hd). rewrite Ep in E. cbn in E. simplify_eq.
  split_and!; [by exists c2| |].
  - intros s Hs. apply Hm. apply elem_of_app in Hs as [Hs|Hs].
    + destruct has_sink; [|by apply not_elem_of_nil in Hs].
      apply list_elem_of_In, in_map_iff in Hs as (? & ? & _). done.
    + apply list_elem_of_In, in_map_iff in Hs as (? & [= <-] & Hs). by apply list_elem_of_In.
  - intros p Hp. apply Hd. apply elem_of_app in Hp as [Hp|Hp].
    + destruct has_sink; [|by apply not_elem_of_nil in Hp].
      apply list_elem_of_In, in_map_iff in Hp as (? & [= <-] & Hp). by apply list_elem_of_In.
    + apply list_elem_of_In, in_map_iff in Hp as (? & ? & _). done.
Qed.
End dispatching.
