(* ===== verification/HookTraces.v ===== *)
(** Histories of a dispatcher: the operations a program can perform, in any order, the
    invariant they keep, and the statements about scope, restart and delivery, with their
    witnesses. *)
From Stdlib Require Import SpecFloat.
From S2P Require Import Prelude PyValue FilterPython PyText HookMatch RankFusion Scoring DocumentScan.
From S2P Require Import HookDispatch HookDispatchFacts.

Local Open Scope string_scope.
Local Open Scope list_scope.
Local Open Scope Z_scope.

(** ** Histories *)

Inductive op :=
| NewFilter (f : SemanticFilter)
| SetFilter (r : ref) (f : SemanticFilter)
| Subscribe (sub_id filter_id : Z) (event_type : string) (callback : Z) (filter : option ref)
    (namespace_id : option Z)
| Unsubscribe (i : Z)
| Clear
| Register (sub_id : Z) (fails : bool) (event_type : string) (delivery : value) (filter : option ref)
    (namespace_id : option Z)
| Unregister (fails : bool) (i : Z)
| LoadPersistent (fails : bool)
| EmbedPending (embed_batch : list string -> option (list (list float)))
| Dispatch (resolver : option (Z -> option Z)) (e : MemoryEvent).

(** The filter objects of the caller's that an operation is given. *)
Definition op_refs (o : op) : list ref :=
  match o with
  | SetFilter r _ => [r]
  | Subscribe _ _ _ _ (Some r) _ | Register _ _ _ _ (Some r) _ => [r]
  | _ => []
  end.

Section traces.
Context (np_dot : list float -> list float -> float) (np_norm : list float -> float).
Context (str : value -> string) (lower : string -> string).
Context (llm_enabled : bool) (llm_evaluate : MemoryEvent -> SemanticFilter -> bool) (has_sink : bool).
Context (family : Z -> Z) (is_row : Z -> Prop).

Local Abbreviation run_dispatch := (dispatch np_dot np_norm str lower llm_enabled llm_evaluate has_sink).
Local Abbreviation cache_ok := (cache_ok family is_row).

Definition apply (o : op) (st : State) : State :=
  match o with
  | NewFilter f => (alloc f st).2
  | SetFilter r f => with_heap (<[r := f]> (heap st)) st
  | Subscribe i fi key cb f n => (subscribe i fi key cb f n st).2
  | Unsubscribe i => (unsubscribe i st).2
  | Clear => clear st
  | Register i fails key d f n => (register_persistent i fails key d f n st).2
  | Unregister fails i => (unregister_persistent fails i st).2
  | LoadPersistent fails => (load_persistent fails st).2
  | EmbedPending eb => (embed_pending_filters eb st).2
  | Dispatch resolver e => match run_dispatch resolver st e with Ok (_, _, st') => st' | Err _ => st end
  end.

(** What an operation assumes: drawn ids are new, the caller's filters exist, the resolver
    of a dispatch resolves versions. *)
Definition op_ok (o : op) (st : State) : Prop :=
  Forall (fun r => r < next_ref st) (op_refs o) /\
  match o with
  | Subscribe i _ _ _ _ _ => by_id (subscriptions st) !! i = None
  | Dispatch resolver _ => lawful_opt family is_row resolver
  | _ => True
  end.

Definition run (ops : list op) (st : State) : State := foldl (fun st o => apply o st) st ops.

Fixpoint trace_ok (ops : list op) (st : State) : Prop :=
  match ops with [] => True | o :: ops => op_ok o st /\ trace_ok ops (apply o st) end.

(** ** The invariant *)

Definition rows_ok (store : option (gmap Z HookRow)) : Prop :=
  forall rows, store = Some rows -> forall i row, rows !! i = Some row -> row_id row = i.

Record wf (st : State) : Prop := {
  wf_subs : reg_ok (subscriptions st);
  wf_persistents : reg_ok (persistents st);
  wf_cache : cache_ok (ns_resolve_cache st);
  wf_heap : forall r, next_ref st <= r -> heap st !! r = None;
  wf_rows : rows_ok (subscription_store st) }.

Lemma initial_wf store : rows_ok store -> wf (HookDispatcher store).
Proof.
  intros Hr. split; cbn; [apply empty_registry_ok..|intros n m; by rewrite lookup_empty|done|done].
Qed.

Lemma queue_embedding_frame r st :
  exists c p, queue_embedding r st = with_pending p (with_embeddings c st).
Proof.
  assert (Hst : st = with_pending (pending_filters st) (with_embeddings (embedding_cache st) st)) by by destruct st.
  unfold queue_embedding. destruct (heap st !! r) as [f|]; [|by eauto].
  destruct (embedding f); [by eexists _, (pending_filters st)|].
  destruct (String.eqb _ _); [by eauto|]. by exists (embedding_cache st), (zset (f_id f) r (pending_filters st)).
Qed.

Lemma queue_opt_frame (r : option ref) st :
  exists c p, match r with Some r => queue_embedding r st | None => st end = with_pending p (with_embeddings c st).
Proof. destruct r; [apply queue_embedding_frame|].
  exists (embedding_cache st), (pending_filters st). by destruct st. Qed.

Lemma wf_assign r n st : r < next_ref st -> wf st -> wf (assign_namespace r n st).
Proof.
  intros Hr [W1 W2 W3 W4 W5]. split; try done. cbn. intros q Hq. rewrite lookup_alter_ne by lia. by apply W4.
Qed.

Lemma wf_alloc f st : wf st -> wf (alloc f st).2.
Proof.
  intros [W1 W2 W3 W4 W5]. split; try done. cbn. intros q Hq. rewrite lookup_insert_ne by lia. apply W4. lia.
Qed.

Lemma wf_frame g st : 
  (exists c p, g = with_pending p (with_embeddings c st)) -> wf st -> wf g.
Proof. intros (c & p & ->) [W1 W2 W3 W4 W5]. by split. Qed.

Lemma wf_subscribe i fi key cb f n st :
  by_id (subscriptions st) !! i = None -> Forall (fun r => r < next_ref st) (match f with Some r => [r] | None => [] end) ->
  wf st -> wf (subscribe i fi key cb f n st).2.
Proof.
  intros Hi Hf W. assert (Hadd : forall f' st', wf st' -> subscriptions st' = subscriptions st ->
    wf (with_subs (add (MkSub i key cb f' true) (subscriptions st')) st')).
  { intros f' st' [W1 W2 W3 W4 W5] Es. split; try done. cbn. rewrite Es. apply add_ok; [done|apply W]. }
  unfold subscribe. destruct n as [n|]; [destruct f as [r|]|]; cbn [snd];
    (eapply wf_frame; [first [apply queue_embedding_frame|apply queue_opt_frame]|]).
  - apply Hadd; [|done]. apply wf_assign; [by inversion Hf|done].
  - apply (Hadd _ (alloc (bare_filter fi n) st).2); [by apply wf_alloc|done].
  - by apply Hadd.
Qed.

Lemma wf_register i fails key d f n st :
  Forall (fun r => r < next_ref st) (match f with Some r => [r] | None => [] end) ->
  wf st -> wf (register_persistent i fails key d f n st).2.
Proof.
  intros Hf W. unfold register_persistent.
  assert (W' : wf (scope_filter f n st)).
  { unfold scope_filter. destruct f as [r|]; [|done]. destruct n as [n|]; [|done]. apply wf_assign; [by inversion Hf|done]. }
  revert W'. generalize (scope_filter f n st) as st'.
  intros st' W'. clear W Hf st. destruct (subscription_store st') as [rows|] eqn:Er; [|done]. cbn [snd].
  eapply wf_frame; [apply queue_opt_frame|]. destruct W' as [W1 W2 W3 W4 W5].
  destruct fails; split; try done; try by apply replace_ok.
  cbn. intros ? [= <-] j row. unfold persist. rewrite lookup_insert_Some. intros [[<- <-]|[_ Hj]]; [done|].
  by eapply W5.
Qed.

Lemma wf_load_all rows st l st' : load_all rows st = (l, st') -> wf st -> wf st'.
Proof.
  revert st l st'. induction rows as [|row rows IH]; cbn; intros st l st' E W; [by simplify_eq|].
  destruct (_row_to_subscription row st) as [p st1] eqn:E1.
  destruct (load_all rows st1) as [l1 st2] eqn:E2. simplify_eq.
  eapply IH; [exact E2|]. unfold _row_to_subscription in E1.
  destruct (row_filter row) as [raw|]; cbn in E1; simplify_eq; [by apply (wf_alloc _ st)|done].
Qed.

Lemma wf_load_loop records st : wf st -> wf (foldl load_one st records).
Proof.
  revert st. induction records as [|p records IH]; intros st W; [done|]. cbn. apply IH.
  unfold load_one. eapply wf_frame; [apply queue_opt_frame|].
  destruct W as [W1 W2 W3 W4 W5]. split; try done. cbn. by apply replace_ok.
Qed.

Lemma wf_embed pending embs st : wf st -> wf (embed_loop pending embs st).2.
Proof.
  revert embs st. induction pending as [|[i r] pending IH]; intros [|e embs] st W; try done. cbn.
  set (st1 := match alter _ r (heap st) !! r with None => _ | Some f => _ end).
  assert (W1 : wf st1).
  { assert (W0 : wf (with_heap (alter (set_embedding e) r (heap st)) st)).
    { destruct W as [W1 W2 W3 W4 W5]. split; try done. cbn. intros q Hq. specialize (W4 q Hq).
      destruct (decide (r = q)) as [->|]; [by rewrite lookup_alter_eq, W4|by rewrite lookup_alter_ne]. }
    unfold st1. cbn. destruct (alter _ _ _ !! r); [|done]. destruct W0. by split. }
  specialize (IH embs st1 W1). by destruct (embed_loop pending embs st1) as [[n|] ?].
Qed.

Lemma apply_wf o st : op_ok o st -> wf st -> wf (apply o st).
Proof.
  intros [Hr Ho] W. destruct o; cbn [apply] in *.
  - by apply wf_alloc.
  - destruct W as [W1 W2 W3 W4 W5]. split; try done. cbn. intros q Hq.
    apply Forall_cons in Hr as [Hr _]. rewrite lookup_insert_ne by (intros ->; lia). by apply W4.
  - apply wf_subscribe; [done| |done]. by destruct filter.
  - unfold unsubscribe. destruct (remove i (subscriptions st)) as [b g] eqn:E. cbn.
    destruct W as [W1 W2 W3 W4 W5]. split; try done. cbn. by apply (remove_ok _ _ _ _ E).
  - destruct W as [W1 W2 W3 W4 W5]. split; try done; apply empty_registry_ok.
  - apply wf_register; [|done]. by destruct filter.
  - unfold unregister_persistent. destruct (remove i (persistents st)) as [[] g] eqn:E; [|done]. cbn.
    destruct W as [W1 W2 W3 W4 W5]. destruct (remove_ok _ _ _ _ E W2) as [W2' _].
    destruct (subscription_store st) as [rows|] eqn:Er; [|split; try done; cbn; by rewrite Er].
    destruct fails; split; try done; [cbn; by rewrite Er|]. cbn. intros ? [= <-] j row.
    unfold delete_row. rewrite lookup_delete_Some. intros [_ Hj]. by eapply W5.
  - unfold load_persistent. destruct (subscription_store st) as [rows|]; [|done].
    destruct fails; [destruct W; by split|].
    destruct (load_all _ st) as [l st'] eqn:E. cbn. apply wf_load_loop.
    pose proof (wf_load_all _ _ _ _ E W) as [W1 W2 W3 W4 W5]. split; try done. apply empty_registry_ok.
  - unfold embed_pending_filters. destruct (pending_filters st) as [|x l]; [done|].
    destruct (embed_batch _); [by apply wf_embed|done].
  - destruct (run_dispatch resolver st e) as [[[n effs] st']|] eqn:E; [|done].
    destruct (dispatch_spec np_dot np_norm str lower llm_enabled llm_evaluate has_sink family is_row resolver
      Ho st e n effs st' E) as ((c & -> & Hc) & _); [apply W|].
    destruct W. by split.
Qed.

Lemma run_wf ops st : trace_ok ops st -> wf st -> wf (run ops st).
Proof.
  unfold run. revert st. induction ops as [|o ops IH]; intros st; [done|]. cbn. intros [Ho Ht] W.
  apply IH; [done|]. by apply apply_wf.
Qed.

(** ** A filter object of the dispatcher's own *)

Definition scoped (r : ref) (n : Z) (st : State) : Prop :=
  r < next_ref st /\ exists f, heap st !! r = Some f /\ f_namespace_id f = Some n.

Lemma scoped_frame r n g st :
  (exists c p, g = with_pending p (with_embeddings c st)) -> scoped r n st -> scoped r n g.
Proof. by intros (c & p & ->). Qed.

Lemma scoped_assign r r' n n' st : r <> r' -> scoped r n st -> scoped r n (assign_namespace r' n' st).
Proof. intros Hne (Hr & f & Hf & Hn). split; [done|]. exists f. split; [|done]. cbn. by rewrite lookup_alter_ne. Qed.

Lemma scoped_alloc r n f st : scoped r n st -> scoped r n (alloc f st).2.
Proof.
  intros (Hr & g & Hg & Hn). split; [cbn; lia|]. exists g. split; [|done]. cbn. rewrite lookup_insert_ne by lia. done.
Qed.

Lemma scoped_load_all r n rows st l st' : load_all rows st = (l, st') -> scoped r n st -> scoped r n st'.
Proof.
  revert st l st'. induction rows as [|row rows IH]; cbn; intros st l st' E W; [by simplify_eq|].
  destruct (_row_to_subscription row st) as [p st1] eqn:E1.
  destruct (load_all rows st1) as [l1 st2] eqn:E2. simplify_eq.
  eapply IH; [exact E2|]. unfold _row_to_subscription in E1.
  destruct (row_filter row) as [raw|]; cbn in E1; simplify_eq; [by apply (scoped_alloc _ _ _ st)|done].
Qed.

Lemma scoped_load_loop r n records st : scoped r n st -> scoped r n (foldl load_one st records).
Proof.
  revert st. induction records as [|p records IH]; intros st W; [done|]. cbn. apply IH.
  unfold load_one. by eapply scoped_frame; [apply queue_opt_frame|].
Qed.

Lemma scoped_embed r n pending embs st : scoped r n st -> scoped r n (embed_loop pending embs st).2.
Proof.
  revert embs st. induction pending as [|[i q] pending IH]; intros [|e embs] st W; try done. cbn.
  set (st1 := match alter _ q (heap st) !! q with None => _ | Some f => _ end).
  assert (W1 : scoped r n st1).
  { assert (W0 : scoped r n (with_heap (alter (set_embedding e) q (heap st)) st)).
    { destruct W as (Hr & f & Hf & Hn). split; [done|]. cbn.
      destruct (decide (q = r)) as [->|]; [|exists f; by rewrite lookup_alter_ne].
      exists (set_embedding e f). by rewrite lookup_alter_eq, Hf. }
    unfold st1. cbn. by destruct (alter _ _ _ !! q). }
  specialize (IH embs st1 W1). by destruct (embed_loop pending embs st1) as [[?|] ?].
Qed.

Lemma scoped_apply r n o st : op_ok o st -> wf st -> r ∉ op_refs o -> scoped r n st -> scoped r n (apply o st).
Proof.
  intros Ho W Hr S. destruct o; cbn [apply] in *.
  - by apply scoped_alloc.
  - destruct S as (Hl & g & Hg & Hn). split; [done|]. exists g. split; [|done]. cbn.
    rewrite lookup_insert_ne; [done|]. intros ->. apply Hr. left.
  - unfold subscribe. destruct namespace_id as [m|]; [destruct filter as [q|]|]; cbn [snd].
    + eapply scoped_frame; [apply queue_embedding_frame|]. apply (scoped_assign r q n m st); [|done].
      intros ->. apply Hr. left.
    + eapply scoped_frame; [apply queue_embedding_frame|]. by apply (scoped_alloc r n _ st).
    + by eapply scoped_frame; [apply (queue_opt_frame filter)|].
  - unfold unsubscribe. by destruct (remove i (subscriptions st)).
  - done.
  - unfold register_persistent.
    assert (S' : scoped r n (scope_filter filter namespace_id st)).
    { unfold scope_filter. destruct filter as [q|]; [|done]. destruct namespace_id; [|done].
      apply scoped_assign; [|done]. intros ->. apply Hr. left. }
    revert S'. generalize (scope_filter filter namespace_id st) as st'. intros st' S'.
    destruct (subscription_store st') as [rows|]; [|done]. cbn [snd].
    eapply scoped_frame; [apply queue_opt_frame|]. by destruct fails.
  - unfold unregister_persistent. destruct (remove i (persistents st)) as [[] g]; [|done]. cbn.
    destruct (subscription_store st); [|done]. by destruct fails.
  - unfold load_persistent. destruct (subscription_store st) as [rows|]; [|done].
    destruct fails; [done|]. destruct (load_all _ st) as [l st'] eqn:E. cbn. apply scoped_load_loop.
    by apply (scoped_load_all r n _ _ _ _ E).
  - unfold embed_pending_filters. destruct (pending_filters st) as [|x l]; [done|].
    destruct (embed_batch _); [by apply scoped_embed|done].
  - destruct (run_dispatch resolver st e) as [[[k effs] st']|] eqn:E; [|done].
    destruct Ho as [_ Ho].
    destruct (dispatch_spec np_dot np_norm str lower llm_enabled llm_evaluate has_sink family is_row resolver
      Ho st e k effs st' E) as ((c & -> & Hc) & _); [apply W|]. done.
Qed.

Lemma scoped_run r n ops st :
  trace_ok ops st -> wf st -> Forall (fun o => r ∉ op_refs o) ops -> scoped r n st -> scoped r n (run ops st).
Proof.
  unfold run. revert st. induction ops as [|o ops IH]; intros st; [done|]. cbn. intros [Ho Ht] W [Hr Hrs]%Forall_cons S.
  apply IH; [done|by apply apply_wf|done|]. by apply scoped_apply.
Qed.
End traces.

(** ** Consistency and scope *)

Section statements.
Context (np_dot : list float -> list float -> float) (np_norm : list float -> float).
Context (str : value -> string) (lower : string -> string).
Context (llm_enabled : bool) (llm_evaluate : MemoryEvent -> SemanticFilter -> bool) (has_sink : bool).

Local Abbreviation run_dispatch := (dispatch np_dot np_norm str lower llm_enabled llm_evaluate has_sink).
Local Abbreviation history := (run np_dot np_norm str lower llm_enabled llm_evaluate has_sink).
Local Abbreviation allowed := (trace_ok np_dot np_norm str lower llm_enabled llm_evaluate has_sink).

(** C36.  The dispatcher's four tables stay consistent: after any history, a subscription is
    in the list of an event type exactly when that is its event type and its id leads to
    it, and no id is listed twice; in-process and durable ones alike. *)
Theorem dispatcher_tables_consistent family is_row store ops :
  rows_ok store -> allowed family is_row ops (HookDispatcher store) ->
  let st := history ops (HookDispatcher store) in
  (forall key s, s ∈ listed (subscriptions st) key <->
     s_event_type s = key /\ by_id (subscriptions st) !! s_id s = Some s) /\
  (forall key p, p ∈ listed (persistents st) key <->
     p_event_type p = key /\ by_id (persistents st) !! p_id p = Some p) /\
  (forall key, NoDup (s_id <$> listed (subscriptions st) key) /\ NoDup (p_id <$> listed (persistents st) key)).
Proof.
  intros Hr Ht st.
  pose proof (run_wf _ _ _ _ _ _ _ _ _ ops _ Ht (initial_wf family is_row store Hr)) as [W1 W2 _ _ _].
  fold st in W1, W2. destruct W1 as (A1 & A2 & A3), W2 as (B1 & B2 & B3).
  split_and!; [|split|].
  - intros key s. split; [apply A1|]. intros [<- Hs]. by apply A2 in Hs as [_ ?].
  - apply B1.
  - intros [<- Hs]. by apply B2 in Hs as [_ ?].
  - intros key. split; [apply A3|apply B3].
Qed.

(** The callback registered without a filter and scoped to [n], from a state [st]. *)
Definition scoped_sub (st : State) (i : Z) (key : string) (cb : Z) : HookSubscription :=
  MkSub i key cb (Some (next_ref st)) true.

(** C23.  Tenant isolation: a callback subscribed with a namespace and no filter is invoked,
    at any point of any later history, only for events of a namespace of the same family,
    and a durable subscription with a namespace likewise; whatever the namespace cache has
    kept from earlier versions. *)
Theorem scope_isolation family is_row store ops1 i fi key cb n ops2 resolver e k effs st' :
  rows_ok store -> allowed family is_row ops1 (HookDispatcher store) ->
  let st1 := history ops1 (HookDispatcher store) in
  by_id (subscriptions st1) !! i = None ->
  let st2 := (subscribe i fi key cb None (Some n) st1).2 in
  allowed family is_row ops2 st2 -> Forall (fun o => next_ref st1 ∉ op_refs o) ops2 ->
  lawful_opt family is_row resolver ->
  run_dispatch resolver (history ops2 st2) e = Ok (k, effs, st') ->
  (Invoke (scoped_sub st1 i key cb) ∈ effs -> family (e_namespace_id e) = family n) /\
  (forall p m, Deliver p ∈ effs -> p_namespace_id p = Some m -> family (e_namespace_id e) = family m).
Proof.
  intros Hr H1 st1 Hi st2 H2 Hp Hl Hd.
  assert (W1 : wf family is_row st1) by (eapply run_wf; [exact H1|by apply initial_wf]).
  assert (W2 : wf family is_row st2) by (apply wf_subscribe; [done|constructor|done]).
  assert (S2 : scoped (next_ref st1) n st2).
  { unfold st2, subscribe. cbn [snd]. eapply scoped_frame; [apply queue_embedding_frame|].
    split; [cbn; lia|]. exists (bare_filter fi n). cbn. by rewrite lookup_insert_eq. }
  assert (W3 : wf family is_row (history ops2 st2)) by (by eapply run_wf).
  pose proof (scoped_run _ _ _ _ _ _ _ family is_row _ _ _ _ H2 W2 Hp S2) as (_ & f & Hf & Hn).
  destruct (dispatch_spec _ _ _ _ _ _ _ family is_row resolver Hl _ _ _ _ _ Hd) as (_ & HI & HD); [apply W3|].
  split.
  - intros Hin. destruct (HI _ Hin) as (_ & _ & Hfam). apply Hfam.
    unfold filter_scope, scoped_sub. cbn [s_filter]. by rewrite Hf.
  - intros p m Hin Hm. destruct (HD _ Hin) as (_ & _ & Hfam & _). by apply Hfam.
Qed.

(** C34.  The scope check heals itself: after any history over earlier versions of the
    namespace table, if the table now resolves the event's id and the scope's to the same
    active row, the check succeeds, even when the cache still maps one of them to a row
    that has been superseded. *)
Theorem scope_self_heals family is_row store ops table e n row :
  rows_ok store -> allowed family is_row ops (HookDispatcher store) -> versions family is_row table ->
  resolve_on table (e_namespace_id e) = Some row -> resolve_on table n = Some row ->
  fst (_namespace_scope_matches (Some (resolve_on table)) e (Some n)
         (ns_resolve_cache (history ops (HookDispatcher store)))) = true.
Proof.
  intros Hr Ht Hv He Hn.
  pose proof (wf_cache _ _ _ (run_wf _ _ _ _ _ _ _ _ _ ops _ Ht (initial_wf family is_row store Hr))) as Hc.
  revert Hc. generalize (ns_resolve_cache (history ops (HookDispatcher store))) as c. intros c Hc.
  pose proof (resolve_namespace_lawful _ _ _ Hv) as HL.
  by apply (heals family is_row (resolve_on table) HL c e n row).
Qed.

Lemma subscribe_heap i fi key cb r n st :
  heap (subscribe i fi key cb (Some r) (Some n) st).2 = alter (set_namespace (Some n)) r (heap st).
Proof. unfold subscribe. cbn [snd]. by edestruct queue_embedding_frame as (c & p & ->). Qed.

Lemma subscribe_cache i fi key cb r n st :
  ns_resolve_cache (subscribe i fi key cb (Some r) (Some n) st).2 = ns_resolve_cache st.
Proof. unfold subscribe. cbn [snd]. by edestruct queue_embedding_frame as (c & p & ->). Qed.

(** A filter object registered twice is rescoped: subscribing it for [b] after it was
    subscribed for [a] moves the first callback to [b] too, which from then on is invoked
    for events of [b]'s family and for no other, its own tenant's included. *)
Theorem shared_filter_rescopes family is_row st r i1 i2 fi1 fi2 key cb1 cb2 a b resolver e k effs st' :
  wf family is_row st -> is_Some (heap st !! r) -> lawful_opt family is_row resolver ->
  let st1 := (subscribe i1 fi1 key cb1 (Some r) (Some a) st).2 in
  let st2 := (subscribe i2 fi2 key cb2 (Some r) (Some b) st1).2 in
  run_dispatch resolver st2 e = Ok (k, effs, st') ->
  Invoke (MkSub i1 key cb1 (Some r) true) ∈ effs -> family (e_namespace_id e) = family b.
Proof.
  intros W [f Hf] Hl st1 st2 Hd Hin.
  assert (H2 : filter_scope st2 (Some r) = Some b).
  { unfold filter_scope. cbn [mbind option_bind]. unfold st2, st1. rewrite !subscribe_heap.
    by rewrite !lookup_alter_eq, Hf. }
  assert (Hc : ns_resolve_cache st2 = ns_resolve_cache st) by (unfold st2, st1; by rewrite !subscribe_cache).
  destruct (dispatch_spec _ _ _ _ _ _ _ family is_row resolver Hl _ _ _ _ _ Hd) as (_ & HI & _).
  { rewrite Hc. apply W. }
  destruct (HI _ Hin) as (_ & _ & Hfam). by apply Hfam.
Qed.

(** ** Delivery *)

Lemma matching_persistent_plain resolver st e subs cache l cache' p :
  matching_persistent np_dot np_norm str lower llm_enabled llm_evaluate resolver st e subs cache = Ok (l, cache') ->
  p ∈ subs -> p_paused p = false -> p_namespace_id p = None -> p_filter p = None -> p ∈ l.
Proof.
  intros E Hp Hpa Hns Hf. revert cache l cache' E. induction Hp as [p subs|p q subs Hp IH]; cbn; intros cache l cache' E.
  - rewrite Hpa, Hns, Hf in E. cbn in E.
    destruct (matching_persistent _ _ _ _ _ _ _ st e subs cache) as [[l1 c1]|]; [|done]. cbn in E. simplify_eq. left.
  - destruct (p_paused q); [by eapply IH|].
    destruct (_namespace_scope_matches resolver e (p_namespace_id q) cache) as [[] c1]; cbn in E; [|by eapply IH].
    destruct (_passes_filter_cascade _ _ _ _ _ _ resolver st e (p_filter q) c1) as [[b c2]|]; [|done]. cbn in E.
    destruct (matching_persistent _ _ _ _ _ _ _ st e subs c2) as [[l1 c3]|] eqn:Em; [|done]. cbn in E.
    specialize (IH Hpa Hns Hf _ _ _ Em). simplify_eq. destruct b; [by right|done].
Qed.

(** A durable subscription alone is never served: the coordinator and the facade
    dispatch only when there is an in-process callback.  On a dispatcher with none, the
    event of a durable subscription that [dispatch] would deliver is dropped. *)
Theorem persistent_only_unserved resolver st e p k effs st' :
  has_sink = true -> by_id (subscriptions st) = ∅ ->
  p ∈ listed (persistents st) (e_event_type e) -> p_paused p = false ->
  p_namespace_id p = None -> p_filter p = None ->
  run_dispatch resolver st e = Ok (k, effs, st') ->
  Deliver p ∈ effs /\
  dispatch_hook np_dot np_norm str lower llm_enabled llm_evaluate has_sink resolver (Some st) e = Ok [].
Proof.
  intros Hsink Hs Hp Hpa Hns Hf Hd. split.
  - unfold dispatch in Hd. destruct (listed (persistents st) (e_event_type e)) as [|q l] eqn:El;
      [by apply not_elem_of_nil in Hp|].
    assert (Hd' : ('(matching, cache) ← matching_subs np_dot np_norm str lower llm_enabled llm_evaluate resolver st e
         (listed (subscriptions st) (e_event_type e)) (ns_resolve_cache st);
       '(delivered, cache) ← matching_persistent np_dot np_norm str lower llm_enabled llm_evaluate resolver st e
         (q :: l) cache;
       Ok (len matching, (if has_sink then List.map Deliver delivered else []) ++ List.map Invoke matching,
           with_cache cache st)) = Ok (k, effs, st')) by (rewrite <- Hd; by destruct (listed (subscriptions st) _)).
    clear Hd. destruct (matching_subs _ _ _ _ _ _ _ st e _ _) as [[ms c1]|]; [|done]. cbn [mbind result_bind] in Hd'.
    destruct (matching_persistent _ _ _ _ _ _ _ st e (q :: l) c1) as [[dl c2]|] eqn:Em; [|done].
    cbn [mbind result_bind] in Hd'. rewrite Hsink in Hd'. injection Hd' as _ <- _. apply elem_of_app. left.
    apply list_elem_of_In, in_map, list_elem_of_In. by eapply matching_persistent_plain.
  - unfold dispatch_hook, should_dispatch_hooks, subscription_count. by rewrite Hs, map_size_empty.
Qed.

Lemma matching_subs_bad resolver st e subs cache s r f x :
  s ∈ subs -> s_enabled s = true -> s_filter s = Some r -> heap st !! r = Some f ->
  f_namespace_id f = None -> _passes_type_filter str lower e f = Err x ->
  exists y, matching_subs np_dot np_norm str lower llm_enabled llm_evaluate resolver st e subs cache = Err y.
Proof.
  intros Hs En Hf Hr Hns Hx. revert cache. induction Hs as [s subs|s q subs Hs IH]; cbn; intros cache.
  - rewrite En. cbn. unfold _passes_filter_cascade. rewrite Hf, Hr, Hns. cbn. rewrite Hx. cbn. eauto.
  - destruct (s_enabled q); cbn; [|by apply IH].
    destruct (_passes_filter_cascade _ _ _ _ _ _ resolver st e (s_filter q) cache) as [[b c]|]; cbn; [|eauto].
    destruct (IH En Hf c) as [y ->]. cbn. eauto.
Qed.

(** One bad pattern silences an event type: when the structural pattern of one enabled
    subscription raises on an event - a pattern is not checked when it is registered - the
    dispatch raises, no callback of any subscription is invoked and nothing is delivered,
    and the exception leaves through the ingest path. *)
Theorem bad_pattern_silences resolver st e s r f x :
  s ∈ listed (subscriptions st) (e_event_type e) -> s_enabled s = true -> s_filter s = Some r ->
  heap st !! r = Some f -> f_namespace_id f = None -> _passes_type_filter str lower e f = Err x ->
  by_id (subscriptions st) <> ∅ ->
  exists y, dispatch_hook np_dot np_norm str lower llm_enabled llm_evaluate has_sink resolver (Some st) e = Err y.
Proof.
  intros Hs En Hf Hr Hns Hx Hne. unfold dispatch_hook, should_dispatch_hooks, subscription_count.
  replace (Z.of_nat (size (by_id (subscriptions st))) >? 0) with true.
  2:{ symmetry. apply Z.gtb_lt.
      assert (size (by_id (subscriptions st)) <> 0%nat) by (by rewrite map_size_empty_iff). lia. }
  unfold dispatch. destruct (matching_subs_bad resolver st e (listed (subscriptions st) (e_event_type e))
    (ns_resolve_cache st) s r f x Hs En Hf Hr Hns Hx) as [y Hy].
  destruct (listed (subscriptions st) (e_event_type e)) as [|s0 l]; [by apply not_elem_of_nil in Hs|].
  destruct (listed (persistents st) (e_event_type e)); rewrite Hy; cbn; eauto.
Qed.
End statements.

(** ** Restart *)

Definition without_embedding (f : SemanticFilter) : SemanticFilter :=
  MkFilter (f_id f) (f_name f) (f_description f) (entity_types f) (relationship_types f)
    (dream_op_types f) (dream_decisions f) (match_ f) (examples f) (anti_examples f) None
    (similarity_threshold f) (llm_confidence_threshold f) (filter_model f) (f_namespace_id f).

Lemma serialize_roundtrip f n :
  deserialize_filter (serialize_filter f) n = set_namespace n (without_embedding f).
Proof. done. Qed.

(** A row and the subscription it is read as. *)
Definition read_as (st : State) (row : HookRow) (p : PersistentSubscription) : Prop :=
  exists filter,
    p = MkPersistent (row_id row) (row_event_type row) (row_delivery row) (row_namespace_id row) filter
          (row_paused row) /\
    match row_filter row with
    | None => filter = None
    | Some raw => exists r, filter = Some r /\ heap st !! r = Some (deserialize_filter raw (row_namespace_id row))
    end.

Lemma read_as_mono st st' row p :
  (forall r f, heap st !! r = Some f -> heap st' !! r = Some f) -> read_as st row p -> read_as st' row p.
Proof.
  intros Hm (fl & -> & H). exists fl. split; [done|]. destruct (row_filter row); [|done].
  destruct H as (r & ? & Hr). eauto.
Qed.

Lemma load_all_spec rows st l st' :
  load_all rows st = (l, st') -> (forall r, next_ref st <= r -> heap st !! r = None) ->
  Forall2 (read_as st') rows l /\ (forall r f, heap st !! r = Some f -> heap st' !! r = Some f).
Proof.
  revert st l st'. induction rows as [|row rows IH]; cbn; intros st l st' E Hfresh.
  { simplify_eq. by split. }
  destruct (_row_to_subscription row st) as [p st1] eqn:E1.
  destruct (load_all rows st1) as [l1 st2] eqn:E2. simplify_eq.
  assert (H1 : read_as st1 row p /\ (forall r f, heap st !! r = Some f -> heap st1 !! r = Some f) /\
    (forall r, next_ref st1 <= r -> heap st1 !! r = None)).
  { unfold _row_to_subscription in E1. unfold read_as. destruct (row_filter row) as [raw|]; cbn in E1; simplify_eq; cbn.
    - split_and!.
      + exists (Some (next_ref st)). split; [done|]. exists (next_ref st). split; [done|]. by rewrite lookup_insert_eq.
      + intros r f Hr. rewrite lookup_insert_ne; [done|]. intros <-. rewrite Hfresh in Hr by lia. done.
      + intros r Hr. rewrite lookup_insert_ne by lia. apply Hfresh. lia.
    - split_and!; [by exists None|done|done]. }
  destruct H1 as (Hp & Hm & Hf). destruct (IH _ _ _ E2 Hf) as [HF HM]. split; [|by auto].
  constructor; [|done]. by eapply read_as_mono.
Qed.

Lemma load_one_frame st p :
  heap (load_one st p) = heap st /\ persistents (load_one st p) = replace p (persistents st).
Proof.
  unfold load_one. destruct (queue_opt_frame (p_filter p) (with_persistents (replace p (persistents st)) st))
    as (c & q & ->). done.
Qed.

Lemma load_loop_spec records st :
  reg_ok (persistents st) ->
  heap (foldl load_one st records) = heap st /\ reg_ok (persistents (foldl load_one st records)) /\
  (NoDup (p_id <$> records) -> forall p, p ∈ records ->
     by_id (persistents (foldl load_one st records)) !! p_id p = Some p) /\
  (forall i, i ∉ p_id <$> records ->
     by_id (persistents (foldl load_one st records)) !! i = by_id (persistents st) !! i).
Proof.
  revert st. induction records as [|q records IH]; intros st W; cbn [foldl].
  { split_and!; try done. by intros _ p ?%not_elem_of_nil. }
  destruct (load_one_frame st q) as [Hh Hg].
  destruct (IH (load_one st q)) as (H1 & H2 & H3 & H4); [rewrite Hg; by apply replace_ok|].
  split_and!; [by rewrite H1|done| |].
  - rewrite fmap_cons, NoDup_cons. intros [Hq Hn] p [->|Hp]%elem_of_cons; [|by apply H3].
    rewrite H4 by done. rewrite Hg, replace_by_id. apply lookup_insert_eq.
  - intros i. rewrite fmap_cons, not_elem_of_cons. intros [Hne Hi]. rewrite H4 by done.
    rewrite Hg, replace_by_id. by rewrite lookup_insert_ne.
Qed.

(** What a restart keeps: a durable subscription that was written comes back, in a new
    process, with its id, event type, delivery and namespace, and a filter equal to the
    registered one except that its embedding is to be computed again and its scope is the
    row's.  So the scope is kept when a namespace was given at registration, and a scope
    the filter carried of its own is lost: the subscription then matches every tenant. *)
Theorem restart_keeps_subscription st rows i key d r f n :
  subscription_store st = Some rows -> rows_ok (Some rows) -> heap st !! r = Some f ->
  let st1 := (register_persistent i false key d (Some r) n st).2 in
  let st2 := (load_persistent false (HookDispatcher (subscription_store st1))).2 in
  filter_scope st1 (Some r) = match n with Some _ => n | None => f_namespace_id f end /\
  exists r', MkPersistent i key d n (Some r') false ∈ listed (persistents st2) key /\
    heap st2 !! r' = Some (set_namespace n (without_embedding f)) /\
    filter_scope st2 (Some r') = n.
Proof.
  intros Hst Hrows Hf st1 st2.
  set (f' := match n with Some _ => set_namespace n f | None => f end).
  assert (Hh : heap (scope_filter (Some r) n st) !! r = Some f').
  { unfold scope_filter, f'. destruct n as [n|]; [|done]. cbn. by rewrite lookup_alter_eq, Hf. }
  set (row := MkHookRow i n key (Some (serialize_filter f)) d false).
  assert (H1 : heap st1 !! r = Some f' /\ subscription_store st1 = Some (<[i := row]> rows)).
  { unfold st1, register_persistent.
    assert (Hs : subscription_store (scope_filter (Some r) n st) = Some rows) by (by destruct n).
    assert (Hrow : row_of (scope_filter (Some r) n st) (MkPersistent i key d n (Some r) false) = row).
    { unfold row_of, row. cbn [p_filter p_id p_namespace_id p_event_type p_delivery p_paused].
      rewrite Hh. unfold f'. by destruct n. }
    rewrite Hs. cbn [snd]. edestruct queue_embedding_frame as (c & p & ->). by rewrite Hrow. }
  destruct H1 as [H1 H1s]. split.
  { unfold filter_scope. cbn [mbind option_bind]. rewrite H1. unfold f'. by destruct n. }
  unfold st2. rewrite H1s. unfold load_persistent. cbn [HookDispatcher subscription_store].
  destruct (load_all _ (HookDispatcher _)) as [l st3] eqn:E. cbn [snd].
  destruct (load_all_spec _ _ _ _ E) as [HF _]; [done|].
  set (st4 := with_persistents empty_registry st3).
  destruct (load_loop_spec l st4 empty_registry_ok) as (Lh & Lok & Lin & _).
  assert (Hrow : row ∈ List.map snd (map_to_list (<[i := row]> rows))).
  { apply list_elem_of_In, in_map_iff. exists (i, row). split; [done|].
    apply list_elem_of_In, elem_of_map_to_list. apply lookup_insert_eq. }
  apply list_elem_of_lookup in Hrow as [k Hk].
  destruct (Forall2_lookup_l _ _ _ _ _ HF Hk) as (p & Hp & fl & -> & Hfl).
  cbn in Hfl. destruct Hfl as (r' & -> & Hr'). exists r'.
  assert (Hids : p_id <$> l = (map_to_list (<[i := row]> rows)).*1).
  { assert (HI : Forall (fun ir => row_id ir.2 = ir.1) (map_to_list (<[i := row]> rows))).
    { apply Forall_forall. intros [j rw] Hj. apply elem_of_map_to_list in Hj. cbn.
      apply lookup_insert_Some in Hj as [[<- <-]|[_ Hj]]; [done|]. by eapply Hrows. }
    revert HF HI. clear. generalize (map_to_list (<[i := row]> rows)) as m. intros m. revert l.
    induction m as [|x m IH]; intros l HF HI; cbn in HF; inversion HF as [|? q ? l' (fl & -> & _) HF']; subst; [done|].
    apply Forall_cons in HI as [Hx HI]. cbn. by rewrite Hx, (IH _ HF' HI). }
  apply list_elem_of_lookup_2 in Hp.
  assert (Hin : MkPersistent i key d n (Some r') false ∈ listed (persistents (foldl load_one st4 l)) key).
  { specialize (Lin ltac:(rewrite Hids; apply NoDup_fst_map_to_list) _ Hp).
    destruct Lok as (_ & Lk & _). by apply Lk in Lin as [_ ?]. }
  split_and!; [exact Hin|by rewrite Lh|].
  unfold filter_scope. cbn [mbind option_bind]. rewrite Lh. unfold st4.
  cbn [heap with_persistents]. by rewrite Hr'.
Qed.

(** ** Witnesses *)

Definition sample_family (z : Z) : Z := if z <=? 2 then 10 else if z =? 3 then 30 else z.
Definition sample_row (z : Z) : Prop := z = 1 \/ z = 2 \/ z = 3.

(** Namespace 10 in its first version, and in its second. *)
Definition sample_v1 : list NamespaceModel := [MkNamespace 1 10 true; MkNamespace 3 30 true].
Definition sample_v2 : list NamespaceModel := [MkNamespace 1 10 false; MkNamespace 2 10 true; MkNamespace 3 30 true].

Lemma sample_versions table : table = sample_v1 \/ table = sample_v2 -> versions sample_family sample_row table.
Proof.
  intros Ht m Hm. unfold sample_row, sample_family.
  destruct Ht as [-> | ->]; repeat (apply elem_of_cons in Hm as [->|Hm]; [cbn; split_and!; try done; lia|]);
    by apply not_elem_of_nil in Hm.
Qed.

Lemma sample_lawful table : table = sample_v1 \/ table = sample_v2 ->
  lawful_opt sample_family sample_row (Some (resolve_on table)).
Proof. intros H. by apply resolve_namespace_lawful, sample_versions. Qed.

Definition sample_event (ns : Z) : MemoryEvent :=
  MkEvent ns "entity.created" "entity" [("name", VStr "x")] None.

Definition sample_dispatch := dispatch (fun _ _ => f0) (fun _ => f0) (fun _ => "") (fun s => s) false (fun _ _ => true) true.
Definition sample_run := run (fun _ _ => f0) (fun _ => f0) (fun _ => "") (fun s => s) false (fun _ _ => true) true.

Lemma dispatcher_tables_consistent_witness :
  let st := sample_run [Subscribe 5 50 "entity.created" 7 None (Some 10); Unsubscribe 5;
                        Subscribe 6 60 "entity.created" 7 None None] (HookDispatcher None) in
  NoDup (s_id <$> listed (subscriptions st) "entity.created").
Proof.
  refine (proj1 (proj2 (proj2 (dispatcher_tables_consistent (fun _ _ => f0) (fun _ => f0) (fun _ => "") (fun s => s)
    false (fun _ _ => true) true sample_family sample_row None
    [Subscribe 5 50 "entity.created" 7 None (Some 10); Unsubscribe 5; Subscribe 6 60 "entity.created" 7 None None]
    _ _)) "entity.created")); [done|].
  cbn. repeat split; try constructor.
Defined.

Lemma scope_isolation_witness :
  let st1 := HookDispatcher None in
  let st2 := (subscribe 5 50 "entity.created" 7 None (Some 10) st1).2 in
  exists effs, (exists k st', sample_dispatch (Some (resolve_on sample_v2))
      (sample_run [Dispatch (Some (resolve_on sample_v1)) (sample_event 1)] st2) (sample_event 2)
      = Ok (k, effs, st')) /\
    Invoke (scoped_sub st1 5 "entity.created" 7) ∈ effs /\ sample_family 2 = sample_family 10.
Proof.
  intros st1 st2. eexists. split; [eexists _, _; vm_compute; reflexivity|]. split; [left|].
  refine (proj1 (scope_isolation (fun _ _ => f0) (fun _ => f0) (fun _ => "") (fun s => s)
    false (fun _ _ => true) true sample_family sample_row None [] 5 50 "entity.created" 7 10
    [Dispatch (Some (resolve_on sample_v1)) (sample_event 1)] (Some (resolve_on sample_v2)) (sample_event 2)
    _ _ _ _ _ _ _ _ _ _) _).
  - done.
  - exact I.
  - reflexivity.
  - split; [split; [constructor|apply (sample_lawful sample_v1); auto]|exact I].
  - repeat constructor. apply not_elem_of_nil.
  - apply (sample_lawful sample_v2); auto.
  - vm_compute. reflexivity.
  - left.
Defined.

Lemma scope_self_heals_witness :
  fst (_namespace_scope_matches (Some (resolve_on sample_v2)) (sample_event 2) (Some 10)
    (ns_resolve_cache (sample_run [Subscribe 5 50 "entity.created" 7 None (Some 10);
       Dispatch (Some (resolve_on sample_v1)) (sample_event 1)] (HookDispatcher None)))) = true.
Proof.
  apply (scope_self_heals (fun _ _ => f0) (fun _ => f0) (fun _ => "") (fun s => s)
    false (fun _ _ => true) true sample_family sample_row None
    [Subscribe 5 50 "entity.created" 7 None (Some 10); Dispatch (Some (resolve_on sample_v1)) (sample_event 1)]
    sample_v2 (sample_event 2) 10 2).
  - done.
  - split; [split; [constructor|reflexivity]|].
    split; [split; [constructor|apply (sample_lawful sample_v1); auto]|exact I].
  - apply sample_versions. auto.
  - reflexivity.
  - reflexivity.
Defined.

(** The cache the self-healing starts from does hold a superseded row. *)
Example sample_stale :
  ns_resolve_cache (sample_run [Subscribe 5 50 "entity.created" 7 None (Some 10);
    Dispatch (Some (resolve_on sample_v1)) (sample_event 1)] (HookDispatcher None)) !! 10 = Some 1.
Proof. vm_compute. reflexivity. Qed.

Lemma shared_filter_rescopes_witness :
  let st := sample_run [NewFilter (bare_filter 50 0)] (HookDispatcher None) in
  let st1 := (subscribe 5 51 "entity.created" 7 (Some 0) (Some 10) st).2 in
  let st2 := (subscribe 6 52 "entity.created" 8 (Some 0) (Some 30) st1).2 in
  exists effs, (exists k st', sample_dispatch (Some (resolve_on sample_v1)) st2 (sample_event 3) = Ok (k, effs, st')) /\
    Invoke (MkSub 5 "entity.created" 7 (Some 0) true) ∈ effs /\ sample_family 3 = sample_family 30.
Proof.
  intros st st1 st2. eexists. split; [eexists _, _; vm_compute; reflexivity|]. split; [left|].
  eapply (shared_filter_rescopes (fun _ _ => f0) (fun _ => f0) (fun _ => "") (fun s => s)
    false (fun _ _ => true) true sample_family sample_row st 0 5 6 51 52 "entity.created" 7 8 10 30
    (Some (resolve_on sample_v1)) (sample_event 3)).
  - apply (wf_alloc sample_family sample_row (bare_filter 50 0) (HookDispatcher None)).
    by apply initial_wf.
  - vm_compute. by eexists.
  - apply sample_lawful. auto.
  - vm_compute. reflexivity.
  - left.
Defined.

Definition sample_durable : State :=
  sample_run [Register 5 false "entity.created" (VStr "hook") None None] (HookDispatcher (Some ∅)).

Lemma persistent_only_unserved_witness :
  dispatch_hook (fun _ _ => f0) (fun _ => f0) (fun _ => "") (fun s => s) false (fun _ _ => true) true
    None (Some sample_durable) (sample_event 1) = Ok [].
Proof.
  refine (proj2 (persistent_only_unserved (fun _ _ => f0) (fun _ => f0) (fun _ => "") (fun s => s) false
    (fun _ _ => true) true None sample_durable (sample_event 1)
    (MkPersistent 5 "entity.created" (VStr "hook") None None false) _ _ _ _ _ _ _ _ _ _)).
  - reflexivity.
  - reflexivity.
  - left.
  - reflexivity.
  - reflexivity.
  - reflexivity.
  - vm_compute. reflexivity.
Defined.

Definition sample_bad_filter : SemanticFilter :=
  MkFilter 50 "bad" "" [] [] [] [] (Some (VDict [("name", VList [VDict [("prefix", VInt 5)]])])) [] [] None
    f1 f1 None None.

Definition sample_bad_state : State :=
  sample_run [NewFilter sample_bad_filter; Subscribe 5 51 "entity.created" 7 None None;
              Subscribe 6 52 "entity.created" 8 (Some 0) None] (HookDispatcher None).

Lemma bad_pattern_silences_witness :
  exists y, dispatch_hook (fun _ _ => f0) (fun _ => f0) (fun _ => "") (fun s => s) false (fun _ _ => true) true
    None (Some sample_bad_state) (sample_event 1) = Err y.
Proof.
  apply (bad_pattern_silences (fun _ _ => f0) (fun _ => f0) (fun _ => "") (fun s => s) false
    (fun _ _ => true) true None sample_bad_state (sample_event 1)
    (MkSub 6 "entity.created" 8 (Some 0) true) 0 sample_bad_filter TypeError).
  - right. left.
  - reflexivity.
  - reflexivity.
  - vm_compute. reflexivity.
  - reflexivity.
  - vm_compute. reflexivity.
  - vm_compute. discriminate.
Defined.

Lemma restart_keeps_subscription_witness :
  let st := sample_run [NewFilter (bare_filter 50 10)] (HookDispatcher (Some ∅)) in
  let st1 := (register_persistent 5 false "entity.created" (VStr "hook") (Some 0) None st).2 in
  filter_scope st1 (Some 0) = Some 10 /\
  exists r, filter_scope (load_persistent false (HookDispatcher (subscription_store st1))).2 (Some r) = None.
Proof.
  intros st st1.
  destruct (restart_keeps_subscription st ∅ 5 "entity.created" (VStr "hook") 0 (bare_filter 50 10) None)
    as (H1 & r & _ & _ & H2).
  - reflexivity.
  - intros rows [= <-] i row. by rewrite lookup_empty.
  - reflexivity.
  - split; [exact H1|]. exists r. exact H2.
Defined.
