(* ===== verification/FilterTarget.v ===== *)
(** What the compilers that emit a query text share ([filter/compilers/]): the conditions
    they build, their rendering, three-valued evaluation, the state of a compile pass and
    the walk over logical nodes.

    A condition is kept as a tree whose [render] is the text the compiler returns; a
    placeholder is the number of its bind value.  An unknown truth value is [None]. *)
From S2P Require Import Prelude PyValue FilterModel FilterAst FilterPython FilterSplit.

Local Open Scope string_scope.
Local Open Scope list_scope.

(** ** Context *)

(** [CompileContext]: the fields a compiler to a query language reads besides those of the
    in-memory compiler. *)
Record TargetContext := MkTargetContext {
  backend_target : string;
  table_alias : option string;
  param_namespace : string;
  sqlite_json1 : bool;
  base_context : CompileContext }.

(** [a or b] for an optional string [a]. *)
Definition or_else (a : option string) (b : string) : string :=
  match a with Some s => if String.eqb s "" then b else s | None => b end.

(** ** Conditions *)

(** [A] are the atoms of a language: comparisons, null tests, membership. *)
Inductive cond (A : Type) :=
| Const (b : bool)
| Atom (a : A)
| Not (c : cond A)
| And (l : list (cond A))
| Or (l : list (cond A))
| Coalesce (c : cond A)
| Case (c t : cond A)
| Paren (c : cond A).
Arguments Const {A}. Arguments Atom {A}. Arguments Not {A}. Arguments And {A}.
Arguments Or {A}. Arguments Coalesce {A}. Arguments Case {A}. Arguments Paren {A}.

Section render.
Context {A : Type} (atom : A -> string) (yes no : string).

Fixpoint render (c : cond A) : string :=
  match c with
  | Const b => if b then yes else no
  | Atom a => atom a
  | Not c => "NOT " +:+ render c
  | And l => str_join " AND " (List.map render l)
  | Or l => str_join " OR " (List.map render l)
  | Coalesce c => "coalesce(" +:+ render c +:+ ", " +:+ no +:+ ")"
  | Case c t => "CASE WHEN " +:+ render c +:+ " THEN " +:+ render t +:+ " ELSE " +:+ no +:+ " END"
  | Paren c => "(" +:+ render c +:+ ")"
  end.
End render.

(** ** Three-valued logic *)

Definition k_not (a : option bool) : option bool := negb <$> a.

Definition k_and2 (a b : option bool) : option bool :=
  match a, b with
  | Some false, _ | _, Some false => Some false
  | Some true, Some true => Some true
  | _, _ => None
  end.

Definition k_or2 (a b : option bool) : option bool :=
  match a, b with
  | Some true, _ | _, Some true => Some true
  | Some false, Some false => Some false
  | _, _ => None
  end.

Definition k_and (l : list (option bool)) : option bool := foldr k_and2 (Some true) l.
Definition k_or (l : list (option bool)) : option bool := foldr k_or2 (Some false) l.

Definition is_true (a : option bool) : bool := match a with Some true => true | _ => false end.

Section eval.
Context {A : Type} (atom : A -> option bool).

(** [CASE WHEN c THEN t ELSE no END]; [coalesce(c, no)]. *)
Fixpoint eval (c : cond A) : option bool :=
  match c with
  | Const b => Some b
  | Atom a => atom a
  | Not c => k_not (eval c)
  | And l => k_and (List.map eval l)
  | Or l => k_or (List.map eval l)
  | Coalesce c => Some (default false (eval c))
  | Case c t => if is_true (eval c) then eval t else Some false
  | Paren c => eval c
  end.
End eval.

(** ** A compile pass *)

(** The bind values so far and the consumed paths. *)
Definition pass : Type := list value * gset string.

Definition B (A : Type) : Type := pass -> result (A * pass).

#[export] Instance B_ret : MRet B := fun A a s => Ok (a, s).
#[export] Instance B_bind : MBind B := fun A C f m s =>
  match m s with Ok (a, s') => f a s' | Err e => Err e end.

Definition b_raise {A} (e : pyexn) : B A := fun _ => Err e.
Definition b_lift {A} (r : result A) : B A := fun s => match r with Ok a => Ok (a, s) | Err e => Err e end.

(** [_bind]: the number of the placeholder. *)
Definition _bind (v : value) : B nat := fun s => Ok (length s.1, (s.1 ++ [v], s.2)).

(** [self._consumed.add(_path_str(path))] *)
Definition consumed_add (path : list string) : B () := fun s => Ok ((), (s.1, {[_path_str path]} ∪ s.2)).

Definition b_seq {A} : list (B A) -> B (list A) :=
  fix b_seq ms :=
    match ms with
    | [] => mret []
    | m :: ms' => a ← m; l ← b_seq ms'; mret (a :: l)
    end.

(** ** Logical nodes *)

Section logical.
Context {A : Type} (mode : unsupported_mode) (consumable : ast -> bool).
Context (compile_clause : list string -> Op -> value -> B (cond A)).

(** [_unsupported] *)
Definition unsupported (path : list string) (reason : string) : B (cond A) :=
  match mode with
  | Raise => b_raise (UnsupportedError (_path_str path) reason)
  | Split => mret (Const true)
  end.

Definition deferred (n : ast) : bool := bool_decide (mode = Split) && negb (consumable n).

Fixpoint logical_node (n : ast) : B (cond A) :=
  match n with
  | Clause path op operand => compile_clause path op operand
  | Node op children =>
      if bool_decide (op = AND) then
        match children with
        | [] => mret (Const true)
        | _ => l ← b_seq (List.map logical_node children); mret (Paren (And l))
        end
      else if bool_decide (op = OR) then
        match children with
        | [] => mret (Const false)
        | _ => if deferred n then mret (Const true)
               else l ← b_seq (List.map logical_node children); mret (Paren (Or l))
        end
      else if deferred n then mret (Const true)
      else match children with
           | [] => b_raise IndexError
           | c :: _ => e ← logical_node c; mret (Paren (Not (Paren e)))
           end
  end.
End logical.

(** ** What is compared with the in-memory compiler *)

(** The decision of the in-memory predicate of a filter on a record. *)
Section verdict.
Context (fromisoformat : string -> option datetime) (isoformat : datetime -> string).
Context (ctx : CompileContext).

Fixpoint verdict (n : ast) (r : record) : result bool :=
  match n with
  | Clause path op operand =>
      match compile_clause fromisoformat isoformat ctx path op operand ∅ with
      | Ok (p, _) => p r
      | Err e => Err e
      end
  | Node op children =>
      if bool_decide (op = AND) then all_m (fun c => verdict c r) children
      else if bool_decide (op = OR) then any_m (fun c => verdict c r) children
      else match children with [] => Err IndexError | c :: _ => neg_m (verdict c r) end
  end.
End verdict.
