(* ===== verification/FilterTargetFacts.v ===== *)
(** Facts about every compiler that emits a query text: how conditions evaluate, that a
    pass only appends binds and numbers the placeholders in the order of the text, and
    that what holds of the leaves - being exact, keeping every kept record, being total -
    holds of the whole condition. *)
From S2P Require Import Prelude PyValue FilterModel FilterAst FilterPython FilterPythonFacts FilterSplit FilterSplitFacts FilterTarget.

Local Open Scope string_scope.
Local Open Scope list_scope.

(** ** Three-valued logic *)

Lemma k_and_true l : k_and l = Some true <-> Forall (fun a => a = Some true) l.
Proof.
  induction l as [|a l IH]; [by split|]. cbn [k_and foldr]. fold (k_and l). rewrite Forall_cons, <- IH.
  destruct a as [[]|], (k_and l) as [[]|]; naive_solver.
Qed.

Lemma k_total l : Forall is_Some l -> is_Some (k_and l) /\ is_Some (k_or l).
Proof.
  induction 1 as [|a l [b ->] _ [[x Hx] [y Hy]]]; [split; by eexists|].
  cbn [k_and k_or foldr]. fold (k_and l) (k_or l). rewrite Hx, Hy. destruct b, x, y; split; by eexists.
Qed.

(** Python's [all] and [any], against values that are known where Python's are. *)
Lemma all_m_k_and {X} (f : X -> result bool) (g : X -> option bool) l b :
  Forall (fun x => forall c, f x = Ok c -> g x = Some c) l ->
  all_m f l = Ok b -> k_and (List.map g l) = Some b.
Proof.
  induction 1 as [|x l Hx _ IH]; simpl; [by intros [= <-]|].
  destruct (f x) as [[]|] eqn:E; [| |done].
  - intros Hb. by rewrite (Hx _ eq_refl), IH by done; destruct b.
  - intros [= <-]. by rewrite (Hx _ eq_refl).
Qed.

Lemma any_m_k_or {X} (f : X -> result bool) (g : X -> option bool) l b :
  Forall (fun x => forall c, f x = Ok c -> g x = Some c) l ->
  any_m f l = Ok b -> k_or (List.map g l) = Some b.
Proof.
  induction 1 as [|x l Hx _ IH]; simpl; [by intros [= <-]|].
  destruct (f x) as [[]|] eqn:E; [| |done].
  - intros [= <-]. by rewrite (Hx _ eq_refl).
  - intros Hb. by rewrite (Hx _ eq_refl), IH by done; destruct b.
Qed.

(** ** Conditions *)

Section conditions.
Context {A : Type}.

Lemma cond_rec_ind (P : cond A -> Prop) :
  (forall b, P (Const b)) -> (forall a, P (Atom a)) -> (forall c, P c -> P (Not c)) ->
  (forall l, Forall P l -> P (And l)) -> (forall l, Forall P l -> P (Or l)) ->
  (forall c, P c -> P (Coalesce c)) -> (forall c t, P c -> P t -> P (Case c t)) ->
  (forall c, P c -> P (Paren c)) -> forall c, P c.
Proof.
  intros H1 H2 H3 H4 H5 H6 H7 H8. fix IH 1. intros [b|a|c|l|l|c|c t|c];
    [apply H1|apply H2|by apply H3| | |by apply H6|by apply H7|by apply H8].
  - apply H4. induction l; constructor; auto.
  - apply H5. induction l; constructor; auto.
Qed.

Context (numbers : A -> list nat).

(** The placeholders in the order of the text. *)
Fixpoint placeholders (c : cond A) : list nat :=
  match c with
  | Const _ => []
  | Atom a => numbers a
  | Not c | Coalesce c | Paren c => placeholders c
  | And l | Or l => List.concat (List.map placeholders l)
  | Case c t => placeholders c ++ placeholders t
  end.
End conditions.

(** ** Passes *)

(** What a builder adds to the binds, and the placeholders of its result. *)
Definition numbered {X} (f : X -> list nat) (m : B X) : Prop := forall s x s',
  m s = Ok (x, s') -> exists ext, s'.1 = s.1 ++ ext /\ f x = seq (length s.1) (length ext).

Definition grows {X} (m : B X) : Prop := forall s x s', m s = Ok (x, s') -> s.1 `prefix_of` s'.1.

Lemma numbered_grows {X} (f : X -> list nat) m : numbered f m -> grows m.
Proof. intros H s x s' E. apply H in E as (ext & -> & _). by eexists. Qed.

(** Straight-line builders: run them. *)
Ltac run_pass :=
  let s := fresh "s" in let x := fresh "x" in let s' := fresh "s'" in
  intros s x s'; cbv [mret B_ret mbind B_bind b_raise b_lift _bind consumed_add];
  try intros [= <- <-]; cbn [fst snd].

Lemma numbered_ret {X} (f : X -> list nat) x : f x = [] -> numbered f (mret x).
Proof. intros Hf. run_pass. exists []. by rewrite app_nil_r. Qed.

Lemma numbered_ext {X} (f g : X -> list nat) m : (forall x, g x = f x) -> numbered f m -> numbered g m.
Proof. intros Hfg H s x s' E. rewrite Hfg. by apply H. Qed.

Lemma numbered_raise {X} (f : X -> list nat) e : numbered f (b_raise e).
Proof. done. Qed.

Lemma numbered_map {X Y} (f : X -> list nat) (g : Y -> list nat) m (k : X -> Y) :
  numbered f m -> (forall x, g (k x) = f x) -> numbered g (x ← m; mret (k x)).
Proof.
  intros Hm Hk s y s' E. unfold mbind, B_bind in E. destruct (m s) as [[x s1]|] eqn:E1; [|done].
  injection E as <- <-. apply Hm in E1 as (ext & H1 & F1). exists ext. by rewrite Hk.
Qed.

(** A step that binds nothing. *)
Lemma numbered_after {X Y} (g : Y -> list nat) (m : B X) (k : X -> B Y) :
  numbered (fun _ => []) m -> (forall x, numbered g (k x)) -> numbered g (x ← m; k x).
Proof.
  intros Hm Hk s y s' E. unfold mbind, B_bind in E. destruct (m s) as [[x s1]|] eqn:E1; [|done].
  apply Hm in E1 as (e1 & H1 & F1). apply Hk in E as (e2 & H2 & F2).
  symmetry in F1. apply (f_equal length) in F1. rewrite length_seq in F1. apply nil_length_inv in F1 as ->.
  rewrite app_nil_r in H1. exists e2. by rewrite H2, F2, H1.
Qed.

Lemma numbered_lift {X} (r : result X) : numbered (fun _ => []) (b_lift r).
Proof. destruct r; [by apply numbered_ret|done]. Qed.

Lemma numbered_put v : numbered (fun k => [k]) (_bind v).
Proof. run_pass. by exists [v]. Qed.

Lemma numbered_consumed path : numbered (fun _ => []) (consumed_add path).
Proof. run_pass. exists []. by rewrite app_nil_r. Qed.

Lemma numbered_seq {X} (f : X -> list nat) ms :
  Forall (numbered f) ms -> numbered (fun l => List.concat (List.map f l)) (b_seq ms).
Proof.
  induction 1 as [|m ms Hm _ IH]; [by apply numbered_ret|]. intros s l s' E. cbn [b_seq] in E.
  unfold mbind, B_bind in E. destruct (m s) as [[x s1]|] eqn:E1; [|done].
  destruct (b_seq ms s1) as [[xs s2]|] eqn:E2; [|done]. injection E as <- <-.
  apply Hm in E1 as (e1 & H1 & F1). apply IH in E2 as (e2 & H2 & F2).
  exists (e1 ++ e2). rewrite H2, H1, app_assoc. split; [done|]. cbn.
  by rewrite F1, F2, H1, !length_app, seq_app.
Qed.

(** ** What a builder's result means under the binds of the whole statement *)

Section yields.
Context (binds : list value).

Definition yields {X} (Q : X -> Prop) (m : B X) : Prop := forall s x s',
  m s = Ok (x, s') -> s.1 `prefix_of` s'.1 /\ (s'.1 `prefix_of` binds -> Q x).

Lemma yields_ret {X} (Q : X -> Prop) x : Q x -> yields Q (mret x).
Proof. intros HQ. run_pass. by split. Qed.

Lemma yields_raise {X} (Q : X -> Prop) e : yields Q (b_raise e).
Proof. done. Qed.

Lemma yields_bind {X Y} (P : X -> Prop) (Q : Y -> Prop) m (k : X -> B Y) :
  yields P m -> (forall x, yields (fun y => P x -> Q y) (k x)) -> yields Q (x ← m; k x).
Proof.
  intros Hm Hk s y s' E. unfold mbind, B_bind in E. destruct (m s) as [[x s1]|] eqn:E1; [|done].
  apply Hm in E1 as [H1 HP]. apply Hk in E as [H2 HQ]. split; [by etrans|].
  intros Hb. apply HQ; [done|]. apply HP. by etrans.
Qed.

Lemma yields_weaken {X} (P Q : X -> Prop) m : (forall x, P x -> Q x) -> yields P m -> yields Q m.
Proof. intros HPQ Hm s x s' E. apply Hm in E as [H1 H2]. split; [done|]. intros Hb. by apply HPQ, H2. Qed.

(** The last step of a builder. *)
Lemma yields_map {X Y} (P : X -> Prop) (Q : Y -> Prop) m (k : X -> Y) :
  yields P m -> (forall x, P x -> Q (k x)) -> yields Q (x ← m; mret (k x)).
Proof. intros Hm Hk. eapply yields_bind; [exact Hm|]. intros x. apply yields_ret. by apply Hk. Qed.

Lemma yields_lift {X} (r : result X) : yields (fun x => r = Ok x) (b_lift r).
Proof. intros s x s'. destruct r; [|done]. intros [= -> <-]. by split. Qed.

Lemma yields_put v : yields (fun k => binds !! k = Some v) (_bind v).
Proof.
  run_pass. split; [by eexists|]. intros [ext ->]. rewrite <- app_assoc. by apply list_lookup_middle.
Qed.

Lemma yields_consumed path : yields (fun _ => True) (consumed_add path).
Proof. run_pass. by split. Qed.

Lemma yields_seq {X Y} (P : Y -> X -> Prop) (f : Y -> B X) l :
  Forall (fun y => yields (P y) (f y)) l -> yields (Forall2 P l) (b_seq (List.map f l)).
Proof.
  induction 1 as [|y l Hy _ IH]; [by apply yields_ret|]. cbn [List.map b_seq].
  eapply yields_bind; [exact Hy|]. intros x. eapply yields_map; [exact IH|]. intros xs HF Hx. by constructor.
Qed.
End yields.

(** ** From leaves to the whole condition *)

Section nodes.
Context {A : Type} (mode : unsupported_mode) (consumable : ast -> bool).
Context (compile_clause : list string -> Op -> value -> B (cond A)).
Context (numbers : A -> list nat).

Local Abbreviation node := (logical_node mode consumable compile_clause).

Lemma numbered_node n :
  (forall p o v, numbered (placeholders numbers) (compile_clause p o v)) ->
  numbered (placeholders numbers) (node n).
Proof.
  intros Hc. induction n as [p o v|op cs IH] using ast_rec_ind; [apply Hc|]. cbn [logical_node].
  assert (Hs : numbered (fun l => List.concat (List.map (placeholders numbers) l)) (b_seq (List.map node cs))).
  { apply numbered_seq. clear -IH. induction IH; constructor; done. }
  repeat case_bool_decide; [destruct cs; [by apply numbered_ret|by eapply numbered_map]|..].
  - destruct cs; [by apply numbered_ret|]. case_match; [by apply numbered_ret|by eapply numbered_map].
  - case_match; [by apply numbered_ret|]. destruct cs as [|c cs]; [done|].
    apply Forall_cons in IH as [IHc _]. by eapply numbered_map.
Qed.

(** Evaluation under the binds of the whole statement. *)
Context (binds : list value) (ev : A -> option bool).

Definition gives (P : option bool -> Prop) (m : B (cond A)) : Prop := forall s c s',
  m s = Ok (c, s') -> s'.1 `prefix_of` binds -> P (eval ev c).

Definition exact (b : result bool) (m : B (cond A)) : Prop := gives (fun o => forall x, b = Ok x -> o = Some x) m.
Definition keeping (b : result bool) (m : B (cond A)) : Prop := gives (fun o => b = Ok true -> o = Some true) m.
Definition totally : B (cond A) -> Prop := gives is_Some.

Lemma yields_gives P m : yields binds (fun c => P (eval ev c)) m -> gives P m.
Proof. intros Hm s c s' E. by apply Hm in E as []. Qed.

Lemma exact_keeping b m : exact b m -> keeping b m.
Proof. intros H s c s' E Hp. by apply (H s c s' E Hp). Qed.

Context (Hn : forall p o v, numbered (placeholders numbers) (compile_clause p o v)).

Lemma gives_seq (P : ast -> option bool -> Prop) cs s l s' :
  Forall (fun c => gives (P c) (node c)) cs ->
  b_seq (List.map node cs) s = Ok (l, s') -> s'.1 `prefix_of` binds ->
  Forall2 (fun c e => P c (eval ev e)) cs l.
Proof.
  intros H. revert s l. induction H as [|c cs Hc _ IH]; intros s l E Hp; cbn [List.map b_seq] in E.
  { injection E as <- _. constructor. }
  unfold mbind, B_bind in E. destruct (node c s) as [[e s1]|] eqn:E1; [|done].
  destruct (b_seq _ s1) as [[es s2]|] eqn:E2; [|done]. injection E as <- <-.
  constructor; [|by eapply IH]. eapply Hc; [done|]. etrans; [|exact Hp].
  eapply numbered_grows; [apply (numbered_seq (placeholders numbers))|exact E2].
  apply Forall_forall. intros m (c' & -> & _)%list_elem_of_fmap. by apply numbered_node.
Qed.

Lemma gives_const P b : P (Some b) -> gives P (mret (Const b)).
Proof. intros HP s c s' [= <- _] _. done. Qed.

Lemma gives_raise P e : gives P (b_raise e).
Proof. done. Qed.

Lemma gives_map P Q (m : B (cond A)) (f : cond A -> cond A) :
  gives P m -> (forall e, P (eval ev e) -> Q (eval ev (f e))) -> gives Q (e ← m; mret (f e)).
Proof.
  intros Hm Hf s c s' E Hp. unfold mbind, B_bind in E. destruct (m s) as [[e s1]|] eqn:E1; [|done].
  injection E as <- <-. by eapply Hf, Hm.
Qed.

Lemma gives_list P Q cs (f : list (cond A) -> cond A) :
  Forall (fun c => gives (P c) (node c)) cs ->
  (forall l, Forall2 (fun c e => P c (eval ev e)) cs l -> Q (eval ev (f l))) ->
  gives Q (l ← b_seq (List.map node cs); mret (f l)).
Proof.
  intros Hc Hf s c s' E Hp. unfold mbind, B_bind in E. destruct (b_seq _ s) as [[l s1]|] eqn:E1; [|done].
  injection E as <- <-. eapply Hf, gives_seq; eauto.
Qed.

(** A total leaf gives a total condition. *)
Lemma node_total n :
  (forall p o v, Clause p o v ∈ leaves n -> totally (compile_clause p o v)) -> totally (node n).
Proof.
  induction n as [p o v|op cs IH] using ast_rec_ind; intros H; [apply H; cbn; by left|]. cbn [logical_node].
  assert (Hcs : Forall (fun c => gives is_Some (node c)) cs).
  { rewrite Forall_forall in IH |- *. intros c Hc. apply IH; [done|]. intros p o v Hl. apply H. cbn [leaves].
    apply list_elem_of_In, in_flat_map. exists c. by rewrite <- !list_elem_of_In. }
  assert (Hl : forall l, Forall2 (fun (_ : ast) e => is_Some (eval ev e)) cs l -> Forall is_Some (List.map (eval ev) l)).
  { clear. intros l HF. by induction HF; constructor. }
  repeat case_bool_decide.
  - destruct cs; [by apply gives_const; eexists|]. eapply (gives_list (fun _ => is_Some)); [exact Hcs|].
    intros l HF%Hl. by apply k_total.
  - destruct cs; [by apply gives_const; eexists|]. case_match; [by apply gives_const; eexists|].
    eapply (gives_list (fun _ => is_Some)); [exact Hcs|]. intros l HF%Hl. by apply k_total.
  - case_match; [by apply gives_const; eexists|]. destruct cs as [|c cs]; [done|]. apply Forall_cons in Hcs as [Hc _].
    eapply gives_map; [exact Hc|]. intros e [b Hb]. cbn [eval]. rewrite Hb. by eexists.
Qed.

Section against.
Context (fromisoformat : string -> option datetime) (isoformat : datetime -> string).
Context (pctx : CompileContext) (r : record).

Local Abbreviation verdict := (fun n => verdict fromisoformat isoformat pctx n r).

Lemma Forall2_all_m (cs : list ast) l b :
  Forall2 (fun c e => forall x, verdict c = Ok x -> eval ev e = Some x) cs l ->
  all_m verdict cs = Ok b -> k_and (List.map (eval ev) l) = Some b.
Proof.
  intros H. revert b. induction H as [|c e cs l Hc _ IH]; intros b; simpl; [by intros [= <-]|].
  destruct (FilterTarget.verdict _ _ _ c r) as [[]|] eqn:E; [| |done]; rewrite (Hc _ eq_refl).
  - intros Hb. by rewrite (IH _ Hb); destruct b.
  - by intros [= <-].
Qed.

Lemma Forall2_any_m (cs : list ast) l b :
  Forall2 (fun c e => forall x, verdict c = Ok x -> eval ev e = Some x) cs l ->
  any_m verdict cs = Ok b -> k_or (List.map (eval ev) l) = Some b.
Proof.
  intros H. revert b. induction H as [|c e cs l Hc _ IH]; intros b; simpl; [by intros [= <-]|].
  destruct (FilterTarget.verdict _ _ _ c r) as [[]|] eqn:E; [| |done]; rewrite (Hc _ eq_refl).
  - by intros [= <-].
  - intros Hb. by rewrite (IH _ Hb); destruct b.
Qed.

(** Exact leaves give an exact condition, if nothing of it is deferred. *)
Lemma node_exact n :
  (forall p o v, Clause p o v ∈ leaves n -> exact (verdict (Clause p o v)) (compile_clause p o v)) ->
  mode = Raise \/ (forall op cs, consumable (Node op cs) = true -> Forall (fun c => consumable c = true) cs) /\ consumable n = true ->
  exact (verdict n) (node n).
Proof.
  induction n as [p o v|op cs IH] using ast_rec_ind; intros H Hm; [apply H; cbn; by left|]. cbn [logical_node].
  assert (Hcs : Forall (fun c => exact (verdict c) (node c)) cs).
  { rewrite Forall_forall in IH |- *. intros c Hc. apply IH; [done| |].
    - intros p o v Hl. apply H. cbn [leaves]. apply list_elem_of_In, in_flat_map. exists c.
      by rewrite <- !list_elem_of_In.
    - destruct Hm as [?|[Hf Hn']]; [by left|right]. split; [done|]. apply Hf in Hn'. rewrite Forall_forall in Hn'. auto. }
  assert (Hd : deferred mode consumable (Node op cs) = false).
  { unfold deferred. destruct Hm as [->|[_ ->]]; [by rewrite bool_decide_eq_false_2|by rewrite andb_false_r]. }
  rewrite Hd. unfold exact. cbn [FilterTarget.verdict]. repeat case_bool_decide.
  - destruct cs; [apply gives_const; by intros x [= <-]|].
    eapply (gives_list (fun c o => forall x, verdict c = Ok x -> o = Some x)); [exact Hcs|].
    intros l HF x Hx. by eapply Forall2_all_m.
  - destruct cs; [apply gives_const; by intros x [= <-]|].
    eapply (gives_list (fun c o => forall x, verdict c = Ok x -> o = Some x)); [exact Hcs|].
    intros l HF x Hx. by eapply Forall2_any_m.
  - destruct cs as [|c cs]; [done|]. apply Forall_cons in Hcs as [Hc _].
    eapply gives_map; [exact Hc|]. intros e He x Hx. cbn [eval]. unfold neg_m in Hx.
    destruct (FilterTarget.verdict _ _ _ c r) as [y|] eqn:E; [|done]. injection Hx as <-. by rewrite (He _ eq_refl).
Qed.

(** A leaf that keeps every kept record, and is exact where it is not deferred, gives a
    condition that keeps every kept record. *)
Lemma node_keeping n :
  (forall op cs, consumable (Node op cs) = true -> Forall (fun c => consumable c = true) cs) ->
  (forall p o v, Clause p o v ∈ leaves n -> keeping (verdict (Clause p o v)) (compile_clause p o v)) ->
  (forall p o v, Clause p o v ∈ leaves n -> mode = Raise \/ consumable (Clause p o v) = true ->
     exact (verdict (Clause p o v)) (compile_clause p o v)) ->
  keeping (verdict n) (node n).
Proof.
  intros Hcons. induction n as [p o v|op cs IH] using ast_rec_ind; intros H1 H2; [apply H1; cbn; by left|].
  assert (Hin : forall c p o v, c ∈ cs -> Clause p o v ∈ leaves c -> Clause p o v ∈ leaves (Node op cs)).
  { intros c p o v Hc Hl. cbn [leaves]. apply list_elem_of_In, in_flat_map. exists c. by rewrite <- !list_elem_of_In. }
  destruct (decide (op = AND)) as [->|Hand].
  - cbn [logical_node]. rewrite bool_decide_eq_true_2 by done. unfold keeping. cbn [FilterTarget.verdict].
    rewrite bool_decide_eq_true_2 by done. destruct cs as [|c0 cs']; [by apply gives_const|].
    eapply (gives_list (fun c o => verdict c = Ok true -> o = Some true)).
    + rewrite Forall_forall in IH |- *. intros c Hc. apply IH; [done|intros; apply H1; eauto|intros; apply H2; eauto].
    + intros l HF Hall. rewrite all_m_true in Hall. cbn [eval]. apply k_and_true. clear -HF Hall.
      induction HF as [|c e cs l Hc _ IHF]; [constructor|]. apply Forall_cons in Hall as [Hc' Hall].
      constructor; [by apply Hc|by apply IHF].
  - destruct (deferred mode consumable (Node op cs)) eqn:Hd.
    + cbn [logical_node]. rewrite bool_decide_eq_false_2, Hd by done. unfold keeping. cbn [FilterTarget.verdict].
      rewrite bool_decide_eq_false_2 by done. destruct (bool_decide (op = OR)); [|by apply gives_const].
      destruct cs; [by apply gives_const|by apply gives_const].
    + apply exact_keeping, node_exact.
      * intros p o v Hl. apply H2; [done|]. unfold deferred in Hd.
        destruct mode; [by left|right]. rewrite bool_decide_eq_true_2, andb_true_l, negb_false_iff in Hd by done.
        clear -Hcons Hd Hl. revert Hd Hl. generalize (Node op cs). intros n.
        induction n as [p' o' v'|op' cs' IH] using ast_rec_ind; intros Hd Hl.
        -- cbn in Hl. by apply list_elem_of_singleton in Hl as [= -> -> ->].
        -- cbn [leaves] in Hl. apply list_elem_of_In, in_flat_map in Hl as (c & Hc & Hl).
           apply list_elem_of_In in Hc, Hl. apply Hcons in Hd. rewrite Forall_forall in IH, Hd. eauto.
      * unfold deferred in Hd. destruct mode; [by left|right]. split; [done|].
        by rewrite bool_decide_eq_true_2, andb_true_l, negb_false_iff in Hd by done.
Qed.
End against.
End nodes.

(** ** The in-memory compiler's decision *)

Lemma verdict_spec fromisoformat isoformat pctx r n : forall s p s',
  FilterPython.compile_node fromisoformat isoformat pctx n s = Ok (p, s') ->
  p r = verdict fromisoformat isoformat pctx n r.
Proof.
  assert (Hseq : forall cs,
    Forall (fun n => forall s p s', FilterPython.compile_node fromisoformat isoformat pctx n s = Ok (p, s') ->
      p r = verdict fromisoformat isoformat pctx n r) cs ->
    forall s ps s', c_seq (List.map (FilterPython.compile_node fromisoformat isoformat pctx) cs) s = Ok (ps, s') ->
    Forall2 (fun p c => p r = verdict fromisoformat isoformat pctx c r) ps cs).
  { induction 1 as [|c cs Hc _ IH]; intros s ps s'; simpl; [by intros [= <- _]|].
    destruct (FilterPython.compile_node _ _ _ c s) as [[p s1]|] eqn:E; [|done].
    destruct (c_seq _ s1) as [[qs s2]|] eqn:E'; [|done]. intros [= <- _]. constructor; eauto. }
  assert (Hall : forall ps cs, Forall2 (fun (p : pred) c => p r = verdict fromisoformat isoformat pctx c r) ps cs ->
    all_m (fun fn : pred => fn r) ps = all_m (fun c => verdict fromisoformat isoformat pctx c r) cs /\
    any_m (fun fn : pred => fn r) ps = any_m (fun c => verdict fromisoformat isoformat pctx c r) cs).
  { induction 1 as [|p c ps cs Hc _ [IH1 IH2]]; [done|]. simpl. by rewrite Hc, IH1, IH2. }
  induction n as [path op v|op cs IH] using ast_rec_ind; intros s p s' E.
  - destruct (clause_indep _ _ _ _ _ _ _ _ _ ∅ E) as [t1 E']. cbn [verdict]. cbn in E'. by rewrite E'.
  - cbn [FilterPython.compile_node verdict] in *. repeat case_bool_decide.
    + unfold c_combine in E. destruct (c_seq _ s) as [[ps s2]|] eqn:E1; [|done]. injection E as <- _.
      apply (Hseq cs IH) in E1. by destruct (Hall _ _ E1).
    + unfold c_combine in E. destruct (c_seq _ s) as [[ps s2]|] eqn:E1; [|done]. injection E as <- _.
      apply (Hseq cs IH) in E1. by destruct (Hall _ _ E1).
    + destruct cs as [|c cs]; [done|]. apply Forall_cons in IH as [Hc _]. unfold c_not in E.
      destruct (FilterPython.compile_node _ _ _ c s) as [[q s2]|] eqn:E1; [|done]. injection E as <- _.
      unfold p_not. by erewrite Hc.
Qed.

(** ** The text does not depend on the values *)

(** A value of the same kind, without its content: the empty string, zero and the empty
    dict keep their truth value. *)
Fixpoint erase_value (v : value) : value :=
  match v with
  | VStr s => VStr (if String.eqb s "" then "" else "x")
  | VInt z => VInt (if Z.eqb z 0 then 0 else 1)
  | VFloat _ => VFloat (FFin (if truthy v then 1 else 0) 0)
  | VDate _ => VDate (dt_utc 0)
  | VDateLit _ => VDateLit (dt_utc 0)
  | VList l => VList (List.map erase_value l)
  | VTuple l => VTuple (List.map erase_value l)
  | VDict d => VDict match d with [] => [] | _ => [("x", VNone)] end
  | VNone | VBool _ => v
  end.

(** The caller's names in a metadata path are content too. *)
Definition erase_path (path : list string) : list string :=
  match path with
  | root :: segs => if String.eqb root "metadata" then root :: List.map (fun _ => "x") segs else path
  | [] => []
  end.

Fixpoint erase (n : ast) : ast :=
  match n with
  | Clause path op v => Clause (erase_path path) op (erase_value v)
  | Node op cs => Node op (List.map erase cs)
  end.

Lemma erase_truthy v : truthy (erase_value v) = truthy v.
Proof.
  destruct v as [|b|z|f|s|d|d|l|l|d]; cbn; try done.
  - by destruct (Z.eqb_spec z 0) as [->|].
  - destruct f as [| |m e]; cbn; [done..|]. by destruct (Z.eqb_spec m 0) as [->|].
  - by destruct (String.eqb_spec s "") as [->|].
  - by destruct l.
  - by destruct l.
  - by destruct d.
Qed.

(** Two passes that build the same condition from as many binds. *)
Definition same_text {X} (m m' : B X) : Prop := forall s t, length s.1 = length t.1 ->
  match m s, m' t with
  | Ok (x, s'), Ok (y, t') => x = y /\ length s'.1 = length t'.1
  | Err _, Err _ => True
  | _, _ => False
  end.

Lemma same_text_ret {X} (x : X) : same_text (mret x) (mret x).
Proof. done. Qed.

Lemma same_text_raise {X} e e' : same_text (b_raise (A := X) e) (b_raise e').
Proof. done. Qed.

Lemma same_text_bind {X Y} (m m' : B X) (k k' : X -> B Y) :
  same_text m m' -> (forall x, same_text (k x) (k' x)) -> same_text (x ← m; k x) (x ← m'; k' x).
Proof.
  intros Hm Hk s t Hst. unfold mbind, B_bind. specialize (Hm s t Hst).
  destruct (m s) as [[x s']|], (m' t) as [[y t']|]; try done. destruct Hm as [-> Hl]. by apply Hk.
Qed.

Lemma same_text_put v v' : same_text (_bind v) (_bind v').
Proof. intros s t Hst. cbn. by rewrite !length_app, Hst. Qed.

Lemma same_text_lift {X} (a : result X) : same_text (b_lift a) (b_lift a).
Proof. intros s t Hst. by destruct a. Qed.

Lemma same_text_consumed p p' : same_text (consumed_add p) (consumed_add p').
Proof. by intros s t Hst. Qed.

Lemma same_text_seq {X} (ms ms' : list (B X)) : Forall2 same_text ms ms' -> same_text (b_seq ms) (b_seq ms').
Proof.
  induction 1; [done|]. cbn [b_seq]. apply same_text_bind; [done|]. intros a. by apply same_text_bind.
Qed.

Lemma same_text_node {A} mode consumable (compile_clause : list string -> Op -> value -> B (cond A)) (Q : ast -> Prop) n :
  (forall op cs, Q (Node op cs) -> Forall Q cs) ->
  (forall p o v, Q (Clause p o v) -> same_text (compile_clause p o v) (compile_clause (erase_path p) o (erase_value v))) ->
  (forall n, Q n -> consumable (erase n) = consumable n) -> Q n ->
  same_text (logical_node mode consumable compile_clause n) (logical_node mode consumable compile_clause (erase n)).
Proof.
  intros Hsub H Hc. induction n as [p o v|op cs IH] using ast_rec_ind; intros HQ; [by apply H|].
  assert (Hcs : Forall2 same_text (List.map (logical_node mode consumable compile_clause) cs)
                  (List.map (logical_node mode consumable compile_clause) (List.map erase cs))).
  { apply Hsub in HQ. clear -IH HQ. induction IH as [|c cs Hx _ IH]; [constructor|].
    apply Forall_cons in HQ as [HQ1 HQ2]. cbn. by constructor; [apply Hx|apply IH]. }
  assert (Hd : deferred mode consumable (Node op (List.map erase cs)) = deferred mode consumable (Node op cs)).
  { unfold deferred. by rewrite <- (Hc (Node op cs)). }
  cbn [erase logical_node]. rewrite Hd. repeat case_bool_decide.
  - destruct cs; [done|]. by apply same_text_bind; [apply same_text_seq|].
  - destruct cs; [done|]. case_match; [done|]. by apply same_text_bind; [apply same_text_seq|].
  - case_match; [done|]. destruct cs as [|c cs]; [done|]. cbn in Hcs. apply Forall2_cons_1 in Hcs as [Hfirst _].
    by apply same_text_bind.
Qed.
