(* ===== verification/FilterSqlite.v ===== *)
(** The SQLite compiler ([filter/compilers/lance.py]): a filter becomes a [WHERE] fragment
    with positional binds, for the chunks of the embedded store.

    [Lance.sql] is the text of a condition.  The JSON functions of SQLite read the text of
    the metadata column; how they find a node in it and how they print one is a
    parameter. *)
From Stdlib Require Import Ascii.
From stdpp Require Import pretty.
From S2P Require Import Prelude PyValue FilterModel FilterAst FilterPython FilterSplit FilterTarget.

Local Open Scope string_scope.
Local Open Scope list_scope.

(** ** The language *)

Inductive operator := OEq | ONe | OGt | OGe | OLt | OLe.

Definition operator_text (o : operator) : string :=
  match o with OEq => "=" | ONe => "<>" | OGt => ">" | OGe => ">=" | OLt => "<" | OLe => "<=" end.

(** [_RANGE_OP], with [$eq]. *)
Definition symbol_of (op : Op) : result operator :=
  match op with
  | EQ => Ok OEq | GT => Ok OGt | GTE => Ok OGe | LT => Ok OLt | LTE => Ok OLe
  | _ => Err KeyError
  end.

Module Lance.

Inductive term :=
| Column (name : string)
| Param (k : nat)
| Text (s : string)
| JsonType (a p : term)
| JsonExtract (a p : term)
| Json (a : term).

(** [HasElement a p v gate] is [EXISTS(SELECT 1 FROM json_each(a, p) je WHERE je.value = v
    AND je.type IN gate)]. *)
Inductive atom :=
| Compare (a : term) (o : operator) (b : term)
| Member (a : term) (l : list term)
| IsNull (a : term)
| IsNotNull (a : term)
| HasElement (a p v : term) (gate : list string).

Definition quote_text (s : string) : string := "'" +:+ s +:+ "'".

Fixpoint term_text (t : term) : string :=
  match t with
  | Column c => c
  | Param _ => "?"
  | Text s => quote_text s
  | JsonType a p => "json_type(" +:+ term_text a +:+ ", " +:+ term_text p +:+ ")"
  | JsonExtract a p => "json_extract(" +:+ term_text a +:+ ", " +:+ term_text p +:+ ")"
  | Json a => "json(" +:+ term_text a +:+ ")"
  end.

Definition list_text (l : list string) : string := "(" +:+ str_join ", " l +:+ ")".

Definition atom_text (a : atom) : string :=
  match a with
  | Compare a o b => term_text a +:+ " " +:+ operator_text o +:+ " " +:+ term_text b
  | Member a l => term_text a +:+ " IN " +:+ list_text (List.map term_text l)
  | IsNull a => term_text a +:+ " IS NULL"
  | IsNotNull a => term_text a +:+ " IS NOT NULL"
  | HasElement a p v gate =>
      "EXISTS(SELECT 1 FROM json_each(" +:+ term_text a +:+ ", " +:+ term_text p +:+
      ") je WHERE je.value = " +:+ term_text v +:+ " AND je.type IN " +:+
      list_text (List.map quote_text gate) +:+ ")"
  end.

Definition sql (c : cond atom) : string := render atom_text "1" "0" c.

(** ** The compiler *)

Section compiler.
Context (isoformat : datetime -> string).
(** The [repr] of a float and the string encoding of [json.dumps]. *)
Context (float_repr : pyfloat -> string) (esc : string -> string).
Context (ctx : TargetContext).

Definition qualifier : string := or_else (table_alias ctx) (backend_target ctx).

Definition _col (key : string) : string :=
  qualifier +:+ "." +:+ physical (base_context ctx) key.

(** [seg.replace("\\", "\\\\").replace('"', '\\"')] *)
Fixpoint escape_segment (s : string) : string :=
  match s with
  | EmptyString => ""
  | String a s' =>
      let n := nat_of_ascii a in
      if Nat.eqb n 92 || Nat.eqb n 34 then String (ascii_of_nat 92) (String a (escape_segment s'))
      else String a (escape_segment s')
  end.

Definition double_quote : string := String (ascii_of_nat 34) "".

Definition _jsonpath (segs : list string) : string :=
  "$." +:+ str_join "." (List.map (fun s => double_quote +:+ escape_segment s +:+ double_quote) segs).

Definition _has_unpushable_in_element (operand : value) : bool :=
  match operand with
  | VTuple l | VList l =>
      existsb (fun v => match v with VNone | VDict _ => true | _ => false end) l
  | _ => false
  end.

Definition _jsonable_scalar (v : value) : value :=
  match v with VDateLit d | VDate d => VStr (isoformat d) | _ => v end.

(** The same function in the source. *)
Definition _system_value (v : value) : value := _jsonable_scalar v.

Definition _operand_type_gate (operand : value) : list string * bool :=
  match operand with
  | VBool _ => (["true"; "false"], true)
  | VInt _ | VFloat _ => (["integer"; "real"], false)
  | _ => (["text"], false)
  end.

(** [json.dumps] with its default separators. *)
Fixpoint dumps (v : value) : string :=
  match v with
  | VBool b => if b then "true" else "false"
  | VInt z => pretty z
  | VFloat f => float_repr f
  | VStr s => esc s
  | VList l | VTuple l => "[" +:+ str_join ", " (List.map dumps l) +:+ "]"
  | VDict d => "{" +:+ str_join ", " (List.map (fun '(k, v) => esc k +:+ ": " +:+ dumps v) d) +:+ "}"
  | VNone | VDate _ | VDateLit _ => "null"
  end.

Definition unmatchable (op : Op) (operand : value) : bool :=
  match operand with VDateLit _ | VDict _ => true | _ => false end
  || op_in op [IN; NIN] && _has_unpushable_in_element operand.

(** A system key is pushed when the context declares it; a metadata path when SQLite has
    the JSON functions and can match the operand. *)
Definition _clause_unconsumable (path : list string) (op : Op) (operand : value) : bool :=
  let metadata := negb (sqlite_json1 ctx) || Nat.eqb (length path) 1 || unmatchable op operand in
  match path with
  | [key] =>
      if mem_str key SYSTEM_KEYS then negb (system_key_declared (base_context ctx) key)
      else negb (metadata_leaf path) || metadata
  | _ => negb (metadata_leaf path) || metadata
  end.

Definition _clause_consumable (n : ast) : bool :=
  match n with Clause path op operand => negb (_clause_unconsumable path op operand) | Node _ _ => false end.

(** *** System keys *)

Definition bind_all (values : list value) : B (list nat) :=
  b_seq (List.map (fun v => _bind (_system_value v)) values).

Definition _compile_system_clause (key : string) (op : Op) (operand : value) : B (cond atom) :=
  let col := Column (_col key) in
  if bool_decide (op = EXISTS) then mret (Const (truthy operand))
  else if op_in op [IN; NIN] then
    if negb (truthy operand) then mret (Const (bool_decide (op = NIN)))
    else
      values ← b_lift (py_iter operand);
      ks ← bind_all values;
      let member := Atom (Member col (List.map Param ks)) in
      mret (if bool_decide (op = IN) then Coalesce member
            else Paren (Or [Atom (IsNull col); Not member]))
  else
    match op, operand with
    | EQ, VTuple _ => mret (Const false)
    | NE, VTuple _ => mret (Const true)
    | NE, VNone => mret (Paren (Atom (IsNotNull col)))
    | _, VNone => mret (Paren (Atom (IsNull col)))
    | _, _ =>
        k ← _bind (_system_value operand);
        if bool_decide (op = NE)
        then mret (Paren (Or [Atom (IsNull col); Atom (Compare col ONe (Param k))]))
        else o ← b_lift (symbol_of op); mret (Coalesce (Atom (Compare col o (Param k))))
    end.

(** *** Metadata *)

Definition json_col : term := Column (_col "metadata").

Definition _jpath_bind (segs : list string) : B term :=
  k ← _bind (VStr (_jsonpath segs)); mret (Param k).

Definition _md_contains (segs : list string) (v : value) : B (cond atom) :=
  let '(gate, is_bool) := _operand_type_gate v in
  let bound := if is_bool then VInt (if truthy v then 1 else 0)%Z else _jsonable_scalar v in
  p ← _jpath_bind segs;
  k ← _bind bound;
  mret (Coalesce (Paren (Atom (HasElement json_col p (Param k) gate)))).

Definition _md_exact_array (segs : list string) (operand : list value) : B (cond atom) :=
  p ← _jpath_bind segs;
  p' ← _jpath_bind segs;
  k ← _bind (VStr (dumps (VList (List.map _jsonable_scalar operand))));
  mret (Coalesce (Paren (Case (Atom (Compare (JsonType json_col p) OEq (Text "array")))
    (Atom (Compare (Json (JsonExtract json_col p')) OEq (Json (Param k))))))).

Definition _md_range (segs : list string) (op : Op) (operand : value) : B (cond atom) :=
  o ← b_lift (symbol_of op);
  p ← _jpath_bind segs;
  p' ← _jpath_bind segs;
  k ← _bind (_jsonable_scalar operand);
  mret (Coalesce (Paren (And
    [Atom (Member (JsonType json_col p) (List.map Text (_operand_type_gate operand).1));
     Atom (Compare (JsonExtract json_col p') o (Param k))]))).

Definition _md_null (segs : list string) : B (cond atom) :=
  p ← _jpath_bind segs;
  p' ← _jpath_bind segs;
  mret (Paren (Or [Atom (IsNull (JsonType json_col p));
                   Atom (Compare (JsonType json_col p') OEq (Text "null"))])).

Definition negated (c : cond atom) : cond atom := Paren (Not c).

(** The clause on [metadata.<segs>]; [None] is a clause SQLite cannot match. *)
Definition metadata_path_clause (segs : list string) (op : Op) (operand : value) : B (option (cond atom)) :=
  if bool_decide (op = EXISTS) then
    p ← _jpath_bind segs;
    let present := Atom (IsNotNull (JsonType json_col p)) in
    mret (Some (Paren (if truthy operand then present else Not (Paren present))))
  else if op_in op [IN; NIN] then
    if negb (truthy operand) then mret (Some (Const (bool_decide (op = NIN))))
    else if _has_unpushable_in_element operand then mret None
    else
      values ← b_lift (py_iter operand);
      chain ← b_seq (List.map (_md_contains segs) values);
      mret (Some (if bool_decide (op = IN) then Paren (Or chain) else negated (Paren (Or chain))))
  else if bool_decide (op = EQ) || bool_decide (op = NE) then
    let sign := fun c => Some (if bool_decide (op = EQ) then c else negated c) in
    match operand with
    | VNone => c ← _md_null segs; mret (sign c)
    | VDateLit _ | VDict _ => mret None
    | VTuple l => c ← _md_exact_array segs l; mret (sign c)
    | _ => c ← _md_contains segs operand; mret (sign c)
    end
  else
    match operand with
    | VDateLit _ => mret None
    | _ => c ← _md_range segs op operand; mret (Some c)
    end.

Definition _compile_metadata_clause (path : list string) (op : Op) (operand : value)
  : B (option (cond atom)) :=
  match path with [_] => mret None | _ => metadata_path_clause (tail path) op operand end.

(** *** Clauses and nodes *)

Definition _unsupported : list string -> string -> B (cond atom) :=
  unsupported (on_unsupported (base_context ctx)).

Definition metadata_clause (path : list string) (op : Op) (operand : value) : B (cond atom) :=
  if negb (sqlite_json1 ctx) then _unsupported path "SQLite JSON1 functions are unavailable"
  else
    compiled ← _compile_metadata_clause path op operand;
    match compiled with
    | None => _unsupported path "metadata predicate is not pushed down to SQLite"
    | Some c => _ ← consumed_add path; mret c
    end.

Definition compile_clause (path : list string) (op : Op) (operand : value) : B (cond atom) :=
  let unknown := _unsupported path "path is neither a system key nor a metadata path" in
  match path with
  | [key] =>
      if mem_str key SYSTEM_KEYS then
        if negb (system_key_declared (base_context ctx) key)
        then _unsupported path "the backend does not declare a column for this system key"
        else c ← _compile_system_clause key op operand; _ ← consumed_add path; mret c
      else if metadata_leaf path then metadata_clause path op operand else unknown
  | _ => if metadata_leaf path then metadata_clause path op operand else unknown
  end.

(** The memo of [node_consumable] is transparent ([FilterSplitFacts.memo_transparent]). *)
Definition compile_node : ast -> B (cond atom) :=
  logical_node (on_unsupported (base_context ctx)) (consumable _clause_consumable) compile_clause.

(** [compile_lance]: the condition with its binds, the consumed paths and the hash of the
    consumed slice. *)
Context (ident : ast -> Z) (hash : ast -> string).

Definition compile_lance (n : ast) : result (CompiledFilter (cond atom * list value)) :=
  match compile_node n ([], ∅) with
  | Err e => Err e
  | Ok (c, (args, consumed)) =>
      let '(deferred, slice_hash) :=
        split_report _clause_consumable ident hash n (on_unsupported (base_context ctx)) ∅ in
      Ok (MkCompiled (c, args) (consumed ∖ deferred) slice_hash)
  end.
End compiler.

(** ** Execution *)

(** A value of SQLite: an INTEGER and a REAL compare by value. *)
Inductive cell := CNull | CNum (f : pyfloat) | CText (s : string).

(** The order of values; nothing compares with NULL, and a number is below a text. *)
Definition cell_compare (a b : cell) : option comparison :=
  match a, b with
  | CNum x, CNum y => num_compare x y
  | CNum _, CText _ => Some Datatypes.Lt
  | CText _, CNum _ => Some Datatypes.Gt
  | CText s, CText t => Some (String.compare s t)
  | CNull, _ | _, CNull => None
  end.

Definition holds_for (o : operator) (c : comparison) : bool :=
  match o, c with
  | OEq, Datatypes.Eq | OGe, Datatypes.Eq | OLe, Datatypes.Eq
  | ONe, Datatypes.Lt | ONe, Datatypes.Gt
  | OGt, Datatypes.Gt | OGe, Datatypes.Gt
  | OLt, Datatypes.Lt | OLe, Datatypes.Lt => true
  | _, _ => false
  end.

Definition compare3 (o : operator) (a b : cell) : option bool := holds_for o <$> cell_compare a b.

(** How SQLite reads a JSON text: the node at a path ([None] when there is none), the text
    of an array or an object, the minified form of a text, and the REAL an integer beyond
    64 bits is read as. *)
Class Json1 := {
  json_at : string -> string -> option value;
  compound_text : value -> string;
  json_minify : string -> string;
  real_of : Z -> pyfloat }.

Definition int64 (z : Z) : bool := (- 2 ^ 63 <=? z)%Z && (z <? 2 ^ 63)%Z.

(** The driver's binding of a value: what it refuses is [None].  A NaN is bound as NULL. *)
Definition cell_of_bind (v : value) : option cell :=
  match v with
  | VNone | VFloat FNaN => Some CNull
  | VBool b => Some (CNum (FFin (Z.b2z b) 0))
  | VInt z => if int64 z then Some (CNum (FFin z 0)) else None
  | VFloat f => Some (CNum f)
  | VStr s => Some (CText s)
  | _ => None
  end.

Section execution.
Context {J : Json1} (row : string -> cell) (args : list cell).

(** JSON has no dates and no tuples. *)
Definition json_type_name (v : value) : string :=
  match v with
  | VBool b => if b then "true" else "false"
  | VInt _ => "integer" | VFloat _ => "real" | VStr _ => "text"
  | VList _ => "array" | VDict _ => "object"
  | VNone => "null"
  | VTuple _ | VDate _ | VDateLit _ => ""
  end.

(** A node as a value of SQLite. *)
Definition node_cell (v : value) : cell :=
  match v with
  | VBool b => CNum (FFin (Z.b2z b) 0)
  | VInt z => CNum (if int64 z then FFin z 0 else real_of z)
  | VFloat f => CNum f
  | VStr s => CText s
  | VList _ | VDict _ => CText (compound_text v)
  | VNone | VTuple _ | VDate _ | VDateLit _ => CNull
  end.

Definition node_at (a p : cell) : option value :=
  match a, p with CText t, CText path => json_at t path | _, _ => None end.

(** The rows of [json_each]: the members of an array or an object, or the node itself. *)
Definition json_each (a p : cell) : list value :=
  match node_at a p with
  | None => []
  | Some (VList l) => l
  | Some (VDict d) => snd <$> d
  | Some v => [v]
  end.

Fixpoint term_cell (t : term) : cell :=
  match t with
  | Column c => row c
  | Param k => default CNull (args !! k)
  | Text s => CText s
  | JsonType a p =>
      match node_at (term_cell a) (term_cell p) with Some v => CText (json_type_name v) | None => CNull end
  | JsonExtract a p =>
      match node_at (term_cell a) (term_cell p) with Some v => node_cell v | None => CNull end
  | Json a => match term_cell a with CText s => CText (json_minify s) | c => c end
  end.

Definition is_null (c : cell) : bool := match c with CNull => true | _ => false end.

Definition eval_atom (a : atom) : option bool :=
  match a with
  | Compare a o b => compare3 o (term_cell a) (term_cell b)
  | Member a l => k_or (List.map (fun b => compare3 OEq (term_cell a) (term_cell b)) l)
  | IsNull a => Some (is_null (term_cell a))
  | IsNotNull a => Some (negb (is_null (term_cell a)))
  | HasElement a p v gate =>
      Some (existsb (fun e => is_true (compare3 OEq (node_cell e) (term_cell v)) && mem_str (json_type_name e) gate)
              (json_each (term_cell a) (term_cell p)))
  end.

Definition where_ (c : cond atom) : option bool := eval eval_atom c.
End execution.

(** The rows a statement keeps: the driver binds the values, or refuses the statement. *)
Definition bind_cells (args : list value) : option (list cell) := mapM cell_of_bind args.

Definition keeps {J : Json1} (compiled : cond atom * list value) (row : string -> cell) : result bool :=
  match bind_cells compiled.2 with
  | None => Err (OtherError "InterfaceError")
  | Some cells => Ok (is_true (where_ row cells compiled.1))
  end.
End Lance.

(** ** The chunk store ([storage/temporal/sqlite_lance.py]) *)

Module LanceStore.
Section store.
Context (fromisoformat : string -> option datetime) (isoformat : datetime -> string).
Context (float_repr : pyfloat -> string) (esc : string -> string) (ident : ast -> Z) (hash : ast -> string).

(** How a datetime is written to its column. *)
Definition _dt_to_iso (dt : option datetime) : result (option string) :=
  match dt with
  | None => Ok None
  | Some d => match to_utc d with Ok u => Ok (Some (isoformat u)) | Err e => Err e end
  end.

Definition _filter_compile_ctx (has_json1 : bool) (alias : option string) : TargetContext :=
  MkTargetContext "khora_chunks" alias "f" has_json1 (MkContext None Split).

(** [filter_ast is None or not filter_ast.children] *)
Definition nothing_to_push (filter_ast : option ast) : bool :=
  match filter_ast with None | Some (Node _ []) => true | _ => false end.

(** The fragment and its binds; [None] is the empty fragment. *)
Definition _build_ast_clause (has_json1 : bool) (filter_ast : option ast) (alias : option string)
  : result (option (cond Lance.atom * list value)) :=
  match filter_ast with
  | Some n =>
      if nothing_to_push filter_ast then Ok None
      else match Lance.compile_lance isoformat float_repr esc (_filter_compile_ctx has_json1 alias) ident hash n with
           | Ok compiled => Ok (Some (predicate compiled))
           | Err e => Err e
           end
  | None => Ok None
  end.

Definition _ast_post_filter (filter_ast : option ast) : result pred :=
  match filter_ast with
  | Some n =>
      if nothing_to_push filter_ast then Ok (const_pred true)
      else match compile_python fromisoformat isoformat hash (MkContext None Split) n with
           | Ok compiled => Ok (predicate compiled)
           | Err e => Err e
           end
  | None => Ok (const_pred true)
  end.
End store.
End LanceStore.
