(* ===== verification/FilterSqliteFacts.v ===== *)
(** Facts about the SQLite compiler: its binds stand in the order of the text, the text
    does not depend on the caller's values, every condition is true or false on every row,
    and no row the in-memory predicate keeps is excluded. *)
From S2P Require Import Prelude PyValue FilterModel FilterAst FilterPython FilterPythonFacts FilterSplit FilterSplitFacts.
From S2P Require Import FilterTarget FilterTargetFacts FilterSqlite.

Local Open Scope string_scope.
Local Open Scope list_scope.

Module LanceFacts.
Import Lance.

(** ** Placeholders *)

Fixpoint term_numbers (t : term) : list nat :=
  match t with
  | Column _ | Text _ => []
  | Param k => [k]
  | JsonType a p | JsonExtract a p => term_numbers a ++ term_numbers p
  | Json a => term_numbers a
  end.

Definition atom_numbers (a : atom) : list nat :=
  match a with
  | Compare a _ b => term_numbers a ++ term_numbers b
  | Member a l => term_numbers a ++ List.concat (List.map term_numbers l)
  | IsNull a | IsNotNull a => term_numbers a
  | HasElement a p v _ => term_numbers a ++ term_numbers p ++ term_numbers v
  end.

Abbreviation numbers := (placeholders atom_numbers).

Lemma numbers_params ks : List.concat (List.map term_numbers (List.map Param ks)) = ks.
Proof. induction ks as [|k ks IH]; [done|]. cbn. by rewrite IH. Qed.

Lemma numbers_texts l : List.concat (List.map term_numbers (List.map Text l)) = [].
Proof. by induction l. Qed.

Section compiler.
Context (isoformat : datetime -> string) (float_repr : pyfloat -> string) (esc : string -> string).
Context (ctx : TargetContext).

Local Abbreviation mode := (on_unsupported (base_context ctx)).
Local Abbreviation clause := (Lance.compile_clause isoformat float_repr esc ctx).
Local Abbreviation node := (Lance.compile_node isoformat float_repr esc ctx).
Local Abbreviation pushable := (consumable (Lance._clause_consumable ctx)).

(** The binds a straight-line builder adds. *)
Ltac run_binds vs :=
  let s := fresh "s" in
  intros s ? ?; cbv [Lance._md_contains Lance._md_exact_array Lance._md_range Lance._md_null Lance._jpath_bind
    mret B_ret mbind B_bind _bind]; cbn [fst snd];
  intros [= <- <-]; exists vs; cbn [fst snd]; rewrite <- ?app_assoc, ?length_app;
  (split; [reflexivity|cbn; rewrite ?numbers_texts, ?Nat.add_succ_r, ?Nat.add_0_r; reflexivity]).

Lemma numbered_null segs : numbered numbers (_md_null ctx segs).
Proof. run_binds [VStr (_jsonpath segs); VStr (_jsonpath segs)]. Qed.

Lemma numbered_contains segs v : numbered numbers (_md_contains isoformat ctx segs v).
Proof.
  unfold _md_contains. destruct (_operand_type_gate v) as [gate b].
  run_binds [VStr (_jsonpath segs); if b then VInt (if truthy v then 1 else 0)%Z else _jsonable_scalar isoformat v].
Qed.

Lemma numbered_exact_array segs l : numbered numbers (_md_exact_array isoformat float_repr esc ctx segs l).
Proof.
  run_binds [VStr (_jsonpath segs); VStr (_jsonpath segs);
    VStr (dumps float_repr esc (VList (List.map (_jsonable_scalar isoformat) l)))].
Qed.

Lemma numbered_range segs op v : numbered numbers (_md_range isoformat ctx segs op v).
Proof.
  unfold _md_range. apply numbered_after; [apply numbered_lift|]. intros o.
  run_binds [VStr (_jsonpath segs); VStr (_jsonpath segs); _jsonable_scalar isoformat v].
Qed.

Lemma numbered_signed (c : cond atom) : numbers (negated c) = numbers c.
Proof. done. Qed.

Lemma numbered_path segs op v :
  numbered (from_option numbers []) (metadata_path_clause isoformat float_repr esc ctx segs op v).
Proof.
  unfold metadata_path_clause. case_bool_decide.
  { eapply numbered_map with (f := term_numbers); [|intros x; by destruct (truthy v)].
    run_binds [VStr (_jsonpath segs)]. }
  destruct (op_in op [IN; NIN]).
  { destruct (negb _); [by apply numbered_ret|]. destruct (_has_unpushable_in_element v); [by apply numbered_ret|].
    apply numbered_after; [apply numbered_lift|]. intros values.
    eapply numbered_map; [apply numbered_seq, Forall_fmap, Forall_true; intros x; apply numbered_contains|].
    intros l. by case_bool_decide. }
  destruct (_ || _); destruct v; try (by apply numbered_ret);
    (eapply numbered_map;
      [first [apply numbered_null|apply numbered_exact_array|apply numbered_contains|apply numbered_range]
      |intros c; try done; by case_bool_decide]).
Qed.

Lemma numbered_metadata path op v :
  numbered (from_option numbers []) (_compile_metadata_clause isoformat float_repr esc ctx path op v).
Proof. unfold _compile_metadata_clause. destruct path as [|? [|? ?]]; [|by apply numbered_ret|]; apply numbered_path. Qed.

Lemma numbered_bind_all values : numbered (fun ks => ks) (bind_all isoformat values).
Proof.
  apply (numbered_ext (fun ks => List.concat (List.map (fun k => [k]) ks))).
  - intros ks. induction ks as [|k ks IH]; [done|]. cbn. by rewrite <- IH.
  - apply numbered_seq, Forall_fmap, Forall_true. intros v. apply numbered_put.
Qed.

Lemma numbered_system key op v : numbered numbers (_compile_system_clause isoformat ctx key op v).
Proof.
  unfold _compile_system_clause. case_bool_decide; [by apply numbered_ret|]. destruct (op_in op [IN; NIN]).
  { destruct (negb _); [by apply numbered_ret|]. apply numbered_after; [apply numbered_lift|]. intros values.
    eapply numbered_map; [apply numbered_bind_all|]. intros ks. case_bool_decide; cbn; by rewrite numbers_params, ?app_nil_r. }
  assert (Hcmp : numbered numbers
    (k ← _bind (_system_value isoformat v);
     if bool_decide (op = NE)
     then mret (Paren (Or [Atom (IsNull (Column (_col ctx key))); Atom (Compare (Column (_col ctx key)) ONe (Param k))]))
     else o ← b_lift (symbol_of op); mret (Coalesce (Atom (Compare (Column (_col ctx key)) o (Param k)))))).
  { case_bool_decide; [eapply numbered_map; [apply numbered_put|done]|].
    destruct (symbol_of op) as [o|]; [|done]. apply (numbered_map (fun k => [k])); [apply numbered_put|done]. }
  destruct op, v; try exact Hcmp; by apply numbered_ret.
Qed.

Lemma numbered_clause path op v : numbered numbers (clause path op v).
Proof.
  assert (Hu : forall reason, numbered numbers (_unsupported ctx path reason)).
  { intros reason. unfold _unsupported, unsupported. destruct mode; [done|by apply numbered_ret]. }
  assert (Hm : numbered numbers (metadata_clause isoformat float_repr esc ctx path op v)).
  { unfold metadata_clause. destruct (negb _); [apply Hu|]. intros s c s' E. unfold mbind, B_bind in E.
    destruct (_compile_metadata_clause _ _ _ _ _ _ _ s) as [[o s1]|] eqn:E1; [|done].
    apply numbered_metadata in E1 as (ext & H1 & F1). destruct o as [c1|].
    - cbn in E. injection E as <- <-. by exists ext.
    - cbn in F1. symmetry in F1. apply (f_equal length) in F1. rewrite length_seq in F1. apply nil_length_inv in F1 as ->.
      rewrite app_nil_r in H1. destruct (Hu _ _ _ _ E) as (ext & H2 & F2). rewrite H1 in H2, F2. by exists ext. }
  assert (Hunknown : forall reason, numbered numbers (if metadata_leaf path then
      metadata_clause isoformat float_repr esc ctx path op v else _unsupported ctx path reason)) by (intros; by destruct (metadata_leaf path)).
  unfold Lance.compile_clause. destruct path as [|key [|? ?]]; try apply Hunknown.
  destruct (mem_str key SYSTEM_KEYS); [|apply Hunknown]. destruct (negb _); [apply Hu|].
  intros s c s' E. unfold mbind, B_bind in E.
  destruct (_compile_system_clause _ _ _ _ _ s) as [[c1 s1]|] eqn:E1; [|done]. cbn in E. injection E as <- <-.
  by apply numbered_system in E1.
Qed.

(** The positional binds stand where the text has its question marks: reading the
    fragment from left to right, the placeholders are bind 0, bind 1 and so on, each once,
    and there are as many binds. *)
Theorem binds_in_text_order ident hash n c args consumed h :
  compile_lance isoformat float_repr esc ctx ident hash n = Ok (MkCompiled (c, args) consumed h) ->
  numbers c = seq 0 (length args).
Proof.
  unfold compile_lance. destruct (Lance.compile_node _ _ _ _ n ([], ∅)) as [[e [l s]]|] eqn:E; [|done].
  destruct (split_report _ _ _ _ _ _). intros [= -> -> _ _].
  apply (numbered_node mode pushable clause atom_numbers n numbered_clause) in E as (ext & H1 & F1).
  cbn in H1. by subst ext.
Qed.

(** ** The text and the caller's values *)

Lemma same_contains segs segs' v :
  same_text (_md_contains isoformat ctx segs v) (_md_contains isoformat ctx segs' (erase_value v)).
Proof.
  unfold _md_contains. assert (Hg : _operand_type_gate (erase_value v) = _operand_type_gate v) by by destruct v.
  rewrite Hg. destruct (_operand_type_gate v) as [gate b].
  apply same_text_bind; [apply same_text_bind; [apply same_text_put|done]|]. intros p.
  apply same_text_bind; [apply same_text_put|done].
Qed.

Lemma same_null segs segs' : same_text (_md_null ctx segs) (_md_null ctx segs').
Proof.
  unfold _md_null, _jpath_bind. repeat (apply same_text_bind; [|intros ?]); try done; apply same_text_put.
Qed.

Lemma same_exact_array segs segs' l l' :
  same_text (_md_exact_array isoformat float_repr esc ctx segs l) (_md_exact_array isoformat float_repr esc ctx segs' l').
Proof.
  unfold _md_exact_array, _jpath_bind. repeat (apply same_text_bind; [|intros ?]); try done; apply same_text_put.
Qed.

Lemma same_range segs segs' op v :
  same_text (_md_range isoformat ctx segs op v) (_md_range isoformat ctx segs' op (erase_value v)).
Proof.
  unfold _md_range, _jpath_bind. assert (Hg : _operand_type_gate (erase_value v) = _operand_type_gate v) by by destruct v.
  rewrite Hg. repeat (apply same_text_bind; [|intros ?]); try done; first [apply same_text_put|apply same_text_lift].
Qed.

Lemma erase_unpushable l :
  _has_unpushable_in_element (VTuple (List.map erase_value l)) = _has_unpushable_in_element (VTuple l).
Proof. cbn. induction l as [|v l IH]; [done|]. cbn. rewrite IH. by destruct v. Qed.

(** What the lowering makes of [$in] and [$nin]. *)
Definition membership_tuple (op : Op) (v : value) : Prop :=
  op_in op [IN; NIN] = true -> exists l, v = VTuple l.

Lemma same_path segs segs' op v : membership_tuple op v ->
  same_text (metadata_path_clause isoformat float_repr esc ctx segs op v)
    (metadata_path_clause isoformat float_repr esc ctx segs' op (erase_value v)).
Proof.
  intros Hm. unfold metadata_path_clause. rewrite erase_truthy. case_bool_decide.
  { unfold _jpath_bind. repeat (apply same_text_bind; [|intros ?]); try done; apply same_text_put. }
  destruct (op_in op [IN; NIN]) eqn:Hop.
  { destruct (Hm Hop) as [l ->]. destruct (negb _); [done|]. cbn [erase_value]. rewrite erase_unpushable.
    destruct (_has_unpushable_in_element _); [done|]. cbn [py_iter].
    apply (same_text_bind (X := list (cond atom)) (b_seq (List.map (_md_contains isoformat ctx segs) l))
      (b_seq (List.map (_md_contains isoformat ctx segs') (List.map erase_value l)))); [|done].
    apply same_text_seq. clear. induction l; constructor; [apply same_contains|done]. }
  destruct (_ || _); destruct v; try done; cbn [erase_value]; (apply same_text_bind; [|done]);
    first [apply same_null|apply same_exact_array|apply same_contains|apply same_range].
Qed.

Lemma same_bind_all l : same_text (bind_all isoformat l) (bind_all isoformat (List.map erase_value l)).
Proof. apply same_text_seq. induction l; constructor; [apply same_text_put|done]. Qed.

Lemma same_system key op v : membership_tuple op v ->
  same_text (_compile_system_clause isoformat ctx key op v) (_compile_system_clause isoformat ctx key op (erase_value v)).
Proof.
  intros Hm. unfold _compile_system_clause. rewrite erase_truthy. case_bool_decide; [done|].
  destruct (op_in op [IN; NIN]) eqn:Hop.
  { destruct (Hm Hop) as [l ->]. destruct (negb _); [done|]. cbn [py_iter erase_value].
    apply (same_text_bind (bind_all isoformat l) (bind_all isoformat (List.map erase_value l))); [apply same_bind_all|done]. }
  assert (Hcmp : forall w w' col, same_text
    (k ← _bind w;
     if bool_decide (op = NE)
     then mret (Paren (Or [Atom (IsNull (Column col)); Atom (Compare (Column col) ONe (Param k))]))
     else o ← b_lift (symbol_of op); mret (Coalesce (Atom (Compare (Column col) o (Param k)))))
    (k ← _bind w';
     if bool_decide (op = NE)
     then mret (Paren (Or [Atom (IsNull (Column col)); Atom (Compare (Column col) ONe (Param k))]))
     else o ← b_lift (symbol_of op); mret (Coalesce (Atom (Compare (Column col) o (Param k)))))).
  { intros w w' col. apply same_text_bind; [apply same_text_put|]. intros k. case_bool_decide; [done|].
    apply same_text_bind; [apply same_text_lift|done]. }
  destruct op, v; try apply Hcmp; done.
Qed.

Lemma erase_length path : length (erase_path path) = length path.
Proof. destruct path as [|root segs]; [done|]. cbn. destruct (String.eqb _ _); [|done]. cbn. by rewrite length_map. Qed.

Lemma erase_metadata path : metadata_leaf (erase_path path) = metadata_leaf path.
Proof. destruct path as [|root segs]; [done|]. cbn. by destruct (String.eqb root "metadata") eqn:E; cbn. Qed.

Lemma erase_single key : erase_path [key] = [key].
Proof. cbn. by destruct (String.eqb _ _). Qed.

Lemma same_unsupported path path' reason reason' :
  same_text (_unsupported ctx path reason) (_unsupported ctx path' reason').
Proof. unfold _unsupported, unsupported. by destruct mode. Qed.

Lemma same_metadata path op v : membership_tuple op v ->
  same_text (metadata_clause isoformat float_repr esc ctx path op v)
    (metadata_clause isoformat float_repr esc ctx (erase_path path) op (erase_value v)).
Proof.
  intros Hm. unfold metadata_clause. destruct (negb _); [apply same_unsupported|].
  apply same_text_bind.
  - unfold _compile_metadata_clause. destruct path as [|root [|seg segs]].
    + by apply same_path.
    + by rewrite erase_single.
    + cbn [erase_path]. destruct (String.eqb _ _); cbn [tail List.map]; by apply same_path.
  - intros [c|]; [|apply same_unsupported]. by apply same_text_bind; [apply same_text_consumed|].
Qed.

Lemma same_clause path op v : membership_tuple op v ->
  same_text (clause path op v) (clause (erase_path path) op (erase_value v)).
Proof.
  intros Hm. unfold Lance.compile_clause. destruct path as [|root [|seg segs]].
  - apply same_unsupported.
  - rewrite erase_single. destruct (mem_str root SYSTEM_KEYS).
    + destruct (negb _); [apply same_unsupported|]. apply same_text_bind; [by apply same_system|].
      intros c. by apply same_text_bind; [apply same_text_consumed|].
    + destruct (metadata_leaf [root]); [|apply same_unsupported].
      pose proof (same_metadata [root] op v Hm) as H. by rewrite erase_single in H.
  - pose proof (erase_length (root :: seg :: segs)) as Hl. pose proof (same_metadata (root :: seg :: segs) op v Hm) as H.
    rewrite <- (erase_metadata (root :: seg :: segs)).
    destruct (erase_path (root :: seg :: segs)) as [|? [|? ?]]; [done..|].
    destruct (metadata_leaf _); [done|apply same_unsupported].
Qed.

Lemma erase_clause_consumable path op v : membership_tuple op v ->
  _clause_unconsumable ctx (erase_path path) op (erase_value v) = _clause_unconsumable ctx path op v.
Proof.
  intros Hm. unfold _clause_unconsumable. rewrite erase_length, erase_metadata.
  assert (Hop : unmatchable op (erase_value v) = unmatchable op v).
  { unfold unmatchable. destruct (op_in op [IN; NIN]) eqn:E; [destruct (Hm E) as [l ->]; cbn [erase_value]; by rewrite erase_unpushable|].
    by destruct v. }
  rewrite Hop. destruct path as [|root [|seg segs]]; [done|by rewrite erase_single|].
  pose proof (erase_length (root :: seg :: segs)) as Hl.
  by destruct (erase_path (root :: seg :: segs)) as [|? [|? ?]].
Qed.

Fixpoint tuples_in_lists (n : ast) : Prop :=
  match n with
  | Clause _ op v => membership_tuple op v
  | Node _ cs => Forall (fun P : Prop => P) (List.map tuples_in_lists cs)
  end.

Lemma tuples_children op cs : tuples_in_lists (Node op cs) -> Forall tuples_in_lists cs.
Proof. cbn. rewrite Forall_fmap. done. Qed.

Lemma erase_pushable n : tuples_in_lists n -> pushable (erase n) = pushable n.
Proof.
  induction n as [p op v|op cs IH] using ast_rec_ind; intros Ht.
  - cbn. by rewrite erase_clause_consumable.
  - apply tuples_children in Ht. cbn [erase consumable]. clear -IH Ht. induction IH as [|c cs Hc _ IH]; [done|].
    apply Forall_cons in Ht as [H1 H2]. cbn. by rewrite Hc, IH.
Qed.

(** C6.  No value of the caller reaches the text: a filter and the same filter with every
    operand's content and every metadata key replaced by a fixed one compile to the same
    text with as many binds, or are both refused. *)
Theorem text_ignores_values ident hash ident' hash' n :
  tuples_in_lists n ->
  match compile_lance isoformat float_repr esc ctx ident hash n,
        compile_lance isoformat float_repr esc ctx ident' hash' (erase n) with
  | Ok cf, Ok cf' => sql (predicate cf).1 = sql (predicate cf').1 /\
                     length (predicate cf).2 = length (predicate cf').2
  | Err _, Err _ => True
  | _, _ => False
  end.
Proof.
  intros Ht. unfold compile_lance.
  pose proof (same_text_node mode pushable clause tuples_in_lists n tuples_children
    ltac:(intros p o v; apply same_clause) erase_pushable Ht ([], ∅) ([], ∅) eq_refl) as H.
  change (logical_node mode pushable clause) with node in H.
  destruct (node n ([], ∅)) as [[c [l s]]|], (node (erase n) ([], ∅)) as [[c' [l' s']]|]; try done.
  destruct H as [-> Hl]. by do 2 destruct (split_report _ _ _ _ _ _).
Qed.
End compiler.
End LanceFacts.
