(* ===== verification/FilterSqliteExact.v ===== *)
(** What the statement of the SQLite compiler keeps, against the in-memory predicate: for
    rows that store the records and filters the validator and the lowering produce, a leaf
    decides what the predicate decides unless it is deferred, so that the statement keeps
    every row of the filter's answer and re-checking its rows gives that answer. *)
From S2P Require Import Prelude PyValue FilterModel FilterAst FilterPython FilterPythonFacts FilterSplit FilterSplitFacts.
From S2P Require Import FilterTarget FilterTargetFacts FilterSqlite FilterSqliteFacts.
From Stdlib Require Import Ascii.

Local Open Scope string_scope.
Local Open Scope list_scope.

Module LanceExact.
Import Lance LanceFacts.

(** ** Rows that store records *)

(** The keys the validator normalises to UTC datetimes; the others are strings. *)
Definition date_keys : list string := ["occurred_at"; "created_at"; "source_timestamp"].

Definition utc_in_range (d : datetime) : bool :=
  bool_decide (dt_offset d = Some 0%Z) && (dt_min <=? dt_local d)%Z && (dt_local d <=? dt_max)%Z.

Definition typed (key : string) (v : value) : bool :=
  match v with
  | VStr _ => negb (mem_str key date_keys)
  | VDate d => mem_str key date_keys && utc_in_range d
  | _ => false
  end.

(** A path segment SQLite's path syntax reads as it is. *)
Definition plain_char (a : ascii) : bool :=
  let n := nat_of_ascii a in negb (Nat.eqb n 34 || Nat.eqb n 92).
Definition plain_segment (s : string) : bool := forallb plain_char (String.list_ascii_of_string s).

(** A stored JSON value the driver and SQLite read as Python does. *)
Definition plain_item (v : value) : bool :=
  match v with
  | VInt z => int64 z
  | VFloat (FFin _ _) | VNone | VBool _ | VStr _ | VList _ | VDict _ => true
  | _ => false
  end.

Definition plain_scalar (v : value) : bool :=
  match v with VNone | VBool _ | VInt _ | VStr _ => true | _ => false end.

Section rows.
Context (fromisoformat : string -> option datetime) (isoformat : datetime -> string).
Context (float_repr : pyfloat -> string) (esc : string -> string) (ctx : TargetContext) {J : Json1}.
(** The context of the re-check. *)
Context (post : CompileContext).

Definition stored_cell (v : value) : cell :=
  match v with VStr s => CText s | VDate d => CText (isoformat d) | _ => CNull end.

Record stores (row : string -> cell) (r : record) : Prop := {
  stored_system : forall key, mem_str key SYSTEM_KEYS = true ->
    system_key_declared (base_context ctx) key = true ->
    let w := _resolve_system post r key in
    is_none w || typed key w = true /\ row (_col ctx key) = stored_cell w;
  stored_metadata : exists t, row (_col ctx "metadata") = CText t /\
    forall segs, segs <> [] -> forallb plain_segment segs = true ->
    json_at t (_jsonpath segs) = _md_dig (_resolve_metadata r) segs }.

(** ** Leaves the comparison covers *)

Definition system_operand (key : string) (op : Op) (v : value) : Prop :=
  match op with
  | EXISTS => True
  | IN | NIN => exists l, v = VTuple l /\ forallb (typed key) l = true
  | EQ | NE => (exists l, v = VTuple l) \/ is_none v || typed key v = true
  | GT | GTE | LT | LTE => is_none v || typed key v = true
  | _ => False
  end.

(** A node [json_each] reads as the predicate does: the members of an object are not the
    elements of an array. *)
Definition containable (node : option value) : bool :=
  match node with
  | None => true
  | Some (VDict _) => false
  | Some (VList l) => forallb plain_item l
  | Some v => plain_item v
  end.

(** The [json] text of a stored array is that of the operand only when they are equal. *)
Definition comparable_array (node : option value) (l : list value) : Prop :=
  match node with
  | Some (VList items) =>
      let operand := List.map (_jsonable_scalar isoformat) l in
      forallb plain_scalar items = true /\ forallb plain_scalar operand = true /\
      (json_minify (compound_text (VList items)) = json_minify (dumps float_repr esc (VList operand)) <->
       items = operand)
  | _ => True
  end.

Definition metadata_operand (r : record) (segs : list string) (op : Op) (v : value) : Prop :=
  let node := _md_extract r segs in
  forallb plain_segment segs = true /\
  match op with
  | EXISTS => True
  | IN | NIN => (exists l, v = VTuple l) /\ containable node = true
  | EQ | NE =>
      match v with
      | VNone | VDateLit _ | VDict _ => True
      | VTuple l => comparable_array node l
      | _ => containable node = true
      end
  | GT | GTE | LT | LTE => (forall d, v <> VDate d) /\ match node with Some n => plain_item n = true | None => True end
  | _ => False
  end.

Definition leaf_ok (r : record) (path : list string) (op : Op) (v : value) : Prop :=
  match path with
  | [key] => mem_str key SYSTEM_KEYS = true -> system_operand key op v
  | _ => metadata_leaf path = true -> metadata_operand r (tail path) op v
  end.

Definition leaves_ok (r : record) (n : ast) : Prop :=
  forall p o v, Clause p o v ∈ leaves n -> leaf_ok r p o v.
End rows.

(** ** Values and cells *)

Section cells.
Context (isoformat : datetime -> string) {J : Json1}.
Context (iso_order : forall a b, utc_in_range a = true -> utc_in_range b = true ->
  String.compare (isoformat a) (isoformat b) = Z.compare (dt_local a) (dt_local b)).

Lemma utc_in_range_utc d : utc_in_range d = true -> dt_offset d = Some 0%Z /\ to_utc d = Ok (dt_utc (dt_local d)).
Proof.
  unfold utc_in_range. rewrite !andb_true_iff, bool_decide_eq_true. intros [[Ho H1] H2]. split; [done|].
  unfold to_utc, dt_astimezone_utc. by rewrite Ho, dt_instant_aware, H1, H2.
Qed.

(** What the store writes to a date column is the rendering of a UTC datetime in range. *)
Lemma dt_to_iso_in_range d s : (dt_min <= dt_local d <= dt_max)%Z ->
  LanceStore._dt_to_iso isoformat (Some d) = Ok (Some s) -> exists u, utc_in_range u = true /\ s = isoformat u.
Proof.
  intros Hd. unfold LanceStore._dt_to_iso, to_utc, dt_astimezone_utc.
  assert (Hu : forall t, (dt_min <=? t)%Z && (t <=? dt_max)%Z = true -> utc_in_range (dt_utc t) = true) by done.
  destruct (dt_offset d); [|intros [= <-]; exists (dt_utc (dt_local d)); split; [apply Hu; lia|done]].
  destruct (dt_instant d) as [t|]; [|done]. destruct (_ && _) eqn:E; [|done]. intros [= <-]. exists (dt_utc t). auto.
Qed.

Lemma cmp_holds op o c x : symbol_of op = Ok o -> _RANGE_FN op = Ok c -> cmp_of c x = holds_for o x.
Proof. destruct op; try done; intros [= <-] [= <-]; by destruct x. Qed.

Lemma string_eqb_compare s t : String.eqb s t = match String.compare s t with Eq => true | _ => false end.
Proof.
  destruct (String.eqb_spec s t) as [->|Hn].
  - assert (H : String.compare t t = Datatypes.Eq).
    { pose proof (String.compare_antisym t t) as H. by destruct (String.compare t t). }
    by rewrite H.
  - destruct (String.compare s t) eqn:E; [|done..]. by apply String.compare_eq_iff in E.
Qed.

(** Two values of a system key compare as their cells do. *)
Lemma typed_order key w v : typed key w = true -> typed key v = true ->
  exists x, cell_compare (stored_cell isoformat w) (stored_cell isoformat v) = Some x /\
    _comparable w v = true /\ _eq_aligned w v = Ok (holds_for OEq x) /\
    forall op o c, symbol_of op = Ok o -> _RANGE_FN op = Ok c ->
      _system_range w v c = Ok (holds_for o x).
Proof.
  destruct w as [|?|?|?|s|d|?|?|?|?], v as [|?|?|?|t|d'|?|?|?|?]; try done; cbn [typed]; intros Hw Hv;
    try (exfalso; by destruct (mem_str key date_keys)).
  - exists (String.compare s t). split_and!; [done..| |].
    + unfold _eq_aligned. cbn. rewrite string_eqb_compare. by destruct (String.compare s t).
    + intros op o c Ho Hc. unfold _system_range. cbn. f_equal. by eapply cmp_holds.
  - apply andb_true_iff in Hw as [_ Hw], Hv as [_ Hv]. exists (Z.compare (dt_local d) (dt_local d')).
    destruct (utc_in_range_utc d Hw) as [Ho1 E1], (utc_in_range_utc d' Hv) as [Ho2 E2].
    split_and!; [cbn; by rewrite iso_order|done| |].
    + unfold _eq_aligned, _align_dt. rewrite E1, E2. cbn [py_eq]. rewrite dt_eqb_utc by done. cbn [dt_utc dt_local].
      rewrite Z.eqb_compare. by destruct (Z.compare _ _).
    + intros op o c Ho Hc. unfold _system_range, _align_dt. cbn. rewrite E1, E2. cbn [py_cmp]. rewrite dt_cmp_utc by done.
      cbn [dt_utc dt_local]. f_equal. by eapply cmp_holds.
Qed.

Lemma typed_value key v : typed key v = true ->
  FilterPython._system_value v = v /\ is_none v = false /\
  cell_of_bind (Lance._system_value isoformat v) = Some (stored_cell isoformat v).
Proof. by destruct v. Qed.

(** What [_md_contains] binds for a value. *)
Definition bound (v : value) : value :=
  if (_operand_type_gate v).2 then VInt (if truthy v then 1 else 0)%Z else _jsonable_scalar isoformat v.

Lemma num_element f g : is_true (compare3 OEq (CNum f) (CNum g)) = num_eqb f g.
Proof. unfold compare3, num_eqb. cbn. by destruct (num_compare f g) as [[]|]. Qed.

Lemma text_compare s t : compare3 OEq (CText s) (CText t) = Some (String.eqb s t).
Proof. unfold compare3. cbn. rewrite string_eqb_compare. by destruct (String.compare s t). Qed.

Lemma text_element s t : is_true (compare3 OEq (CText s) (CText t)) = String.eqb s t.
Proof. by rewrite text_compare; destruct (String.eqb s t). Qed.

(** The gate and the comparison decide what [_json_eq] decides. *)
Lemma scalar_element item v c :
  plain_item item = true -> is_none v = false -> cell_of_bind (bound v) = Some c ->
  is_true (compare3 OEq (node_cell item) c) && mem_str (json_type_name item) (_operand_type_gate v).1 =
  _json_eq (_jsonable isoformat item) (_jsonable isoformat v).
Proof.
  intros Hi Hv Hc.
  destruct v as [|b|z|f|s|d|d|l|l|d]; try done; cbn -[int64] in Hc;
    [destruct b; injection Hc as <-|destruct (int64 z) eqn:Hz; [injection Hc as <-|done]
    |destruct f as [| |m e]; injection Hc as <-|injection Hc as <-..];
    (destruct item as [|b'|z'|f'|s'|?|?|?|?|?]; try done; try (is_var b'; destruct b');
     cbn -[compare3 int64 num_eqb String.eqb]; cbn -[int64] in Hi; try rewrite Hi;
     rewrite ?andb_false_r, ?andb_true_r, ?num_element, ?text_element; try done).
  by destruct f'.
Qed.

(** The rows of [json_each] for a node. *)
Definition each_row (node : option value) : list value :=
  match node with
  | None => []
  | Some (VList l) => l
  | Some (VDict d) => snd <$> d
  | Some v => [v]
  end.

Lemma scalar_contains node v c :
  containable node = true -> is_none v = false -> cell_of_bind (bound v) = Some c ->
  existsb (fun e => is_true (compare3 OEq (node_cell e) c) && mem_str (json_type_name e) (_operand_type_gate v).1)
    (each_row node) = FilterPython._md_contains isoformat node v.
Proof.
  intros Hn Hv Hc. destruct node as [n|]; [|done].
  destruct n as [|b|z|f|s|d|d|l|l|d]; try done; cbn [each_row existsb FilterPython._md_contains];
    rewrite ?orb_false_r; try by apply scalar_element.
  cbn [containable] in Hn. induction l as [|x l IH]; [done|]. cbn in Hn. apply andb_true_iff in Hn as [Hx Hl].
  cbn [existsb]. by rewrite IH, scalar_element.
Qed.

(** A range operand and a node the gate admits order as the predicate orders them. *)
Definition gated (b : bool) (o : operator) (x y : cell) : bool := default false (k_and2 (Some b) (compare3 o x y)).

Lemma gated_off o x y : gated false o x y = false.
Proof. by unfold gated, k_and2; destruct (compare3 o x y) as [[]|]. Qed.

Lemma gated_num o cmp f g : (forall y, holds_for o y = cmp_of cmp y) -> gated true o (CNum f) (CNum g) = num_cmp cmp f g.
Proof.
  intros H. unfold gated, compare3, num_cmp. cbn. destruct (num_compare f g) as [y|]; [|done]. cbn. rewrite H.
  by destruct (cmp_of cmp y).
Qed.

Lemma gated_text o cmp s t : (forall y, holds_for o y = cmp_of cmp y) ->
  gated true o (CText s) (CText t) = cmp_of cmp (String.compare s t).
Proof. intros H. unfold gated, compare3. cbn. rewrite H. by destruct (cmp_of _ _). Qed.

Lemma scalar_range op o cmp n v c x :
  symbol_of op = Ok o -> _RANGE_FN op = Ok cmp -> plain_item n = true -> (forall d, v <> VDate d) ->
  (forall d, v <> VDateLit d) -> cell_of_bind (_jsonable_scalar isoformat v) = Some c ->
  _md_range_compare (Some n) v cmp = Ok x ->
  gated (mem_str (json_type_name n) (_operand_type_gate v).1) o (node_cell n) c = x.
Proof.
  intros Ho Hop Hn Hd Hl Hc Hx.
  assert (Hh : forall y, holds_for o y = cmp_of cmp y) by (intros y; symmetry; by eapply cmp_holds).
  destruct v as [|b|z|f|s|d|d|l|l|d]; try done; try (by destruct (Hd d)); try (by destruct (Hl d));
    cbn -[int64] in Hc;
    [injection Hc as <-|injection Hc as <-|destruct (int64 z); [injection Hc as <-|done]
    |destruct f as [| |m e]; injection Hc as <-|injection Hc as <-];
    (destruct n as [|b'|z'|f'|s'|?|?|?|?|?]; try done; try (is_var b'; destruct b');
     cbn -[int64 num_cmp gated] in *; try rewrite Hn; injection Hx as <-;
     rewrite ?gated_off; try done;
     first [by apply gated_num|by apply gated_text|idtac]).
  by destruct f'.
Qed.

(** *** Arrays of plain scalars *)

Lemma plain_json_eq x y : plain_scalar x = true -> plain_scalar y = true -> _json_eq x y = bool_decide (x = y).
Proof.
  intros Hx Hy. destruct (bool_decide_reflect (x = y)) as [->|Hn].
  - destruct y as [|b|z|?|s|?|?|?|?|?]; try done; cbn; [by destruct b|by rewrite Z.compare_refl|by apply String.eqb_refl].
  - destruct x as [|b|z|?|s|?|?|?|?|?], y as [|b'|z'|?|s'|?|?|?|?|?]; try done; cbn.
    + destruct b, b'; done.
    + destruct (Z.compare_spec (z * 2 ^ (0 - 0 `min` 0)) (z' * 2 ^ (0 - 0 `min` 0))) as [He| |]; try done.
      exfalso. apply Hn. f_equal. change (2 ^ (0 - 0 `min` 0))%Z with 1%Z in He. lia.
    + apply String.eqb_neq. congruence.
Qed.

Lemma plain_list_eq a b : forallb plain_scalar a = true -> forallb plain_scalar b = true ->
  _json_eq (VList a) (VList b) = bool_decide (a = b).
Proof.
  revert b. induction a as [|x a IH]; intros [|y b]; try done. cbn [forallb]. rewrite !andb_true_iff. intros [Hx Ha] [Hy Hb].
  specialize (IH b Ha Hb). cbn in IH |- *. rewrite (plain_json_eq x y Hx Hy).
  destruct (bool_decide_reflect (x = y)) as [->|Hn].
  - cbn. rewrite IH. by apply bool_decide_ext; split; [intros ->|intros [=]].
  - rewrite andb_false_r. symmetry. apply bool_decide_eq_false. by intros [= ? ?].
Qed.

Lemma plain_jsonable l : forallb plain_scalar (List.map (_jsonable_scalar isoformat) l) = true ->
  List.map (_jsonable isoformat) l = List.map (_jsonable_scalar isoformat) l.
Proof.
  induction l as [|v l IH]; [done|]. cbn. rewrite andb_true_iff. intros [Hv Hl]. rewrite IH by done. by destruct v.
Qed.

Lemma plain_items items : forallb plain_scalar items = true -> List.map (_jsonable isoformat) items = items.
Proof. induction items as [|v l IH]; [done|]. cbn. rewrite andb_true_iff. intros [Hv Hl]. rewrite IH by done. by destruct v. Qed.
End cells.

(** ** Leaves *)

Section leaf.
Context (fromisoformat : string -> option datetime) (isoformat : datetime -> string).
Context (float_repr : pyfloat -> string) (esc : string -> string) (ctx : TargetContext) {J : Json1}.
(** The context of the re-check. *)
Context (post : CompileContext).
Context (iso_order : forall a b, utc_in_range a = true -> utc_in_range b = true ->
  String.compare (isoformat a) (isoformat b) = Z.compare (dt_local a) (dt_local b)).
Context (row : string -> cell) (r : record) (Hst : stores isoformat ctx post row r).
Context (binds : list value) (cells : list cell) (Hbind : bind_cells binds = Some cells).

Local Abbreviation value_of := (eval (eval_atom row cells)).
Local Abbreviation cell_of := (term_cell row cells).

(** A condition that decides what the predicate decides. *)
Definition decides (p : result bool) (c : cond atom) : Prop := forall x, p = Ok x -> value_of c = Some x.

Lemma yields_cell v :
  yields binds (fun k => cell_of_bind v = Some (cell_of (Param k))) (_bind v).
Proof.
  eapply yields_weaken; [|apply yields_put]. intros k Hk. unfold bind_cells in Hbind. apply mapM_Some in Hbind.
  destruct (Forall2_lookup_l _ _ _ _ _ Hbind Hk) as (c & Hc & Hv). cbn. by rewrite Hc.
Qed.

(** *** System keys *)

Lemma stored_cases key : mem_str key SYSTEM_KEYS = true -> system_key_declared (base_context ctx) key = true ->
  let w := _resolve_system post r key in
  row (_col ctx key) = stored_cell isoformat w /\ (w = VNone \/ is_none w = false /\ typed key w = true).
Proof.
  intros Hk Hd. destruct (stored_system _ _ _ _ _ Hst key Hk Hd) as [Ht Hr]. split; [done|].
  destruct (_resolve_system _ r key); try (by left); by right.
Qed.

Lemma member_eval key w (l : list value) (ks : list nat) :
  row (_col ctx key) = stored_cell isoformat w -> typed key w = true -> forallb (typed key) l = true ->
  Forall2 (fun v k => cell_of_bind (Lance._system_value isoformat v) = Some (cell_of (Param k))) l ks ->
  exists x, any_m (system_member w) l = Ok x /\
    eval_atom row cells (Member (Column (_col ctx key)) (List.map Param ks)) = Some x.
Proof.
  intros Hr Hw Hl HF. cbn [eval_atom term_cell]. rewrite Hr. revert Hl. induction HF as [|v k l ks Hv _ IH]; [by exists false|].
  cbn [forallb]. rewrite andb_true_iff. intros [Ht Hl]. destruct (IH Hl) as (x & Hx & Hk).
  destruct (typed_value isoformat key v Ht) as (_ & _ & Hv'). rewrite Hv' in Hv. injection Hv as Hv.
  destruct (typed_order isoformat iso_order key w v Hw Ht) as (y & Hy & Hc & He & _).
  cbn [List.map any_m]. unfold system_member at 1. rewrite Hc, He. cbn [k_or foldr]. fold k_or.
  cbn [term_cell]. unfold compare3 at 1. rewrite <- Hv. unfold compare3. rewrite Hy. cbn [fmap option_fmap option_map].
  exists (holds_for OEq y || x). destruct (holds_for OEq y); [done|]. rewrite Hx. split; [done|].
  unfold k_or in Hk. unfold compare3 in Hk. by rewrite Hk; destruct x.
Qed.
Lemma member_null key (ks : list nat) : row (_col ctx key) = CNull ->
  default false (eval_atom row cells (Member (Column (_col ctx key)) (List.map Param ks))) = false.
Proof.
  intros Hr. cbn [eval_atom term_cell]. rewrite Hr. induction ks as [|k ks IH]; [done|].
  cbn [List.map k_or foldr]. unfold k_or in IH. by destruct (foldr _ _ _) as [[]|].
Qed.

Lemma stored_not_null w key : typed key w = true -> is_null (stored_cell isoformat w) = false.
Proof. by destruct w. Qed.

Section compare.
Context (key : string) (Hk : mem_str key SYSTEM_KEYS = true) (Hd : system_key_declared (base_context ctx) key = true).
Context (v : value) (Hv : typed key v = true) (k : nat) (Hc : cell_of (Param k) = stored_cell isoformat v).

Local Abbreviation w := (_resolve_system post r key).
Local Abbreviation col := (Column (_col ctx key)).

(** The comparison of the column with the bind: [None] on NULL. *)
Lemma compare_cases :
  (w = VNone /\ row (_col ctx key) = CNull /\ forall o, eval_atom row cells (Compare col o (Param k)) = None) \/
  (exists y, is_none w = false /\ typed key w = true /\ row (_col ctx key) = stored_cell isoformat w /\
    (forall o, eval_atom row cells (Compare col o (Param k)) = Some (holds_for o y)) /\
    _comparable w v = true /\ _eq_aligned w v = Ok (holds_for OEq y) /\
    forall op o c, symbol_of op = Ok o -> _RANGE_FN op = Ok c -> _system_range w v c = Ok (holds_for o y)).
Proof.
  destruct (stored_cases key Hk Hd) as [Hr [Hw|[Hn Hw]]].
  - left. rewrite Hw in Hr. split_and!; [done..|]. intros o. cbn [eval_atom term_cell]. by rewrite Hr.
  - right. destruct (typed_order isoformat iso_order key w v Hw Hv) as (y & Hy & Hcm & He & Hrg).
    exists y. split_and!; try done. intros o. cbn [eval_atom]. rewrite Hc. cbn [term_cell]. unfold compare3. by rewrite Hr, Hy.
Qed.

Lemma ne_decides : decides (_system_ne w v) (Paren (Or [Atom (IsNull col); Atom (Compare col ONe (Param k))])).
Proof.
  intros x Hx. cbn [eval List.map k_or foldr].
  destruct compare_cases as [(Hw & Hr & ->)|(y & Hn & Hw & Hr & -> & Hcm & He & _)]; cbn [eval_atom term_cell]; rewrite Hr.
  - rewrite Hw in Hx. by injection Hx as <-.
  - rewrite (stored_not_null w key Hw). unfold _system_ne in Hx. rewrite Hn, Hcm in Hx. cbn in Hx.
    unfold _eq_aligned in He. destruct (_align_dt w v) as [[a b]|]; [|done].
    injection Hx as <-. injection He as ->. by destruct y.
Qed.

Lemma eq_decides : decides (_system_eq w v) (Coalesce (Atom (Compare col OEq (Param k)))).
Proof.
  intros x Hx. cbn [eval]. destruct compare_cases as [(Hw & _ & ->)|(y & Hn & _ & _ & -> & Hcm & He & _)].
  - rewrite Hw in Hx. by injection Hx as <-.
  - unfold _system_eq in Hx. rewrite Hn, Hcm, He in Hx. by injection Hx as <-.
Qed.

Lemma range_decides op o c : symbol_of op = Ok o -> _RANGE_FN op = Ok c ->
  decides (_system_range w v c) (Coalesce (Atom (Compare col o (Param k)))).
Proof.
  intros Ho Hop x Hx. cbn [eval]. destruct compare_cases as [(Hw & _ & ->)|(y & _ & _ & _ & -> & _ & _ & Hrg)].
  - rewrite Hw in Hx. by injection Hx as <-.
  - rewrite (Hrg op o c Ho Hop) in Hx. by injection Hx as <-.
Qed.
End compare.

(** *** The system clause *)

Lemma null_decides key op v p : mem_str key SYSTEM_KEYS = true -> system_key_declared (base_context ctx) key = true ->
  is_none v = true -> op_in op [EXISTS; IN; NIN] = false ->
  FilterPython._compile_system_clause post key op v = Ok p ->
  yields binds (decides (p r)) (Lance._compile_system_clause isoformat ctx key op v).
Proof.
  intros Hk Hd Hv Hop Hp. destruct (stored_cases key Hk Hd) as [Hr Hw]. destruct v; try done.
  assert (Hnull : is_null (row (_col ctx key)) = is_none (_resolve_system post r key)).
  { rewrite Hr. destruct Hw as [->|[Hn Hw]]; [done|]. by rewrite (stored_not_null _ _ Hw). }
  destruct op; try done; injection Hp as <-; apply yields_ret; intros x [= <-]; cbn; by rewrite Hnull.
Qed.

Lemma compare_decides key op v p : mem_str key SYSTEM_KEYS = true -> system_key_declared (base_context ctx) key = true ->
  typed key v = true -> op_in op [EXISTS; IN; NIN] = false ->
  FilterPython._compile_system_clause post key op v = Ok p ->
  yields binds (decides (p r)) (Lance._compile_system_clause isoformat ctx key op v).
Proof.
  intros Hk Hd Hv Hop Hp. destruct (typed_value isoformat key v Hv) as (E1 & E2 & E3).
  assert (Hone : yields binds (fun k => cell_of (Param k) = stored_cell isoformat v) (_bind (Lance._system_value isoformat v))).
  { eapply yields_weaken; [|apply yields_cell]. intros k. rewrite E3. by intros [= ->]. }
  destruct op; try done; destruct v; try done; injection Hp as <-.
  all: eapply yields_bind; [exact Hone|]; intros k; cbn [FilterPython._system_value].
  all: try (rewrite bool_decide_eq_true_2 by done; apply yields_ret; intros Hc; by apply ne_decides).
  all: rewrite bool_decide_eq_false_2 by done; eapply yields_map; [apply yields_lift|]; intros o [= <-] Hc.
  1-2: by apply eq_decides.
  1-2: by apply (range_decides key Hk Hd _ Hv k Hc GT).
  1-2: by apply (range_decides key Hk Hd _ Hv k Hc GTE).
  1-2: by apply (range_decides key Hk Hd _ Hv k Hc LT).
  1-2: by apply (range_decides key Hk Hd _ Hv k Hc LTE).
Qed.

Lemma members_decide key op l p : mem_str key SYSTEM_KEYS = true -> system_key_declared (base_context ctx) key = true ->
  forallb (typed key) l = true -> op_in op [IN; NIN] = true ->
  FilterPython._compile_system_clause post key op (VTuple l) = Ok p ->
  yields binds (decides (p r)) (Lance._compile_system_clause isoformat ctx key op (VTuple l)).
Proof.
  intros Hk Hd Hl Hop Hp. destruct (stored_cases key Hk Hd) as [Hr Hw].
  assert (Hmap : List.map FilterPython._system_value l = l).
  { clear Hp. induction l as [|v l IH]; [done|]. cbn in Hl. apply andb_true_iff in Hl as [Hv Hl]. cbn.
    destruct (typed_value isoformat key v Hv) as [-> _]. by rewrite IH. }
  assert (Hp' : p r = if bool_decide (op = IN) then _system_in (_resolve_system post r key) l
                      else _system_nin (_resolve_system post r key) l).
  { unfold FilterPython._compile_system_clause in Hp. cbn [py_iter] in Hp. rewrite Hmap in Hp. destruct op; try done; by injection Hp as <-. }
  rewrite Hp'. unfold Lance._compile_system_clause. rewrite Hop, (bool_decide_eq_false_2 (op = EXISTS)) by (intros ->; done).
  destruct l as [|v0 l0] eqn:El; [|rewrite <- El in *]; [|destruct (negb (truthy (VTuple l))) eqn:Et; [by rewrite El in Et|]].
  { apply yields_ret. intros x. unfold _system_in, _system_nin. cbn. destruct op; try done; by destruct (is_none _) => [=<-]. }
  eapply yields_bind; [apply yields_lift|]. intros values.
  assert (Hks : yields binds (Forall2 (fun v k => cell_of_bind (Lance._system_value isoformat v) = Some (cell_of (Param k))) values)
    (bind_all isoformat values)).
  { apply yields_seq, Forall_true. intros v. apply yields_cell. }
  eapply yields_map; [exact Hks|]. intros ks HF [= <-]. unfold _system_in, _system_nin.
  destruct Hw as [Hw|[Hn Hw]].
  - rewrite Hw in *. pose proof (member_null key ks Hr) as Hm. intros x. cbn [is_none].
    case_bool_decide; intros [= <-]; cbn [eval List.map]; [by rewrite Hm|]. cbn [k_or foldr eval_atom term_cell]. by rewrite Hr.
  - destruct (member_eval key _ l ks Hr Hw Hl HF) as (x & Hx & Hm). rewrite Hn, Hx. intros y.
    case_bool_decide; intros [= <-]; cbn [eval List.map k_or foldr]; rewrite Hm; [done|].
    cbn [eval_atom term_cell]. rewrite Hr, (stored_not_null _ _ Hw). by destruct x.
Qed.

Lemma system_decides key op v p : mem_str key SYSTEM_KEYS = true -> system_key_declared (base_context ctx) key = true ->
  system_operand key op v -> FilterPython._compile_system_clause post key op v = Ok p ->
  yields binds (decides (p r)) (Lance._compile_system_clause isoformat ctx key op v).
Proof.
  intros Hk Hd Hv Hp.
  assert (Hone : is_none v || typed key v = true -> op_in op [EXISTS; IN; NIN] = false ->
    yields binds (decides (p r)) (Lance._compile_system_clause isoformat ctx key op v)).
  { intros [Hn|Ht]%orb_true_iff Hop; [by apply null_decides|by apply compare_decides]. }
  destruct op; try done; try (by apply Hone).
  - destruct Hv as [[l ->]|Hv]; [|by apply Hone]. injection Hp as <-. apply yields_ret. by intros x [= <-].
  - destruct Hv as [[l ->]|Hv]; [|by apply Hone]. injection Hp as <-. apply yields_ret. by intros x [= <-].
  - destruct Hv as (l & -> & Hl). by apply members_decide.
  - destruct Hv as (l & -> & Hl). by apply members_decide.
  - injection Hp as <-. apply yields_ret. by intros x [= <-].
Qed.

(** *** Metadata *)

Section path.
Context (segs : list string) (Hne : segs <> []) (Hplain : forallb plain_segment segs = true).

Local Abbreviation node := (_md_extract r segs).
Local Abbreviation json := (json_col ctx).

Lemma path_cell : yields binds (fun p => node_at (cell_of json) (cell_of p) = node) (_jpath_bind segs).
Proof.
  destruct (stored_metadata _ _ _ _ _ Hst) as (t & Ht & Hj). unfold _jpath_bind.
  eapply yields_map; [apply yields_cell|]. intros k [= Hk]. cbn [term_cell json_col] in *. rewrite Ht, <- Hk. by apply Hj.
Qed.

Lemma contains_decides v : containable node = true ->
  yields binds (fun c => is_none v = false -> decides (Ok (FilterPython._md_contains isoformat node v)) c)
    (Lance._md_contains isoformat ctx segs v).
Proof.
  intros Hn. unfold Lance._md_contains. destruct (_operand_type_gate v) as [gate b] eqn:E.
  eapply yields_bind; [apply path_cell|]. intros p. eapply yields_map; [apply yields_cell|].
  intros k Hk Hp Hv x [= <-]. cbn [eval eval_atom]. f_equal. unfold json_each. rewrite Hp.
  rewrite <- (scalar_contains isoformat node v (cell_of (Param k)) Hn Hv).
  - by rewrite E.
  - unfold bound. by rewrite E.
Qed.

Lemma null_node : yields binds (decides (Ok (_md_is_null (_resolve_metadata r) segs))) (Lance._md_null ctx segs).
Proof.
  eapply yields_bind; [apply path_cell|]. intros p. eapply yields_map; [apply path_cell|]. intros p' Hp' Hp x [= <-].
  cbn [eval List.map k_or foldr eval_atom term_cell]. rewrite Hp, Hp'. unfold _md_is_null. fold (_md_extract r segs).
  by destruct node as [[|[]| | | | | | | |]|].
Qed.

Lemma array_decides l : comparable_array isoformat float_repr esc node l ->
  yields binds (decides (Ok (_exact_array_eq isoformat node (List.map (_jsonable isoformat) l))))
    (_md_exact_array isoformat float_repr esc ctx segs l).
Proof.
  intros Hl. eapply yields_bind; [apply path_cell|]. intros p. eapply yields_bind; [apply path_cell|]. intros p'.
  eapply yields_map; [apply yields_cell|]. intros k [= Hk] Hp' Hp x [= <-].
  cbn [eval eval_atom term_cell] in *. rewrite Hp, Hp'. destruct node as [[|[]|?|?|?|?|?|items|?|?]|]; try done.
  destruct Hl as (H1 & H2 & H3). cbn [json_type_name node_cell]. rewrite <- Hk, !text_compare.
  rewrite String.eqb_refl. cbn [is_true]. f_equal. unfold _exact_array_eq. 
  rewrite (plain_jsonable isoformat l H2), (plain_items isoformat items H1), (plain_list_eq _ _ H1 H2).
  change (String.eqb (json_minify (compound_text (VList items)))
    (json_minify (dumps float_repr esc (VList (List.map (_jsonable_scalar isoformat) l)))) =
    bool_decide (items = List.map (_jsonable_scalar isoformat) l)).
  destruct (String.eqb_spec (json_minify (compound_text (VList items)))
    (json_minify (dumps float_repr esc (VList (List.map (_jsonable_scalar isoformat) l))))) as [E|E].
  - symmetry. by apply bool_decide_eq_true, H3.
  - symmetry. apply bool_decide_eq_false. by rewrite <- H3.
Qed.

Lemma gate_member s gate :
  k_or (List.map (fun b => compare3 OEq (CText s) (cell_of b)) (List.map Text gate)) = Some (mem_str s gate).
Proof.
  induction gate as [|g gate IH]; [done|]. cbn [List.map k_or foldr]. unfold k_or in IH. rewrite IH. cbn [term_cell].
  rewrite text_compare. unfold mem_str. cbn [existsb]. by destruct (String.eqb s g), (existsb _ _).
Qed.

Lemma range_clause op v cmp : _RANGE_FN op = Ok cmp -> (forall d, v <> VDate d) -> (forall d, v <> VDateLit d) ->
  match node with Some n => plain_item n = true | None => True end ->
  yields binds (decides (_md_range_compare node v cmp)) (_md_range isoformat ctx segs op v).
Proof.
  intros Hop Hd Hl Hn. eapply yields_bind; [apply yields_lift|]. intros o.
  eapply yields_bind; [apply path_cell|]. intros p. eapply yields_bind; [apply path_cell|]. intros p'.
  eapply yields_map; [apply yields_cell|]. intros k Hk Hp' Hp Ho x Hx.
  cbn [eval eval_atom List.map k_and foldr]. cbn [term_cell]. rewrite Hp, Hp'. f_equal.
  destruct node as [n|]; [|injection Hx as <-; by destruct v].
  rewrite <- (scalar_range isoformat op o cmp n v _ x Ho Hop Hn Hd Hl Hk Hx), gate_member. unfold gated. f_equal.
  cbn [term_cell]. by destruct (mem_str _ _), (compare3 _ _ _) as [[]|].
Qed.
End path.

Lemma negated_decides p c : decides p c -> decides (neg_m p) (negated c).
Proof.
  intros Hc x Hx. unfold neg_m in Hx. destruct p as [b|]; [|done]. injection Hx as <-. cbn. by rewrite (Hc b eq_refl).
Qed.

(** [Some c] decides [p]; [None] is a clause reported as unmatchable. *)
Definition path_result (p : result bool) (op : Op) (v : value) (o : option (cond atom)) : Prop :=
  match o with Some c => decides p c | None => unmatchable op v = true end.

Lemma membership_path segs op l : segs <> [] -> forallb plain_segment segs = true -> containable (_md_extract r segs) = true ->
  op_in op [IN; NIN] = true ->
  yields binds (path_result (Ok (let hit := existsb (FilterPython._md_contains isoformat (_md_extract r segs)) l in
      if bool_decide (op = IN) then hit else negb hit)) op (VTuple l))
    (Lance.metadata_path_clause isoformat float_repr esc ctx segs op (VTuple l)).
Proof.
  intros Hne Hplain Hn Hop. unfold Lance.metadata_path_clause.
  rewrite (bool_decide_eq_false_2 (op = EXISTS)) by (intros ->; done). rewrite Hop.
  destruct l as [|v0 l0] eqn:El; [|rewrite <- El in *]; [|destruct (negb (truthy (VTuple l))) eqn:Et; [by rewrite El in Et|]].
  { apply yields_ret. intros x [= <-]. by destruct op. }
  destruct (_has_unpushable_in_element (VTuple l)) eqn:Eu.
  { apply yields_ret. cbn [path_result]. unfold unmatchable. by rewrite Hop, Eu. }
  eapply yields_bind; [apply yields_lift|]. intros values.
  assert (Hs : yields binds (Forall2 (fun v c => is_none v = false ->
      decides (Ok (FilterPython._md_contains isoformat (_md_extract r segs) v)) c) values)
    (b_seq (List.map (Lance._md_contains isoformat ctx segs) values))).
  { apply yields_seq, Forall_true. intros v. by apply contains_decides. }
  eapply yields_map; [exact Hs|]. intros chain HF [= <-]. cbn [path_result].
  assert (Hor : value_of (Or chain) = Some (existsb (FilterPython._md_contains isoformat (_md_extract r segs)) l)).
  { cbn [eval]. clear -HF Eu. cbn in Eu. induction HF as [|v c l chain Hc _ IH]; [done|].
    cbn in Eu. apply orb_false_iff in Eu as [Ev Eu]. cbn [List.map k_or foldr]. fold k_or.
    rewrite (Hc ltac:(by destruct v) _ eq_refl). unfold k_or in IH. rewrite (IH Eu). cbn [existsb].
    by destruct (FilterPython._md_contains isoformat (_md_extract r segs) v), (existsb (FilterPython._md_contains isoformat (_md_extract r segs)) l). }
  intros x. cbn zeta. case_bool_decide; intros [= <-]; [done|]. cbn [eval negated] in *. by rewrite Hor.
Qed.

(** What [$eq] compares, before the sign. *)
Lemma equality_path segs v : segs <> [] -> metadata_operand isoformat float_repr esc r segs EQ v ->
  let q := match v with
           | VNone => fun r => Ok (_md_is_null (_resolve_metadata r) segs)
           | _ => _md_eq_fn fromisoformat isoformat segs v end in
  yields binds (path_result (q r) EQ v) (Lance.metadata_path_clause isoformat float_repr esc ctx segs EQ v) /\
  yields binds (path_result (neg_m (q r)) NE v) (Lance.metadata_path_clause isoformat float_repr esc ctx segs NE v).
Proof.
  intros Hne [Hplain Hv] q.
  assert (Hc : is_none v = false -> containable (_md_extract r segs) = true ->
    yields binds (decides (Ok (FilterPython._md_contains isoformat (_md_extract r segs) v))) (Lance._md_contains isoformat ctx segs v)).
  { intros Hn Hc. eapply yields_weaken; [|by apply contains_decides]. auto. }
  assert (Hsign : forall (P : B (cond atom)), yields binds (decides (q r)) P ->
    yields binds (path_result (q r) EQ v) (c ← P; mret (Some c)) /\
    yields binds (path_result (neg_m (q r)) NE v) (c ← P; mret (Some (negated c)))).
  { intros P HP. split; (eapply yields_map; [exact HP|]; intros c Hc'; cbn [path_result]); [done|by apply negated_decides]. }
  destruct v; subst q;
    try (apply Hsign; first [by apply null_node|by apply Hc|by apply array_decides]);
    by split; apply yields_ret.
Qed.

Lemma range_path segs op cmp v : segs <> [] -> metadata_operand isoformat float_repr esc r segs op v ->
  _RANGE_FN op = Ok cmp ->
  yields binds (path_result (match v with
      | VDateLit d => _md_date_compare fromisoformat (_md_extract r segs) op d
      | _ => _md_range_compare (_md_extract r segs) v cmp end) op v)
    (Lance.metadata_path_clause isoformat float_repr esc ctx segs op v).
Proof.
  intros Hne [Hplain Hv] Hcmp.
  assert (Hv' : (forall d, v <> VDate d) /\ match _md_extract r segs with Some n => plain_item n = true | None => True end)
    by by destruct op.
  destruct Hv' as [Hd Hn].
  assert (Hc : (forall d, v <> VDateLit d) -> yields binds (path_result (_md_range_compare (_md_extract r segs) v cmp) op v)
    (c ← _md_range isoformat ctx segs op v; mret (Some c))).
  { intros Hl. eapply yields_map; [by apply range_clause|done]. }
  destruct op; try done; destruct v; try (by apply Hc); by apply yields_ret.
Qed.

Lemma exists_path segs v : segs <> [] -> forallb plain_segment segs = true ->
  yields binds (path_result (Ok (let b := _md_present (_resolve_metadata r) segs in if truthy v then b else negb b)) EXISTS v)
    (Lance.metadata_path_clause isoformat float_repr esc ctx segs EXISTS v).
Proof.
  intros Hne Hplain. eapply yields_map; [by apply path_cell|]. intros p Hp. unfold _md_present.
  fold (_md_extract r segs). destruct (truthy v); intros x [= <-]; cbn [eval eval_atom term_cell]; rewrite Hp;
    by destruct (_md_extract r segs) as [[|[]| | | | | | | |]|].
Qed.

Lemma path_decides segs op v p : segs <> [] -> metadata_operand isoformat float_repr esc r segs op v ->
  FilterPython.metadata_path_clause fromisoformat isoformat segs op v = Ok p ->
  yields binds (path_result (p r) op v) (Lance.metadata_path_clause isoformat float_repr esc ctx segs op v).
Proof.
  intros Hne Hv Hp.
  assert (Hr : forall cmp, _RANGE_FN op = Ok cmp -> _md_range_fn fromisoformat segs op v = Ok p ->
    yields binds (path_result (p r) op v) (Lance.metadata_path_clause isoformat float_repr esc ctx segs op v)).
  { intros cmp Hc E. pose proof (range_path segs op cmp v Hne Hv Hc) as H. unfold _md_range_fn in E. rewrite Hc in E.
    destruct v; injection E as <-; exact H. }
  assert (Hm : op_in op [IN; NIN] = true -> yields binds (path_result (p r) op v)
    (Lance.metadata_path_clause isoformat float_repr esc ctx segs op v)).
  { intros Hop. assert (Hv' : (exists l, v = VTuple l) /\ containable (_md_extract r segs) = true)
      by (destruct Hv as [_ Hv]; by destruct op).
    destruct Hv' as [[l ->] Hn]. pose proof (membership_path segs op l Hne (proj1 Hv) Hn Hop) as H.
    destruct l as [|v0 l]; destruct op; try done; injection Hp as <-; exact H. }
  destruct op; try (by destruct Hv); try (by eapply Hr); try (by apply Hm).
  - destruct (equality_path segs v Hne Hv) as [H _]. by injection Hp as <-; destruct v.
  - destruct Hv as [H1 H2]. destruct (equality_path segs v Hne (conj H1 H2)) as [_ H]. by injection Hp as <-; destruct v.
  - pose proof (exists_path segs v Hne (proj1 Hv)) as H. injection Hp as <-. by destruct (truthy v).
Qed.

(** *** A leaf of a filter *)

Local Abbreviation verdict := (FilterTarget.verdict fromisoformat isoformat post).
Local Abbreviation pushable := (consumable (Lance._clause_consumable ctx)).

(** The condition of a leaf decides what the predicate decides, unless the leaf is deferred. *)
Definition leaf_result (n : ast) (c : cond atom) : Prop :=
  on_unsupported (base_context ctx) = Split /\ pushable n = false /\ c = Const true \/ decides (verdict n r) c.

Lemma unsupported_result path reason n :
  yields binds (fun c => pushable n = false -> leaf_result n c) (Lance._unsupported ctx path reason).
Proof.
  unfold Lance._unsupported, unsupported. destruct (on_unsupported (base_context ctx)) eqn:E; [done|].
  apply yields_ret. by left.
Qed.

Lemma unsupported_now path reason n : pushable n = false ->
  yields binds (leaf_result n) (Lance._unsupported ctx path reason).
Proof. intros Hn. eapply yields_weaken; [|apply unsupported_result]. auto. Qed.

(** The in-memory compiler accepts the operands of a metadata clause. *)
Lemma path_compiles segs op v : metadata_operand isoformat float_repr esc r segs op v ->
  exists p, FilterPython.metadata_path_clause fromisoformat isoformat segs op v = Ok p.
Proof.
  intros [_ Hv]. destruct op; try done; try (by eexists).
  - destruct Hv as [[l ->] _]. cbn [FilterPython.metadata_path_clause py_iter]. case_match; by eexists.
  - destruct Hv as [[l ->] _]. cbn [FilterPython.metadata_path_clause py_iter]. case_match; by eexists.
Qed.

Lemma metadata_result path op v : metadata_leaf path = true -> leaf_ok isoformat float_repr esc r path op v ->
  yields binds (leaf_result (Clause path op v)) (Lance.metadata_clause isoformat float_repr esc ctx path op v).
Proof.
  intros Hm Hok. destruct path as [|root segs]; [done|]. cbn in Hm. apply String.eqb_eq in Hm as ->.
  unfold Lance.metadata_clause.
  assert (Hun : negb (sqlite_json1 ctx) || Nat.eqb (length ("metadata" :: segs)) 1 || unmatchable op v = true ->
    pushable (Clause ("metadata" :: segs) op v) = false).
  { intros Hor. cbn [consumable Lance._clause_consumable]. unfold _clause_unconsumable. rewrite Hor. by destruct segs. }
  destruct (negb (sqlite_json1 ctx)); [by apply unsupported_now, Hun|].
  destruct segs as [|seg segs]; [by apply unsupported_now, Hun|].
  specialize (Hok eq_refl). cbn [tail] in Hok. destruct (path_compiles _ _ _ Hok) as [p Hp].
  eapply yields_bind; [by apply (path_decides (seg :: segs) op v p)|]. intros [c|].
  - eapply yields_map; [apply yields_consumed|]. intros _ _ Hc. right. cbn [path_result] in Hc.
    unfold FilterTarget.verdict. cbn -[FilterPython.metadata_path_clause]. by rewrite Hp.
  - eapply yields_weaken; [|apply unsupported_result]. intros c Hc Hu. by apply Hc, Hun.
Qed.

Lemma system_compiles key op v : system_operand key op v ->
  exists p, FilterPython._compile_system_clause post key op v = Ok p.
Proof.
  intros Hv. destruct op; try done; try (destruct Hv as (l & -> & _); by eexists); destruct v; by eexists.
Qed.

Lemma clause_result path op v : leaf_ok isoformat float_repr esc r path op v ->
  yields binds (leaf_result (Clause path op v)) (Lance.compile_clause isoformat float_repr esc ctx path op v).
Proof.
  intros Hok. unfold Lance.compile_clause.
  assert (Hmd : match path with [key] => mem_str key SYSTEM_KEYS = false | _ => True end ->
    yields binds (leaf_result (Clause path op v)) (if metadata_leaf path
      then Lance.metadata_clause isoformat float_repr esc ctx path op v
      else Lance._unsupported ctx path "path is neither a system key nor a metadata path")).
  { intros Hs. destruct (metadata_leaf path) eqn:Hm; [by apply metadata_result|]. apply unsupported_now.
    cbn. unfold _clause_unconsumable. rewrite Hm. destruct path as [|k [|? ?]]; [done| |done]. by rewrite Hs. }
  destruct path as [|key [|? ?]]; [by apply Hmd| |by apply Hmd].
  destruct (mem_str key SYSTEM_KEYS) eqn:Hs; [|by apply Hmd].
  destruct (system_key_declared (base_context ctx) key) eqn:Hd; cbn [negb].
  - cbn in Hok. destruct (system_compiles key op v (Hok Hs)) as [p Hp].
    eapply yields_bind; [by apply (system_decides key op v p); [| |apply Hok|]|]. intros c.
    eapply yields_map; [apply yields_consumed|]. intros _ _ Hc. right.
    cbn [FilterTarget.verdict]. unfold FilterPython.compile_clause. rewrite Hs. unfold consume, lift_leaf. by rewrite Hp.
  - apply unsupported_now. cbn [consumable Lance._clause_consumable]. unfold _clause_unconsumable. by rewrite Hs, Hd.
Qed.
End leaf.
End LanceExact.
