(* ===== verification/FilterSqliteAnswer.v ===== *)
(** The statement of the SQLite compiler as a whole: every condition is true or false on
    every row, the statement keeps every row of the filter's answer, re-checking its rows
    gives the answer, and what the comparison leaves out does differ. *)
From S2P Require Import Prelude PyValue FilterModel FilterAst FilterPython FilterPythonFacts FilterSplit FilterSplitFacts.
From S2P Require Import FilterTarget FilterTargetFacts FilterSqlite FilterSqliteFacts FilterSqliteExact.
From Stdlib Require Import Ascii.

Local Open Scope string_scope.
Local Open Scope list_scope.

Module LanceAnswer.
Import Lance LanceFacts LanceExact.

Section answer.
Context (fromisoformat : string -> option datetime) (isoformat : datetime -> string).
Context (float_repr : pyfloat -> string) (esc : string -> string) (ctx : TargetContext) {J : Json1}.
Context (ident : ast -> Z) (hash : ast -> string).

Local Abbreviation compiled n := (compile_lance isoformat float_repr esc ctx ident hash n).
Local Abbreviation mode := (on_unsupported (base_context ctx)).
Local Abbreviation pushable := (consumable (Lance._clause_consumable ctx)).
Local Abbreviation clause := (Lance.compile_clause isoformat float_repr esc ctx).

(** ** Every condition is true or false *)

Definition text_operand (v : value) : bool :=
  match v with VStr _ | VDate _ | VDateLit _ => true | _ => false end.

(** The operands of [$ne] and [$nin] on a system key that are bound as texts. *)
Definition text_operands (path : list string) (op : Op) (v : value) : Prop :=
  match path, op with
  | [_], NE => match v with VNone | VTuple _ => True | _ => text_operand v = true end
  | [_], NIN => exists l, v = VTuple l /\ forallb text_operand l = true
  | _, _ => True
  end.

Section total.
Context (row : string -> cell) (binds : list value) (cells : list cell) (Hbind : bind_cells binds = Some cells).

Local Abbreviation total := (fun c => is_Some (eval (eval_atom row cells) c)).

Lemma text_cell v c : text_operand v = true -> cell_of_bind (Lance._system_value isoformat v) = Some c ->
  exists s, c = CText s.
Proof. destruct v; try done; intros _ [= <-]; by eexists. Qed.

(** The null test covers the comparison. *)
Lemma null_or_known (a : cell) (x : option bool) : (is_null a = false -> is_Some x) -> is_Some (k_or2 (Some (is_null a)) (k_or2 x (Some false))).
Proof. destruct (is_null a); [by eexists|]. intros H. destruct (H eq_refl) as [[] ->]; by eexists. Qed.

Lemma text_known o a s : is_null a = false -> is_Some (compare3 o a (CText s)).
Proof. unfold compare3. destruct a; [done|by eexists..]. Qed.

Lemma total_system key op v : text_operands [key] op v ->
  yields binds total (Lance._compile_system_clause isoformat ctx key op v).
Proof.
  intros Hv. unfold Lance._compile_system_clause. case_bool_decide; [apply yields_ret; by eexists|].
  destruct (op_in op [IN; NIN]) eqn:Hop.
  { destruct (negb _); [apply yields_ret; by eexists|]. eapply yields_bind; [apply yields_lift|]. intros values.
    assert (Hks : yields binds (Forall2 (fun v k => cell_of_bind (Lance._system_value isoformat v) = Some (term_cell row cells (Param k))) values)
      (bind_all isoformat values)) by (apply yields_seq, Forall_true; intros w; by eapply yields_cell).
    eapply yields_map; [exact Hks|]. intros ks HF Hvs. case_bool_decide; [by eexists|].
    assert (op = NIN) as -> by (by destruct op). destruct Hv as (l & -> & Hl). injection Hvs as <-.
    cbn [eval List.map k_or foldr eval_atom]. apply null_or_known. intros Hn. clear Hks H H0.
    assert (Hm : is_Some (k_or (List.map (fun b => compare3 OEq (term_cell row cells (Column (_col ctx key))) (term_cell row cells b)) (List.map Param ks)))).
    { apply k_total. induction HF as [|w k l ks Hw _ IH]; [constructor|]. cbn in Hl. apply andb_true_iff in Hl as [H1 H2].
      destruct (text_cell w _ H1 Hw) as [s Hs]. constructor; [rewrite Hs; by apply text_known|by apply IH]. }
    destruct Hm as [b ->]. by eexists. }
  assert (Hcmp : op <> NE \/ text_operand v = true -> yields binds total
    (k ← _bind (Lance._system_value isoformat v);
     if bool_decide (op = NE)
     then mret (Paren (Or [Atom (IsNull (Column (_col ctx key))); Atom (Compare (Column (_col ctx key)) ONe (Param k))]))
     else o ← b_lift (symbol_of op); mret (Coalesce (Atom (Compare (Column (_col ctx key)) o (Param k)))))).
  { intros Hor. eapply yields_bind; [by eapply yields_cell|]. intros k. case_bool_decide as Hne.
    - apply yields_ret. intros Hk. destruct Hor as [|Ht]; [done|]. destruct (text_cell v _ Ht Hk) as [s Hs].
      cbn [eval List.map k_or foldr eval_atom]. apply null_or_known. rewrite Hs. apply text_known.
    - eapply yields_map; [apply yields_lift|]. by eexists. }
  destruct op; try done; destruct v; try (by apply Hcmp; left); try (by apply Hcmp; right);
    try (apply yields_ret; by eexists).
Qed.

Lemma any_path segs : yields binds (fun _ => True) (_jpath_bind segs).
Proof. eapply yields_map; [apply yields_put|done]. Qed.

Lemma total_coalesce c : total (Coalesce c).
Proof. by eexists. Qed.

Lemma total_contains segs v : yields binds total (Lance._md_contains isoformat ctx segs v).
Proof.
  unfold Lance._md_contains. destruct (_operand_type_gate v). eapply yields_bind; [apply any_path|]. intros p.
  eapply yields_map; [apply yields_put|]. intros k _ _. apply total_coalesce.
Qed.

Lemma total_null segs : yields binds total (Lance._md_null ctx segs).
Proof.
  assert (Hp : yields binds (fun p => exists k, p = Param k /\ binds !! k = Some (VStr (_jsonpath segs))) (_jpath_bind segs)).
  { eapply yields_map; [apply yields_put|]. intros k Hk. by exists k. }
  eapply yields_bind; [exact Hp|]. intros p. eapply yields_map; [exact Hp|]. intros p' (k' & -> & Hk') (k & -> & Hk).
  assert (He : term_cell row cells (Param k) = term_cell row cells (Param k')).
  { unfold bind_cells in Hbind. apply mapM_Some in Hbind.
    destruct (Forall2_lookup_l _ _ _ _ _ Hbind Hk) as (c & Hc & Hv), (Forall2_lookup_l _ _ _ _ _ Hbind Hk') as (c' & Hc' & Hv').
    cbn. rewrite Hc, Hc'. cbn. congruence. }
  cbn [eval List.map k_or foldr eval_atom]. apply null_or_known. cbn [term_cell] in *. rewrite <- He.
  destruct (node_at _ _); [|done]. intros _. by apply text_known.
Qed.

Lemma total_negated c : total c -> total (negated c).
Proof. intros [b Hb]. cbn. rewrite Hb. by eexists. Qed.

Lemma total_signed (P : B (cond atom)) (positive : bool) : yields binds total P ->
  yields binds (from_option total True) (c ← P; mret (Some (if positive then c else negated c))).
Proof. intros HP. eapply yields_map; [exact HP|]. intros c Hc. destruct positive; [done|by apply total_negated]. Qed.

Lemma total_path segs op v : yields binds (from_option total True)
  (Lance.metadata_path_clause isoformat float_repr esc ctx segs op v).
Proof.
  unfold Lance.metadata_path_clause. case_bool_decide.
  { eapply yields_map; [apply any_path|]. intros p _. by destruct (truthy v); eexists. }
  destruct (op_in op [IN; NIN]).
  { destruct (negb _); [apply yields_ret; by eexists|]. destruct (_has_unpushable_in_element v); [by apply yields_ret|].
    eapply yields_bind; [apply yields_lift|]. intros values.
    eapply yields_map; [apply (yields_seq binds (fun _ => total)), Forall_true; intros w; apply total_contains|].
    intros chain HF _.
    assert (Hor : total (Or chain)).
    { cbn [eval]. apply k_total. clear -HF. induction HF; constructor; done. }
    case_bool_decide; [exact Hor|]. by apply total_negated. }
  assert (Hr : yields binds (from_option total True) (c ← _md_range isoformat ctx segs op v; mret (Some c))).
  { eapply (yields_map _ total); [|done]. eapply yields_bind; [apply yields_lift|]. intros o.
    eapply yields_bind; [apply any_path|]. intros p. eapply yields_bind; [apply any_path|]. intros p'.
    eapply yields_map; [apply yields_put|]. intros k _ _ _ _. apply total_coalesce. }
  assert (Ha : forall l, yields binds total (_md_exact_array isoformat float_repr esc ctx segs l)).
  { intros l. eapply yields_bind; [apply any_path|]. intros p. eapply yields_bind; [apply any_path|]. intros p'.
    eapply yields_map; [apply yields_put|]. intros k _ _ _. apply total_coalesce. }
  destruct (bool_decide (op = EQ) || bool_decide (op = NE)); destruct v; try exact Hr; try (by apply yields_ret);
    apply total_signed; first [apply total_null|apply Ha|apply total_contains].
Qed.

Lemma total_unsupported path reason : yields binds total (Lance._unsupported ctx path reason).
Proof. unfold Lance._unsupported, unsupported. destruct mode; [done|]. apply yields_ret. by eexists. Qed.

Lemma total_metadata path op v : yields binds total (Lance.metadata_clause isoformat float_repr esc ctx path op v).
Proof.
  unfold Lance.metadata_clause. destruct (negb _); [apply total_unsupported|].
  eapply (yields_bind _ (from_option total True)).
  - unfold _compile_metadata_clause. destruct path as [|? [|? ?]]; [|by apply yields_ret|]; apply total_path.
  - intros [c|]; [|eapply yields_weaken; [|apply total_unsupported]; auto].
    eapply yields_map; [apply yields_consumed|]. by intros _ _ Hc.
Qed.

Lemma total_clause path op v : text_operands path op v -> yields binds total (clause path op v).
Proof.
  intros Hv. unfold Lance.compile_clause.
  assert (Hm : yields binds total (if metadata_leaf path then Lance.metadata_clause isoformat float_repr esc ctx path op v
    else Lance._unsupported ctx path "path is neither a system key nor a metadata path"))
    by (destruct (metadata_leaf path); [apply total_metadata|apply total_unsupported]).
  destruct path as [|key [|? ?]]; try exact Hm. destruct (mem_str key SYSTEM_KEYS); [|exact Hm].
  destruct (negb _); [apply total_unsupported|]. eapply yields_bind; [by apply total_system|]. intros c.
  eapply yields_map; [apply yields_consumed|]. by intros _ _ Hc.
Qed.
End total.

Definition text_leaves (n : ast) : Prop := forall p o v, Clause p o v ∈ leaves n -> text_operands p o v.

(** C5.  Every statement of the compiler is true or false on every row, never unknown: a
    column that is NULL, a metadata path that is absent or a node of another type gives a
    truth value, so that a surrounding negation includes the rows it should. *)
Theorem conditions_known n compiled_filter cells row :
  compiled n = Ok compiled_filter -> text_leaves n ->
  bind_cells (predicate compiled_filter).2 = Some cells ->
  is_Some (where_ row cells (predicate compiled_filter).1).
Proof.
  unfold compile_lance. destruct (Lance.compile_node _ _ _ _ n ([], ∅)) as [[c [binds s]]|] eqn:E; [|done].
  destruct (split_report _ _ _ _ _ _). intros [= <-] Hn Hb. cbn in Hb |- *.
  refine (node_total mode pushable clause atom_numbers binds (eval_atom row cells) _ n _ ([], ∅) c (binds, s) E _); [|..|done].
  - apply numbered_clause.
  - intros p o v Hl. apply yields_gives. apply total_clause; [done|by apply Hn].
Qed.

(** ** The rows of the statement and the filter's answer *)

Section rows.
Context (post : CompileContext).
Context (iso_order : forall a b, utc_in_range a = true -> utc_in_range b = true ->
  String.compare (isoformat a) (isoformat b) = Z.compare (dt_local a) (dt_local b)).

Local Abbreviation verdict := (FilterTarget.verdict fromisoformat isoformat post).

Lemma consumable_children op cs : pushable (Node op cs) = true -> Forall (fun c => pushable c = true) cs.
Proof. cbn. rewrite forallb_forall, Forall_forall. intros H c Hc. by apply H, list_elem_of_In. Qed.

(** A row of the table with the record decoded from it. *)
Definition covers_row (n : ast) (row : string -> cell) (r : record) : Prop :=
  stores isoformat ctx post row r /\ leaves_ok isoformat float_repr esc r n.

Section one_row.
Context (row : string -> cell) (r : record) (n : ast) (Hrow : covers_row n row r).
Context (c : cond atom) (binds : list value) (cells : list cell) (consumed : gset string) (slice : string).
Context (Hc : compiled n = Ok (MkCompiled (c, binds) consumed slice)) (Hb : bind_cells binds = Some cells).

Lemma compiled_node : exists s, Lance.compile_node isoformat float_repr esc ctx n ([], ∅) = Ok (c, (binds, s)).
Proof.
  clear -Hc. unfold compile_lance in Hc. destruct (Lance.compile_node _ _ _ _ n ([], ∅)) as [[e [l s]]|]; [|done].
  destruct (split_report _ _ _ _ _ _). injection Hc as -> -> _ _. by exists s.
Qed.

Lemma leaf_known p o v : Clause p o v ∈ leaves n ->
  gives binds (eval_atom row cells) (fun x => mode = Split /\ pushable (Clause p o v) = false /\ x = Some true \/
    forall y, verdict (Clause p o v) r = Ok y -> x = Some y) (clause p o v).
Proof.
  intros Hl. destruct Hrow as [Hst Hok]. apply yields_gives.
  eapply yields_weaken; [|by apply (clause_result fromisoformat isoformat float_repr esc ctx post iso_order row r Hst binds cells Hb), Hok].
  intros e [(H1 & H2 & ->)|Hd]; [by left|by right].
Qed.

Lemma row_kept : verdict n r = Ok true -> where_ row cells c = Some true.
Proof.
  intros Hv. destruct compiled_node as [s E].
  refine (node_keeping mode pushable clause atom_numbers binds (eval_atom row cells) (numbered_clause _ _ _ _)
    fromisoformat isoformat post r n consumable_children _ _ ([], ∅) c (binds, s) E _ Hv); [..|done].
  - intros p o v Hl s0 e s1 E0 Hp. destruct (leaf_known p o v Hl s0 e s1 E0 Hp) as [(_ & _ & H)|H]; [done|apply H].
  - intros p o v Hl Hm s0 e s1 E0 Hp. destruct (leaf_known p o v Hl s0 e s1 E0 Hp) as [(H1 & H2 & _)|H]; [|exact H].
    exfalso. destruct Hm as [Hm|Hm]; congruence.
Qed.

Lemma row_decided y : mode = Raise \/ pushable n = true -> verdict n r = Ok y -> where_ row cells c = Some y.
Proof.
  intros Hm Hv. destruct compiled_node as [s E].
  refine (node_exact mode pushable clause atom_numbers binds (eval_atom row cells) (numbered_clause _ _ _ _)
    fromisoformat isoformat post r n _ _ ([], ∅) c (binds, s) E _ y Hv); [..|done].
  - intros p o v Hl s0 e s1 E0 Hp. destruct (leaf_known p o v Hl s0 e s1 E0 Hp) as [(H1 & H2 & _)|H]; [|exact H].
    exfalso. destruct Hm as [Hm|Hm]; [congruence|].
    rewrite consumable_leaves, forallb_forall in Hm. apply list_elem_of_In, Hm in Hl. cbn in Hl, H2. congruence.
  - destruct Hm as [Hm|Hm]; [by left|right]. split; [apply consumable_children|done].
Qed.
End one_row.

(** The rows a statement selects; those whose record passes a predicate. *)
Definition selected (compiled_filter : CompiledFilter (cond atom * list value)) (row : (string -> cell) * record) : bool :=
  bool_decide (keeps (predicate compiled_filter) row.1 = Ok true).
Definition passes (p : pred) (row : (string -> cell) * record) : bool := bool_decide (p row.2 = Ok true).

Definition table : Type := list ((string -> cell) * record).

(** C3.  Push-down then re-check gives the answer, where the two read a leaf alike
    ([covers_row]): the rows the statement selects and the in-memory predicate of the whole
    filter then keeps are exactly the rows that predicate keeps, in their order; the
    statement never selects too few.  Each row stores its record, the driver takes the
    binds, and of every leaf and record: a system operand has the column's type; metadata
    segments hold no quote or backslash; a leaf that looks for an element does not meet an
    object, and no leaf that compares meets an integer beyond 64 bits or a non-finite float;
    an ordering has no datetime operand; an exact array and the stored one hold null,
    booleans, integers and strings, and are equal just when their texts are.  On the shapes
    left out the two differ, and rows are lost ([unmatched_shapes]). *)
Theorem recheck_gives_answer n compiled_filter checked (t : table) :
  compiled n = Ok compiled_filter -> is_Some (bind_cells (predicate compiled_filter).2) ->
  compile_python fromisoformat isoformat hash post n = Ok checked ->
  Forall (fun row => covers_row n row.1 row.2) t ->
  List.filter (passes (predicate checked)) (List.filter (selected compiled_filter) t) =
  List.filter (passes (predicate checked)) t.
Proof.
  intros Hc [cells Hb] Hp Ht. unfold compile_python in Hp.
  destruct (FilterPython.compile_node _ _ _ n ∅) as [[q s]|] eqn:E; [|done]. injection Hp as <-. cbn [predicate].
  destruct compiled_filter as [[c binds] consumed slice]. change (bind_cells binds = Some cells) in Hb.
  induction Ht as [|[row r] t Hrow _ IH]; [done|]. cbn [List.filter].
  assert (Hs : passes q (row, r) = true -> selected (MkCompiled (c, binds) consumed slice) (row, r) = true).
  { unfold passes, selected. rewrite !bool_decide_eq_true. cbn [predicate fst snd]. unfold keeps. cbn [fst snd]. rewrite Hb, (verdict_spec _ _ _ _ _ _ _ _ E).
    intros Hv. by rewrite (row_kept row r n Hrow c binds cells consumed slice Hc Hb Hv). }
  destruct (selected _ (row, r)); cbn [List.filter]; [by rewrite IH|].
  destruct (passes q (row, r)); [by discriminate Hs|done].
Qed.

(** C4.  Where nothing is deferred the re-check is redundant, on the leaf shapes the two read
    alike: on a row that [covers_row] admits - it stores its record; system operands have
    their column's type; metadata segments hold no quote or backslash; no leaf that looks
    for an element meets an object, and none that compares an integer beyond 64 bits or a
    non-finite float; no metadata ordering has a datetime operand; exact arrays and the
    stored ones hold null, booleans, integers and strings, and are equal just when their
    texts are - with binds that the driver takes, a statement of which every leaf is pushed (or a compiler that raises
    instead of deferring) decides exactly what the in-memory predicate decides.  Outside
    these shapes it does not: [EQ "x"] matches a stored object that has the member "x"
    ([unmatched_shapes]). *)
Theorem pushed_filter_decides n compiled_filter checked row r b :
  compiled n = Ok compiled_filter -> is_Some (bind_cells (predicate compiled_filter).2) ->
  mode = Raise \/ pushable n = true ->
  compile_python fromisoformat isoformat hash post n = Ok checked ->
  covers_row n row r -> predicate checked r = Ok b ->
  keeps (predicate compiled_filter) row = Ok b.
Proof.
  intros Hc [cells Hb] Hm Hp Hrow. unfold compile_python in Hp.
  destruct (FilterPython.compile_node _ _ _ n ∅) as [[q s]|] eqn:E; [|done]. injection Hp as <-. cbn [predicate].
  destruct compiled_filter as [[c binds] consumed slice].
  change (bind_cells binds = Some cells) in Hb. cbn [predicate]. rewrite (verdict_spec _ _ _ _ _ _ _ _ E).
  intros Hv. unfold keeps. cbn [fst snd]. rewrite Hb, (row_decided row r n Hrow c binds cells consumed slice Hc Hb b Hm Hv).
  by destruct b.
Qed.
End rows.
End answer.
End LanceAnswer.
