(* ===== verification/FilterSqliteSamples.v ===== *)
(** Concrete rows of the embedded store: an instance of the JSON functions, a table, the
    statements of its filters, and the cases where the statement and the in-memory
    predicate differ. *)
From S2P Require Import Prelude PyValue FilterModel FilterAst FilterPython FilterPythonFacts FilterSplit FilterSplitFacts.
From S2P Require Import FilterTarget FilterTargetFacts FilterSqlite FilterSqliteFacts FilterSqliteExact FilterSqliteAnswer.
From Stdlib Require Import Ascii.

Local Open Scope string_scope.
Local Open Scope list_scope.

Module LanceSamples.
Import Lance LanceFacts LanceExact LanceAnswer.

(** ** An order-preserving rendering of datetimes *)

Fixpoint bits (n : nat) (z : Z) : string :=
  match n with
  | O => ""
  | S n => String (if Z.testbit z (Z.of_nat n) then "1" else "0")%char (bits n z)
  end.

Lemma bits_step n a : (a mod 2 ^ Z.of_nat (S n) = a mod 2 ^ Z.of_nat n + 2 ^ Z.of_nat n * Z.b2z (Z.testbit a (Z.of_nat n)))%Z.
Proof.
  rewrite Nat2Z.inj_succ, Z.pow_succ_r, (Z.mul_comm 2) by lia.
  rewrite Z.rem_mul_r by lia. f_equal. f_equal. by rewrite Z.testbit_spec' by lia.
Qed.

Lemma bits_compare n a b :
  String.compare (bits n a) (bits n b) = Z.compare (a mod 2 ^ Z.of_nat n) (b mod 2 ^ Z.of_nat n).
Proof.
  induction n as [|n IH]; [by rewrite !Z.mod_1_r|]. rewrite !bits_step.
  assert (Ha : (0 <= a mod 2 ^ Z.of_nat n < 2 ^ Z.of_nat n)%Z) by (apply Z.mod_pos_bound; lia).
  assert (Hb : (0 <= b mod 2 ^ Z.of_nat n < 2 ^ Z.of_nat n)%Z) by (apply Z.mod_pos_bound; lia).
  cbn [bits String.compare]. destruct (Z.testbit a _), (Z.testbit b _); cbn [Z.b2z].
  - cbn. rewrite IH. destruct (Z.compare_spec (a mod 2 ^ Z.of_nat n) (b mod 2 ^ Z.of_nat n)); symmetry;
      [apply Z.compare_eq_iff|apply Z.compare_lt_iff|apply Z.compare_gt_iff]; lia.
  - symmetry. apply Z.compare_gt_iff. lia.
  - symmetry. apply Z.compare_lt_iff. lia.
  - cbn. rewrite IH. destruct (Z.compare_spec (a mod 2 ^ Z.of_nat n) (b mod 2 ^ Z.of_nat n)); symmetry;
      [apply Z.compare_eq_iff|apply Z.compare_lt_iff|apply Z.compare_gt_iff]; lia.
Qed.

Definition sample_iso (d : datetime) : string := bits 59 (dt_local d - dt_min)%Z.

Lemma sample_iso_order a b : utc_in_range a = true -> utc_in_range b = true ->
  String.compare (sample_iso a) (sample_iso b) = Z.compare (dt_local a) (dt_local b).
Proof.
  unfold utc_in_range, sample_iso. rewrite !andb_true_iff, !Z.leb_le. unfold dt_min, dt_max. intros [[_ H1] H2] [[_ H3] H4].
  rewrite bits_compare, !Z.mod_small by (change (2 ^ Z.of_nat 59)%Z with 576460752303423488%Z; lia).
  destruct (Z.compare_spec (dt_local a) (dt_local b)); [apply Z.compare_eq_iff|apply Z.compare_lt_iff|apply Z.compare_gt_iff]; lia.
Qed.

(** ** Paths *)

(** The quoted segments of a path; [cur] is the segment being read. *)
Fixpoint segments (cur : option string) (s : string) : list string :=
  match s with
  | EmptyString => []
  | String a s' =>
      if Nat.eqb (nat_of_ascii a) 34 then
        match cur with Some c => c :: segments None s' | None => segments (Some "") s' end
      else segments ((fun c => c +:+ String a "") <$> cur) s'
  end.

Lemma append_assoc s t u : ((s +:+ t) +:+ u)%string = (s +:+ (t +:+ u))%string.
Proof. induction s as [|b s IH]; [done|]. change (String b ((s +:+ t) +:+ u) = String b (s +:+ (t +:+ u)))%string. by rewrite IH. Qed.

Lemma append_nil s : (s +:+ "")%string = s.
Proof. induction s as [|b s IH]; [done|]. change (String b (s +:+ "") = String b s)%string. by rewrite IH. Qed.

Lemma segments_quoted s : forall cur rest, plain_segment s = true ->
  segments (Some cur) (escape_segment s +:+ String (ascii_of_nat 34) rest) = (cur +:+ s) :: segments None rest.
Proof.
  induction s as [|a s IH]; intros cur rest Hs; [by rewrite append_nil|].
  unfold plain_segment in Hs. cbn in Hs. apply andb_true_iff in Hs as [Ha Hs].
  unfold plain_char in Ha. apply negb_true_iff, orb_false_iff in Ha as [H1 H2].
  cbn [escape_segment]. rewrite H1, H2. cbn [orb].
  change (segments (Some cur) (String a (escape_segment s +:+ String (ascii_of_nat 34) rest)) = (cur +:+ String a s)%string :: segments None rest).
  cbn [segments]. rewrite H1. cbn [fmap option_fmap option_map]. rewrite IH by done. by rewrite append_assoc.
Qed.

Lemma segments_path segs : segs <> [] -> forallb plain_segment segs = true -> segments None (_jsonpath segs) = segs.
Proof.
  intros Hne Hs. unfold _jsonpath. change (segments None ("$." +:+ ?s)) with (segments None s).
  induction segs as [|s segs IH]; [done|]. cbn [forallb] in Hs. apply andb_true_iff in Hs as [H1 H2].
  assert (Hq : forall rest, segments None ((double_quote +:+ escape_segment s +:+ double_quote) +:+ rest) = s :: segments None rest).
  { intros rest. rewrite !append_assoc. change (segments (Some "") (escape_segment s +:+ String (ascii_of_nat 34) rest) = s :: segments None rest).
    by rewrite segments_quoted. }
  destruct segs as [|s' segs].
  - cbn [List.map str_join]. rewrite <- (append_nil (double_quote +:+ _)). by rewrite Hq.
  - cbn [List.map]. rewrite str_join_cons by done. rewrite Hq. f_equal. by apply IH.
Qed.

(** ** A table *)

Definition sample_repr (f : pyfloat) : string :=
  match f with FFin m 0 => pretty.pretty m +:+ ".0" | _ => "0.5" end.
Definition sample_esc (s : string) : string := double_quote +:+ s +:+ double_quote.

Fixpoint without_blanks (s : string) : string :=
  match s with
  | EmptyString => ""
  | String a s' => if Nat.eqb (nat_of_ascii a) 32 then without_blanks s' else String a (without_blanks s')
  end.

(** The metadata documents of the table, each under a name that stands for its text. *)
Definition documents : list (string * list (string * value)) :=
  [("scored", [("team", VStr "core"); ("score", VInt 7); ("tags", VList [VStr "a"; VStr "b"]);
               ("due", VStr "2024")]);
   ("late", [("team", VStr "core"); ("score", VInt 7); ("tags", VList [VStr "a"; VStr "b"]); ("due", VStr "soon")]);
   ("swapped", [("score", VInt 7); ("tags", VList [VStr "b"; VStr "a"]); ("due", VStr "2024")]);
   ("bare", []);
   ("nested", [("a", VDict [("b", VStr "x")])]);
   ("reals", [("a", VList [VFloat (FFin 1 0)])])].

#[local] Instance sample_json : Json1 := {|
  json_at t p := match dict_get t documents with Some blob => _md_dig blob (segments None p) | None => None end;
  compound_text := dumps sample_repr sample_esc;
  json_minify := without_blanks;
  real_of z := FFin z 0 |}.

Definition sample_ctx : TargetContext := LanceStore._filter_compile_ctx true None.
Definition sample_post : CompileContext := MkContext None Split.

Definition sample_record (occurred name : value) (doc : string) : record :=
  ObjRec [("occurred_at", occurred); ("source_name", name); ("metadata", VDict (default [] (dict_get doc documents)))] None.

Definition sample_row (occurred name : value) (doc : string) (column : string) : cell :=
  if String.eqb column "khora_chunks.occurred_at" then stored_cell sample_iso occurred
  else if String.eqb column "khora_chunks.source_name" then stored_cell sample_iso name
  else if String.eqb column "khora_chunks.metadata" then CText doc
  else CNull.

Lemma sample_stores occurred name doc : is_none occurred || typed "occurred_at" occurred = true ->
  is_none name || typed "source_name" name = true -> is_Some (dict_get doc documents) ->
  stores sample_iso sample_ctx sample_post (sample_row occurred name doc) (sample_record occurred name doc).
Proof.
  intros Ho Hn [blob Hd]. split.
  - intros key Hk _. apply mem_str_true in Hk.
    repeat (apply elem_of_cons in Hk as [->|Hk]; [by split|]). by apply elem_of_nil in Hk.
  - exists doc. split; [done|]. intros segs Hne Hs. cbn [json_at sample_json]. rewrite Hd, segments_path by done.
    change (_resolve_metadata (sample_record occurred name doc)) with (default [] (dict_get doc documents)). by rewrite Hd.
Qed.

Definition wiki := VStr "wiki".
Definition day (n : Z) : value := VDate (dt_utc (1700000000000000 + n * 86400000000)).

(** [{"source_name": {"$ne": "mail"}, "occurred_at": {"$gte": day 1}, "metadata.score": {"$gt": 5},
    "metadata.tags": ["a", "b"], "metadata.due": {"$date": ...}}] *)
Definition sample_filter : ast :=
  Node AND [Clause ["source_name"] NE (VStr "mail"); Clause ["occurred_at"] GTE (day 1);
            Clause ["metadata"; "score"] GT (VInt 5);
            Clause ["metadata"; "tags"] EQ (VTuple [VStr "a"; VStr "b"]);
            Node NOT [Clause ["metadata"; "tags"] IN (VTuple [VStr "c"])];
            Clause ["metadata"; "due"] GTE (VDateLit (dt_utc 5))].

Definition sample_table : table :=
  [(sample_row (day 2) wiki "scored", sample_record (day 2) wiki "scored");
   (sample_row (day 2) VNone "scored", sample_record (day 2) VNone "scored");
   (sample_row (day 2) wiki "late", sample_record (day 2) wiki "late");
   (sample_row (day 2) wiki "swapped", sample_record (day 2) wiki "swapped");
   (sample_row (day 0) wiki "scored", sample_record (day 0) wiki "scored");
   (sample_row VNone wiki "bare", sample_record VNone wiki "bare")].

Definition sample_fromiso (s : string) : option datetime := if String.eqb s "2024" then Some (dt_utc 9) else None.

Local Abbreviation sample_compile :=
  (compile_lance sample_iso sample_repr sample_esc sample_ctx (fun _ => 0%Z) (fun _ => "")).

Example sample_text : (fun cf => sql (predicate cf).1) <$> (match sample_compile (Node AND [Clause ["source_name"] NE (VStr "mail"); Clause ["metadata"; "score"] GT (VInt 5)]) with Ok cf => Some cf | Err _ => None end) =
  Some "((khora_chunks.source_name IS NULL OR khora_chunks.source_name <> ?) AND coalesce((json_type(khora_chunks.metadata, ?) IN ('integer', 'real') AND json_extract(khora_chunks.metadata, ?) > ?), 0))".
Proof. vm_compute. reflexivity. Qed.

Definition text_of (n : ast) : option string :=
  match sample_compile n with Ok cf => Some (sql (predicate cf).1) | Err _ => None end.

Example contains_text : text_of (Node AND [Clause ["metadata"; "team"] EQ (VStr "core")]) =
  Some "(coalesce((EXISTS(SELECT 1 FROM json_each(khora_chunks.metadata, ?) je WHERE je.value = ? AND je.type IN ('text'))), 0))".
Proof. vm_compute. reflexivity. Qed.

Example members_text : text_of (Node AND [Clause ["source_name"] NIN (VTuple [VStr "a"; VStr "b"])]) =
  Some "((khora_chunks.source_name IS NULL OR NOT khora_chunks.source_name IN (?, ?)))".
Proof. vm_compute. reflexivity. Qed.

Example null_text : text_of (Node NOT [Clause ["metadata"; "team"] EQ VNone]) =
  Some "(NOT ((json_type(khora_chunks.metadata, ?) IS NULL OR json_type(khora_chunks.metadata, ?) = 'null')))".
Proof. vm_compute. reflexivity. Qed.

Example array_text : text_of (Clause ["metadata"; "tags"] EQ (VTuple [VStr "a"])) =
  Some "coalesce((CASE WHEN json_type(khora_chunks.metadata, ?) = 'array' THEN json(json_extract(khora_chunks.metadata, ?)) = json(?) ELSE 0 END), 0)".
Proof. vm_compute. reflexivity. Qed.

(** A date on a metadata path is left out. *)
Example deferred_text : text_of (Node AND [Clause ["metadata"; "due"] GT (VDateLit (dt_utc 0)); Clause ["title"] EQ (VStr "t")]) =
  Some "(1 AND coalesce(khora_chunks.title = ?, 0))".
Proof. vm_compute. reflexivity. Qed.

Lemma sample_leaves occurred name doc : doc ∈ ["scored"; "late"; "swapped"; "bare"] ->
  leaves_ok sample_iso sample_repr sample_esc (sample_record occurred name doc) sample_filter.
Proof.
  intros Hdoc p o v Hl.
  repeat (apply elem_of_cons in Hl as [[= -> -> ->]|Hl]); [..|by apply elem_of_nil in Hl]; intros _.
  - by right.
  - done.
  - repeat (apply elem_of_cons in Hdoc as [->|Hdoc]; [by split_and!|]). by apply elem_of_nil in Hdoc.
  - repeat (apply elem_of_cons in Hdoc as [->|Hdoc];
      [first [by split|split; [done|split_and!; [done..|]; vm_compute; by split]]|]). by apply elem_of_nil in Hdoc.
  - repeat (apply elem_of_cons in Hdoc as [->|Hdoc]; [split; [done|split; [by eexists|done]]|]). by apply elem_of_nil in Hdoc.
  - repeat (apply elem_of_cons in Hdoc as [->|Hdoc]; [by split_and!|]). by apply elem_of_nil in Hdoc.
Qed.

Lemma sample_covers occurred name doc : doc ∈ ["scored"; "late"; "swapped"; "bare"] ->
  is_none occurred || typed "occurred_at" occurred = true -> is_none name || typed "source_name" name = true ->
  covers_row sample_iso sample_repr sample_esc sample_ctx sample_post sample_filter
    (sample_row occurred name doc) (sample_record occurred name doc).
Proof.
  intros Hdoc Ho Hn. split; [|by apply sample_leaves]. apply sample_stores; [done..|].
  repeat (apply elem_of_cons in Hdoc as [->|Hdoc]; [by eexists|]). by apply elem_of_nil in Hdoc.
Qed.

Definition get {A} (d : A) (r : result A) : A := match r with Ok a => a | Err _ => d end.
Definition sample_compiled : CompiledFilter (cond atom * list value) :=
  get (MkCompiled (Const true, []) ∅ "") (sample_compile sample_filter).
Definition sample_checked : CompiledFilter pred :=
  get (MkCompiled (const_pred true) ∅ "") (compile_python sample_fromiso sample_iso (fun _ => "") sample_post sample_filter).

(** The statement selects three rows, one of which the re-check drops. *)
Lemma recheck_gives_answer_witness :
  length (List.filter (selected sample_compiled) sample_table) = 3 /\
  length (List.filter (passes (predicate sample_checked)) sample_table) = 2 /\
  List.filter (passes (predicate sample_checked)) (List.filter (selected sample_compiled) sample_table) =
  List.filter (passes (predicate sample_checked)) sample_table.
Proof.
  split; [vm_compute; reflexivity|]. split; [vm_compute; reflexivity|].
  apply (recheck_gives_answer sample_fromiso sample_iso sample_repr sample_esc sample_ctx (fun _ => 0%Z) (fun _ => "")
    sample_post sample_iso_order sample_filter).
  - reflexivity.
  - eexists. vm_compute. reflexivity.
  - reflexivity.
  - repeat constructor; apply sample_stores || apply sample_leaves; try done; try (by eexists);
      apply (bool_decide_unpack _); vm_compute; exact I.
Defined.

(** A filter of which every leaf is pushed. *)
Definition pushed_filter : ast :=
  Node AND [Clause ["source_name"] NIN (VTuple [VStr "mail"; VStr "chat"]);
            Node NOT [Clause ["metadata"; "score"] GT (VInt 9)];
            Clause ["metadata"; "tags"] EQ (VStr "b")].

Lemma pushed_leaves occurred name : leaves_ok sample_iso sample_repr sample_esc (sample_record occurred name "scored") pushed_filter.
Proof.
  intros p o v Hl. repeat (apply elem_of_cons in Hl as [[= -> -> ->]|Hl]); [..|by apply elem_of_nil in Hl]; intros _.
  - by eexists.
  - by split_and!.
  - by split.
Qed.

(** A NULL column passes [$nin] in the statement as in memory. *)
Lemma pushed_filter_decides_witness :
  keeps (predicate (get (MkCompiled (Const false, []) ∅ "") (sample_compile pushed_filter))) (sample_row VNone VNone "scored") = Ok true.
Proof.
  apply (pushed_filter_decides sample_fromiso sample_iso sample_repr sample_esc sample_ctx (fun _ => 0%Z) (fun _ => "")
    sample_post sample_iso_order pushed_filter _
    (get (MkCompiled (const_pred true) ∅ "") (compile_python sample_fromiso sample_iso (fun _ => "") sample_post pushed_filter))
    _ (sample_record VNone VNone "scored")).
  - reflexivity.
  - eexists. vm_compute. reflexivity.
  - right. reflexivity.
  - reflexivity.
  - split; [apply sample_stores; try done; by eexists|apply pushed_leaves].
  - vm_compute. reflexivity.
Defined.

Definition pushed_compiled : CompiledFilter (cond atom * list value) :=
  get (MkCompiled (Const false, []) ∅ "") (sample_compile pushed_filter).

(** On a row of another shape: numbers where texts are expected, no metadata. *)
Lemma conditions_known_witness : exists b, 
  where_ (fun _ => CNum (FFin 3 0)) (default [] (bind_cells (predicate pushed_compiled).2)) (predicate pushed_compiled).1 = Some b.
Proof.
  apply (conditions_known sample_iso sample_repr sample_esc sample_ctx (fun _ => 0%Z) (fun _ => "") pushed_filter pushed_compiled).
  - reflexivity.
  - intros p o v Hl. repeat (apply elem_of_cons in Hl as [[= -> -> ->]|Hl]); [..|by apply elem_of_nil in Hl]; [by eexists|done..].
  - vm_compute. reflexivity.
Defined.

Lemma binds_in_text_order_witness : numbers (predicate pushed_compiled).1 = seq 0 7.
Proof.
  exact (binds_in_text_order sample_iso sample_repr sample_esc sample_ctx (fun _ => 0%Z) (fun _ => "") pushed_filter
    (predicate pushed_compiled).1 (predicate pushed_compiled).2 (consumed_keys pushed_compiled) (FilterPython.consumed_slice_hash pushed_compiled) eq_refl).
Defined.

Lemma text_ignores_values_witness :
  let injected := Node AND [Clause ["metadata"; "x') OR 1 --"] EQ (VStr "' OR '1'='1")] in
  match sample_compile injected, sample_compile (erase injected) with
  | Ok cf, Ok cf' => sql (predicate cf).1 = sql (predicate cf').1 /\ length (predicate cf).2 = length (predicate cf').2
  | Err _, Err _ => True
  | _, _ => False
  end.
Proof.
  apply (text_ignores_values sample_iso sample_repr sample_esc sample_ctx (fun _ => 0%Z) (fun _ => "") (fun _ => 0%Z) (fun _ => "")).
  constructor; [|constructor]. done.
Defined.

(** ** Where they differ *)

Definition decide_on (n : ast) (doc : string) : result bool * result bool :=
  match compile_python sample_fromiso sample_iso (fun _ => "") sample_post n, sample_compile n with
  | Ok p, Ok cf => (predicate p (sample_record VNone wiki doc), keeps (predicate cf) (sample_row VNone wiki doc))
  | _, _ => (Err ValueError, Err ValueError)
  end.

(** The statement and the in-memory predicate differ on shapes the comparison above
    leaves out.  [json_each] walks the members of an object, so [$ne] and [$nin] drop a
    record whose node is an object with that member value (and [$eq] and [$in] keep it);
    an exact array is compared as text, so [[1]] is not the stored [[1.0]]; and a list
    operand of [$eq] is bound as it is, which the driver refuses, for every row. *)
Theorem unmatched_shapes :
  decide_on (Node AND [Clause ["metadata"; "a"] NE (VStr "x")]) "nested" = (Ok true, Ok false) /\
  decide_on (Node AND [Clause ["metadata"; "a"] NIN (VTuple [VStr "x"])]) "nested" = (Ok true, Ok false) /\
  decide_on (Node AND [Clause ["metadata"; "a"] EQ (VStr "x")]) "nested" = (Ok false, Ok true) /\
  decide_on (Node AND [Clause ["metadata"; "a"] EQ (VTuple [VInt 1])]) "reals" = (Ok true, Ok false) /\
  decide_on (Node AND [Clause ["metadata"; "a"] EQ (VList [VStr "x"])]) "bare" = (Ok false, Err (OtherError "InterfaceError")) /\
  stores sample_iso sample_ctx sample_post (sample_row VNone wiki "nested") (sample_record VNone wiki "nested") /\
  stores sample_iso sample_ctx sample_post (sample_row VNone wiki "reals") (sample_record VNone wiki "reals").
Proof. split_and!; try (vm_compute; reflexivity); apply sample_stores; try done; by eexists. Qed.
End LanceSamples.
