(* ===== verification/DreamMirror.v ===== *)
(** The dream phase's two stores ([dream/engines/vectorcypher/], [dream/graph_mirror.py]): the
    handlers that soft-delete and merge rows of the relational store, what they record for
    undo, the translation of that record into the graph, its persisted form, and the way
    back.  The graph verbs are those of [storage/backends/neo4j.py].

    A UUID is an integer; where the code keeps its text in a record or a payload, so does
    the model.  An edge of the graph is found by its [id] property, which is taken to be
    unique; a statement that rewrites edges is run row by row, which is what it does when
    its rows name different edges. *)
From S2P Require Import Prelude PyValue FilterAst FilterPython ReplaceMirror RankFusion Scoring.

Local Open Scope string_scope.
Local Open Scope list_scope.
Local Open Scope Z_scope.

(** ** The relational store *)

Record EntityRow := MkEntity {
  ent_namespace_id : Z; ent_valid_until : option datetime; ent_updated_at : datetime }.

Record RelationshipRow := MkRelationship {
  rel_namespace_id : Z; rel_source : Z; rel_target : Z; rel_type : option string;
  rel_confidence : option pyfloat; rel_valid_to : option datetime;
  rel_invalidated_at : option datetime; rel_invalidated_by : option Z;
  rel_updated_at : datetime }.

Record Db := MkDb { entities : gmap Z EntityRow; relationships : gmap Z RelationshipRow }.

(** [UPDATE relationships ... WHERE id = :rid], and the same for entities. *)
Definition update_relationship (f : RelationshipRow -> RelationshipRow) (i : Z) (db : Db) : Db :=
  MkDb (entities db) (alter f i (relationships db)).

Definition update_entity (f : EntityRow -> EntityRow) (i : Z) (db : Db) : Db :=
  MkDb (alter f i (entities db)) (relationships db).

Definition retire_entity (t : option datetime) (now : datetime) (e : EntityRow) : EntityRow :=
  MkEntity (ent_namespace_id e) t now.

Definition prune (now : datetime) (r : RelationshipRow) : RelationshipRow :=
  MkRelationship (rel_namespace_id r) (rel_source r) (rel_target r) (rel_type r) (rel_confidence r)
    (Some now) (rel_invalidated_at r) (rel_invalidated_by r) now.

Definition invalidate (at_ : option datetime) (by_ : option Z) (r : RelationshipRow) : RelationshipRow :=
  MkRelationship (rel_namespace_id r) (rel_source r) (rel_target r) (rel_type r) (rel_confidence r)
    (rel_valid_to r) at_ by_ (rel_updated_at r).

Definition move (src tgt : Z) (now : datetime) (r : RelationshipRow) : RelationshipRow :=
  MkRelationship (rel_namespace_id r) src tgt (rel_type r) (rel_confidence r)
    (rel_valid_to r) (rel_invalidated_at r) (rel_invalidated_by r) now.

(** ** Operations and what undo needs of them *)

Definition PRUNE_EDGES : string := "vectorcypher_prune_edges".
Definition DEDUPE_ENTITIES : string := "vectorcypher_dedupe_entities".
Definition CONTRADICTION_RECONCILE : string := "vectorcypher_contradiction_reconcile".
Definition COMMUNITY_SUMMARY : string := "vectorcypher_community_summary".

Record DreamOp := MkOp {
  op_id : Z; op_type : string; op_inputs : list value; op_outputs : list value; op_decision : string }.

Record UndoRecord := MkUndo {
  u_op_id : Z; u_op_type : string; u_before : list (string * value); u_applied_at : datetime }.

(** [d.get(key)] on a value that should be a dict. *)
Definition attr_get (v : value) (key : string) : result value :=
  match v with
  | VDict d => Ok (default VNone (dict_get key d))
  | _ => Err AttributeError
  end.

(** [for x in d.get(key) or []] *)
Definition items (v : value) (key : string) : result (list value) :=
  match v with VDict d => py_iter (get_or_empty d key) | _ => Err AttributeError end.

(** A left fold that may raise. *)
Fixpoint fold_r {A S} (f : S -> A -> result S) (s : S) (l : list A) : result S :=
  match l with [] => Ok s | x :: l' => s ← f s x; fold_r f s l' end.

Section dream.
(** [str(uuid)], [UUID(s)], [str] of a value that is not a string, and the text form of a
    datetime, and [int(s)]. *)
Context (uuid_str : Z -> string) (parse_uuid : string -> option Z) (str_other : value -> string).
Context (isoformat : datetime -> string) (fromisoformat : string -> option datetime).
Context (int_of_str : string -> option Z).
(** The order in which a statement returns its rows, and in which a set of ids iterates. *)
Context (row_order : list (Z * RelationshipRow) -> list (Z * RelationshipRow)).
Context (set_iter : gset Z -> list Z).

Definition VUuid (u : Z) : value := VStr (uuid_str u).

(** [_coerce_uuid] *)
Definition _coerce_uuid (v : value) : option Z :=
  match v with VNone => None | _ => parse_uuid (py_str str_other v) end.

Definition opt_text (o : option string) : value := match o with Some s => VStr s | None => VNone end.

(** [str(x or "")] *)
Definition text_or_empty (v : value) : string := if truthy v then py_str str_other v else "".

(** *** [prune_edges] *)

Definition noop (op : DreamOp) (now : datetime) : UndoRecord :=
  MkUndo (op_id op) (op_type op) [("noop", VBool true)] now.

Definition apply_vectorcypher_prune_edges (op : DreamOp) (now : datetime) (db : Db)
  : result (UndoRecord * Db) :=
  inputs ← match op_inputs op with x :: _ => Ok x | [] => Err IndexError end;
  v ← subscript inputs "relationship_id";
  rel_id ← UUID_of parse_uuid str_other v;
  match relationships db !! rel_id with
  | None => Ok (noop op now, db)
  | Some row =>
      match rel_valid_to row with
      | Some _ => Ok (noop op now, db)
      | None =>
          Ok (MkUndo (op_id op) (op_type op)
                [("relationships", VList [VDict
                   [("relationship_id", VUuid rel_id);
                    ("previous_confidence", VFloat (default (FFin 1 0) (rel_confidence row)));
                    ("previous_valid_to", VNone)]])] now,
              update_relationship (prune now) rel_id db)
      end
  end.

(** *** [dedupe_entities] *)

Definition touches (a : Z) (r : RelationshipRow) : bool :=
  ((rel_source r =? a) || (rel_target r =? a)) && bool_decide (rel_invalidated_at r = None).

Definition _select_relationships_touching (a : Z) (db : Db) : list (Z * RelationshipRow) :=
  row_order (map_to_list (filter (fun kv => touches a kv.2 = true) (relationships db))).

(** [canonical_id if x == absorbed_id else x] *)
Definition repoint (a c x : Z) : Z := if x =? a then c else x.

Definition self_loop (a c : Z) (row : RelationshipRow) : bool :=
  repoint a c (rel_source row) =? repoint a c (rel_target row).

Definition merge_row (opid : Z) (now : datetime) (a c : Z) (db : Db) (kr : Z * RelationshipRow) : Db :=
  let '(i, row) := kr in
  update_relationship
    (if self_loop a c row then invalidate (Some now) (Some opid)
     else move (repoint a c (rel_source row)) (repoint a c (rel_target row)) now) i db.

Definition previous_relationship (kr : Z * RelationshipRow) : value :=
  VDict [("id", VUuid kr.1); ("source_entity_id", VUuid (rel_source kr.2));
         ("target_entity_id", VUuid (rel_target kr.2)); ("relationship_type", opt_text (rel_type kr.2))].

Definition merge_record (c a : Z) (rows : list (Z * RelationshipRow)) (verifier : option value)
    (applied : bool) : value :=
  let loops := List.filter (fun kr => self_loop a c kr.2) rows in
  VDict ([("canonical_id", VUuid c); ("absorbed_id", VUuid a);
          ("previous_relationships", VList (List.map previous_relationship rows));
          ("self_loops_invalidated", VList (List.map (fun kr => VUuid kr.1) loops));
          ("applied", VBool applied)]
         ++ match verifier with Some v => [("verifier", v)] | None => [] end).

(** [_maybe_run_verifier]: [None] when the judges are not asked, else their decision and
    the record of it. *)
Context (verify : value -> Z -> Z -> option (string * value)).

Definition retire_absorbed (now : datetime) (e : EntityRow) : EntityRow :=
  match ent_valid_until e with None => retire_entity (Some now) now e | Some _ => e end.

Definition apply_merge (opid : Z) (now : datetime) (st : Db * list value) (entry : value)
  : result (Db * list value) :=
  let '(db, merges) := st in
  cv ← subscript entry "canonical_id";
  c ← UUID_of parse_uuid str_other cv;
  av ← subscript entry "absorbed_id";
  a ← UUID_of parse_uuid str_other av;
  let verdict := verify entry c a in
  let verifier := snd <$> verdict in
  if match verdict with Some (decision, _) => negb (String.eqb decision "merge") | None => false end then
    Ok (db, merges ++ [merge_record c a [] verifier false])
  else
    let rows := _select_relationships_touching a db in
    let db := foldl (merge_row opid now a c) db rows in
    let db := update_entity (retire_absorbed now) a db in
    Ok (db, merges ++ [merge_record c a rows verifier true]).

Definition apply_vectorcypher_dedupe_entities (op : DreamOp) (now : datetime) (db : Db)
  : result (UndoRecord * Db) :=
  let outputs := match op_outputs op with x :: _ => x | [] => VDict [] end in
  merges_input ← items outputs "merges";
  '(db, merges) ← fold_r (apply_merge (op_id op) now) (db, []) merges_input;
  Ok (MkUndo (op_id op) (op_type op) [("merges", VList merges)] now, db).

(** [reverse_vectorcypher_dedupe_entities], from an entry of the undo file: its [op_id] and
    its [before].  It answers whether a row was restored. *)
Definition reverse_previous (now : datetime) (st : bool * Db) (prev : value) : result (bool * Db) :=
  let '(changed, db) := st in
  iv ← attr_get prev "id";
  sv ← attr_get prev "source_entity_id";
  tv ← attr_get prev "target_entity_id";
  match _coerce_uuid iv, _coerce_uuid sv, _coerce_uuid tv with
  | Some i, Some src, Some tgt =>
      Ok (changed || bool_decide (is_Some (relationships db !! i)),
          update_relationship (move src tgt now) i db)
  | _, _, _ => Ok st
  end.

Definition reactivate (op_uuid : option Z) (r : RelationshipRow) : RelationshipRow :=
  match op_uuid with
  | Some u => if bool_decide (rel_invalidated_by r = Some u) then invalidate None None r else r
  | None => invalidate None None r
  end.

Definition reverse_self_loop (op_uuid : option Z) (st : bool * Db) (v : value) : result (bool * Db) :=
  let '(changed, db) := st in
  match _coerce_uuid v with
  | None => Ok st
  | Some i =>
      let hit := match relationships db !! i with
                 | Some r => match op_uuid with
                             | Some u => bool_decide (rel_invalidated_by r = Some u)
                             | None => true
                             end
                 | None => false
                 end in
      Ok (changed || hit, update_relationship (reactivate op_uuid) i db)
  end.

Definition revive (e : EntityRow) : EntityRow := MkEntity (ent_namespace_id e) None (ent_updated_at e).

Definition reverse_merge (op_uuid : option Z) (now : datetime) (st : bool * Db) (merge : value)
  : result (bool * Db) :=
  let '(changed, db) := st in
  applied ← match merge with
            | VDict d => Ok (match dict_get "applied" d with Some v => truthy v | None => true end)
            | _ => Err AttributeError
            end;
  if negb applied then Ok st
  else
    av ← attr_get merge "absorbed_id";
    cv ← attr_get merge "canonical_id";
    match _coerce_uuid av, _coerce_uuid cv with
    | Some a, Some _ =>
        let hit := match entities db !! a with
                   | Some e => bool_decide (is_Some (ent_valid_until e))
                   | None => false
                   end in
        prevs ← items merge "previous_relationships";
        st ← fold_r (reverse_previous now) (changed || hit, update_entity revive a db) prevs;
        loops ← items merge "self_loops_invalidated";
        fold_r (reverse_self_loop op_uuid) st loops
    | _, _ => Ok st
    end.

Definition reverse_vectorcypher_dedupe_entities (opid : value) (before : list (string * value))
    (now : datetime) (db : Db) : result (bool * Db) :=
  merges ← items (VDict before) "merges";
  fold_r (reverse_merge (_coerce_uuid opid) now) (false, db) merges.

(** ** From an undo record to the graph ([dream/graph_mirror.py]) *)

(** An endpoint rewrite; the code keeps the ids as text. *)
Record Rewrite := MkRewrite { rw_id : Z; rw_source : Z; rw_target : Z; rw_type : string }.

Record Targets := MkTargets {
  retire_entity_ids : list Z;
  invalidate_relationship_ids : list Z;
  rewrite_relationships : list Rewrite }.

Record CommunityNode := MkCommunity {
  cm_id : Z; cm_summary : string; cm_member_ids : list Z; cm_summary_depth : Z }.

(** The ids a list of rows names under [key]. *)
Definition coerced_ids (key : string) (rows : list value) : result (list Z) :=
  extend_m (fun row => v ← attr_get row key; Ok (option_list (_coerce_uuid v))) rows.

(** [absorbed_to_canonical]: the last merge of an id wins. *)
Definition remap_entry (m : gmap Z Z) (merge : value) : result (gmap Z Z) :=
  av ← attr_get merge "absorbed_id";
  cv ← attr_get merge "canonical_id";
  Ok match _coerce_uuid av, _coerce_uuid cv with Some a, Some c => <[a := c]> m | _, _ => m end.

Definition resolve (m : gmap Z Z) (x : Z) : Z := default x (m !! x).

(** The relationship type [str(prev.get("relationship_type") or "")]. *)
Definition mirror_previous (m : gmap Z Z) (loops : gset Z) (acc : list Z * list Rewrite) (prev : value)
  : result (list Z * list Rewrite) :=
  let '(inv, rws) := acc in
  iv ← attr_get prev "id";
  sv ← attr_get prev "source_entity_id";
  tv ← attr_get prev "target_entity_id";
  ty ← attr_get prev "relationship_type";
  match _coerce_uuid iv, _coerce_uuid sv, _coerce_uuid tv with
  | Some i, Some src, Some tgt =>
      if bool_decide (i ∈ loops) then Ok acc
      else
        let new_src := resolve m src in
        let new_tgt := resolve m tgt in
        if new_src =? new_tgt then Ok (inv ++ [i], rws)
        else if (new_src =? src) && (new_tgt =? tgt) then Ok acc
        else Ok (inv, rws ++ [MkRewrite i new_src new_tgt (text_or_empty ty)])
  | _, _, _ => Ok acc
  end.

Definition mirror_merge (m : gmap Z Z) (t : Targets) (merge : value) : result Targets :=
  av ← attr_get merge "absorbed_id";
  loop_values ← items merge "self_loops_invalidated";
  let loops : gset Z := list_to_set (omap _coerce_uuid loop_values) in
  prevs ← items merge "previous_relationships";
  '(inv, rws) ← fold_r (mirror_previous m loops)
    (invalidate_relationship_ids t ++ set_iter loops, rewrite_relationships t) prevs;
  Ok (MkTargets (retire_entity_ids t ++ option_list (_coerce_uuid av)) inv rws).

(** [[m for m in before.get("merges") or [] if m.get("applied")]] *)
Definition applied_merges (before : value) : result (list value) :=
  merges ← items before "merges";
  extend_m (fun m => a ← attr_get m "applied"; Ok (if truthy a then [m] else [])) merges.

Definition extract_mirror_targets (op_type : string) (before : list (string * value)) : result Targets :=
  if mem_str op_type [PRUNE_EDGES; CONTRADICTION_RECONCILE] then
    rows ← items (VDict before) "relationships";
    ids ← coerced_ids "relationship_id" rows;
    Ok (MkTargets [] ids [])
  else if String.eqb op_type DEDUPE_ENTITIES then
    applied ← applied_merges (VDict before);
    m ← fold_r remap_entry ∅ applied;
    fold_r (mirror_merge m) (MkTargets [] [] []) applied
  else Ok (MkTargets [] [] []).

(** [int(x or 1)] *)
Definition depth_of (v : value) : result Z := py_int int_of_str (if truthy v then v else VInt 1).

Definition extract_community_targets (op_type : string) (before : list (string * value))
  : result (list CommunityNode) :=
  if negb (String.eqb op_type COMMUNITY_SUMMARY) then Ok []
  else if truthy (default VNone (dict_get "noop" before)) then Ok []
  else
    match _coerce_uuid (default VNone (dict_get "community_id" before)) with
    | None => Ok []
    | Some cid =>
        members ← items (VDict before) "member_ids";
        depth ← depth_of (default VNone (dict_get "summary_depth" before));
        Ok [MkCommunity cid (text_or_empty (default VNone (dict_get "summary_text" before)))
              (omap _coerce_uuid members) depth]
    end.

(** *** The persisted payload *)

Definition rewrite_json (r : Rewrite) : value :=
  VDict [("relationship_id", VUuid (rw_id r)); ("source_entity_id", VUuid (rw_source r));
         ("target_entity_id", VUuid (rw_target r)); ("relationship_type", VStr (rw_type r))].

Definition community_json (c : CommunityNode) : value :=
  VDict [("id", VUuid (cm_id c)); ("summary", VStr (cm_summary c));
         ("member_ids", VList (List.map VUuid (cm_member_ids c)));
         ("summary_depth", VInt (cm_summary_depth c))].

Definition mirror_payload (op : DreamOp) (undo : UndoRecord) : result (list (string * value)) :=
  t ← extract_mirror_targets (op_type op) (u_before undo);
  communities ← extract_community_targets (op_type op) (u_before undo);
  Ok [("retire_entity_ids", VList (List.map VUuid (retire_entity_ids t)));
      ("invalidate_relationship_ids", VList (List.map VUuid (invalidate_relationship_ids t)));
      ("rewrite_relationships", VList (List.map rewrite_json (rewrite_relationships t)));
      ("communities", VList (List.map community_json communities));
      ("applied_at", VStr (isoformat (u_applied_at undo)))].

Definition rewrite_from (row : value) : result (list Rewrite) :=
  iv ← attr_get row "relationship_id";
  sv ← attr_get row "source_entity_id";
  tv ← attr_get row "target_entity_id";
  ty ← attr_get row "relationship_type";
  Ok match _coerce_uuid iv, _coerce_uuid sv, _coerce_uuid tv with
     | Some i, Some src, Some tgt => [MkRewrite i src tgt (text_or_empty ty)]
     | _, _, _ => []
     end.

Definition targets_from_payload (payload : list (string * value)) : result Targets :=
  rows ← items (VDict payload) "rewrite_relationships";
  rewrites ← extend_m rewrite_from rows;
  retire ← items (VDict payload) "retire_entity_ids";
  inv ← items (VDict payload) "invalidate_relationship_ids";
  Ok (MkTargets (omap _coerce_uuid retire) (omap _coerce_uuid inv) rewrites).

Definition community_from (entry : value) : result (list CommunityNode) :=
  iv ← attr_get entry "id";
  match _coerce_uuid iv with
  | None => Ok []
  | Some cid =>
      members ← items entry "member_ids";
      sv ← attr_get entry "summary";
      dv ← attr_get entry "summary_depth";
      depth ← depth_of dv;
      Ok [MkCommunity cid (text_or_empty sv) (omap _coerce_uuid members) depth]
  end.

Definition communities_from_payload (payload : list (string * value)) : result (list CommunityNode) :=
  rows ← items (VDict payload) "communities";
  extend_m community_from rows.

Definition _parse_applied_at (payload : list (string * value)) (fallback : datetime) : datetime :=
  let raw := default VNone (dict_get "applied_at" payload) in
  if truthy raw then default fallback (fromisoformat (py_str str_other raw)) else fallback.

(** *** The way back *)

Record ReverseTargets := MkReverse {
  restore_entity_ids : list Z;
  restore_relationship_ids : list Z;
  restore_endpoints : list Rewrite }.

Definition pre_endpoint (m : gmap Z Rewrite) (prev : value) : result (gmap Z Rewrite) :=
  iv ← attr_get prev "id";
  sv ← attr_get prev "source_entity_id";
  tv ← attr_get prev "target_entity_id";
  ty ← attr_get prev "relationship_type";
  Ok match _coerce_uuid iv, _coerce_uuid sv, _coerce_uuid tv with
     | Some i, Some src, Some tgt => <[i := MkRewrite i src tgt (text_or_empty ty)]> m
     | _, _, _ => m
     end.

Definition pre_endpoints (m : gmap Z Rewrite) (merge : value) : result (gmap Z Rewrite) :=
  match merge with
  | VDict d =>
      if match dict_get "applied" d with Some v => truthy v | None => true end then
        prevs ← items merge "previous_relationships";
        fold_r pre_endpoint m prevs
      else Ok m
  | _ => Err AttributeError
  end.

Definition extract_unmirror_targets (op_type : string) (before : list (string * value))
  : result ReverseTargets :=
  forward ← extract_mirror_targets op_type before;
  let rewritten : gset Z := list_to_set (rw_id <$> rewrite_relationships forward) in
  pre ← if String.eqb op_type DEDUPE_ENTITIES then
          merges ← items (VDict before) "merges";
          fold_r pre_endpoints ∅ merges
        else Ok (∅ : gmap Z Rewrite);
  Ok (MkReverse (retire_entity_ids forward) (invalidate_relationship_ids forward)
        (omap (fun i => pre !! i) (set_iter rewritten))).

(** ** The graph ([storage/backends/neo4j.py]) *)

(** An [:Entity] node, with the stamps of the [:EntityVersion] snapshots it supersedes. *)
Record Node := MkNode {
  n_namespace_id : Z; n_valid_until : option datetime;
  n_version_valid_to : option datetime; n_versions : list datetime }.

Record Edge := MkEdge {
  e_namespace_id : Z; e_source : Z; e_target : Z; e_label : string; e_valid_until : option datetime }.

Record Community := MkCommunityNode {
  c_summary : string; c_depth : Z; c_member_ids : list Z; c_has_member : gset Z }.

Record Graph := MkGraph {
  nodes : gmap Z Node; edges : gmap Z Edge; communities : gmap (Z * Z) Community }.

Definition with_nodes (n : gmap Z Node) (g : Graph) : Graph := MkGraph n (edges g) (communities g).
Definition with_edges (e : gmap Z Edge) (g : Graph) : Graph := MkGraph (nodes g) e (communities g).

Definition set_valid_until (t : option datetime) (e : Edge) : Edge :=
  MkEdge (e_namespace_id e) (e_source e) (e_target e) (e_label e) t.

Definition live_edge (ns : Z) (e : Edge) : bool :=
  (e_namespace_id e =? ns) && bool_decide (e_valid_until e = None).

Definition live_node (ns : Z) (n : Node) : bool :=
  (n_namespace_id n =? ns) && bool_decide (n_valid_until n = None).

(** The ids of a list whose row satisfies a condition: what a statement matches before it
    writes. *)
Definition matched {R} (p : R -> bool) (t : gmap Z R) (ids : list Z) : list Z :=
  List.filter (fun i => match t !! i with Some r => p r | None => false end) ids.

Definition update_all {R} (f : R -> R) (ids : list Z) (t : gmap Z R) : gmap Z R :=
  foldl (fun t i => alter f i t) t ids.

Definition soft_invalidate_relationships_batch (ids : list Z) (ns : Z) (t : datetime) (g : Graph) : Graph :=
  with_edges (update_all (set_valid_until (Some t)) (matched (live_edge ns) (edges g) ids) (edges g)) g.

Definition retire_node (t : datetime) (n : Node) : Node :=
  MkNode (n_namespace_id n) (Some t) (Some t) (n_versions n ++ [t]).

Definition soft_retire_entities_batch (ids : list Z) (ns : Z) (t : datetime) (g : Graph) : Graph :=
  with_nodes (update_all (retire_node t) (matched (live_node ns) (nodes g) ids) (nodes g)) g.

Definition in_namespace (ns i : Z) (g : Graph) : bool :=
  match nodes g !! i with Some n => n_namespace_id n =? ns | None => false end.

(** One row of a rewrite statement for [label]: the stale edge is deleted and created again
    between the new endpoints, with its properties. *)
Definition rewrite_edge (label : string) (ns : Z) (r : Rewrite) (e : Edge) : Edge :=
  if (e_namespace_id e =? ns) && String.eqb (e_label e) label
     && negb ((e_source e =? rw_source r) && (e_target e =? rw_target r))
  then MkEdge (e_namespace_id e) (rw_source r) (rw_target r) label (e_valid_until e)
  else e.

Definition rewrite_row (label : string) (ns : Z) (g : Graph) (r : Rewrite) : Graph :=
  if in_namespace ns (rw_source r) g && in_namespace ns (rw_target r) g then
    with_edges (alter (rewrite_edge label ns r) (rw_id r) (edges g)) g
  else g.

(** [by_label]: the rewrites of each sanitized label, labels sorted. *)
Definition by_label (rewrites : list Rewrite) : list (string * list Rewrite) :=
  let label := fun r => sanitize_cypher_label (rw_type r) in
  List.map (fun l => (l, List.filter (fun r => String.eqb (label r) l) rewrites))
    (sort_by (fun l => l) (remove_dups (label <$> rewrites))).

Definition rewrite_label_batch (label : string) (rows : list Rewrite) (ns : Z) (g : Graph) : Graph :=
  foldl (rewrite_row label ns) g rows.

Definition restore_relationships_batch (ids : list Z) (ns : Z) (g : Graph) : Graph :=
  with_edges (update_all (set_valid_until None)
    (matched (fun e => (e_namespace_id e =? ns) && negb (bool_decide (e_valid_until e = None))) (edges g) ids)
    (edges g)) g.

Definition restore_node (n : Node) : Node :=
  MkNode (n_namespace_id n) None None
    (List.filter (fun t => negb (bool_decide (Some t = n_version_valid_to n))) (n_versions n)).

Definition restore_entities_batch (ids : list Z) (ns : Z) (g : Graph) : Graph :=
  with_nodes (update_all restore_node
    (matched (fun n => (n_namespace_id n =? ns)
       && (bool_decide (is_Some (n_valid_until n)) || bool_decide (is_Some (n_version_valid_to n))))
       (nodes g) ids) (nodes g)) g.

Definition materialize_community (ns : Z) (g : Graph) (c : CommunityNode) : Graph :=
  let members := List.filter (fun m => in_namespace ns m g) (cm_member_ids c) in
  let old := default ∅ (c_has_member <$> communities g !! (cm_id c, ns)) in
  MkGraph (nodes g) (edges g)
    (<[(cm_id c, ns) := MkCommunityNode (cm_summary c) (cm_summary_depth c) (cm_member_ids c)
                          (old ∪ list_to_set members)]> (communities g)).

Definition materialize_communities_batch (cs : list CommunityNode) (ns : Z) (g : Graph) : Graph :=
  foldl (materialize_community ns) g cs.

(** *** Driving the verbs *)

(** The transactions of [apply_mirror_targets], in order.  An empty list of ids makes no
    call. *)
Definition nonempty_call {A} (l : list A) (f : Graph -> Graph) : list (Graph -> Graph) :=
  match l with [] => [] | _ => [f] end.

Definition rewrite_relationship_endpoints_batch (rewrites : list Rewrite) (ns : Z) : list (Graph -> Graph) :=
  List.map (fun '(l, rows) => rewrite_label_batch l rows ns) (by_label rewrites).

Definition apply_mirror_targets (t : Targets) (ns : Z) (stamp_at : datetime) (cs : list CommunityNode)
  : list (Graph -> Graph) :=
  rewrite_relationship_endpoints_batch (rewrite_relationships t) ns
  ++ nonempty_call (invalidate_relationship_ids t)
       (soft_invalidate_relationships_batch (invalidate_relationship_ids t) ns stamp_at)
  ++ nonempty_call (retire_entity_ids t) (soft_retire_entities_batch (retire_entity_ids t) ns stamp_at)
  ++ nonempty_call cs (materialize_communities_batch cs ns).

Definition apply_mirror_payload (payload : list (string * value)) (ns : Z) (fallback : datetime)
  : result (list (Graph -> Graph)) :=
  t ← targets_from_payload payload;
  cs ← communities_from_payload payload;
  Ok (apply_mirror_targets t ns (_parse_applied_at payload fallback) cs).

(** The same statement, with the endpoints an edge had before. *)
Definition restore_relationship_endpoints_batch (rewrites : list Rewrite) (ns : Z) : list (Graph -> Graph) :=
  rewrite_relationship_endpoints_batch rewrites ns.

Definition unmirror_targets (t : ReverseTargets) (ns : Z) : list (Graph -> Graph) :=
  nonempty_call (restore_entity_ids t) (restore_entities_batch (restore_entity_ids t) ns)
  ++ restore_relationship_endpoints_batch (restore_endpoints t) ns
  ++ nonempty_call (restore_relationship_ids t) (restore_relationships_batch (restore_relationship_ids t) ns).

Definition run_calls (calls : list (Graph -> Graph)) (g : Graph) : Graph := foldl (fun g f => f g) g calls.
End dream.
