(* ===== verification/DreamMirrorFacts.v ===== *)
(** The dream mirror: a payload replays exactly what it was made from, an interrupted
    mirror replayed from the start ends where an uninterrupted one does, and a merge keeps
    the two stores in agreement. *)
From S2P Require Import Prelude PyValue FilterAst FilterPython ReplaceMirror RankFusion Scoring DreamMirror.

Local Open Scope string_scope.
Local Open Scope list_scope.
Local Open Scope Z_scope.

(** ** Lists and folds *)

Lemma extend_m_parse {A} (f : value -> result (list A)) (g : A -> value) l :
  (forall x, x ∈ l -> f (g x) = Ok [x]) -> extend_m f (List.map g l) = Ok l.
Proof.
  intros H. unfold extend_m.
  assert (map_m f (List.map g l) = Ok (List.map (fun x => [x]) l)) as ->.
  { induction l as [|x l IH]; simpl; [done|]. rewrite H by left. rewrite IH; [done|]. intros y Hy. apply H. by right. }
  f_equal. clear H. induction l as [|x l IH]; simpl; [done|]. by rewrite IH.
Qed.

Lemma extend_m_parse' {A B} (f : value -> result (list B)) (g : A -> value) (h : A -> B) l :
  (forall x, f (g x) = Ok [h x]) -> extend_m f (List.map g l) = Ok (List.map h l).
Proof.
  intros H. unfold extend_m.
  assert (map_m f (List.map g l) = Ok (List.map (fun x => [h x]) l)) as ->.
  { induction l as [|x l IH]; simpl; [done|]. by rewrite H, IH. }
  f_equal. induction l as [|x l IH]; simpl; [done|]. by rewrite IH.
Qed.

Lemma py_iter_VList l : py_iter (VList l) = Ok l.
Proof. done. Qed.

Lemma items_list d key l : dict_get key d = Some (VList l) -> items (VDict d) key = Ok l.
Proof. intros H. unfold items, get_or_empty. rewrite H. destruct l; done. Qed.

Lemma items_missing d key : dict_get key d = None -> items (VDict d) key = Ok [].
Proof. intros H. unfold items, get_or_empty. by rewrite H. Qed.

Lemma text_or_empty_str so s : text_or_empty so (VStr s) = s.
Proof. unfold text_or_empty. simpl. by destruct (String.eqb_spec s "") as [->|]. Qed.

Section codec.
Context (uuid_str : Z -> string) (parse_uuid : string -> option Z) (str_other : value -> string).
Context (isoformat : datetime -> string) (fromisoformat : string -> option datetime).
Context (int_of_str : string -> option Z) (set_iter : gset Z -> list Z).

(** The text forms parse back. *)
Definition text_forms : Prop :=
  (forall u, parse_uuid (uuid_str u) = Some u) /\
  (forall d, fromisoformat (isoformat d) = Some d /\ isoformat d <> "").

Context (TF : text_forms).

Local Abbreviation VU := (VUuid uuid_str).
Local Abbreviation coerce := (_coerce_uuid parse_uuid str_other).

Lemma coerce_VUuid u : coerce (VU u) = Some u.
Proof. apply TF. Qed.

Lemma coerce_map l : omap coerce (List.map VU l) = l.
Proof. induction l as [|u l IH]; [done|]. simpl. rewrite (proj1 TF). f_equal. exact IH. Qed.

Lemma rewrite_from_json r : rewrite_from parse_uuid str_other (rewrite_json uuid_str r) = Ok [r].
Proof.
  unfold rewrite_from, rewrite_json. cbn -[VUuid]. rewrite !coerce_VUuid, text_or_empty_str. by destruct r.
Qed.

(** A depth of zero reads back as one. *)
Definition read_back (c : CommunityNode) : CommunityNode :=
  MkCommunity (cm_id c) (cm_summary c) (cm_member_ids c)
    (if cm_summary_depth c =? 0 then 1 else cm_summary_depth c).

Lemma read_back_id c : cm_summary_depth c <> 0 -> read_back c = c.
Proof. intros H. unfold read_back. destruct (Z.eqb_spec (cm_summary_depth c) 0); [done|]. by destruct c. Qed.

Lemma map_read_back cs : Forall (fun c => cm_summary_depth c <> 0) cs -> List.map read_back cs = cs.
Proof. induction 1 as [|c cs Hc Hd IH]; [done|]. simpl. by rewrite read_back_id, IH. Qed.

Lemma community_from_json c :
  community_from parse_uuid str_other int_of_str (community_json uuid_str c) = Ok [read_back c].
Proof.
  unfold community_from, community_json, read_back. cbn -[VUuid items truthy].
  rewrite coerce_VUuid, (items_list _ _ (List.map VU (cm_member_ids c))) by done. cbn -[VUuid truthy].
  unfold depth_of. cbn. destruct (Z.eqb_spec (cm_summary_depth c) 0); cbn -[VUuid];
    by rewrite coerce_map, text_or_empty_str.
Qed.

(** What the payload of an operation reads back as. *)
Lemma mirror_payload_codec op undo t cs fallback :
  extract_mirror_targets parse_uuid str_other set_iter (op_type op) (u_before undo) = Ok t ->
  extract_community_targets parse_uuid str_other int_of_str (op_type op) (u_before undo) = Ok cs ->
  exists p,
    mirror_payload uuid_str parse_uuid str_other isoformat int_of_str set_iter op undo = Ok p /\
    targets_from_payload parse_uuid str_other p = Ok t /\
    communities_from_payload parse_uuid str_other int_of_str p = Ok (List.map read_back cs) /\
    _parse_applied_at str_other fromisoformat p fallback = u_applied_at undo.
Proof.
  intros Ht Hc. unfold mirror_payload. rewrite Ht, Hc. eexists. split; [done|]. split_and!.
  - unfold targets_from_payload.
    erewrite (items_list _ "rewrite_relationships"), (items_list _ "retire_entity_ids"),
      (items_list _ "invalidate_relationship_ids") by done.
    cbn -[VUuid]. rewrite (extend_m_parse (rewrite_from parse_uuid str_other)) by (intros; apply rewrite_from_json).
    cbn -[VUuid]. rewrite !coerce_map. by destruct t.
  - unfold communities_from_payload. erewrite (items_list _ "communities") by done. cbn -[VUuid].
    apply extend_m_parse'. intros c. apply community_from_json.
  - unfold _parse_applied_at. cbn. destruct (proj2 TF (u_applied_at undo)) as [Hf He].
    destruct (String.eqb_spec (isoformat (u_applied_at undo)) ""); [done|]. cbn. by rewrite Hf.
Qed.

(** C29.  The reconciler replays what was committed: the payload an operation queues gives
    back the graph calls the mirror would have made - the same ids, endpoints, communities
    and time stamp. *)
Theorem payload_replays_mirror op undo t cs ns fallback :
  extract_mirror_targets parse_uuid str_other set_iter (op_type op) (u_before undo) = Ok t ->
  extract_community_targets parse_uuid str_other int_of_str (op_type op) (u_before undo) = Ok cs ->
  Forall (fun c => cm_summary_depth c <> 0) cs ->
  exists p,
    mirror_payload uuid_str parse_uuid str_other isoformat int_of_str set_iter op undo = Ok p /\
    apply_mirror_payload parse_uuid str_other fromisoformat int_of_str p ns fallback =
      Ok (apply_mirror_targets t ns (u_applied_at undo) cs).
Proof.
  intros Ht Hc Hd. destruct (mirror_payload_codec op undo t cs fallback Ht Hc) as (p & Hp & H1 & H2 & H3).
  exists p. split; [done|]. unfold apply_mirror_payload. rewrite H1, H2, H3. cbn [mbind result_bind].
  by rewrite map_read_back.
Qed.
End codec.

(** ** What the verbs do to one row *)

Lemma lookup_update_all {R} (f : R -> R) ids (t : gmap Z R) i :
  (forall r, f (f r) = f r) \/ NoDup ids ->
  update_all f ids t !! i = (fun r => if bool_decide (i ∈ ids) then f r else r) <$> t !! i.
Proof.
  intros H. unfold update_all. revert t. induction ids as [|j ids IH]; intros t; simpl.
  - by destruct (t !! i).
  - rewrite IH by (destruct H as [H|H]; [by left|right; by inversion H]). destruct (decide (i = j)) as [->|Hne].
    + rewrite lookup_alter_eq. rewrite (bool_decide_eq_true_2 (j ∈ j :: ids)) by left.
      destruct (t !! j) as [r|]; simpl; [|done]. case_bool_decide as Hin; [|done].
      destruct H as [H|H]; [by rewrite H|]. by apply NoDup_cons in H as [? _].
    + rewrite lookup_alter_ne by done. destruct (t !! i) as [r|]; simpl; [|done]. f_equal.
      case_bool_decide as Hi; case_bool_decide as Hi'; try done.
      * exfalso. apply Hi'. by right.
      * exfalso. apply elem_of_cons in Hi' as [|]; done.
Qed.

Lemma elem_of_matched {R} (p : R -> bool) (t : gmap Z R) ids i :
  i ∈ matched p t ids <-> i ∈ ids /\ exists r, t !! i = Some r /\ p r = true.
Proof.
  unfold matched. rewrite list_elem_of_In, filter_In, <- list_elem_of_In.
  destruct (t !! i) as [r|]; naive_solver.
Qed.

Lemma matched_nodup {R} (p : R -> bool) (t : gmap Z R) ids : NoDup ids -> NoDup (matched p t ids).
Proof. intros H. apply NoDup_ListNoDup, List.NoDup_filter, NoDup_ListNoDup, H. Qed.

Lemma lookup_update_matched {R} (f : R -> R) (p : R -> bool) ids (t : gmap Z R) i :
  (forall r, f (f r) = f r) \/ NoDup ids ->
  update_all f (matched p t ids) t !! i =
  (fun r => if bool_decide (i ∈ ids) && p r then f r else r) <$> t !! i.
Proof.
  intros H. rewrite lookup_update_all.
  2:{ destruct H as [H|H]; [by left|right; by apply matched_nodup]. }
  destruct (t !! i) as [r|] eqn:E; simpl; [|done]. f_equal.
  destruct (bool_decide (i ∈ matched p t ids)) eqn:B.
  - apply bool_decide_eq_true, elem_of_matched in B as (Hi & r' & Hr & Hp). simplify_eq.
    by rewrite bool_decide_eq_true_2, Hp by done.
  - apply bool_decide_eq_false in B. rewrite elem_of_matched in B. case_bool_decide; simpl; [|done].
    destruct (p r) eqn:Hp; [|done]. exfalso. eauto.
Qed.

Definition invalidated (ids : list Z) (ns : Z) (t : datetime) (i : Z) (e : Edge) : Edge :=
  if bool_decide (i ∈ ids) && live_edge ns e then set_valid_until (Some t) e else e.

Lemma lookup_invalidate ids ns t g i :
  edges (soft_invalidate_relationships_batch ids ns t g) !! i = invalidated ids ns t i <$> edges g !! i.
Proof. cbn. apply lookup_update_matched. by left. Qed.

Definition retired (ids : list Z) (ns : Z) (t : datetime) (i : Z) (n : Node) : Node :=
  if bool_decide (i ∈ ids) && live_node ns n then retire_node t n else n.

Lemma lookup_retire ids ns t g i : NoDup ids ->
  nodes (soft_retire_entities_batch ids ns t g) !! i = retired ids ns t i <$> nodes g !! i.
Proof. intros H. cbn. apply lookup_update_matched. by right. Qed.

(** *** Endpoint rewrites *)

Definition rw_label (r : Rewrite) : string := sanitize_cypher_label (rw_type r).

(** What the rewrite [r] does to its edge, given which nodes are in the namespace. *)
Definition rewritten_by (present : Z -> bool) (label : string) (ns : Z) (r : Rewrite) (e : Edge) : Edge :=
  if present (rw_source r) && present (rw_target r) then rewrite_edge label ns r e else e.

Definition find_rw (i : Z) (rws : list Rewrite) : option Rewrite := List.find (fun r => rw_id r =? i) rws.

Definition rewritten (present : Z -> bool) (ns : Z) (rws : list Rewrite) (i : Z) (e : Edge) : Edge :=
  match find_rw i rws with Some r => rewritten_by present (rw_label r) ns r e | None => e end.

Lemma find_rw_None i rws : find_rw i rws = None <-> i ∉ rw_id <$> rws.
Proof.
  induction rws as [|r rws IH]; csimpl; [split; [intros _; apply not_elem_of_nil|done]|].
  rewrite not_elem_of_cons. unfold find_rw in *. simpl. destruct (Z.eqb_spec (rw_id r) i) as [->|Hn]; [split; [done|by intros []]|].
  rewrite IH. split; [intros H; split; [congruence|done]|by intros []].
Qed.

Lemma find_rw_Some i rws r : find_rw i rws = Some r -> r ∈ rws /\ rw_id r = i.
Proof. intros [H E]%find_some. rewrite list_elem_of_In. split; [done|by apply Z.eqb_eq]. Qed.

Lemma find_rw_elem rws r : NoDup (rw_id <$> rws) -> r ∈ rws -> find_rw (rw_id r) rws = Some r.
Proof.
  induction rws as [|r' rws IH]; csimpl; [by rewrite elem_of_nil|].
  rewrite NoDup_cons, elem_of_cons. intros [Hn Hd] [->|Hr]; [by rewrite Z.eqb_refl|].
  destruct (Z.eqb_spec (rw_id r') (rw_id r)) as [E|]; [|by apply IH].
  exfalso. apply Hn. rewrite E. by apply list_elem_of_fmap_2.
Qed.

Lemma find_rw_filter p i rws : NoDup (rw_id <$> rws) ->
  find_rw i (List.filter p rws) =
  match find_rw i rws with Some r => if p r then Some r else None | None => None end.
Proof.
  induction rws as [|r rws IH]; csimpl; [done|]. rewrite NoDup_cons. intros [Hn Hd].
  destruct (Z.eqb_spec (rw_id r) i) as [<-|].
  - destruct (p r); simpl; [by rewrite Z.eqb_refl|]. rewrite IH by done.
    by rewrite (proj2 (find_rw_None _ _) Hn).
  - destruct (p r); simpl; [|by apply IH]. rewrite (proj2 (Z.eqb_neq _ _)) by done. by apply IH.
Qed.

Lemma rewrite_batch_nodes label rows ns g : nodes (rewrite_label_batch label rows ns g) = nodes g.
Proof.
  unfold rewrite_label_batch. revert g. induction rows as [|r rows IH]; intros g; simpl; [done|].
  rewrite IH. unfold rewrite_row. by destruct (_ && _).
Qed.

Lemma rewrite_batch_communities label rows ns g :
  communities (rewrite_label_batch label rows ns g) = communities g.
Proof.
  unfold rewrite_label_batch. revert g. induction rows as [|r rows IH]; intros g; simpl; [done|].
  rewrite IH. unfold rewrite_row. by destruct (_ && _).
Qed.

Definition present (ns : Z) (g : Graph) (i : Z) : bool := in_namespace ns i g.

Lemma present_nodes ns g g' : nodes g = nodes g' -> present ns g = present ns g'.
Proof. intros H. unfold present, in_namespace. by rewrite H. Qed.

Lemma lookup_rewrite_row label ns g r i :
  edges (rewrite_row label ns g r) !! i =
  (fun e => if rw_id r =? i then rewritten_by (present ns g) label ns r e else e) <$> edges g !! i.
Proof.
  unfold rewrite_row, rewritten_by, present. destruct (_ && _); simpl.
  - destruct (Z.eqb_spec (rw_id r) i) as [<-|]; [by rewrite lookup_alter_eq|].
    rewrite lookup_alter_ne by done. by destruct (edges g !! i).
  - destruct (edges g !! i); simpl; [|done]. by destruct (_ =? _).
Qed.

Lemma lookup_rewrite_batch label rows ns g i : NoDup (rw_id <$> rows) ->
  edges (rewrite_label_batch label rows ns g) !! i =
  (fun e => match find_rw i rows with Some r => rewritten_by (present ns g) label ns r e | None => e end)
    <$> edges g !! i.
Proof.
  unfold rewrite_label_batch. revert g. induction rows as [|r rows IH]; intros g; csimpl.
  - intros _. by destruct (edges g !! i).
  - rewrite NoDup_cons. intros [Hn Hd].
    rewrite IH, lookup_rewrite_row by done.
    rewrite (present_nodes ns _ g) by (unfold rewrite_row; by destruct (_ && _)).
    destruct (edges g !! i) as [e|]; simpl; [|done]. f_equal.
    destruct (Z.eqb_spec (rw_id r) i) as [<-|]; [|done]. by rewrite (proj2 (find_rw_None _ _) Hn).
Qed.

(** ** Calls as effects *)

(** What a call does: to an edge and to the communities, given which nodes are in the
    namespace, and to a node. *)
Record Effect := MkEffect {
  on_edge : (Z -> bool) -> Z -> Edge -> Edge;
  on_node : Z -> Node -> Node;
  on_communities : (Z -> bool) -> gmap (Z * Z) Community -> gmap (Z * Z) Community }.

Definition acts (ns : Z) (f : Graph -> Graph) (E : Effect) : Prop :=
  (forall i n, n_namespace_id (on_node E i n) = n_namespace_id n) /\
  forall g,
    (forall i, edges (f g) !! i = on_edge E (present ns g) i <$> edges g !! i) /\
    (forall i, nodes (f g) !! i = on_node E i <$> nodes g !! i) /\
    communities (f g) = on_communities E (present ns g) (communities g).

Lemma graph_eq g g' :
  (forall i, edges g !! i = edges g' !! i) -> (forall i, nodes g !! i = nodes g' !! i) ->
  communities g = communities g' -> g = g'.
Proof. destruct g, g'; simpl. intros He Hn ->. f_equal; by apply map_eq. Qed.

Lemma acts_present ns f E g i : acts ns f E -> present ns (f g) i = present ns g i.
Proof.
  intros [Hns Ha]. destruct (Ha g) as (_ & Hn & _). unfold present, in_namespace. rewrite Hn.
  destruct (nodes g !! i); simpl; [|done]. by rewrite Hns.
Qed.

(** The effect depends on the set of present nodes only. *)
Definition extensional (E : Effect) : Prop :=
  forall p p' : Z -> bool, (forall i, p i = p' i) ->
    (forall i e, on_edge E p i e = on_edge E p' i e) /\
    (forall c, on_communities E p c = on_communities E p' c).

Lemma acts_swap ns f h E F :
  acts ns f E -> acts ns h F -> extensional E -> extensional F ->
  (forall p i e, on_edge E p i (on_edge F p i e) = on_edge F p i (on_edge E p i e)) ->
  (forall i n, on_node E i (on_node F i n) = on_node F i (on_node E i n)) ->
  (forall p c, on_communities E p (on_communities F p c) = on_communities F p (on_communities E p c)) ->
  forall g, f (h g) = h (f g).
Proof.
  intros Hf Hh XE XF He Hn Hc g. apply graph_eq.
  - intros i. rewrite (proj1 (proj2 Hf _)), (proj1 (proj2 Hh _)), (proj1 (proj2 Hh _)), (proj1 (proj2 Hf _)).
    destruct (edges g !! i) as [e|]; simpl; [|done]. f_equal.
    rewrite (proj1 (XE _ (present ns g) (fun i => acts_present _ _ _ g i Hh))).
    rewrite (proj1 (XF _ (present ns g) (fun i => acts_present _ _ _ g i Hf))). apply He.
  - intros i. rewrite (proj1 (proj2 (proj2 Hf _))), (proj1 (proj2 (proj2 Hh _))),
      (proj1 (proj2 (proj2 Hh _))), (proj1 (proj2 (proj2 Hf _))).
    destruct (nodes g !! i); simpl; [|done]. f_equal. apply Hn.
  - rewrite (proj2 (proj2 (proj2 Hf _))), (proj2 (proj2 (proj2 Hh _))),
      (proj2 (proj2 (proj2 Hh _))), (proj2 (proj2 (proj2 Hf _))).
    rewrite (proj2 (XE _ (present ns g) (fun i => acts_present _ _ _ g i Hh))).
    rewrite (proj2 (XF _ (present ns g) (fun i => acts_present _ _ _ g i Hf))). apply Hc.
Qed.

Lemma acts_twice ns f E :
  acts ns f E -> extensional E ->
  (forall p i e, on_edge E p i (on_edge E p i e) = on_edge E p i e) ->
  (forall i n, on_node E i (on_node E i n) = on_node E i n) ->
  (forall p c, on_communities E p (on_communities E p c) = on_communities E p c) ->
  forall g, f (f g) = f g.
Proof.
  intros Hf XE He Hn Hc g.
  pose proof (XE _ (present ns g) (fun i => acts_present _ _ _ g i Hf)) as [X1 X2]. apply graph_eq.
  - intros i. rewrite (proj1 (proj2 Hf (f g))), (proj1 (proj2 Hf g)).
    destruct (edges g !! i) as [e|]; simpl; [|done]. f_equal. rewrite X1. apply He.
  - intros i. rewrite (proj1 (proj2 (proj2 Hf (f g)))), (proj1 (proj2 (proj2 Hf g))).
    destruct (nodes g !! i); simpl; [|done]. f_equal. apply Hn.
  - rewrite (proj2 (proj2 (proj2 Hf (f g)))), (proj2 (proj2 (proj2 Hf g))), X2. apply Hc.
Qed.

(** *** Replaying from the start *)

Section replay.
Context (fs : list (Graph -> Graph)).
Context (swap : forall f h, f ∈ fs -> h ∈ fs -> forall g, f (h g) = h (f g)).
Context (twice : forall f, f ∈ fs -> forall g, f (f g) = f g).

Lemma run_swap l f g : f ∈ fs -> (forall h, h ∈ l -> h ∈ fs) -> run_calls l (f g) = f (run_calls l g).
Proof.
  intros Hf. revert g. induction l as [|h l IH]; intros g Hl; [done|].
  unfold run_calls in *. simpl. rewrite (swap h f) by (try done; apply Hl; left).
  apply IH. intros h' Hh. apply Hl. by right.
Qed.

Lemma run_absorbs f g : f ∈ fs -> run_calls fs (f g) = run_calls fs g.
Proof.
  intros Hf. destruct (list_elem_of_split _ _ Hf) as (l1 & l2 & E).
  assert (forall h, h ∈ l1 -> h ∈ fs) as H1 by (intros h Hh; rewrite E; set_solver).
  rewrite E. unfold run_calls. rewrite !foldl_app. fold (run_calls l1 (f g)) (run_calls l1 g).
  rewrite run_swap by done. simpl. by rewrite twice.
Qed.

Lemma run_again l g : (forall f, f ∈ l -> f ∈ fs) -> run_calls fs (run_calls l g) = run_calls fs g.
Proof.
  revert g. induction l as [|f l IH]; intros g Hl; [done|].
  unfold run_calls at 2. simpl. fold (run_calls l (f g)).
  rewrite IH by (intros; apply Hl; by right). apply run_absorbs, Hl. left.
Qed.
End replay.

(** *** The effects of the mirror's calls *)

Definition edge_effect (h : (Z -> bool) -> Z -> Edge -> Edge) : Effect :=
  MkEffect h (fun _ n => n) (fun _ c => c).

Definition group_rows (rws : list Rewrite) (l : string) : list Rewrite :=
  List.filter (fun r => String.eqb (rw_label r) l) rws.

Definition rewrite_effect (ns : Z) (label : string) (rows : list Rewrite) : Effect :=
  edge_effect (fun p i e =>
    match find_rw i rows with Some r => rewritten_by p label ns r e | None => e end).

Definition invalidate_effect (ids : list Z) (ns : Z) (t : datetime) : Effect :=
  edge_effect (fun _ => invalidated ids ns t).

Definition retire_effect (ids : list Z) (ns : Z) (t : datetime) : Effect :=
  MkEffect (fun _ _ e => e) (retired ids ns t) (fun _ c => c).

Definition put_community (ns : Z) (p : Z -> bool) (m : gmap (Z * Z) Community) (c : CommunityNode) :=
  <[(cm_id c, ns) := MkCommunityNode (cm_summary c) (cm_summary_depth c) (cm_member_ids c)
      (default ∅ (c_has_member <$> m !! (cm_id c, ns)) ∪ list_to_set (List.filter p (cm_member_ids c)))]> m.

Definition materialize_effect (cs : list CommunityNode) (ns : Z) : Effect :=
  MkEffect (fun _ _ e => e) (fun _ n => n) (fun p m => foldl (put_community ns p) m cs).

Lemma fmap_option_id {A} (o : option A) : o = (fun x => x) <$> o.
Proof. by destruct o. Qed.

Lemma acts_rewrite ns label rows : NoDup (rw_id <$> rows) ->
  acts ns (rewrite_label_batch label rows ns) (rewrite_effect ns label rows).
Proof.
  intros Hd. split; [done|]. intros g. split_and!.
  - intros i. by apply lookup_rewrite_batch.
  - intros i. rewrite rewrite_batch_nodes. apply fmap_option_id.
  - apply rewrite_batch_communities.
Qed.

Lemma acts_invalidate ids ns t :
  acts ns (soft_invalidate_relationships_batch ids ns t) (invalidate_effect ids ns t).
Proof.
  split; [done|]. intros g. split_and!; [intros i; apply lookup_invalidate|intros i; apply fmap_option_id|done].
Qed.

Lemma acts_retire ids ns t : NoDup ids ->
  acts ns (soft_retire_entities_batch ids ns t) (retire_effect ids ns t).
Proof.
  intros Hd. split; [intros i n; cbn; unfold retired; by destruct (_ && _)|]. intros g. split_and!.
  - intros i. apply fmap_option_id.
  - intros i. by apply lookup_retire.
  - done.
Qed.

Lemma materialize_frame cs ns g :
  materialize_communities_batch cs ns g =
  MkGraph (nodes g) (edges g) (foldl (put_community ns (present ns g)) (communities g) cs).
Proof.
  unfold materialize_communities_batch. revert g. induction cs as [|c cs IH]; intros g; simpl; [by destruct g|].
  rewrite IH. done.
Qed.

Lemma acts_materialize cs ns : acts ns (materialize_communities_batch cs ns) (materialize_effect cs ns).
Proof.
  split; [done|]. intros g. rewrite materialize_frame. split_and!; [intros i; apply fmap_option_id..|done].
Qed.

Lemma rewritten_by_ext p p' label ns r e : (forall i, p i = p' i) ->
  rewritten_by p label ns r e = rewritten_by p' label ns r e.
Proof. intros H. unfold rewritten_by. by rewrite !H. Qed.

Lemma ext_rewrite ns label rows : extensional (rewrite_effect ns label rows).
Proof.
  intros p p' H. split; [|done]. intros i e. cbn. destruct (find_rw i rows); [|done]. by apply rewritten_by_ext.
Qed.

Lemma ext_materialize cs ns : extensional (materialize_effect cs ns).
Proof.
  intros p p' H. split; [done|]. cbn. induction cs as [|c cs IH]; intros m; [done|]. simpl.
  rewrite IH. f_equal. unfold put_community. by rewrite (List.filter_ext p p' H).
Qed.

Lemma rewrite_edge_twice label ns r e : rewrite_edge label ns r (rewrite_edge label ns r e) = rewrite_edge label ns r e.
Proof.
  unfold rewrite_edge at 2 3.
  destruct (_ && _) eqn:E; unfold rewrite_edge; [cbn; by rewrite !Z.eqb_refl, andb_false_r|by rewrite E].
Qed.

Lemma live_edge_rewrite label ns ns' r e : live_edge ns (rewrite_edge label ns' r e) = live_edge ns e.
Proof. unfold rewrite_edge. by destruct (_ && _). Qed.

Lemma rewrite_invalidate p label ns r ids ns' t i e :
  rewritten_by p label ns r (invalidated ids ns' t i e) = invalidated ids ns' t i (rewritten_by p label ns r e).
Proof.
  unfold rewritten_by. destruct (p _ && p _); [|done]. unfold invalidated. rewrite live_edge_rewrite.
  destruct (bool_decide _ && live_edge ns' e); [|done].
  unfold rewrite_edge. cbn. by destruct (_ && _).
Qed.

Lemma live_edge_dead ns t e : live_edge ns (set_valid_until (Some t) e) = false.
Proof. unfold live_edge. cbn. by rewrite andb_false_r. Qed.

Lemma invalidated_twice ids ns t i e : invalidated ids ns t i (invalidated ids ns t i e) = invalidated ids ns t i e.
Proof.
  unfold invalidated. destruct (bool_decide _ && live_edge ns e) eqn:E; [|by rewrite E].
  by rewrite live_edge_dead, andb_false_r.
Qed.

Lemma retired_twice ids ns t i n : retired ids ns t i (retired ids ns t i n) = retired ids ns t i n.
Proof.
  unfold retired. destruct (bool_decide _ && live_node ns n) eqn:E; [|by rewrite E].
  unfold live_node. cbn. by rewrite !andb_false_r.
Qed.

Lemma community_union_twice (a b : gset Z) : a ∪ b ∪ b = a ∪ b.
Proof. set_solver. Qed.

Lemma put_community_other ns p m c k : k <> (cm_id c, ns) -> put_community ns p m c !! k = m !! k.
Proof. intros H. unfold put_community. by rewrite lookup_insert_ne. Qed.

Lemma materialize_lookup_other ns p cs m k : (forall c, c ∈ cs -> k <> (cm_id c, ns)) ->
  foldl (put_community ns p) m cs !! k = m !! k.
Proof.
  revert m. induction cs as [|c cs IH]; intros m H; simpl; [done|].
  rewrite IH by (intros c' Hc; apply H; by right). apply put_community_other, H. left.
Qed.

(** The row of one community after the batch. *)
Definition materialized (p : Z -> bool) (c : CommunityNode) (old : option Community) : Community :=
  MkCommunityNode (cm_summary c) (cm_summary_depth c) (cm_member_ids c)
    (default ∅ (c_has_member <$> old) ∪ list_to_set (List.filter p (cm_member_ids c))).

Lemma materialize_lookup ns p cs m c : NoDup (cm_id <$> cs) -> c ∈ cs ->
  foldl (put_community ns p) m cs !! (cm_id c, ns) = Some (materialized p c (m !! (cm_id c, ns))).
Proof.
  revert m. induction cs as [|c' cs IH]; intros m; [by intros _ ?%not_elem_of_nil|].
  rewrite fmap_cons, NoDup_cons, elem_of_cons. intros [Hn Hd] [->|Hc]; simpl.
  - rewrite materialize_lookup_other.
    + unfold put_community. by rewrite lookup_insert_eq.
    + intros c Hc [= E]. apply Hn. rewrite E. by apply list_elem_of_fmap_2.
  - rewrite IH by done. f_equal. unfold materialized. rewrite put_community_other; [done|].
    intros [= E]. apply Hn. rewrite <- E. by apply list_elem_of_fmap_2.
Qed.

Lemma materialize_twice ns p cs m : NoDup (cm_id <$> cs) ->
  foldl (put_community ns p) (foldl (put_community ns p) m cs) cs = foldl (put_community ns p) m cs.
Proof.
  intros Hd. apply map_eq. intros k.
  destruct (decide (k ∈ (fun c => (cm_id c, ns)) <$> cs)) as [Hk|Hk].
  - apply list_elem_of_fmap in Hk as (c & -> & Hc). rewrite !(materialize_lookup _ _ _ _ c) by done.
    f_equal. unfold materialized. cbn. by rewrite community_union_twice.
  - assert (forall c, c ∈ cs -> k <> (cm_id c, ns)) as H by (intros c Hc ->; apply Hk; by apply list_elem_of_fmap; eexists).
    by rewrite !materialize_lookup_other by done.
Qed.

(** *** The calls of one mirror *)

(** What the record of a committed operation guarantees: an edge is rewritten once, and an
    entity or a community is named once. *)
Definition well_formed (t : Targets) (cs : list CommunityNode) : Prop :=
  NoDup (rw_id <$> rewrite_relationships t) /\ NoDup (retire_entity_ids t) /\ NoDup (cm_id <$> cs).

Lemma group_nodup rws l : NoDup (rw_id <$> rws) -> NoDup (rw_id <$> group_rows rws l).
Proof.
  intros H. induction rws as [|r rws IH]; csimpl in *; [done|]. apply NoDup_cons in H as [Hn Hd].
  unfold group_rows. simpl. destruct (String.eqb _ _); csimpl; [|by apply IH].
  constructor; [|by apply IH]. intros (r' & E & Hr)%list_elem_of_fmap. apply Hn. rewrite E.
  apply list_elem_of_fmap_2. apply list_elem_of_In, filter_In in Hr as [Hr _]. by apply list_elem_of_In.
Qed.

Lemma find_group i rws l : NoDup (rw_id <$> rws) ->
  find_rw i (group_rows rws l) =
  match find_rw i rws with Some r => if String.eqb (rw_label r) l then Some r else None | None => None end.
Proof. apply find_rw_filter. Qed.

(** The kinds of call a mirror makes. *)
Definition is_call (t : Targets) (ns : Z) (s : datetime) (cs : list CommunityNode) (f : Graph -> Graph) : Prop :=
  (exists l, f = rewrite_label_batch l (group_rows (rewrite_relationships t) l) ns) \/
  f = soft_invalidate_relationships_batch (invalidate_relationship_ids t) ns s \/
  f = soft_retire_entities_batch (retire_entity_ids t) ns s \/
  f = materialize_communities_batch cs ns.

Lemma elem_nonempty_call {A} (l : list A) (f h : Graph -> Graph) : h ∈ nonempty_call l f -> h = f.
Proof. destruct l; [by intros ?%not_elem_of_nil|]. by intros ?%list_elem_of_singleton. Qed.

Lemma rewrite_calls_eq rws ns :
  rewrite_relationship_endpoints_batch rws ns =
  List.map (fun l => rewrite_label_batch l (group_rows rws l) ns)
    (sort_by (fun l => l) (remove_dups (rw_label <$> rws))).
Proof. unfold rewrite_relationship_endpoints_batch, by_label. by rewrite List.map_map. Qed.

Lemma mirror_calls t ns s cs f : f ∈ apply_mirror_targets t ns s cs -> is_call t ns s cs f.
Proof.
  unfold apply_mirror_targets, is_call. rewrite rewrite_calls_eq, !elem_of_app.
  intros [H|[ ->%elem_nonempty_call|[ ->%elem_nonempty_call| ->%elem_nonempty_call]]]; [|tauto..].
  left. apply list_elem_of_In, in_map_iff in H as (l & <- & _). eauto.
Qed.

Section calls.
Context (t : Targets) (ns : Z) (s : datetime) (cs : list CommunityNode) (W : well_formed t cs).

Lemma call_swap f h : is_call t ns s cs f -> is_call t ns s cs h -> forall g, f (h g) = h (f g).
Proof.
  destruct W as (Wr & We & Wc).
  assert (A1 : forall l, acts ns (rewrite_label_batch l (group_rows (rewrite_relationships t) l) ns)
    (rewrite_effect ns l (group_rows (rewrite_relationships t) l))) by (intros l; by apply acts_rewrite, group_nodup).
  pose proof (acts_invalidate (invalidate_relationship_ids t) ns s) as A2.
  pose proof (acts_retire (retire_entity_ids t) ns s We) as A3.
  pose proof (acts_materialize cs ns) as A4.
  assert (X1 : forall l, extensional (rewrite_effect ns l (group_rows (rewrite_relationships t) l)))
    by (intros; apply ext_rewrite).
  assert (X2 : extensional (invalidate_effect (invalidate_relationship_ids t) ns s)) by done.
  assert (X3 : extensional (retire_effect (retire_entity_ids t) ns s)) by done.
  pose proof (ext_materialize cs ns) as X4.
  assert (RI : forall l p i e,
    match find_rw i (group_rows (rewrite_relationships t) l) with
    | Some r => rewritten_by p l ns r (invalidated (invalidate_relationship_ids t) ns s i e)
    | None => invalidated (invalidate_relationship_ids t) ns s i e end =
    invalidated (invalidate_relationship_ids t) ns s i
      match find_rw i (group_rows (rewrite_relationships t) l) with
      | Some r => rewritten_by p l ns r e | None => e end).
  { intros l p i e. destruct (find_rw i _); [apply rewrite_invalidate|done]. }
  intros [[l ->]|[ ->|[ ->| ->]]] [[l' ->]|[ ->|[ ->| ->]]]; try done;
    try (eapply acts_swap; [apply A1|apply A2|apply X1|apply X2|intros; apply RI|done|done]);
    try (eapply acts_swap; [apply A2|apply A1|apply X2|apply X1|intros; symmetry; apply RI|done|done]);
    try (eapply acts_swap; [done|done|done|done|done|done|done]);
    try (eapply acts_swap; eauto; done).
  destruct (decide (l = l')) as [->|Hl]; [done|].
  eapply acts_swap; [apply A1|apply A1|apply X1|apply X1| |done|done].
  intros p i e. cbn. rewrite !find_group by done.
  destruct (find_rw i (rewrite_relationships t)) as [r|]; [|done].
  destruct (String.eqb_spec (rw_label r) l), (String.eqb_spec (rw_label r) l'); congruence.
Qed.

Lemma call_twice f : is_call t ns s cs f -> forall g, f (f g) = f g.
Proof.
  destruct W as (Wr & We & Wc). intros [[l ->]|[ ->|[ ->| ->]]].
  - eapply acts_twice; [by apply acts_rewrite, group_nodup|apply ext_rewrite| |done|done].
    intros p i e. cbn. destruct (find_rw i _) as [r|]; [|done].
    unfold rewritten_by. destruct (p _ && p _); [|done]. apply rewrite_edge_twice.
  - eapply acts_twice; [apply acts_invalidate|done| |done|done]. intros p i e. apply invalidated_twice.
  - eapply acts_twice; [by apply acts_retire|done|done| |done]. intros i n. apply retired_twice.
  - eapply acts_twice; [apply acts_materialize|apply ext_materialize|done|done|].
    intros p c. by apply materialize_twice.
Qed.

Lemma mirror_again k g :
  let calls := apply_mirror_targets t ns s cs in
  run_calls calls (run_calls (take k calls) g) = run_calls calls g.
Proof.
  intros calls. apply run_again.
  - intros f h Hf Hh. apply call_swap; by apply mirror_calls.
  - intros f Hf. by apply call_twice, mirror_calls.
  - intros f Hf. rewrite <- (take_drop k calls). apply elem_of_app. by left.
Qed.
End calls.

(** An interrupted mirror can be replayed: if the calls of a mirror stop after any
    number of them - none, or all - making them again from the start leaves the graph as one
    uninterrupted mirror does. *)
Theorem mirror_replay_absorbs t ns s cs k g :
  well_formed t cs ->
  let calls := apply_mirror_targets t ns s cs in
  run_calls calls (run_calls (take k calls) g) = run_calls calls g.
Proof. intros W. by apply mirror_again. Qed.

(** ** A whole mirror, row by row *)

Lemma run_rewrites ls rws ns g : NoDup (rw_id <$> rws) -> NoDup ls ->
  let g' := run_calls (List.map (fun l => rewrite_label_batch l (group_rows rws l) ns) ls) g in
  nodes g' = nodes g /\ communities g' = communities g /\
  forall i, edges g' !! i =
    (fun e => match find_rw i rws with
              | Some r => if bool_decide (rw_label r ∈ ls) then rewritten_by (present ns g) (rw_label r) ns r e else e
              | None => e
              end) <$> edges g !! i.
Proof.
  intros Hd. unfold run_calls. revert g. induction ls as [|l ls IH]; intros g; simpl.
  - intros _. split_and!; [done..|]. intros i. destruct (edges g !! i); simpl; [|done]. by destruct (find_rw i rws).
  - rewrite NoDup_cons. intros [Hl Hls].
    destruct (IH (rewrite_label_batch l (group_rows rws l) ns g) Hls) as (Hn & Hc & He).
    rewrite rewrite_batch_nodes in Hn. rewrite rewrite_batch_communities in Hc. split_and!; [done..|].
    intros i. rewrite He, lookup_rewrite_batch by (by apply group_nodup).
    rewrite (present_nodes ns _ g) by apply rewrite_batch_nodes. rewrite find_group by done.
    destruct (edges g !! i) as [e|]; simpl; [|done]. f_equal.
    destruct (find_rw i rws) as [r|]; [|done].
    destruct (String.eqb_spec (rw_label r) l) as [<-|Hne].
    + by rewrite bool_decide_eq_false_2, bool_decide_eq_true_2 by (done || by left).
    + case_bool_decide as H1; case_bool_decide as H2; try done.
      * exfalso. apply H2. by right.
      * exfalso. apply elem_of_cons in H2 as [|]; done.
Qed.

Lemma run_nonempty {A} (l : list A) f g : (l = [] -> f g = g) -> run_calls (nonempty_call l f) g = f g.
Proof. destruct l; simpl; [|done]. intros H. by rewrite H. Qed.

Lemma update_all_nil {R} (f : R -> R) t : update_all f [] t = t.
Proof. done. Qed.

Lemma mirror_rows t ns s cs g : well_formed t cs ->
  let g' := run_calls (apply_mirror_targets t ns s cs) g in
  (forall i, edges g' !! i =
     (fun e => invalidated (invalidate_relationship_ids t) ns s i
                 (rewritten (present ns g) ns (rewrite_relationships t) i e)) <$> edges g !! i) /\
  (forall i, nodes g' !! i = retired (retire_entity_ids t) ns s i <$> nodes g !! i).
Proof.
  intros (Wr & We & Wc). unfold apply_mirror_targets, run_calls. rewrite !foldl_app, rewrite_calls_eq.
  set (ls := sort_by _ _).
  assert (NoDup ls) as Hls.
  { unfold ls. rewrite (sort_by_Permutation (fun l => l)). apply NoDup_remove_dups. }
  destruct (run_rewrites ls (rewrite_relationships t) ns g Wr Hls) as (Hn & _ & He).
  set (g1 := run_calls _ g) in *. fold (run_calls (List.map (fun l => rewrite_label_batch l
    (group_rows (rewrite_relationships t) l) ns) ls) g). fold g1.
  fold (run_calls (nonempty_call (invalidate_relationship_ids t)
    (soft_invalidate_relationships_batch (invalidate_relationship_ids t) ns s)) g1).
  rewrite run_nonempty by (intros ->; by destruct g1).
  set (g2 := soft_invalidate_relationships_batch _ _ _ g1).
  fold (run_calls (nonempty_call (retire_entity_ids t) (soft_retire_entities_batch (retire_entity_ids t) ns s)) g2).
  rewrite run_nonempty by (intros ->; by destruct g2).
  set (g3 := soft_retire_entities_batch _ _ _ g2).
  fold (run_calls (nonempty_call cs (materialize_communities_batch cs ns)) g3).
  rewrite run_nonempty by (intros ->; done). rewrite materialize_frame. cbn [edges nodes]. split.
  - intros i. change (edges g3) with (edges g2). unfold g2. rewrite lookup_invalidate, He.
    destruct (edges g !! i) as [e|]; simpl; [|done]. do 2 f_equal. unfold rewritten.
    destruct (find_rw i (rewrite_relationships t)) as [r|] eqn:Hf; [|done].
    rewrite bool_decide_eq_true_2; [done|]. unfold ls. rewrite (sort_by_Permutation (fun l => l)).
    apply elem_of_remove_dups, list_elem_of_fmap_2. by apply find_rw_Some in Hf as [? _].
  - intros i. unfold g3. rewrite lookup_retire by done. change (nodes g2) with (nodes g1). by rewrite Hn.
Qed.
