(* ===== verification/DreamMergeFacts.v ===== *)
(** Merging entities in both stores: what the relational handler does to each row, what its
    record makes the mirror do to each edge, that the two stores agree afterwards, and when
    undoing it restores the rows. *)
From S2P Require Import Prelude PyValue FilterAst FilterPython ReplaceMirror RankFusion Scoring.
From S2P Require Import DreamMirror DreamMirrorFacts.

Local Open Scope string_scope.
Local Open Scope list_scope.
Local Open Scope Z_scope.

(** ** One merge, row by row *)

(** What absorbing [a] into [c] does to a relationship. *)
Definition absorb_row (opid : Z) (now : datetime) (a c : Z) (r : RelationshipRow) : RelationshipRow :=
  if touches a r then
    if self_loop a c r then invalidate (Some now) (Some opid) r
    else move (repoint a c (rel_source r)) (repoint a c (rel_target r)) now r
  else r.

Lemma update_relationships_rows (f : RelationshipRow -> RelationshipRow -> RelationshipRow) l db :
  NoDup l.*1 -> (forall kr, kr ∈ l -> relationships db !! kr.1 = Some kr.2) ->
  let db' := foldl (fun db kr => update_relationship (f kr.2) kr.1 db) db l in
  entities db' = entities db /\
  forall i, relationships db' !! i =
    (fun r => if bool_decide (i ∈ l.*1) then f r r else r) <$> relationships db !! i.
Proof.
  revert db. induction l as [|[j row] l IH]; intros db; csimpl.
  - intros _ _. split; [done|]. intros i. by destruct (relationships db !! i).
  - rewrite NoDup_cons. intros [Hj Hd] Hl.
    destruct (IH (update_relationship (f row) j db) Hd) as [He Hr].
    { intros kr Hkr. simpl. rewrite lookup_alter_ne; [apply Hl; by right|].
      intros ->. apply Hj. by apply list_elem_of_fmap_2. }
    split; [done|]. intros i. rewrite Hr. simpl. destruct (decide (i = j)) as [->|Hne].
    + rewrite lookup_alter_eq. pose proof (Hl (j, row) ltac:(left)) as Hrow. simpl in Hrow. rewrite Hrow. simpl.
      by rewrite bool_decide_eq_false_2, bool_decide_eq_true_2 by (done || by left).
    + rewrite lookup_alter_ne by done. destruct (relationships db !! i); simpl; [|done]. f_equal.
      case_bool_decide as H1; case_bool_decide as H2; try done.
      * exfalso. apply H2. by right.
      * exfalso. apply elem_of_cons in H2 as [|]; done.
Qed.

Section merge.
Context (uuid_str : Z -> string) (parse_uuid : string -> option Z) (str_other : value -> string).
Context (isoformat : datetime -> string) (fromisoformat : string -> option datetime).
Context (row_order : list (Z * RelationshipRow) -> list (Z * RelationshipRow)).
Context (set_iter : gset Z -> list Z).
Context (verify : value -> Z -> Z -> option (string * value)).
Context (TF : text_forms uuid_str parse_uuid isoformat fromisoformat).
Context (row_order_perm : forall l, row_order l ≡ₚ l).
Context (set_iter_perm : forall X, set_iter X ≡ₚ elements X).

Local Abbreviation VU := (VUuid uuid_str).
Local Abbreviation coerce := (_coerce_uuid parse_uuid str_other).
Local Abbreviation touching := (_select_relationships_touching row_order).

Lemma elem_of_touching a db i r :
  (i, r) ∈ touching a db <-> relationships db !! i = Some r /\ touches a r = true.
Proof.
  unfold _select_relationships_touching. rewrite row_order_perm, elem_of_map_to_list, map_lookup_filter_Some. done.
Qed.

Lemma touching_nodup a db : NoDup (touching a db).*1.
Proof.
  unfold _select_relationships_touching. rewrite (Permutation_map fst (row_order_perm _)). apply NoDup_fst_map_to_list.
Qed.

(** The store after one applied merge. *)
Definition absorb (opid : Z) (now : datetime) (a c : Z) (db : Db) : Db :=
  update_entity (retire_absorbed now) a (foldl (merge_row opid now a c) db (touching a db)).

Lemma absorb_rows opid now a c db i :
  relationships (absorb opid now a c db) !! i = absorb_row opid now a c <$> relationships db !! i.
Proof.
  unfold absorb. cbn [relationships update_entity].
  set (f := fun row => if self_loop a c row then invalidate (Some now) (Some opid)
     else move (repoint a c (rel_source row)) (repoint a c (rel_target row)) now).
  assert (forall l d, foldl (merge_row opid now a c) d l =
     foldl (fun db kr => update_relationship (f kr.2) kr.1 db) d l) as ->.
  { induction l as [|[j r] l IH]; intros d; simpl; [done|]. apply IH. }
  destruct (update_relationships_rows f (touching a db) db (touching_nodup a db)) as [_ ->].
  { intros [j r]. by intros [Hr _]%elem_of_touching. }
  destruct (relationships db !! i) as [r|] eqn:Hr; simpl; [|done]. f_equal. unfold absorb_row.
  case_bool_decide as Hin.
  - apply list_elem_of_fmap in Hin as ([j r'] & -> & Hj). simpl in *. apply elem_of_touching in Hj as [Hj Ht].
    simplify_eq. rewrite Ht. unfold f. by destruct (self_loop _ _ _).
  - destruct (touches a r) eqn:Ht; [|done]. exfalso. apply Hin, list_elem_of_fmap. exists (i, r). split; [done|].
    by apply elem_of_touching.
Qed.

Lemma absorb_entities opid now a c db :
  entities (absorb opid now a c db) = alter (retire_absorbed now) a (entities db).
Proof.
  unfold absorb. cbn [entities update_entity]. f_equal.
  assert (forall l d, entities (foldl (merge_row opid now a c) d l) = entities d) as H.
  { induction l as [|[j r] l IH]; intros d; simpl; [done|]. by rewrite IH. }
  apply H.
Qed.

(** ** All the merges of an operation *)

(** The merges that are applied: the absorbed entity, and what the judges said if asked. *)
Definition accepted (c : Z) (planned : list (value * Z)) : list (Z * option value) :=
  omap (fun '(entry, a) =>
    match verify entry c a with
    | Some (decision, v) => if String.eqb decision "merge" then Some (a, Some v) else None
    | None => Some (a, None)
    end) planned.

Definition absorb_all (opid : Z) (now : datetime) (c : Z) (db : Db) (as_ : list Z) : Db :=
  foldl (fun db a => absorb opid now a c db) db as_.

(** The applied merges with the rows each of them saw. *)
Fixpoint trace (opid : Z) (now : datetime) (c : Z) (db : Db) (l : list (Z * option value))
  : list (Z * list (Z * RelationshipRow) * option value) :=
  match l with
  | [] => []
  | (a, v) :: l => (a, touching a db, v) :: trace opid now c (absorb opid now a c db) l
  end.

Definition record_of (c : Z) (m : Z * list (Z * RelationshipRow) * option value) : value :=
  let '(a, rows, v) := m in merge_record uuid_str c a rows v true.

(** An entry of the plan that names the survivor and the absorbed entity. *)
Definition names (c : Z) (ea : value * Z) : Prop :=
  exists cv av, subscript ea.1 "canonical_id" = Ok cv /\ UUID_of parse_uuid str_other cv = Ok c /\
                subscript ea.1 "absorbed_id" = Ok av /\ UUID_of parse_uuid str_other av = Ok ea.2.

Lemma applied_of_record c a rows v b :
  attr_get (merge_record uuid_str c a rows v b) "applied" = Ok (VBool b).
Proof. done. Qed.

Lemma extend_m_app {A B} (f : A -> result (list B)) l1 l2 r1 r2 :
  extend_m f l1 = Ok r1 -> extend_m f l2 = Ok r2 -> extend_m f (l1 ++ l2) = Ok (r1 ++ r2).
Proof.
  revert r1. induction l1 as [|x l1 IH]; intros r1 H1 H2.
  - cbn in H1. by simplify_eq.
  - unfold extend_m in *. simpl in *. destruct (f x) as [y|]; [|done].
    destruct (map_m f l1) as [ys|]; [|done]. simplify_eq. specialize (IH _ eq_refl H2).
    destruct (map_m f (l1 ++ l2)) as [zs|]; [|done]. simplify_eq. f_equal. simpl. rewrite IH. by rewrite app_assoc.
Qed.

Definition keep_applied (m : value) : result (list value) :=
  a ← attr_get m "applied"; Ok (if truthy a then [m] else []).

(** Whether a planned merge is applied, and what the judges said. *)
Definition verdict (c : Z) (ea : value * Z) : bool * option value :=
  match verify ea.1 c ea.2 with
  | Some (decision, v) => (String.eqb decision "merge", Some v)
  | None => (true, None)
  end.

Lemma accepted_cons c ea planned :
  accepted c (ea :: planned) =
  (if (verdict c ea).1 then [(ea.2, (verdict c ea).2)] else []) ++ accepted c planned.
Proof.
  destruct ea as [entry a]. unfold accepted, verdict. cbn [omap list_omap fst snd].
  destruct (verify entry c a) as [[d v]|]; [|done]. by destruct (String.eqb d "merge").
Qed.

Lemma apply_merge_step opid now c ea db acc : names c ea ->
  apply_merge uuid_str parse_uuid str_other row_order verify opid now (db, acc) ea.1 =
  Ok (if (verdict c ea).1
      then (absorb opid now ea.2 c db, acc ++ [merge_record uuid_str c ea.2 (touching ea.2 db) (verdict c ea).2 true])
      else (db, acc ++ [merge_record uuid_str c ea.2 [] (verdict c ea).2 false])).
Proof.
  intros (cv & av & Hc & Hc' & Ha & Ha'). unfold apply_merge, verdict.
  rewrite Hc. cbn [mbind result_bind]. rewrite Hc'. cbn [mbind result_bind]. rewrite Ha.
  cbn [mbind result_bind]. rewrite Ha'. cbn [mbind result_bind].
  destruct (verify ea.1 c ea.2) as [[d v]|]; [|done]. cbn [fst snd fmap option_fmap option_map].
  by destruct (String.eqb d "merge").
Qed.

Lemma merges_outcome opid now c planned db acc ms :
  Forall (names c) planned -> extend_m keep_applied acc = Ok ms ->
  exists records,
    fold_r (apply_merge uuid_str parse_uuid str_other row_order verify opid now) (db, acc) (fst <$> planned) =
      Ok (absorb_all opid now c db (fst <$> accepted c planned), records) /\
    extend_m keep_applied records = Ok (ms ++ List.map (record_of c) (trace opid now c db (accepted c planned))).
Proof.
  intros Hp. revert db acc ms. induction Hp as [|ea planned Hn Hp IH]; intros db acc ms Hacc.
  - exists acc. split; [done|]. by rewrite app_nil_r.
  - rewrite fmap_cons. cbn [fold_r]. rewrite (apply_merge_step _ _ c) by done. cbn [mbind result_bind].
    rewrite accepted_cons. destruct (verdict c ea) as [[] v]; cbn [fst snd app].
    + edestruct (IH (absorb opid now ea.2 c db)) as (records & H1 & H2); [|exists records; split; [exact H1|]].
      { eapply extend_m_app; [exact Hacc|reflexivity]. }
      rewrite H2. cbn [trace List.map]. by rewrite <- app_assoc.
    + apply IH. rewrite <- (app_nil_r ms). eapply extend_m_app; [exact Hacc|reflexivity].
Qed.

(** ** A relationship through all the merges *)

(** Where the merges send an entity. *)
Definition rep (as_ : list Z) (c x : Z) : Z := if bool_decide (x ∈ as_) then c else x.

Lemma rep_cases as_ c x : rep as_ c x = c \/ rep as_ c x = x.
Proof. unfold rep. case_bool_decide; tauto. Qed.

(** The merges collapse the relationship: one of its ends is absorbed, and both go to the
    same entity. *)
Definition collapses (as_ : list Z) (c : Z) (r : RelationshipRow) : bool :=
  (bool_decide (rel_source r ∈ as_) || bool_decide (rel_target r ∈ as_))
  && (rep as_ c (rel_source r) =? rep as_ c (rel_target r)).

Definition absorb_row_all (opid : Z) (now : datetime) (c : Z) (as_ : list Z) (r : RelationshipRow) : RelationshipRow :=
  foldl (fun r a => absorb_row opid now a c r) r as_.

Definition same_facts (r r' : RelationshipRow) : Prop :=
  rel_namespace_id r' = rel_namespace_id r /\ rel_type r' = rel_type r /\ rel_valid_to r' = rel_valid_to r.

Lemma absorb_all_rows opid now c db as_ i :
  relationships (absorb_all opid now c db as_) !! i = absorb_row_all opid now c as_ <$> relationships db !! i.
Proof.
  unfold absorb_all, absorb_row_all. revert db. induction as_ as [|a as_ IH]; intros db; simpl.
  - by destruct (relationships db !! i).
  - rewrite IH, absorb_rows. by destruct (relationships db !! i).
Qed.

Lemma absorb_row_all_snoc opid now c as_ a r :
  absorb_row_all opid now c (as_ ++ [a]) r = absorb_row opid now a c (absorb_row_all opid now c as_ r).
Proof. unfold absorb_row_all. by rewrite foldl_app. Qed.

Lemma absorb_row_facts opid now c as_ r : same_facts r (absorb_row_all opid now c as_ r).
Proof.
  induction as_ as [|a as_ IH] using rev_ind; [done|]. rewrite absorb_row_all_snoc. revert IH.
  generalize (absorb_row_all opid now c as_ r) as r'. unfold absorb_row. intros r' (H1 & H2 & H3).
  destruct (touches a r'); [destruct (self_loop a c r')|]; done.
Qed.

Lemma absorb_row_dead opid now c as_ r : rel_invalidated_at r <> None -> absorb_row_all opid now c as_ r = r.
Proof.
  intros H. induction as_ as [|a as_ IH] using rev_ind; [done|]. rewrite absorb_row_all_snoc, IH.
  unfold absorb_row, touches. by rewrite bool_decide_eq_false_2, andb_false_r.
Qed.

Lemma repoint_rep as_ a c x : a ∉ as_ -> c <> a -> repoint a c (rep as_ c x) = rep (as_ ++ [a]) c x.
Proof.
  intros Ha Hc. unfold repoint, rep. destruct (decide (x ∈ as_)) as [Hx|Hx].
  - rewrite (bool_decide_eq_true_2 (x ∈ as_)) by done. rewrite bool_decide_eq_true_2 by set_solver.
    destruct (Z.eqb_spec c a); congruence.
  - rewrite (bool_decide_eq_false_2 (x ∈ as_)) by done. destruct (Z.eqb_spec x a) as [->|].
    + by rewrite bool_decide_eq_true_2 by set_solver.
    + by rewrite bool_decide_eq_false_2 by set_solver.
Qed.

Lemma rep_eq_absorbed as_ a c x : a ∉ as_ -> c <> a -> rep as_ c x = a <-> x = a.
Proof. intros Ha Hc. unfold rep. case_bool_decide; split; congruence. Qed.

Lemma rep_snoc_ne as_ a c x : x <> a -> rep (as_ ++ [a]) c x = rep as_ c x.
Proof.
  intros H. unfold rep. by rewrite (bool_decide_ext (x ∈ as_ ++ [a]) (x ∈ as_)) by set_solver.
Qed.

Lemma collapses_snoc as_ a c r : a ∉ as_ -> c ∉ as_ -> c <> a ->
  collapses (as_ ++ [a]) c r =
  collapses as_ c r
  || ((bool_decide (rel_source r = a) || bool_decide (rel_target r = a))
      && (rep (as_ ++ [a]) c (rel_source r) =? rep (as_ ++ [a]) c (rel_target r))).
Proof.
  intros Ha Hcs Hc. unfold collapses.
  assert (forall x, bool_decide (x ∈ as_ ++ [a]) = bool_decide (x ∈ as_) || bool_decide (x = a)) as E.
  { intros x. apply eq_bool_prop_intro. rewrite orb_True, !bool_decide_spec. set_solver. }
  rewrite !E.
  destruct (bool_decide (rel_source r ∈ as_)) eqn:S, (bool_decide (rel_target r ∈ as_)) eqn:T;
    destruct (bool_decide (rel_source r = a)) eqn:Sa, (bool_decide (rel_target r = a)) eqn:Ta;
    unfold rep; rewrite ?E, ?S, ?T, ?Sa, ?Ta; cbn [orb andb]; rewrite ?Z.eqb_refl, ?orb_true_r; try done;
    repeat match goal with
    | H : bool_decide _ = true |- _ => apply bool_decide_eq_true in H
    | H : bool_decide _ = false |- _ => apply bool_decide_eq_false in H
    end;
    repeat match goal with |- context [?x =? ?y] => destruct (Z.eqb_spec x y) end; try done; congruence.
Qed.

(** The state of a relationship that was not invalidated before the merges. *)
Lemma absorb_row_live opid now c as_ r :
  NoDup as_ -> c ∉ as_ -> rel_invalidated_at r = None ->
  let r' := absorb_row_all opid now c as_ r in
  if collapses as_ c r then rel_invalidated_at r' = Some now /\ rel_invalidated_by r' = Some opid
  else rel_invalidated_at r' = None /\ rel_source r' = rep as_ c (rel_source r)
       /\ rel_target r' = rep as_ c (rel_target r).
Proof.
  intros Hd Hc Hr. induction as_ as [|a as_ IH] using rev_ind; [done|].
  apply NoDup_app in Hd as (Hd & Hdis & _).
  assert (a ∉ as_) as Ha by (intros H; apply (Hdis a H); left).
  assert (c ∉ as_ /\ c <> a) as [Hcs Hca] by set_solver.
  specialize (IH Hd Hcs). cbn zeta in *. rewrite absorb_row_all_snoc, collapses_snoc by done.
  set (r1 := absorb_row_all opid now c as_ r) in *.
  destruct (collapses as_ c r) eqn:Ec; cbn [orb].
  - destruct IH as [I1 I2]. unfold absorb_row, touches. rewrite I1.
    by rewrite bool_decide_eq_false_2, andb_false_r.
  - destruct IH as (I1 & I2 & I3). unfold absorb_row, touches, self_loop. rewrite I1, I2, I3.
    rewrite (bool_decide_eq_true_2 (@None datetime = None)), andb_true_r, !repoint_rep by done.
    assert (forall x, (rep as_ c x =? a) = bool_decide (x = a)) as E.
    { intros x. apply eq_bool_prop_intro. rewrite bool_decide_spec. rewrite <- (rep_eq_absorbed as_ a c x) by done.
      destruct (Z.eqb_spec (rep as_ c x) a); naive_solver. }
    rewrite !E. destruct (bool_decide _ || bool_decide _) eqn:Et; cbn [andb].
    + destruct (_ =? _); done.
    + apply orb_false_iff in Et as [E1%bool_decide_eq_false E2%bool_decide_eq_false].
      rewrite !rep_snoc_ne by done. done.
Qed.

(** ** What the mirror reads off the record *)

Definition loop_ids (a c : Z) (rows : list (Z * RelationshipRow)) : list Z :=
  List.map fst (List.filter (fun kr => self_loop a c kr.2) rows).

Definition same_end (m : gmap Z Z) (r : RelationshipRow) : bool :=
  resolve m (rel_source r) =? resolve m (rel_target r).

(** The edges one applied merge invalidates besides its self-loops, and those it moves. *)
Definition cross_loops (m : gmap Z Z) (loops : gset Z) (rows : list (Z * RelationshipRow)) : list Z :=
  List.map fst (List.filter (fun kr => negb (bool_decide (kr.1 ∈ loops)) && same_end m kr.2) rows).

Definition rewrite_of (m : gmap Z Z) (kr : Z * RelationshipRow) : Rewrite :=
  MkRewrite kr.1 (resolve m (rel_source kr.2)) (resolve m (rel_target kr.2)) (default "" (rel_type kr.2)).

Definition moves (m : gmap Z Z) (loops : gset Z) (r : Z * RelationshipRow) : bool :=
  negb (bool_decide (r.1 ∈ loops)) && negb (same_end m r.2)
  && negb ((resolve m (rel_source r.2) =? rel_source r.2) && (resolve m (rel_target r.2) =? rel_target r.2)).

Lemma text_or_empty_opt o : text_or_empty str_other (opt_text o) = default "" o.
Proof. destruct o; [apply text_or_empty_str|done]. Qed.

Lemma mirror_previous_step m loops inv rws kr :
  mirror_previous parse_uuid str_other m loops (inv, rws) (previous_relationship uuid_str kr) =
  Ok (if bool_decide (kr.1 ∈ loops) then (inv, rws)
      else if same_end m kr.2 then (inv ++ [kr.1], rws)
      else if moves m loops kr then (inv, rws ++ [rewrite_of m kr]) else (inv, rws)).
Proof.
  destruct kr as [i r]. unfold mirror_previous, previous_relationship, moves, same_end.
  cbn [attr_get dict_get String.eqb app Ascii.eqb Bool.eqb mbind result_bind from_option id fst snd].
  rewrite !(coerce_VUuid _ _ str_other _ _ TF).
  destruct (bool_decide (i ∈ loops)); [done|]. destruct (_ =? _) eqn:E; [done|].
  cbn [negb andb]. destruct (_ && _); [done|]. cbn [negb]. unfold rewrite_of. cbn [fst snd].
  by rewrite text_or_empty_opt.
Qed.

Lemma mirror_previous_rows m loops rows inv rws :
  fold_r (mirror_previous parse_uuid str_other m loops) (inv, rws)
    (List.map (previous_relationship uuid_str) rows) =
  Ok (inv ++ cross_loops m loops rows, rws ++ List.map (rewrite_of m) (List.filter (moves m loops) rows)).
Proof.
  revert inv rws. induction rows as [|kr rows IH]; intros inv rws.
  - cbn. by rewrite !app_nil_r.
  - cbn [List.map fold_r]. rewrite mirror_previous_step. cbn [mbind result_bind].
    unfold cross_loops. cbn [List.filter].
    destruct (bool_decide (kr.1 ∈ loops)) eqn:B.
    { rewrite IH. cbn [negb andb]. unfold moves at 2. by rewrite B. }
    destruct (same_end m kr.2) eqn:E.
    { rewrite IH. cbn [negb andb]. unfold moves at 2. rewrite B, E. cbn. by rewrite <- app_assoc. }
    cbn [negb andb]. destruct (moves m loops kr); rewrite IH; [|done]. cbn. by rewrite <- app_assoc.
Qed.

Lemma coerce_list l : omap coerce (List.map VU l) = l.
Proof. apply (coerce_map _ _ _ _ _ TF). Qed.

Definition loops_of (c : Z) (e : Z * list (Z * RelationshipRow) * option value) : gset Z :=
  list_to_set (loop_ids e.1.1 c e.1.2).

Lemma mirror_merge_record m c t e :
  mirror_merge parse_uuid str_other set_iter m t (record_of c e) =
  Ok (MkTargets (retire_entity_ids t ++ [e.1.1])
        (invalidate_relationship_ids t ++ set_iter (loops_of c e) ++ cross_loops m (loops_of c e) e.1.2)
        (rewrite_relationships t ++ List.map (rewrite_of m) (List.filter (moves m (loops_of c e)) e.1.2))).
Proof.
  destruct e as [[a rows] v]. unfold mirror_merge, record_of, merge_record. cbn [fst snd].
  cbn [attr_get dict_get String.eqb app Ascii.eqb Bool.eqb mbind result_bind from_option id].
  rewrite (items_list _ "self_loops_invalidated" (List.map (fun kr => VU kr.1) (List.filter (fun kr => self_loop a c kr.2) rows))) by done.
  cbn [mbind result_bind].
  rewrite (items_list _ "previous_relationships" (List.map (previous_relationship uuid_str) rows)) by done. cbn [mbind result_bind].
  assert (omap coerce (List.map (fun kr : Z * RelationshipRow => VU kr.1)
    (List.filter (fun kr => self_loop a c kr.2) rows)) = loop_ids a c rows) as ->.
  { unfold loop_ids. rewrite <- coerce_list, List.map_map. done. }
  rewrite mirror_previous_rows. cbn [mbind result_bind]. rewrite (coerce_VUuid _ _ str_other _ _ TF).
  cbn [option_list]. unfold loops_of. cbn [fst snd]. by rewrite <- app_assoc.
Qed.

Lemma mirror_merges m c t tr :
  fold_r (mirror_merge parse_uuid str_other set_iter m) t (List.map (record_of c) tr) =
  Ok (MkTargets (retire_entity_ids t ++ List.map (fun e => e.1.1) tr)
        (invalidate_relationship_ids t
           ++ List.concat (List.map (fun e => set_iter (loops_of c e) ++ cross_loops m (loops_of c e) e.1.2) tr))
        (rewrite_relationships t
           ++ List.concat (List.map (fun e => List.map (rewrite_of m) (List.filter (moves m (loops_of c e)) e.1.2)) tr))).
Proof.
  revert t. induction tr as [|e tr IH]; intros t.
  - cbn. rewrite !app_nil_r. by destruct t.
  - cbn [List.map fold_r]. rewrite mirror_merge_record. cbn [mbind result_bind]. rewrite IH. cbn [retire_entity_ids
      invalidate_relationship_ids rewrite_relationships List.concat]. by rewrite <- !app_assoc.
Qed.

(** The remap of the mirror is the one of the handler. *)
Definition remap_of (c : Z) (as_ : list Z) (m : gmap Z Z) : gmap Z Z := foldl (fun m a => <[a := c]> m) m as_.

Lemma remap_entry_step c e m :
  remap_entry parse_uuid str_other m (record_of c e) = Ok (<[e.1.1 := c]> m).
Proof.
  destruct e as [[a rows] v]. unfold remap_entry, record_of, merge_record.
  cbn [attr_get dict_get String.eqb app Ascii.eqb Bool.eqb mbind result_bind from_option id].
  by rewrite !(coerce_VUuid _ _ str_other _ _ TF).
Qed.

Lemma remap_entries c tr m :
  fold_r (remap_entry parse_uuid str_other) m (List.map (record_of c) tr) =
  Ok (remap_of c (List.map (fun e => e.1.1) tr) m).
Proof.
  revert m. induction tr as [|e tr IH]; intros m; [done|].
  cbn [List.map fold_r]. rewrite remap_entry_step. apply IH.
Qed.

Lemma resolve_remap c as_ x : resolve (remap_of c as_ ∅) x = rep as_ c x.
Proof.
  unfold resolve, rep. induction as_ as [|a as_ IH] using rev_ind; [done|].
  unfold remap_of in *. rewrite foldl_app. cbn [foldl]. destruct (decide (x = a)) as [->|Hne].
  - rewrite lookup_insert_eq. by rewrite bool_decide_eq_true_2 by set_solver.
  - rewrite lookup_insert_ne, IH by done. by rewrite (bool_decide_ext (x ∈ as_ ++ [a]) (x ∈ as_)) by set_solver.
Qed.

Lemma trace_ids opid now c db l : List.map (fun e => e.1.1) (trace opid now c db l) = fst <$> l.
Proof. revert db. induction l as [|[a v] l IH]; intros db; [done|]. csimpl. by rewrite IH. Qed.

(** ** Two stores that agree *)

Definition live_relationship (ns : Z) (r : RelationshipRow) : bool :=
  (rel_namespace_id r =? ns) && bool_decide (rel_valid_to r = None) && bool_decide (rel_invalidated_at r = None).

(** The live relationship [i] of a namespace, as each store shows it: its ends and its
    label. *)
Definition db_view (ns : Z) (db : Db) (i : Z) : option (Z * Z * string) :=
  match relationships db !! i with
  | Some r => if live_relationship ns r
              then Some (rel_source r, rel_target r, sanitize_cypher_label (default "" (rel_type r))) else None
  | None => None
  end.

Definition graph_view (ns : Z) (g : Graph) (i : Z) : option (Z * Z * string) :=
  match edges g !! i with
  | Some e => if live_edge ns e then Some (e_source e, e_target e, e_label e) else None
  | None => None
  end.

Definition db_alive (ns : Z) (db : Db) (i : Z) : bool :=
  match entities db !! i with
  | Some e => (ent_namespace_id e =? ns) && bool_decide (ent_valid_until e = None)
  | None => false
  end.

Definition graph_alive (ns : Z) (g : Graph) (i : Z) : bool :=
  match nodes g !! i with Some n => live_node ns n | None => false end.

(** The stores show the same live rows, and the graph has a node for each end of a live
    edge. *)
Record agree (ns : Z) (db : Db) (g : Graph) : Prop := {
  agree_edges : forall i, db_view ns db i = graph_view ns g i;
  agree_nodes : forall i, db_alive ns db i = graph_alive ns g i;
  agree_ends : forall i s t l, graph_view ns g i = Some (s, t, l) -> present ns g s = true /\ present ns g t = true }.

Lemma touches_absorbed a r : touches a r = true -> rel_source r = a \/ rel_target r = a.
Proof. unfold touches. intros [[?|?]%orb_true_iff _]%andb_true_iff; [left|right]; by apply Z.eqb_eq. Qed.

(** The rows of the trace, in terms of the rows at the start. *)
Lemma trace_elem opid now c db l e :
  e ∈ trace opid now c db l <->
  exists l1 a v l2, l = l1 ++ (a, v) :: l2 /\ e = (a, touching a (absorb_all opid now c db (fst <$> l1)), v).
Proof.
  revert db. induction l as [|[a v] l IH]; intros db; cbn [trace].
  - split; [by intros ?%not_elem_of_nil|]. intros ([] & a & v & l2 & ? & _); done.
  - rewrite elem_of_cons, IH. split.
    + intros [->|(l1 & a' & v' & l2 & -> & ->)]; [by exists [], a, v, l|].
      exists ((a, v) :: l1), a', v', l2. done.
    + intros ([|[a1 v1] l1] & a' & v' & l2 & E & ->); simplify_eq/=; [by left|]. right. by exists l1, a', v', l2.
Qed.

Lemma elem_of_concat_map {A B} (f : A -> list B) xs y :
  y ∈ List.concat (List.map f xs) <-> exists x, x ∈ xs /\ y ∈ f x.
Proof.
  induction xs as [|x xs IH]; simpl.
  - split; [by intros ?%not_elem_of_nil|]. by intros (x & ?%not_elem_of_nil & _).
  - rewrite elem_of_app, IH. setoid_rewrite elem_of_cons. naive_solver.
Qed.

Lemma nodup_concat_map {A B} (f : A -> list B) xs :
  NoDup xs -> (forall x, x ∈ xs -> NoDup (f x)) ->
  (forall x y z, x ∈ xs -> y ∈ xs -> z ∈ f x -> z ∈ f y -> x = y) ->
  NoDup (List.concat (List.map f xs)).
Proof.
  induction xs as [|x xs IH]; intros Hd Hf Hx; simpl; [constructor|].
  apply NoDup_cons in Hd as [Hn Hd]. apply NoDup_app. split_and!.
  - apply Hf. left.
  - intros z Hz (y & Hy & Hzy)%elem_of_concat_map. apply Hn.
    assert (x = y) as -> by (eapply Hx; [left|by right|done|done]). done.
  - apply IH; [done|intros; apply Hf; by right|]. intros y1 y2 z H1 H2. apply Hx; by right.
Qed.

Section outcome.
Context (opid : Z) (now : datetime) (c : Z) (db : Db) (l : list (Z * option value)).
Context (Hd : NoDup (fst <$> l)) (Hc : c ∉ fst <$> l).

Local Abbreviation as_ := (fst <$> l).
Local Abbreviation m := (remap_of c (List.map (fun e => e.1.1) (trace opid now c db l)) ∅).

Lemma resolve_m x : resolve m x = rep as_ c x.
Proof. rewrite trace_ids. apply resolve_remap. Qed.

Lemma rep_rep l1 x : (forall a, a ∈ l1 -> a ∈ as_) -> rep as_ c (rep l1 c x) = rep as_ c x.
Proof.
  intros H. unfold rep at 2. case_bool_decide as Hx; [|done]. unfold rep.
  rewrite (bool_decide_eq_true_2 (x ∈ as_)) by auto. by case_bool_decide.
Qed.

(** A row that some merge sees: its first state was live, it is incident to the absorbed
    entity, and its ends resolve as they did at the start. *)
Lemma seen_row e i r : e ∈ trace opid now c db l -> (i, r) ∈ e.1.2 ->
  exists r0, relationships db !! i = Some r0 /\ rel_invalidated_at r0 = None /\
    touches e.1.1 r = true /\ e.1.1 ∈ as_ /\ (rel_source r0 = e.1.1 \/ rel_target r0 = e.1.1) /\
    rep as_ c (rel_source r) = rep as_ c (rel_source r0) /\ rep as_ c (rel_target r) = rep as_ c (rel_target r0).
Proof.
  intros (l1 & a & v & l2 & El & ->)%trace_elem. cbn [fst snd]. intros [Hr Ht]%elem_of_touching.
  rewrite absorb_all_rows in Hr. destruct (relationships db !! i) as [r0|] eqn:E0; [|done]. simpl in Hr.
  injection Hr as <-. exists r0. split; [done|].
  assert (rel_invalidated_at r0 = None) as Hi.
  { destruct (rel_invalidated_at r0) as [x|] eqn:E; [|done].
    rewrite absorb_row_dead in Ht by congruence. unfold touches in Ht.
    rewrite E, bool_decide_eq_false_2, andb_false_r in Ht by done. done. }
  split; [done|]. split; [done|].
  assert (NoDup (fst <$> l1) /\ c ∉ fst <$> l1 /\ forall x, x ∈ fst <$> l1 -> x ∈ as_) as (Hd1 & Hc1 & Hs).
  { rewrite El, fmap_app in Hd, Hc |- *. apply NoDup_app in Hd as (? & _ & _). split_and!; set_solver. }
  assert (a ∈ as_ /\ a ∉ fst <$> l1) as [Ha Ha1].
  { rewrite El, fmap_app in Hd |- *. apply NoDup_app in Hd as (_ & Hdis & _). split; [set_solver|].
    intros Hin. apply (Hdis _ Hin). left. }
  split; [done|].
  pose proof (absorb_row_live opid now c (fst <$> l1) r0 Hd1 Hc1 Hi) as H. cbn zeta in H.
  destruct (collapses (fst <$> l1) c r0).
  - destruct H as [H _]. unfold touches in Ht. rewrite H, bool_decide_eq_false_2, andb_false_r in Ht by done. done.
  - destruct H as (_ & E1 & E2). rewrite E1, E2, !rep_rep by done. split; [|done].
    apply touches_absorbed in Ht. rewrite E1, E2, !rep_eq_absorbed in Ht by (done || set_solver). done.
Qed.

(** Membership in the invalidated ids. *)
Lemma in_loops e i : e ∈ trace opid now c db l -> i ∈ loops_of c e ->
  exists r, (i, r) ∈ e.1.2 /\ self_loop e.1.1 c r = true.
Proof.
  intros He Hi. unfold loops_of, loop_ids in Hi. apply elem_of_list_to_set, list_elem_of_In, in_map_iff in Hi.
  destruct Hi as ([j r] & <- & Hj). apply filter_In in Hj as [Hj Hs]. exists r. split; [by apply list_elem_of_In|done].
Qed.

Lemma self_loop_same a r : a ∈ as_ -> self_loop a c r = true -> same_end m r = true.
Proof.
  intros Ha Hs%Z.eqb_eq. unfold same_end. rewrite !resolve_m. apply Z.eqb_eq.
  assert (forall x, rep as_ c (repoint a c x) = rep as_ c x) as E.
  { intros x. unfold repoint. destruct (Z.eqb_spec x a) as [->|]; [|done]. unfold rep.
    rewrite (bool_decide_eq_true_2 (a ∈ as_)) by done. by case_bool_decide. }
  by rewrite <- E, Hs, E.
Qed.

Definition inv_ids : list Z :=
  List.concat (List.map (fun e => set_iter (loops_of c e) ++ cross_loops m (loops_of c e) e.1.2)
    (trace opid now c db l)).

Lemma elem_of_inv_ids i :
  i ∈ inv_ids <-> exists e r, e ∈ trace opid now c db l /\ (i, r) ∈ e.1.2 /\ same_end m r = true.
Proof.
  unfold inv_ids. rewrite elem_of_concat_map. split.
  - intros (e & He & Hi). apply elem_of_app in Hi as [Hi|Hi].
    + rewrite set_iter_perm, elem_of_elements in Hi. destruct (in_loops e i He Hi) as (r & Hr & Hs).
      exists e, r. split_and!; [done..|]. destruct (seen_row e i r He Hr) as (_ & _ & _ & _ & Ha & _).
      by eapply self_loop_same.
    + unfold cross_loops in Hi. apply list_elem_of_In, in_map_iff in Hi as ([j r] & <- & Hj).
      apply filter_In in Hj as [Hj [_ Hs]%andb_true_iff]. exists e, r. split_and!; [done|by apply list_elem_of_In|done].
  - intros (e & r & He & Hr & Hs). exists e. split; [done|]. apply elem_of_app.
    destruct (decide (i ∈ loops_of c e)) as [Hl|Hl].
    + left. by rewrite set_iter_perm, elem_of_elements.
    + right. unfold cross_loops. apply list_elem_of_In, in_map_iff. exists (i, r). split; [done|].
      apply filter_In. rewrite <- list_elem_of_In. split; [done|]. cbn [fst snd].
      by rewrite bool_decide_eq_false_2, Hs by done.
Qed.

(** *** The edges the mirror moves *)

Lemma absorb_row_untouched as1 r : rel_source r ∉ as1 -> rel_target r ∉ as1 ->
  absorb_row_all opid now c as1 r = r.
Proof.
  intros Hs Ht. unfold absorb_row_all. induction as1 as [|a as1 IH]; [done|]. simpl.
  apply not_elem_of_cons in Hs as [Hs Hs'], Ht as [Ht Ht'].
  unfold absorb_row at 2, touches. rewrite (proj2 (Z.eqb_neq _ _) Hs), (proj2 (Z.eqb_neq _ _) Ht). by apply IH.
Qed.

Lemma first_hit s t : s ∈ as_ \/ t ∈ as_ ->
  exists l1 a v l2, l = l1 ++ (a, v) :: l2 /\ (s = a \/ t = a) /\ s ∉ fst <$> l1 /\ t ∉ fst <$> l1.
Proof.
  clear Hd Hc. induction l as [|[a v] l' IH]; [by intros [?%not_elem_of_nil|?%not_elem_of_nil]|].
  intros H. destruct (decide (s = a \/ t = a)) as [Ha|Ha].
  - exists [], a, v, l'. split_and!; [done|done|apply not_elem_of_nil..].
  - destruct IH as (l1 & a' & v' & l2 & -> & H1 & H2 & H3); [set_solver|].
    exists ((a, v) :: l1), a', v', l2. split_and!; [done|done|set_solver..].
Qed.

(** A live row with an absorbed end is seen, as it was at the start, by some merge. *)
Lemma seen_first i r0 : relationships db !! i = Some r0 -> rel_invalidated_at r0 = None ->
  rel_source r0 ∈ as_ \/ rel_target r0 ∈ as_ ->
  exists e, e ∈ trace opid now c db l /\ (i, r0) ∈ e.1.2.
Proof.
  intros Hr Hi (l1 & a & v & l2 & El & Ha & Hs & Ht)%first_hit.
  exists (a, touching a (absorb_all opid now c db (fst <$> l1)), v). split; [apply trace_elem; by exists l1, a, v, l2|].
  cbn [fst snd]. apply elem_of_touching. rewrite absorb_all_rows, Hr. simpl. rewrite absorb_row_untouched by done.
  split; [done|]. unfold touches. rewrite Hi, bool_decide_eq_true_2, andb_true_r by done.
  destruct Ha as [->| ->]; by rewrite Z.eqb_refl, ?orb_true_r.
Qed.

(** A row whose ends stay apart is seen unchanged, by one merge. *)
Lemma seen_apart e i r : e ∈ trace opid now c db l -> (i, r) ∈ e.1.2 -> same_end m r = false ->
  relationships db !! i = Some r /\ (rel_source r = e.1.1 \/ rel_target r = e.1.1).
Proof.
  intros He Hr Hne. destruct (seen_row e i r He Hr) as (r0 & Hr0 & Hi & Ht & Ha & Hend & Es & Et).
  unfold same_end in Hne. rewrite !resolve_m, Es, Et in Hne. apply Z.eqb_neq in Hne.
  apply trace_elem in He as (l1 & a & v & l2 & El & ->). cbn [fst snd] in *.
  assert (forall x, x ∈ fst <$> l1 -> x ∈ as_ /\ x <> a) as Hl1.
  { intros x Hx. rewrite El, fmap_app in Hd |- *. apply NoDup_app in Hd as (_ & Hdis & _). split; [set_solver|].
    intros ->. apply (Hdis _ Hx). left. }
  assert (forall x, x ∈ as_ -> rep as_ c x = c) as Hrep.
  { intros x Hx. unfold rep. by rewrite bool_decide_eq_true_2. }
  assert (rel_source r0 ∉ fst <$> l1 /\ rel_target r0 ∉ fst <$> l1) as [Hs1 Ht1].
  { split; intros Hx; destruct (Hl1 _ Hx) as [Hx1 Hx2]; apply Hne; destruct Hend as [E|E]; try congruence;
      rewrite !Hrep; congruence. }
  apply elem_of_touching in Hr as [Hr _]. rewrite absorb_all_rows, Hr0 in Hr. simpl in Hr.
  rewrite absorb_row_untouched in Hr by done. injection Hr as <-. done.
Qed.

Definition moved_edges : list Rewrite :=
  List.concat (List.map (fun e => List.map (rewrite_of m) (List.filter (moves m (loops_of c e)) e.1.2))
    (trace opid now c db l)).

Lemma moves_apart e i r : e ∈ trace opid now c db l -> (i, r) ∈ e.1.2 ->
  moves m (loops_of c e) (i, r) = negb (same_end m r).
Proof.
  intros He Hr. unfold moves. cbn [fst snd]. destruct (same_end m r) eqn:Es; [by rewrite andb_false_r|].
  rewrite bool_decide_eq_false_2.
  2:{ intros Hl. destruct (in_loops e i He Hl) as (r' & Hr' & Hs).
      destruct (seen_apart e i r He Hr Es) as [H1 _].
      assert (r' = r) as ->.
      { apply trace_elem in He as (l1 & a & v & l2 & El & ->). cbn [fst snd] in *.
        apply elem_of_touching in Hr as [Hr _], Hr' as [Hr' _]. congruence. }
      destruct (seen_row e i r He Hr) as (_ & _ & _ & _ & Ha & _).
      rewrite (self_loop_same _ _ Ha Hs) in Es. done. }
  cbn [negb andb]. destruct (seen_apart e i r He Hr Es) as [_ Hend].
  destruct (seen_row e i r He Hr) as (_ & _ & _ & _ & Ha & _).
  assert (rep as_ c e.1.1 <> e.1.1) as Hne.
  { unfold rep. rewrite bool_decide_eq_true_2 by done. intros E. apply Hc. by rewrite E. }
  rewrite !resolve_m. destruct Hend as [E|E]; rewrite E;
    rewrite (proj2 (Z.eqb_neq _ _) Hne), ?andb_false_r; done.
Qed.

Lemma elem_of_moved r :
  r ∈ moved_edges <->
  exists e i row, e ∈ trace opid now c db l /\ (i, row) ∈ e.1.2 /\ same_end m row = false /\ r = rewrite_of m (i, row).
Proof.
  unfold moved_edges. rewrite elem_of_concat_map. split.
  - intros (e & He & Hr). apply list_elem_of_In, in_map_iff in Hr as ([i row] & <- & Hi).
    apply filter_In in Hi as [Hi Hm]. apply list_elem_of_In in Hi. rewrite (moves_apart e) in Hm by done.
    exists e, i, row. split_and!; [done..| |done]. by destruct (same_end m row).
  - intros (e & i & row & He & Hi & Hs & ->). exists e. split; [done|].
    apply list_elem_of_In, in_map_iff. exists (i, row). split; [done|]. apply filter_In.
    rewrite <- list_elem_of_In. by rewrite (moves_apart e), Hs.
Qed.

Lemma trace_nodup : NoDup (trace opid now c db l).
Proof.
  apply (NoDup_fmap_1 (fun e => e.1.1)). change (NoDup (List.map (fun e => e.1.1) (trace opid now c db l))).
  by rewrite trace_ids.
Qed.

Lemma moved_nodup : NoDup (rw_id <$> moved_edges).
Proof.
  assert (rw_id <$> moved_edges = List.concat (List.map
    (fun e => List.map fst (List.filter (moves m (loops_of c e)) e.1.2)) (trace opid now c db l))) as ->.
  { unfold moved_edges. change (rw_id <$> ?x) with (List.map rw_id x).
    rewrite List.concat_map, List.map_map. f_equal. apply map_ext. intros e. by rewrite List.map_map. }
  assert (forall e i, e ∈ trace opid now c db l ->
    i ∈ List.map fst (List.filter (moves m (loops_of c e)) e.1.2) -> exists r, (i, r) ∈ e.1.2 /\ same_end m r = false)
    as Hin.
  { intros e i He Hi. apply list_elem_of_In, in_map_iff in Hi as ([j r] & <- & Hj).
    apply filter_In in Hj as [Hj Hm]. apply list_elem_of_In in Hj. rewrite (moves_apart e) in Hm by done.
    exists r. split; [done|]. by destruct (same_end m r). }
  apply nodup_concat_map; [apply trace_nodup|..].
  - intros e (l1 & a & v & l2 & El & ->)%trace_elem. cbn [fst snd].
    assert (forall p (xs : list (Z * RelationshipRow)), NoDup xs.*1 -> NoDup (List.map fst (List.filter p xs))) as H.
    { intros p xs. induction xs as [|x xs IH]; intros Hx; [constructor|]. csimpl in Hx.
      apply NoDup_cons in Hx as [Hx1 Hx2]. simpl. destruct (p x); [|by apply IH]. simpl. constructor; [|by apply IH].
      intros Hx. apply Hx1. apply list_elem_of_In, in_map_iff in Hx as (y & <- & Hy).
      apply list_elem_of_fmap_2. apply filter_In in Hy as [Hy _]. by apply list_elem_of_In. }
    apply H, touching_nodup.
  - intros e e' i He He' Hi Hi'.
    destruct (Hin e i He Hi) as (r & Hr & Hs), (Hin e' i He' Hi') as (r' & Hr' & Hs').
    destruct (seen_apart e i r He Hr Hs) as [H1 E1], (seen_apart e' i r' He' Hr' Hs') as [H2 E2].
    assert (r' = r) as -> by congruence.
    destruct (seen_row e i r He Hr) as (_ & _ & _ & _ & Ha & _), (seen_row e' i r He' Hr') as (_ & _ & _ & _ & Ha' & _).
    assert (e.1.1 = e'.1.1) as Eid.
    { assert (forall x, x ∈ as_ -> rep as_ c x = c) as Hrep by (intros x Hx; unfold rep; by rewrite bool_decide_eq_true_2).
      unfold same_end in Hs. rewrite !resolve_m in Hs. apply Z.eqb_neq in Hs.
      destruct E1 as [E1|E1], E2 as [E2|E2]; try congruence; exfalso; apply Hs; rewrite E1, E2, !Hrep; done. }
    apply trace_elem in He as (l1 & a & v & l2 & El & ->), He' as (l1' & a' & v' & l2' & El' & ->).
    cbn [fst] in Eid. subst a'.
    assert (l1 = l1') as <-.
    { assert (Es : l1 ++ (a, v) :: l2 = l1' ++ (a, v') :: l2') by congruence.
      assert (Hd' : NoDup (fst <$> (l1 ++ (a, v) :: l2))) by (by rewrite <- El).
      clear -Es Hd'. revert l1' Es Hd'. induction l1 as [|[x y] l1 IH]; intros [|[x' y'] l1'] Es Hd'; simplify_eq/=.
      - done.
      - exfalso. apply NoDup_cons in Hd' as [Hn _]. apply Hn. rewrite fmap_app. set_solver.
      - exfalso. apply NoDup_cons in Hd' as [Hn _]. apply Hn. rewrite fmap_app. set_solver.
      - f_equal. apply NoDup_cons in Hd' as [_ Hd']. by apply IH. }
    assert (Es : l1 ++ (a, v) :: l2 = l1 ++ (a, v') :: l2') by congruence.
    apply app_inv_head in Es. by simplify_eq.
Qed.

(** What the mirror does to edge [i], in terms of its row at the start. *)
Lemma find_moved i :
  find_rw i moved_edges =
  match relationships db !! i with
  | Some r0 =>
      if bool_decide (rel_invalidated_at r0 = None)
         && (bool_decide (rel_source r0 ∈ as_) || bool_decide (rel_target r0 ∈ as_))
         && negb (rep as_ c (rel_source r0) =? rep as_ c (rel_target r0))
      then Some (MkRewrite i (rep as_ c (rel_source r0)) (rep as_ c (rel_target r0)) (default "" (rel_type r0)))
      else None
  | None => None
  end.
Proof.
  destruct (find_rw i moved_edges) as [r|] eqn:Hf.
  - apply find_rw_Some in Hf as [(e & j & row & He & Hj & Hs & ->)%elem_of_moved Hi]. cbn in Hi. subst j.
    destruct (seen_apart e i row He Hj Hs) as [Hr Hend].
    destruct (seen_row e i row He Hj) as (r0 & Hr0 & Hinv & _ & Ha & _). assert (r0 = row) as -> by congruence. rewrite Hr, Hinv.
    unfold same_end in Hs. rewrite !resolve_m in Hs. rewrite Hs.
    rewrite (bool_decide_eq_true_2 (None = None)) by done.
    assert (bool_decide (rel_source row ∈ as_) || bool_decide (rel_target row ∈ as_) = true) as ->.
    { destruct Hend as [E|E]; rewrite E, (bool_decide_eq_true_2 (e.1.1 ∈ as_)) by done; by rewrite ?orb_true_r. }
    cbn [andb negb]. unfold rewrite_of. cbn [fst snd]. by rewrite !resolve_m.
  - apply find_rw_None in Hf. destruct (relationships db !! i) as [r0|] eqn:Hr; [|done].
    destruct (_ && _ && _) eqn:B; [|done]. exfalso. apply Hf.
    apply andb_true_iff in B as [[Hinv%bool_decide_eq_true Hin]%andb_true_iff Hne%negb_true_iff].
    assert (rel_source r0 ∈ as_ \/ rel_target r0 ∈ as_) as Hin'.
    { apply orb_true_iff in Hin as [?%bool_decide_eq_true|?%bool_decide_eq_true]; tauto. }
    destruct (seen_first i r0 Hr Hinv Hin') as (e & He & Hi).
    apply list_elem_of_fmap. exists (rewrite_of m (i, r0)). split; [done|]. apply elem_of_moved.
    exists e, i, r0. split_and!; [done..| |done]. unfold same_end. by rewrite !resolve_m.
Qed.

Lemma in_inv i :
  i ∈ inv_ids <->
  exists r0, relationships db !! i = Some r0 /\ rel_invalidated_at r0 = None /\ collapses as_ c r0 = true.
Proof.
  rewrite elem_of_inv_ids. split.
  - intros (e & r & He & Hr & Hs). destruct (seen_row e i r He Hr) as (r0 & Hr0 & Hi & Ht & Ha & Hend & Es & Et).
    exists r0. split_and!; [done..|]. unfold same_end in Hs. rewrite !resolve_m, Es, Et in Hs.
    unfold collapses. rewrite Hs, andb_true_r. apply orb_true_iff.
    destruct Hend as [E|E]; rewrite E; [left|right]; by apply bool_decide_eq_true_2.
  - intros (r0 & Hr0 & Hi & [Hin Heq]%andb_true_iff).
    assert (rel_source r0 ∈ as_ \/ rel_target r0 ∈ as_) as Hin'.
    { apply orb_true_iff in Hin as [?%bool_decide_eq_true|?%bool_decide_eq_true]; tauto. }
    destruct (seen_first i r0 Hr0 Hi Hin') as (e & He & Hr). exists e, r0. split_and!; [done..|].
    unfold same_end. by rewrite !resolve_m.
Qed.
End outcome.

(** ** The stores after an operation *)

Lemma live_edge_rewritten p ns rws i e : live_edge ns (rewritten p ns rws i e) = live_edge ns e.
Proof.
  unfold rewritten. destruct (find_rw i rws); [|done]. unfold rewritten_by.
  destruct (p _ && p _); [apply live_edge_rewrite|done].
Qed.

(** Where the mirror puts a live edge. *)
Lemma graph_view_mirror t ns s cs g i : well_formed t cs ->
  graph_view ns (run_calls (apply_mirror_targets t ns s cs) g) i =
  match graph_view ns g i with
  | None => None
  | Some (src, tgt, l) =>
      if bool_decide (i ∈ invalidate_relationship_ids t) then None
      else Some match find_rw i (rewrite_relationships t) with
                | Some r => if present ns g (rw_source r) && present ns g (rw_target r) && String.eqb l (rw_label r)
                            then (rw_source r, rw_target r, l) else (src, tgt, l)
                | None => (src, tgt, l)
                end
  end.
Proof.
  intros W. unfold graph_view. destruct (mirror_rows t ns s cs g W) as [-> _].
  destruct (edges g !! i) as [e|]; simpl; [|done].
  unfold invalidated. rewrite live_edge_rewritten. destruct (live_edge ns e) eqn:Hl.
  - rewrite andb_true_r. destruct (bool_decide (i ∈ _)) eqn:B; [by rewrite live_edge_dead|].
    rewrite live_edge_rewritten, Hl. f_equal. unfold rewritten.
    destruct (find_rw i _) as [r|]; [|done]. unfold rewritten_by, rewrite_edge.
    apply andb_true_iff in Hl as [-> _]. cbn [andb].
    destruct (present ns g (rw_source r) && present ns g (rw_target r)); [|done]. cbn [andb].
    destruct (String.eqb_spec (e_label e) (rw_label r)) as [El|]; [|done]. cbn [andb].
    destruct (Z.eqb_spec (e_source e) (rw_source r)), (Z.eqb_spec (e_target e) (rw_target r)); cbn; congruence.
  - rewrite andb_false_r, live_edge_rewritten, Hl. done.
Qed.

Lemma graph_alive_mirror t ns s cs g i : well_formed t cs ->
  graph_alive ns (run_calls (apply_mirror_targets t ns s cs) g) i =
  graph_alive ns g i && negb (bool_decide (i ∈ retire_entity_ids t)).
Proof.
  intros W. unfold graph_alive. destruct (mirror_rows t ns s cs g W) as [_ ->].
  destruct (nodes g !! i) as [n|]; simpl; [|done]. unfold retired.
  destruct (bool_decide _), (live_node ns n) eqn:E; cbn; rewrite ?E; try done.
  unfold live_node. cbn. by rewrite andb_false_r.
Qed.

Lemma present_mirror t ns s cs g i : well_formed t cs ->
  present ns (run_calls (apply_mirror_targets t ns s cs) g) i = present ns g i.
Proof.
  intros W. unfold present, in_namespace. destruct (mirror_rows t ns s cs g W) as [_ ->].
  destruct (nodes g !! i) as [n|]; simpl; [|done]. unfold retired. by destruct (_ && _).
Qed.

Lemma absorb_all_entities opid now c db as_ i :
  entities (absorb_all opid now c db as_) !! i =
  (fun e => if bool_decide (i ∈ as_) then retire_absorbed now e else e) <$> entities db !! i.
Proof.
  assert (entities (absorb_all opid now c db as_) = update_all (retire_absorbed now) as_ (entities db)) as ->.
  { unfold absorb_all, update_all. revert db. induction as_ as [|a as_ IH]; intros db; [done|]. simpl.
    by rewrite IH, absorb_entities. }
  apply lookup_update_all. left. intros e. unfold retire_absorbed. destruct (ent_valid_until e) eqn:E; [by rewrite E|done].
Qed.

Lemma dedupe_outcome op now db c planned :
  op_type op = DEDUPE_ENTITIES ->
  items (match op_outputs op with x :: _ => x | [] => VDict [] end) "merges" = Ok (fst <$> planned) ->
  Forall (names c) planned ->
  let l := accepted c planned in
  exists undo,
    apply_vectorcypher_dedupe_entities uuid_str parse_uuid str_other row_order verify op now db =
      Ok (undo, absorb_all (op_id op) now c db (fst <$> l)) /\
    u_applied_at undo = now /\
    extract_mirror_targets parse_uuid str_other set_iter (op_type op) (u_before undo) =
      Ok (MkTargets (fst <$> l) (inv_ids (op_id op) now c db l) (moved_edges (op_id op) now c db l)).
Proof.
  intros Ht Hit Hp l.
  destruct (merges_outcome (op_id op) now c planned db [] [] Hp eq_refl) as (records & H1 & H2).
  unfold apply_vectorcypher_dedupe_entities. rewrite Hit. cbn [mbind result_bind]. rewrite H1. cbn [mbind result_bind].
  eexists. split; [done|]. split; [done|]. rewrite Ht. unfold extract_mirror_targets. cbn [u_before].
  change (mem_str DEDUPE_ENTITIES [PRUNE_EDGES; CONTRADICTION_RECONCILE]) with false.
  change (String.eqb DEDUPE_ENTITIES DEDUPE_ENTITIES) with true. cbn [andb].
  assert (applied_merges (VDict [("merges", VList records)]) = Ok (List.map (record_of c) (trace (op_id op) now c db l)))
    as ->.
  { unfold applied_merges. rewrite (items_list _ _ records) by done. cbn [mbind result_bind]. exact H2. }
  cbn [mbind result_bind]. rewrite remap_entries. cbn [mbind result_bind]. rewrite mirror_merges.
  cbn [retire_entity_ids invalidate_relationship_ids rewrite_relationships app]. do 2 f_equal. apply trace_ids.
Qed.

Lemma accepted_sub c planned : sublist (fst <$> accepted c planned) (snd <$> planned).
Proof.
  induction planned as [|ea planned IH]; [done|]. rewrite accepted_cons, fmap_app, fmap_cons.
  destruct (verdict c ea).1; csimpl; by constructor.
Qed.

Lemma dedupe_agrees ns op now db g c planned s :
  op_type op = DEDUPE_ENTITIES ->
  items (match op_outputs op with x :: _ => x | [] => VDict [] end) "merges" = Ok (fst <$> planned) ->
  Forall (names c) planned -> NoDup (snd <$> planned) -> c ∉ snd <$> planned ->
  present ns g c = true -> agree ns db g ->
  exists undo db' t,
    apply_vectorcypher_dedupe_entities uuid_str parse_uuid str_other row_order verify op now db = Ok (undo, db') /\
    extract_mirror_targets parse_uuid str_other set_iter (op_type op) (u_before undo) = Ok t /\
    well_formed t [] /\ u_applied_at undo = now /\
    agree ns db' (run_calls (apply_mirror_targets t ns s []) g).
Proof.
  intros Ht Hit Hp Hd Hc Hpc [A1 A2 A3].
  destruct (dedupe_outcome op now db c planned Ht Hit Hp) as (undo & H1 & Hat & H2).
  set (l := accepted c planned) in *.
  pose proof (accepted_sub c planned) as Hsub. fold l in Hsub.
  assert (NoDup (fst <$> l)) as Hdl by (by eapply sublist_NoDup).
  assert (c ∉ fst <$> l) as Hcl by (intros H; apply Hc; by eapply elem_of_sublist).
  set (t := MkTargets _ _ _) in *.
  assert (W : well_formed t []).
  { split_and!; [by apply moved_nodup|done|constructor]. }
  eexists undo, _, t. split_and!; [exact H1|exact H2|done|done|]. split.
  - intros i. rewrite graph_view_mirror by done. rewrite <- A1. unfold db_view. rewrite absorb_all_rows.
    destruct (relationships db !! i) as [r0|] eqn:Hr0; simpl; [|done].
    destruct (absorb_row_facts (op_id op) now c (fst <$> l) r0) as (F1 & F2 & F3).
    unfold live_relationship. rewrite F1, F2, F3.
    destruct (bool_decide (rel_invalidated_at r0 = None)) eqn:Hi.
    + apply bool_decide_eq_true in Hi. rewrite andb_true_r.
      pose proof (absorb_row_live (op_id op) now c (fst <$> l) r0 Hdl Hcl Hi) as Hlive. cbn zeta in Hlive.
      destruct ((rel_namespace_id r0 =? ns) && bool_decide (rel_valid_to r0 = None)) eqn:Hl.
      2:{ cbn [andb]. done. }
      assert (Hv : graph_view ns g i = Some (rel_source r0, rel_target r0, sanitize_cypher_label (default "" (rel_type r0)))).
      { rewrite <- A1. unfold db_view. rewrite Hr0. unfold live_relationship. by rewrite Hl, Hi. }
      apply A3 in Hv as [Ps Pt]. cbn [andb].
      destruct (collapses (fst <$> l) c r0) eqn:Hcol.
      * destruct Hlive as [-> _]. rewrite bool_decide_eq_false_2 by done.
        rewrite bool_decide_eq_true_2; [done|]. apply in_inv; [done..|]. eauto.
      * destruct Hlive as (-> & -> & ->). rewrite (bool_decide_eq_true_2 (None = None)) by done.
        rewrite bool_decide_eq_false_2.
        2:{ intros (r1 & E & _ & Hcol')%in_inv; [|done..]. congruence. }
        f_equal. cbn [rewrite_relationships t]. rewrite find_moved, Hr0, Hi by done.
        rewrite (bool_decide_eq_true_2 (@None datetime = None)) by done. cbn [andb].
        unfold collapses in Hcol. destruct (bool_decide _ || bool_decide _) eqn:Hin; cbn [andb] in *.
        -- rewrite Hcol. cbn [negb rw_source rw_target]. unfold rw_label. cbn [rw_type]. rewrite String.eqb_refl.
           assert (forall x, present ns g x = true -> present ns g (rep (fst <$> l) c x) = true) as Hpr.
           { intros x Hx. by destruct (rep_cases (fst <$> l) c x) as [-> | ->]. }
           by rewrite !Hpr.
        -- apply orb_false_iff in Hin as [E1 E2]. unfold rep. by rewrite E1, E2.
    + apply bool_decide_eq_false in Hi. rewrite absorb_row_dead by done.
      rewrite (bool_decide_eq_false_2 _ Hi). by rewrite andb_false_r.
  - intros i. rewrite graph_alive_mirror, <- A2 by done. unfold db_alive. rewrite absorb_all_entities.
    destruct (entities db !! i) as [e|]; simpl; [|done]. cbn [retire_entity_ids t].
    destruct (bool_decide (i ∈ fst <$> l)); [|by rewrite andb_true_r]. rewrite andb_false_r.
    unfold retire_absorbed. destruct (ent_valid_until e) eqn:E; cbn; rewrite ?E; apply andb_false_r.
  - intros i s' t' lab. rewrite graph_view_mirror by done. destruct (graph_view ns g i) as [[[a b] lb]|] eqn:Hv; [|done].
    destruct (bool_decide _); [done|]. rewrite !present_mirror by done. apply A3 in Hv.
    destruct (find_rw i _) as [r|]; [|by intros [= <- <- <-]].
    destruct (_ && _ && _) eqn:E; [|by intros [= <- <- <-]]. intros [= <- <- <-].
    by apply andb_true_iff in E as [[? ?]%andb_true_iff _].
Qed.
End merge.
