(* ===== verification/DreamRunStore.v ===== *)
(** The dream run table ([dream/runstore.py], the statements the PostgreSQL and SQLite
    stores share): run rows with their checkpoint, and the mirrors a run still owes the
    graph. *)
From S2P Require Import Prelude PyValue FilterAst FilterPython ReplaceMirror RankFusion Scoring DreamMirror.

Local Open Scope string_scope.
Local Open Scope list_scope.
Local Open Scope Z_scope.

Record GraphMirrorPending := MkPending {
  op_seq : Z; p_op_id : Z; p_op_type : string; p_payload : list (string * value) }.

(** A row of [khora_dream_runs].  [finished_at] and [run_error] are null while it runs. *)
Record RunRow := MkRunRow {
  run_namespace_id : Z; run_mode : string; run_state : string;
  started_at : datetime; finished_at : option datetime; heartbeat_at : datetime;
  run_plan_hash : option string; run_total_ops : Z; last_committed_op_seq : Z;
  graph_mirror_pending : list GraphMirrorPending; run_error : option string }.

Abbreviation Runs := (gmap Z RunRow).

(** ** The JSON form of an entry *)

Section json.
Context (uuid_str : Z -> string) (parse_uuid : string -> option Z) (str_other : value -> string).
Context (int_of_str : string -> option Z).

Definition to_json (p : GraphMirrorPending) : value :=
  VDict [("op_seq", VInt (op_seq p)); ("op_id", VStr (uuid_str (p_op_id p)));
         ("op_type", VStr (p_op_type p)); ("payload", VDict (p_payload p))].

(** [dict(raw.get("payload") or {})]: an empty value gives an empty dict, any other must
    be a dict. *)
Definition from_json (raw : value) : result GraphMirrorPending :=
  sv ← subscript raw "op_seq";
  s ← py_int int_of_str sv;
  iv ← subscript raw "op_id";
  i ← UUID_of parse_uuid str_other iv;
  tv ← subscript raw "op_type";
  pv ← attr_get raw "payload";
  payload ← (if truthy pv then match pv with VDict d => Ok d | _ => Err TypeError end else Ok []);
  Ok (MkPending s i (py_str str_other tv) payload).

Lemma from_to_json p : (forall u, parse_uuid (uuid_str u) = Some u) -> from_json (to_json p) = Ok p.
Proof.
  intros H. destruct p as [s i t d]. unfold from_json, to_json. cbn -[UUID_of]. unfold UUID_of. cbn.
  rewrite H. cbn. destruct d; done.
Qed.
End json.

(** ** Statements on run rows *)

Definition set_heartbeat (now : datetime) (r : RunRow) : RunRow :=
  MkRunRow (run_namespace_id r) (run_mode r) (run_state r) (started_at r) (finished_at r) now
    (run_plan_hash r) (run_total_ops r) (last_committed_op_seq r) (graph_mirror_pending r) (run_error r).

Definition set_plan (hash : string) (total : Z) (now : datetime) (r : RunRow) : RunRow :=
  MkRunRow (run_namespace_id r) (run_mode r)
    (if String.eqb (run_state r) "planning" then "applying" else run_state r)
    (started_at r) (finished_at r) now (Some hash) total (last_committed_op_seq r)
    (graph_mirror_pending r) (run_error r).

Definition set_checkpoint (seq : Z) (now : datetime) (r : RunRow) : RunRow :=
  MkRunRow (run_namespace_id r) (run_mode r) (run_state r) (started_at r) (finished_at r) now
    (run_plan_hash r) (run_total_ops r) seq (graph_mirror_pending r) (run_error r).

Definition set_final (state : string) (total : Z) (error : option string) (now : datetime) (r : RunRow) : RunRow :=
  MkRunRow (run_namespace_id r) (run_mode r) state (started_at r) (Some now) (heartbeat_at r)
    (run_plan_hash r) total (last_committed_op_seq r) (graph_mirror_pending r)
    (match error with Some e => Some e | None => run_error r end).

Definition set_pending (l : list GraphMirrorPending) (r : RunRow) : RunRow :=
  MkRunRow (run_namespace_id r) (run_mode r) (run_state r) (started_at r) (finished_at r) (heartbeat_at r)
    (run_plan_hash r) (run_total_ops r) (last_committed_op_seq r) l (run_error r).

Definition record_run (rid ns : Z) (mode : string) (now : datetime) (runs : Runs) : Runs :=
  match runs !! rid with
  | Some r => <[rid := set_heartbeat now r]> runs
  | None => <[rid := MkRunRow ns mode "planning" now None now None 0 (-1) [] None]> runs
  end.

Definition persist_plan (rid : Z) (hash : string) (total : Z) (now : datetime) (runs : Runs) : Runs :=
  alter (set_plan hash total now) rid runs.

Definition read_last_committed (rid : Z) (runs : Runs) : Z :=
  match runs !! rid with Some r => last_committed_op_seq r | None => -1 end.

Definition advance_checkpoint (rid seq : Z) (now : datetime) (runs : Runs) : Runs :=
  alter (set_checkpoint seq now) rid runs.

Definition finalize_run (rid : Z) (state : string) (total : Z) (error : option string) (now : datetime)
    (runs : Runs) : Runs :=
  alter (set_final state total error now) rid runs.

(** ** Mirrors owed to the graph *)

Fixpoint insert_pending (p : GraphMirrorPending) (l : list GraphMirrorPending) : list GraphMirrorPending :=
  match l with
  | [] => [p]
  | q :: l' => if op_seq p <=? op_seq q then p :: l else q :: insert_pending p l'
  end.

Definition without_seq (seq : Z) (l : list GraphMirrorPending) : list GraphMirrorPending :=
  List.filter (fun p => negb (op_seq p =? seq)) l.

Definition _merge_pending (existing : list GraphMirrorPending) (entry : GraphMirrorPending)
  : list GraphMirrorPending :=
  foldr insert_pending [] (without_seq (op_seq entry) existing ++ [entry]).

Definition get_graph_mirror_pending (rid : Z) (runs : Runs) : list GraphMirrorPending :=
  match runs !! rid with Some r => graph_mirror_pending r | None => [] end.

Definition mark_graph_mirror_pending (rid : Z) (entry : GraphMirrorPending) (runs : Runs) : Runs :=
  alter (set_pending (_merge_pending (get_graph_mirror_pending rid runs) entry)) rid runs.

Definition clear_graph_mirror_pending (rid seq : Z) (runs : Runs) : Runs :=
  alter (set_pending (without_seq seq (get_graph_mirror_pending rid runs))) rid runs.

(** Every entry of the namespace, over all its runs; the statement has no [ORDER BY]. *)
Definition get_open_graph_mirror_pending (run_order : list (Z * RunRow) -> list (Z * RunRow)) (ns : Z)
    (runs : Runs) : list (Z * GraphMirrorPending) :=
  List.concat (List.map (fun '(rid, r) => List.map (fun p => (rid, p)) (graph_mirror_pending r))
    (run_order (map_to_list (filter (fun kr => run_namespace_id kr.2 = ns /\ graph_mirror_pending kr.2 <> []) runs)))).

(** ** Lemmas *)

Lemma insert_pending_perm p l : insert_pending p l ≡ₚ p :: l.
Proof.
  induction l as [|q l IH]; simpl; [done|]. destruct (op_seq p <=? op_seq q); [done|]. by rewrite IH, Permutation_swap.
Qed.

Lemma merge_pending_perm existing entry :
  _merge_pending existing entry ≡ₚ entry :: without_seq (op_seq entry) existing.
Proof.
  assert (forall l, foldr insert_pending [] l ≡ₚ l) as H.
  { induction l as [|p l IH]; simpl; [done|]. by rewrite insert_pending_perm, IH. }
  unfold _merge_pending. by rewrite H, <- Permutation_cons_append.
Qed.

Lemma elem_of_without_seq p seq l : p ∈ without_seq seq l <-> p ∈ l /\ op_seq p <> seq.
Proof.
  unfold without_seq. rewrite list_elem_of_In, filter_In, <- list_elem_of_In, negb_true_iff, Z.eqb_neq. done.
Qed.

Lemma elem_of_merge_pending p existing entry :
  p ∈ _merge_pending existing entry <-> p = entry \/ (p ∈ existing /\ op_seq p <> op_seq entry).
Proof. by rewrite merge_pending_perm, elem_of_cons, elem_of_without_seq. Qed.

Lemma elem_of_open run_order ns runs rid p :
  (forall l, run_order l ≡ₚ l) ->
  (rid, p) ∈ get_open_graph_mirror_pending run_order ns runs <->
  exists r, runs !! rid = Some r /\ run_namespace_id r = ns /\ p ∈ graph_mirror_pending r.
Proof.
  intros Ho. unfold get_open_graph_mirror_pending. rewrite list_elem_of_In, in_concat. split.
  - intros (l & Hl & Hp). apply in_map_iff in Hl as ([j r] & <- & Hj). apply in_map_iff in Hp as (q & [= -> ->] & Hq).
    apply list_elem_of_In in Hj. rewrite Ho, elem_of_map_to_list, map_lookup_filter_Some in Hj.
    destruct Hj as [Hr [Hn _]]. exists r. by rewrite list_elem_of_In.
  - intros (r & Hr & Hn & Hp). eexists. split.
    + apply in_map_iff. exists (rid, r). split; [reflexivity|]. apply list_elem_of_In.
      rewrite Ho, elem_of_map_to_list, map_lookup_filter_Some. split; [done|]. cbn. split; [done|].
      intros E. rewrite E in Hp. by apply not_elem_of_nil in Hp.
    + apply in_map_iff. exists p. split; [done|]. by apply list_elem_of_In.
Qed.

Lemma without_seq_nodup seq l : NoDup (op_seq <$> l) -> NoDup (op_seq <$> without_seq seq l).
Proof.
  intros H. eapply sublist_NoDup; [exact H|]. apply fmap_sublist. clear H. unfold without_seq.
  induction l as [|p l IH]; simpl; [done|]. destruct (negb _); by constructor.
Qed.
