(* ===== verification/DreamRun.v ===== *)
(** The dream orchestrator ([dream/orchestrator.py]) on a stack with an SQL store and a
    graph: a run plans, then applies operation after operation, each in a transaction that
    also advances the checkpoint and queues the mirror, then mirrors it to the graph.

    The database and the graph may fail at any step, and the process may die at any step:
    what happens to each is read off a schedule. *)
From S2P Require Import Prelude PyValue FilterAst FilterPython ReplaceMirror RankFusion Scoring.
From S2P Require Import PyText DreamMirror DreamRunStore.

Local Open Scope string_scope.
Local Open Scope list_scope.
Local Open Scope Z_scope.

(** ** The world and its steps *)

(** What becomes of one transaction or call: it succeeds, it fails and is rolled back, it
    takes effect but its answer is lost, or the process dies before it takes effect. *)
Inductive fault := Succeeds | Fails | Lost | Dies.

Inductive exn :=
| Python (e : pyexn) | StoreError
| DreamForbiddenOpError | DreamApplyDisabled | DreamBackendUnsupported.

Inductive outcome (A : Type) := Done (a : A) | Raised (e : exn) | Crashed.
Arguments Done {A} _. Arguments Raised {A} _. Arguments Crashed {A}.

(** The relational store with its run table, the graph, the undo files, the day budgets of
    the process, the tokens of this run, a count of the steps taken, and the schedule. *)
Record World := MkWorld {
  w_db : Db; w_runs : Runs; w_graph : Graph; w_undo : gmap (Z * Z) (list UndoRecord);
  w_day : gmap Z (Z * Z); w_tokens : Z; w_ticks : Z; w_faults : list fault }.

Definition with_db d w := MkWorld d (w_runs w) (w_graph w) (w_undo w) (w_day w) (w_tokens w) (w_ticks w) (w_faults w).
Definition with_runs r w := MkWorld (w_db w) r (w_graph w) (w_undo w) (w_day w) (w_tokens w) (w_ticks w) (w_faults w).
Definition with_graph g w := MkWorld (w_db w) (w_runs w) g (w_undo w) (w_day w) (w_tokens w) (w_ticks w) (w_faults w).
Definition with_undo u w := MkWorld (w_db w) (w_runs w) (w_graph w) u (w_day w) (w_tokens w) (w_ticks w) (w_faults w).
Definition with_budget d t w := MkWorld (w_db w) (w_runs w) (w_graph w) (w_undo w) d t (w_ticks w) (w_faults w).
Definition stepped w := MkWorld (w_db w) (w_runs w) (w_graph w) (w_undo w) (w_day w) (w_tokens w)
  (w_ticks w + 1) (List.tl (w_faults w)).

Definition D (A : Type) : Type := World -> outcome A * World.

#[export] Instance D_ret : MRet D := fun A a w => (Done a, w).
#[export] Instance D_bind : MBind D := fun A B f m w =>
  match m w with
  | (Done a, w') => f a w'
  | (Raised e, w') => (Raised e, w')
  | (Crashed, w') => (Crashed, w')
  end.

Definition raise {A} (e : exn) : D A := fun w => (Raised e, w).
Definition lift {A} (r : result A) : D A := match r with Ok a => mret a | Err e => raise (Python e) end.
Definition read {A} (f : World -> A) : D A := fun w => (Done (f w), w).
Definition modify (f : World -> World) : D () := fun w => (Done (), f w).

(** [try: m except Exception as e: h e].  The death of the process is not an exception. *)
Definition try {A} (m : D A) (h : exn -> D A) : D A := fun w =>
  match m w with (Raised e, w') => h e w' | r => r end.

(** One transaction, or one call to the graph: [body] is what it does when nothing goes
    wrong. *)
Definition transaction {A} (body : D A) : D A := fun w =>
  match body w with
  | (Done a, w') =>
      match w_faults w with
      | Fails :: _ => (Raised StoreError, stepped w)
      | Lost :: _ => (Raised StoreError, stepped w')
      | Dies :: _ => (Crashed, stepped w)
      | _ => (Done a, stepped w')
      end
  | (Raised e, _) => (Raised e, stepped w)
  | (Crashed, _) => (Crashed, stepped w)
  end.

Definition sql (f : Runs -> Runs) : D () := transaction (modify (fun w => with_runs (f (w_runs w)) w)).
Definition graph_call (f : Graph -> Graph) : D () := transaction (modify (fun w => with_graph (f (w_graph w)) w)).

Fixpoint graph_calls (fs : list (Graph -> Graph)) : D () :=
  match fs with [] => mret () | f :: fs' => _ ← graph_call f; graph_calls fs' end.

(** ** The stack *)

Record GraphBackend := MkGraphBackend {
  supports_dream_mirror : list string; mirror_in_transaction : bool; shares_sql_store : bool }.

Record DreamConfig := MkDreamConfig {
  llm_max_tokens_per_run : Z; llm_max_tokens_per_namespace_per_day : Z }.

Record DreamPlan := MkPlan { plan_namespace_id : Z; plan_ops : list DreamOp }.

Definition ApplyHandler : Type := DreamOp -> datetime -> Db -> result (UndoRecord * Db).

Record Degradation := MkDegradation {
  dg_component : string; dg_reason : string; dg_op : option (string * Z); dg_exception : option exn }.

(** [{"op_kind": ..., "reason": ..., "detail": ...}] *)
Record SkipReason := MkSkip { sk_op_kind : string; sk_reason : string }.

(** What an apply phase accumulates for its result. *)
Record Report := MkReport {
  undo_records : list UndoRecord; skipped_by_op_type : list (string * Z);
  budget_skip_reasons : list SkipReason; mirror_degradations : list Degradation }.

Record OpSummary := MkSummary { os_planned : Z; os_applied : Z; os_skipped : Z }.

Record DreamResult := MkResult {
  res_mode : string; res_ops : list (string * OpSummary);
  res_skip_reasons : list SkipReason; res_degradations : list Degradation }.

Definition CENTROID_RECOMPUTE : string := "vectorcypher_centroid_recompute".
Definition SOURCE_CHUNK_IDS_GC : string := "vectorcypher_source_chunk_ids_gc".

Definition MIRRORABLE_OP_KINDS : list string :=
  [PRUNE_EDGES; DEDUPE_ENTITIES; COMMUNITY_SUMMARY; CONTRADICTION_RECONCILE].
Definition _POSTGRES_ONLY_OP_KINDS : list string :=
  [CENTROID_RECOMPUTE; SOURCE_CHUNK_IDS_GC; CONTRADICTION_RECONCILE].
Definition _LLM_OP_KINDS : list string := [COMMUNITY_SUMMARY; CONTRADICTION_RECONCILE].
Definition _FORBIDDEN_OP_KINDS : list string := ["delete_document"; "document_delete"; "documents_delete"].
Definition _LLM_BUDGET_DAY_SECONDS : Z := 86400.

Definition count_of (k : string) (d : list (string * Z)) : Z := default 0 (dict_get k d).
Definition bump (k : string) (d : list (string * Z)) : list (string * Z) := dict_set k (count_of k d + 1) d.

(** What a run finds around it. *)
Class Env := {
  (** Text forms of UUIDs and datetimes, [str] of a value that is not a string, [int] of a
      string; the order in which a set of ids iterates, and a statement returns run rows. *)
  uuid_str : Z -> string;
  parse_uuid : string -> option Z;
  str_other : value -> string;
  isoformat : datetime -> string;
  fromisoformat : string -> option datetime;
  int_of_str : string -> option Z;
  set_iter : gset Z -> list Z;
  run_order : list (Z * RunRow) -> list (Z * RunRow);
  (** The wall clock and the monotonic clock (in seconds) after so many steps, and the day
      of a time. *)
  clock : Z -> datetime;
  monotonic : Z -> Z;
  day_of : datetime -> Z;
  (** [storage.resolve_namespace], the digest of a JSON value, the text of an exception. *)
  row_namespace : Z -> Z;
  digest : value -> string;
  str_exn : exn -> string;
  (** The stack: its graph, the dialect of its session if that can be read, whether it has
      a run store and a file sink. *)
  graph : option GraphBackend;
  dialect : option string;
  has_store : bool;
  file_sink : bool;
  (** The registered handlers, and the tokens an operation's calls record. *)
  handlers : string -> option ApplyHandler;
  usage : DreamOp -> Z;
  config : DreamConfig;
  apply_disabled : bool;
  (** Whether the cancel flag is found set before the operation of that number. *)
  cancelled : Z -> bool;
}.

Section orchestrator.
Context {E : Env}.

Local Abbreviation extract_targets := (extract_mirror_targets parse_uuid str_other set_iter).
Local Abbreviation extract_communities := (extract_community_targets parse_uuid str_other int_of_str).
Local Abbreviation payload_of := (mirror_payload uuid_str parse_uuid str_other isoformat int_of_str set_iter).

Definition now_at (w : World) : datetime := clock (w_ticks w).

Definition when (c : bool) (m : D ()) : D () := if c then m else mret ().

(** *** The plan's fingerprint ([dream/engines/registry.py]) *)

Definition canonical_op (op : DreamOp) : value :=
  VDict [("op_type", VStr (op_type op)); ("inputs", VList (op_inputs op));
         ("outputs", VList (op_outputs op)); ("decision", VStr (op_decision op))].

Definition canonical_plan_payload (plan : DreamPlan) : value :=
  VDict [("namespace_id", VStr (uuid_str (plan_namespace_id plan)));
         ("ops", VList (List.map canonical_op (plan_ops plan)))].

Definition plan_hash (plan : DreamPlan) : string := digest (canonical_plan_payload plan).

Definition _validate_no_forbidden_ops (plan : DreamPlan) : D () :=
  if existsb (fun op => mem_str (op_type op) _FORBIDDEN_OP_KINDS) (plan_ops plan)
  then raise DreamForbiddenOpError else mret ().

Definition get_apply_handler (op_type : string) : D (option ApplyHandler) :=
  if mem_str op_type _FORBIDDEN_OP_KINDS then raise DreamForbiddenOpError else mret (handlers op_type).

(** *** Run state *)

Definition _init_run_row (rid ns : Z) (mode : string) (is_resume : bool) : D () :=
  if is_resume then mret ()
  else when has_store (t ← read now_at; sql (record_run rid ns mode t)).

Definition _persist_plan_hash (rid : Z) (plan : DreamPlan) : D () :=
  when has_store (t ← read now_at; sql (persist_plan rid (plan_hash plan) (len (plan_ops plan)) t)).

Definition _read_last_committed (rid : Z) : D Z :=
  if has_store then transaction (read (fun w => read_last_committed rid (w_runs w))) else mret (-1).

Definition _record_committed (rid seq : Z) : D () :=
  when has_store (t ← read now_at; sql (advance_checkpoint rid seq t)).

(** In the session of the operation: committed or rolled back with it. *)
Definition _record_committed_in_session (rid seq : Z) : D () :=
  when has_store (modify (fun w => with_runs (advance_checkpoint rid seq (now_at w) (w_runs w)) w)).

Definition _finalize_run_row (rid : Z) (plan : option DreamPlan) (state : string) (error : option string) : D () :=
  when has_store (t ← read now_at;
    sql (finalize_run rid state (match plan with Some p => len (plan_ops p) | None => 0 end) error t)).

(** *** Token budgets *)

(** [_get_namespace_day_budget]: the tokens used in the window that is open now. *)
Definition _get_namespace_day_budget (ns : Z) : D Z := fun w =>
  let t := monotonic (w_ticks w) in
  match w_day w !! ns with
  | Some (used, started) =>
      if _LLM_BUDGET_DAY_SECONDS <=? t - started
      then (Done 0, with_budget (<[ns := (0, t)]> (w_day w)) (w_tokens w) w)
      else (Done used, w)
  | None => (Done 0, with_budget (<[ns := (0, t)]> (w_day w)) (w_tokens w) w)
  end.

Definition _llm_budget_breach (op : DreamOp) (ns : Z) : D bool :=
  if negb (mem_str (op_type op) _LLM_OP_KINDS) then mret false
  else
    tokens ← read w_tokens;
    let per_run := llm_max_tokens_per_run config in
    if negb (per_run =? 0) && (per_run <=? tokens) then mret true
    else
      let per_day := llm_max_tokens_per_namespace_per_day config in
      if per_day =? 0 then mret false
      else used ← _get_namespace_day_budget ns; mret (per_day <=? used).

Definition _drain_llm_usage (op : DreamOp) (ns : Z) : D () :=
  if usage op =? 0 then mret ()
  else
    _ ← modify (fun w => with_budget (w_day w) (w_tokens w + usage op) w);
    used ← _get_namespace_day_budget ns;
    modify (fun w => with_budget
      (alter (fun b => (used + usage op, b.2)) ns (w_day w)) (w_tokens w) w).

(** *** Mirroring an operation *)

Definition mirrors_kind (gb : GraphBackend) (op_type : string) : bool :=
  mem_str op_type (supports_dream_mirror gb) && mem_str op_type MIRRORABLE_OP_KINDS.

Definition _mirrors_in_transaction : bool :=
  match graph with Some gb => mirror_in_transaction gb | None => false end.

Definition is_nil {A} (l : list A) : bool := match l with [] => true | _ => false end.

Definition _mirror_dream_op_in_tx (ns : Z) (op : DreamOp) (undo : UndoRecord) : D bool :=
  match graph with
  | Some gb =>
      if negb (mirror_in_transaction gb) then mret false
      else if negb (mirrors_kind gb (op_type op)) then mret true
      else
        t ← lift (extract_targets (op_type op) (u_before undo));
        let ids := invalidate_relationship_ids t in
        if is_nil ids then mret true
        else
          _ ← modify (fun w => with_graph (soft_invalidate_relationships_batch ids (row_namespace ns)
                                  (u_applied_at undo) (w_graph w)) w);
          mret true
  | None => mret false
  end.

Definition pending_entry (seq : Z) (op : DreamOp) (p : list (string * value)) : GraphMirrorPending :=
  MkPending seq (op_id op) (op_type op) p.

Definition _pre_mark_graph_mirror_pending (rid seq : Z) (op : DreamOp) (undo : UndoRecord) : D () :=
  match graph with
  | Some gb =>
      if negb has_store || negb (mirrors_kind gb (op_type op)) then mret ()
      else
        t ← lift (extract_targets (op_type op) (u_before undo));
        if is_nil (retire_entity_ids t) && is_nil (invalidate_relationship_ids t) then mret ()
        else
          p ← lift (payload_of op undo);
          modify (fun w => with_runs (mark_graph_mirror_pending rid (pending_entry seq op p) (w_runs w)) w)
  | None => mret ()
  end.

Definition _queue_graph_mirror_pending (rid seq : Z) (op : DreamOp) (undo : UndoRecord) : D () :=
  when has_store (p ← lift (payload_of op undo);
    sql (mark_graph_mirror_pending rid (pending_entry seq op p))).

Definition _clear_graph_mirror_pending (rid seq : Z) : D () :=
  when has_store (sql (clear_graph_mirror_pending rid seq)).

Definition _resolve_namespace_for_mirror (ns : Z) : D Z := transaction (mret (row_namespace ns)).

Definition no_targets (t : Targets) (cs : list CommunityNode) : bool :=
  is_nil (retire_entity_ids t) && is_nil (invalidate_relationship_ids t)
  && is_nil (rewrite_relationships t) && is_nil cs.

Definition op_ref (op : DreamOp) : option (string * Z) := Some (op_type op, op_id op).

Definition _mirror_dream_op (rid seq ns : Z) (op : DreamOp) (undo : UndoRecord) : D (option Degradation) :=
  match graph with
  | None => mret None
  | Some gb =>
      if shares_sql_store gb then mret None
      else if negb (mirrors_kind gb (op_type op)) then
        mret (Some (MkDegradation "dream.graph_mirror" "graph_mirror_unsupported_op_kind" (op_ref op) None))
      else
        t ← lift (extract_targets (op_type op) (u_before undo));
        cs ← lift (extract_communities (op_type op) (u_before undo));
        if no_targets t cs then mret None
        else
          failed ← try (row ← _resolve_namespace_for_mirror ns;
                        _ ← graph_calls (apply_mirror_targets t row (u_applied_at undo) cs);
                        mret None)
                       (fun e => mret (Some e));
          match failed with
          | Some e =>
              _ ← _queue_graph_mirror_pending rid seq op undo;
              mret (Some (MkDegradation "dream.graph_mirror" "graph_mirror_failed_after_pg_commit" (op_ref op) (Some e)))
          | None => _ ← _clear_graph_mirror_pending rid seq; mret None
          end
  end.

(** *** Draining what earlier runs left *)

Fixpoint drain_entries (ns : Z) (at_ : datetime) (pending : list (Z * GraphMirrorPending)) : D (list Degradation) :=
  match pending with
  | [] => mret []
  | (rid, p) :: pending =>
      failed ← try (row ← _resolve_namespace_for_mirror ns;
                    calls ← lift (apply_mirror_payload parse_uuid str_other fromisoformat int_of_str (p_payload p) row at_);
                    _ ← graph_calls calls;
                    mret None)
                   (fun e => mret (Some e));
      match failed with
      | Some e =>
          ds ← drain_entries ns at_ pending;
          mret (MkDegradation "dream.graph_mirror.reconcile" "graph_mirror_reconcile_failed"
                  (Some (p_op_type p, p_op_id p)) (Some e) :: ds)
      | None =>
          _ ← sql (clear_graph_mirror_pending rid (op_seq p));
          drain_entries ns at_ pending
      end
  end.

Definition _drain_graph_mirror_pending (ns : Z) : D (list Degradation) :=
  match graph with
  | None => mret []
  | Some _ =>
      if negb has_store then mret []
      else
        pending ← try (p ← transaction (read (fun w => get_open_graph_mirror_pending run_order ns (w_runs w)));
                       mret (inl p))
                      (fun e => mret (inr e));
        match pending with
        | inr e => mret [MkDegradation "dream.graph_mirror.reconcile" "graph_mirror_pending_read_failed" None (Some e)]
        | inl pending => t ← read now_at; drain_entries ns t pending
        end
  end.

(** *** Applying *)

Definition _assert_backend_supported (op_type : string) : D () :=
  if negb (mem_str op_type _POSTGRES_ONLY_OP_KINDS) then mret ()
  else match dialect with
       | None => mret ()
       | Some d => if String.eqb d "postgresql" then mret () else raise DreamBackendUnsupported
       end.

Definition _assert_no_chunk_id_mutation (undo : UndoRecord) : D () :=
  match dict_get "chunk_id" (u_before undo) with Some _ => raise DreamForbiddenOpError | None => mret () end.

Definition _invoke_handler (h : ApplyHandler) (op : DreamOp) : D UndoRecord :=
  t ← read now_at;
  d ← read w_db;
  '(undo, d') ← lift (h op t d);
  _ ← modify (with_db d');
  mret undo.

Definition _apply_one_op (rid seq ns : Z) (op : DreamOp) (h : ApplyHandler) : D UndoRecord :=
  transaction (
    _ ← _assert_backend_supported (op_type op);
    undo ← _invoke_handler h op;
    _ ← _record_committed_in_session rid seq;
    in_tx ← _mirror_dream_op_in_tx ns op undo;
    if (in_tx : bool) then mret undo
    else _ ← _pre_mark_graph_mirror_pending rid seq op undo; mret undo).

Definition write_undo_incremental (rid : Z) (started : datetime) (records : list UndoRecord) : D () :=
  when file_sink
    (try (transaction (modify (fun w => with_undo (<[(rid, day_of started) := records]> (w_undo w)) w)))
         (fun _ => mret ())).

Definition skip_type (op : DreamOp) (rep : Report) : Report :=
  MkReport (undo_records rep) (bump (op_type op) (skipped_by_op_type rep))
    (budget_skip_reasons rep) (mirror_degradations rep).

Definition skip_budget (op : DreamOp) (rep : Report) : Report :=
  MkReport (undo_records rep) (bump (op_type op) (skipped_by_op_type rep))
    (budget_skip_reasons rep ++ [MkSkip (op_type op) "llm_budget_exhausted"]) (mirror_degradations rep).

Definition add_undo (undo : UndoRecord) (rep : Report) : Report :=
  MkReport (undo_records rep ++ [undo]) (skipped_by_op_type rep) (budget_skip_reasons rep) (mirror_degradations rep).

Definition add_degradations (ds : list Degradation) (rep : Report) : Report :=
  MkReport (undo_records rep) (skipped_by_op_type rep) (budget_skip_reasons rep) (mirror_degradations rep ++ ds).

Definition apply_op (rid ns : Z) (started : datetime) (seq : Z) (op : DreamOp) (rep : Report) : D Report :=
  handler ← get_apply_handler (op_type op);
  match handler with
  | None => _ ← _record_committed rid seq; mret rep
  | Some h =>
      breach ← _llm_budget_breach op ns;
      if (breach : bool) then mret (skip_budget op rep)
      else
        applied ← try (undo ← _apply_one_op rid seq ns op h; mret (Some undo))
                      (fun e => match e with DreamBackendUnsupported => mret None | _ => raise e end);
        match applied with
        | None => _ ← _record_committed rid seq; mret (skip_type op rep)
        | Some undo =>
            _ ← _assert_no_chunk_id_mutation undo;
            let rep := add_undo undo rep in
            d ← (if _mirrors_in_transaction then mret None else _mirror_dream_op rid seq ns op undo);
            let rep := add_degradations (option_list d) rep in
            _ ← _drain_llm_usage op ns;
            _ ← write_undo_incremental rid started (undo_records rep);
            mret rep
        end
  end.

Fixpoint apply_loop (rid ns : Z) (started : datetime) (last seq : Z) (ops : list DreamOp) (rep : Report) : D Report :=
  match ops with
  | [] => mret rep
  | op :: ops' =>
      if cancelled seq then mret rep
      else if seq <=? last then apply_loop rid ns started last (seq + 1) ops' rep
      else rep ← apply_op rid ns started seq op rep; apply_loop rid ns started last (seq + 1) ops' rep
  end.

(** *** Results *)

Definition summarize (mode : string) (st : list (string * OpSummary) * list (string * Z)) (op : DreamOp)
  : list (string * OpSummary) * list (string * Z) :=
  let '(summaries, remaining) := st in
  let k := op_type op in
  let cur := default (MkSummary 0 0 0) (dict_get k summaries) in
  let was_skipped := String.eqb mode "apply" && (0 <? count_of k remaining) in
  let remaining := if was_skipped then dict_set k (count_of k remaining - 1) remaining else remaining in
  (dict_set k (MkSummary (os_planned cur + 1)
                 (os_applied cur + (if String.eqb mode "apply" && negb was_skipped then 1 else 0))
                 (os_skipped cur + (if was_skipped then 1 else 0))) summaries, remaining).

Definition _build_result (plan : DreamPlan) (mode : string) (rep : Report) : DreamResult :=
  MkResult mode (foldl (summarize mode) ([], skipped_by_op_type rep) (plan_ops plan)).1
    (budget_skip_reasons rep) (mirror_degradations rep).

Definition empty_report : Report := MkReport [] [] [] [].

Definition _report_phase (plan : DreamPlan) : D DreamResult :=
  mret (_build_result plan "dry-run" empty_report).

Definition _apply_phase (rid : Z) (plan : DreamPlan) : D DreamResult :=
  if apply_disabled then raise DreamApplyDisabled
  else
    started ← read now_at;
    let ns := plan_namespace_id plan in
    last ← _read_last_committed rid;
    ds ← _drain_graph_mirror_pending ns;
    _ ← modify (fun w => with_budget (w_day w) 0 w);
    rep ← apply_loop rid ns started last 0 (plan_ops plan) (add_degradations ds empty_report);
    mret (_build_result plan "apply" rep).

(** [run]: [planned] is what the engine's planner answers, [resume] whether the run's
    identity was given. *)
Definition run_body (rid ns : Z) (mode : string) (resume : bool) (planned : result DreamPlan) : D DreamResult :=
  _ ← _init_run_row rid ns mode resume;
  plan ← lift planned;
  _ ← _validate_no_forbidden_ops plan;
  _ ← _persist_plan_hash rid plan;
  result ← (if String.eqb mode "dry-run" then _report_phase plan else _apply_phase rid plan);
  _ ← _finalize_run_row rid (Some plan) "completed" None;
  mret result.

Definition run (rid ns : Z) (mode : string) (resume : bool) (planned : result DreamPlan)
  : D DreamResult :=
  if negb (mem_str mode ["dry-run"; "apply"]) then raise (Python ValueError)
  else
    try (run_body rid ns mode resume planned)
        (fun e => match e with
                  | DreamForbiddenOpError => _ ← _finalize_run_row rid None "aborted_safety" None; raise e
                  | _ => _ ← _finalize_run_row rid None "failed" (Some (str_exn e)); raise e
                  end).
End orchestrator.
