(* ===== verification/DreamHandlers.v ===== *)
(** What the apply handlers promise the orchestrator, as two interfaces, and that the
    prune and dedupe handlers keep them: whatever a handler soft-deletes is among the
    targets its undo record gives the mirror, and an operation mirrored to a graph that
    agrees with the relational store leaves them in agreement. *)
From S2P Require Import Prelude PyValue FilterAst FilterPython ReplaceMirror RankFusion Scoring PyText.
From S2P Require Import DreamMirror DreamMirrorFacts DreamMergeFacts DreamRunStore DreamRun.

Local Open Scope string_scope.
Local Open Scope list_scope.
Local Open Scope Z_scope.

(** ** Soft-deleted rows *)

Definition dead_relationship (db : Db) (i : Z) : Prop :=
  exists r, relationships db !! i = Some r /\ (rel_valid_to r <> None \/ rel_invalidated_at r <> None).

Definition dead_entity (db : Db) (i : Z) : Prop :=
  exists e, entities db !! i = Some e /\ ent_valid_until e <> None.

Section interfaces.
Context {E : Env}.

Local Abbreviation targets_of := (extract_mirror_targets parse_uuid str_other set_iter).

(** A handler of operations of kind [k] records every row it soft-deletes. *)
Class Tombstones (k : string) (h : ApplyHandler) : Prop :=
  tombstones : forall op now db undo db', op_type op = k -> h op now db = Ok (undo, db') ->
    exists t, targets_of k (u_before undo) = Ok t /\
      (forall i, dead_relationship db' i -> dead_relationship db i \/ i ∈ invalidate_relationship_ids t) /\
      (forall i, dead_entity db' i -> dead_entity db i \/ i ∈ retire_entity_ids t).

(** A handler whose mirror keeps the graph in agreement with the store, for the operations
    [applicable] on a graph. *)
Class Mirrored (k : string) (h : ApplyHandler) (applicable : Z -> DreamOp -> Graph -> Prop) : Prop := {
  mirrored : forall ns op now db g s, op_type op = k -> applicable ns op g -> agree ns db g ->
    exists undo db' t,
      h op now db = Ok (undo, db') /\ targets_of k (u_before undo) = Ok t /\ well_formed t [] /\
      u_applied_at undo = now /\ dict_get "chunk_id" (u_before undo) = None /\
      agree ns db' (run_calls (apply_mirror_targets t ns s []) g);
  applicable_present : forall ns op g g', (forall i, present ns g i = present ns g' i) ->
    applicable ns op g -> applicable ns op g' }.
End interfaces.

(** ** Pruning *)

Section prune.
Context {E : Env}.
Context (TF : text_forms uuid_str parse_uuid isoformat fromisoformat).

Definition prune_handler : ApplyHandler := apply_vectorcypher_prune_edges uuid_str parse_uuid str_other.

Definition names_edge (op : DreamOp) (i : Z) : Prop :=
  exists inputs rest v, op_inputs op = inputs :: rest /\ subscript inputs "relationship_id" = Ok v /\
    UUID_of parse_uuid str_other v = Ok i.

Local Abbreviation targets_of := (extract_mirror_targets parse_uuid str_other set_iter).

Lemma prune_targets i c v :
  targets_of PRUNE_EDGES [("relationships", VList [VDict
    [("relationship_id", VUuid uuid_str i); ("previous_confidence", c); ("previous_valid_to", v)]])] =
  Ok (MkTargets [] [i] []).
Proof.
  unfold extract_mirror_targets. change (mem_str PRUNE_EDGES [PRUNE_EDGES; CONTRADICTION_RECONCILE]) with true.
  cbn -[VUuid coerced_ids]. unfold coerced_ids, extend_m. cbn -[VUuid _coerce_uuid].
  by rewrite (coerce_VUuid _ _ _ _ _ TF).
Qed.

(** What the handler does, by cases. *)
Lemma prune_outcome op now db undo db' :
  prune_handler op now db = Ok (undo, db') ->
  exists i, names_edge op i /\
    ((undo = noop op now /\ db' = db /\
      (relationships db !! i = None \/ exists r, relationships db !! i = Some r /\ rel_valid_to r <> None)) \/
     (exists r, relationships db !! i = Some r /\ rel_valid_to r = None /\
       db' = update_relationship (prune now) i db /\ u_applied_at undo = now /\
       dict_get "chunk_id" (u_before undo) = None /\ targets_of PRUNE_EDGES (u_before undo) = Ok (MkTargets [] [i] []))).
Proof.
  unfold prune_handler, apply_vectorcypher_prune_edges. destruct (op_inputs op) as [|inputs rest] eqn:Hin; [done|].
  cbn [mbind result_bind]. destruct (subscript inputs "relationship_id") as [v|] eqn:Hv; [|done]. cbn [mbind result_bind].
  destruct (UUID_of parse_uuid str_other v) as [i|] eqn:Hi; [|done]. cbn [mbind result_bind].
  intros H. exists i. split; [by exists inputs, rest, v|].
  destruct (relationships db !! i) as [r|] eqn:Hr; [|simplify_eq; left; tauto].
  destruct (rel_valid_to r) as [t|] eqn:Ht; simplify_eq.
  - left. split_and!; [done..|]. right. exists r. split; [done|congruence].
  - right. exists r. split_and!; [done..|]. apply prune_targets.
Qed.

Lemma prune_succeeds op i now db : names_edge op i -> exists undo db', prune_handler op now db = Ok (undo, db').
Proof.
  intros (inputs & rest & v & H1 & H2 & H3). unfold prune_handler, apply_vectorcypher_prune_edges. rewrite H1.
  cbn [mbind result_bind]. rewrite H2. cbn [mbind result_bind]. rewrite H3. cbn [mbind result_bind].
  destruct (relationships db !! i) as [r|]; [|eauto]. destruct (rel_valid_to r); eauto.
Qed.

Lemma names_edge_unique op i j : names_edge op i -> names_edge op j -> i = j.
Proof. intros (a & b & v & H1 & H2 & H3) (a' & b' & v' & H1' & H2' & H3'). congruence. Qed.

#[export] Instance prune_tombstones : Tombstones PRUNE_EDGES prune_handler.
Proof.
  intros op now db undo db' Ht (i & _ & [(-> & -> & _)|(r & Hr & Hv & -> & _ & _ & Ht')])%prune_outcome.
  - exists (MkTargets [] [] []). split; [done|]. split; by left.
  - eexists. split; [exact Ht'|]. split; [|by left]. intros j (r' & Hj & Hd). simpl in Hj.
    destruct (decide (j = i)) as [->|Hne]; [right; by left|]. rewrite lookup_alter_ne in Hj by done.
    left. by exists r'.
Qed.

Lemma agree_same_rows ns db db' g g' :
  (forall i, db_view ns db' i = db_view ns db i) -> (forall i, db_alive ns db' i = db_alive ns db i) ->
  (forall i, graph_view ns g' i = graph_view ns g i) -> (forall i, graph_alive ns g' i = graph_alive ns g i) ->
  (forall i, present ns g' i = present ns g i) ->
  agree ns db g -> agree ns db' g'.
Proof.
  intros H1 H2 H3 H4 H5 [A1 A2 A3]. split; intros.
  - by rewrite H1, H3.
  - by rewrite H2, H4.
  - rewrite !H5. rewrite H3 in H. eauto.
Qed.

Definition prunable (ns : Z) (op : DreamOp) (g : Graph) : Prop := exists i, names_edge op i.

#[export] Instance prune_mirrored : Mirrored PRUNE_EDGES prune_handler prunable.
Proof.
  split; [|done]. intros ns op now db g s Ht [i Hi] A.
  destruct (prune_succeeds op i now db Hi) as (undo & db' & H). exists undo, db'.
  apply prune_outcome in H as H'. destruct H' as (i' & Hi' & Hcase).
  assert (i' = i) as -> by eauto using names_edge_unique.
  destruct Hcase as [(-> & -> & _)|(r & Hr & Hv & -> & Hat & Hch & Ht')].
  { exists (MkTargets [] [] []). split_and!; [done|done|split_and!; constructor|done|done|done]. }
  exists (MkTargets [] [i] []). split_and!; [done|exact Ht'|split_and!; constructor|done|done|].
  assert (W : well_formed (MkTargets [] [i] []) []) by (split_and!; constructor).
  destruct A as [A1 A2 A3]. split.
  - intros j. rewrite graph_view_mirror by done. cbn [invalidate_relationship_ids rewrite_relationships find_rw List.find].
    rewrite <- A1. unfold db_view. cbn [relationships update_relationship].
    destruct (decide (j = i)) as [->|Hne].
    + rewrite lookup_alter_eq, Hr. cbn. unfold live_relationship. cbn.
      rewrite andb_false_r. cbn. destruct (_ && _ && _); [|done].
      by rewrite bool_decide_eq_true_2 by left.
    + rewrite lookup_alter_ne by done. destruct (relationships db !! j) as [r'|]; [|done].
      destruct (live_relationship ns r'); [|done].
      by rewrite bool_decide_eq_false_2 by (by intros ->%list_elem_of_singleton).
  - intros j. rewrite graph_alive_mirror by done. cbn [retire_entity_ids].
    rewrite bool_decide_eq_false_2 by apply not_elem_of_nil. rewrite andb_true_r. by rewrite <- A2.
  - intros j a b l. rewrite graph_view_mirror by done. cbn [invalidate_relationship_ids rewrite_relationships find_rw List.find].
    rewrite !present_mirror by done. destruct (graph_view ns g j) as [[[? ?] ?]|] eqn:Hg; [|done].
    destruct (bool_decide _); [done|]. intros [= -> -> ->]. eauto.
Qed.
End prune.

(** ** Merging *)

Section dedupe.
Context {E : Env}.
Context (row_order : list (Z * RelationshipRow) -> list (Z * RelationshipRow)).
Context (verify : value -> Z -> Z -> option (string * value)).
Context (TF : text_forms uuid_str parse_uuid isoformat fromisoformat).
Context (row_order_perm : forall l, row_order l ≡ₚ l).
Context (set_iter_perm : forall X, set_iter X ≡ₚ elements X).

Definition dedupe_handler : ApplyHandler :=
  apply_vectorcypher_dedupe_entities uuid_str parse_uuid str_other row_order verify.

Local Abbreviation targets_of := (extract_mirror_targets parse_uuid str_other set_iter).
Local Abbreviation Merge := (Z * (Z * list (Z * RelationshipRow) * option value))%type.

Definition merge_value (m : Merge) : value := record_of uuid_str m.1 m.2.

(** What the applied merges account for. *)
Definition accounted (db0 db : Db) (ms : list Merge) : Prop :=
  (forall i, dead_relationship db i -> dead_relationship db0 i \/ exists m, m ∈ ms /\ i ∈ loop_ids m.2.1.1 m.1 m.2.1.2) /\
  (forall i, dead_entity db i -> dead_entity db0 i \/ exists m, m ∈ ms /\ i = m.2.1.1).

Lemma absorb_accounted opid now a c db i :
  (dead_relationship (absorb row_order opid now a c db) i ->
   dead_relationship db i \/ i ∈ loop_ids a c (_select_relationships_touching row_order a db)) /\
  (dead_entity (absorb row_order opid now a c db) i -> dead_entity db i \/ i = a).
Proof.
  split.
  - intros (r' & Hr & Hd). rewrite absorb_rows in Hr by done. apply fmap_Some in Hr as (r & Hr & ->).
    unfold absorb_row in Hd. destruct (touches a r) eqn:Ht; [|left; by exists r].
    destruct (self_loop a c r) eqn:Hs; [|left; by exists r]. right. unfold loop_ids.
    apply list_elem_of_In, in_map_iff. exists (i, r). split; [done|]. apply filter_In. split; [|done].
    apply list_elem_of_In. by apply elem_of_touching.
  - intros (e' & He & Hd). rewrite absorb_entities in He. destruct (decide (i = a)) as [->|Hne]; [by right|].
    rewrite lookup_alter_ne in He by done. left. by exists e'.
Qed.

Lemma accounted_absorb opid now a c v db0 db ms :
  accounted db0 db ms ->
  accounted db0 (absorb row_order opid now a c db)
    (ms ++ [(c, (a, _select_relationships_touching row_order a db, v))]).
Proof.
  intros [H1 H2]. split; intros i Hi.
  - destruct (proj1 (absorb_accounted opid now a c db i) Hi) as [[Hd|(m & Hm & Hl)]%H1|Hl];
      [by left| |]; right; [exists m; split; [apply elem_of_app; by left|done]|].
    eexists. split; [apply elem_of_app; right; by left|done].
  - destruct (proj2 (absorb_accounted opid now a c db i) Hi) as [[Hd|(m & Hm & Hl)]%H2|Hl];
      [by left| |]; right; [exists m; split; [apply elem_of_app; by left|done]|].
    eexists. split; [apply elem_of_app; right; by left|done].
Qed.

Lemma merges_accounted opid now entries db0 db records ms st :
  extend_m keep_applied records = Ok (List.map merge_value ms) -> accounted db0 db ms ->
  fold_r (apply_merge uuid_str parse_uuid str_other row_order verify opid now) (db, records) entries = Ok st ->
  exists ms', extend_m keep_applied st.2 = Ok (List.map merge_value ms') /\ accounted db0 st.1 ms'.
Proof.
  revert db records ms. induction entries as [|entry entries IH]; intros db records ms Hr Ha; cbn [fold_r].
  { intros [= <-]. by exists ms. }
  destruct (apply_merge _ _ _ _ _ opid now (db, records) entry) as [[db1 records1]|] eqn:Hm; [|done].
  cbn [mbind result_bind]. unfold apply_merge in Hm.
  destruct (subscript entry "canonical_id") as [cv|]; [|done]. cbn [mbind result_bind] in Hm.
  destruct (UUID_of parse_uuid str_other cv) as [c|]; [|done]. cbn [mbind result_bind] in Hm.
  destruct (subscript entry "absorbed_id") as [av|]; [|done]. cbn [mbind result_bind] in Hm.
  destruct (UUID_of parse_uuid str_other av) as [a|]; [|done]. cbn [mbind result_bind] in Hm.
  destruct (match verify entry c a with Some _ => _ | None => false end) eqn:Hv.
  - injection Hm as <- <-. apply (IH _ _ ms); [|done]. rewrite <- (app_nil_r (List.map merge_value ms)).
    by eapply extend_m_app.
  - injection Hm as <- <-.
    apply (IH _ _ (ms ++ [(c, (a, _select_relationships_touching row_order a db, snd <$> verify entry c a))])).
    + rewrite List.map_app. by eapply extend_m_app.
    + by apply accounted_absorb.
Qed.

Lemma remap_merges ms m : exists m', fold_r (remap_entry parse_uuid str_other) m (List.map merge_value ms) = Ok m'.
Proof.
  revert m. induction ms as [|[c e] ms IH]; intros m; [by eexists|]. cbn [List.map fold_r].
  change (merge_value (c, e)) with (record_of uuid_str c e). rewrite (remap_entry_step _ _ _ _ _ TF). apply IH.
Qed.

Lemma mirror_merges_cover m ms t :
  exists t', fold_r (mirror_merge parse_uuid str_other set_iter m) t (List.map merge_value ms) = Ok t' /\
    (forall i, i ∈ invalidate_relationship_ids t \/ (exists e, e ∈ ms /\ i ∈ loop_ids e.2.1.1 e.1 e.2.1.2) ->
       i ∈ invalidate_relationship_ids t') /\
    (forall i, i ∈ retire_entity_ids t \/ (exists e, e ∈ ms /\ i = e.2.1.1) -> i ∈ retire_entity_ids t').
Proof.
  revert t. induction ms as [|[c e] ms IH]; intros t; cbn [List.map fold_r].
  { exists t. split_and!; [done|..]; intros i [?|(? & ?%not_elem_of_nil & _)]; done. }
  change (merge_value (c, e)) with (record_of uuid_str c e). rewrite (mirror_merge_record _ _ _ _ _ _ TF). cbn [mbind result_bind fst snd].
  edestruct IH as (t' & -> & H1 & H2). exists t'. split_and!; [done|..].
  - intros i H. apply H1. cbn [invalidate_relationship_ids]. rewrite !elem_of_app.
    destruct H as [?|(e' & [->|He]%elem_of_cons & Hi)]; [left; by left| |right; eauto].
    left; right; left. rewrite set_iter_perm, elem_of_elements. by apply elem_of_list_to_set.
  - intros i H. apply H2. cbn [retire_entity_ids]. rewrite elem_of_app.
    destruct H as [?|(e' & [->|He]%elem_of_cons & ->)]; [left; by left| |right; eauto].
    left; right. by left.
Qed.

#[export] Instance dedupe_tombstones : Tombstones DEDUPE_ENTITIES dedupe_handler.
Proof.
  intros op now db undo db' Ht. unfold dedupe_handler, apply_vectorcypher_dedupe_entities.
  destruct (items _ "merges") as [entries|]; [|done]. cbn [mbind result_bind].
  destruct (fold_r _ (db, []) entries) as [[db1 records]|] eqn:Hf; [|done]. intros [= <- <-].
  apply (merges_accounted _ _ _ db db [] []) in Hf as (ms & Hms & H1 & H2);
    [|done|split; intros; by left]. cbn [fst snd] in *.
  destruct (remap_merges ms ∅) as [m Hm]. destruct (mirror_merges_cover m ms (MkTargets [] [] [])) as (t & Ht' & C1 & C2).
  exists t. split.
  - unfold extract_mirror_targets. cbn [u_before].
    change (mem_str DEDUPE_ENTITIES [PRUNE_EDGES; CONTRADICTION_RECONCILE]) with false.
    change (String.eqb DEDUPE_ENTITIES DEDUPE_ENTITIES) with true. cbn iota.
    unfold applied_merges. rewrite (items_list _ _ records) by done. cbn [mbind result_bind].
    change (extend_m _ records) with (extend_m keep_applied records). rewrite Hms. cbn [mbind result_bind].
    rewrite Hm. cbn [mbind result_bind]. exact Ht'.
  - split.
    + intros i [?|?]%H1; [by left|right; apply C1; by right].
    + intros i [?|?]%H2; [by left|right; apply C2; by right].
Qed.

(** The operation merges a component into its canonical entity [c], which the graph has. *)
Definition mergeable (ns : Z) (op : DreamOp) (g : Graph) : Prop :=
  exists c planned,
    items (match op_outputs op with x :: _ => x | [] => VDict [] end) "merges" = Ok (fst <$> planned) /\
    Forall (names parse_uuid str_other c) planned /\ NoDup (snd <$> planned) /\ c ∉ snd <$> planned /\
    present ns g c = true.

#[export] Instance dedupe_mirrored : Mirrored DEDUPE_ENTITIES dedupe_handler mergeable.
Proof.
  split.
  - intros ns op now db g s Ht (c & planned & Hit & Hn & Hd & Hc & Hp) A.
    destruct (dedupe_agrees uuid_str parse_uuid str_other isoformat fromisoformat row_order set_iter verify
      TF row_order_perm set_iter_perm ns op now db g c planned s Ht Hit Hn Hd Hc Hp A)
      as (undo & db' & t & H1 & H2 & H3 & H4 & H5).
    exists undo, db', t. rewrite Ht in H2. split_and!; [done..| |done].
    unfold apply_vectorcypher_dedupe_entities in H1. rewrite Hit in H1. cbn [mbind result_bind] in H1.
    destruct (fold_r _ _ _) as [[db1 records]|]; [|done]. by injection H1 as <- _.
  - intros ns op g g' Hg (c & planned & H). exists c, planned. by rewrite <- Hg.
Qed.
End dedupe.
