(* ===== verification/DreamRunFacts.v ===== *)
(** The dream orchestrator under failures: whatever fails, and wherever the process dies,
    every soft-deleted row of the relational store is out of the graph's view or its mirror
    is queued; and an undisturbed drain settles what is queued. *)
From S2P Require Import Prelude PyValue FilterAst FilterPython ReplaceMirror RankFusion Scoring PyText.
From S2P Require Import DreamMirror DreamMirrorFacts DreamMergeFacts DreamRunStore DreamRun DreamHandlers.

Local Open Scope string_scope.
Local Open Scope list_scope.
Local Open Scope Z_scope.

(** ** A program logic for the orchestrator

    Assertions are about what survives the process: the two stores and the run table. *)

Definition assertion : Type := Db -> Runs -> Graph -> Prop.
Definition holds (P : assertion) (w : World) : Prop := P (w_db w) (w_runs w) (w_graph w).

(** From [P], [m] ends in [Q] when it returns, and in [R] when it raises or the process
    dies. *)
Definition hoare {A} (P : assertion) (m : D A) (Q : A -> assertion) (R : assertion) : Prop :=
  forall w, holds P w -> match m w with (Done a, w') => holds (Q a) w' | (_, w') => holds R w' end.

Definition entails (P Q : assertion) : Prop := forall d r g, P d r g -> Q d r g.

Section logic.
Context {A B : Type}.
Implicit Types (P R : assertion) (Q : A -> assertion).

Lemma hoare_ret P (a : A) Q R : entails P (Q a) -> hoare P (mret a) Q R.
Proof. intros H w Hp. by apply H. Qed.

Lemma hoare_raise P e Q R : entails P R -> hoare P (raise (A := A) e) Q R.
Proof. intros H w Hp. by apply H. Qed.

Lemma hoare_bind P (m : D A) (k : A -> D B) Q (Q' : B -> assertion) R :
  hoare P m Q R -> (forall a, hoare (Q a) (k a) Q' R) -> hoare P (m ≫= k) Q' R.
Proof.
  intros Hm Hk w Hp. specialize (Hm w Hp). unfold mbind, D_bind.
  destruct (m w) as [[a|e|] w']; [|done..]. by apply Hk.
Qed.

Lemma hoare_weaken P P' (m : D A) Q Q' R R' :
  hoare P m Q R -> entails P' P -> (forall a, entails (Q a) (Q' a)) -> entails R R' -> hoare P' m Q' R'.
Proof.
  intros Hm HP HQ HR w Hp. specialize (Hm w (HP _ _ _ Hp)).
  destruct (m w) as [[a|e|] w']; [by apply HQ|by apply HR..].
Qed.

Lemma hoare_read P (f : World -> A) Q R :
  (forall w, holds P w -> holds (Q (f w)) w) -> hoare P (read f) Q R.
Proof. intros H w Hp. by apply H. Qed.

Lemma hoare_lift P (r : result A) Q R :
  (forall a, r = Ok a -> entails P (Q a)) -> entails P R -> hoare P (lift r) Q R.
Proof. intros HQ HR. destruct r; [by apply hoare_ret, HQ|by apply hoare_raise]. Qed.

Lemma hoare_try P (m : D A) h Q R R' :
  hoare P m Q R' -> (forall e, hoare R' (h e) Q R) -> entails R' R -> hoare P (try m h) Q R.
Proof.
  intros Hm Hh HR w Hp. specialize (Hm w Hp). unfold try.
  destruct (m w) as [[a|e|] w']; [done|by apply Hh|by apply HR].
Qed.

Lemma hoare_pure P (phi : Prop) (m : D A) Q R :
  (phi -> hoare P m Q R) -> hoare (fun d r g => P d r g /\ phi) m Q R.
Proof. intros H w [Hp Hphi]. by apply H. Qed.

Lemma hoare_bind_ret P (a : A) (k : A -> D B) (Q' : B -> assertion) R :
  hoare P (k a) Q' R -> hoare P (mret a ≫= k) Q' R.
Proof. done. Qed.

(** What a transaction does is durable or has not happened. *)
Lemma hoare_transaction P (body : D A) Q R :
  hoare P body Q (fun _ _ _ => True) -> entails P R -> (forall a, entails (Q a) R) ->
  hoare P (transaction body) Q R.
Proof.
  intros Hb HP HQ w Hp. specialize (Hb w Hp). unfold transaction.
  destruct (body w) as [[a|e|] w']; [|by apply HP..].
  destruct (w_faults w) as [|[] fs]; [apply Hb|apply Hb|by apply HP|by apply (HQ a)|by apply HP].
Qed.

(** Steps that leave the stores alone. *)
Lemma hoare_frame P (m : D A) R :
  (forall w, w_db (m w).2 = w_db w /\ w_runs (m w).2 = w_runs w /\ w_graph (m w).2 = w_graph w) ->
  entails P R -> hoare P m (fun _ => P) R.
Proof.
  intros Hm HR w Hp. destruct (Hm w) as (H1 & H2 & H3). unfold holds in *.
  destruct (m w) as [[a|e|] w']; cbn in *; rewrite H1, H2, H3; [done|by apply HR..].
Qed.
End logic.

Lemma entails_refl P : entails P P.
Proof. by intros d r g. Qed.

#[export] Hint Resolve entails_refl : khora.

Lemma hoare_when P c (m : D ()) Q R :
  hoare P m Q R -> (c = false -> entails P (Q ())) -> hoare P (when c m) Q R.
Proof. destruct c; [done|]. intros _ H. by apply hoare_ret, H. Qed.

Lemma hoare_modify P (f : World -> World) Q R :
  (forall w, holds P w -> holds (Q ()) (f w)) -> hoare P (modify f) Q R.
Proof. intros H w Hp. by apply H. Qed.

Lemma hoare_sql P f Q R :
  (forall d r g, P d r g -> Q () d (f r) g) -> entails P R -> (forall a, entails (Q a) R) -> hoare P (sql f) Q R.
Proof. intros HQ. apply hoare_transaction, hoare_modify. intros w. apply HQ. Qed.

Lemma hoare_graph_call P f Q R :
  (forall d r g, P d r g -> Q () d r (f g)) -> entails P R -> (forall a, entails (Q a) R) ->
  hoare P (graph_call f) Q R.
Proof. intros HQ. apply hoare_transaction, hoare_modify. intros w. apply HQ. Qed.

(** A mirror makes its calls one after the other; it may stop after any of them. *)
Lemma hoare_graph_calls P fs R :
  (forall f, f ∈ fs -> forall d r g, P d r g -> P d r (f g)) -> entails P R ->
  hoare P (graph_calls fs) (fun _ d r g => P d r g /\ exists g0, g = run_calls fs g0) R.
Proof.
  intros Hf HR.
  assert (forall g0, hoare (fun d r g => P d r g /\ g = g0) (graph_calls fs)
    (fun _ d r g => P d r g /\ g = run_calls fs g0) R) as H.
  { induction fs as [|f fs IH]; intros g0; [by apply hoare_ret; intros d r g|]. cbn [graph_calls].
    eapply hoare_bind.
    - apply (hoare_graph_call _ f (fun _ d r g => P d r g /\ g = f g0)).
      + intros d r g [Hp ->]. split; [|done]. apply Hf; [left|done].
      + intros d r g [Hp _]. by apply HR.
      + intros [] d r g [Hp _]. by apply HR.
    - intros []. apply (IH ltac:(intros; apply Hf; [by right|done]) (f g0)). }
  intros w Hp. specialize (H (w_graph w) w (conj Hp eq_refl)).
  destruct (graph_calls fs w) as [[[]|e|] w']; [|done..]. destruct H as [H1 H2]. split; [done|]. by eexists.
Qed.

(** ** The graph's view of a soft-deleted row *)

Definition quiet_edge (row : Z) (g : Graph) (i : Z) : Prop :=
  forall e, edges g !! i = Some e -> live_edge row e = false.

Definition quiet_node (row : Z) (g : Graph) (i : Z) : Prop :=
  forall n, nodes g !! i = Some n -> live_node row n = false.

Lemma update_all_lookup {R} (f : R -> R) ids (t : gmap Z R) i r :
  update_all f ids t !! i = Some r -> exists r0, t !! i = Some r0 /\ (r = r0 \/ exists r1, r = f r1).
Proof.
  unfold update_all. revert t. induction ids as [|j ids IH]; intros t; simpl; [by eauto|].
  intros (r0 & Hr & Hcase)%IH. destruct (decide (i = j)) as [->|Hne].
  - rewrite lookup_alter_eq in Hr. apply fmap_Some in Hr as (r1 & Hr & ->). exists r1. split; [done|].
    destruct Hcase as [->|[r2 ->]]; eauto.
  - rewrite lookup_alter_ne in Hr by done. eauto.
Qed.

Lemma update_all_hits {R} (f : R -> R) ids (t : gmap Z R) i r :
  i ∈ ids -> update_all f ids t !! i = Some r -> exists r1, r = f r1.
Proof.
  unfold update_all. intros Hi. revert t. induction Hi as [i ids|i j ids Hi IH]; intros t; simpl; [|apply IH].
  intros Hr. apply (update_all_lookup f ids (alter f i t)) in Hr as (r0 & Hr & [->|?]); [|done].
  rewrite lookup_alter_eq in Hr. apply fmap_Some in Hr as (r1 & _ & ->). eauto.
Qed.

Lemma dead_node_retired ns t n : live_node ns (retire_node t n) = false.
Proof. unfold live_node. cbn. apply andb_false_r. Qed.

(** No call of a mirror brings a row back. *)
Lemma quiet_call t ns s cs f row g i :
  is_call t ns s cs f ->
  (quiet_edge row g i -> quiet_edge row (f g) i) /\ (quiet_node row g i -> quiet_node row (f g) i).
Proof.
  intros [[l ->]|[ ->|[ ->| ->]]]; split; try done.
  - intros H. unfold rewrite_label_batch.
    assert (forall rows g, quiet_edge row g i -> quiet_edge row (foldl (rewrite_row l ns) g rows) i) as Hq; [|by apply Hq].
    clear g H. intros rows. induction rows as [|r rows IH]; intros g H; [done|]. simpl. apply IH.
    intros e. unfold rewrite_row. destruct (_ && _); [|apply H]. cbn. intros He.
    destruct (decide (i = rw_id r)) as [->|Hne]; [|rewrite lookup_alter_ne in He by done; by apply H].
    rewrite lookup_alter_eq in He. apply fmap_Some in He as (e0 & He & ->). rewrite live_edge_rewrite. by apply H.
  - intros H n. rewrite rewrite_batch_nodes. apply H.
  - intros H e (e0 & He & [->|[e1 ->]])%update_all_lookup; [by apply H|apply live_edge_dead].
  - intros H n (n0 & Hn & [->|[n1 ->]])%update_all_lookup; [by apply H|apply dead_node_retired].
  - intros H e. rewrite materialize_frame. apply H.
  - intros H n. rewrite materialize_frame. apply H.
Qed.

Lemma quiet_calls fs row g i :
  (forall f, f ∈ fs -> exists t ns s cs, is_call t ns s cs f) ->
  (quiet_edge row g i -> quiet_edge row (run_calls fs g) i) /\ (quiet_node row g i -> quiet_node row (run_calls fs g) i).
Proof.
  unfold run_calls. revert g. induction fs as [|f fs IH]; intros g H; [done|]. simpl.
  destruct (H f ltac:(left)) as (t & ns & s & cs & Hf). destruct (quiet_call t ns s cs f row g i Hf) as [H1 H2].
  destruct (IH (f g)) as [H3 H4]; [intros; apply H; by right|]. split; auto.
Qed.

(** What a statement writes to every live row of its list, it writes to each of them. *)
Lemma update_matched {R} (p : R -> bool) (f : R -> R) ids (t : gmap Z R) i r :
  (forall r, p (f r) = false) -> i ∈ ids -> update_all f (matched p t ids) t !! i = Some r -> p r = false.
Proof.
  intros Hf Hi Hr. apply update_all_lookup in Hr as H. destruct H as (r0 & Hr0 & [->|[r1 ->]]); [|apply Hf].
  destruct (p r0) eqn:Hp; [|done]. apply update_all_hits in Hr as [r1 ->]; [by rewrite Hf in Hp|].
  unfold matched. apply list_elem_of_In, filter_In. rewrite Hr0. split; [by apply list_elem_of_In|done].
Qed.

Lemma run_nonempty_call ids (h : Graph -> Graph) fs1 fs2 g (i : Z) :
  i ∈ ids -> run_calls (fs1 ++ nonempty_call ids h ++ fs2) g = run_calls fs2 (h (run_calls fs1 g)).
Proof.
  intros Hi. destruct ids as [|j ids]; [by apply not_elem_of_nil in Hi|]. unfold run_calls. by rewrite foldl_app.
Qed.

(** After a whole mirror its targets are out of the graph's view. *)
Lemma mirror_quiets t row s cs g i :
  (i ∈ invalidate_relationship_ids t -> quiet_edge row (run_calls (apply_mirror_targets t row s cs) g) i) /\
  (i ∈ retire_entity_ids t -> quiet_node row (run_calls (apply_mirror_targets t row s cs) g) i).
Proof.
  assert (forall f, f ∈ apply_mirror_targets t row s cs -> exists t' ns' s' cs', is_call t' ns' s' cs' f) as Hin.
  { intros f Hf. exists t, row, s, cs. by apply mirror_calls. }
  split; intros Hi; unfold apply_mirror_targets in *.
  - rewrite (run_nonempty_call _ _ _ _ _ i Hi). apply quiet_calls.
    + intros f Hf. apply Hin. rewrite !elem_of_app. rewrite elem_of_app in Hf. tauto.
    + intros e He. eapply update_matched; [apply live_edge_dead|exact Hi|exact He].
  - rewrite app_assoc, (run_nonempty_call _ _ _ _ _ i Hi). apply quiet_calls.
    + intros f Hf. apply Hin. rewrite !elem_of_app. tauto.
    + intros n Hn. eapply update_matched; [apply dead_node_retired|exact Hi|exact Hn].
Qed.

(** ** Nothing is forgotten *)

(** A stack whose graph is a store of its own, mirrors every kind that the mirror knows,
    and whose handlers record what they soft-delete. *)
Record RemoteStack {E : Env} (gb : GraphBackend) : Prop := {
  rs_graph : graph = Some gb;
  rs_remote : mirror_in_transaction gb = false;
  rs_apart : shares_sql_store gb = false;
  rs_kinds : forall k, mem_str k MIRRORABLE_OP_KINDS = true -> mem_str k (supports_dream_mirror gb) = true;
  rs_store : has_store = true;
  rs_texts : text_forms uuid_str parse_uuid isoformat fromisoformat;
  rs_order : forall l, run_order l ≡ₚ l;
  rs_handlers : forall k h, handlers k = Some h -> Tombstones k h }.

Section safety.
Context {E : Env} (gb : GraphBackend) (RS : RemoteStack gb) (ns : Z).

Local Abbreviation targets_of := (extract_mirror_targets parse_uuid str_other set_iter).

Definition entry_targets (p : GraphMirrorPending) (t : Targets) : Prop :=
  targets_from_payload parse_uuid str_other (p_payload p) = Ok t.

Definition entry_readable (p : GraphMirrorPending) : Prop :=
  (exists t, entry_targets p t) /\
  exists cs, communities_from_payload parse_uuid str_other int_of_str (p_payload p) = Ok cs.

(** Some run of the namespace owes the graph the soft-delete of [i]. *)
Definition owes (sel : Targets -> list Z) (runs : Runs) (i : Z) : Prop :=
  exists rid r p t, runs !! rid = Some r /\ run_namespace_id r = ns /\ p ∈ graph_mirror_pending r /\
    entry_targets p t /\ i ∈ sel t.

Definition tombstones_known : assertion := fun d r g =>
  (forall i, dead_relationship d i -> quiet_edge (row_namespace ns) g i \/ owes invalidate_relationship_ids r i) /\
  (forall i, dead_entity d i -> quiet_node (row_namespace ns) g i \/ owes retire_entity_ids r i).

(** A run row: one entry per operation, none beyond the checkpoint, all readable. *)
Definition row_tidy (r : RunRow) : Prop :=
  NoDup (op_seq <$> graph_mirror_pending r) /\
  forall p, p ∈ graph_mirror_pending r -> op_seq p <= last_committed_op_seq r /\ entry_readable p.

Definition tidy (runs : Runs) : Prop := forall rid r, runs !! rid = Some r -> row_tidy r.

Definition Base : assertion := fun d r g => tombstones_known d r g /\ tidy r.

(** The row of run [rid] exists, and its checkpoint is before [n]. *)
Definition before (rid n : Z) (runs : Runs) : Prop :=
  exists r, runs !! rid = Some r /\ run_namespace_id r = ns /\ last_committed_op_seq r < n.

Definition At (rid n : Z) : assertion := fun d r g => Base d r g /\ before rid n r.

Lemma At_Base rid n : entails (At rid n) Base.
Proof. by intros d r g [H _]. Qed.

Lemma At_mono rid n n' : n <= n' -> entails (At rid n) (At rid n').
Proof. intros H d r g [HB (row & H1 & H2 & H3)]. split; [done|]. exists row. split_and!; [done..|lia]. Qed.

(** *** Statements on run rows *)

Lemma lookup_row f rid (runs : Runs) rid' r' :
  alter f rid runs !! rid' = Some r' ->
  exists r, runs !! rid' = Some r /\ r' = if decide (rid' = rid) then f r else r.
Proof.
  destruct (decide (rid' = rid)) as [->|Hne].
  - rewrite lookup_alter_eq. by intros (r & Hr & ->)%fmap_Some; eauto.
  - rewrite lookup_alter_ne by done. eauto.
Qed.

Lemma tidy_alter f rid runs :
  (forall r, runs !! rid = Some r -> row_tidy r -> row_tidy (f r)) -> tidy runs -> tidy (alter f rid runs).
Proof.
  intros Hf Ht rid' r' (r & Hr & ->)%lookup_row. destruct (decide (rid' = rid)) as [->|]; [apply Hf; [done|]|];
    by eapply Ht.
Qed.

Lemma owes_alter sel f rid runs i :
  (forall r p t, runs !! rid = Some r -> p ∈ graph_mirror_pending r -> entry_targets p t -> i ∈ sel t ->
     run_namespace_id (f r) = run_namespace_id r /\
     exists p', p' ∈ graph_mirror_pending (f r) /\ exists t', entry_targets p' t' /\ i ∈ sel t') ->
  owes sel runs i -> owes sel (alter f rid runs) i.
Proof.
  intros Hf (rid' & r & p & t & Hr & Hn & Hp & Ht & Hi). destruct (decide (rid' = rid)) as [->|Hne].
  - destruct (Hf r p t Hr Hp Ht Hi) as (Hn' & p' & Hp' & t' & Ht' & Hi').
    exists rid, (f r), p', t'. rewrite lookup_alter_eq, Hr. split_and!; [done|congruence|done..].
  - exists rid', r, p, t. by rewrite lookup_alter_ne.
Qed.

(** Statements that leave the pending entries alone. *)
Definition keeps_entries (f : RunRow -> RunRow) : Prop :=
  forall r, run_namespace_id (f r) = run_namespace_id r /\ graph_mirror_pending (f r) = graph_mirror_pending r.

Lemma owes_keeps sel f rid runs i : keeps_entries f -> owes sel runs i -> owes sel (alter f rid runs) i.
Proof.
  intros Hf. apply owes_alter. intros r p t _ Hp Ht Hi. destruct (Hf r) as [H1 H2]. split; [done|].
  rewrite H2. eauto.
Qed.

Lemma known_runs (d : Db) (r r' : Runs) (g : Graph) :
  (forall sel i, owes sel r i -> owes sel r' i) -> tombstones_known d r g -> tombstones_known d r' g.
Proof. intros H [H1 H2]. split; intros i Hi; [destruct (H1 i Hi)|destruct (H2 i Hi)]; auto. Qed.

Lemma Base_keeps f rid d r g :
  keeps_entries f ->
  (forall row, r !! rid = Some row -> last_committed_op_seq row <= last_committed_op_seq (f row)) ->
  Base d r g -> Base d (alter f rid r) g.
Proof.
  intros Hf Hl [H1 H2]. split.
  - eapply known_runs; [|exact H1]. intros sel i. by apply owes_keeps.
  - apply tidy_alter; [|done]. intros row Hrow [T1 T2]. destruct (Hf row) as [_ Hp]. unfold row_tidy. rewrite Hp.
    split; [done|]. intros p Hin. destruct (T2 p Hin). split; [|done]. specialize (Hl row Hrow). lia.
Qed.

Lemma before_alter f rid n n' runs :
  (forall r, runs !! rid = Some r -> run_namespace_id r = ns -> last_committed_op_seq r < n ->
     run_namespace_id (f r) = ns /\ last_committed_op_seq (f r) < n') ->
  before rid n runs -> before rid n' (alter f rid runs).
Proof.
  intros Hf (r & Hr & Hn & Hl). exists (f r). rewrite lookup_alter_eq, Hr. destruct (Hf r Hr Hn Hl). done.
Qed.

Lemma At_advance rid seq t d r g : At rid (seq + 1) d r g -> At rid (seq + 1) d (advance_checkpoint rid seq t r) g.
Proof.
  intros [HB Hb]. split.
  - apply Base_keeps; [done| |done]. intros row Hrow. destruct Hb as (row' & Hr & _ & Hl).
    cbn. assert (row = row') as -> by congruence. lia.
  - eapply before_alter; [|exact Hb]. intros row _ Hn _. cbn. split; [done|lia].
Qed.

Lemma Base_plan rid h n t d r g : Base d r g -> Base d (persist_plan rid h n t r) g.
Proof. apply Base_keeps; [done|]. intros row _. cbn. lia. Qed.

Lemma Base_finalize rid s n e t d r g : Base d r g -> Base d (finalize_run rid s n e t r) g.
Proof. apply Base_keeps; [done|]. intros row _. cbn. lia. Qed.

Lemma At_plan rid k h n t d r g : At rid k d r g -> At rid k d (persist_plan rid h n t r) g.
Proof. intros [HB Hb]. split; [by apply Base_plan|]. eapply before_alter; [|exact Hb]. intros row _ Hn Hl. done. Qed.

Lemma Base_record rid mode t d r g :
  r !! rid = None -> Base d r g -> Base d (record_run rid ns mode t r) g /\ before rid 0 (record_run rid ns mode t r).
Proof.
  intros Hr [H1 H2]. unfold record_run. rewrite Hr. split; [split|].
  - eapply known_runs; [|exact H1]. intros sel i (rid' & row & p & ta & Hrow & Hrest).
    exists rid', row, p, ta. split; [|done]. rewrite lookup_insert_ne; [done|congruence].
  - intros rid' row Hrow. apply lookup_insert_Some in Hrow as [[<- <-]|[_ Hrow]]; [|by eapply H2].
    split; [constructor|]. cbn. by intros p ?%not_elem_of_nil.
  - eexists. rewrite lookup_insert_eq. split_and!; [done..|cbn; lia].
Qed.

(** *** Entries *)

(** Every entry of run [rid] for operation [seq] stands for [t]. *)
Definition stands_for (rid seq : Z) (t : Targets) (runs : Runs) : Prop :=
  forall r p, runs !! rid = Some r -> p ∈ graph_mirror_pending r -> op_seq p = seq -> entry_targets p t.

Lemma get_pending rid runs r : runs !! rid = Some r -> get_graph_mirror_pending rid runs = graph_mirror_pending r.
Proof. intros H. unfold get_graph_mirror_pending. by rewrite H. Qed.

Lemma owes_mark sel rid entry t runs i :
  stands_for rid (op_seq entry) t runs -> entry_targets entry t ->
  owes sel runs i -> owes sel (mark_graph_mirror_pending rid entry runs) i.
Proof.
  intros Hs He. apply owes_alter. intros r p tp Hr Hp Ht Hi. split; [done|]. cbn.
  rewrite (get_pending _ _ _ Hr). destruct (decide (op_seq p = op_seq entry)) as [Eq|Hne].
  - exists entry. split; [apply elem_of_merge_pending; by left|]. exists t. split; [done|].
    specialize (Hs r p Hr Hp Eq). unfold entry_targets in *. congruence.
  - exists p. split; [apply elem_of_merge_pending; by right|]. eauto.
Qed.

Lemma tidy_mark rid entry runs :
  (forall r, runs !! rid = Some r -> op_seq entry <= last_committed_op_seq r) -> entry_readable entry ->
  tidy runs -> tidy (mark_graph_mirror_pending rid entry runs).
Proof.
  intros Hl He. apply tidy_alter. intros r Hr [T1 T2]. unfold row_tidy. cbn. rewrite (get_pending _ _ _ Hr). split.
  - rewrite merge_pending_perm. rewrite fmap_cons. apply NoDup_cons. split.
    + intros (p & Ep & Hp)%list_elem_of_fmap. apply elem_of_without_seq in Hp as [_ Hne]. by rewrite Ep in Hne.
    + by apply without_seq_nodup.
  - intros p [->|[Hp _]]%elem_of_merge_pending; [|by apply T2]. split; [by apply Hl|done].
Qed.

Lemma owes_clear sel rid seq runs i t :
  stands_for rid seq t runs -> owes sel runs i ->
  i ∈ sel t \/ owes sel (clear_graph_mirror_pending rid seq runs) i.
Proof.
  intros Hs (rid' & r & p & tp & Hr & Hn & Hp & Ht & Hi). unfold clear_graph_mirror_pending.
  destruct (decide (rid' = rid)) as [->|Hne].
  - destruct (decide (op_seq p = seq)) as [Eq|Hq].
    + left. specialize (Hs r p Hr Hp Eq). unfold entry_targets in *. congruence.
    + right. eexists rid, _, p, tp. rewrite lookup_alter_eq, Hr. split_and!; [done| |..]; [done| |done..].
      cbn. rewrite (get_pending _ _ _ Hr). by apply elem_of_without_seq.
  - right. exists rid', r, p, tp. by rewrite lookup_alter_ne.
Qed.

Lemma tidy_clear rid seq runs : tidy runs -> tidy (clear_graph_mirror_pending rid seq runs).
Proof.
  apply tidy_alter. intros r Hr [T1 T2]. unfold row_tidy. cbn. rewrite (get_pending _ _ _ Hr). split.
  - by apply without_seq_nodup.
  - intros p [Hp _]%elem_of_without_seq. by apply T2.
Qed.


(** Entries whose targets the graph no longer shows can be dropped. *)
Lemma Base_clear d r g rid seq t g0 s cs :
  stands_for rid seq t r -> g = run_calls (apply_mirror_targets t (row_namespace ns) s cs) g0 ->
  Base d r g -> Base d (clear_graph_mirror_pending rid seq r) g.
Proof.
  intros Hs -> [[H1 H2] HT]. split; [split|by apply tidy_clear]; intros i Hi.
  - destruct (H1 i Hi) as [?|Ho]; [by left|]. apply (owes_clear _ _ _ _ _ _ Hs) in Ho as [Ho|?]; [left|by right].
    by apply mirror_quiets.
  - destruct (H2 i Hi) as [?|Ho]; [by left|]. apply (owes_clear _ _ _ _ _ _ Hs) in Ho as [Ho|?]; [left|by right].
    by apply mirror_quiets.
Qed.

Lemma before_clear rid n rid' seq runs : before rid n runs -> before rid n (clear_graph_mirror_pending rid' seq runs).
Proof.
  intros (r & Hr & Hn & Hl). unfold clear_graph_mirror_pending. destruct (decide (rid = rid')) as [->|Hne].
  - eexists. rewrite lookup_alter_eq, Hr. by split_and!.
  - exists r. by rewrite lookup_alter_ne.
Qed.

Lemma Base_call d r g t ns' s cs f : is_call t ns' s cs f -> Base d r g -> Base d r (f g).
Proof.
  intros Hf [[H1 H2] HT]. split; [split|done]; intros i Hi.
  - destruct (H1 i Hi); [left|by right]. by eapply quiet_call.
  - destruct (H2 i Hi); [left|by right]. by eapply quiet_call.
Qed.

(** *** The drain *)

(** Each entry of the list is the only one of its run and operation. *)
Definition current (l : list (Z * GraphMirrorPending)) (runs : Runs) : Prop :=
  forall rid p r q, (rid, p) ∈ l -> runs !! rid = Some r -> q ∈ graph_mirror_pending r -> op_seq q = op_seq p -> q = p.

Lemma current_clear l rid seq runs : current l runs -> current l (clear_graph_mirror_pending rid seq runs).
Proof.
  intros Hc rid' p r q Hin (r0 & Hr & ->)%lookup_row Hq Heq. eapply Hc; [exact Hin|exact Hr| |exact Heq].
  destruct (decide (rid' = rid)) as [->|]; [|done]. cbn in Hq. rewrite (get_pending _ _ _ Hr) in Hq.
  by apply elem_of_without_seq in Hq as [? _].
Qed.

Lemma current_open runs : tidy runs -> current (get_open_graph_mirror_pending run_order ns runs) runs.
Proof.
  intros HT rid p r q (r' & Hr' & _ & Hp)%elem_of_open Hr Hq Heq; [|apply RS].
  assert (r' = r) as -> by congruence. destruct (HT rid r Hr) as [Hd _].
  revert Hd Hp Hq. induction (graph_mirror_pending r) as [|x l IH]; csimpl; [by intros _ ?%not_elem_of_nil|].
  intros [Hn Hd]%NoDup_cons [->|Hp]%elem_of_cons [->|Hq]%elem_of_cons; [done|..|by apply IH];
    exfalso; apply Hn; [rewrite <- Heq|rewrite Heq]; by apply list_elem_of_fmap_2.
Qed.

Lemma hoare_resolve P R : entails P R -> hoare P (_resolve_namespace_for_mirror ns)
  (fun row d r g => P d r g /\ row = row_namespace ns) R.
Proof.
  intros HR. apply hoare_transaction; [by apply hoare_ret; intros d r g|done|]. intros row d r g [? _]. by apply HR.
Qed.

Lemma mirror_calls_are t row s cs f : f ∈ apply_mirror_targets t row s cs -> exists t' ns' s' cs', is_call t' ns' s' cs' f.
Proof. intros Hf. exists t, row, s, cs. by apply mirror_calls. Qed.

(** Resolving the namespace and making the calls of a mirror: done, or what went wrong. *)
Lemma hoare_mirror_calls P (calls_of : Z -> result (list (Graph -> Graph))) (phi : Targets -> Prop) R :
  (forall row calls, calls_of row = Ok calls ->
     exists t s cs, phi t /\ calls = apply_mirror_targets t row s cs) ->
  (forall d r g t' ns' s' cs' f, is_call t' ns' s' cs' f -> P d r g -> P d r (f g)) -> entails P R ->
  hoare P (try (row ← _resolve_namespace_for_mirror ns;
                calls ← lift (calls_of row);
                _ ← graph_calls calls;
                mret None) (fun e => mret (Some e)))
    (fun failed d r g => P d r g /\ (failed = None ->
       exists t s cs g0, phi t /\ g = run_calls (apply_mirror_targets t (row_namespace ns) s cs) g0)) R.
Proof.
  intros Hcalls Hcall HR. eapply hoare_try with (R' := P); [|intros e; apply hoare_ret; intros d r g Hp; by split|done].
  eapply hoare_bind; [apply hoare_resolve, entails_refl|]. intros row.
  apply hoare_pure. intros ->.
  eapply hoare_bind with (Q := fun calls d r g => P d r g /\ calls_of (row_namespace ns) = Ok calls).
  { apply hoare_lift; [|apply entails_refl]. intros calls Hc d r g Hp. done. }
  intros calls. apply hoare_pure. intros (t & s & cs & Ht & ->)%Hcalls. eapply hoare_bind.
  - apply hoare_graph_calls; [|apply entails_refl]. intros f Hf d r g Hp.
    destruct (mirror_calls_are _ _ _ _ _ Hf) as (t' & ns' & s' & cs' & Hc). by eapply Hcall.
  - intros []. apply hoare_ret. intros d r g [Hp [g0 Hg]]. split; [done|]. intros _. by exists t, s, cs, g0.
Qed.

Lemma hoare_drain_entries rid n at_ l :
  hoare (fun d r g => At rid n d r g /\ current l r) (drain_entries ns at_ l) (fun _ => At rid n) Base.
Proof.
  induction l as [|[rid' p] l IH]; cbn [drain_entries].
  { apply hoare_ret. by intros d r g [? _]. }
  eapply hoare_bind.
  - apply (hoare_mirror_calls _ (fun row => apply_mirror_payload parse_uuid str_other fromisoformat int_of_str (p_payload p) row at_)
             (entry_targets p)).
    + intros row calls. unfold apply_mirror_payload, entry_targets.
      destruct (targets_from_payload _ _ _) as [t|]; [|done]. cbn [mbind result_bind].
      destruct (communities_from_payload _ _ _ _) as [cs|]; [|done]. cbn [mbind result_bind]. intros [= <-].
      by eexists t, _, cs.
    + intros d r g t' ns' s' cs' f Hf [[HB Hb] Hc]. split; [|done]. split; [|done]. by eapply Base_call.
    + intros d r g [[HB _] _]. exact HB.
  - intros [e|].
    + eapply hoare_bind with (Q := fun _ => At rid n); [|intros ds; apply hoare_ret, entails_refl].
      eapply hoare_weaken; [exact IH| |intros; apply entails_refl|apply entails_refl].
      intros d r g [[HA Hc] _]. split; [done|]. intros rid0 p0 r0 q Hin. apply Hc. by right.
    + eapply hoare_bind with (Q := fun _ d r g => At rid n d r g /\ current l r); [|intros []; exact IH].
      apply hoare_sql.
      * intros d r g [[[HB Hb] Hc] Hg]. destruct (Hg eq_refl) as (t & s & cs & g0 & Ht & ->).
        split; [split; [|by apply before_clear]|].
        -- eapply Base_clear; [|reflexivity|done]. intros r0 q Hr Hq Heq.
           assert (q = p) as -> by (eapply Hc; [left|..]; done). done.
        -- apply current_clear. intros rid0 p0 r0 q Hin. apply Hc. by right.
      * by intros d r g [[[HB _] _] _].
      * by intros _ d r g [[HB _] _].
Qed.

Lemma hoare_drain rid n : hoare (At rid n) (_drain_graph_mirror_pending ns) (fun _ => At rid n) Base.
Proof.
  unfold _drain_graph_mirror_pending. rewrite (rs_graph _ RS), (rs_store _ RS). cbn [negb].
  eapply hoare_bind.
  - eapply hoare_try with (R' := At rid n)
      (Q := fun x d r g => At rid n d r g /\ match x with inl l => current l r | inr _ => True end);
      [|intros e; apply hoare_ret; by intros d r g|apply At_Base].
    eapply hoare_bind; [|intros l; apply hoare_ret, entails_refl].
    apply (hoare_transaction _ _ (fun l d r g => At rid n d r g /\ current l r)).
    + apply hoare_read. intros w HA. split; [done|]. apply current_open, HA.
    + apply entails_refl.
    + by intros l d r g [? _].
  - intros [l|e]; [|apply hoare_ret; by intros d r g [? _]].
    eapply hoare_bind; [|intros t; apply hoare_drain_entries].
    apply hoare_read. intros w H. exact H.
Qed.

(** *** Applying an operation *)

(** Operation [seq] is committed, with what its record asks of the mirror. *)
Definition Applied (rid seq : Z) (op : DreamOp) (undo : UndoRecord) : assertion := fun d r g =>
  At rid (seq + 1) d r g /\ (forall row, r !! rid = Some row -> last_committed_op_seq row = seq) /\
  exists t, targets_of (op_type op) (u_before undo) = Ok t /\ stands_for rid seq t r.

Lemma unmirrorable_targets k before :
  mem_str k MIRRORABLE_OP_KINDS = false -> targets_of k before = Ok (MkTargets [] [] []).
Proof.
  unfold MIRRORABLE_OP_KINDS, mem_str, extract_mirror_targets. cbn [existsb]. rewrite !orb_false_iff.
  intros (H1 & H2 & _ & H4 & _). cbn. rewrite H1, H4. cbn. by rewrite H2.
Qed.

(** The payload an operation queues stands for its targets. *)
Lemma payload_entry op undo t seq p :
  targets_of (op_type op) (u_before undo) = Ok t ->
  mirror_payload uuid_str parse_uuid str_other isoformat int_of_str set_iter op undo = Ok p ->
  entry_targets (pending_entry seq op p) t /\ entry_readable (pending_entry seq op p).
Proof.
  intros Ht Hp. pose proof Hp as Hp0. unfold mirror_payload in Hp0. rewrite Ht in Hp0. cbn [mbind result_bind] in Hp0.
  destruct (extract_community_targets _ _ _ _ _) as [cs|] eqn:Hc; [|done]. clear Hp0.
  destruct (mirror_payload_codec _ _ _ _ _ int_of_str set_iter (rs_texts _ RS) op undo t cs (u_applied_at undo) Ht Hc)
    as (p' & Hp' & H1 & H2 & _).
  assert (p' = p) as -> by congruence.
  split; [exact H1|]. split; [by exists t|]. by eexists.
Qed.

(** Known but for the targets [t]. *)
Definition known_but (t : Targets) : assertion := fun d r g =>
  (forall i, dead_relationship d i ->
     quiet_edge (row_namespace ns) g i \/ owes invalidate_relationship_ids r i \/ i ∈ invalidate_relationship_ids t) /\
  (forall i, dead_entity d i ->
     quiet_node (row_namespace ns) g i \/ owes retire_entity_ids r i \/ i ∈ retire_entity_ids t).

(** In the transaction: the handler has written, nothing is queued yet. *)
Definition Written (rid seq : Z) (op : DreamOp) (undo : UndoRecord) : assertion := fun d r g =>
  exists t, targets_of (op_type op) (u_before undo) = Ok t /\ known_but t d r g /\ tidy r /\
    exists row, r !! rid = Some row /\ run_namespace_id row = ns /\ last_committed_op_seq row < seq + 1 /\
      forall p, p ∈ graph_mirror_pending row -> op_seq p < seq.

Lemma invoke_handler h op w :
  _invoke_handler h op w = match h op (now_at w) (w_db w) with
                           | Ok (undo, d') => (Done undo, with_db d' w)
                           | Err e => (Raised (Python e), w)
                           end.
Proof.
  unfold _invoke_handler, mbind, D_bind, read, lift.
  by destruct (h op (now_at w) (w_db w)) as [[undo d']|e].
Qed.

Lemma hoare_handler rid seq op h :
  handlers (op_type op) = Some h ->
  hoare (At rid seq) (_invoke_handler h op) (fun undo => Written rid seq op undo) (fun _ _ _ => True).
Proof.
  intros Hh w [[[H1 H2] HT] (row & Hrow & Hns & Hl)]. rewrite invoke_handler.
  destruct (h op (now_at w) (w_db w)) as [[undo d']|] eqn:Hrun; [|exact I].
  destruct (rs_handlers _ RS _ _ Hh op (now_at w) (w_db w) undo d' eq_refl Hrun) as (t & Ht & T1 & T2).
  exists t. split; [done|]. split; [split; intros i Hi|split; [done|]].
  - destruct (T1 i Hi) as [Hd|?]; [destruct (H1 i Hd)|]; tauto.
  - destruct (T2 i Hi) as [Hd|?]; [destruct (H2 i Hd)|]; tauto.
  - exists row. split_and!; [done..|lia|]. intros p Hp. destruct (HT rid row Hrow) as [_ Hb]. destruct (Hb p Hp). lia.
Qed.

Lemma owes_keeps_known f rid t d r g :
  keeps_entries f -> known_but t d r g -> known_but t d (alter f rid r) g.
Proof. intros Hf [H1 H2]. split; intros i Hi; [destruct (H1 i Hi) as [?|[?|?]]|destruct (H2 i Hi) as [?|[?|?]]]; eauto using owes_keeps. Qed.

Lemma hoare_checkpoint rid seq op undo :
  hoare (Written rid seq op undo) (_record_committed_in_session rid seq)
    (fun _ d r g => Written rid seq op undo d r g /\
       forall row, r !! rid = Some row -> last_committed_op_seq row = seq) (fun _ _ _ => True).
Proof.
  unfold _record_committed_in_session. rewrite (rs_store _ RS). apply hoare_modify.
  intros w (t & Ht & Hk & HT & row & Hrow & Hns & Hl & Hp). split.
  - exists t. split_and!; [done|by apply owes_keeps_known| |].
    + apply tidy_alter; [|done]. intros row' Hrow' [T1 T2]. split; [done|]. intros p Hin. destruct (T2 p Hin).
      split; [|done]. cbn. assert (row' = row) as -> by congruence. specialize (Hp p Hin). lia.
    + eexists. cbn. unfold advance_checkpoint. rewrite lookup_alter_eq, Hrow. split_and!; [done..|cbn; lia|done].
  - intros row' (row0 & Hr0 & ->)%lookup_row. by rewrite decide_True.
Qed.

Lemma known_but_nothing t d r g :
  retire_entity_ids t = [] -> invalidate_relationship_ids t = [] -> known_but t d r g -> tombstones_known d r g.
Proof.
  intros E1 E2 [H1 H2]. rewrite E1 in H2. rewrite E2 in H1.
  split; intros i Hi; [destruct (H1 i Hi) as [?|[?|?%not_elem_of_nil]]|destruct (H2 i Hi) as [?|[?|?%not_elem_of_nil]]]; tauto.
Qed.

Lemma is_nil_true {A} (l : list A) : is_nil l = true <-> l = [].
Proof. by destruct l. Qed.

Lemma pre_mark rid seq op undo w :
  _pre_mark_graph_mirror_pending rid seq op undo w =
  if mirrors_kind gb (op_type op) then
    match targets_of (op_type op) (u_before undo) with
    | Err e => (Raised (Python e), w)
    | Ok t =>
        if is_nil (retire_entity_ids t) && is_nil (invalidate_relationship_ids t) then (Done (), w)
        else match mirror_payload uuid_str parse_uuid str_other isoformat int_of_str set_iter op undo with
             | Err e => (Raised (Python e), w)
             | Ok p => (Done (), with_runs (mark_graph_mirror_pending rid (pending_entry seq op p) (w_runs w)) w)
             end
    end
  else (Done (), w).
Proof.
  unfold _pre_mark_graph_mirror_pending. rewrite (rs_graph _ RS), (rs_store _ RS). cbn [negb orb].
  destruct (mirrors_kind gb (op_type op)); [|done]. cbn [negb]. unfold mbind, D_bind, lift.
  destruct (targets_of _ _) as [t|]; [|done]. cbn. destruct (is_nil _ && is_nil _); [done|].
  by destruct (mirror_payload _ _ _ _ _ _ _ _).
Qed.

Lemma hoare_pre_mark rid seq op undo :
  hoare (fun d r g => Written rid seq op undo d r g /\ forall row, r !! rid = Some row -> last_committed_op_seq row = seq)
    (_pre_mark_graph_mirror_pending rid seq op undo) (fun _ => Applied rid seq op undo) (fun _ _ _ => True).
Proof.
  assert (forall d r g t row, (forall row, r !! rid = Some row -> last_committed_op_seq row = seq) ->
    known_but t d r g -> tidy r -> retire_entity_ids t = [] -> invalidate_relationship_ids t = [] ->
    targets_of (op_type op) (u_before undo) = Ok t -> r !! rid = Some row -> run_namespace_id row = ns ->
    last_committed_op_seq row < seq + 1 -> (forall p, p ∈ graph_mirror_pending row -> op_seq p < seq) ->
    Applied rid seq op undo d r g) as Hnone.
  { intros d r g t row Hseq Hk HT E1 E2 Ht Hrow Hns Hl Hp. split; [|split; [done|]].
    - split; [split; [by eapply known_but_nothing|done]|]. by exists row.
    - exists t. split; [done|]. intros row' p Hrow' Hin Heq. assert (row' = row) as -> by congruence.
      specialize (Hp p Hin). lia. }
  intros w [(t & Ht & Hk & HT & row & Hrow & Hns & Hl & Hp) Hseq].
  rewrite pre_mark. destruct (mirrors_kind gb (op_type op)) eqn:Hm.
  2:{ assert (t = MkTargets [] [] []) as ->.
      { rewrite unmirrorable_targets in Ht; [by simplify_eq|]. unfold mirrors_kind in Hm.
        destruct (mem_str (op_type op) MIRRORABLE_OP_KINDS) eqn:Hk'; [|done].
        by rewrite (rs_kinds _ RS _ Hk') in Hm. }
      by eapply Hnone. }
  rewrite Ht. destruct (is_nil (retire_entity_ids t) && is_nil (invalidate_relationship_ids t)) eqn:Hempty.
  { apply andb_true_iff in Hempty as [E1%is_nil_true E2%is_nil_true]. by eapply Hnone. }
  destruct (mirror_payload _ _ _ _ _ _ op undo) as [p|] eqn:Hpay; [|exact I].
  destruct (payload_entry op undo t seq p Ht Hpay) as [He Hread].
  set (entry := pending_entry seq op p) in *.
  assert (Hs : stands_for rid (op_seq entry) t (w_runs w)).
  { intros row' q Hrow' Hin Heq. assert (row' = row) as -> by congruence. specialize (Hp q Hin). cbn in Heq. lia. }
  assert (Hin : entry ∈ _merge_pending (get_graph_mirror_pending rid (w_runs w)) entry)
    by (apply elem_of_merge_pending; by left).
  assert (Howe : forall sel i, i ∈ sel t -> owes sel (mark_graph_mirror_pending rid entry (w_runs w)) i).
  { intros sel i Hi. eexists rid, _, entry, t. unfold mark_graph_mirror_pending. rewrite lookup_alter_eq, Hrow.
    split_and!; [done|done|exact Hin|done|done]. }
  split; [split; [split|]|split].
  - destruct Hk as [K1 K2]. split; intros i Hi.
    + destruct (K1 i Hi) as [?|[?|?]]; [by left|right; by eapply owes_mark|right; by apply Howe].
    + destruct (K2 i Hi) as [?|[?|?]]; [by left|right; by eapply owes_mark|right; by apply Howe].
  - apply tidy_mark; [|done..]. intros row' Hrow'. rewrite (Hseq _ Hrow'). cbn. lia.
  - eapply before_alter; [|by exists row]. intros row' Hrow' Hns' Hl'. done.
  - intros row' (row0 & Hr0 & ->)%lookup_row. rewrite decide_True by done. exact (Hseq row0 Hr0).
  - exists t. split; [done|]. intros row' q (row0 & Hr0 & ->)%lookup_row Hq Heq.
    rewrite decide_True in Hq by done. cbn in Hq. rewrite (get_pending _ _ _ Hrow) in Hq.
    apply elem_of_merge_pending in Hq as [->|[_ Hne]]; [done|]. by cbn in Hne.
Qed.

Lemma Applied_At rid seq op undo : entails (Applied rid seq op undo) (At rid (seq + 1)).
Proof. by intros d r g [? _]. Qed.

Lemma hoare_apply_one_op rid seq op h :
  handlers (op_type op) = Some h ->
  hoare (At rid seq) (_apply_one_op rid seq ns op h) (fun undo => Applied rid seq op undo) (At rid (seq + 1)).
Proof.
  intros Hh. apply hoare_transaction; [|apply At_mono; lia|intros; apply Applied_At].
  eapply hoare_bind with (Q := fun _ => At rid seq).
  { unfold _assert_backend_supported. destruct (negb _); [apply hoare_ret, entails_refl|].
    destruct dialect as [d|]; [|apply hoare_ret, entails_refl].
    destruct (String.eqb _ _); [apply hoare_ret, entails_refl|by apply hoare_raise]. }
  intros []. eapply hoare_bind; [by apply hoare_handler|]. intros undo.
  eapply hoare_bind; [apply hoare_checkpoint|]. intros [].
  assert (_mirror_dream_op_in_tx ns op undo = mret false) as ->.
  { unfold _mirror_dream_op_in_tx. by rewrite (rs_graph _ RS), (rs_remote _ RS). }
  apply hoare_bind_ret. cbn iota.
  eapply hoare_bind; [apply hoare_pre_mark|]. intros []. apply hoare_ret, entails_refl.
Qed.

(** *** Mirroring it *)

Lemma targets_functional op undo t t' :
  targets_of (op_type op) (u_before undo) = Ok t -> targets_of (op_type op) (u_before undo) = Ok t' -> t = t'.
Proof. congruence. Qed.

Lemma Applied_call rid seq op undo d r g t' ns' s' cs' f :
  is_call t' ns' s' cs' f -> Applied rid seq op undo d r g -> Applied rid seq op undo d r (f g).
Proof. intros Hf [[HB Hb] Ht]. split; [|done]. split; [|done]. by eapply Base_call. Qed.

Lemma hoare_queue rid seq op undo :
  hoare (Applied rid seq op undo) (_queue_graph_mirror_pending rid seq op undo) (fun _ => At rid (seq + 1)) Base.
Proof.
  unfold _queue_graph_mirror_pending. rewrite (rs_store _ RS). unfold when.
  eapply hoare_bind with (Q := fun p d r g => Applied rid seq op undo d r g /\
    mirror_payload uuid_str parse_uuid str_other isoformat int_of_str set_iter op undo = Ok p).
  { apply hoare_lift; [by intros p Hp d r g|]. intros d r g HA. by eapply At_Base, Applied_At. }
  intros p. apply hoare_pure. intros Hp. apply hoare_sql.
  - intros d r g [[[[K1 K2] HT] Hb] [Hseq (t & Ht & Hs)]].
    destruct (payload_entry op undo t seq p Ht Hp) as [He Hread]. split; [split|].
    + split; intros i Hi; [destruct (K1 i Hi)|destruct (K2 i Hi)]; (by left) || (right; by eapply owes_mark).
    + apply tidy_mark; [|done..]. intros row' Hrow'. rewrite (Hseq _ Hrow'). cbn. lia.
    + eapply before_alter; [|exact Hb]. intros row' Hrow' Hns' Hl'. done.
  - intros d r g HA. by eapply At_Base, Applied_At.
  - intros []. apply At_Base.
Qed.

Lemma hoare_clear rid seq op undo t s cs :
  targets_of (op_type op) (u_before undo) = Ok t ->
  hoare (fun d r g => Applied rid seq op undo d r g /\
           exists g0, g = run_calls (apply_mirror_targets t (row_namespace ns) s cs) g0)
    (_clear_graph_mirror_pending rid seq) (fun _ => At rid (seq + 1)) Base.
Proof.
  intros Ht. unfold _clear_graph_mirror_pending. rewrite (rs_store _ RS). apply hoare_sql.
  - intros d r g [[[HB Hb] [_ (t' & Ht' & Hs)]] [g0 Hg]]. assert (t' = t) as -> by congruence.
    split; [by eapply Base_clear|by apply before_clear].
  - intros d r g [HA _]. by eapply At_Base, Applied_At.
  - intros []. apply At_Base.
Qed.

Lemma hoare_mirror rid seq op undo :
  hoare (Applied rid seq op undo) (_mirror_dream_op rid seq ns op undo) (fun _ => At rid (seq + 1)) Base.
Proof.
  unfold _mirror_dream_op. rewrite (rs_graph _ RS), (rs_apart _ RS).
  assert (forall (a : option Degradation), hoare (Applied rid seq op undo) (mret a) (fun _ => At rid (seq + 1)) Base) as Hret.
  { intros a. apply hoare_ret, Applied_At. }
  destruct (negb _); [apply Hret|].
  eapply hoare_bind with (Q := fun t d r g => Applied rid seq op undo d r g /\ targets_of (op_type op) (u_before undo) = Ok t).
  { apply hoare_lift; [by intros t Ht d r g|]. intros d r g HA. by eapply At_Base, Applied_At. }
  intros t. apply hoare_pure. intros Ht.
  eapply hoare_bind with (Q := fun _ => Applied rid seq op undo).
  { apply hoare_lift; [by intros cs _ d r g|]. intros d r g HA. by eapply At_Base, Applied_At. }
  intros cs. destruct (no_targets t cs); [apply Hret|].
  eapply hoare_bind.
  - apply (hoare_mirror_calls (Applied rid seq op undo)
      (fun row => Ok (apply_mirror_targets t row (u_applied_at undo) cs))
      (fun t' => t' = t)).
    + intros row calls [= <-]. by exists t, (u_applied_at undo), cs.
    + intros. by eapply Applied_call.
    + intros d r g HA. by eapply At_Base, Applied_At.
  - intros [e|].
    + eapply hoare_bind with (Q := fun _ => At rid (seq + 1)); [|intros []; apply hoare_ret, entails_refl].
      eapply hoare_weaken; [apply (hoare_queue rid seq op undo)|by intros d r g [? _]|intros; apply entails_refl|apply entails_refl].
    + eapply hoare_bind with (Q := fun _ => At rid (seq + 1)); [|intros []; apply hoare_ret, entails_refl].
      intros w [HA Hg]. destruct (Hg eq_refl) as (t' & s & cs' & g0 & -> & Hg').
      apply (hoare_clear rid seq op undo t s cs' Ht). split; [done|]. by exists g0.
Qed.

(** *** The run *)

Lemma hoare_record rid seq : hoare (At rid (seq + 1)) (_record_committed rid seq) (fun _ => At rid (seq + 1)) Base.
Proof.
  unfold _record_committed. rewrite (rs_store _ RS). unfold when.
  eapply hoare_bind with (Q := fun _ => At rid (seq + 1)); [by apply hoare_read|]. intros t.
  apply hoare_sql; [intros d r g; apply At_advance|apply At_Base|intros []; apply At_Base].
Qed.

Lemma breach_frame op w :
  w_db (_llm_budget_breach op ns w).2 = w_db w /\ w_runs (_llm_budget_breach op ns w).2 = w_runs w /\
  w_graph (_llm_budget_breach op ns w).2 = w_graph w.
Proof.
  unfold _llm_budget_breach, _get_namespace_day_budget, mbind, D_bind, read.
  destruct (negb _); [done|]. destruct (_ && _); [done|]. destruct (_ =? 0); [done|].
  destruct (w_day w !! ns) as [[used started]|]; [|done]. by destruct (_ <=? _).
Qed.

Lemma usage_frame op w :
  w_db (_drain_llm_usage op ns w).2 = w_db w /\ w_runs (_drain_llm_usage op ns w).2 = w_runs w /\
  w_graph (_drain_llm_usage op ns w).2 = w_graph w.
Proof.
  unfold _drain_llm_usage, _get_namespace_day_budget, mbind, D_bind, modify.
  destruct (_ =? 0); [done|]. cbn. destruct (w_day w !! ns) as [[used started]|]; [|done]. by destruct (_ <=? _).
Qed.

Lemma undo_frame rid started records w :
  w_db (write_undo_incremental rid started records w).2 = w_db w /\
  w_runs (write_undo_incremental rid started records w).2 = w_runs w /\
  w_graph (write_undo_incremental rid started records w).2 = w_graph w.
Proof.
  unfold write_undo_incremental, when, try, transaction, modify. destruct file_sink; [|done].
  by destruct (w_faults w) as [|[] fs].
Qed.

Lemma hoare_apply_op rid started seq op rep :
  hoare (At rid seq) (apply_op rid ns started seq op rep) (fun _ => At rid (seq + 1)) Base.
Proof.
  unfold apply_op, get_apply_handler. destruct (mem_str _ _); [intros w HA; by apply At_Base in HA|].
  apply hoare_bind_ret. assert (entails (At rid seq) (At rid (seq + 1))) as Hmono by (apply At_mono; lia).
  destruct (handlers (op_type op)) as [h|] eqn:Hh.
  2:{ eapply hoare_bind with (Q := fun _ => At rid (seq + 1)); [|intros; apply hoare_ret, entails_refl].
      eapply hoare_weaken; [apply hoare_record|exact Hmono|intros; apply entails_refl|apply entails_refl]. }
  eapply hoare_bind; [apply (hoare_frame (At rid seq)); [apply breach_frame|apply At_Base]|].
  intros breach. destruct breach; [by apply hoare_ret|].
  eapply hoare_bind with (Q := fun a => match a with Some undo => Applied rid seq op undo | None => At rid (seq + 1) end).
  - eapply hoare_try with (R' := At rid (seq + 1)); [|intros e|apply At_Base].
    + eapply hoare_bind; [by apply hoare_apply_one_op|]. intros undo. apply hoare_ret, entails_refl.
    + destruct e; try (apply hoare_raise, At_Base). apply hoare_ret, entails_refl.
  - intros [undo|].
    2:{ eapply hoare_bind; [apply hoare_record|]. intros []. apply hoare_ret, entails_refl. }
    eapply hoare_bind with (Q := fun _ => Applied rid seq op undo).
    { unfold _assert_no_chunk_id_mutation. destruct (dict_get _ _); [|apply hoare_ret, entails_refl].
      apply hoare_raise. intros d r g HA. by eapply At_Base, Applied_At. }
    intros []. eapply hoare_bind with (Q := fun _ => At rid (seq + 1)).
    { destruct _mirrors_in_transaction; [apply hoare_ret, Applied_At|apply hoare_mirror]. }
    intros d. eapply hoare_bind; [apply (hoare_frame (At rid (seq + 1))); [apply usage_frame|apply At_Base]|].
    intros []. eapply hoare_bind; [apply (hoare_frame (At rid (seq + 1))); [apply undo_frame|apply At_Base]|].
    intros []. apply hoare_ret, entails_refl.
Qed.

Lemma hoare_apply_loop rid started last seq ops rep :
  hoare (At rid (Z.max (last + 1) seq)) (apply_loop rid ns started last seq ops rep)
    (fun _ => Base) Base.
Proof.
  revert seq rep. induction ops as [|op ops IH]; intros seq rep; cbn [apply_loop]; [apply hoare_ret, At_Base|].
  destruct (cancelled seq); [apply hoare_ret, At_Base|]. destruct (Z.leb_spec seq last).
  - eapply hoare_weaken; [apply IH|apply At_mono; lia|intros; apply entails_refl|apply entails_refl].
  - rewrite Z.max_r by lia. eapply hoare_bind; [apply hoare_apply_op|]. intros rep'.
    eapply hoare_weaken; [apply IH|apply At_mono; lia|intros; apply entails_refl|apply entails_refl].
Qed.

Lemma hoare_read_last rid n :
  hoare (At rid n) (_read_last_committed rid) (fun last => At rid (last + 1)) Base.
Proof.
  unfold _read_last_committed. rewrite (rs_store _ RS).
  apply (hoare_transaction _ _ (fun last => At rid (last + 1))); [|apply At_Base|intros; apply At_Base].
  apply hoare_read. intros w [HB (row & Hrow & Hns & Hl)]. split; [done|]. exists row.
  unfold read_last_committed. rewrite Hrow. split_and!; [done..|lia].
Qed.

Lemma hoare_apply_phase rid n plan : plan_namespace_id plan = ns ->
  hoare (At rid n) (_apply_phase rid plan) (fun _ => Base) Base.
Proof.
  intros Hp. unfold _apply_phase. destruct apply_disabled; [apply hoare_raise, At_Base|].
  eapply hoare_bind with (Q := fun _ => At rid n); [by apply hoare_read|]. intros started. rewrite Hp.
  eapply hoare_bind; [apply hoare_read_last|]. intros last.
  eapply hoare_bind; [apply hoare_drain|]. intros ds.
  eapply hoare_bind with (Q := fun _ => At rid (last + 1)); [by apply hoare_modify|]. intros [].
  eapply hoare_bind with (Q := fun _ => Base); [|intros; apply hoare_ret, entails_refl].
  eapply hoare_weaken; [apply hoare_apply_loop|apply At_mono; lia|intros; apply entails_refl|apply entails_refl].
Qed.

(** The run is new, or resumes one of the namespace. *)
Definition admissible (rid : Z) (resume : bool) (runs : Runs) : Prop :=
  if resume then exists r, runs !! rid = Some r /\ run_namespace_id r = ns else runs !! rid = None.

Lemma hoare_init rid mode resume :
  hoare (fun d r g => Base d r g /\ admissible rid resume r) (_init_run_row rid ns mode resume)
    (fun _ d r g => exists n, At rid n d r g) Base.
Proof.
  unfold _init_run_row, admissible. destruct resume.
  - apply hoare_ret. intros d r g [HB (row & Hrow & Hns)]. exists (last_committed_op_seq row + 1).
    split; [done|]. exists row. split_and!; [done..|lia].
  - rewrite (rs_store _ RS). unfold when.
    eapply hoare_bind with (Q := fun _ d r g => Base d r g /\ r !! rid = None); [by apply hoare_read|]. intros t.
    apply hoare_sql.
    + intros d r g [HB Hr]. exists 0. by apply Base_record.
    + by intros d r g [? _].
    + intros [] d r g [n HA]. by eapply At_Base.
Qed.

Lemma hoare_finalize rid plan state error P :
  entails P Base -> hoare P (_finalize_run_row rid plan state error) (fun _ => Base) Base.
Proof.
  intros HP. unfold _finalize_run_row. rewrite (rs_store _ RS). unfold when.
  eapply hoare_bind with (Q := fun _ => Base); [by apply hoare_read; intros w ?%HP|]. intros t.
  apply hoare_sql; [intros d r g; apply Base_finalize|apply entails_refl|intros []; apply entails_refl].
Qed.

Lemma hoare_exists {A B} (P : A -> assertion) (m : D B) Q R :
  (forall a, hoare (P a) m Q R) -> hoare (fun d r g => exists a, P a d r g) m Q R.
Proof. intros H w [a Ha]. by apply (H a). Qed.

Lemma hoare_run rid mode resume planned :
  (forall plan, planned = Ok plan -> plan_namespace_id plan = ns) ->
  hoare (fun d r g => Base d r g /\ admissible rid resume r) (run rid ns mode resume planned) (fun _ => Base) Base.
Proof.
  intros Hplan. unfold run. destruct (negb _); [apply hoare_raise; by intros d r g [? _]|].
  eapply hoare_try with (R' := Base).
  - unfold run_body. eapply hoare_bind; [apply hoare_init|]. intros []. apply hoare_exists. intros n.
    eapply hoare_bind with (Q := fun plan d r g => At rid n d r g /\ planned = Ok plan).
    { apply hoare_lift; [by intros plan Hp d r g|apply At_Base]. }
    intros plan. apply hoare_pure. intros Hns%Hplan.
    eapply hoare_bind with (Q := fun _ => At rid n).
    { unfold _validate_no_forbidden_ops. destruct (existsb _ _); [apply hoare_raise, At_Base|apply hoare_ret, entails_refl]. }
    intros []. eapply hoare_bind with (Q := fun _ => At rid n).
    { unfold _persist_plan_hash. rewrite (rs_store _ RS). unfold when.
      eapply hoare_bind with (Q := fun _ => At rid n); [by apply hoare_read|]. intros t.
      apply hoare_sql; [intros d r g; apply At_plan|apply At_Base|intros []; apply At_Base]. }
    intros []. eapply hoare_bind with (Q := fun _ => Base).
    { destruct (String.eqb mode "dry-run"); [apply hoare_ret, At_Base|by eapply hoare_apply_phase]. }
    intros result. eapply hoare_bind; [apply hoare_finalize, entails_refl|]. intros []. apply hoare_ret, entails_refl.
  - intros e. assert (forall st er, hoare Base (_ ← _finalize_run_row rid None st er; raise (A := DreamResult) e) (fun _ => Base) Base) as Hf.
    { intros st er. eapply hoare_bind; [apply hoare_finalize, entails_refl|]. intros []. apply hoare_raise, entails_refl. }
    destruct e; apply Hf.
  - apply entails_refl.
Qed.
End safety.
