(* ===== verification/DreamClean.v ===== *)
(** Dream runs without failures: an undisturbed drain settles everything that is queued,
    and an undisturbed run of operations that the registry mirrors leaves the graph in
    agreement with the relational store. *)
From S2P Require Import Prelude PyValue FilterAst FilterPython ReplaceMirror RankFusion Scoring PyText.
From S2P Require Import DreamMirror DreamMirrorFacts DreamMergeFacts DreamRunStore DreamRun DreamHandlers DreamRunFacts.

Local Open Scope string_scope.
Local Open Scope list_scope.
Local Open Scope Z_scope.

(** ** Undisturbed runs *)

(** With nothing failing, [m] returns from [P], in [Q]. *)
Definition total {A} (P : assertion) (m : D A) (Q : A -> assertion) : Prop :=
  forall w, w_faults w = [] -> holds P w ->
    exists a w', m w = (Done a, w') /\ w_faults w' = [] /\ holds (Q a) w'.

Section total_logic.
Context {A B : Type}.

Lemma total_ret P (a : A) (Q : A -> assertion) : entails P (Q a) -> total P (mret a) Q.
Proof. intros H w Hf Hp. exists a, w. split_and!; [done..|by apply H]. Qed.

Lemma total_bind P (m : D A) (k : A -> D B) Q Q' :
  total P m Q -> (forall a, total (Q a) (k a) Q') -> total P (m ≫= k) Q'.
Proof.
  intros Hm Hk w Hf Hp. destruct (Hm w Hf Hp) as (a & w1 & E1 & Hf1 & Hq).
  destruct (Hk a w1 Hf1 Hq) as (b & w2 & E2 & Hf2 & Hq'). exists b, w2. split_and!; [|done..].
  unfold mbind, D_bind. by rewrite E1.
Qed.

Lemma total_weaken P P' (m : D A) Q Q' :
  total P m Q -> entails P' P -> (forall a, entails (Q a) (Q' a)) -> total P' m Q'.
Proof.
  intros Hm HP HQ w Hf Hp. destruct (Hm w Hf (HP _ _ _ Hp)) as (a & w' & E & Hf' & Hq).
  exists a, w'. split_and!; [done..|by apply HQ].
Qed.

Lemma total_pure P (phi : Prop) (m : D A) Q :
  (phi -> total P m Q) -> total (fun d r g => P d r g /\ phi) m Q.
Proof. intros H w Hf [Hp Hphi]. by apply H. Qed.

Lemma total_exists {C} (P : C -> assertion) (m : D A) Q :
  (forall c, total (P c) m Q) -> total (fun d r g => exists c, P c d r g) m Q.
Proof. intros H w Hf [c Hc]. by apply (H c). Qed.

Lemma total_read P (f : World -> A) (Q : A -> assertion) :
  (forall w, holds P w -> holds (Q (f w)) w) -> total P (read f) Q.
Proof. intros H w Hf Hp. exists (f w), w. split_and!; [done..|by apply H]. Qed.

Lemma total_lift P (a : A) (Q : A -> assertion) : entails P (Q a) -> total P (lift (Ok a)) Q.
Proof. apply total_ret. Qed.

Lemma total_try P (m : D A) h Q : total P m Q -> total P (try m h) Q.
Proof.
  intros Hm w Hf Hp. destruct (Hm w Hf Hp) as (a & w' & E & H). exists a, w'. split; [|done].
  unfold try. by rewrite E.
Qed.

Lemma total_transaction P (body : D A) Q : total P body Q -> total P (transaction body) Q.
Proof.
  intros Hb w Hf Hp. destruct (Hb w Hf Hp) as (a & w' & E & Hf' & Hq).
  exists a, (stepped w'). split_and!; [|by cbn; rewrite Hf'|done]. unfold transaction. by rewrite E, Hf.
Qed.

(** Steps that leave the stores and the schedule alone. *)
Lemma total_frame P (m : D A) :
  (forall w, w_faults w = [] -> exists a w', m w = (Done a, w') /\ w_faults w' = [] /\
     w_db w' = w_db w /\ w_runs w' = w_runs w /\ w_graph w' = w_graph w) ->
  total P m (fun _ => P).
Proof.
  intros Hm w Hf Hp. destruct (Hm w Hf) as (a & w' & E & Hf' & H1 & H2 & H3). exists a, w'.
  unfold holds in *. by rewrite H1, H2, H3.
Qed.
End total_logic.

Lemma total_modify P (f : World -> World) (Q : () -> assertion) :
  (forall w, w_faults (f w) = w_faults w) -> (forall w, holds P w -> holds (Q ()) (f w)) -> total P (modify f) Q.
Proof. intros H1 H2 w Hf Hp. exists (), (f w). split_and!; [done|by rewrite H1|by apply H2]. Qed.

Lemma total_sql P f Q : (forall d r g, P d r g -> Q () d (f r) g) -> total P (sql f) Q.
Proof. intros H. apply total_transaction, total_modify; [done|]. intros w. apply H. Qed.

Lemma total_graph_calls P fs Q :
  (forall d r g, P d r g -> Q () d r (run_calls fs g)) -> total P (graph_calls fs) Q.
Proof.
  revert P. induction fs as [|f fs IH]; intros P HQ; cbn [graph_calls].
  { apply total_ret. intros d r g. apply HQ. }
  eapply total_bind with (Q := fun _ d r g => exists g0, P d r g0 /\ g = f g0).
  - apply total_transaction, total_modify; [done|]. intros w Hp. by exists (w_graph w).
  - intros []. apply IH. intros d r g (g0 & Hp & ->). by apply HQ.
Qed.

Lemma total_hoare {A} P (m : D A) Q Q' R :
  total P m Q -> hoare P m Q' R -> total P m (fun a d r g => Q a d r g /\ Q' a d r g).
Proof.
  intros Ht Hh w Hf Hp. destruct (Ht w Hf Hp) as (a & w' & E & Hf' & Hq). specialize (Hh w Hp). rewrite E in Hh.
  exists a, w'. by split_and!.
Qed.

(** *** The drain settles *)

Definition clear_all (l : list (Z * GraphMirrorPending)) (runs : Runs) : Runs :=
  foldl (fun runs rp => clear_graph_mirror_pending rp.1 (op_seq rp.2) runs) runs l.

Lemma lookup_clear_all l runs rid r' :
  clear_all l runs !! rid = Some r' ->
  exists r, runs !! rid = Some r /\ run_namespace_id r' = run_namespace_id r /\
    forall p, p ∈ graph_mirror_pending r' -> p ∈ graph_mirror_pending r /\ forall q, (rid, q) ∈ l -> op_seq q <> op_seq p.
Proof.
  revert runs. induction l as [|[rid0 q0] l IH]; intros runs; cbn [clear_all foldl].
  - intros H. exists r'. split_and!; [done..|]. intros p Hp. split; [done|]. by intros q ?%not_elem_of_nil.
  - intros (r1 & Hr1 & Hn1 & Hp1)%IH. apply lookup_row in Hr1 as (r & Hr & ->). exists r. split; [done|]. split.
    { rewrite Hn1. by destruct (decide _). }
    intros p Hp. destruct (Hp1 p Hp) as [Hin Hq]. destruct (decide (rid = rid0)) as [->|Hne].
    + rewrite decide_True in Hin by done. cbn in Hin. rewrite (get_pending _ _ _ Hr) in Hin.
      apply elem_of_without_seq in Hin as [Hin Hs]. split; [done|].
      intros q [[= <-]|Hq']%elem_of_cons; [by apply not_eq_sym|by apply Hq].
    + rewrite decide_False in Hin by done. split; [done|]. intros q [[= -> _]|Hq']%elem_of_cons; [done|by apply Hq].
Qed.

(** Programs that do not write the relational store. *)
Definition keeps_db {A} (m : D A) : Prop := forall w, w_db (m w).2 = w_db w.

Lemma keeps_db_bind {A B} (m : D A) (k : A -> D B) : keeps_db m -> (forall a, keeps_db (k a)) -> keeps_db (m ≫= k).
Proof.
  intros Hm Hk w. specialize (Hm w). unfold mbind, D_bind. destruct (m w) as [[a|e|] w']; cbn in *; [|done..].
  by rewrite Hk.
Qed.

Lemma keeps_db_transaction {A} (m : D A) : keeps_db m -> keeps_db (transaction m).
Proof.
  intros Hm w. specialize (Hm w). unfold transaction. destruct (m w) as [[a|e|] w']; [|done..].
  by destruct (w_faults w) as [|[] fs].
Qed.

Lemma keeps_db_try {A} (m : D A) h : keeps_db m -> (forall e, keeps_db (h e)) -> keeps_db (try m h).
Proof.
  intros Hm Hh w. specialize (Hm w). unfold try. destruct (m w) as [[a|e|] w']; [done| |done]. cbn in *. by rewrite Hh.
Qed.

Lemma keeps_db_ret {A} (a : A) : keeps_db (mret a).
Proof. done. Qed.

Lemma keeps_db_calls fs : keeps_db (graph_calls fs).
Proof.
  induction fs as [|f fs IH]; cbn [graph_calls]; [apply keeps_db_ret|].
  apply keeps_db_bind; [by apply keeps_db_transaction|]. intros []. exact IH.
Qed.

Lemma keeps_db_drain {E : Env} ns : keeps_db (_drain_graph_mirror_pending ns).
Proof.
  assert (forall t l, keeps_db (drain_entries ns t l)) as H.
  { intros t l. induction l as [|[rid p] l IH]; cbn [drain_entries]; [apply keeps_db_ret|].
    apply keeps_db_bind.
    - apply keeps_db_try; [|intros e; apply keeps_db_ret]. apply keeps_db_bind; [by apply keeps_db_transaction|].
      intros row. apply keeps_db_bind; [unfold lift; by destruct (apply_mirror_payload _ _ _ _ _ _ _)|].
      intros calls. apply keeps_db_bind; [apply keeps_db_calls|]. intros []. apply keeps_db_ret.
    - intros [e|]; (apply keeps_db_bind; [|intros; try apply keeps_db_ret]); [exact IH|by apply keeps_db_transaction|exact IH]. }
  unfold _drain_graph_mirror_pending. destruct graph; [|apply keeps_db_ret]. destruct (negb _); [apply keeps_db_ret|].
  apply keeps_db_bind.
  - apply keeps_db_try; [|intros e; apply keeps_db_ret]. by apply keeps_db_bind; [apply keeps_db_transaction|].
  - intros [l|e]; [|apply keeps_db_ret]. by apply keeps_db_bind.
Qed.

Section settle.
Context {E : Env} (gb : GraphBackend) (RS : RemoteStack gb) (ns : Z).

Lemma total_resolve P : total P (_resolve_namespace_for_mirror ns) (fun row d r g => P d r g /\ row = row_namespace ns).
Proof. apply total_transaction, total_ret. by intros d r g. Qed.

Lemma readable_payload p row at_ : entry_readable p ->
  exists calls, apply_mirror_payload parse_uuid str_other fromisoformat int_of_str (p_payload p) row at_ = Ok calls.
Proof.
  intros [[t Ht] [cs Hcs]]. unfold apply_mirror_payload, entry_targets in *. rewrite Ht, Hcs. by eexists.
Qed.

Lemma total_drain_entries at_ l runs0 :
  (forall rid p, (rid, p) ∈ l -> entry_readable p) ->
  total (fun d r g => r = runs0) (drain_entries ns at_ l) (fun ds d r g => ds = [] /\ r = clear_all l runs0).
Proof.
  revert runs0. induction l as [|[rid p] l IH]; intros runs0 Hl; cbn [drain_entries].
  { apply total_ret. by intros d r g. }
  eapply total_bind with (Q := fun failed d r g => r = runs0 /\ failed = None).
  - apply total_try. eapply total_bind; [apply total_resolve|]. intros row. apply total_pure. intros ->.
    destruct (readable_payload p (row_namespace ns) at_ (Hl rid p ltac:(left))) as [calls ->].
    eapply total_bind with (Q := fun calls' d r g => r = runs0); [apply total_ret; by intros d r g|]. intros calls'.
    eapply total_bind with (Q := fun _ d r g => r = runs0); [by apply total_graph_calls|]. intros [].
    apply total_ret. by intros d r g.
  - intros failed. apply total_pure. intros ->.
    eapply total_bind with (Q := fun _ d r g => r = clear_graph_mirror_pending rid (op_seq p) runs0).
    { apply total_sql. by intros d r g ->. }
    intros []. apply IH. intros rid' q Hq. apply (Hl rid'). by right.
Qed.

(** Nothing is owed to the graph for the namespace. *)
Definition nothing_owed (runs : Runs) : Prop :=
  forall rid r, runs !! rid = Some r -> run_namespace_id r = ns -> graph_mirror_pending r = [].

Lemma total_drain :
  total (fun d r g => tidy r) (_drain_graph_mirror_pending ns) (fun ds d r g => ds = [] /\ nothing_owed r).
Proof.
  unfold _drain_graph_mirror_pending. rewrite (rs_graph _ RS), (rs_store _ RS). cbn [negb].
  intros w Hf HT. revert w Hf HT.
  change (total (fun d r g => tidy r)
    (pending ← try (p ← transaction (read (fun w => get_open_graph_mirror_pending run_order ns (w_runs w))); mret (inl p))
                   (fun e => mret (inr e));
     match pending with
     | inl l => t ← read now_at; drain_entries ns t l
     | inr e => mret [MkDegradation "dream.graph_mirror.reconcile" "graph_mirror_pending_read_failed" None (Some e)]
     end) (fun ds d r g => ds = [] /\ nothing_owed r)).
  eapply total_bind with (Q := fun x d r g => exists runs0,
    (r = runs0 /\ tidy runs0) /\ x = inl (get_open_graph_mirror_pending run_order ns runs0)).
  - apply total_try. eapply total_bind with (Q := fun l d r g => exists runs0,
      (r = runs0 /\ tidy runs0) /\ l = get_open_graph_mirror_pending run_order ns runs0).
    + apply total_transaction, total_read. intros w HT. by exists (w_runs w).
    + intros l. apply total_ret. intros d r g (runs0 & H & ->). by exists runs0.
  - intros x. apply total_exists. intros runs0. apply total_pure. intros ->. apply total_pure. intros HT.
    eapply total_bind with (Q := fun _ d r g => r = runs0); [by apply total_read|]. intros t.
    eapply total_weaken; [apply (total_drain_entries t _ runs0)|apply entails_refl|].
    + intros rid p (r & Hr & _ & Hp)%elem_of_open; [|apply RS]. by apply (proj2 (HT rid r Hr)).
    + intros ds d r g [-> ->]. split; [done|]. intros rid r' Hr' Hn.
      destruct (lookup_clear_all _ _ _ _ Hr') as (r & Hr & Hn' & Hp).
      destruct (graph_mirror_pending r') as [|p l]; [done|]. destruct (Hp p ltac:(left)) as [Hin Hno]. exfalso.
      apply (Hno p); [|done]. apply elem_of_open; [apply RS|]. exists r. split_and!; [done|congruence|done].
Qed.

Lemma nothing_owed_owes sel runs i : nothing_owed runs -> ~ owes ns sel runs i.
Proof. intros H (rid & r & p & t & Hr & Hn & Hp & _). rewrite (H rid r Hr Hn) in Hp. by apply not_elem_of_nil in Hp. Qed.
End settle.

(** ** An undisturbed run keeps the stores in agreement *)

Section clean.
Context {E : Env} (gb : GraphBackend) (RS : RemoteStack gb) (ns : Z).
Context (Hdisabled : apply_disabled = false) (Hcancel : forall k, cancelled k = false).

Local Abbreviation row := (row_namespace ns).
Local Abbreviation targets_of := (extract_mirror_targets parse_uuid str_other set_iter).

(** An operation the registry mirrors faithfully on this graph. *)
Definition agreeable (g : Graph) (op : DreamOp) : Prop :=
  (op_type op = PRUNE_EDGES \/ op_type op = DEDUPE_ENTITIES) /\
  exists h applicable, handlers (op_type op) = Some h /\ Mirrored (op_type op) h applicable /\ applicable row op g.

Lemma agreeable_present g g' op : (forall i, present row g i = present row g' i) -> agreeable g op -> agreeable g' op.
Proof.
  intros Hp (Hk & h & app & Hh & HM & Ha). split; [done|]. exists h, app. split_and!; [done..|].
  by eapply (@applicable_present _ _ _ _ HM).
Qed.

(** Steps outside the stores do not fail the run. *)
Lemma usage_clean op w : w_faults w = [] ->
  exists a w', _drain_llm_usage op ns w = (Done a, w') /\ w_faults w' = [] /\
    w_db w' = w_db w /\ w_runs w' = w_runs w /\ w_graph w' = w_graph w.
Proof.
  intros Hf. unfold _drain_llm_usage, _get_namespace_day_budget, mbind, D_bind, modify.
  destruct (_ =? 0); [by exists (), w|]. cbn.
  destruct (w_day w !! ns) as [[used started]|]; [destruct (_ <=? _)|]; by eexists (), _.
Qed.

Lemma undo_clean rid started records w : w_faults w = [] ->
  exists a w', write_undo_incremental rid started records w = (Done a, w') /\ w_faults w' = [] /\
    w_db w' = w_db w /\ w_runs w' = w_runs w /\ w_graph w' = w_graph w.
Proof.
  intros Hf. unfold write_undo_incremental, when, try, transaction, modify.
  destruct file_sink; [|by exists (), w]. cbn. rewrite Hf. eexists (), _. split_and!; [done|by cbn; rewrite Hf|done..].
Qed.

(** What [rid] owes for operation [seq], and nothing else. *)
Definition owes_only (rid seq : Z) (runs : Runs) : Prop :=
  forall rid' r p, runs !! rid' = Some r -> run_namespace_id r = ns -> p ∈ graph_mirror_pending r ->
    rid' = rid /\ op_seq p = seq.

Lemma owes_only_clear rid seq runs : owes_only rid seq runs -> nothing_owed ns (clear_graph_mirror_pending rid seq runs).
Proof.
  intros Ho rid' r' (r & Hr & ->)%lookup_row Hn. destruct (decide (rid' = rid)) as [->|Hne].
  - cbn in *. rewrite (get_pending _ _ _ Hr). destruct (without_seq _ _) as [|p l] eqn:Hw; [done|]. exfalso.
    assert (p ∈ without_seq seq (graph_mirror_pending r)) as [Hp Hs]%elem_of_without_seq by (rewrite Hw; left).
    by destruct (Ho rid r p Hr Hn Hp).
  - destruct (graph_mirror_pending r) as [|p l] eqn:Hp; [done|]. exfalso.
    by destruct (Ho rid' r p Hr Hn ltac:(rewrite Hp; left)).
Qed.

Lemma nothing_owed_keeps f rid runs : keeps_entries f -> nothing_owed ns runs -> nothing_owed ns (alter f rid runs).
Proof.
  intros Hf Ho rid' r' (r & Hr & ->)%lookup_row. destruct (decide (rid' = rid)); [|by eapply Ho].
  destruct (Hf r) as [-> ->]. by eapply Ho.
Qed.

Lemma owes_only_mark rid entry runs :
  nothing_owed ns runs -> owes_only rid (op_seq entry) (mark_graph_mirror_pending rid entry runs).
Proof.
  intros Ho rid' r' p (r & Hr & ->)%lookup_row Hn Hp. destruct (decide (rid' = rid)) as [->|Hne].
  - split; [done|]. cbn in *. rewrite (get_pending _ _ _ Hr), (Ho rid r Hr Hn) in Hp.
    apply elem_of_merge_pending in Hp as [->|[?%not_elem_of_nil _]]; done.
  - rewrite (Ho rid' r Hr Hn) in Hp. by apply not_elem_of_nil in Hp.
Qed.

(** The graph and the store agree, nothing is owed, and the operations to come suit them. *)
Definition Clean (ops : list DreamOp) : assertion := fun d r g =>
  agree row d g /\ nothing_owed ns r /\ Forall (agreeable g) ops.

(** Committed, not mirrored: the mirror will restore agreement. *)
Definition Committed (rid seq : Z) (op : DreamOp) (ops : list DreamOp) (undo : UndoRecord) : assertion := fun d r g =>
  exists t, targets_of (op_type op) (u_before undo) = Ok t /\ well_formed t [] /\
    dict_get "chunk_id" (u_before undo) = None /\
    agree row d (run_calls (apply_mirror_targets t row (u_applied_at undo) []) g) /\
    owes_only rid seq r /\ (is_nil (retire_entity_ids t) && is_nil (invalidate_relationship_ids t) = true -> nothing_owed ns r) /\
    Forall (agreeable g) ops.

Lemma plain_kind op : op_type op = PRUNE_EDGES \/ op_type op = DEDUPE_ENTITIES ->
  mem_str (op_type op) MIRRORABLE_OP_KINDS = true /\ mem_str (op_type op) _LLM_OP_KINDS = false /\
  mem_str (op_type op) _POSTGRES_ONLY_OP_KINDS = false /\ mem_str (op_type op) _FORBIDDEN_OP_KINDS = false /\
  mem_str (op_type op) [COMMUNITY_SUMMARY] = false.
Proof. by intros [->| ->]. Qed.

Lemma no_communities op before : op_type op = PRUNE_EDGES \/ op_type op = DEDUPE_ENTITIES ->
  extract_community_targets parse_uuid str_other int_of_str (op_type op) before = Ok [].
Proof. by intros [->| ->]. Qed.

Lemma total_apply_one_op rid seq op ops h :
  handlers (op_type op) = Some h ->
  total (Clean (op :: ops)) (_apply_one_op rid seq ns op h) (fun undo => Committed rid seq op ops undo).
Proof.
  intros Hh. apply total_transaction. intros w Hf (HA & Ho & Hops). apply Forall_cons in Hops as [Hop Hops].
  destruct Hop as (Hk & h' & app & Hh' & HM & Happ). assert (h' = h) as -> by congruence.
  destruct (plain_kind op Hk) as (Hm & _ & Hpg & _).
  destruct (@mirrored _ _ _ _ HM row op (now_at w) (w_db w) (w_graph w) (now_at w) eq_refl Happ HA)
    as (undo & d' & t & Hrun & Ht & W & Hat & Hch & HA').
  set (r1 := advance_checkpoint rid seq (now_at w) (w_runs w)).
  assert (Ho1 : nothing_owed ns r1) by by apply nothing_owed_keeps.
  assert (Hnext : forall r g, owes_only rid seq r ->
    (is_nil (retire_entity_ids t) && is_nil (invalidate_relationship_ids t) = true -> nothing_owed ns r) ->
    g = w_graph w -> Committed rid seq op ops undo d' r g).
  { intros r g H1 H2 ->. exists t. rewrite Hat. by split_and!. }
  assert (Hbody : forall k : UndoRecord -> D UndoRecord,
    (_ ← _assert_backend_supported (op_type op); undo ← _invoke_handler h op; k undo) w = k undo (with_db d' w)).
  { intros k. unfold _assert_backend_supported, mbind, D_bind. rewrite Hpg. cbn [negb mret D_ret].
    by rewrite invoke_handler, Hrun. }
  rewrite Hbody. clear Hbody. unfold _record_committed_in_session, _mirror_dream_op_in_tx, mbind, D_bind.
  rewrite (rs_store _ RS), (rs_graph _ RS), (rs_remote _ RS). cbn [when negb modify mret D_ret].
  rewrite (pre_mark gb RS), Ht. unfold mirrors_kind. rewrite (rs_kinds _ RS _ Hm), Hm. cbn [andb].
  destruct (is_nil _ && is_nil _) eqn:Hnil.
  - eexists undo, _. split_and!; [done|done|]. apply Hnext; [|done..].
    intros rid' r p Hr Hn Hp. rewrite (Ho1 rid' r Hr Hn) in Hp. by apply not_elem_of_nil in Hp.
  - destruct (mirror_payload_codec _ _ _ _ _ int_of_str set_iter (rs_texts _ RS) op undo t [] (now_at w) Ht
      (no_communities op _ Hk)) as (p & -> & _). eexists undo, _. split_and!; [done|done|].
    apply Hnext; [|done..]. apply (owes_only_mark rid (pending_entry seq op p)). exact Ho1.
Qed.

Lemma total_mirror rid seq op ops undo :
  op_type op = PRUNE_EDGES \/ op_type op = DEDUPE_ENTITIES ->
  total (Committed rid seq op ops undo) (_mirror_dream_op rid seq ns op undo)
    (fun d d' r g => d = None /\ Clean ops d' r g).
Proof.
  intros Hk w Hf (t & Ht & W & _ & HA & Ho & Hnil & Hops). destruct (plain_kind op Hk) as (Hm & _).
  unfold _mirror_dream_op. rewrite (rs_graph _ RS), (rs_apart _ RS). unfold mirrors_kind.
  rewrite (rs_kinds _ RS _ Hm), Hm. cbn [negb andb]. unfold lift. rewrite Ht.
  rewrite (no_communities op _ Hk). unfold mbind at 1 2, D_bind at 1 2. cbn [mret D_ret].
  destruct (no_targets t []) eqn:Hnone.
  - exists None, w. split_and!; [done..|]. split; [done|]. unfold no_targets in Hnone. 
    apply andb_true_iff in Hnone as [[Hret Hrw%is_nil_true]%andb_true_iff _]. split_and!; [|by apply Hnil|done].
    apply andb_true_iff in Hret as [H1%is_nil_true H2%is_nil_true]. destruct t; cbn in *; subst. exact HA.
  - set (calls := apply_mirror_targets t row (u_applied_at undo) []) in *.
    assert (Hclean : total (fun d r g => agree row d (run_calls calls g) /\ owes_only rid seq r /\ Forall (agreeable g) ops)
      (failed ← try (row' ← _resolve_namespace_for_mirror ns;
                     _ ← graph_calls (apply_mirror_targets t row' (u_applied_at undo) []); mret None) (fun e => mret (Some e));
       match failed with
       | Some e => _ ← _queue_graph_mirror_pending rid seq op undo;
           mret (Some (MkDegradation "dream.graph_mirror" "graph_mirror_failed_after_pg_commit" (op_ref op) (Some e)))
       | None => _ ← _clear_graph_mirror_pending rid seq; mret None
       end) (fun d d' r g => d = None /\ Clean ops d' r g)); [|by apply Hclean].
    eapply total_bind with (Q := fun failed d r g => (agree row d g /\ owes_only rid seq r /\ Forall (agreeable g) ops) /\ failed = None).
    + apply total_try. eapply total_bind; [apply total_resolve|]. intros row'. apply total_pure. intros ->.
      eapply total_bind with (Q := fun _ d r g => agree row d g /\ owes_only rid seq r /\ Forall (agreeable g) ops).
      * apply total_graph_calls. intros d r g (H1 & H2 & H3). split_and!; [done..|].
        eapply Forall_impl; [exact H3|]. intros op'. apply agreeable_present. intros i. symmetry. by apply present_mirror.
      * intros []. apply total_ret. by intros d r g.
    + intros failed. apply total_pure. intros ->.
      eapply total_bind with (Q := fun _ => Clean ops); [|intros []; apply total_ret; by intros d r g].
      unfold _clear_graph_mirror_pending. rewrite (rs_store _ RS). apply total_sql.
      intros d r g (H1 & H2 & H3). split_and!; [done|by apply owes_only_clear|done].
Qed.

Lemma total_apply_op rid started seq op ops rep :
  total (Clean (op :: ops)) (apply_op rid ns started seq op rep)
    (fun rep' d r g => mirror_degradations rep' = mirror_degradations rep /\ Clean ops d r g).
Proof.
  intros w Hf HC. pose proof HC as (_ & _ & Hops). apply Forall_cons in Hops as [Hop _].
  destruct Hop as (Hk & h & app & Hh & _). destruct (plain_kind op Hk) as (_ & Hllm & _ & Hforb & _).
  unfold apply_op, get_apply_handler. rewrite Hforb, Hh. revert w Hf HC.
  eapply (total_bind (Clean (op :: ops)) _ _ (fun x d r g => Clean (op :: ops) d r g /\ x = Some h));
    [apply total_ret; by intros d r g|]. intros x. apply total_pure. intros ->.
  eapply total_bind with (Q := fun b d r g => Clean (op :: ops) d r g /\ b = false).
  { unfold _llm_budget_breach. rewrite Hllm. apply total_ret. by intros d r g. }
  intros b. apply total_pure. intros ->.
  eapply total_bind with (Q := fun x d r g => exists undo, Committed rid seq op ops undo d r g /\ x = Some undo).
  { apply total_try. eapply total_bind; [by apply total_apply_one_op|]. intros undo. apply total_ret.
    intros d r g HC. by exists undo. }
  intros x. apply total_exists. intros undo. apply total_pure. intros ->.
  eapply total_bind with (Q := fun _ => Committed rid seq op ops undo).
  { intros w Hf HC. pose proof HC as (t & _ & _ & Hch & _). unfold _assert_no_chunk_id_mutation. rewrite Hch.
    by exists (), w. }
  intros []. eapply total_bind with (Q := fun x d r g => Clean ops d r g /\ x = None).
  { unfold _mirrors_in_transaction. rewrite (rs_graph _ RS), (rs_remote _ RS).
    eapply total_weaken; [by apply total_mirror|apply entails_refl|]. by intros a d r g [-> ?]. }
  intros dg. apply total_pure. intros ->.
  eapply total_bind; [apply (total_frame (Clean ops)), usage_clean|]. intros [].
  eapply total_bind; [apply (total_frame (Clean ops)), undo_clean|]. intros [].
  apply total_ret. intros d r g HC. split; [|done]. cbn. by rewrite app_nil_r.
Qed.

Lemma total_apply_loop rid started seq ops rep : 0 <= seq ->
  total (Clean ops) (apply_loop rid ns started (-1) seq ops rep)
    (fun rep' d r g => mirror_degradations rep' = mirror_degradations rep /\ Clean [] d r g).
Proof.
  revert seq rep. induction ops as [|op ops IH]; intros seq rep Hs; cbn [apply_loop].
  { apply total_ret. by intros d r g. }
  rewrite Hcancel. destruct (Z.leb_spec seq (-1)); [lia|].
  eapply total_bind with (Q := fun rep' d r g => Clean ops d r g /\ mirror_degradations rep' = mirror_degradations rep).
  { eapply total_weaken; [apply total_apply_op|apply entails_refl|]. by intros rep' d r g [? ?]. }
  intros rep'. apply total_pure. intros Hrep. eapply total_weaken; [apply IH; lia|apply entails_refl|].
  intros rep2 d r g [H1 H2]. split; [congruence|done].
Qed.

Lemma open_nothing runs : nothing_owed ns runs -> get_open_graph_mirror_pending run_order ns runs = [].
Proof.
  intros Ho. destruct (get_open_graph_mirror_pending run_order ns runs) as [|[rid p] l] eqn:Hl; [done|]. exfalso.
  assert ((rid, p) ∈ get_open_graph_mirror_pending run_order ns runs) as Hin by (rewrite Hl; left).
  apply elem_of_open in Hin as (r & Hr & Hn & Hp); [|apply RS]. rewrite (Ho rid r Hr Hn) in Hp. by apply not_elem_of_nil in Hp.
Qed.

Definition fresh_checkpoint (rid : Z) (runs : Runs) : Prop := read_last_committed rid runs = -1.

Lemma total_clean_drain P : (forall d r g, P d r g -> nothing_owed ns r) ->
  total P (_drain_graph_mirror_pending ns) (fun ds d r g => P d r g /\ ds = []).
Proof.
  intros HP. unfold _drain_graph_mirror_pending. rewrite (rs_graph _ RS), (rs_store _ RS). cbn [negb].
  eapply total_bind with (Q := fun x d r g => P d r g /\ x = inl []).
  - apply total_try. eapply total_bind with (Q := fun l d r g => P d r g /\ l = []).
    + apply total_transaction, total_read. intros w Hp. split; [done|]. apply open_nothing. by eapply HP.
    + intros l. apply total_ret. by intros d r g [? ->].
  - intros x. apply total_pure. intros ->. eapply total_bind with (Q := fun _ => P); [by apply total_read|].
    intros t. apply total_ret. by intros d r g.
Qed.

Lemma total_apply_phase rid plan :
  plan_namespace_id plan = ns ->
  total (fun d r g => Clean (plan_ops plan) d r g /\ fresh_checkpoint rid r) (_apply_phase rid plan)
    (fun res d r g => Clean [] d r g /\ res_degradations res = []).
Proof.
  intros Hns. unfold _apply_phase. rewrite Hdisabled, Hns.
  set (P := fun d r g => Clean (plan_ops plan) d r g /\ fresh_checkpoint rid r).
  eapply total_bind with (Q := fun _ => P); [by apply total_read|]. intros started.
  eapply total_bind with (Q := fun last d r g => P d r g /\ last = -1).
  { unfold _read_last_committed. rewrite (rs_store _ RS). apply total_transaction, total_read. intros w Hp. split; [done|apply Hp]. }
  intros last. apply total_pure. intros ->.
  eapply total_bind; [apply (total_clean_drain P); by intros d r g [(_ & ? & _) _]|].
  intros ds. apply total_pure. intros ->. eapply total_bind with (Q := fun _ => P); [by apply total_modify|]. intros [].
  eapply total_bind with (Q := fun rep d r g => mirror_degradations rep = [] /\ Clean [] d r g).
  - eapply total_weaken; [by apply (total_apply_loop rid started 0 (plan_ops plan))| |by intros rep d r g].
    by intros d r g [? _].
  - intros rep. apply total_ret. intros d r g [H1 H2]. by split.
Qed.

Lemma Clean_runs ops d r r' g : (nothing_owed ns r -> nothing_owed ns r') -> Clean ops d r g -> Clean ops d r' g.
Proof. intros H (H1 & H2 & H3). by split_and!; auto. Qed.

Lemma total_init rid mode ops :
  total (fun d r g => Clean ops d r g /\ r !! rid = None) (_init_run_row rid ns mode false)
    (fun _ d r g => Clean ops d r g /\ fresh_checkpoint rid r).
Proof.
  unfold _init_run_row. rewrite (rs_store _ RS). unfold when.
  eapply total_bind with (Q := fun _ d r g => Clean ops d r g /\ r !! rid = None); [by apply total_read|].
  intros t. apply total_sql. intros d r g [HC Hr]. unfold record_run. rewrite Hr. split.
  - eapply Clean_runs; [|exact HC]. intros Ho rid' row' Hrow Hn. apply lookup_insert_Some in Hrow as [[<- <-]|[_ Hrow]];
      [done|by eapply Ho].
  - unfold fresh_checkpoint, read_last_committed. by rewrite lookup_insert_eq.
Qed.

Lemma plain_plan ops g : Forall (agreeable g) ops ->
  existsb (fun op => mem_str (op_type op) _FORBIDDEN_OP_KINDS) ops = false.
Proof.
  induction 1 as [|op ops [Hk _] Hops IH]; [done|]. cbn [existsb]. destruct (plain_kind op Hk) as (_ & _ & _ & -> & _). done.
Qed.

Lemma total_run rid plan :
  plan_namespace_id plan = ns ->
  total (fun d r g => Clean (plan_ops plan) d r g /\ r !! rid = None) (run rid ns "apply" false (Ok plan))
    (fun res d r g => (agree row d g /\ nothing_owed ns r) /\ res_degradations res = []).
Proof.
  intros Hns. unfold run. cbn [mem_str existsb String.eqb Ascii.eqb Bool.eqb negb orb]. apply total_try.
  unfold run_body. eapply total_bind; [apply total_init|]. intros [].
  set (P := fun d r g => Clean (plan_ops plan) d r g /\ fresh_checkpoint rid r).
  eapply total_bind with (Q := fun plan' d r g => P d r g /\ plan' = plan); [apply total_lift; by intros d r g|].
  intros plan'. apply total_pure. intros ->.
  eapply total_bind with (Q := fun _ => P).
  { intros w Hf Hp. pose proof Hp as [(_ & _ & Hops) _]. unfold _validate_no_forbidden_ops.
    rewrite (plain_plan _ _ Hops). by exists (), w. }
  intros []. eapply total_bind with (Q := fun _ => P).
  { unfold _persist_plan_hash. rewrite (rs_store _ RS). unfold when.
    eapply total_bind with (Q := fun _ => P); [by apply total_read|]. intros t. apply total_sql.
    intros d r g [HC Hl]. split.
    - eapply Clean_runs; [|exact HC]. by apply nothing_owed_keeps.
    - unfold fresh_checkpoint, read_last_committed, persist_plan in *. rewrite lookup_alter_eq.
      by destruct (r !! rid). }
  intros []. eapply total_bind; [by apply (total_apply_phase rid plan)|]. intros res. apply total_pure. intros Hres.
  eapply total_bind with (Q := fun _ => Clean []).
  { unfold _finalize_run_row. rewrite (rs_store _ RS). unfold when.
    eapply total_bind with (Q := fun _ => Clean []); [by apply total_read|]. intros t. apply total_sql.
    intros d r g HC. eapply Clean_runs; [|exact HC]. by apply nothing_owed_keeps. }
  intros []. apply total_ret. by intros d r g (H1 & H2 & _).
Qed.
End clean.
