(* ===== verification/DreamResume.v ===== *)
(** Interrupted dream runs: however often a run is interrupted and resumed with the same
    plan, the relational store is what the first so many operations of the plan make of it,
    each applied once and in order. *)
From S2P Require Import Prelude PyValue FilterAst FilterPython ReplaceMirror RankFusion Scoring PyText.
From S2P Require Import DreamMirror DreamRunStore DreamRun DreamHandlers DreamRunFacts.

Local Open Scope string_scope.
Local Open Scope list_scope.
Local Open Scope Z_scope.

(** ** An exception that cannot happen *)

Definition avoids {A} (e : exn) (m : D A) : Prop := forall w, (m w).1 <> Raised e.

Lemma avoids_bind {A B} e (m : D A) (k : A -> D B) : avoids e m -> (forall a, avoids e (k a)) -> avoids e (m ≫= k).
Proof.
  intros Hm Hk w. specialize (Hm w). unfold mbind, D_bind. destruct (m w) as [[a|e'|] w']; cbn in *;
    [apply Hk|congruence|done].
Qed.

Lemma avoids_transaction {A} e (m : D A) : avoids e m -> e <> StoreError -> avoids e (transaction m).
Proof.
  intros Hm He w. specialize (Hm w). unfold transaction. destruct (m w) as [[a|e'|] w']; cbn in *; [|congruence|done].
  destruct (w_faults w) as [|[] fs]; cbn; congruence.
Qed.

Lemma avoids_lift {A} e (r : result A) : (forall p, e <> Python p) -> avoids e (lift r).
Proof. intros He w. destruct r; cbn; [done|]. intros [= E]. by apply (He e0). Qed.

Lemma avoids_ret {A} e (a : A) : avoids e (mret a).
Proof. by intros w. Qed.

Lemma avoids_modify e f : avoids e (modify f).
Proof. by intros w. Qed.

Lemma avoids_read {A} e (f : World -> A) : avoids e (read f).
Proof. by intros w. Qed.

#[local] Hint Resolve avoids_ret avoids_modify avoids_read : khora.

Lemma hoare_try_avoiding {A} e0 P (m : D A) h Q R R' :
  avoids e0 m -> hoare P m Q R' -> (forall e, e <> e0 -> hoare R' (h e) Q R) -> entails R' R -> hoare P (try m h) Q R.
Proof.
  intros Ha Hm Hh HR w Hp. specialize (Hm w Hp). specialize (Ha w). unfold try.
  destruct (m w) as [[a|e|] w']; [done| |by apply HR]. apply Hh; [|done]. cbn in Ha. congruence.
Qed.

(** ** The store as a prefix of the plan *)

Section once.
Context {E : Env}.
Context (Hstore : has_store = true).

(** No operation can be skipped for want of tokens: there are no caps, or no operation asks
    a model. *)
Definition uncapped (ops : list DreamOp) : Prop :=
  (llm_max_tokens_per_run config = 0 /\ llm_max_tokens_per_namespace_per_day config = 0) \/
  forall op, op ∈ ops -> mem_str (op_type op) _LLM_OP_KINDS = false.

(** No operation can be skipped for the store's dialect. *)
Definition supported (ops : list DreamOp) : Prop :=
  dialect = None \/ dialect = Some "postgresql" \/
  forall op, op ∈ ops -> mem_str (op_type op) _POSTGRES_ONLY_OP_KINDS = false.

(** The operations applied one after the other, each at its time. *)
Fixpoint run_ops (ops : list DreamOp) (ts : list datetime) (d : Db) : option Db :=
  match ops, ts with
  | [], [] => Some d
  | op :: ops', t :: ts' =>
      match handlers (op_type op) with
      | None => run_ops ops' ts' d
      | Some h => match h op t d with Ok (_, d') => run_ops ops' ts' d' | Err _ => None end
      end
  | _, _ => None
  end.

Lemma run_ops_snoc ops op ts t d d1 :
  run_ops ops ts d = Some d1 -> run_ops (ops ++ [op]) (ts ++ [t]) d = run_ops [op] [t] d1.
Proof.
  revert ts d. induction ops as [|op' ops IH]; intros [|t' ts] d; cbn [run_ops app]; try done; [by intros [= ->]|].
  destruct (handlers (op_type op')) as [h|]; [|apply IH]. destruct (h op' t' d) as [[u d2]|]; [apply IH|done].
Qed.

Context (rid ns : Z) (ops : list DreamOp) (d0 : Db).
Context (Huncapped : uncapped ops) (Hsupported : supported ops).

(** The first [n] operations are in the store, and the checkpoint says so. *)
Definition Prefix (n : nat) : assertion := fun d r g =>
  (n <= length ops)%nat /\
  (exists row, r !! rid = Some row /\ last_committed_op_seq row = Z.of_nat n - 1) /\
  exists ts, run_ops (take n ops) ts d0 = Some d.

Definition SomePrefix : assertion := fun d r g => exists n, Prefix n d r g.

Lemma Prefix_some n : entails (Prefix n) SomePrefix.
Proof. intros d r g H. by exists n. Qed.

Lemma Prefix_row n f rid' d r g :
  (forall row, last_committed_op_seq (f row) = last_committed_op_seq row) ->
  Prefix n d r g -> Prefix n d (alter f rid' r) g.
Proof.
  intros Hf (Hn & (row & Hr & Hl) & Hts). split_and!; [done| |done]. destruct (decide (rid = rid')) as [<-|Hne].
  - exists (f row). by rewrite lookup_alter_eq, Hr, Hf.
  - exists row. by rewrite lookup_alter_ne.
Qed.

Lemma Prefix_graph n d r g g' : Prefix n d r g -> Prefix n d r g'.
Proof. done. Qed.

Lemma Prefix_next n op t d d' r g now :
  ops !! n = Some op -> run_ops [op] [t] d = Some d' -> Prefix n d r g ->
  Prefix (S n) d' (advance_checkpoint rid (Z.of_nat n) now r) g.
Proof.
  intros Hop Hrun (Hn & (row & Hr & Hl) & ts & Hts). split_and!.
  - by apply lookup_lt_Some in Hop.
  - eexists. unfold advance_checkpoint. rewrite lookup_alter_eq, Hr. split; [done|cbn; lia].
  - exists (ts ++ [t]). rewrite (take_S_r _ _ _ Hop). by rewrite (run_ops_snoc _ _ _ _ _ _ Hts).
Qed.

(** *** Steps that do not move the checkpoint *)

Section still.
Context (n : nat).
Local Abbreviation P := (Prefix n).

Lemma still_sql f R : (forall d r g, P d r g -> P d (f r) g) -> entails P R -> hoare P (sql f) (fun _ => P) R.
Proof. intros Hf HR. apply hoare_sql; [done|done|by intros []]. Qed.

Lemma still_calls fs R : entails P R -> hoare P (graph_calls fs) (fun _ => P) R.
Proof.
  intros HR. eapply hoare_weaken; [apply (hoare_graph_calls P fs P)|apply entails_refl| |exact HR].
  - intros f _ d r g. apply Prefix_graph.
  - apply entails_refl.
  - by intros [] d r g [? _].
Qed.

Lemma still_lift {A} (x : result A) R : entails P R -> hoare P (lift x) (fun _ => P) R.
Proof. intros HR. apply hoare_lift; [by intros a _ d r g|done]. Qed.

Lemma still_resolve R : entails P R -> hoare P (_resolve_namespace_for_mirror ns) (fun _ => P) R.
Proof. intros HR. apply hoare_transaction; [apply hoare_ret, entails_refl|done|by intros _]. Qed.

Lemma still_mark rid' entry d r g : P d r g -> P d (mark_graph_mirror_pending rid' entry r) g.
Proof. by apply Prefix_row. Qed.

Lemma still_clear rid' seq d r g : P d r g -> P d (clear_graph_mirror_pending rid' seq r) g.
Proof. by apply Prefix_row. Qed.

Lemma still_attempt (calls_of : Z -> result (list (Graph -> Graph))) R : entails P R ->
  hoare P (try (row ← _resolve_namespace_for_mirror ns; calls ← lift (calls_of row); _ ← graph_calls calls; mret None)
             (fun e => mret (Some e))) (fun _ => P) R.
Proof.
  intros HR. eapply hoare_try with (R' := P); [|intros e; apply hoare_ret, entails_refl|done].
  eapply hoare_bind; [apply still_resolve, entails_refl|]. intros row.
  eapply hoare_bind; [apply still_lift, entails_refl|]. intros calls.
  eapply hoare_bind; [apply still_calls, entails_refl|]. intros []. apply hoare_ret, entails_refl.
Qed.

Lemma still_drain_entries at_ l : hoare P (drain_entries ns at_ l) (fun _ => P) P.
Proof.
  induction l as [|[rid' p] l IH]; cbn [drain_entries]; [apply hoare_ret, entails_refl|].
  eapply hoare_bind; [apply (still_attempt (fun row =>
    apply_mirror_payload parse_uuid str_other fromisoformat int_of_str (p_payload p) row at_)), entails_refl|].
  intros [e|].
  - eapply hoare_bind; [exact IH|]. intros ds. apply hoare_ret, entails_refl.
  - eapply hoare_bind; [apply still_sql; [intros d r g; apply still_clear|apply entails_refl]|]. intros []. exact IH.
Qed.

Lemma still_drain : hoare P (_drain_graph_mirror_pending ns) (fun _ => P) P.
Proof.
  unfold _drain_graph_mirror_pending. destruct graph as [gb|]; [|apply hoare_ret, entails_refl].
  destruct (negb has_store); [apply hoare_ret, entails_refl|].
  eapply hoare_bind with (Q := fun _ => P).
  - eapply hoare_try with (R' := P); [|intros e; apply hoare_ret, entails_refl|apply entails_refl].
    eapply hoare_bind with (Q := fun _ => P); [|intros l; apply hoare_ret, entails_refl].
    apply (hoare_transaction _ _ (fun _ => P)); [by apply hoare_read|apply entails_refl|intros _; apply entails_refl].
  - intros [l|e]; [|apply hoare_ret, entails_refl].
    eapply hoare_bind with (Q := fun _ => P); [by apply hoare_read|]. intros t. apply still_drain_entries.
Qed.

Lemma still_mirror rid' seq op undo : hoare P (_mirror_dream_op rid' seq ns op undo) (fun _ => P) P.
Proof.
  unfold _mirror_dream_op. destruct graph as [gb|]; [|apply hoare_ret, entails_refl].
  destruct (shares_sql_store gb); [apply hoare_ret, entails_refl|].
  destruct (negb _); [apply hoare_ret, entails_refl|].
  eapply hoare_bind; [apply still_lift, entails_refl|]. intros t.
  eapply hoare_bind; [apply still_lift, entails_refl|]. intros cs.
  destruct (no_targets t cs); [apply hoare_ret, entails_refl|].
  eapply hoare_bind; [apply (still_attempt (fun row => Ok (apply_mirror_targets t row (u_applied_at undo) cs))), entails_refl|].
  intros [e|].
  - eapply hoare_bind with (Q := fun _ => P); [|intros []; apply hoare_ret, entails_refl].
    unfold _queue_graph_mirror_pending. apply hoare_when; [|by intros _ d r g].
    eapply hoare_bind; [apply still_lift, entails_refl|]. intros p.
    apply still_sql; [intros d r g; apply still_mark|apply entails_refl].
  - eapply hoare_bind with (Q := fun _ => P); [|intros []; apply hoare_ret, entails_refl].
    unfold _clear_graph_mirror_pending. apply hoare_when; [|by intros _ d r g].
    apply still_sql; [intros d r g; apply still_clear|apply entails_refl].
Qed.
End still.

(** *** One operation *)

Lemma run_ops_one op h t d undo d' : handlers (op_type op) = Some h -> h op t d = Ok (undo, d') -> run_ops [op] [t] d = Some d'.
Proof. intros Hh Hr. cbn [run_ops]. by rewrite Hh, Hr. Qed.

Lemma gate_passes op : op ∈ ops -> _assert_backend_supported (op_type op) = mret ().
Proof.
  intros Hop. unfold _assert_backend_supported. destruct (mem_str _ _) eqn:Hm; [|done]. cbn [negb].
  destruct Hsupported as [->|[->|Hall]]; [done..|]. by rewrite Hall in Hm.
Qed.

Lemma once_apply_one_op n op h :
  ops !! n = Some op -> handlers (op_type op) = Some h ->
  hoare (Prefix n) (_apply_one_op rid (Z.of_nat n) ns op h) (fun _ => Prefix (S n)) SomePrefix.
Proof.
  intros Hop Hh. apply hoare_transaction; [|apply Prefix_some|intros _; apply Prefix_some].
  eapply hoare_bind with (Q := fun _ => Prefix n).
  { rewrite gate_passes by by eapply list_elem_of_lookup_2. apply hoare_ret, entails_refl. }
  intros [].
  eapply hoare_bind with (Q := fun undo d r g => exists t d0', Prefix n d0' r g /\ run_ops [op] [t] d0' = Some d).
  { intros w HP. rewrite invoke_handler. destruct (h op (now_at w) (w_db w)) as [[undo d']|] eqn:Hrun; [|exact I].
    exists (now_at w), (w_db w). split; [exact HP|]. by eapply run_ops_one. }
  intros undo. eapply hoare_bind with (Q := fun _ => Prefix (S n)).
  { unfold _record_committed_in_session. rewrite Hstore. apply hoare_modify.
    intros w (t & d & HP & Hrun). by eapply Prefix_next. }
  intros []. eapply hoare_bind with (Q := fun _ => Prefix (S n)).
  { unfold _mirror_dream_op_in_tx. destruct graph as [gb|]; [|apply hoare_ret, entails_refl].
    destruct (negb _); [apply hoare_ret, entails_refl|]. destruct (negb _); [apply hoare_ret, entails_refl|].
    eapply hoare_bind; [by apply (still_lift (S n))|]. intros t. destruct (is_nil _); [apply hoare_ret, entails_refl|].
    eapply hoare_bind with (Q := fun _ => Prefix (S n)); [by apply hoare_modify|]. intros []. apply hoare_ret, entails_refl. }
  intros [|]; [apply hoare_ret, entails_refl|].
  eapply hoare_bind with (Q := fun _ => Prefix (S n)); [|intros []; apply hoare_ret, entails_refl].
  unfold _pre_mark_graph_mirror_pending. destruct graph as [gb|]; [|apply hoare_ret, entails_refl].
  destruct (_ || _); [apply hoare_ret, entails_refl|].
  eapply hoare_bind; [by apply (still_lift (S n))|]. intros t. destruct (_ && _); [apply hoare_ret, entails_refl|].
  eapply hoare_bind; [by apply (still_lift (S n))|]. intros p. apply hoare_modify. intros w. apply still_mark.
Qed.

(** The dialect gate lets the operation through. *)
Lemma never_unsupported n op h : op ∈ ops -> avoids DreamBackendUnsupported (_apply_one_op rid n ns op h).
Proof.
  intros Hop. apply avoids_transaction; [|done]. apply avoids_bind.
  { rewrite gate_passes by done. apply avoids_ret. }
  intros []. apply avoids_bind.
  { intros w. rewrite invoke_handler. by destruct (h op (now_at w) (w_db w)) as [[]|]. }
  intros undo. apply avoids_bind.
  { unfold _record_committed_in_session, when. destruct has_store; auto with khora. }
  intros []. apply avoids_bind.
  { unfold _mirror_dream_op_in_tx. destruct graph as [gb|]; [|apply avoids_ret].
    destruct (negb _); [apply avoids_ret|]. destruct (negb _); [apply avoids_ret|].
    apply avoids_bind; [by apply avoids_lift|]. intros t. destruct (is_nil _); [apply avoids_ret|].
    apply avoids_bind; auto with khora. }
  intros [|]; [apply avoids_ret|]. apply avoids_bind; [|auto with khora].
  unfold _pre_mark_graph_mirror_pending. destruct graph as [gb|]; [|apply avoids_ret].
  destruct (_ || _); [apply avoids_ret|]. apply avoids_bind; [by apply avoids_lift|]. intros t.
  destruct (_ && _); [apply avoids_ret|]. apply avoids_bind; [by apply avoids_lift|]. auto with khora.
Qed.

Lemma once_record n op :
  ops !! n = Some op -> handlers (op_type op) = None ->
  hoare (Prefix n) (_record_committed rid (Z.of_nat n)) (fun _ => Prefix (S n)) SomePrefix.
Proof.
  intros Hop Hh. unfold _record_committed. rewrite Hstore. unfold when.
  eapply hoare_bind with (Q := fun _ => Prefix n); [by apply hoare_read|]. intros t.
  apply hoare_sql; [|apply Prefix_some|intros []; apply Prefix_some].
  intros d r g. eapply (Prefix_next n op t); [done|]. cbn [run_ops]. by rewrite Hh.
Qed.

Lemma breach_off op w : op ∈ ops -> _llm_budget_breach op ns w = (Done false, w).
Proof.
  intros Hop. unfold _llm_budget_breach. destruct (mem_str _ _) eqn:Hm; [|done]. cbn [negb].
  destruct Huncapped as [[-> ->]|Hall]; [done|]. by rewrite Hall in Hm.
Qed.

Lemma once_apply_op started n op rep :
  ops !! n = Some op ->
  hoare (Prefix n) (apply_op rid ns started (Z.of_nat n) op rep) (fun _ => Prefix (S n)) SomePrefix.
Proof.
  intros Hop. assert (Hin : op ∈ ops) by by eapply list_elem_of_lookup_2. unfold apply_op, get_apply_handler.
  destruct (mem_str _ _); [intros w HP; by exists n|]. apply hoare_bind_ret.
  destruct (handlers (op_type op)) as [h|] eqn:Hh.
  2:{ eapply hoare_bind; [by eapply once_record|]. intros []. apply hoare_ret, entails_refl. }
  eapply hoare_bind with (Q := fun b d r g => Prefix n d r g /\ b = false).
  { intros w HP. rewrite breach_off by done. by split. }
  intros b. apply hoare_pure. intros ->.
  eapply hoare_bind with (Q := fun a d r g => Prefix (S n) d r g /\ exists undo, a = Some undo).
  - apply (hoare_try_avoiding DreamBackendUnsupported) with (R' := SomePrefix); [| | |apply entails_refl].
    + apply avoids_bind; [by apply never_unsupported|]. auto with khora.
    + eapply hoare_bind; [by apply once_apply_one_op|]. intros undo. apply hoare_ret. intros d r g HP. split; [done|by exists undo].
    + intros e He. destruct e; try (apply hoare_raise, entails_refl). done.
  - intros a. apply hoare_pure. intros [undo ->].
    eapply hoare_bind with (Q := fun _ => Prefix (S n)).
    { unfold _assert_no_chunk_id_mutation. destruct (dict_get _ _); [apply hoare_raise, Prefix_some|apply hoare_ret, entails_refl]. }
    intros []. eapply hoare_bind with (Q := fun _ => Prefix (S n)).
    { destruct _mirrors_in_transaction; [apply hoare_ret, entails_refl|].
      eapply hoare_weaken; [apply (still_mirror (S n))|apply entails_refl|intros; apply entails_refl|apply Prefix_some]. }
    intros dg. eapply hoare_bind; [apply (hoare_frame (Prefix (S n))); [apply usage_frame|apply Prefix_some]|].
    intros []. eapply hoare_bind; [apply (hoare_frame (Prefix (S n))); [apply undo_frame|apply Prefix_some]|].
    intros []. apply hoare_ret, entails_refl.
Qed.

(** *** The whole plan *)

(** A prefix of the plan is in the store: all of it, if nobody cancels. *)
Definition Finished : assertion := fun d r g =>
  exists n, Prefix n d r g /\ ((forall k, cancelled k = false) -> n = length ops).

Lemma Finished_some : entails Finished SomePrefix.
Proof. intros d r g (n & HP & _). by exists n. Qed.

Lemma Finished_all : entails (Prefix (length ops)) Finished.
Proof. intros d r g HP. by exists (length ops). Qed.

Lemma Finished_row f rid' d r g :
  (forall row, last_committed_op_seq (f row) = last_committed_op_seq row) -> Finished d r g -> Finished d (alter f rid' r) g.
Proof. intros Hf (n & HP & Hn). exists n. split; [by apply Prefix_row|done]. Qed.

Lemma once_apply_loop started n k rep : (k <= length ops)%nat ->
  hoare (Prefix (Nat.max k n)) (apply_loop rid ns started (Z.of_nat n - 1) (Z.of_nat k) (drop k ops) rep)
    (fun _ => Finished) SomePrefix.
Proof.
  remember (length ops - k)%nat as m eqn:Hm. revert k rep Hm. induction m as [|m IH]; intros k rep Hm Hk.
  - assert (k = length ops) as -> by lia. rewrite drop_all. cbn [apply_loop]. apply hoare_ret.
    intros d r g HP. pose proof HP as (Hle & _). apply Finished_all. by replace (Nat.max (length ops) n) with (length ops) in HP by lia.
  - destruct (lookup_lt_is_Some_2 ops k ltac:(lia)) as [op Hop]. rewrite (drop_S _ _ _ Hop). cbn [apply_loop].
    destruct (cancelled (Z.of_nat k)) eqn:Hc.
    { apply hoare_ret. intros d r g HP. exists (Nat.max k n). split; [done|]. intros Hcancel. by rewrite Hcancel in Hc. }
    replace (Z.of_nat k + 1) with (Z.of_nat (S k)) by lia. destruct (Z.leb_spec (Z.of_nat k) (Z.of_nat n - 1)).
    + replace (Nat.max k n) with (Nat.max (S k) n) by lia. apply IH; lia.
    + replace (Nat.max k n) with k by lia. eapply hoare_bind; [by apply once_apply_op|]. intros rep'.
      specialize (IH (S k) rep' ltac:(lia) ltac:(lia)). by replace (Nat.max (S k) n) with (S k) in IH by lia.
Qed.

Lemma once_apply_phase plan : plan_namespace_id plan = ns -> plan_ops plan = ops ->
  hoare SomePrefix (_apply_phase rid plan) (fun _ => Finished) SomePrefix.
Proof.
  intros Hns Hops. apply hoare_exists. intros n. unfold _apply_phase. rewrite Hns, Hops.
  destruct apply_disabled; [apply hoare_raise, Prefix_some|].
  eapply hoare_bind with (Q := fun _ => Prefix n); [by apply hoare_read|]. intros started.
  eapply hoare_bind with (Q := fun last d r g => Prefix n d r g /\ last = Z.of_nat n - 1).
  { unfold _read_last_committed. rewrite Hstore. apply hoare_transaction; [|apply Prefix_some|].
    - apply hoare_read. intros w HP. split; [done|]. destruct HP as (_ & (row & Hr & Hl) & _).
      unfold read_last_committed. by rewrite Hr.
    - intros last d r g [HP _]. by eapply Prefix_some. }
  intros last. apply hoare_pure. intros ->.
  eapply hoare_bind; [eapply hoare_weaken; [apply (still_drain n)|apply entails_refl|intros; apply entails_refl|apply Prefix_some]|].
  intros ds. eapply hoare_bind with (Q := fun _ => Prefix n); [by apply hoare_modify|]. intros [].
  eapply hoare_bind; [|intros rep; apply hoare_ret, entails_refl].
  apply (once_apply_loop started n 0). lia.
Qed.

(** The run has not begun, or a prefix of the plan is in the store. *)
Definition Begun : assertion := fun d r g => (r !! rid = None /\ d = d0) \/ SomePrefix d r g.

Lemma once_init mode resume :
  hoare (fun d r g => Begun d r g /\ resume = bool_decide (is_Some (r !! rid))) (_init_run_row rid ns mode resume)
    (fun _ => SomePrefix) Begun.
Proof.
  unfold _init_run_row. destruct resume.
  - apply hoare_ret. intros d r g [[[Hr _]|HP] Hb]; [|done]. symmetry in Hb. apply bool_decide_eq_true in Hb.
    rewrite Hr in Hb. by destruct Hb.
  - rewrite Hstore. unfold when. eapply hoare_bind with (Q := fun _ d r g => r !! rid = None /\ d = d0).
    { apply hoare_read. intros w [[H|(n & _ & (row & Hr & _) & _)] Hb]; [done|]. symmetry in Hb.
      apply bool_decide_eq_false in Hb. exfalso. apply Hb. by exists row. }
    intros t. apply hoare_sql; [|by left|by right].
    intros d r g [Hr ->]. exists 0%nat. split; [lia|]. unfold record_run. rewrite Hr. split.
    + eexists. by rewrite lookup_insert_eq.
    + by exists [].
Qed.

Lemma Begun_row f rid' d r g :
  (forall row, last_committed_op_seq (f row) = last_committed_op_seq row) -> Begun d r g -> Begun d (alter f rid' r) g.
Proof.
  intros Hf [[Hr ->]|[n HP]]; [left|right; exists n; by apply Prefix_row]. split; [|done].
  destruct (decide (rid = rid')) as [<-|Hne]; [by rewrite lookup_alter_eq, Hr|by rewrite lookup_alter_ne].
Qed.

Lemma once_finalize P plan state error R :
  (forall t d r g, P d r g -> P d (finalize_run rid state (match plan with Some p => len (plan_ops p) | None => 0 end) error t r) g) ->
  entails P R -> hoare P (_finalize_run_row rid plan state error) (fun _ => P) R.
Proof.
  intros Hf HR. unfold _finalize_run_row. rewrite Hstore. unfold when.
  eapply hoare_bind with (Q := fun _ => P); [by apply hoare_read|].
  intros t. apply hoare_sql; [apply Hf|done|by intros []].
Qed.

Lemma once_run plan resume :
  plan_namespace_id plan = ns -> plan_ops plan = ops ->
  hoare (fun d r g => Begun d r g /\ resume = bool_decide (is_Some (r !! rid)))
    (run rid ns "apply" resume (Ok plan)) (fun _ => Finished) Begun.
Proof.
  intros Hns Hops. unfold run. cbn [mem_str existsb String.eqb Ascii.eqb Bool.eqb negb orb].
  assert (HB : entails SomePrefix Begun) by (intros d r g; by right).
  eapply hoare_try with (R' := Begun).
  - unfold run_body. eapply hoare_bind; [apply once_init|]. intros [].
    eapply hoare_bind with (Q := fun plan' d r g => SomePrefix d r g /\ plan' = plan); [by apply hoare_ret; intros d r g|].
    intros plan'. apply hoare_pure. intros ->. eapply hoare_bind with (Q := fun _ => SomePrefix).
    { unfold _validate_no_forbidden_ops. destruct (existsb _ _); [by apply hoare_raise|apply hoare_ret, entails_refl]. }
    intros []. eapply hoare_bind with (Q := fun _ => SomePrefix).
    { unfold _persist_plan_hash. rewrite Hstore. unfold when. eapply hoare_bind with (Q := fun _ => SomePrefix); [by apply hoare_read|].
      intros t. apply hoare_sql; [|done|by intros []]. intros d r g [n HP]. exists n. by apply Prefix_row. }
    intros []. change (String.eqb "apply" "dry-run") with false. cbn iota.
    eapply hoare_bind with (Q := fun _ => Finished).
    { eapply hoare_weaken; [by apply (once_apply_phase plan)|apply entails_refl|intros; apply entails_refl|exact HB]. }
    intros res. eapply hoare_bind with (Q := fun _ => Finished); [|intros []; apply hoare_ret, entails_refl].
    apply once_finalize; [intros; by apply Finished_row|]. intros d r g HP. apply HB. by apply Finished_some.
  - intros e.
    assert (forall st er, hoare Begun (_ ← _finalize_run_row rid None st er; raise (A := DreamResult) e)
      (fun _ => Finished) Begun) as Hf.
    { intros st er. eapply hoare_bind with (Q := fun _ => Begun); [|intros []; apply hoare_raise, entails_refl].
      apply once_finalize; [intros; by apply Begun_row|apply entails_refl]. }
    destruct e; apply Hf.
  - apply entails_refl.
Qed.
End once.
