(* ===== verification/DreamTraces.v ===== *)
(** What a dream run guarantees, and concrete histories: the properties of a run under any
    schedule of failures, of an undisturbed drain, of an undisturbed run and of a resumed
    one; then histories in which the orchestrator's bookkeeping goes wrong. *)
From S2P Require Import Prelude PyValue FilterAst FilterPython ReplaceMirror ReplaceMirrorFacts RankFusion Scoring PyText.
From S2P Require Import DreamMirror DreamMirrorFacts DreamMergeFacts DreamRunStore DreamRun DreamHandlers.
From S2P Require Import DreamRunFacts DreamClean DreamResume.

Local Open Scope string_scope.
Local Open Scope list_scope.
Local Open Scope Z_scope.

(** ** Properties *)

Section properties.
Context {E : Env}.

(** C14.  No soft-delete is forgotten.  Suppose every soft-deleted row of the relational
    store is out of the graph's view or queued for it, and the run table is in order.  Then
    the same holds after a run - planned anyhow, new or resumed - whether it returned,
    raised, or the process died, and whichever transactions and graph calls failed, took
    effect unnoticed, or were never made. *)
Theorem tombstones_accounted gb ns rid mode resume planned w :
  RemoteStack gb ->
  (forall plan, planned = Ok plan -> plan_namespace_id plan = ns) ->
  holds (Base ns) w -> admissible ns rid resume (w_runs w) ->
  let w' := (run rid ns mode resume planned w).2 in
  (forall i, dead_relationship (w_db w') i ->
     quiet_edge (row_namespace ns) (w_graph w') i \/ owes ns invalidate_relationship_ids (w_runs w') i) /\
  (forall i, dead_entity (w_db w') i ->
     quiet_node (row_namespace ns) (w_graph w') i \/ owes ns retire_entity_ids (w_runs w') i) /\
  tidy (w_runs w').
Proof.
  intros RS Hplan HB Ha w'. pose proof (hoare_run gb RS ns rid mode resume planned Hplan w (conj HB Ha)) as H.
  unfold w'. destruct (run rid ns mode resume planned w) as [[res|e|] w2]; destruct H as [[H1 H2] H3]; done.
Qed.

(** C28.  The queue drains.  From such a state, a drain during which nothing fails succeeds
    without a degradation: nothing is left queued for the namespace, and every soft-deleted
    row is out of the graph's view. *)
Theorem drain_settles gb ns rid n w :
  RemoteStack gb -> w_faults w = [] -> holds (Base ns) w -> before ns rid n (w_runs w) ->
  exists w', _drain_graph_mirror_pending ns w = (Done [], w') /\
    get_open_graph_mirror_pending run_order ns (w_runs w') = [] /\ w_db w' = w_db w /\
    (forall i, dead_relationship (w_db w') i -> quiet_edge (row_namespace ns) (w_graph w') i) /\
    (forall i, dead_entity (w_db w') i -> quiet_node (row_namespace ns) (w_graph w') i).
Proof.
  intros RS Hf HB Hb.
  assert (total (At ns rid n) (_drain_graph_mirror_pending ns)
    (fun ds d r g => (ds = [] /\ nothing_owed ns r) /\ At ns rid n d r g)) as Ht.
  { eapply total_hoare; [|apply (hoare_drain gb RS ns)].
    eapply total_weaken; [apply (total_drain gb RS ns)|by intros d r g [[_ ?] _]|by intros ds d r g]. }
  destruct (Ht w Hf (conj HB Hb)) as (ds & w' & E1 & _ & [[-> Ho] [[[K1 K2] _] _]]).
  pose proof (keeps_db_drain ns w) as Hd. rewrite E1 in Hd.
  exists w'. split_and!; [done|by apply (open_nothing gb RS)|done|..]; intros i Hi.
  - destruct (K1 i Hi) as [?|Hw]; [done|]. by apply (nothing_owed_owes ns _ _ _ Ho) in Hw.
  - destruct (K2 i Hi) as [?|Hw]; [done|]. by apply (nothing_owed_owes ns _ _ _ Ho) in Hw.
Qed.

(** C16.  An undisturbed run keeps the stores in agreement.  If relational store and graph
    show the same live rows and nothing is queued, a new run of prune and merge operations
    returns, reports no degradation, and leaves them showing the same live rows, with
    nothing queued. *)
Theorem clean_run_agrees gb ns rid plan w :
  RemoteStack gb -> apply_disabled = false -> (forall k, cancelled k = false) ->
  w_faults w = [] -> plan_namespace_id plan = ns ->
  agree (row_namespace ns) (w_db w) (w_graph w) ->
  get_open_graph_mirror_pending run_order ns (w_runs w) = [] -> w_runs w !! rid = None ->
  Forall (agreeable ns (w_graph w)) (plan_ops plan) ->
  exists res w', run rid ns "apply" false (Ok plan) w = (Done res, w') /\
    res_degradations res = [] /\ get_open_graph_mirror_pending run_order ns (w_runs w') = [] /\
    agree (row_namespace ns) (w_db w') (w_graph w').
Proof.
  intros RS Hdis Hcan Hf Hns HA Ho Hr Hops.
  assert (nothing_owed ns (w_runs w)) as Ho'.
  { intros rid' r Hr' Hn. destruct (graph_mirror_pending r) as [|p l] eqn:Hp; [done|]. exfalso.
    assert ((rid', p) ∈ get_open_graph_mirror_pending run_order ns (w_runs w)) as Hin.
    { apply elem_of_open; [apply RS|]. exists r. split_and!; [done..|rewrite Hp; left]. }
    rewrite Ho in Hin. by apply not_elem_of_nil in Hin. }
  destruct (total_run gb RS ns Hdis Hcan rid plan Hns w Hf) as (res & w' & E1 & _ & [[HA' Ho2] Hres]); [by split_and!|].
  exists res, w'. split_and!; [done..|by apply (open_nothing gb RS)|done].
Qed.

(** The run is started, or resumed if its row exists, in a new process. *)
Definition restart (fs : list fault) (w : World) : World :=
  MkWorld (w_db w) (w_runs w) (w_graph w) (w_undo w) ∅ 0 (w_ticks w) fs.

Definition attempt (rid : Z) (plan : DreamPlan) (fs : list fault) (w : World) : outcome DreamResult * World :=
  run rid (plan_namespace_id plan) "apply" (bool_decide (is_Some (w_runs w !! rid))) (Ok plan) (restart fs w).

Definition attempts (rid : Z) (plan : DreamPlan) (fss : list (list fault)) (w : World) : World :=
  foldl (fun w fs => (attempt rid plan fs w).2) w fss.

Lemma attempts_begun rid plan fss d0 w :
  has_store = true -> uncapped (plan_ops plan) -> supported (plan_ops plan) ->
  holds (Begun rid (plan_ops plan) d0) w -> holds (Begun rid (plan_ops plan) d0) (attempts rid plan fss w).
Proof.
  intros H1 H2 H3. revert w. induction fss as [|fs fss IH]; intros w HB; [done|]. cbn [attempts foldl]. apply IH.
  unfold attempt.
  pose proof (once_run H1 rid (plan_namespace_id plan) (plan_ops plan) d0 H2 H3 plan
    (bool_decide (is_Some (w_runs w !! rid))) eq_refl eq_refl (restart fs w) (conj HB eq_refl)) as H.
  destruct (run _ _ _ _ _ _) as [[res|e|] w']; [|done..]. right. by eapply Finished_some.
Qed.

End properties.

(** ** A concrete stack *)

Definition demo_iso (d : datetime) : string := String (Ascii.ascii_of_nat 84) (enc_str d).
Definition demo_uniso (s : string) : option datetime :=
  match s with String _ s => dec_str s | EmptyString => None end.

(** A handler that summarises a community: it records the node, with its member. *)
Definition demo_summary : ApplyHandler := fun op now db =>
  Ok (MkUndo (op_id op) (op_type op)
        [("community_id", VStr (enc_str 90%Z)); ("summary_text", VStr "friends");
         ("member_ids", VList [VStr (enc_str 1%Z)]); ("summary_depth", VInt 1)] now, db).

Definition demo_registry (k : string) : option ApplyHandler :=
  if String.eqb k DEDUPE_ENTITIES then
    Some (apply_vectorcypher_dedupe_entities enc_str dec_str (fun _ => "") (fun l => l) (fun _ _ _ => None))
  else if String.eqb k PRUNE_EDGES then Some (apply_vectorcypher_prune_edges enc_str dec_str (fun _ => ""))
  else if String.eqb k COMMUNITY_SUMMARY then Some demo_summary
  else None.

Definition demo_graph : GraphBackend := MkGraphBackend MIRRORABLE_OP_KINDS false false.

Definition demo_env (per_run : Z) (cancel_at : option Z) : Env := {|
  uuid_str := enc_str; parse_uuid := dec_str; str_other := fun _ => "";
  isoformat := demo_iso; fromisoformat := demo_uniso; int_of_str := fun _ => None;
  set_iter := elements; run_order := fun l => l;
  clock := dt_utc; monotonic := fun k => k; day_of := fun _ => 0;
  row_namespace := fun n => n; digest := fun _ => "h"; str_exn := fun _ => "";
  graph := Some demo_graph; dialect := Some "postgresql"; has_store := true; file_sink := true;
  handlers := demo_registry; usage := fun op => if String.eqb (op_type op) COMMUNITY_SUMMARY then 100 else 0;
  config := MkDreamConfig per_run 0; apply_disabled := false;
  cancelled := fun k => match cancel_at with Some c => c <=? k | None => false end |}.

Lemma demo_texts : text_forms enc_str dec_str demo_iso demo_uniso.
Proof. split; [intros u; apply dec_enc_str|]. intros d. split; [apply dec_enc_str|done]. Qed.

Lemma demo_summary_tombstones per_run c : @Tombstones (demo_env per_run c) COMMUNITY_SUMMARY demo_summary.
Proof. intros op now db undo db' _ [= <- <-]. eexists. split; [reflexivity|]. split; by left. Qed.

Lemma demo_remote per_run c : @RemoteStack (demo_env per_run c) demo_graph.
Proof.
  constructor; try done; [apply demo_texts|]. cbn [handlers demo_env]. intros k h. unfold demo_registry.
  destruct (String.eqb_spec k DEDUPE_ENTITIES) as [->|]; [intros [= <-]|].
  { apply (@dedupe_tombstones (demo_env per_run c)); [apply demo_texts|done|done]. }
  destruct (String.eqb_spec k PRUNE_EDGES) as [->|]; [intros [= <-]|].
  { apply (@prune_tombstones (demo_env per_run c)), demo_texts. }
  destruct (String.eqb_spec k COMMUNITY_SUMMARY) as [->|]; [intros [= <-]; apply demo_summary_tombstones|done].
Qed.

(** Namespace 1, two pairs of duplicates (1, 2) and (11, 12), an edge 5 from 2 to 12 and an
    edge 6 from 1 to 11, the same in both stores. *)
Definition demo_entity : EntityRow := MkEntity 1 None (dt_utc 0).
Definition demo_edge (s t : Z) : RelationshipRow :=
  MkRelationship 1 s t (Some "KNOWS") None None None None (dt_utc 0).
Definition demo_node : Node := MkNode 1 None None [].

Definition demo_db : Db :=
  MkDb (list_to_map [(1, demo_entity); (2, demo_entity); (11, demo_entity); (12, demo_entity)])
       (list_to_map [(5, demo_edge 2 12); (6, demo_edge 1 11)]).

Definition demo_store : Graph :=
  MkGraph (list_to_map [(1, demo_node); (2, demo_node); (11, demo_node); (12, demo_node)])
    (list_to_map [(5, MkEdge 1 2 12 (sanitize_cypher_label "KNOWS") None);
                  (6, MkEdge 1 1 11 (sanitize_cypher_label "KNOWS") None)]) ∅.

Definition demo_world (fs : list fault) : World := MkWorld demo_db ∅ demo_store ∅ ∅ 0 0 fs.

Definition merge_op (i c a : Z) : DreamOp :=
  MkOp i DEDUPE_ENTITIES []
    [VDict [("merges", VList [VDict [("canonical_id", VStr (enc_str c)); ("absorbed_id", VStr (enc_str a))]])]] "planned".
Definition prune_op (i r : Z) : DreamOp :=
  MkOp i PRUNE_EDGES [VDict [("relationship_id", VStr (enc_str r))]] [] "planned".
Definition summary_op (i : Z) : DreamOp := MkOp i COMMUNITY_SUMMARY [] [] "planned".

(** The steps of a new run before its first operation. *)
Definition preamble : list fault := [Succeeds; Succeeds; Succeeds; Succeeds].

Definition demo_plan (ops : list DreamOp) : DreamPlan := MkPlan 1 ops.

Definition run_demo (per_run : Z) (c : option Z) (rid : Z) (resume : bool) (ops : list DreamOp) (w : World) :=
  @run (demo_env per_run c) rid 1 "apply" resume (Ok (demo_plan ops)) w.

Lemma demo_agree : agree 1 demo_db demo_store.
Proof.
  assert (forall i, relationships demo_db !! i = None /\ edges demo_store !! i = None \/ i = 5 \/ i = 6) as He.
  { intros i. destruct (decide (i = 5)); [tauto|]. destruct (decide (i = 6)); [tauto|]. left.
    split; (apply not_elem_of_list_to_map; cbn; set_solver). }
  assert (forall i, entities demo_db !! i = None /\ nodes demo_store !! i = None \/ i = 1 \/ i = 2 \/ i = 11 \/ i = 12) as Hn.
  { intros i. destruct (decide (i ∈ [1; 2; 11; 12])) as [H|H]; [right; set_solver|left].
    split; (apply not_elem_of_list_to_map; cbn; set_solver). }
  split.
  - intros i. unfold db_view, graph_view. destruct (He i) as [[-> ->]|[->| ->]]; [done|vm_compute; reflexivity..].
  - intros i. unfold db_alive, graph_alive.
    destruct (Hn i) as [[-> ->]|[->|[->|[->| ->]]]]; [done|vm_compute; reflexivity..].
  - intros i s t l. unfold graph_view. destruct (He i) as [[_ ->]|[->| ->]]; [done|..];
      vm_compute; intros [= <- <- <-]; done.
Qed.

(** Stores that agree have no soft-delete to account for. *)
Lemma agree_Base {E : Env} ns d r g :
  agree (row_namespace ns) d g ->
  (forall i row, relationships d !! i = Some row -> rel_namespace_id row = row_namespace ns) ->
  tidy r -> Base ns d r g.
Proof.
  intros [A1 A2 _] Hns HT. split; [split|done]; intros i.
  - intros (row & Hrow & Hdead). left. intros e He. specialize (A1 i). unfold db_view, graph_view in A1.
    rewrite Hrow, He in A1. destruct (live_edge (row_namespace ns) e); [|done].
    assert (live_relationship (row_namespace ns) row = false) as Hl; [|by rewrite Hl in A1].
    unfold live_relationship. destruct Hdead as [Hd|Hd]; rewrite (bool_decide_eq_false_2 _ Hd);
      by rewrite ?andb_false_r.
  - intros (e & He & Hdead). left. intros n Hn. specialize (A2 i). unfold db_alive, graph_alive in A2.
    rewrite He, Hn in A2. rewrite (bool_decide_eq_false_2 (ent_valid_until e = None)), andb_false_r in A2 by done. done.
Qed.

Lemma demo_Base per_run c r : tidy (E := demo_env per_run c) r -> Base (E := demo_env per_run c) 1 demo_db r demo_store.
Proof.
  apply (agree_Base (E := demo_env per_run c) 1); [apply demo_agree|]. intros i row. cbn.
  rewrite lookup_insert_Some, lookup_insert_Some. intros [[_ <-]|[_ [[_ <-]|[_ H]]]]; [done..|].
  by rewrite lookup_empty in H.
Qed.

Lemma empty_tidy {E : Env} : tidy ∅.
Proof. intros rid r H. by rewrite lookup_empty in H. Qed.

(** The process dies after an edge is pruned, before the mirror: its removal is queued. *)
Definition killed : World := (run_demo 0 None 100 false [prune_op 1 6] (demo_world (preamble ++ [Succeeds; Dies]))).2.

Lemma tombstones_accounted_witness :
  owes (E := demo_env 0 None) 1 invalidate_relationship_ids (w_runs killed) 6.
Proof.
  destruct (@tombstones_accounted (demo_env 0 None) demo_graph 1 100 "apply" false (Ok (demo_plan [prune_op 1 6]))
    (demo_world (preamble ++ [Succeeds; Dies])) (demo_remote 0 None)) as [H _].
  - by intros plan [= <-].
  - apply demo_Base, empty_tidy.
  - done.
  - destruct (H 6) as [Hq|Ho]; [|exfalso|exact Ho].
    + eexists. split; [vm_compute; reflexivity|]. left. done.
    + specialize (Hq (MkEdge 1 1 11 (sanitize_cypher_label "KNOWS") None)).
      discriminate Hq. vm_compute. reflexivity.
Defined.

Lemma killed_Base : holds (Base (E := demo_env 0 None) 1) killed /\ before 1 100 1 (w_runs killed).
Proof.
  split.
  - pose proof (@hoare_run (demo_env 0 None) demo_graph (demo_remote 0 None) 1 100 "apply" false (Ok (demo_plan [prune_op 1 6]))
      ltac:(by intros plan [= <-]) (demo_world (preamble ++ [Succeeds; Dies]))) as H.
    unfold killed, run_demo. destruct (run _ _ _ _ _ _) as [[res|e|] w']; apply H; (split; [apply demo_Base, empty_tidy|done]).
  - eexists. split; [vm_compute; reflexivity|]. vm_compute. done.
Qed.

Lemma restart_ready (P : assertion) rid n fs w :
  holds P w /\ before 1 rid n (w_runs w) -> holds P (restart fs w) /\ before 1 rid n (w_runs (restart fs w)).
Proof. done. Qed.

Lemma drain_settles_witness :
  exists w', @_drain_graph_mirror_pending (demo_env 0 None) 1 (restart [] killed) = (Done [], w') /\
    quiet_edge 1 (w_graph w') 6.
Proof.
  destruct (restart_ready _ _ _ [] _ killed_Base) as [HB Hb].
  destruct (@drain_settles (demo_env 0 None) demo_graph 1 100 1 (restart [] killed) (demo_remote 0 None) eq_refl HB Hb)
    as (w' & H1 & _ & Hd & H2 & _).
  exists w'. split; [exact H1|]. apply H2. rewrite Hd. eexists. split; [vm_compute; reflexivity|]. left. done.
Defined.

Lemma demo_merge per_run cn i c a :
  present 1 demo_store c = true -> c <> a -> agreeable (E := demo_env per_run cn) 1 demo_store (merge_op i c a).
Proof.
  intros Hp Hne. split; [by right|].
  exists (dedupe_handler (E := demo_env per_run cn) (fun l => l) (fun _ _ _ => None)), (mergeable (E := demo_env per_run cn)).
  split; [done|]. split; [apply dedupe_mirrored; [apply demo_texts|done|done]|].
  exists c, [(VDict [("canonical_id", VStr (enc_str c)); ("absorbed_id", VStr (enc_str a))], a)].
  split; [done|]. split; [|split; [|split; [|exact Hp]]].
  - constructor; [|constructor]. exists (VStr (enc_str c)), (VStr (enc_str a)). split; [done|]. unfold UUID_of. cbn.
    by rewrite !dec_enc_str.
  - repeat constructor. apply not_elem_of_nil.
  - cbn. by intros ->%list_elem_of_singleton.
Qed.

Lemma demo_prune per_run cn i r g : agreeable (E := demo_env per_run cn) 1 g (prune_op i r).
Proof.
  split; [by left|]. exists (prune_handler (E := demo_env per_run cn)), (prunable (E := demo_env per_run cn)).
  split; [done|]. split; [apply prune_mirrored, demo_texts|]. exists r. eexists _, [], (VStr (enc_str r)).
  split; [done|]. split; [done|]. unfold UUID_of. cbn. by rewrite dec_enc_str.
Qed.

Definition merges_and_prune : DreamPlan := demo_plan [merge_op 1 1 2; merge_op 2 11 12; prune_op 3 6].

Lemma merges_and_prune_agreeable : Forall (agreeable (E := demo_env 0 None) 1 demo_store) (plan_ops merges_and_prune).
Proof. repeat constructor; [by apply demo_merge..|apply demo_prune]. Qed.

Lemma clean_run_agrees_witness :
  exists res w', @run (demo_env 0 None) 100 1 "apply" false (Ok merges_and_prune) (demo_world []) = (Done res, w') /\
    agree 1 (w_db w') (w_graph w').
Proof.
  destruct (@clean_run_agrees (demo_env 0 None) demo_graph 1 100 merges_and_prune (demo_world []) (demo_remote 0 None)
    eq_refl (fun _ => eq_refl) eq_refl eq_refl demo_agree eq_refl eq_refl merges_and_prune_agreeable)
    as (res & w' & H1 & _ & _ & H2).
  exists res, w'. split; [exact H1|exact H2].
Defined.

(** The process dies twice; the third attempt is not disturbed. *)
Definition two_prunes : DreamPlan := demo_plan [prune_op 1 5; prune_op 2 6].
Definition two_deaths : list (list fault) := [preamble ++ [Succeeds; Dies]; [Dies]].


(** ** Where the bookkeeping goes wrong *)

(** A queued mirror can overwrite a newer one.  Two merges of one run move the two ends
    of an edge; the first mirror fails and is queued, the second succeeds.  The next run
    replays the queue, reports success and leaves nothing queued - and the graph's edge is
    back on an entity that is retired, while the relational store has it on the survivor. *)
Theorem stale_mirror_overwrites :
  let first := run_demo 0 None 100 false [merge_op 1 1 2; merge_op 2 11 12]
                 (demo_world (preamble ++ [Succeeds; Succeeds; Fails])) in
  let second := run_demo 0 None 101 false [] first.2 in
  let w := second.2 in
  graph_view 1 (w_graph first.2) 5 = Some (1, 11, "KNOWS") /\
  (exists res, second.1 = Done res /\ res_degradations res = []) /\
  get_open_graph_mirror_pending (fun l => l) 1 (w_runs w) = [] /\
  graph_view 1 (w_graph w) 5 = Some (1, 12, "KNOWS") /\ graph_alive 1 (w_graph w) 12 = false /\
  db_view 1 (w_db w) 5 = Some (1, 11, "KNOWS").
Proof. cbv zeta. split_and!; try (vm_compute; reflexivity). eexists. split; vm_compute; reflexivity. Qed.

(** The report of a run. *)
Definition applied_count (kind : string) (o : outcome DreamResult) : option Z :=
  match o with Done res => os_applied <$> dict_get kind (res_ops res) | _ => None end.

(** The operations in the undo file of a run. *)
Definition undo_file (rid : Z) (w : World) : option (list Z) := option_map (List.map u_op_id) (w_undo w !! (rid, 0)).

(** Four losses.  An operation skipped for want of tokens is not retried when a later
    one commits: the resumed run, which has tokens again, passes over it and reports it
    applied.  A community whose mirror never ran is not queued.  The undo file of a resumed
    run forgets the operations of the earlier attempt.  A cancelled run reports the
    operations it did not reach as applied. *)
Theorem bookkeeping_losses :
  (let first := run_demo 50 None 100 false [summary_op 1; summary_op 2; prune_op 3 6] (demo_world []) in
   let second := run_demo 50 None 100 true [summary_op 1; summary_op 2; prune_op 3 6] first.2 in
   applied_count COMMUNITY_SUMMARY first.1 = Some 1 /\ applied_count COMMUNITY_SUMMARY second.1 = Some 2 /\
   w_db second.2 = w_db first.2 /\ w_tokens second.2 = 0) /\
  (let killed := run_demo 0 None 100 false [summary_op 1] (demo_world (preamble ++ [Succeeds; Dies])) in
   let second := run_demo 0 None 100 true [summary_op 1] killed.2 in
   read_last_committed 100 (w_runs killed.2) = 0 /\ applied_count COMMUNITY_SUMMARY second.1 = Some 1 /\
   communities (w_graph second.2) = ∅) /\
  (let killed := run_demo 0 None 100 false [prune_op 1 5; prune_op 2 6]
                   (demo_world (preamble ++ [Succeeds; Succeeds; Succeeds; Succeeds; Succeeds; Dies])) in
   let second := run_demo 0 None 100 true [prune_op 1 5; prune_op 2 6] killed.2 in
   undo_file 100 killed.2 = Some [1] /\
   undo_file 100 second.2 = Some [2]) /\
  (let cancelled := run_demo 0 (Some 0) 100 false [prune_op 1 5; prune_op 2 6] (demo_world []) in
   applied_count PRUNE_EDGES cancelled.1 = Some 2 /\ w_db cancelled.2 = demo_db).
Proof. cbv zeta. split_and!; vm_compute; reflexivity. Qed.

(** ** Concrete mirrors *)

Definition demo_undo : UndoRecord :=
  match demo_registry DEDUPE_ENTITIES with
  | Some h => match h (merge_op 1 1 2) (dt_utc 7) demo_db with Ok (u, _) => u | Err _ => noop (merge_op 1 1 2) (dt_utc 7) end
  | None => noop (merge_op 1 1 2) (dt_utc 7)
  end.
Definition demo_targets : Targets := MkTargets [2] [] [MkRewrite 5 1 12 "KNOWS"].

Lemma payload_replays_mirror_witness :
  exists p,
    mirror_payload enc_str dec_str (fun _ => "") demo_iso (fun _ => None) elements (merge_op 1 1 2) demo_undo = Ok p /\
    apply_mirror_payload dec_str (fun _ => "") demo_uniso (fun _ => None) p 1 (dt_utc 9) =
      Ok (apply_mirror_targets demo_targets 1 (u_applied_at demo_undo) []).
Proof.
  apply (payload_replays_mirror enc_str dec_str (fun _ => "") demo_iso demo_uniso (fun _ => None) elements demo_texts).
  - vm_compute. reflexivity.
  - vm_compute. reflexivity.
  - constructor.
Defined.

Lemma mirror_replay_absorbs_witness :
  let calls := apply_mirror_targets demo_targets 1 (dt_utc 7) [] in
  run_calls calls (run_calls (take 1 calls) demo_store) = run_calls calls demo_store.
Proof.
  apply (mirror_replay_absorbs demo_targets 1 (dt_utc 7) [] 1 demo_store). split_and!; repeat constructor;
    intros H; by apply not_elem_of_nil in H.
Defined.
