(* ===== verification/UnionFind.v ===== *)
(** The merge groups of entity unification as a union-find structure: the [find] and [union]
    closures of [_find_merge_groups] ([extraction/expansion/cross_tool_unifier.py]), a map
    from each id to its parent whose paths [find] compresses.

    [find] recurses once per step of the path: its fuel is the depth the interpreter
    allows, and running out of it is Python's [RecursionError]. *)
From S2P Require Import Prelude.

Module UnionFind.

Definition KeyErr : pyexn := KeyError.
Definition RecursionError : pyexn := OtherError "RecursionError".

Abbreviation parents := (gmap Z Z).

(** [{e.id: e.id for e in entities}] *)
Definition singletons (ids : list Z) : parents := list_to_map ((fun i => (i, i)) <$> ids).

Fixpoint find (depth : nat) (parent : parents) (x : Z) : result (Z * parents) :=
  match depth with
  | O => Err RecursionError
  | S depth =>
      match parent !! x with
      | None => Err KeyErr
      | Some p =>
          if decide (p = x) then Ok (x, parent)
          else match find depth parent p with
               | Ok (r, parent) => Ok (r, <[x := r]> parent)
               | Err e => Err e
               end
      end
  end.

Definition union (depth : nat) (parent : parents) (x y : Z) : result parents :=
  match find depth parent x with
  | Err e => Err e
  | Ok (px, parent) =>
      match find depth parent y with
      | Err e => Err e
      | Ok (py, parent) => Ok (if decide (px = py) then parent else <[px := py]> parent)
      end
  end.

Fixpoint unions (depth : nat) (parent : parents) (pairs : list (Z * Z)) : result parents :=
  match pairs with
  | [] => Ok parent
  | (x, y) :: pairs =>
      match union depth parent x y with Ok parent => unions depth parent pairs | Err e => Err e end
  end.

(** [groups.setdefault(root, set()).add(x)], on a dict that keeps its order. *)
Fixpoint add_to_group (root x : Z) (groups : list (Z * list Z)) : list (Z * list Z) :=
  match groups with
  | [] => [(root, [x])]
  | (r, g) :: groups =>
      if decide (r = root) then (r, if decide (x ∈ g) then g else g ++ [x]) :: groups
      else (r, g) :: add_to_group root x groups
  end.

Fixpoint build_groups (depth : nat) (parent : parents) (ids : list Z) (groups : list (Z * list Z))
  : result (list (Z * list Z)) :=
  match ids with
  | [] => Ok groups
  | x :: ids =>
      match find depth parent x with
      | Ok (r, parent) => build_groups depth parent ids (add_to_group r x groups)
      | Err e => Err e
      end
  end.

(** The groups of more than one id that the matched pairs give. *)
Definition merge_groups (depth : nat) (ids : list Z) (pairs : list (Z * Z)) : result (list (list Z)) :=
  match unions depth (singletons ids) pairs with
  | Err e => Err e
  | Ok parent =>
      match build_groups depth parent ids [] with
      | Ok groups => Ok (List.filter (fun g => Nat.ltb 1 (length g)) (groups.*2))
      | Err e => Err e
      end
  end.

(** ** Paths to the root *)

Inductive path (p : parents) : Z -> nat -> Z -> Prop :=
| path_root r : p !! r = Some r -> path p r 0 r
| path_step x y k r : p !! x = Some y -> y <> x -> path p y k r -> path p x (S k) r.

Definition root (p : parents) (x r : Z) : Prop := exists k, path p x k r.

(** Every path ends. *)
Definition forest (p : parents) : Prop := forall x, is_Some (p !! x) -> exists r, root p x r.

Lemma path_det p x k r : path p x k r -> forall k' r', path p x k' r' -> k = k' /\ r = r'.
Proof.
  induction 1 as [r Hr|x y k r Hx Hne Hp IH]; intros k' r' H'; inversion H'; subst; simplify_eq; [done|].
  match goal with H : path p _ _ r' |- _ => apply IH in H as [-> ->] end. done.
Qed.

Lemma root_det p x r r' : root p x r -> root p x r' -> r = r'.
Proof. intros [k Hk] [k' Hk']. by apply (path_det p x k r Hk) in Hk' as [_ ->]. Qed.

Lemma path_end p x k r : path p x k r -> p !! r = Some r.
Proof. by induction 1. Qed.

Lemma root_end p x r : root p x r -> root p r r.
Proof. intros [k Hk]. exists 0. constructor. by eapply path_end. Qed.

Lemma root_dom p x r : root p x r -> is_Some (p !! x).
Proof. intros [k Hk]. inversion Hk; by eexists. Qed.

(** A path visits distinct ids of the map. *)
Lemma path_visits p x k r : path p x k r ->
  exists l, length l = S k /\ NoDup l /\ forall y, y ∈ l -> is_Some (p !! y) /\ exists j, j <= k /\ path p y j r.
Proof.
  induction 1 as [r Hr|x y k r Hx Hne Hp (l & Hl & Hnd & Hin)].
  - exists [r]. split_and!; [done|by apply NoDup_singleton|]. intros y ->%list_elem_of_singleton.
    split; [by eexists|]. exists 0. split; [lia|by constructor].
  - exists (x :: l). cbn. split_and!; [by rewrite Hl| |].
    + apply NoDup_cons. split; [|done]. intros Hx'. destruct (Hin x Hx') as (_ & j & Hj & Hpj).
      destruct (path_det p x j r Hpj (S k) r) as [? _]; [by econstructor|]. lia.
    + intros z [->|Hz]%elem_of_cons.
      * split; [by eexists|]. exists (S k). split; [lia|by econstructor].
      * destruct (Hin z Hz) as (Hs & j & Hj & Hpj). split; [done|]. exists j. split; [lia|done].
Qed.

Lemma path_bound p x k r : path p x k r -> k < size p.
Proof.
  intros (l & Hl & Hnd & Hin)%path_visits. rewrite <- (size_dom p).
  assert (Hsub : (list_to_set l : gset Z) ⊆ dom p).
  { intros y Hy%elem_of_list_to_set. apply elem_of_dom. by apply Hin. }
  apply subseteq_size in Hsub. rewrite size_list_to_set in Hsub by done. rewrite Hl in Hsub. exact Hsub.
Qed.

Lemma root_step p x y r : p !! x = Some y -> y <> x -> root p y r -> root p x r.
Proof. intros Hx Hne [k Hk]. exists (S k). by econstructor. Qed.

Lemma root_self p r : p !! r = Some r -> root p r r.
Proof. intros H. exists 0. by constructor. Qed.

(** ** Compressing a path and linking two roots *)

(** Pointing an id at its root changes no root. *)
Lemma root_compress p x r : root p x r -> forall z s, root (<[x := r]> p) z s <-> root p z s.
Proof.
  intros Hx z s. pose proof (root_end p x r Hx) as Hr. split.
  - intros [k Hk]. induction Hk as [s Hs|z y k s Hz Hne _ IH].
    + destruct (decide (s = x)) as [->|Hne].
      * rewrite lookup_insert_eq in Hs. simplify_eq. done.
      * rewrite lookup_insert_ne in Hs by done. by apply root_self.
    + destruct (decide (z = x)) as [->|Hzx].
      * rewrite lookup_insert_eq in Hz. simplify_eq. by rewrite (root_det p y s y IH Hr).
      * rewrite lookup_insert_ne in Hz by done. by eapply root_step.
  - intros [k Hk]. destruct Hr as [j Hr]. apply path_end in Hr.
    induction Hk as [s Hs|z y k s Hz Hne Hy IH].
    + apply root_self. destruct (decide (s = x)) as [->|Hsx].
      * rewrite lookup_insert_eq. f_equal. eapply root_det; [done|]. by apply root_self.
      * by rewrite lookup_insert_ne.
    + destruct (decide (z = x)) as [->|Hzx].
      * assert (s = r) as -> by (eapply root_det; [eapply root_step; [done..|]; by exists k|done]).
        assert (r <> x) by congruence.
        apply (root_step _ _ r); [by rewrite lookup_insert_eq|done|].
        apply root_self. by rewrite lookup_insert_ne.
      * eapply root_step; [by rewrite lookup_insert_ne|done..].
Qed.

(** Pointing one root at another moves the members of the first under the second. *)
Lemma root_link p a b : p !! a = Some a -> p !! b = Some b -> a <> b ->
  forall z s, root (<[a := b]> p) z s <-> (root p z a /\ s = b) \/ (root p z s /\ s <> a).
Proof.
  intros Ha Hb Hab z s. split.
  - intros [k Hk]. induction Hk as [s Hs|z y k s Hz Hne _ IH].
    + destruct (decide (s = a)) as [->|Hsa]; [rewrite lookup_insert_eq in Hs; simplify_eq|].
      rewrite lookup_insert_ne in Hs by done. right. split; [by apply root_self|done].
    + destruct (decide (z = a)) as [->|Hza].
      * rewrite lookup_insert_eq in Hz. simplify_eq. left. split; [by apply root_self|].
        destruct IH as [[_ ->]|[H _]]; [done|]. eapply root_det; [done|by apply root_self].
      * rewrite lookup_insert_ne in Hz by done.
        destruct IH as [[H ->]|[H Hs]]; [left|right]; (split; [by eapply root_step|done]).
  - assert (Hb' : <[a := b]> p !! b = Some b) by by rewrite lookup_insert_ne.
    intros [[[k Hk] ->]|[[k Hk] Hs]].
    + remember a as t eqn:Et in Hk. induction Hk as [r Hr|z y k r Hz Hne _ IH]; subst r.
      * apply (root_step _ _ b); [by rewrite lookup_insert_eq|done|by apply root_self].
      * apply (root_step _ _ y); [|done|by apply IH]. rewrite lookup_insert_ne; [done|congruence].
    + induction Hk as [s Hr|z y k s Hz Hne _ IH].
      * apply root_self. by rewrite lookup_insert_ne.
      * apply (root_step _ _ y); [|done|by apply IH]. rewrite lookup_insert_ne; [done|congruence].
Qed.

(** Two maps with the same ids and the same roots. *)
Definition same_roots (p p' : parents) : Prop := dom p = dom p' /\ forall z s, root p z s <-> root p' z s.

#[export] Instance same_roots_equivalence : Equivalence same_roots.
Proof.
  split.
  - done.
  - intros p p' [Hd H]. split; [done|]. intros z s. by rewrite H.
  - intros p p' p'' [Hd H] [Hd' H']. split; [congruence|]. intros z s. by rewrite H.
Qed.

#[export] Instance root_proper : Proper (same_roots ==> eq ==> eq ==> iff) root.
Proof. intros p p' [_ H] x _ <- r _ <-. apply H. Qed.

#[export] Instance forest_proper : Proper (same_roots ==> iff) forest.
Proof.
  intros p p' [Hd H]. unfold forest. setoid_rewrite <- elem_of_dom. rewrite Hd.
  by setoid_rewrite H.
Qed.

(** ** [find] and [union] *)

Lemma find_path p x k r : path p x k r -> forall depth, k < depth ->
  exists p', find depth p x = Ok (r, p') /\ same_roots p p'.
Proof.
  induction 1 as [r Hr|x y k r Hx Hne Hp IH]; intros [|depth] Hd; [lia| |lia|]; cbn.
  - rewrite Hr, decide_True by done. by exists p.
  - rewrite Hx, decide_False by done. destruct (IH depth) as (p' & -> & Hs); [lia|].
    exists (<[x := r]> p'). split; [done|]. rewrite Hs. destruct Hs as [Hdom Hs].
    assert (Hxr : root p' x r) by (apply Hs; eapply root_step; [done..|by exists k]).
    split.
    + rewrite dom_insert_L. apply root_dom, elem_of_dom in Hxr. set_solver.
    + intros z s. symmetry. by apply root_compress.
Qed.

(** One frame short of the path, the recursion is cut. *)
Lemma find_too_deep p x k r : path p x k r -> forall depth, depth <= k -> find depth p x = Err RecursionError.
Proof.
  induction 1 as [r Hr|x y k r Hx Hne Hp IH]; intros [|depth] Hd; [done|lia|done|]; cbn.
  rewrite Hx, decide_False by done. rewrite IH by lia. done.
Qed.

Lemma find_root p x r depth : root p x r -> size p <= depth ->
  exists p', find depth p x = Ok (r, p') /\ same_roots p p'.
Proof. intros [k Hk] Hd. pose proof (path_bound p x k r Hk). apply (find_path p x k r Hk). lia. Qed.

Lemma find_self p x depth : p !! x = Some x -> 0 < depth -> find depth p x = Ok (x, p).
Proof. intros Hx Hd. destruct depth as [|depth]; [lia|]. cbn. by rewrite Hx, decide_True. Qed.

Lemma union_roots p x y a b depth : root p x a -> root p y b -> size p <= depth ->
  exists p', union depth p x y = Ok p' /\ dom p = dom p' /\
    forall z s, root p' z s <-> (root p z a /\ s = b) \/ (root p z s /\ s <> a).
Proof.
  intros Hx Hy Hd. unfold union. destruct (find_root p x a depth Hx Hd) as (p1 & -> & H1).
  rewrite H1 in Hy. assert (Hd1 : size p1 <= depth) by (rewrite <- size_dom, <- (proj1 H1), size_dom; done).
  destruct (find_root p1 y b depth Hy Hd1) as (p2 & -> & H2). rewrite H2 in Hy, H1. rewrite H1 in Hx.
  destruct (decide (a = b)) as [->|Hab].
  - exists p2. split_and!; [done|apply H1|]. intros z s. setoid_rewrite H1. split.
    + intros H. destruct (decide (s = b)) as [->|]; auto.
    + intros [[H ->]|[H _]]; done.
  - exists (<[a := b]> p2). split_and!; [done| |].
    + rewrite dom_insert_L, (proj1 H1). apply root_end, root_dom, elem_of_dom in Hx. set_solver.
    + intros z s. setoid_rewrite H1. apply root_end in Hx as [j Hx], Hy as [j' Hy].
      apply path_end in Hx, Hy. by apply root_link.
Qed.

(** ** The equivalence that a list of matched pairs generates *)

Definition joined (pairs : list (Z * Z)) : relation Z := rtsc (fun x y => (x, y) ∈ pairs).

#[export] Instance joined_equivalence pairs : Equivalence (joined pairs).
Proof. apply rtsc_equivalence. Qed.

Lemma joined_weaken pairs pairs' x y : pairs ⊆ pairs' -> joined pairs x y -> joined pairs' x y.
Proof. intros Hsub. apply (rtsc_congruence id). intros. by apply Hsub. Qed.

Lemma joined_pair pairs x y : (x, y) ∈ pairs -> joined pairs x y.
Proof. intros H. apply rtc_once. by left. Qed.

Lemma joined_nil x y : joined [] x y <-> x = y.
Proof.
  split; [|by intros ->]. intros H. destruct H as [|x y z [H|H] _]; [done|by apply elem_of_nil in H..].
Qed.

(** One more pair joins two classes. *)
Lemma joined_snoc pairs a b x y :
  joined (pairs ++ [(a, b)]) x y <->
  joined pairs x y \/ (joined pairs x a /\ joined pairs b y) \/ (joined pairs x b /\ joined pairs a y).
Proof.
  assert (Hsub : pairs ⊆ pairs ++ [(a, b)]) by set_solver.
  assert (Hab : joined (pairs ++ [(a, b)]) a b) by (apply joined_pair; set_solver).
  split.
  - intros H. induction H as [x|x y z Hxy Hyz IH]; [left; reflexivity|].
    assert (Hs : joined pairs x y \/ (x = a /\ y = b) \/ (x = b /\ y = a)).
    { destruct Hxy as [H|H]; apply elem_of_app in H as [H|H%list_elem_of_singleton].
      - left. by apply joined_pair.
      - simplify_eq. auto.
      - left. symmetry. by apply joined_pair.
      - simplify_eq. auto. }
    destruct Hs as [Hs|[[-> ->]|[-> ->]]].
    + rewrite Hs. exact IH.
    + destruct IH as [H|[[_ H]|[_ H]]]; [right; left|right; left|left]; [by split..|done].
    + destruct IH as [H|[[_ H]|[_ H]]]; [right; right|left|right; right]; [by split|done|by split].
  - intros [H|[[H%(joined_weaken _ _ _ _ Hsub) H'%(joined_weaken _ _ _ _ Hsub)]|
               [H%(joined_weaken _ _ _ _ Hsub) H'%(joined_weaken _ _ _ _ Hsub)]]].
    + by eapply joined_weaken.
    + by transitivity a; [|transitivity b].
    + transitivity b; [done|]. transitivity a; [by symmetry|done].
Qed.

Lemma joined_dom pairs (ids : gset Z) x y :
  (forall a b, (a, b) ∈ pairs -> a ∈ ids /\ b ∈ ids) -> joined pairs x y -> x ∈ ids -> y ∈ ids.
Proof. intros Hp. induction 1 as [|x y z [H|H] _ IH]; intros Hx; [done|apply IH; by apply Hp in H as []..]. Qed.

(** The classes of a map of parents are those of the pairs processed so far. *)
Record classes (p : parents) (ids : gset Z) (pairs : list (Z * Z)) : Prop := {
  classes_dom : dom p = ids;
  classes_forest : forest p;
  classes_joined : forall x y, x ∈ ids -> (exists r, root p x r /\ root p y r) <-> joined pairs x y;
}.

Lemma singletons_lookup ids x y : singletons ids !! x = Some y <-> x = y /\ x ∈ ids.
Proof.
  unfold singletons. induction ids as [|i ids IH]; cbn.
  - rewrite lookup_empty. set_solver.
  - destruct (decide (i = x)) as [->|Hne].
    + rewrite lookup_insert_eq. split; [|set_solver]. intros H. simplify_eq. set_solver.
    + rewrite lookup_insert_ne, IH by done. set_solver.
Qed.

Lemma singletons_root ids x r : root (singletons ids) x r <-> x = r /\ x ∈ ids.
Proof.
  split.
  - intros [k Hk]. inversion Hk as [? Hr|? y ? ? Hx Hne Hp]; subst.
    + by apply singletons_lookup in Hr.
    + apply singletons_lookup in Hx as [-> _]. done.
  - intros [-> Hr]. apply root_self. by apply singletons_lookup.
Qed.

Lemma singletons_classes ids : classes (singletons ids) (list_to_set ids) [].
Proof.
  assert (Hd : dom (singletons ids) = (list_to_set ids : gset Z)).
  { apply set_eq. intros x. rewrite elem_of_dom, elem_of_list_to_set. split.
    - intros [y Hy]. apply singletons_lookup in Hy. by destruct Hy.
    - intros H. exists x. by apply singletons_lookup. }
  split; [done| |].
  - intros x Hx%elem_of_dom. rewrite Hd, elem_of_list_to_set in Hx. exists x. by apply singletons_root.
  - intros x y Hx%elem_of_list_to_set. rewrite joined_nil. setoid_rewrite singletons_root.
    split; [naive_solver|]. intros <-. by exists x.
Qed.

Lemma union_classes p ids pairs a b depth : classes p ids pairs -> a ∈ ids -> b ∈ ids -> size ids <= depth ->
  exists p', union depth p a b = Ok p' /\ classes p' ids (pairs ++ [(a, b)]).
Proof.
  intros [Hd Hf Hj] Ha Hb Hs.
  assert (Hroot : forall x, x ∈ ids -> exists r, root p x r) by (intros x Hx; apply Hf, elem_of_dom; by rewrite Hd).
  destruct (Hroot a Ha) as [ra Hra], (Hroot b Hb) as [rb Hrb].
  destruct (union_roots p a b ra rb depth Hra Hrb) as (p' & -> & Hd' & Hr); [by rewrite <- size_dom, Hd|].
  exists p'. split; [done|]. split; [congruence| |].
  - intros x Hx%elem_of_dom. rewrite <- Hd', Hd in Hx. destruct (Hroot x Hx) as [r Hxr].
    destruct (decide (r = ra)) as [->|Hne]; [exists rb|exists r]; apply Hr; auto.
  - intros x y Hx. rewrite joined_snoc, <- !Hj by done. setoid_rewrite Hr. split.
    + intros (r & [[H1 ->]|[H1 Hne]] & [[H2 E]|[H2 Hne']]).
      * left. by exists ra.
      * right. left. split; [by exists ra|by exists rb].
      * subst r. right. right. split; [by exists rb|by exists ra].
      * left. by exists r.
    + intros [(r & H1 & H2)|[[(r & H1 & H2) (r' & H3 & H4)]|[(r & H1 & H2) (r' & H3 & H4)]]].
      * destruct (decide (r = ra)) as [->|Hne]; [exists rb|exists r]; auto.
      * rewrite (root_det p a r ra H2 Hra) in *. rewrite (root_det p b r' rb H3 Hrb) in *.
        exists rb. split; [auto|]. destruct (decide (rb = ra)) as [->|]; auto.
      * rewrite (root_det p b r rb H2 Hrb) in *. rewrite (root_det p a r' ra H3 Hra) in *.
        exists rb. split; [destruct (decide (rb = ra)) as [->|]; auto|auto].
Qed.

Lemma unions_classes depth ids pairs done p : classes p ids done -> size ids <= depth ->
  (forall a b, (a, b) ∈ pairs -> a ∈ ids /\ b ∈ ids) ->
  exists p', unions depth p pairs = Ok p' /\ classes p' ids (done ++ pairs).
Proof.
  intros Hc Hs. revert done p Hc. induction pairs as [|[a b] pairs IH]; intros done p Hc Hp; cbn.
  - exists p. by rewrite app_nil_r.
  - destruct (Hp a b) as [Ha Hb]; [left|].
    destruct (union_classes p ids done a b depth Hc Ha Hb Hs) as (p' & -> & Hc').
    rewrite (assoc_L app done [(a, b)] pairs : done ++ (a, b) :: pairs = _).
    apply IH; [done|]. intros x y H. apply Hp. by right.
Qed.

(** ** Reading the groups off the roots *)

Lemma add_to_group_keys r x groups :
  (add_to_group r x groups).*1 = if decide (r ∈ groups.*1) then groups.*1 else groups.*1 ++ [r].
Proof.
  induction groups as [|[r' g] groups IH]; [done|]. cbn [add_to_group].
  destruct (decide (r' = r)) as [->|Hne]; csimpl.
  - rewrite decide_True by left. done.
  - rewrite IH. destruct (decide (r ∈ groups.*1)) as [H|H].
    + by rewrite decide_True by (by right).
    + rewrite decide_False; [done|]. intros [->|?]%elem_of_cons; done.
Qed.

Lemma elem_of_add_to_group r x groups r' g' : NoDup groups.*1 -> (r', g') ∈ add_to_group r x groups ->
  (r' <> r /\ (r', g') ∈ groups) \/
  (r' = r /\ exists g, (r, g) ∈ groups /\ g' = if decide (x ∈ g) then g else g ++ [x]) \/
  (r' = r /\ (r ∉ groups.*1) /\ g' = [x]).
Proof.
  induction groups as [|[r0 g0] groups IH]; cbn [add_to_group]; csimpl.
  - intros _ [=-> ->]%list_elem_of_singleton. right; right. split_and!; [done|apply not_elem_of_nil|done].
  - intros [Hr0 Hnd]%NoDup_cons. destruct (decide (r0 = r)) as [->|Hne].
    + intros [[=-> ->]|H]%elem_of_cons.
      * right; left. split; [done|]. exists g0. split; [left|done].
      * left. split; [|by right]. intros ->. apply Hr0. by apply (list_elem_of_fmap_2 fst) in H.
    + intros [[=-> ->]|H]%elem_of_cons; [left; split; [done|left]|].
      destruct (IH Hnd H) as [[H1 H2]|[(H1 & g & H2 & H3)|(H1 & H2 & H3)]].
      * left. split; [done|by right].
      * right; left. split; [done|]. exists g. split; [by right|done].
      * right; right. split_and!; [done| |done]. intros [->|?]%elem_of_cons; done.
Qed.

Record grouped (p : parents) (seen : list Z) (groups : list (Z * list Z)) : Prop := {
  grouped_keys : NoDup groups.*1;
  grouped_members r g : (r, g) ∈ groups -> NoDup g /\ forall x, x ∈ g <-> x ∈ seen /\ root p x r;
  grouped_all x r : x ∈ seen -> root p x r -> r ∈ groups.*1;
}.

Lemma grouped_proper p p' seen groups : same_roots p p' -> grouped p seen groups -> grouped p' seen groups.
Proof.
  intros Hs [H1 H2 H3]. split; [done| |].
  - intros r g Hg. destruct (H2 r g Hg) as [Hn Hm]. split; [done|]. intros x. by rewrite <- Hs.
  - intros x r. rewrite <- Hs. apply H3.
Qed.

Lemma add_to_group_grouped p seen groups r x : grouped p seen groups -> root p x r ->
  grouped p (seen ++ [x]) (add_to_group r x groups).
Proof.
  intros [Hk Hm Ha] Hx. split.
  - rewrite add_to_group_keys. case_decide as Hr; [done|]. apply NoDup_app.
    split_and!; [done| |apply NoDup_singleton]. set_solver.
  - intros r' g' [[Hne Hg]|[(-> & g & Hg & ->)|(-> & Hr & ->)]]%elem_of_add_to_group; [..|done].
    + destruct (Hm r' g' Hg) as [Hnd Hmem]. split; [done|]. intros y. rewrite Hmem, elem_of_app, list_elem_of_singleton.
      split; [naive_solver|]. intros [[Hy| ->] Hr]; [done|]. by pose proof (root_det p x _ _ Hr Hx).
    + destruct (Hm r g Hg) as [Hnd Hmem]. case_decide as Hxg.
      * split; [done|]. intros y. rewrite Hmem, elem_of_app, list_elem_of_singleton.
        apply Hmem in Hxg. naive_solver.
      * split.
        { apply NoDup_app. split_and!; [done| |apply NoDup_singleton]. set_solver. }
        intros y. rewrite !elem_of_app, Hmem, !list_elem_of_singleton. naive_solver.
    + split; [apply NoDup_singleton|]. intros y. rewrite list_elem_of_singleton, elem_of_app, list_elem_of_singleton.
      split; [naive_solver|]. intros [[Hy| ->] Hy']; [|done]. destruct Hr. by eapply Ha.
  - intros y r' Hy Hr'. rewrite add_to_group_keys.
    assert (H : r' ∈ groups.*1 \/ r' = r).
    { apply elem_of_app in Hy as [Hy| ->%list_elem_of_singleton]; [left; by eapply Ha|right].
      by eapply root_det. }
    case_decide; set_solver.
Qed.

Lemma build_groups_grouped depth ids : forall p seen groups, forest p -> size p <= depth ->
  (forall x, x ∈ ids -> is_Some (p !! x)) -> grouped p seen groups ->
  exists groups', build_groups depth p ids groups = Ok groups' /\ grouped p (seen ++ ids) groups'.
Proof.
  induction ids as [|x ids IH]; intros p seen groups Hf Hd Hids Hg; cbn.
  - exists groups. by rewrite app_nil_r.
  - destruct (Hf x) as [r Hr]; [apply Hids; left|].
    destruct (find_root p x r depth Hr Hd) as (p' & -> & Hs).
    destruct (IH p' (seen ++ [x]) (add_to_group r x groups)) as (groups' & -> & Hg').
    + by rewrite <- Hs.
    + by rewrite <- size_dom, <- (proj1 Hs), size_dom.
    + intros y Hy. apply elem_of_dom. rewrite <- (proj1 Hs). apply elem_of_dom, Hids. by right.
    + eapply grouped_proper; [done|]. by apply add_to_group_grouped.
    + exists groups'. split; [done|]. rewrite <- (assoc_L app) in Hg'. by eapply grouped_proper.
Qed.

(** The groups of two ids and more are pairwise disjoint. *)
Lemma grouped_disjoint p seen groups : grouped p seen groups -> NoDup (List.concat groups.*2).
Proof.
  intros [Hk Hm _]. induction groups as [|[r g] groups IH]; csimpl; [apply NoDup_nil_2|].
  csimpl in Hk. apply NoDup_cons in Hk as [Hr Hk]. apply NoDup_app. split_and!.
  - apply (Hm r g). left.
  - intros x Hx Hx'. apply (Hm r g) in Hx as [_ Hx]; [|left].
    apply list_elem_of_In, in_concat in Hx' as (g' & Hg'%list_elem_of_In & Hx'%list_elem_of_In).
    apply list_elem_of_fmap in Hg' as ([r' g''] & -> & Hg'). cbn in Hx'.
    apply (Hm r' g'') in Hx' as [_ Hx']; [|by right]. rewrite (root_det p x r r' Hx Hx') in Hr.
    destruct Hr. by apply (list_elem_of_fmap_2 fst) in Hg'.
  - apply IH; [done|]. intros r' g' H. apply Hm. by right.
Qed.

Lemma concat_filter_sublist {A} (f : list A -> bool) ls :
  List.concat (List.filter f ls) `sublist_of` List.concat ls.
Proof.
  induction ls as [|l ls IH]; cbn; [done|]. destruct (f l); cbn.
  - by apply sublist_app.
  - by apply sublist_inserts_l.
Qed.

Lemma size_list_to_set_le (l : list Z) : size (list_to_set l : gset Z) <= length l.
Proof.
  induction l as [|x l IH]; cbn; [by rewrite size_empty|].
  rewrite size_union_alt, size_singleton.
  pose proof (subseteq_size ((list_to_set l : gset Z) ∖ {[x]}) (list_to_set l)) as H.
  assert (size ((list_to_set l : gset Z) ∖ {[x]}) <= size (list_to_set l : gset Z)) by (apply H; set_solver). lia.
Qed.

Lemma two_members {A} (l : list A) x y : x <> y -> x ∈ l -> y ∈ l -> 1 < length l.
Proof.
  intros Hne Hx Hy. destruct l as [|a [|b l]]; [set_solver| |cbn; lia].
  apply list_elem_of_singleton in Hx, Hy. congruence.
Qed.

(** The groups of a list of ids and of its matched pairs: the classes, with two members and
    more, of the equivalence that the pairs generate. *)
Record groups_of (ids : list Z) (pairs : list (Z * Z)) (groups : list (list Z)) : Prop := {
  groups_disjoint : NoDup (List.concat groups);
  groups_large g : g ∈ groups -> 1 < length g;
  groups_class g x : g ∈ groups -> x ∈ g -> x ∈ ids /\ forall y, y ∈ g <-> joined pairs x y;
  groups_all x y : x ∈ ids -> x <> y -> joined pairs x y -> exists g, g ∈ groups /\ x ∈ g /\ y ∈ g;
}.

Definition large (groups : list (Z * list Z)) : list (list Z) :=
  List.filter (fun g => Nat.ltb 1 (length g)) groups.*2.

Lemma classes_groups depth ids pairs p : classes p (list_to_set ids) pairs -> length ids <= depth ->
  exists groups, build_groups depth p ids [] = Ok groups /\ groups_of ids pairs (large groups).
Proof.
  intros [Hd Hf Hj] Hlen. pose proof (size_list_to_set_le ids) as Hsize.
  assert (Hids : forall x, x ∈ ids <-> is_Some (p !! x)).
  { intros x. by rewrite <- elem_of_dom, Hd, elem_of_list_to_set. }
  assert (HjS : forall x y, x ∈ ids -> (exists r, root p x r /\ root p y r) <-> joined pairs x y).
  { intros x y Hx. apply Hj. by rewrite elem_of_list_to_set. }
  destruct (build_groups_grouped depth ids p [] [] Hf) as (groups & -> & Hg).
  { rewrite <- size_dom, Hd. lia. }
  { intros x. apply Hids. }
  { split; [apply NoDup_nil_2|set_solver..]. }
  cbn in Hg. exists groups. split; [done|]. unfold large. split.
  - eapply sublist_NoDup; [by eapply grouped_disjoint|apply concat_filter_sublist].
  - intros g Hgg. by apply list_elem_of_In, filter_In in Hgg as [_ Hl%Nat.ltb_lt].
  - intros g x Hgg Hx. apply list_elem_of_In, filter_In in Hgg as [Hgg%list_elem_of_In _].
    apply list_elem_of_fmap in Hgg as ([r g'] & -> & Hgg). cbn in *.
    destruct (grouped_members _ _ _ Hg r g' Hgg) as [_ Hm]. apply Hm in Hx as [Hx Hr].
    split; [done|]. intros y. rewrite Hm, <- HjS by done. split.
    + intros [_ Hy]. by exists r.
    + intros (r' & H1 & H2). rewrite (root_det p x r' r H1 Hr) in H2. split; [|done].
      apply Hids. by eapply root_dom.
  - intros x y Hx Hne Hxy. apply HjS in Hxy as (r & Hxr & Hyr); [|done].
    assert (Hy : y ∈ ids) by (apply Hids; by eapply root_dom).
    pose proof (grouped_all _ _ _ Hg x r Hx Hxr) as Hr.
    apply list_elem_of_fmap in Hr as ([r' g] & -> & Hgg). cbn in *.
    destruct (grouped_members _ _ _ Hg r' g Hgg) as [Hnd Hm]. exists g.
    assert (Hxg : x ∈ g) by by apply Hm. assert (Hyg : y ∈ g) by by apply Hm.
    split_and!; [|done..]. apply list_elem_of_In, filter_In. split.
    + apply list_elem_of_In. by apply (list_elem_of_fmap_2 snd) in Hgg.
    + apply (proj2 (Nat.ltb_lt 1 (length g))). by eapply two_members.
Qed.

(** With a frame per id, the groups are the classes of two members and more. *)
Lemma merge_groups_classes depth ids pairs : length ids <= depth ->
  (forall a b, (a, b) ∈ pairs -> a ∈ ids /\ b ∈ ids) ->
  exists groups, merge_groups depth ids pairs = Ok groups /\ groups_of ids pairs groups.
Proof.
  intros Hlen Hp. unfold merge_groups. pose proof (size_list_to_set_le ids).
  destruct (unions_classes depth (list_to_set ids) pairs [] (singletons ids)) as (p & -> & Hc).
  - apply singletons_classes.
  - lia.
  - intros a b Hab. rewrite !elem_of_list_to_set. by apply Hp.
  - destruct (classes_groups depth ids pairs p Hc Hlen) as (groups & -> & Hg). by exists (large groups).
Qed.

(** ** How deep the paths get *)

Lemma path_link p z k a b : path p z k a -> p !! b = Some b -> a <> b -> path (<[a := b]> p) z (S k) b.
Proof.
  intros H Hb Hab. assert (Hb' : <[a := b]> p !! b = Some b) by by rewrite lookup_insert_ne.
  remember a as t eqn:Et in H. induction H as [r Hr|x y k r Hx Hne Hp IH]; subst r.
  - apply (path_step _ _ b); [by rewrite lookup_insert_eq|done|by constructor].
  - apply path_end in Hp. apply (path_step _ _ y); [|done|by apply IH].
    rewrite lookup_insert_ne; [done|congruence].
Qed.

(** A path does not see an id that nothing points to. *)
Lemma path_off p a b z k r : (forall y, p !! y <> Some a) -> z <> a -> path p z k r -> path (<[a := b]> p) z k r.
Proof.
  intros Ha Hz Hp. induction Hp as [r Hr|x y k r Hx Hne _ IH].
  - constructor. by rewrite lookup_insert_ne.
  - apply (path_step _ _ y); [by rewrite lookup_insert_ne|done|]. apply IH. intros ->. by apply Ha in Hx.
Qed.

(** The pairs of exact-name matching: the first entity of a name with each later one. *)
Definition star (first : Z) (rest : list Z) : list (Z * Z) := (fun e => (first, e)) <$> rest.

(** While a star is joined, its second id ends a path that each union lengthens, and the
    first one stays near the root. *)
Record chained (p : parents) (first second : Z) (k : nat) (top : Z) (rest : list Z) : Prop := {
  chained_path : path p second k top;
  chained_first : exists a, p !! first = Some a /\ a <> first /\ (a = top \/ a <> top /\ p !! a = Some top);
  chained_off y : p !! y <> Some first;
  chained_rest e : e ∈ rest -> p !! e = Some e;
  chained_nodup : NoDup (first :: second :: rest);
  chained_top : top <> first /\ top ∉ rest;
}.

Lemma chained_find p first second k top rest depth : chained p first second k top rest -> 2 < depth ->
  find depth p first = Ok (top, <[first := top]> p).
Proof.
  intros [Hp (a & Hf & Haf & Ha) Hoff Hrest Hnd [Htf Htr]] Hd. apply path_end in Hp.
  destruct depth as [|[|[|depth]]]; [lia..|]. cbn -[decide]. rewrite Hf, decide_False by done.
  destruct Ha as [->|[Hat Ha]].
  - rewrite Hp, decide_True by done. done.
  - rewrite Ha, decide_False, Hp, decide_True by congruence. by rewrite (insert_id p a top).
Qed.

Lemma chained_union p first second k top e rest depth : chained p first second k top (e :: rest) -> 2 < depth ->
  exists p', union depth p first e = Ok p' /\ chained p' first second (S k) e rest.
Proof.
  intros Hc Hd. unfold union. rewrite (chained_find _ _ _ _ _ _ _ Hc Hd).
  destruct Hc as [Hp (a & Hf & Haf & Ha) Hoff Hrest Hnd [Htf Htr]].
  apply NoDup_cons in Hnd as [H1 Hnd]. apply NoDup_cons in Hnd as [H2 Hnd]. apply NoDup_cons in Hnd as [H3 Hnd].
  assert (Hef : e <> first) by set_solver. assert (Het : e <> top) by set_solver.
  assert (He : <[first := top]> p !! e = Some e).
  { rewrite lookup_insert_ne by done. apply Hrest. left. }
  rewrite find_self, decide_False by (done || lia).
  eexists. split; [done|]. split.
  - apply path_link; [|done..]. apply path_off; [done|set_solver|done].
  - exists top. rewrite lookup_insert_ne, lookup_insert_eq by done. split_and!; [done..|]. right.
    split; [done|]. by rewrite lookup_insert_eq.
  - intros y Hy. destruct (decide (y = top)) as [->|Hyt]; [rewrite lookup_insert_eq in Hy; congruence|].
    rewrite lookup_insert_ne in Hy by done.
    destruct (decide (y = first)) as [->|Hyf]; [rewrite lookup_insert_eq in Hy; congruence|].
    rewrite lookup_insert_ne in Hy by done. by apply (Hoff y).
  - intros y Hy. rewrite !lookup_insert_ne by set_solver. apply Hrest. by right.
  - apply NoDup_cons. split; [set_solver|]. apply NoDup_cons. split; [set_solver|done].
  - done.
Qed.

Lemma chained_unions first second depth rest : forall p k top, chained p first second k top rest -> 2 < depth ->
  exists p' top', unions depth p (star first rest) = Ok p' /\ chained p' first second (k + length rest) top' [].
Proof.
  induction rest as [|e rest IH]; intros p k top Hc Hd; cbn.
  - exists p, top. by rewrite Nat.add_0_r.
  - destruct (chained_union _ _ _ _ _ _ _ _ Hc Hd) as (p' & -> & Hc').
    destruct (IH p' (S k) e Hc' Hd) as (p'' & top' & Hu & Hc''). exists p'', top'.
    split; [done|]. by rewrite Nat.add_succ_r.
Qed.

(** Joining a star makes a path as long as the star, which starts at its second id. *)
Lemma star_chained depth first second rest : NoDup (first :: second :: rest) -> 2 < depth ->
  exists p top, unions depth (singletons (first :: second :: rest)) (star first (second :: rest)) = Ok p /\
    chained p first second (length rest) top [].
Proof.
  intros Hnd Hd. set (p0 := singletons (first :: second :: rest)).
  assert (Hp0 : forall x, x ∈ first :: second :: rest -> p0 !! x = Some x) by (intros x Hx; by apply singletons_lookup).
  assert (Hne : first <> second) by (apply NoDup_cons in Hnd; set_solver).
  assert (Hu : union depth p0 first second = Ok (<[first := second]> p0)).
  { unfold union. rewrite !find_self, decide_False by (done || lia || (apply Hp0; set_solver)). done. }
  change (star first (second :: rest)) with ((first, second) :: star first rest). cbn [unions]. rewrite Hu.
  assert (Hc : chained (<[first := second]> p0) first second 0 second rest).
  { split.
    - constructor. rewrite lookup_insert_ne by done. apply Hp0. set_solver.
    - exists second. rewrite lookup_insert_eq. auto.
    - intros y Hy. destruct (decide (y = first)) as [->|Hyf]; [rewrite lookup_insert_eq in Hy; congruence|].
      rewrite lookup_insert_ne in Hy by done. apply singletons_lookup in Hy as [-> _]. done.
    - intros e He. rewrite lookup_insert_ne; [apply Hp0; set_solver|].
      intros ->. apply NoDup_cons in Hnd. set_solver.
    - done.
    - split; [done|]. apply NoDup_cons in Hnd as [_ Hnd]. by apply NoDup_cons in Hnd as [? _]. }
  destruct (chained_unions first second depth rest _ _ _ Hc Hd) as (p' & top & Hun & Hc'). by exists p', top.
Qed.

(** With fewer frames than the path has steps, nothing reaches the end of it from the second id. *)
Lemma chained_too_deep depth p first second k top rest : chained p first second k top rest -> depth <= k ->
  find depth (<[first := top]> p) second = Err RecursionError.
Proof.
  intros Hc Hd. apply (find_too_deep _ second k top); [|done]. apply path_off; [apply Hc| |apply Hc].
  pose proof (chained_nodup _ _ _ _ _ _ Hc) as [Hn _]%NoDup_cons. set_solver.
Qed.

(** Reading the groups then fails. *)
Lemma star_too_deep depth first rest : NoDup (first :: rest) -> 2 < depth < length rest ->
  merge_groups depth (first :: rest) (star first rest) = Err RecursionError.
Proof.
  intros Hnd [Hd Hlen]. destruct rest as [|second rest]; [cbn in Hlen; lia|]. unfold merge_groups.
  destruct (star_chained depth first second rest Hnd Hd) as (p & top & -> & Hc).
  cbn [build_groups]. rewrite (chained_find _ _ _ _ _ _ _ Hc Hd).
  rewrite (chained_too_deep _ _ _ _ _ _ _ Hc); [done|]. cbn in Hlen. lia.
Qed.
End UnionFind.
