(* ===== verification/Entities.v ===== *)
(** Entities and relationships of the knowledge graph ([core/models/entity.py]), the
    merging of one entity into another, and the string operations that name matching uses.

    Lower-casing, stripping, splitting at whitespace and the alphanumeric test read the
    Unicode tables of the interpreter: they are the class [TextOps]. *)
From S2P Require Import Prelude PyValue RankFusion.

Local Open Scope string_scope.
Local Open Scope list_scope.
Local Open Scope Z_scope.

Module Entities.

(** [s.lower()], [s.strip()], [s.strip(chars)], [s.split()], and the characters of [s] for
    which [isalnum] holds; [first_char] is [s[0]] of a string that is not empty, and
    [char_count] is [len(s)]. *)
Class TextOps := {
  lower : string -> string;
  strip : string -> string;
  strip_chars : string -> string -> string;
  split : string -> list string;
  keep_alnum : string -> string;
  first_char : string -> string;
  char_count : string -> Z;
}.

(** Python's truth of a value. *)
Definition truthy (v : value) : bool :=
  match v with
  | VNone => false
  | VBool b => b
  | VInt z => negb (Z.eqb z 0)
  | VFloat f => match f with FFin m _ => negb (Z.eqb m 0) | _ => true end
  | VStr s => negb (String.eqb s "")
  | VDate _ | VDateLit _ => true
  | VList l | VTuple l => negb (Nat.eqb (length l) 0)
  | VDict d => negb (Nat.eqb (length d) 0)
  end.

(** Whether [hash(v)] is defined. *)
Fixpoint hashable (v : value) : bool :=
  match v with
  | VList _ | VDict _ => false
  | VTuple l => forallb hashable l
  | _ => true
  end.

Record Entity := MkEntity {
  id : Z;
  namespace_id : Z;
  name : string;
  entity_type : string;
  description : string;
  attributes : list (string * value);
  source_document_ids : list Z;
  source_chunk_ids : list Z;
  mention_count : Z;
  embedding : option (list float);
  confidence : float;
  updated_at : Z;
}.

Record Relationship := MkRelationship {
  rel_id : Z;
  rel_namespace : Z;
  source_entity_id : Z;
  target_entity_id : Z;
  relationship_type : string;
  rel_description : string;
  rel_properties : list (string * value);
  rel_documents : list Z;
  rel_chunks : list Z;
  rel_confidence : float;
}.

(** [for x in new: if x not in l: l.append(x)] *)
Definition append_new (l new : list Z) : list Z :=
  foldl (fun l x => if decide (x ∈ l) then l else l ++ [x]) l new.

(** [for k, v in other.items(): if k not in d: d[k] = v] *)
Definition attrs_merge (d other : list (string * value)) : list (string * value) :=
  foldl (fun d '(k, v) => match dict_get k d with Some _ => d | None => d ++ [(k, v)] end) d other.

Definition merge_with (now : Z) (self other : Entity) : Entity :=
  MkEntity (id self) (namespace_id self) (name self) (entity_type self)
    (if String.eqb (description self) "" then description other else description self)
    (attrs_merge (attributes self) (attributes other))
    (append_new (source_document_ids self) (source_document_ids other))
    (append_new (source_chunk_ids self) (source_chunk_ids other))
    (mention_count self + mention_count other)
    (embedding self)
    (fmax (confidence self) (confidence other))
    now.

(** ** Lemmas *)

Lemma elem_of_append_new x l new : x ∈ append_new l new <-> x ∈ l \/ x ∈ new.
Proof.
  revert l. induction new as [|y new IH]; intros l; cbn; [set_solver|].
  change (foldl _ ?a new) with (append_new a new). rewrite IH. case_decide; set_solver.
Qed.

Lemma NoDup_append_new l new : NoDup l -> NoDup (append_new l new).
Proof.
  revert l. induction new as [|y new IH]; intros l Hl; cbn; [done|]. apply IH.
  case_decide; [done|]. apply NoDup_app. split_and!; [done|set_solver|apply NoDup_singleton].
Qed.

Lemma attrs_merge_get d other k :
  dict_get k (attrs_merge d other) = match dict_get k d with Some v => Some v | None => dict_get k other end.
Proof.
  revert d. induction other as [|[k' v'] other IH]; intros d; cbn; [by destruct (dict_get k d)|].
  change (foldl _ ?a other) with (attrs_merge a other). rewrite IH.
  assert (Hsnoc : forall d : list (string * value), dict_get k (d ++ [(k', v')]) =
            match dict_get k d with Some v => Some v | None => if String.eqb k k' then Some v' else None end).
  { clear. induction d as [|[k2 v2] d IH]; cbn; [done|]. by destruct (String.eqb k k2). }
  destruct (dict_get k' d) as [w|] eqn:Hk'.
  - destruct (dict_get k d) eqn:Hk; [done|]. destruct (String.eqb_spec k k') as [->|]; [congruence|done].
  - rewrite Hsnoc. destruct (dict_get k d); [done|]. by destruct (String.eqb k k').
Qed.
End Entities.
