(* ===== verification/EntityIndex.v ===== *)
(** The index of entities that resolution during ingestion uses
    ([extraction/expansion/entity_index.py]): exact lookup by normalised name and type, and
    candidates by shared name tokens; the name normalisation of [_accel.py].

    The index refers to entity objects that the caller may merge into: merging changes
    neither the id, the name, the type nor the embedding, which is all that the operations
    below read.  Sets are lists without duplicates, iterated in the order of [str_iter] and
    [id_iter]; the score of a pair of names or of vectors is an argument. *)
From Stdlib Require Import SpecFloat.
From S2P Require Import Prelude PyValue PyText RankFusion Entities.

Local Open Scope string_scope.
Local Open Scope list_scope.
Local Open Scope Z_scope.

Module EntityIndex.
Import Entities.Entities.

(** ** Names *)

Section names.
Context `{TextOps}.

Definition _HONORIFICS : list string :=
  ["mr."; "mrs."; "ms."; "dr."; "prof."; "sir "; "lord "; "lady "].

(** [if s.startswith(h): s = s[len(h):]; break] *)
Fixpoint drop_honorific (hs : list string) (s : string) : string :=
  match hs with
  | [] => s
  | h :: hs =>
      if String.prefix h s then String.substring (String.length h) (String.length s - String.length h) s
      else drop_honorific hs s
  end.

(** Sentence punctuation, both quotes, parentheses, the dash, brackets and braces. *)
Definition name_punctuation : string :=
  ".,;:!?" +:+ String (Ascii.ascii_of_nat 34) "'()-[]{}".

Definition normalize_entity_name (nm : string) : string :=
  let result := drop_honorific _HONORIFICS (lower nm) in
  let result := str_join " " (split result) in
  strip (strip_chars (strip result) name_punctuation).

Definition add_once {A} `{EqDecision A} (x : A) (l : list A) : list A := if decide (x ∈ l) then l else l ++ [x].

Definition _tokenize (nm : string) : list string :=
  foldl (fun tokens token =>
    let cleaned := keep_alnum token in
    if Z.leb 2 (char_count cleaned) then add_once cleaned tokens else tokens)
    [] (split (normalize_entity_name nm)).
End names.

(** ** The index *)

Record EntityIndex := MkIndex {
  _exact : list (string * string * Entity);
  _token : list (string * list Z);
  _type : list (string * list Entity);
  _by_id : list (Z * Entity);
}.

Definition empty_index : EntityIndex := MkIndex [] [] [] [].

Section index.
Context `{TextOps} (str_iter : list string -> list string) (id_iter : list Z -> list Z).

(** [d.setdefault(k, []).append(v)] and [d.setdefault(k, set()).add(v)] *)
Definition push {K A} `{EqDecision K} (k : K) (v : A) (d : list (K * list A)) : list (K * list A) :=
  zset k (default [] (zget k d) ++ [v]) d.
Definition put {K A} `{EqDecision K, EqDecision A} (k : K) (v : A) (d : list (K * list A)) : list (K * list A) :=
  zset k (add_once v (default [] (zget k d))) d.

Definition key_of (e : Entity) : string * string := (normalize_entity_name (name e), entity_type e).

Definition add (idx : EntityIndex) (e : Entity) : option Entity * EntityIndex :=
  match zget (key_of e) (_exact idx) with
  | Some existing => (Some existing, idx)
  | None =>
      (None,
       MkIndex (zset (key_of e) e (_exact idx))
         (foldl (fun d token => put token (id e) d) (_token idx) (str_iter (_tokenize (name e))))
         (push (entity_type e) e (_type idx))
         (zset (id e) e (_by_id idx)))
  end.

Definition get (idx : EntityIndex) (i : Z) : option Entity := zget i (_by_id idx).
Definition get_by_name (idx : EntityIndex) (nm ty : string) : option Entity :=
  zget (normalize_entity_name nm, ty) (_exact idx).
Definition get_all_entities (idx : EntityIndex) : list Entity := (_by_id idx).*2.
Definition get_entities_by_type (idx : EntityIndex) (ty : string) : list Entity := default [] (zget ty (_type idx)).

(** ** Candidates *)

(** [sorted(l, key=f, reverse=True)]: stable, the greater first. *)
Fixpoint insert_by_desc {A K} (ltb : K -> K -> bool) (key : A -> K) (x : A) (l : list A) : list A :=
  match l with
  | [] => [x]
  | y :: l' => if ltb (key x) (key y) then y :: insert_by_desc ltb key x l' else x :: l
  end.
Definition sort_by_desc {A K} (ltb : K -> K -> bool) (key : A -> K) (l : list A) : list A :=
  foldr (insert_by_desc ltb key) [] l.

(** Counts, per indexed id, the tokens it shares; a token with more than 500 ids is skipped. *)
Definition candidate_overlap (idx : EntityIndex) (tokens : list string) : list (Z * Z) :=
  foldl (fun counts token =>
    match zget token (_token idx) with
    | None => counts
    | Some posting =>
        if Nat.ltb 500 (length posting) then counts
        else foldl (fun counts cid => zset cid (default 0 (zget cid counts) + 1) counts) counts (id_iter posting)
    end) [] (str_iter tokens).

(** [d.pop(k, None)] for [entity.id] and each id to skip. *)
Definition without (e : Entity) (skip : list Z) (counts : list (Z * Z)) : list (Z * Z) :=
  List.filter (fun c => negb (bool_decide (c.1 = id e)) && negb (bool_decide (c.1 ∈ skip))) counts.

(** The ids in order of overlap, resolved until [max_candidates] are valid. *)
Fixpoint valid_candidates (idx : EntityIndex) (valid : Entity -> bool) (cap : Z) (ids : list Z) (acc : list Entity)
  : list Entity :=
  match ids with
  | [] => acc
  | i :: ids =>
      if Z.leb cap (Z.of_nat (length acc)) then acc
      else match get idx i with
           | Some c => valid_candidates idx valid cap ids (if valid c then acc ++ [c] else acc)
           | None => valid_candidates idx valid cap ids acc
           end
  end.

Definition by_overlap (counts : list (Z * Z)) : list Z := (sort_by_desc Z.ltb snd counts).*1.

(** [[(valid_candidates[idx], sim) for idx, sim in scored]], sorted by similarity. *)
Definition rank (candidates : list Entity) (scored : list (nat * float)) : result (list (Entity * float)) :=
  match map_m (fun '(i, sim) => match candidates !! i with Some c => Ok (c, sim) | None => Err IndexError end) scored with
  | Ok results => Ok (sort_by_desc flt snd results)
  | Err e => Err e
  end.

(** [batch_levenshtein] and [batch_dot_product]: the candidates whose score reaches the
    threshold, with their positions, the best first. *)
Definition reaches (s threshold : float) : bool := SpecFloat.SFleb threshold s.

Definition batch {A} (score : A -> A -> float) (query : A) (candidates : list A) (threshold : float) : list (nat * float) :=
  sort_by_desc flt snd
    (List.filter (fun c => reaches c.2 threshold) (imap (fun i c => (i, score query c)) candidates)).

Definition find_fuzzy_candidates (levenshtein_similarity : string -> string -> float)
    (idx : EntityIndex) (e : Entity) (threshold : float) (max_candidates min_shared_tokens : Z) (skip_ids : list Z)
  : result (list (Entity * float)) :=
  let tokens := _tokenize (name e) in
  if Nat.eqb (length tokens) 0 then Ok []
  else
    let counts := without e skip_ids (candidate_overlap idx tokens) in
    let counts := if Z.ltb 1 min_shared_tokens then List.filter (fun c => Z.leb min_shared_tokens c.2) counts else counts in
    let candidates := valid_candidates idx
      (fun c => String.eqb (entity_type c) (entity_type e)
                && negb (String.eqb (normalize_entity_name (name c)) (normalize_entity_name (name e))))
      max_candidates (by_overlap counts) [] in
    if Nat.eqb (length candidates) 0 then Ok []
    else rank candidates (batch levenshtein_similarity (name e) (List.map name candidates) threshold).

Definition find_embedding_candidates (dot_product : list float -> list float -> float)
    (idx : EntityIndex) (e : Entity) (threshold : float) (max_candidates : Z) (skip_ids : list Z)
  : result (list (Entity * float)) :=
  match embedding e with
  | None => Ok []
  | Some query =>
      let counts := without e skip_ids (candidate_overlap idx (_tokenize (name e))) in
      let candidates := valid_candidates idx
        (fun c => bool_decide (is_Some (embedding c)) && String.eqb (entity_type c) (entity_type e))
        max_candidates (by_overlap counts) [] in
      if Nat.eqb (length candidates) 0 then Ok []
      else rank candidates (batch dot_product query (omap embedding candidates) threshold)
  end.

(** [token_overlap_score] *)
Definition token_overlap_score (e candidate : Entity) : Z :=
  Z.of_nat (length (List.filter (fun t => bool_decide (t ∈ _tokenize (name candidate))) (_tokenize (name e)))).

Definition find_candidates_fast (idx : EntityIndex) (e : Entity) (max_candidates : Z) : list Entity :=
  let normalized := normalize_entity_name (name e) in
  match zget (entity_type e) (_type idx) with
  | None => []
  | Some type_entities =>
      let others := List.filter (fun c => negb (Z.eqb (id c) (id e))
                      && negb (String.eqb (normalize_entity_name (name c)) normalized)) type_entities in
      let same_letter (c : Entity) :=
        let n := normalize_entity_name (name c) in
        negb (String.eqb normalized "") && negb (String.eqb n "")
        && String.eqb (first_char n) (first_char normalized) in
      let first_letter_matches := List.filter same_letter others in
      let type_only_matches := List.filter (fun c => negb (same_letter c)) others in
      slice (sort_by_desc Z.ltb (token_overlap_score e) first_letter_matches
             ++ sort_by_desc Z.ltb (token_overlap_score e) type_only_matches) 0 max_candidates
  end.
End index.
End EntityIndex.
