(* ===== verification/EntityIndexFacts.v ===== *)
(** The index of entities: the invariant that its four tables agree, that adding keeps it and
    keeps the first entity of every name and type, and what the candidate searches return. *)
From S2P Require Import Prelude PyValue PyText RankFusion RankFusionFacts Entities EntityIndex.

Local Open Scope Z_scope.

Module EntityIndexFacts.
Import Entities.Entities EntityIndex.EntityIndex.

(** ** The tables *)

Definition row {K A} `{EqDecision K} (k : K) (d : list (K * list A)) : list A := default [] (zget k d).

Lemma row_zset {K A} `{EqDecision K} (k k' : K) (l : list A) d :
  row k' (zset k l d) = if decide (k' = k) then l else row k' d.
Proof.
  unfold row. case_decide as E; [subst; by rewrite zget_zset_eq|]. by rewrite zget_zset_ne.
Qed.

Lemma elem_of_add_once {A} `{EqDecision A} (x y : A) l : y ∈ add_once x l <-> y ∈ l \/ y = x.
Proof. unfold add_once. case_decide; set_solver. Qed.

Lemma NoDup_add_once {A} `{EqDecision A} (x : A) l : NoDup l -> NoDup (add_once x l).
Proof.
  intros Hl. unfold add_once. case_decide; [done|]. apply NoDup_app.
  split_and!; [done|set_solver|apply NoDup_singleton].
Qed.

Lemma row_push {K A} `{EqDecision K} (k k' : K) (v : A) d :
  row k' (push k v d) = if decide (k' = k) then row k d ++ [v] else row k' d.
Proof. unfold push. by rewrite row_zset. Qed.

Lemma row_puts {K A} `{EqDecision K, EqDecision A} (v : A) (ks : list K) (d : list (K * list A)) (k : K) :
  let d' := foldl (fun d k => put k v d) d ks in
  (forall x, x ∈ row k d' <-> x ∈ row k d \/ (x = v /\ k ∈ ks)) /\ (NoDup (row k d) -> NoDup (row k d')).
Proof.
  revert d. induction ks as [|k0 ks IH]; intros d; cbn; [set_solver|].
  destruct (IH (put k0 v d)) as [IH1 IH2]. unfold put in *. rewrite row_zset in *. fold (row k0 d) in *. split.
  - intros x. rewrite IH1. case_decide as E; [subst; rewrite elem_of_add_once|]; set_solver.
  - intros Hn. apply IH2. case_decide as E; [subst; by apply NoDup_add_once|done].
Qed.

Lemma zget_keys_NoDup {K A} `{EqDecision K} (k : K) (v : A) d : NoDup d.*1 -> zget k d = Some v <-> (k, v) ∈ d.
Proof.
  induction d as [|[k' v'] d IH]; cbn [zget]; csimpl; [set_solver|]. intros [Hk Hn]%NoDup_cons.
  case_decide as E.
  - subst k'. rewrite elem_of_cons. split; [intros [= ->]; by left|].
    intros [[= ->]|H]; [done|]. destruct Hk. by apply (list_elem_of_fmap_2 fst) in H.
  - rewrite IH by done. set_solver.
Qed.

Lemma NoDup_zset {K A} `{EqDecision K} (k : K) (v : A) d : NoDup d.*1 -> NoDup (zset k v d).*1.
Proof.
  intros Hn. pose proof (keys_zset k v d) as H. change (List.map fst ?l) with (l.*1) in H.
  rewrite H. case_bool_decide; [done|]. apply NoDup_app. split_and!; [done|set_solver|apply NoDup_singleton].
Qed.

(** ** Sorting and capping *)

Lemma insert_by_desc_perm {A K} (ltb : K -> K -> bool) (key : A -> K) x l : insert_by_desc ltb key x l ≡ₚ x :: l.
Proof.
  induction l as [|y l IH]; cbn; [done|]. destruct (ltb _ _); [|done]. rewrite IH. by apply Permutation_swap.
Qed.

Lemma sort_by_desc_perm {A K} (ltb : K -> K -> bool) (key : A -> K) l : sort_by_desc ltb key l ≡ₚ l.
Proof. induction l as [|x l IH]; cbn; [done|]. by rewrite insert_by_desc_perm, IH. Qed.

Lemma sublist_fmap {A B} (f : A -> B) (l l' : list A) : l `sublist_of` l' -> f <$> l `sublist_of` f <$> l'.
Proof. induction 1; csimpl; by constructor. Qed.

Lemma filter_list_sublist {A} (f : A -> bool) (l : list A) : List.filter f l `sublist_of` l.
Proof. induction l as [|x l IH]; cbn; [done|]. destruct (f x); by constructor. Qed.

Lemma filter_list_perm {A} (f : A -> bool) (l l' : list A) : l ≡ₚ l' -> List.filter f l ≡ₚ List.filter f l'.
Proof.
  induction 1 as [|x l l' _ IH|x y l|]; cbn; [done| | |by etransitivity].
  - destruct (f x); by rewrite IH.
  - destruct (f x), (f y); try done. apply Permutation_swap.
Qed.

(** What follows an element has no greater key, where the order is total. *)
Lemma sort_by_desc_sorted {A K} (ltb : K -> K -> bool) (key : A -> K) (P : A -> Prop) l :
  Forall P l -> (forall x y, P x -> P y -> ltb (key x) (key y) = false \/ ltb (key y) (key x) = false) ->
  (forall x y z, P x -> P y -> P z -> ltb (key x) (key y) = false -> ltb (key y) (key z) = false -> ltb (key x) (key z) = false) ->
  StronglySorted (fun x y => ltb (key x) (key y) = false) (sort_by_desc ltb key l).
Proof.
  intros Hl Htot Htr. induction Hl as [|x l Hx Hl IH]; [constructor|].
  change (sort_by_desc ltb key (x :: l)) with (insert_by_desc ltb key x (sort_by_desc ltb key l)).
  assert (Hs : Forall P (sort_by_desc ltb key l)) by by rewrite sort_by_desc_perm.
  revert IH Hs. generalize (sort_by_desc ltb key l) as l1. clear l Hl. intros l.
  induction 1 as [|y l Hss IH Hy]; intros Hs; cbn; [by repeat constructor|].
  apply Forall_cons in Hs as [Hpy Hs]. destruct (ltb (key x) (key y)) eqn:E.
  - constructor; [by apply IH|]. rewrite insert_by_desc_perm. constructor; [|done].
    destruct (Htot x y Hx Hpy); congruence.
  - constructor; [by constructor|]. constructor; [done|].
    rewrite Forall_forall in Hy, Hs |- *. intros z Hz. apply (Htr x y z); auto.
Qed.

Lemma valid_candidates_take idx valid cap ids acc :
  valid_candidates idx valid cap ids acc =
  acc ++ take (Z.to_nat (cap - Z.of_nat (length acc))) (List.filter valid (omap (get idx) ids)).
Proof.
  revert acc. induction ids as [|i ids IH]; intros acc; cbn [valid_candidates].
  - cbn. by rewrite take_nil, app_nil_r.
  - destruct (Z.leb_spec cap (Z.of_nat (length acc))) as [Hc|Hc].
    + replace (Z.to_nat _) with 0%nat by lia. by rewrite take_0, app_nil_r.
    + csimpl. destruct (get idx i) as [c|]; [|apply IH]. cbn [List.filter].
      rewrite IH. destruct (valid c); [|done]. rewrite length_app, <- (assoc_L app). cbn [length].
      replace (Z.to_nat (cap - Z.of_nat (length acc))) with (S (Z.to_nat (cap - Z.of_nat (length acc + 1)))) by lia.
      done.
Qed.

Section facts.
Context `{TextOps} (str_iter : list string -> list string) (id_iter : list Z -> list Z).
Hypothesis str_iter_perm : forall l, str_iter l ≡ₚ l.
Hypothesis id_iter_perm : forall l, id_iter l ≡ₚ l.

(** ** The tables agree *)

(** [_by_id] holds the indexed entities under their ids; the other tables are their views. *)
Record consistent (idx : EntityIndex) : Prop := {
  ids_distinct : NoDup (_by_id idx).*1;
  id_of_row i e : get idx i = Some e -> id e = i;
  exact_view key e : zget key (_exact idx) = Some e <-> get idx (id e) = Some e /\ key_of e = key;
  token_view t i : i ∈ row t (_token idx) <-> exists e, get idx i = Some e /\ t ∈ _tokenize (name e);
  token_distinct t : NoDup (row t (_token idx));
  type_view ty e : e ∈ row ty (_type idx) <-> get idx (id e) = Some e /\ entity_type e = ty;
}.

Lemma empty_consistent : consistent empty_index.
Proof.
  split; unfold get, row; cbn; try done.
  - apply NoDup_nil_2.
  - set_solver.
  - split; [set_solver|]. intros (e & [=] & _).
  - intros t. apply NoDup_nil_2.
  - set_solver.
Qed.

Lemma key_inj idx e e' : consistent idx -> get idx (id e) = Some e -> get idx (id e') = Some e' ->
  key_of e = key_of e' -> e = e'.
Proof.
  intros C He He' Hk. assert (H1 := proj2 (exact_view idx C (key_of e) e) (conj He eq_refl)).
  assert (H2 := proj2 (exact_view idx C (key_of e) e') (conj He' (eq_sym Hk))). congruence.
Qed.

Lemma add_consistent idx e : consistent idx -> (zget (key_of e) (_exact idx) = None -> get idx (id e) = None) ->
  consistent (add str_iter idx e).2.
Proof.
  intros C Hfresh. unfold add. destruct (zget (key_of e) (_exact idx)) eqn:Hk; [done|].
  specialize (Hfresh eq_refl).
  assert (Hget : forall i, zget i (zset (id e) e (_by_id idx)) = if decide (i = id e) then Some e else get idx i).
  { intros i. case_decide as E; [subst; apply zget_zset_eq|by apply zget_zset_ne]. }
  assert (Hid : forall e', get idx (id e') = Some e' -> id e' <> id e) by (intros e' He' E; congruence).
  split; unfold get; cbn [snd _exact _token _type _by_id].
  - apply NoDup_zset, C.
  - intros i e'. rewrite Hget. case_decide; [naive_solver|apply C].
  - intros key e'. rewrite Hget. destruct (decide (key = key_of e)) as [->|Hne].
    + rewrite zget_zset_eq. split; [intros [= <-]; by rewrite decide_True|].
      intros [Hg Hkey]. case_decide; [done|].
      assert (Hx := proj2 (exact_view idx C (key_of e) e') (conj Hg Hkey)). congruence.
    + rewrite zget_zset_ne, (exact_view idx C) by done.
      case_decide as E; [|done]. rewrite E, Hfresh. naive_solver.
  - intros t i. rewrite (proj1 (row_puts (id e) _ _ t)), (token_view idx C), str_iter_perm, Hget.
    case_decide as E; [subst; rewrite Hfresh|]; naive_solver.
  - intros t. apply (row_puts (id e)), C.
  - intros ty e'. rewrite row_push, Hget. destruct (decide (id e' = id e)) as [E|E].
    + assert (Hno : forall ty, e' ∉ row ty (_type idx)).
      { intros ty' Hin. apply (type_view idx C) in Hin as [Hin _]. by apply Hid in Hin. }
      case_decide; [rewrite elem_of_app, list_elem_of_singleton|]; split; naive_solver.
    + assert (e' <> e) by congruence.
      case_decide; subst; rewrite ?elem_of_app, ?list_elem_of_singleton, (type_view idx C); naive_solver.
Qed.

(** ** The candidates *)

(** The tokens through which an indexed id is a candidate of the tokens of a name. *)
Definition shared (idx : EntityIndex) (tokens : list string) (i : Z) : list string :=
  List.filter (fun t => bool_decide (i ∈ row t (_token idx)) && Nat.leb (length (row t (_token idx))) 500) tokens.

Lemma count_posting (l : list Z) counts i : NoDup l ->
  default 0 (zget i (foldl (fun counts cid => zset cid (default 0 (zget cid counts) + 1) counts) counts l))
  = default 0 (zget i counts) + (if decide (i ∈ l) then 1 else 0).
Proof.
  revert counts. induction l as [|c l IH]; intros counts; cbn -[decide]; [intros _; rewrite decide_False by set_solver; lia|].
  intros [Hc Hl]%NoDup_cons. rewrite IH by done. destruct (decide (i = c)) as [->|Hne].
  - rewrite zget_zset_eq, (decide_False (P := c ∈ l)), (decide_True (P := c ∈ c :: l)) by (done || by left). cbn. lia.
  - rewrite zget_zset_ne by done. repeat case_decide; set_solver || lia.
Qed.

Lemma overlap_count idx tokens i : consistent idx ->
  default 0 (zget i (candidate_overlap str_iter id_iter idx tokens)) = Z.of_nat (length (shared idx (str_iter tokens) i)).
Proof.
  intros C. unfold candidate_overlap.
  assert (Hgen : forall l counts, default 0 (zget i (foldl (fun counts token =>
    match zget token (_token idx) with
    | None => counts
    | Some posting =>
        if Nat.ltb 500 (length posting) then counts
        else foldl (fun counts cid => zset cid (default 0 (zget cid counts) + 1) counts) counts (id_iter posting)
    end) counts l)) = default 0 (zget i counts) + Z.of_nat (length (shared idx l i))).
  { induction l as [|t l IH]; intros counts; cbn -[Nat.leb Nat.ltb]; [lia|]. rewrite IH. unfold shared. cbn -[Nat.leb Nat.ltb].
    destruct (zget t (_token idx)) as [posting|] eqn:Ht.
    - assert (Hr : row t (_token idx) = posting) by (unfold row; by rewrite Ht). rewrite Hr.
      destruct (Nat.ltb_spec 500 (length posting)) as [Hl|Hl].
      + rewrite (proj2 (Nat.leb_gt (length posting) 500)) by lia. by rewrite andb_false_r.
      + rewrite (proj2 (Nat.leb_le (length posting) 500)) by lia. rewrite andb_true_r, count_posting.
        2: { rewrite id_iter_perm, <- Hr. apply C. }
        case_decide as Hi; rewrite id_iter_perm in Hi.
        * rewrite bool_decide_true by done. cbn [length]. lia.
        * rewrite bool_decide_false by done. lia.
    - rewrite bool_decide_false; [done|]. unfold row. rewrite Ht. apply not_elem_of_nil. }
  by rewrite Hgen.
Qed.

Lemma overlap_positive idx tokens :
  let counts := candidate_overlap str_iter id_iter idx tokens in
  NoDup counts.*1 /\ forall i n, zget i counts = Some n -> 1 <= n.
Proof.
  unfold candidate_overlap.
  set (P := fun counts : list (Z * Z) => NoDup counts.*1 /\ forall i n, zget i counts = Some n -> 1 <= n).
  assert (Hstep : forall counts cid, P counts -> P (zset cid (default 0 (zget cid counts) + 1) counts)).
  { intros counts cid [Hn Hp]. split; [by apply NoDup_zset|]. intros i n.
    destruct (decide (i = cid)) as [->|Hne]; [rewrite zget_zset_eq|rewrite zget_zset_ne by done; apply Hp].
    intros [= <-]. destruct (zget cid counts) as [m|] eqn:E; cbn; [apply Hp in E|]; lia. }
  assert (Hpost : forall l counts, P counts ->
    P (foldl (fun counts cid => zset cid (default 0 (zget cid counts) + 1) counts) counts l)).
  { induction l as [|c l IH]; intros counts Hc; cbn; [done|]. apply IH. by apply Hstep. }
  assert (Hgen : forall l counts, P counts -> P (foldl (fun counts token =>
    match zget token (_token idx) with
    | None => counts
    | Some posting =>
        if Nat.ltb 500 (length posting) then counts
        else foldl (fun counts cid => zset cid (default 0 (zget cid counts) + 1) counts) counts (id_iter posting)
    end) counts l)).
  { induction l as [|t l IH]; intros counts Hc; cbn -[Nat.ltb]; [done|]. apply IH.
    destruct (zget t _); [|done]. destruct (Nat.ltb _ _); [done|]. by apply Hpost. }
  apply Hgen. split; [apply NoDup_nil_2|done].
Qed.

(** The counts hold exactly the ids that share a token that is not too frequent. *)
Lemma elem_of_overlap idx tokens i n : consistent idx ->
  (i, n) ∈ candidate_overlap str_iter id_iter idx tokens <->
  n = Z.of_nat (length (shared idx tokens i)) /\ 1 <= n.
Proof.
  intros C. destruct (overlap_positive idx tokens) as [Hn Hp]. rewrite <- zget_keys_NoDup by done.
  pose proof (overlap_count idx tokens i C) as Hc.
  assert (Hperm : length (shared idx (str_iter tokens) i) = length (shared idx tokens i)).
  { unfold shared. by apply Permutation_length, filter_list_perm. }
  rewrite Hperm in Hc. destruct (zget i _) as [m|] eqn:E; cbn in Hc.
  - apply Hp in E as Hm. split; [intros [= <-]; auto|]. intros [-> _]. by rewrite Hc.
  - split; [done|]. lia.
Qed.

Section search.
Context (idx : EntityIndex) (C : consistent idx) (e : Entity) (skip : list Z) (least : Z) (valid : Entity -> bool).

(** An indexed entity that shares enough tokens and passes the filters of a search. *)
Definition candidate (c : Entity) : Prop :=
  get idx (id c) = Some c /\ id c <> id e /\ (id c ∉ skip) /\
  Z.max 1 least <= Z.of_nat (length (shared idx (_tokenize (name e)) (id c))) /\ valid c = true.

Definition counted : list (Z * Z) :=
  let counts := without e skip (candidate_overlap str_iter id_iter idx (_tokenize (name e))) in
  if Z.ltb 1 least then List.filter (fun c => Z.leb least c.2) counts else counts.

Lemma elem_of_counted i n : (i, n) ∈ counted <->
  n = Z.of_nat (length (shared idx (_tokenize (name e)) i)) /\ Z.max 1 least <= n /\ i <> id e /\ i ∉ skip.
Proof.
  assert (Hw : forall i n, (i, n) ∈ without e skip (candidate_overlap str_iter id_iter idx (_tokenize (name e))) <->
            n = Z.of_nat (length (shared idx (_tokenize (name e)) i)) /\ 1 <= n /\ i <> id e /\ i ∉ skip).
  { clear i n. intros i n. unfold without. rewrite list_elem_of_In, filter_In, <- list_elem_of_In, elem_of_overlap by done.
    cbn. rewrite andb_true_iff, !negb_true_iff, !bool_decide_eq_false. naive_solver. }
  unfold counted. destruct (Z.ltb_spec 1 least) as [Hl|Hl].
  - rewrite list_elem_of_In, filter_In, <- list_elem_of_In, Hw. cbn. rewrite Z.leb_le. intuition lia.
  - rewrite Hw. intuition lia.
Qed.

Lemma counted_distinct : NoDup counted.*1.
Proof.
  assert (Hf : forall (f : Z * Z -> bool) l, NoDup l.*1 -> NoDup (List.filter f l).*1).
  { intros f l Hl. eapply sublist_NoDup; [exact Hl|]. apply sublist_fmap, filter_list_sublist. }
  unfold counted, without. case_match; repeat apply Hf; apply overlap_positive.
Qed.

Lemma by_overlap_perm counts : by_overlap counts ≡ₚ counts.*1.
Proof. unfold by_overlap. by rewrite sort_by_desc_perm. Qed.

Lemma elem_of_resolved c : c ∈ omap (get idx) (by_overlap counted) <->
  get idx (id c) = Some c /\ id c <> id e /\ (id c ∉ skip) /\
  Z.max 1 least <= Z.of_nat (length (shared idx (_tokenize (name e)) (id c))).
Proof.
  rewrite list_elem_of_omap. setoid_rewrite by_overlap_perm. split.
  - intros (i & Hi & Hg). pose proof (id_of_row idx C i c Hg) as <-.
    apply list_elem_of_fmap in Hi as ([i n] & Heq & Hi). cbn in Heq. subst i.
    apply elem_of_counted in Hi as (-> & ? & ? & ?). done.
  - intros (Hg & Hne & Hsk & Hc). exists (id c). split; [|done].
    apply list_elem_of_fmap. eexists (_, _). split; [|apply elem_of_counted; by split_and!]. done.
Qed.

Lemma resolved_distinct : NoDup (id <$> omap (get idx) (by_overlap counted)).
Proof.
  assert (Hn : NoDup (by_overlap counted)) by (rewrite by_overlap_perm; apply counted_distinct).
  induction Hn as [|i l Hi Hn IH]; csimpl; [apply NoDup_nil_2|].
  destruct (get idx i) as [c|] eqn:Hg; csimpl; [|done]. apply NoDup_cons. split; [|done].
  rewrite (id_of_row idx C i c Hg). intros (c' & -> & Hc')%list_elem_of_fmap. apply Hi.
  apply list_elem_of_omap in Hc' as (j & Hj & Hg'). by rewrite (id_of_row idx C j c' Hg').
Qed.

Lemma resolved_length : (length (omap (get idx) (by_overlap counted)) <= length (_by_id idx))%nat.
Proof.
  rewrite <- (length_fmap id), <- (length_fmap fst (_by_id idx)).
  apply submseteq_length, NoDup_submseteq; [apply resolved_distinct|].
  intros i (c & -> & Hc)%list_elem_of_fmap. apply elem_of_resolved in Hc as (Hg & _).
  apply zget_keys_NoDup in Hg; [|apply C]. by apply (list_elem_of_fmap_2 fst) in Hg.
Qed.

Definition found (cap : Z) : list Entity := valid_candidates idx valid cap (by_overlap counted) [].

Lemma found_candidates cap : NoDup (id <$> found cap) /\ Z.of_nat (length (found cap)) <= Z.max 0 cap /\
  (forall c, c ∈ found cap -> candidate c) /\
  (Z.of_nat (length (_by_id idx)) <= cap -> forall c, candidate c -> c ∈ found cap).
Proof.
  unfold found. rewrite valid_candidates_take. cbn [app length].
  set (all := List.filter valid _).
  assert (Hin : forall c, c ∈ all <-> candidate c).
  { intros c. subst all. rewrite list_elem_of_In, filter_In, <- list_elem_of_In, elem_of_resolved.
    unfold candidate. tauto. }
  assert (Hsub : all `sublist_of` omap (get idx) (by_overlap counted)).
  { apply filter_list_sublist. }
  split_and!.
  - eapply sublist_NoDup; [apply resolved_distinct|]. apply sublist_fmap.
    etransitivity; [apply sublist_take|done].
  - rewrite length_take. lia.
  - intros c Hc. apply Hin. by eapply subseteq_take.
  - intros Hcap c Hc. rewrite take_ge; [by apply Hin|].
    apply sublist_length in Hsub. pose proof resolved_length. lia.
Qed.
End search.

(** ** Scoring *)

Lemma elem_of_batch {A} (score : A -> A -> float) q cands thr i x :
  (i, x) ∈ batch score q cands thr <-> exists c, cands !! i = Some c /\ x = score q c /\ reaches x thr = true.
Proof.
  unfold batch. rewrite sort_by_desc_perm, list_elem_of_In, filter_In, <- list_elem_of_In, list_elem_of_lookup.
  cbn. setoid_rewrite list_lookup_imap. split.
  - intros ((j & Hj) & Hr). destruct (cands !! j) as [c|] eqn:Hc; [|done]. cbn in Hj. simplify_eq. eauto.
  - intros (c & Hc & -> & Hr). split; [|done]. exists i. by rewrite Hc.
Qed.

(** What [rank] makes of scored candidates: each of those that reach the threshold, with its score. *)
Lemma rank_batch {A} (score : A -> A -> float) q thr (f : Entity -> A) candidates :
  exists results, rank candidates (batch score q (f <$> candidates) thr) = Ok results /\
    forall c x, (c, x) ∈ results <-> c ∈ candidates /\ x = score q (f c) /\ reaches x thr = true.
Proof.
  unfold rank. set (scored := batch score q (f <$> candidates) thr).
  assert (Hall : forall l, l ⊆ scored -> exists results,
    map_m (fun '(i, sim) => match candidates !! i with Some c => Ok (c, sim) | None => Err IndexError end) l = Ok results /\
    forall c x, (c, x) ∈ results <-> exists i, (i, x) ∈ l /\ candidates !! i = Some c).
  { induction l as [|[i x] l IH]; intros Hl; cbn.
    - exists []. split; [done|]. set_solver.
    - assert (Hi : (i, x) ∈ scored) by (apply Hl; left). apply elem_of_batch in Hi as (a & Ha & _).
      rewrite list_lookup_fmap in Ha. destruct (candidates !! i) as [c|] eqn:Hc; [|done].
      destruct IH as (results & -> & Hr); [set_solver|]. exists ((c, x) :: results). split; [done|].
      intros c' x'. rewrite elem_of_cons, Hr. setoid_rewrite elem_of_cons. split.
      + intros [[= -> ->]|(j & Hj & Hc')]; [exists i; auto|exists j; auto].
      + intros (j & [[= -> ->]|Hj] & Hc'); [left; congruence|right; eauto]. }
  destruct (Hall scored) as (results & -> & Hr); [done|]. exists (sort_by_desc flt snd results). split; [done|].
  intros c x. rewrite sort_by_desc_perm, Hr. split.
  - intros (i & Hi & Hc). apply elem_of_batch in Hi as (a & Ha & -> & Hx).
    rewrite list_lookup_fmap, Hc in Ha. cbn in Ha. simplify_eq. split; [by eapply list_elem_of_lookup_2|done].
  - intros (Hc & -> & Hx). apply list_elem_of_lookup in Hc as (i & Hc). exists i. split; [|done].
    apply elem_of_batch. exists (f c). by rewrite list_lookup_fmap, Hc.
Qed.

(** ** The searches *)

Definition same_type_other_name (e c : Entity) : bool :=
  String.eqb (entity_type c) (entity_type e)
  && negb (String.eqb (normalize_entity_name (name c)) (normalize_entity_name (name e))).

(** The fuzzy search returns, with its similarity, an entity only if it is indexed, is not
    the query nor skipped, has the type and not the name of the query, shares enough
    tokens, and reaches the threshold; when the cap is no smaller than the index, each
    such entity. *)
Lemma fuzzy_candidates_exact sim idx e thr cap least skip : consistent idx ->
  exists results, find_fuzzy_candidates str_iter id_iter sim idx e thr cap least skip = Ok results /\
    (forall c x, (c, x) ∈ results ->
      candidate idx e skip least (same_type_other_name e) c /\ x = sim (name e) (name c) /\ reaches x thr = true) /\
    (Z.of_nat (length (_by_id idx)) <= cap -> forall c,
      candidate idx e skip least (same_type_other_name e) c -> reaches (sim (name e) (name c)) thr = true ->
      (c, sim (name e) (name c)) ∈ results).
Proof.
  intros C. unfold find_fuzzy_candidates. destruct (Nat.eqb_spec (length (_tokenize (name e))) 0) as [Ht|Ht].
  { exists []. split_and!; [done|set_solver|]. intros _ c (_ & _ & _ & Hc & _).
    unfold shared in Hc. apply nil_length_inv in Ht. rewrite Ht in Hc. cbn in Hc. lia. }
  change (valid_candidates _ _ _ _ _) with (found idx e skip least (same_type_other_name e) cap).
  destruct (found_candidates idx C e skip least (same_type_other_name e) cap) as (_ & _ & Hs & Hc).
  destruct (Nat.eqb_spec (length (found idx e skip least (same_type_other_name e) cap)) 0) as [Hf|Hf].
  { exists []. split_and!; [done|set_solver|]. intros Hcap c Hcand. apply (Hc Hcap) in Hcand.
    apply nil_length_inv in Hf. rewrite Hf in Hcand. by apply elem_of_nil in Hcand. }
  destruct (rank_batch sim (name e) thr name (found idx e skip least (same_type_other_name e) cap)) as (results & Hr & Hin).
  exists results. split_and!; [done| |].
  - intros c x Hcx. apply Hin in Hcx as (Hcf & Hx & Hre). split; [by apply Hs|done].
  - intros Hcap c Hcand Hre. apply Hin. split; [by apply Hc|done].
Qed.

Definition embedded_same_type (e c : Entity) : bool :=
  bool_decide (is_Some (embedding c)) && String.eqb (entity_type c) (entity_type e).

Lemma omap_embedding l : Forall (fun c => is_Some (embedding c)) l -> omap embedding l = (fun c => default [] (embedding c)) <$> l.
Proof. induction 1 as [|c l [v Hv] _ IH]; csimpl; [done|]. by rewrite Hv, IH. Qed.

(** The embedding search, likewise: the candidates have an embedding, whatever their name. *)
Lemma embedding_candidates_exact dot idx e query thr cap skip : consistent idx -> embedding e = Some query ->
  exists results, find_embedding_candidates str_iter id_iter dot idx e thr cap skip = Ok results /\
    (forall c x, (c, x) ∈ results ->
      candidate idx e skip 1 (embedded_same_type e) c /\ x = dot query (default [] (embedding c)) /\ reaches x thr = true) /\
    (Z.of_nat (length (_by_id idx)) <= cap -> forall c, candidate idx e skip 1 (embedded_same_type e) c ->
      reaches (dot query (default [] (embedding c))) thr = true -> (c, dot query (default [] (embedding c))) ∈ results).
Proof.
  intros C Hq. unfold find_embedding_candidates. rewrite Hq.
  change (valid_candidates _ _ _ _ _) with (found idx e skip 1 (embedded_same_type e) cap).
  destruct (found_candidates idx C e skip 1 (embedded_same_type e) cap) as (_ & _ & Hs & Hc).
  set (cs := found idx e skip 1 (embedded_same_type e) cap) in *.
  destruct (Nat.eqb_spec (length cs) 0) as [Hf|Hf].
  { exists []. split_and!; [done|set_solver|]. intros Hcap c Hcand. apply (Hc Hcap) in Hcand.
    apply nil_length_inv in Hf. rewrite Hf in Hcand. by apply elem_of_nil in Hcand. }
  rewrite omap_embedding.
  2: { apply Forall_forall. intros c (_ & _ & _ & _ & Hv)%Hs. unfold embedded_same_type in Hv.
       apply andb_true_iff in Hv as [Hv _]. by apply bool_decide_eq_true in Hv. }
  destruct (rank_batch dot query thr (fun c => default [] (embedding c)) cs) as (results & Hr & Hin).
  exists results. split_and!; [done| |].
  - intros c x Hcx. apply Hin in Hcx as (Hcf & Hx & Hre). split; [by apply Hs|done].
  - intros Hcap c Hcand Hre. apply Hin. split; [by apply Hc|done].
Qed.

(** ** Histories of additions *)

Definition add_all (idx : EntityIndex) (es : list Entity) : EntityIndex :=
  foldl (fun idx e => (add str_iter idx e).2) idx es.

(** The first of the entities that have its name and type. *)
Definition first_of (es : list Entity) (e : Entity) : Prop :=
  exists pre post, es = pre ++ e :: post /\ forall e', e' ∈ pre -> key_of e' <> key_of e.

Lemma first_of_snoc es e x : first_of (es ++ [x]) e <->
  first_of es e \/ (e = x /\ forall e', e' ∈ es -> key_of e' <> key_of x).
Proof.
  split.
  - intros (pre & post & Heq & Hpre). destruct (decide (post = [])) as [->|Hp].
    + apply app_inj_tail in Heq as [-> ->]. auto.
    + apply exists_last in Hp as (post' & y & ->). left. exists pre, post'. split; [|done].
      rewrite app_comm_cons, app_assoc in Heq. by apply app_inj_tail in Heq as [-> _].
  - intros [(pre & post & -> & Hpre)|[-> Hno]].
    + exists pre, (post ++ [x]). split; [by rewrite <- (assoc_L app)|done].
    + by exists es, [].
Qed.

Lemma add_get idx e i : get (add str_iter idx e).2 i =
  match zget (key_of e) (_exact idx) with
  | Some _ => get idx i
  | None => if decide (i = id e) then Some e else get idx i
  end.
Proof.
  unfold add. destruct (zget (key_of e) (_exact idx)); [done|]. unfold get. cbn [snd _by_id].
  case_decide as E; [subst; apply zget_zset_eq|by apply zget_zset_ne].
Qed.

Lemma add_all_first es : NoDup (id <$> es) ->
  consistent (add_all empty_index es) /\
  forall i e, get (add_all empty_index es) i = Some e <-> id e = i /\ first_of es e.
Proof.
  induction es as [|x es IH] using rev_ind; intros Hn.
  - split; [apply empty_consistent|]. intros i e. split; [done|]. intros (_ & pre & post & Hnil & _). by destruct pre.
  - rewrite fmap_app in Hn. apply NoDup_app in Hn as (Hn & Hx & _). destruct (IH Hn) as [C Hg].
    unfold add_all. rewrite foldl_app. cbn [foldl]. fold (add_all empty_index es).
    assert (Hfresh : get (add_all empty_index es) (id x) = None).
    { destruct (get _ (id x)) as [e|] eqn:E; [|done]. apply Hg in E as (Hid & pre & post & -> & _).
      destruct (Hx (id e)); [|rewrite Hid; by left]. apply list_elem_of_fmap. exists e. split; [done|]. set_solver. }
    assert (Hkey : zget (key_of x) (_exact (add_all empty_index es)) = None <->
              forall e', e' ∈ es -> key_of e' <> key_of x).
    { split.
      - intros Hz e' He' Hk.
        assert (Hfirst : exists e0, first_of es e0 /\ key_of e0 = key_of x).
        { clear -He' Hk. induction es as [|y es IH]; [by apply elem_of_nil in He'|].
          destruct (decide (key_of y = key_of x)) as [Hy|Hy]; [exists y; split; [exists [], es; split; [done|set_solver]|done]|].
          apply elem_of_cons in He' as [->|He']; [done|]. destruct (IH He') as (e0 & (pre & post & -> & Hp) & Hk0).
          exists e0. split; [|done]. exists (y :: pre), post. split; [done|]. rewrite Hk0.
          intros e'' [->|H'']%elem_of_cons; [done|]. rewrite <- Hk0. by apply Hp. }
        destruct Hfirst as (e0 & Hf & Hk0). assert (H0 := proj2 (Hg (id e0) e0) (conj eq_refl Hf)).
        assert (H1 := proj2 (exact_view _ C (key_of x) e0) (conj H0 Hk0)). congruence.
      - intros Hno. destruct (zget _ _) as [e'|] eqn:E; [|done]. apply (exact_view _ C) in E as [He' Hk].
        apply Hg in He' as (_ & pre & post & -> & _). destruct (Hno e'); [set_solver|done]. }
    split; [apply add_consistent; [done|intros _; exact Hfresh]|].
    intros i e. rewrite add_get, first_of_snoc. destruct (zget (key_of x) _) as [e'|] eqn:E.
    + rewrite Hg. split; [naive_solver|]. intros [Hi [Hf|[-> Hno]]]; [done|].
      by apply Hkey in Hno.
    + assert (Hno := proj1 Hkey eq_refl). case_decide as Ei; [subst i|rewrite Hg; naive_solver].
      split; [naive_solver|]. intros [Hi [Hf|[-> _]]]; [|done].
      assert (H1 := proj2 (Hg (id e) e) (conj eq_refl Hf)). rewrite Hi, Hfresh in H1. done.
Qed.
End facts.
End EntityIndexFacts.
