(* ===== verification/Unify.v ===== *)
(** Cross-tool entity unification ([extraction/expansion/cross_tool_unifier.py]).

    The entities of a run are objects: the code mutates the survivor of a merge in place, so
    a run works on the list of them and refers to an entity by its position.  The recursion
    of [find] has the depth the interpreter allows; iterating a set of ids has the order
    [iter]; the similarity of two vectors or names, the clock and [uuid4] are arguments. *)
From S2P Require Import Prelude PyValue RankFusion Entities EntityIndex UnionFind.

Local Open Scope string_scope.
Local Open Scope list_scope.
Local Open Scope Z_scope.

Module Unify.
Import Entities.Entities EntityIndex.EntityIndex UnionFind.UnionFind.

(** The fields of a correlation rule ([extraction/skills/base.py]) that unification reads. *)
Record CorrelationRule := MkCorrelationRule {
  rule_name : string;
  match_fields : list string;
  entity_types : list string;
}.

(** [_zero_counters]: one counter per strategy. *)
Record Counters := MkCounters { n_correlation : Z; n_exact_name : Z; n_embedding : Z; n_fuzzy : Z }.
Definition _zero_counters : Counters := MkCounters 0 0 0 0.

Definition pair_labels := list (Z * Z * string).

(** [(min(a, b), max(a, b))] *)
Definition pair_key (a b : Z) : Z * Z := (Z.min a b, Z.max a b).

(** [_record] *)
Definition _record (strategy : string) (labels : pair_labels) (p : Z * Z) : pair_labels :=
  if Z.eqb p.1 p.2 then labels else setdefault (pair_key p.1 p.2) strategy labels.

(** ** Matching *)

Section matching.
Context `{TextOps} (cosine_similarity : list float -> list float -> float)
  (levenshtein_similarity : string -> string -> float).

(** The pairs [(l[i], l[j])] with [i < j], in the order of two nested loops. *)
Fixpoint all_pairs {A} (l : list A) : list (A * A) :=
  match l with
  | [] => []
  | x :: l => List.map (fun y => (x, y)) l ++ all_pairs l
  end.

Definition ids_of (p : Entity * Entity) : Z * Z := (id p.1, id p.2).

(** [groups.setdefault(key, []).append(e)] on keys compared by [same]. *)
Fixpoint group_add {K} (same : K -> K -> bool) (key : K) (e : Entity) (groups : list (K * list Entity))
  : list (K * list Entity) :=
  match groups with
  | [] => [(key, [e])]
  | (k, g) :: groups => if same k key then (k, g ++ [e]) :: groups else (k, g) :: group_add same key e groups
  end.

(** The value of a field as a key of the groups; [None] when the field is falsy. *)
Definition field_key (field : string) (e : Entity) : result (option value) :=
  match dict_get field (attributes e) with
  | None => Ok None
  | Some v =>
      if negb (truthy v) then Ok None
      else let v := match v with VStr s => VStr (strip (lower s)) | _ => v end in
           if hashable v then Ok (Some v) else Err TypeError
  end.

Fixpoint field_groups (field : string) (entities : list Entity) (groups : list (value * list Entity))
  : result (list (value * list Entity)) :=
  match entities with
  | [] => Ok groups
  | e :: entities =>
      match field_key field e with
      | Ok (Some v) => field_groups field entities (group_add py_eq v e groups)
      | Ok None => field_groups field entities groups
      | Err x => Err x
      end
  end.

Definition _find_field_match_pairs (entities : list Entity) (fields types : list string) : result (list (Z * Z)) :=
  let candidates := match types with
                    | [] => entities
                    | _ => List.filter (fun e => mem_str (entity_type e) types) entities
                    end in
  extend_m (fun field =>
    groups ← field_groups field candidates [];
    Ok (List.concat (List.map (fun g => List.map ids_of (all_pairs g.2)) groups))) fields.

(** The key of the exact-name groups. *)
Definition name_key (e : Entity) : string * string := (strip (lower (name e)), entity_type e).
Definition same_key (k k' : string * string) : bool := String.eqb k.1 k'.1 && String.eqb k.2 k'.2.

Definition name_groups (entities : list Entity) : list (list Entity) :=
  (foldl (fun groups e => group_add same_key (name_key e) e groups) [] entities).*2.

Definition _find_exact_name_matches (entities : list Entity) : list (Z * Z) :=
  List.concat (List.map (fun g => match g with [] => [] | first :: rest => star (id first) (List.map id rest) end)
                 (name_groups entities)).

(** Without an index: all pairs of one type.  The second component counts the pairs compared. *)
Definition embedding_pairs (threshold : float) (entities : list Entity) : list (Z * Z) * Z :=
  let with_embeddings := omap (fun e => match embedding e with Some v => Some (e, v) | None => None end) entities in
  let evaluated := List.filter (fun p => String.eqb (entity_type p.1.1) (entity_type p.2.1)) (all_pairs with_embeddings) in
  (List.map (fun p => (id p.1.1, id p.2.1))
     (List.filter (fun p => reaches (cosine_similarity p.1.2 p.2.2) threshold) evaluated),
   Z.of_nat (length evaluated)).

Definition type_groups (entities : list Entity) : list (list Entity) :=
  (foldl (fun groups e => group_add String.eqb (entity_type e) e groups) [] entities).*2.

Definition fuzzy_pairs (threshold : float) (entities : list Entity) : list (Z * Z) * Z :=
  let evaluated := List.concat (List.map all_pairs (type_groups entities)) in
  (List.map ids_of (List.filter (fun p => reaches (levenshtein_similarity (name p.1) (name p.2)) threshold) evaluated),
   Z.of_nat (length evaluated)).

(** With an index: the candidates it gives, skipping the entities already processed; a pair
    is emitted once. *)
Fixpoint blocked_pairs (find : Entity -> list Z -> result (list (Entity * float))) (entities : list Entity)
    (seen : list (Z * Z)) (processed : list Z) : result (list (Z * Z)) :=
  match entities with
  | [] => Ok []
  | e :: entities =>
      candidates ← find e processed;
      let '(seen, new) := foldl (fun '(seen, new) c =>
          let key := pair_key (id e) (id c.1) in
          if bool_decide (key ∈ seen) then (seen, new) else (seen ++ [key], new ++ [(id e, id c.1)]))
        (seen, []) candidates in
      rest ← blocked_pairs find entities seen (processed ++ [id e]);
      Ok (new ++ rest)
  end.

Definition blocked (find : Entity -> list Z -> result (list (Entity * float))) (entities : list Entity)
  : result (list (Z * Z) * Z) :=
  pairs ← blocked_pairs find entities [] [];
  Ok (pairs, Z.of_nat (length pairs)).

(** The searches of an index the caller may pass. *)
Record Index := MkIndexSearches {
  search_embedding : float -> Entity -> list Z -> result (list (Entity * float));
  search_fuzzy : float -> Entity -> list Z -> result (list (Entity * float));
}.

Definition _find_embedding_matches (threshold : float) (index : option Index) (entities : list Entity)
  : result (list (Z * Z) * Z) :=
  let with_embeddings := List.filter (fun e => bool_decide (is_Some (embedding e))) entities in
  if Nat.ltb (length with_embeddings) 2 then Ok ([], 0)
  else match index with
       | Some index => blocked (search_embedding index threshold) with_embeddings
       | None => Ok (embedding_pairs threshold entities)
       end.

Definition _find_fuzzy_matches (threshold : float) (index : option Index) (entities : list Entity)
  : result (list (Z * Z) * Z) :=
  match index with
  | Some index => blocked (search_fuzzy index threshold) entities
  | None => Ok (fuzzy_pairs threshold entities)
  end.

(** ** Merge groups *)

Context (embedding_threshold fuzzy_threshold : float) (depth : nat).

Definition add_correlation (n : Z) (c : Counters) : Counters :=
  MkCounters (n_correlation c + n) (n_exact_name c) (n_embedding c) (n_fuzzy c).
Definition add_exact (n : Z) (c : Counters) : Counters :=
  MkCounters (n_correlation c) (n_exact_name c + n) (n_embedding c) (n_fuzzy c).
Definition add_embedding (n : Z) (c : Counters) : Counters :=
  MkCounters (n_correlation c) (n_exact_name c) (n_embedding c + n) (n_fuzzy c).
Definition add_fuzzy (n : Z) (c : Counters) : Counters :=
  MkCounters (n_correlation c) (n_exact_name c) (n_embedding c) (n_fuzzy c + n).

(** What a run of the matchers has built: the parents, the strategy of each matched pair,
    and the diagnostic counters. *)
Record Matching := MkMatching {
  m_parent : gmap Z Z;
  m_labels : pair_labels;
  m_evaluated : Counters;
  m_above : Counters;
}.

(** [for a, b in matches: union(a, b); _record(strategy, a, b)] *)
Definition unite (strategy : string) (pairs : list (Z * Z)) (evaluated above : Counters -> Counters) (m : Matching)
  : result Matching :=
  parent ← unions depth (m_parent m) pairs;
  Ok (MkMatching parent (foldl (_record strategy) (m_labels m) pairs) (evaluated (m_evaluated m)) (above (m_above m))).

Definition apply_rule (entities : list Entity) (m : Matching) (rule : CorrelationRule) : result Matching :=
  match match_fields rule with
  | [] => Ok m
  | fields =>
      matches ← _find_field_match_pairs entities fields (entity_types rule);
      let n := Z.of_nat (length matches) in
      unite ("correlation:" +:+ rule_name rule) matches (add_correlation n) (add_correlation n) m
  end.

Definition _find_merge_groups (rules : list CorrelationRule) (use_embeddings use_fuzzy : bool)
    (index : option Index) (entities : list Entity) : result (list (list Z) * Matching) :=
  let m := MkMatching (singletons (List.map id entities)) [] _zero_counters _zero_counters in
  m ← fold_m (apply_rule entities) m rules;
  let exact := _find_exact_name_matches entities in
  let n := Z.of_nat (length exact) in
  m ← unite "name_match" exact (add_exact n) (add_exact n) m;
  m ← (if use_embeddings then
         '(matches, evaluated) ← _find_embedding_matches embedding_threshold index entities;
         unite "embedding" matches (add_embedding evaluated) (add_embedding (Z.of_nat (length matches))) m
       else Ok m);
  m ← (if use_fuzzy then
         '(matches, evaluated) ← _find_fuzzy_matches fuzzy_threshold index entities;
         unite "fuzzy" matches (add_fuzzy evaluated) (add_fuzzy (Z.of_nat (length matches))) m
       else Ok m);
  groups ← build_groups depth (m_parent m) (List.map id entities) [];
  Ok (List.filter (fun g => Nat.ltb 1 (length g)) groups.*2, m).

(** ** Merging a group *)

(** The positions of the members of a group. *)
Definition members (group : list Z) (entities : list Entity) : list nat :=
  List.map fst (List.filter (fun p => bool_decide (id p.2 ∈ group)) (imap pair entities)).

Definition confidence_at (entities : list Entity) (i : nat) : float :=
  match entities !! i with Some e => confidence e | None => f0 end.

(** [base.merge_with(entity)], where both are objects of the run. *)
Definition merge_at (now : Z) (base : nat) (entities : list Entity) (other : nat) : list Entity :=
  match entities !! other with
  | Some e => alter (fun b => merge_with now b e) base entities
  | None => entities
  end.

(** The position of the survivor, and the entities after the merge. *)
Definition _merge_entity_group (now : Z) (entities : list Entity) (group : list nat) : result (nat * list Entity) :=
  match sort_by_desc flt (confidence_at entities) group with
  | [] => Err ValueError
  | [base] => Ok (base, entities)
  | base :: rest => Ok (base, foldl (merge_at now base) entities rest)
  end.

(** ** Relationships *)

Definition mapped (mapping : list (Z * Z)) (i : Z) : Z := default i (zget i mapping).

(** The relationship that the loop writes its new endpoints to; [None] when it is skipped. *)
Definition redirect (mapping : list (Z * Z)) (r : Relationship) : option Relationship :=
  let new_source := mapped mapping (source_entity_id r) in
  let new_target := mapped mapping (target_entity_id r) in
  if Z.eqb new_source new_target then None
  else Some (MkRelationship (rel_id r) (rel_namespace r) new_source new_target (relationship_type r)
               (rel_description r) (rel_properties r) (rel_documents r) (rel_chunks r) (rel_confidence r)).

(** The updated relationships, and what the caller's list holds afterwards: the objects are
    written in place. *)
Definition _update_relationships (relationships : list Relationship) (mapping : list (Z * Z))
  : list Relationship * list Relationship :=
  (omap (redirect mapping) relationships, List.map (fun r => default r (redirect mapping r)) relationships).

Context (iter : list Z -> list Z) (uuid4 : nat -> Z).

(** [{e.id: e for e in entities}] *)
Definition entity_lookup (entities : list Entity) (i : Z) : option Entity :=
  last (List.filter (fun e => Z.eqb (id e) i) entities).

Definition cross_reference (base other : Entity) (docs : list Z) : Z -> Relationship := fun i =>
  MkRelationship i (namespace_id base) (id base) (id other) "CROSS_REFERENCED"
    ("Entity '" +:+ name base +:+ "' referenced across documents") [("inferred", VBool true)] docs []
    (SpecFloat.binary_normalize 53 1024 6305039478318694 (-53) false).

Definition disjoint (l l' : list Z) : bool := forallb (fun x => negb (bool_decide (x ∈ l'))) l.

Definition group_references (entities : list Entity) (group : list Z) : list (Z -> Relationship) :=
  let group_entities := omap (entity_lookup entities) (iter group) in
  let all_doc_ids := foldl (fun docs e => append_new docs (source_document_ids e)) [] group_entities in
  match group_entities with
  | base :: others =>
      if Nat.ltb (length group_entities) 2 || Nat.ltb (length all_doc_ids) 2 then []
      else List.map (fun other => cross_reference base other (iter all_doc_ids))
             (List.filter (fun other => disjoint (source_document_ids base) (source_document_ids other)) others)
  | [] => []
  end.

Definition _find_new_relationships (groups : list (list Z)) (entities : list Entity) : list Relationship :=
  imap (fun i make => make (uuid4 i)) (List.concat (List.map (group_references entities) groups)).

(** ** Events *)

Record MergeEvent := MkMergeEvent {
  surviving_id : Z;
  ev_namespace : Z;
  merged_from : list Z;
  source_tools : list value;
  ev_strategy : string;
}.

(** The first recorded pair of the group, in the order of two nested loops. *)
Definition _strategy_for_group (group_entities : list Entity) (labels : pair_labels) : string :=
  match omap (fun p => zget (pair_key (id p.1) (id p.2)) labels) (all_pairs group_entities) with
  | strategy :: _ => strategy
  | [] => "name_match"
  end.

Definition tools_of (pre_merge : list Entity) : result (list value) :=
  fold_m (fun tools e =>
    match dict_get "source_tool" (attributes e) with
    | Some tool =>
        if negb (truthy tool) then Ok tools
        else if negb (hashable tool) then Err TypeError
        else Ok (if existsb (py_eq tool) tools then tools else tools ++ [tool])
    | None => Ok tools
    end) [] pre_merge.

(** One event per survivor; a dispatch that fails is swallowed, so the events are what the
    store is asked to dispatch. *)
Definition _dispatch_merge_events (entities : list Entity) (labels : pair_labels) (meta : list (nat * list nat))
  : result (list MergeEvent) :=
  extend_m (fun '(base, group) =>
    let pre_merge := omap (fun i => entities !! i) group in
    match entities !! base with
    | None => Ok []
    | Some surviving =>
        tools ← tools_of pre_merge;
        Ok [MkMergeEvent (id surviving) (namespace_id surviving) (List.map id pre_merge) tools
              (_strategy_for_group pre_merge labels)]
    end) meta.

(** ** The run *)

Record UnificationResult := MkUnificationResult {
  unified_entities : list Entity;
  entity_mapping : list (Z * Z);
  updated_relationships : list Relationship;
  new_relationships : list Relationship;
  entities_merged : Z;
  merge_groups : list (list Z);
  candidates_evaluated : Counters;
  pairs_above_threshold : Counters;
}.

(** What a run returns and leaves: its result, the entities and the relationships of the
    caller as it has changed them, and the events it dispatches. *)
Record Run := MkRun {
  run_result : UnificationResult;
  run_entities : list Entity;
  run_relationships : list Relationship;
  run_events : list MergeEvent;
}.

(** The loop over the groups: the objects, the positions of the survivors, the mapping, and
    the members of each merged group. *)
Record Merging := MkMerging {
  g_entities : list Entity;
  g_unified : list nat;
  g_mapping : list (Z * Z);
  g_merged : Z;
  g_groups : list (list Z);
  g_meta : list (nat * list nat);
}.

Definition merge_group (now : Z) (m : Merging) (group : list Z) : result Merging :=
  if Nat.ltb (length group) 2 then Ok m
  else
    let group_entities := members group (g_entities m) in
    '(base, entities) ← _merge_entity_group now (g_entities m) group_entities;
    match entities !! base with
    | None => Err IndexError
    | Some merged =>
        Ok (MkMerging entities (g_unified m ++ [base])
              (foldl (fun mapping i => zset i (id merged) mapping) (g_mapping m) (iter group))
              (g_merged m + Z.of_nat (length group) - 1) (g_groups m ++ [iter group])
              (g_meta m ++ [(base, group_entities)]))
    end.

(** [for entity in entities: if entity.id not in processed_ids] *)
Definition keep_unmerged (processed : list Z) (unified : list nat) (mapping : list (Z * Z)) (entities : list Entity)
  : list nat * list (Z * Z) :=
  foldl (fun '(unified, mapping) '(i, e) =>
    if bool_decide (id e ∈ processed) then (unified, mapping) else (unified ++ [i], zset (id e) (id e) mapping))
    (unified, mapping) (imap pair entities).

Definition unify (rules : list CorrelationRule) (use_embeddings use_fuzzy : bool) (index : option Index)
    (storage : bool) (now : Z) (entities : list Entity) (relationships : list Relationship) : result Run :=
  match entities with
  | [] => Ok (MkRun (MkUnificationResult [] [] [] [] 0 [] _zero_counters _zero_counters) [] relationships [])
  | _ =>
      '(groups, matching) ← _find_merge_groups rules use_embeddings use_fuzzy index entities;
      match groups with
      | [] =>
          Ok (MkRun (MkUnificationResult entities [] relationships [] 0 [] (m_evaluated matching) (m_above matching))
                entities relationships [])
      | _ =>
          m ← fold_m (merge_group now) (MkMerging entities [] [] 0 [] []) groups;
          let '(unified, mapping) :=
            keep_unmerged (List.concat groups) (g_unified m) (g_mapping m) (g_entities m) in
          let '(updated, relationships) := _update_relationships relationships mapping in
          let new := _find_new_relationships groups (g_entities m) in
          events ← (if storage then _dispatch_merge_events (g_entities m) (m_labels matching) (g_meta m) else Ok []);
          Ok (MkRun
                (MkUnificationResult (omap (fun i => g_entities m !! i) unified) mapping updated new (g_merged m)
                   (g_groups m) (m_evaluated matching) (m_above matching))
                (g_entities m) relationships events)
      end
  end.
End matching.
End Unify.
