(* ===== verification/UnifyFacts.v ===== *)
(** Facts about entity unification: which entities end up in one group, what a merge does to
    them, and what becomes of the relationships. *)
From S2P Require Import Prelude PyValue RankFusion RankFusionFacts Entities EntityIndex EntityIndexFacts UnionFind Unify.

Local Open Scope Z_scope.

Module UnifyFacts.
Import Entities.Entities EntityIndex.EntityIndex EntityIndexFacts.EntityIndexFacts UnionFind.UnionFind Unify.Unify.

(** ** Pairs and groups *)

(** [a] stands before [b] in the list. *)
Definition before {A} (l : list A) (a b : A) : Prop := exists l1 l2 l3, l = l1 ++ a :: l2 ++ b :: l3.

Lemma before_cons {A} (x : A) l a b : before (x :: l) a b <-> (a = x /\ b ∈ l) \/ before l a b.
Proof.
  split.
  - intros ([|y l1] & l2 & l3 & [= -> ->]); [left; set_solver|right; by exists l1, l2, l3].
  - intros [[-> Hb]|(l1 & l2 & l3 & ->)].
    + apply list_elem_of_split in Hb as (l2 & l3 & ->). by exists [], l2, l3.
    + by exists (x :: l1), l2, l3.
Qed.

Lemma before_nil {A} (a b : A) : ~ before [] a b.
Proof. intros ([|] & ? & ? & [=]). Qed.

Lemma elem_of_all_pairs {A} (l : list A) p : p ∈ all_pairs l <-> before l p.1 p.2.
Proof.
  induction l as [|x l IH]; cbn [all_pairs].
  - split; [by intros ?%elem_of_nil|by intros ?%before_nil].
  - rewrite before_cons, elem_of_app, IH. change (List.map ?f l) with (f <$> l). rewrite list_elem_of_fmap.
    destruct p as [a b]. cbn. naive_solver.
Qed.

Lemma elem_of_list_filter {A} (f : A -> bool) l y : y ∈ List.filter f l <-> y ∈ l /\ f y = true.
Proof. by rewrite !list_elem_of_In, filter_In. Qed.

Lemma before_filter {A} (f : A -> bool) l a b :
  before (List.filter f l) a b <-> before l a b /\ f a = true /\ f b = true.
Proof.
  induction l as [|x l IH]; cbn [List.filter].
  - split; [by intros ?%before_nil|by intros [?%before_nil _]].
  - assert (Hin : forall y, y ∈ List.filter f l <-> y ∈ l /\ f y = true).
    { intros y. by rewrite !list_elem_of_In, filter_In. }
    rewrite before_cons. destruct (f x) eqn:Hf; [rewrite before_cons, Hin, IH|rewrite IH]; clear IH Hin.
    + split; [intros [[-> [? ?]]|(? & ? & ?)]; auto|intros [[[-> ?]|?] [? ?]]; auto].
    + split; [intros (? & ? & ?); auto|intros [[[-> ?]|?] [? ?]]; [congruence|auto]].
Qed.

Lemma before_elem {A} (l : list A) a b : before l a b -> a ∈ l /\ b ∈ l.
Proof. intros (l1 & l2 & l3 & ->). set_solver. Qed.

Lemma elem_of_concat_list_map {A B} (f : A -> list B) l y : y ∈ List.concat (List.map f l) <-> exists x, x ∈ l /\ y ∈ f x.
Proof.
  setoid_rewrite list_elem_of_In. rewrite in_concat. setoid_rewrite in_map_iff. naive_solver.
Qed.

Section grouping.
Context {K : Type} `{!EqDecision K} (same : K -> K -> bool) (same_eq : forall k k', same k k' = true <-> k = k').

Lemma group_add_keys key e groups :
  (group_add same key e groups).*1 = if decide (key ∈ groups.*1) then groups.*1 else groups.*1 ++ [key].
Proof.
  induction groups as [|[k g] groups IH]; cbn [group_add]; csimpl; [done|].
  destruct (same k key) eqn:E; csimpl.
  - apply same_eq in E as ->. by rewrite decide_True by left.
  - assert (k <> key) by (intros ->; by rewrite (proj2 (same_eq key key)) in E). rewrite IH.
    destruct (decide (key ∈ groups.*1)) as [Hg|Hg].
    + by rewrite decide_True by (by right).
    + rewrite decide_False; [done|]. intros [->|?]%elem_of_cons; done.
Qed.

Lemma elem_of_group_add key e groups k g : NoDup groups.*1 ->
  (k, g) ∈ group_add same key e groups <->
  (k <> key /\ (k, g) ∈ groups) \/
  (k = key /\ exists g0, g = g0 ++ [e] /\ ((key, g0) ∈ groups \/ ((key ∉ groups.*1) /\ g0 = []))).
Proof.
  induction groups as [|[k0 g0] groups IH]; cbn [group_add]; csimpl.
  - intros _. rewrite list_elem_of_singleton. split.
    + intros [= -> ->]. right. split; [done|]. exists []. split; [done|]. right. split; [apply not_elem_of_nil|done].
    + intros [[_ ?%elem_of_nil]|(-> & g0 & -> & [?%elem_of_nil|[_ ->]])]; done.
  - intros [Hk0 Hn]%NoDup_cons. destruct (same k0 key) eqn:E.
    + apply same_eq in E as ->. rewrite !elem_of_cons. split.
      * intros [[= -> ->]|Hg]; [right; split; [done|]; exists g0; split; [done|]; left; by left|left].
        split; [|by right]. intros ->. by apply (list_elem_of_fmap_2 fst) in Hg.
      * intros [[Hne [[= -> ->]|Hg]]|(-> & g1 & -> & [Hg|[Hg _]])]; [done|by right| |].
        { apply elem_of_cons in Hg as [[= ->]|Hg]; [by left|]. by apply (list_elem_of_fmap_2 fst) in Hg. }
        destruct Hg. left.
    + assert (Hne0 : k0 <> key) by (intros ->; by rewrite (proj2 (same_eq key key)) in E).
      rewrite elem_of_cons, IH by done. split.
      * intros [[= -> ->]|[[Hne Hg]|(-> & g1 & -> & [Hg|[Hg ->]])]].
        { left. split; [done|left]. }
        { left. split; [done|by right]. }
        { right. split; [done|]. exists g1. split; [done|]. left. by right. }
        { right. split; [done|]. exists []. split; [done|]. right. split; [|done]. intros [->|?]%elem_of_cons; done. }
      * intros [[Hne [[= -> ->]|Hg]%elem_of_cons]|(-> & g1 & -> & [[[= -> ->]|Hg]%elem_of_cons|[Hg ->]])].
        { by left. }
        { right. by left. }
        { done. }
        { right. right. split; [done|]. exists g1. auto. }
        { right. right. split; [done|]. exists []. split; [done|]. right. split; [|done]. intros ?. apply Hg. by right. }
Qed.

(** Grouping splits the list by key. *)
Lemma grouping_spec (keyof : Entity -> K) l :
  let groups := foldl (fun groups e => group_add same (keyof e) e groups) [] l in
  NoDup groups.*1 /\
  forall k g, (k, g) ∈ groups <-> g = List.filter (fun e => bool_decide (keyof e = k)) l /\ g <> [].
Proof.
  induction l as [|e l IH] using rev_ind; cbn.
  - split; [apply NoDup_nil_2|]. intros k g. split; [by intros ?%elem_of_nil|]. by intros [-> ?].
  - rewrite foldl_app. cbn. destruct IH as [Hn Hin]. split.
    + rewrite group_add_keys. case_decide; [done|]. apply NoDup_app. split_and!; [done|set_solver|apply NoDup_singleton].
    + intros k g. rewrite elem_of_group_add, List.filter_app by done. cbn. setoid_rewrite Hin.
      destruct (decide (k = keyof e)) as [->|Hne].
      * rewrite bool_decide_true by done. split.
        { intros [[? _]|(_ & g0 & -> & [[-> _]|[Hno ->]])]; [done|split; [done|by destruct (List.filter _ _)]|].
          split; [|done]. destruct (List.filter _ l) as [|x r] eqn:Hf; [done|]. destruct Hno.
          apply list_elem_of_fmap. exists (keyof e, x :: r). split; [done|]. by apply Hin. }
        { intros [-> _]. right. split; [done|]. eexists. split; [done|].
          destruct (List.filter _ l) as [|x r] eqn:Hf; [right|by left]. split; [|done].
          intros ([k' g] & Hk & Hg)%list_elem_of_fmap. cbn in Hk. subst k'. apply Hin in Hg as [-> Hg]. by rewrite Hf in Hg. }
      * rewrite bool_decide_false by done. rewrite app_nil_r. split; [naive_solver|]. intros Hg'. left. auto.
Qed.

(** The pairs within the groups are the pairs of the list with one key. *)
Lemma elem_of_group_pairs (keyof : Entity -> K) l p :
  p ∈ List.concat (List.map all_pairs (foldl (fun groups e => group_add same (keyof e) e groups) [] l).*2) <->
  before l p.1 p.2 /\ keyof p.1 = keyof p.2.
Proof.
  destruct (grouping_spec keyof l) as [_ Hin]. rewrite elem_of_concat_list_map. setoid_rewrite elem_of_all_pairs. split.
  - intros (g & ([k g'] & -> & Hg)%list_elem_of_fmap & Hb). apply Hin in Hg as [-> _]. cbn in Hb.
    apply before_filter in Hb as (Hb & Hk & Hk'). apply bool_decide_eq_true in Hk, Hk'. split; [done|congruence].
  - intros [Hb Hk]. pose proof (Hin (keyof p.1)) as Hk1. set (g := List.filter _ l) in Hk1. exists g.
    assert (Hp : before g p.1 p.2) by (apply before_filter; by rewrite !bool_decide_true).
    split; [|done]. apply list_elem_of_fmap. exists (keyof p.1, g). split; [done|]. apply Hk1. split; [done|].
    intros Hnil. apply before_elem in Hp as [Hp _]. rewrite Hnil in Hp. by apply elem_of_nil in Hp.
Qed.
End grouping.

(** ** What makes two entities match *)

Section matching.
Context `{TextOps} (cosine_similarity : list float -> list float -> float)
  (levenshtein_similarity : string -> string -> float).

(** The normalised text of a field. *)
Definition field_text (field : string) (e : Entity) : option string :=
  match dict_get field (attributes e) with
  | Some (VStr s) => if String.eqb s "" then None else Some (strip (lower s))
  | _ => None
  end.

Definition admits (rule : CorrelationRule) (e : Entity) : Prop :=
  entity_types rule = [] \/ entity_type e ∈ entity_types rule.

Definition correlated (rules : list CorrelationRule) (e e' : Entity) : Prop :=
  exists rule field s, rule ∈ rules /\ field ∈ match_fields rule /\ admits rule e /\ admits rule e' /\
    field_text field e = Some s /\ field_text field e' = Some s.

(** The fields the rules match on hold strings, where they are present. *)
Definition textual (rules : list CorrelationRule) (entities : list Entity) : Prop :=
  forall rule field e v, rule ∈ rules -> field ∈ match_fields rule -> e ∈ entities ->
    dict_get field (attributes e) = Some v -> exists s, v = VStr s.

Definition text_group (field : string) (groups : list (string * list Entity)) (e : Entity) :=
  match field_text field e with Some k => group_add String.eqb k e groups | None => groups end.

Definition as_values (groups : list (string * list Entity)) : list (value * list Entity) :=
  (fun kg => (VStr kg.1, kg.2)) <$> groups.

Lemma group_add_text k e groups : group_add py_eq (VStr k) e (as_values groups) = as_values (group_add String.eqb k e groups).
Proof.
  induction groups as [|[k' g] groups IH]; [done|]. cbn. destruct (String.eqb k' k); [done|]. cbn. f_equal. apply IH.
Qed.

Lemma field_groups_text field entities groups :
  (forall e v, e ∈ entities -> dict_get field (attributes e) = Some v -> exists s, v = VStr s) ->
  field_groups field entities (as_values groups) = Ok (as_values (foldl (text_group field) groups entities)).
Proof.
  revert groups. induction entities as [|e entities IH]; intros groups Ht; cbn [field_groups foldl]; [done|].
  assert (IH' := fun g => IH g (fun e' v Hin => Ht e' v (list_elem_of_further _ _ _ Hin))).
  assert (Hg : text_group field groups e = match field_text field e with Some k => group_add String.eqb k e groups | None => groups end) by done.
  unfold field_key. unfold field_text in Hg. destruct (dict_get field (attributes e)) as [v|] eqn:Hv; [|rewrite Hg; apply IH'].
  destruct (Ht e v (list_elem_of_here _ _) Hv) as [s ->]. rewrite Hg. cbn.
  destruct (String.eqb s ""); cbn; [apply IH'|]. rewrite group_add_text. apply IH'.
Qed.

Lemma text_groups_filter field l groups : foldl (text_group field) groups l =
  foldl (fun groups e => group_add String.eqb (default "" (field_text field e)) e groups) groups
    (List.filter (fun e => bool_decide (is_Some (field_text field e))) l).
Proof.
  revert groups. induction l as [|e l IH]; intros groups; cbn [foldl List.filter]; [done|].
  rewrite IH. unfold text_group. destruct (field_text field e) as [k|] eqn:Hk; [|done].
  rewrite bool_decide_true by (by eexists). cbn [foldl]. by rewrite Hk.
Qed.

Lemma eqb_spec_iff k k' : String.eqb k k' = true <-> k = k'.
Proof. apply String.eqb_eq. Qed.

Definition field_pairs (field : string) (l : list Entity) : list (Z * Z) :=
  List.concat (List.map (fun g => List.map ids_of (all_pairs g.2)) (as_values (foldl (text_group field) [] l))).

Lemma elem_of_field_pairs field l x y : (x, y) ∈ field_pairs field l <->
  exists e e' s, before l e e' /\ id e = x /\ id e' = y /\ field_text field e = Some s /\ field_text field e' = Some s.
Proof.
  unfold field_pairs. rewrite text_groups_filter.
  set (l' := List.filter _ l). set (groups := foldl _ [] l').
  assert (Hgp := elem_of_group_pairs String.eqb eqb_spec_iff (fun e => default "" (field_text field e)) l'). cbn beta in Hgp. fold groups in Hgp.
  assert (Heq : (x, y) ∈ List.concat (List.map (fun g => List.map ids_of (all_pairs g.2)) (as_values groups)) <->
            exists p, p ∈ List.concat (List.map all_pairs groups.*2) /\ ids_of p = (x, y)).
  { rewrite elem_of_concat_list_map. setoid_rewrite elem_of_concat_list_map.
    setoid_rewrite list_elem_of_In at 2. setoid_rewrite in_map_iff. setoid_rewrite <- list_elem_of_In.
    unfold as_values. split.
    - intros (g & (kg & -> & Hg)%list_elem_of_fmap & p & Hp & Hin). exists p. split; [|done]. exists kg.2.
      split; [by apply list_elem_of_fmap_2|done].
    - intros (p & (g & ([k g'] & -> & Hg)%list_elem_of_fmap & Hin) & Hp). exists (VStr k, g'). split; [|by exists p].
      apply list_elem_of_fmap. by exists (k, g'). }
  assert (Hbf := before_filter (fun e => bool_decide (is_Some (field_text field e))) l). fold l' in Hbf.
  rewrite Heq. split; [setoid_rewrite Hgp; setoid_rewrite Hbf|].
  - intros ([e e'] & [(Hb & Hs & Hs') Hk] & [= <- <-]). apply bool_decide_eq_true in Hs as [s Hs], Hs' as [s' Hs'].
    cbn in *. rewrite Hs, Hs' in Hk. cbn in Hk. subst s'. by exists e, e', s.
  - intros (e & e' & s & Hb & <- & <- & Hs & Hs'). exists (e, e'). rewrite Hgp, Hbf. cbn. rewrite Hs, Hs'. 
    rewrite !bool_decide_true by (by eexists). done.
Qed.

Lemma field_match_pairs rule entities : 
  (forall field e v, field ∈ match_fields rule -> e ∈ entities ->
    dict_get field (attributes e) = Some v -> exists s, v = VStr s) ->
  exists pairs, _find_field_match_pairs entities (match_fields rule) (entity_types rule) = Ok pairs /\
    forall x y, (x, y) ∈ pairs <-> exists e e' field s, before entities e e' /\ id e = x /\ id e' = y /\
      field ∈ match_fields rule /\ admits rule e /\ admits rule e' /\ field_text field e = Some s /\ field_text field e' = Some s.
Proof.
  intros Ht. unfold _find_field_match_pairs.
  set (candidates := match entity_types rule with [] => entities | _ => _ end).
  assert (Hc : forall e e', before candidates e e' <-> before entities e e' /\ admits rule e /\ admits rule e').
  { intros e e'. subst candidates. unfold admits. destruct (entity_types rule) as [|t ts] eqn:Hty; [naive_solver|].
    rewrite before_filter, !mem_str_true. naive_solver. }
  assert (Hsub : forall e, e ∈ candidates -> e ∈ entities).
  { intros e. subst candidates. destruct (entity_types rule); [done|]. by intros [? _]%elem_of_list_filter. }
  exists (List.concat (List.map (fun field => field_pairs field candidates) (match_fields rule))). split.
  - unfold extend_m. rewrite (proj2 (map_m_ok _ _ (List.map (fun field => field_pairs field candidates) (match_fields rule)))); [done|].
    clear Hc. revert Ht. induction (match_fields rule) as [|field fields IH]; intros Ht; cbn; constructor.
    + change (@nil (value * list Entity)) with (as_values []). rewrite field_groups_text; [done|].
      intros e v He. apply Ht; [left|auto].
    + apply IH. intros field' e v Hf. apply Ht. by right.
  - intros x y. rewrite elem_of_concat_list_map. setoid_rewrite elem_of_field_pairs. setoid_rewrite Hc. naive_solver.
Qed.

(** ** The pairs of each strategy *)

Lemma same_key_eq k k' : same_key k k' = true <-> k = k'.
Proof.
  destruct k as [a b], k' as [a' b']. unfold same_key. cbn. rewrite andb_true_iff, !String.eqb_eq. naive_solver.
Qed.

Lemma name_group_members entities g : g ∈ name_groups entities ->
  exists k, g = List.filter (fun e => bool_decide (name_key e = k)) entities.
Proof.
  unfold name_groups. intros ([k g'] & -> & Hg)%list_elem_of_fmap. exists k.
  by apply (grouping_spec same_key same_key_eq name_key entities) in Hg as [-> _].
Qed.

Lemma exact_pairs_sound entities x y : (x, y) ∈ _find_exact_name_matches entities ->
  exists e e', before entities e e' /\ id e = x /\ id e' = y /\ name_key e = name_key e'.
Proof.
  unfold _find_exact_name_matches. intros (g & Hg & Hin)%elem_of_concat_list_map.
  apply name_group_members in Hg as [k Hk]. destruct g as [|first rest]; [by apply elem_of_nil in Hin|].
  unfold star in Hin. apply list_elem_of_fmap in Hin as (y' & [= -> ->] & Hin).
  change (List.map id rest) with (id <$> rest) in Hin. apply list_elem_of_fmap in Hin as (e' & -> & Hin).
  exists first, e'. assert (Hb : before (first :: rest) first e') by (apply before_cons; auto).
  rewrite Hk in Hb. apply before_filter in Hb as (Hb & H1 & H2).
  apply bool_decide_eq_true in H1, H2. split_and!; [done..|congruence].
Qed.

(** The star of a group joins any two of its members. *)
Lemma exact_pairs_complete entities e e' : e ∈ entities -> e' ∈ entities -> name_key e = name_key e' ->
  joined (_find_exact_name_matches entities) (id e) (id e').
Proof.
  intros He He' Hk. set (g := List.filter (fun x => bool_decide (name_key x = name_key e)) entities).
  assert (Hin : forall x, x ∈ entities -> name_key x = name_key e -> x ∈ g).
  { intros x Hx Hkx. apply elem_of_list_filter. by rewrite bool_decide_true. }
  assert (Hg : g ∈ name_groups entities).
  { unfold name_groups. apply list_elem_of_fmap. exists (name_key e, g). split; [done|].
    apply (grouping_spec same_key same_key_eq name_key entities). split; [done|].
    intros Hnil. specialize (Hin e He eq_refl). rewrite Hnil in Hin. by apply elem_of_nil in Hin. }
  assert (Hfirst : exists f, forall x, x ∈ g -> joined (_find_exact_name_matches entities) f (id x)).
  { destruct g as [|first rest] eqn:Eg; [exists 0; intros x Hx; by apply elem_of_nil in Hx|].
    exists (id first). intros x [->|Hx]%elem_of_cons; [reflexivity|]. apply joined_pair.
    unfold _find_exact_name_matches. apply elem_of_concat_list_map. exists (first :: rest). split; [done|].
    unfold star. apply list_elem_of_fmap. exists (id x). split; [done|]. by apply (list_elem_of_fmap_2 id). }
  destruct Hfirst as [f Hf]. transitivity f; [symmetry|]; apply Hf, Hin; auto.
Qed.

Lemma before_omap {A B} (f : A -> option B) l b b' :
  before (omap f l) b b' <-> exists a a', before l a a' /\ f a = Some b /\ f a' = Some b'.
Proof.
  induction l as [|x l IH]; csimpl.
  - split; [by intros ?%before_nil|]. by intros (a & a' & ?%before_nil & _).
  - setoid_rewrite before_cons. destruct (f x) as [y|] eqn:Hf; [rewrite before_cons, IH, list_elem_of_omap|rewrite IH].
    + split.
      * intros [[-> (a & Ha & Hb)]|(a & a' & Hb & Hfa)]; [exists x, a; auto|exists a, a'; tauto].
      * intros (a & a' & [[-> Ha]|Hb] & Hfa & Hfa'); [left; simplify_eq; eauto|right; eauto].
    + split; [intros (a & a' & Hb & Hfa); exists a, a'; tauto|].
      intros (a & a' & [[-> Ha]|Hb] & Hfa & Hfa'); [congruence|eauto].
Qed.

Context (embedding_threshold fuzzy_threshold : float).

Definition close (e e' : Entity) : Prop :=
  entity_type e = entity_type e' /\ exists v v', embedding e = Some v /\ embedding e' = Some v' /\
    reaches (cosine_similarity v v') embedding_threshold = true.

Definition alike (e e' : Entity) : Prop :=
  entity_type e = entity_type e' /\ reaches (levenshtein_similarity (name e) (name e')) fuzzy_threshold = true.

Lemma embedding_pairs_spec entities x y :
  (x, y) ∈ (embedding_pairs cosine_similarity embedding_threshold entities).1 <->
  exists e e', before entities e e' /\ id e = x /\ id e' = y /\ close e e'.
Proof.
  unfold embedding_pairs, close. cbn [fst]. change (List.map ?f ?l) with (f <$> l). rewrite list_elem_of_fmap.
  setoid_rewrite elem_of_list_filter. setoid_rewrite elem_of_list_filter. setoid_rewrite elem_of_all_pairs.
  setoid_rewrite before_omap. setoid_rewrite String.eqb_eq. split.
  - intros ([[e v] [e' v']] & [= -> ->] & ((a & a' & Hb & Ha & Ha') & Ht) & Hr). cbn in *.
    destruct (embedding a) as [w|] eqn:Ew, (embedding a') as [w'|] eqn:Ew'; simplify_eq. exists e, e'. eauto 10.
  - intros (e & e' & Hb & <- & <- & Ht & v & v' & Hv & Hv' & Hr). exists (e, v, (e', v')). cbn.
    split_and!; [done| |done..]. exists e, e'. by rewrite Hv, Hv'.
Qed.

Lemma fuzzy_pairs_spec entities x y :
  (x, y) ∈ (fuzzy_pairs levenshtein_similarity fuzzy_threshold entities).1 <->
  exists e e', before entities e e' /\ id e = x /\ id e' = y /\ alike e e'.
Proof.
  unfold fuzzy_pairs, alike. cbn [fst]. change (List.map ids_of ?l) with (ids_of <$> l). rewrite list_elem_of_fmap.
  setoid_rewrite elem_of_list_filter.
  pose proof (elem_of_group_pairs String.eqb eqb_spec_iff entity_type entities) as Hg. unfold type_groups.
  split.
  - intros ([e e'] & [= -> ->] & Hin & Hr). apply Hg in Hin as [Hb Ht]. by exists e, e'.
  - intros (e & e' & Hb & <- & <- & Ht & Hr). exists (e, e'). split; [done|]. split; [by apply Hg|done].
Qed.

(** ** The groups of a run without an index *)

Definition similar (rules : list CorrelationRule) (use_embeddings use_fuzzy : bool) (e e' : Entity) : Prop :=
  correlated rules e e' \/ name_key e = name_key e' \/
  (use_embeddings = true /\ close e e') \/ (use_fuzzy = true /\ alike e e').

(** Two ids match when an entity of the first stands before one of the second that it is
    similar to. *)
Definition matched rules use_embeddings use_fuzzy (entities : list Entity) : relation Z := fun x y =>
  exists e e', before entities e e' /\ id e = x /\ id e' = y /\ similar rules use_embeddings use_fuzzy e e'.

Context (depth : nat).

Section run.
Context (entities : list Entity) (Hdepth : (length entities <= depth)%nat).

Definition id_set : gset Z := list_to_set (List.map id entities).

(** A matching has joined the pairs listed. *)
Definition joins (m : Matching) (pairs : list (Z * Z)) : Prop := classes (m_parent m) id_set pairs.

Lemma id_set_size : (size id_set <= depth)%nat.
Proof. pose proof (size_list_to_set_le (List.map id entities)) as Hs. rewrite List.length_map in Hs. unfold id_set. lia. Qed.

Lemma unite_joins strategy pairs f g m before_pairs : joins m before_pairs ->
  (forall x y, (x, y) ∈ pairs -> exists e e', before entities e e' /\ id e = x /\ id e' = y) ->
  exists m', unite depth strategy pairs f g m = Ok m' /\ joins m' (before_pairs ++ pairs).
Proof.
  intros Hm Hp. unfold unite.
  destruct (unions_classes depth id_set pairs before_pairs (m_parent m) Hm id_set_size) as (p & Hu & Hc).
  - intros a b Hab. destruct (Hp a b Hab) as (e & e' & [He He']%before_elem & <- & <-). unfold id_set.
    rewrite !elem_of_list_to_set. change (List.map id entities) with (id <$> entities). split; by apply list_elem_of_fmap_2.
  - change (mbind ?k ?x) with (match x with Ok a => k a | Err e => Err e end). rewrite Hu. eexists. by split.
Qed.

Lemma rules_join rules m before_pairs : textual rules entities -> joins m before_pairs ->
  exists m' pairs, fold_m (apply_rule depth entities) m rules = Ok m' /\ joins m' (before_pairs ++ pairs) /\
    forall x y, (x, y) ∈ pairs <-> exists e e', before entities e e' /\ id e = x /\ id e' = y /\ correlated rules e e'.
Proof.
  revert m before_pairs. induction rules as [|rule rules IH]; intros m before_pairs Ht Hm.
  - exists m, []. rewrite app_nil_r. split_and!; [done..|]. intros x y. split; [by intros ?%elem_of_nil|].
    intros (e & e' & _ & _ & _ & (rule & f & s & Hr & _)). by apply elem_of_nil in Hr.
  - assert (Hrule : exists m' pairs, apply_rule depth entities m rule = Ok m' /\ joins m' (before_pairs ++ pairs) /\
      forall x y, (x, y) ∈ pairs <-> exists e e', before entities e e' /\ id e = x /\ id e' = y /\ correlated [rule] e e').
    { destruct (field_match_pairs rule entities) as (pairs & Hf & Hp).
      { intros field e v. apply Ht. left. }
      assert (Hp' : forall x y, (x, y) ∈ pairs <-> exists e e', before entities e e' /\ id e = x /\ id e' = y /\ correlated [rule] e e').
      { intros x y. rewrite Hp. unfold correlated. setoid_rewrite list_elem_of_singleton. naive_solver. }
      unfold apply_rule. destruct (match_fields rule) as [|f fs] eqn:Hfs.
      - exists m, []. rewrite app_nil_r. split_and!; [done..|]. intros x y. split; [by intros ?%elem_of_nil|].
        intros Hx%Hp'%Hp. destruct Hx as (? & ? & ? & ? & _ & _ & _ & Hn & _). by apply elem_of_nil in Hn.
      - change (mbind ?k ?x) with (match x with Ok a => k a | Err e => Err e end). rewrite Hf.
        edestruct (unite_joins ("correlation:" +:+ rule_name rule) pairs) as (m' & Hu & Hj); [exact Hm| |].
        + intros x y (e & e' & Hb & ? & ? & _)%Hp'. by exists e, e'.
        + exists m', pairs. by split_and!. }
    destruct Hrule as (m1 & pairs1 & H1 & Hj1 & Hp1).
    destruct (IH m1 (before_pairs ++ pairs1)) as (m2 & pairs2 & H2 & Hj2 & Hp2); [|done|].
    { intros rule' field e v Hr. apply Ht. by right. }
    exists m2, (pairs1 ++ pairs2). cbn [fold_m]. rewrite H1. rewrite <- (assoc_L app) in Hj2. split_and!; [done..|].
    intros x y. rewrite elem_of_app, Hp1, Hp2. unfold correlated. setoid_rewrite elem_of_cons.
    setoid_rewrite elem_of_nil. naive_solver.
Qed.

Lemma optional_join (use : bool) strategy (pairs : list (Z * Z)) f g m before_pairs : joins m before_pairs ->
  (forall x y, (x, y) ∈ pairs -> exists e e', before entities e e' /\ id e = x /\ id e' = y) ->
  exists m', (if use then unite depth strategy pairs f g m else Ok m) = Ok m' /\
    joins m' (before_pairs ++ if use then pairs else []).
Proof.
  intros Hm Hp. destruct use; [by apply unite_joins|]. exists m. by rewrite app_nil_r.
Qed.

Lemma few_embeddings : (length (List.filter (fun e => bool_decide (is_Some (embedding e))) entities) < 2)%nat ->
  (embedding_pairs cosine_similarity embedding_threshold entities).1 = [].
Proof.
  intros Hl. destruct (embedding_pairs cosine_similarity embedding_threshold entities).1 as [|[x y] r] eqn:Hp; [done|].
  assert (Hin : (x, y) ∈ (embedding_pairs cosine_similarity embedding_threshold entities).1) by (rewrite Hp; left).
  apply embedding_pairs_spec in Hin as (e & e' & Hb & _ & _ & _ & v & v' & Hv & Hv' & _).
  assert (Hb' : before (List.filter (fun e => bool_decide (is_Some (embedding e))) entities) e e').
  { apply before_filter. by rewrite !bool_decide_true by (rewrite ?Hv, ?Hv'; by eexists). }
  destruct Hb' as (l1 & l2 & l3 & Heq). rewrite Heq, !length_app in Hl. cbn in Hl. rewrite length_app in Hl. cbn in Hl. lia.
Qed.

Lemma find_embedding_none : exists pairs n,
  _find_embedding_matches cosine_similarity embedding_threshold None entities = Ok (pairs, n) /\
  forall x y, (x, y) ∈ pairs <-> exists e e', before entities e e' /\ id e = x /\ id e' = y /\ close e e'.
Proof.
  unfold _find_embedding_matches. destruct (Nat.ltb_spec (length (List.filter (fun e => bool_decide (is_Some (embedding e))) entities)) 2) as [Hl|Hl].
  - exists [], 0. split; [done|]. intros x y. rewrite <- embedding_pairs_spec. by rewrite few_embeddings.
  - destruct (embedding_pairs cosine_similarity embedding_threshold entities) as [pairs n] eqn:Hp.
    exists pairs, n. split; [done|]. intros x y. rewrite <- embedding_pairs_spec. by rewrite Hp.
Qed.

Lemma find_merge_groups_classes rules use_embeddings use_fuzzy : textual rules entities ->
  exists groups m pairs,
    _find_merge_groups cosine_similarity levenshtein_similarity embedding_threshold fuzzy_threshold depth rules
      use_embeddings use_fuzzy None entities = Ok (groups, m) /\
    groups_of (List.map id entities) pairs groups /\
    (forall x y, joined pairs x y <-> rtsc (matched rules use_embeddings use_fuzzy entities) x y).
Proof.
  intros Ht. unfold _find_merge_groups.
  set (m0 := MkMatching _ _ _ _). assert (H0 : joins m0 []) by apply singletons_classes.
  destruct (rules_join rules m0 [] Ht H0) as (m1 & p1 & H1 & Hj1 & Hp1).
  destruct (unite_joins "name_match" (_find_exact_name_matches entities)
    (add_exact (Z.of_nat (length (_find_exact_name_matches entities))))
    (add_exact (Z.of_nat (length (_find_exact_name_matches entities)))) m1 _ Hj1) as (m2 & H2 & Hj2).
  { intros x y (e & e' & Hb & Hx & Hy & _)%exact_pairs_sound. by exists e, e'. }
  destruct find_embedding_none as (p3 & n3 & H3 & Hp3).
  destruct (optional_join use_embeddings "embedding" p3 (add_embedding n3) (add_embedding (Z.of_nat (length p3))) m2 _ Hj2)
    as (m3 & Hu3 & Hj3).
  { intros x y (e & e' & Hb & Hx & Hy & _)%Hp3. by exists e, e'. }
  destruct (fuzzy_pairs levenshtein_similarity fuzzy_threshold entities) as [p4 n4] eqn:H4.
  assert (Hp4 := fuzzy_pairs_spec entities). rewrite H4 in Hp4. cbn [fst] in Hp4.
  destruct (optional_join use_fuzzy "fuzzy" p4 (add_fuzzy n4) (add_fuzzy (Z.of_nat (length p4))) m3 _ Hj3) as (m4 & Hu4 & Hj4).
  { intros x y (e & e' & Hb & Hx & Hy & _)%Hp4. by exists e, e'. }
  destruct (classes_groups depth (List.map id entities) _ (m_parent m4) Hj4) as (groups & Hg & Hgo).
  { by rewrite List.length_map. }
  eexists (large groups), m4, _. split_and!; [|exact Hgo|].
  - cbv zeta. unfold mbind, result_bind. rewrite H1, H2, H3.
    unfold _find_fuzzy_matches. rewrite H4. destruct use_embeddings, use_fuzzy; simplify_eq; rewrite ?Hu3, ?Hu4; by rewrite Hg.
  - clear -Hp1 Hp3 Hp4. intros x y. split.
    + apply (rtsc_congruence (fun z : Z => z)). clear x y. intros x y. cbn beta. rewrite !elem_of_app, elem_of_nil.
      unfold matched, similar. intros [[[[[]|Hx%Hp1]|Hx%exact_pairs_sound]|Hx]|Hx].
      * destruct Hx as (e & e' & ? & ? & ? & ?). exists e, e'. split_and!; auto.
      * destruct Hx as (e & e' & ? & ? & ? & ?). exists e, e'. split_and!; auto.
      * destruct use_embeddings; [|by apply elem_of_nil in Hx].
        apply Hp3 in Hx as (e & e' & ? & ? & ? & ?). exists e, e'. split_and!; auto 7.
      * destruct use_fuzzy; [|by apply elem_of_nil in Hx].
        apply Hp4 in Hx as (e & e' & ? & ? & ? & ?). exists e, e'. split_and!; auto 8.
    + assert (Hstep : forall x y, matched rules use_embeddings use_fuzzy entities x y ->
        joined ((([] ++ p1) ++ _find_exact_name_matches entities) ++ (if use_embeddings then p3 else []) ++ (if use_fuzzy then p4 else [])) x y).
      { clear x y. intros x y (e & e' & Hb & <- & <- & [Hs|[Hs|[[-> Hs]|[-> Hs]]]]).
        - apply joined_pair. rewrite !elem_of_app. left. left. right. apply Hp1. by exists e, e'.
        - eapply joined_weaken; [|apply exact_pairs_complete; [apply before_elem in Hb as []..|done]; done].
          intros p Hp. rewrite !elem_of_app. auto.
        - apply joined_pair. rewrite !elem_of_app. right. left. apply Hp3. by exists e, e'.
        - apply joined_pair. rewrite !elem_of_app. right. right. apply Hp4. by exists e, e'. }
      rewrite <- (assoc_L app). intros Hr. induction Hr as [x|x y z [Hxy|Hxy] _ IH]; [reflexivity| |].
      * transitivity y; [by apply Hstep|done].
      * transitivity y; [symmetry; by apply Hstep|done].
Qed.
End run.
End matching.
End UnifyFacts.
