(* ===== verification/UnifyMerge.v ===== *)
(** What unification does to the entities of a group: one survivor per group, to which the
    others are added; the other entities stay as they are; the mapping sends every id to the
    entity that stands for it. *)
From S2P Require Import Prelude PyValue RankFusion RankFusionFacts Entities EntityIndex EntityIndexFacts UnionFind Unify UnifyFacts.

Local Open Scope Z_scope.

Module UnifyMerge.
Import Entities.Entities EntityIndex.EntityIndex EntityIndexFacts.EntityIndexFacts UnionFind.UnionFind Unify.Unify UnifyFacts.UnifyFacts.

(** ** Adding entities to a survivor *)

Section merge.
Context (now : Z).

Definition absorb (b : Entity) (others : list Entity) : Entity := foldl (merge_with now) b others.

Lemma absorb_id b others : id (absorb b others) = id b.
Proof. revert b. induction others as [|e others IH]; intros b; cbn; [done|]. by rewrite IH. Qed.

Definition mentions (l : list Entity) : Z := foldr Z.add 0 (mention_count <$> l).

Lemma mentions_perm l l' : l ≡ₚ l' -> mentions l = mentions l'.
Proof. unfold mentions. induction 1; csimpl; lia. Qed.

Lemma mentions_app l l' : mentions (l ++ l') = mentions l + mentions l'.
Proof. unfold mentions. induction l as [|e l IH]; csimpl; lia. Qed.

Lemma absorb_mentions b others : mention_count (absorb b others) = mentions (b :: others).
Proof.
  revert b. induction others as [|e others IH]; intros b; [unfold mentions; csimpl; lia|].
  change (absorb b (e :: others)) with (absorb (merge_with now b e) others). rewrite IH. unfold mentions. csimpl. lia.
Qed.

Lemma absorb_documents b others d : d ∈ source_document_ids (absorb b others) <-> exists e, e ∈ b :: others /\ d ∈ source_document_ids e.
Proof.
  revert b. induction others as [|o others IH]; intros b.
  - cbn. setoid_rewrite list_elem_of_singleton. naive_solver.
  - change (absorb b (o :: others)) with (absorb (merge_with now b o) others). rewrite IH.
    setoid_rewrite elem_of_cons. setoid_rewrite elem_of_cons. split.
    + intros (e & [->|He] & Hd); [|exists e; by auto]. cbn in Hd. apply elem_of_append_new in Hd as [Hd|Hd]; [exists b|exists o]; auto.
    + intros (e & [->|[->|He]] & Hd); [exists (merge_with now b o)..|exists e; by auto];
        (split; [by left|]; apply elem_of_append_new; auto).
Qed.

Lemma absorb_attribute b others k v : dict_get k (attributes (absorb b others)) = Some v ->
  exists e, e ∈ b :: others /\ dict_get k (attributes e) = Some v.
Proof.
  revert b. induction others as [|o others IH]; intros b.
  - intros Hv. exists b. split; [left|done].
  - change (absorb b (o :: others)) with (absorb (merge_with now b o) others). intros (e & He & Hv)%IH.
    apply elem_of_cons in He as [->|He].
    + cbn in Hv. rewrite attrs_merge_get in Hv. destruct (dict_get k (attributes b)) as [w|] eqn:Hb.
      * exists b. split; [left|congruence].
      * exists o. split; [right; left|done].
    + exists e. split; [by right; right|done].
Qed.

(** ** Merging at a position *)

Lemma alter_as_insert (f : Entity -> Entity) i b (es : list Entity) : es !! i = Some b -> alter f i es = <[i := f b]> es.
Proof.
  revert i. induction es as [|e es IH]; intros [|i] Hi; [done..| |]; cbn in Hi; [by simplify_eq|].
  change (e :: alter f i es = e :: <[i := f b]> es). by rewrite IH.
Qed.

Lemma merge_at_fold base rest es b : es !! base = Some b -> base ∉ rest ->
  foldl (merge_at now base) es rest = <[base := absorb b (omap (fun i => es !! i) rest)]> es.
Proof.
  assert (Hgen : forall rest b, base ∉ rest -> forall es0, es0 !! base = Some b ->
    foldl (merge_at now base) es0 rest = <[base := absorb b (omap (fun i => es0 !! i) rest)]> es0).
  { clear. induction rest as [|i rest IH]; intros b Hb es0 Hes; cbn [foldl].
    - cbn. by rewrite list_insert_id.
    - apply not_elem_of_cons in Hb as [Hne Hb]. unfold merge_at at 2. csimpl.
      destruct (es0 !! i) as [e|] eqn:He; [|by apply IH].
      rewrite (IH (merge_with now b e)); [|done|by rewrite list_lookup_alter_eq, Hes].
      change (absorb b (e :: ?l)) with (absorb (merge_with now b e) l).
      assert (Hom : omap (fun i => alter (fun b => merge_with now b e) base es0 !! i) rest = omap (fun i => es0 !! i) rest).
      { clear IH. induction rest as [|j rest IHr]; csimpl; [done|]. apply not_elem_of_cons in Hb as [Hj Hb].
        rewrite list_lookup_alter_ne by done. by rewrite IHr. }
      rewrite Hom, (alter_as_insert _ _ b) by done. by rewrite list_insert_insert_eq. }
  intros Hb Hr. by apply Hgen.
Qed.

Lemma merge_entity_group_spec es group : group <> [] -> NoDup group -> (forall i, i ∈ group -> is_Some (es !! i)) ->
  exists base rest b, base :: rest ≡ₚ group /\ es !! base = Some b /\
    _merge_entity_group now es group = Ok (base, <[base := absorb b (omap (fun i => es !! i) rest)]> es).
Proof.
  intros Hne Hn Hin. unfold _merge_entity_group. pose proof (sort_by_desc_perm flt (confidence_at es) group) as Hp.
  destruct (sort_by_desc flt (confidence_at es) group) as [|base rest] eqn:Hs.
  { apply Permutation_nil_l in Hp. congruence. }
  assert (Hb : base ∈ group) by (rewrite <- Hp; left). destruct (Hin base Hb) as [b Hesb].
  assert (Hnr : base ∉ rest) by (rewrite <- Hp in Hn; by apply NoDup_cons in Hn as []).
  exists base, rest, b. split_and!; [done..|]. rewrite <- (merge_at_fold base rest es b) by done. by destruct rest.
Qed.

(** ** The members of a group *)

Lemma elem_of_members g es i : i ∈ members g es <-> exists e, es !! i = Some e /\ id e ∈ g.
Proof.
  unfold members. change (List.map fst ?l) with (l.*1). rewrite list_elem_of_fmap. setoid_rewrite elem_of_list_filter. split.
  - intros ([j e] & -> & (k & Hk)%list_elem_of_lookup & Hb). rewrite list_lookup_imap in Hk.
    destruct (es !! k) as [e'|] eqn:He; [|done]. cbn in Hk. simplify_eq. apply bool_decide_eq_true in Hb. by exists e.
  - intros (e & He & Hg). exists (i, e). split; [done|]. rewrite bool_decide_true by done. split; [|done].
    apply list_elem_of_lookup. exists i. by rewrite list_lookup_imap, He.
Qed.

Lemma NoDup_members g es : NoDup (members g es).
Proof.
  unfold members. change (List.map fst ?l) with (l.*1). eapply sublist_NoDup; [|apply sublist_fmap, filter_list_sublist].
  rewrite fmap_imap. apply NoDup_alt. intros i j x Hi Hj. rewrite list_lookup_imap in Hi, Hj.
  destruct (es !! i), (es !! j); simplify_eq/=; done.
Qed.

(** The members depend on the ids only. *)
Lemma members_ids g es es' : id <$> es = id <$> es' -> members g es = members g es'.
Proof.
  intros Hids. assert (Hm : forall es, members g es = (List.filter (fun p => bool_decide (p.2 ∈ g)) (imap pair (id <$> es))).*1).
  { clear. intros es. unfold members. change (List.map fst ?l) with (l.*1).
    assert (Hp : imap pair (id <$> es) = (fun p => (p.1, id p.2)) <$> imap pair es).
    { apply list_eq. intros i. rewrite list_lookup_imap, !list_lookup_fmap, list_lookup_imap. by destruct (es !! i). }
    rewrite Hp. generalize (imap pair es). clear. induction l as [|[i e] l IH]; cbn; [done|].
    destruct (bool_decide (id e ∈ g)); csimpl; by rewrite IH. }
  by rewrite !Hm, Hids.
Qed.

Lemma lookup_of_ids (es es' : list Entity) i e : id <$> es = id <$> es' -> es !! i = Some e ->
  exists e', es' !! i = Some e' /\ id e' = id e.
Proof.
  intros Hids He. assert (Hl : (id <$> es) !! i = Some (id e)) by by rewrite list_lookup_fmap, He.
  rewrite Hids, list_lookup_fmap in Hl. destruct (es' !! i) as [e'|]; [|done]. cbn in Hl. simplify_eq. by exists e'.
Qed.

(** ** The loop over the groups *)

Context (iter : list Z -> list Z) (iter_perm : forall l, iter l ≡ₚ l).
Context (entities : list Entity).

(** The object at [base] is what a member of the group becomes when it absorbs the others. *)
Definition survivor (final : list Entity) (g : list Z) (base : nat) : Prop :=
  exists b rest, base :: rest ≡ₚ members g entities /\ entities !! base = Some b /\
    final !! base = Some (absorb b (omap (fun i => entities !! i) rest)).

Record merged (handled : list (list Z)) (m : Merging) : Prop := {
  merged_ids : id <$> g_entities m = id <$> entities;
  merged_rest i e : entities !! i = Some e -> id e ∉ List.concat handled -> g_entities m !! i = Some e;
  merged_others i e : entities !! i = Some e -> i ∉ g_unified m -> g_entities m !! i = Some e;
  merged_survivors : Forall2 (survivor (g_entities m)) handled (g_unified m);
  merged_mapping k g base e i : handled !! k = Some g -> g_unified m !! k = Some base -> entities !! base = Some e ->
    i ∈ g -> zget i (g_mapping m) = Some (id e);
  merged_unmapped i : i ∉ List.concat handled -> zget i (g_mapping m) = None;
  merged_count : g_merged m = Z.of_nat (length (List.concat handled)) - Z.of_nat (length handled);
  merged_meta base group : (base, group) ∈ g_meta m -> exists g, g ∈ handled /\ group = members g entities;
}.

Lemma zget_sets (l : list Z) (v : Z) (d : list (Z * Z)) i :
  zget i (foldl (fun d i => zset i v d) d l) = if decide (i ∈ l) then Some v else zget i d.
Proof.
  revert d. induction l as [|x l IH]; intros d; cbn -[decide]; [by rewrite decide_False by apply not_elem_of_nil|].
  rewrite IH. destruct (decide (i ∈ l)) as [Hi|Hi]; [by rewrite decide_True by by right|].
  destruct (decide (i = x)) as [->|Hne]; [rewrite zget_zset_eq; by rewrite decide_True by left|].
  rewrite zget_zset_ne, decide_False by (done || (intros [?|?]%elem_of_cons; done)). done.
Qed.

Lemma zget_sets_iter g (v : Z) d i :
  zget i (foldl (fun d i => zset i v d) d (iter g)) = if decide (i ∈ g) then Some v else zget i d.
Proof. rewrite zget_sets. destruct (decide (i ∈ g)) as [Hi|Hi]; rewrite <- iter_perm in Hi; [by rewrite decide_True|by rewrite decide_False]. Qed.

Lemma merge_group_step handled m g : merged handled m -> (1 < length g)%nat ->
  (forall i, i ∈ g -> i ∈ id <$> entities) -> (forall i, i ∈ g -> i ∉ List.concat handled) ->
  exists m', merge_group iter now m g = Ok m' /\ merged (handled ++ [g]) m'.
Proof.
  intros M Hl Hg Hd. unfold merge_group. rewrite (proj2 (Nat.ltb_ge _ _)) by lia.
  rewrite (members_ids g _ entities (merged_ids _ _ M)).
  assert (Hlook : forall i e, entities !! i = Some e -> id e ∈ g -> g_entities m !! i = Some e).
  { intros i e He Hie. apply (merged_rest _ _ M); auto. }
  destruct (merge_entity_group_spec (g_entities m) (members g entities)) as (base & rest & b & Hperm & Hb & Hmerge).
  { destruct g as [|x g]; [cbn in Hl; lia|]. assert (Hx := Hg x (list_elem_of_here _ _)).
    apply list_elem_of_fmap in Hx as (e & -> & He). apply list_elem_of_lookup in He as [i Hi].
    assert (Hin : i ∈ members (id e :: g) entities) by (apply elem_of_members; exists e; split; [done|left]).
    intros Hnil. rewrite Hnil in Hin. by apply elem_of_nil in Hin. }
  { apply NoDup_members. }
  { intros i (e & He & Hi)%elem_of_members. exists e. by apply Hlook. }
  rewrite Hmerge. change (mbind ?k (Ok ?x)) with (k x). cbv beta iota.
  assert (Hbase : exists b0, entities !! base = Some b0 /\ id b0 ∈ g) by (apply elem_of_members; rewrite <- Hperm; left).
  destruct Hbase as (b0 & Hb0 & Hb0g). assert (Heq := Hlook base b0 Hb0 Hb0g). rewrite Hb in Heq. injection Heq as ->.
  assert (Hrest : omap (fun i => g_entities m !! i) rest = omap (fun i => entities !! i) rest).
  { assert (Hin : forall i, i ∈ rest -> g_entities m !! i = entities !! i).
    { intros i Hi. assert (Hm : i ∈ members g entities) by (rewrite <- Hperm; by right).
      apply elem_of_members in Hm as (e & He & Heg). rewrite He. by apply Hlook. }
    clear -Hin. induction rest as [|i rest IH]; csimpl; [done|]. rewrite Hin by left. rewrite IH; [done|].
    intros j Hj. apply Hin. by right. }
  rewrite Hrest. set (final := <[base := _]> (g_entities m)).
  assert (Hfb : final !! base = Some (absorb b0 (omap (fun i => entities !! i) rest))).
  { subst final. rewrite list_lookup_insert_eq; [done|]. by eapply lookup_lt_Some. }
  assert (Hfo : forall i, i <> base -> final !! i = g_entities m !! i) by (intros i Hi; subst final; by rewrite list_lookup_insert_ne).
  rewrite Hfb. eexists. split; [done|]. rewrite absorb_id. split; cbn [g_entities g_unified g_mapping g_merged g_groups g_meta].
  - rewrite <- (merged_ids _ _ M). subst final. rewrite list_fmap_insert, absorb_id.
    apply list_insert_id. by rewrite list_lookup_fmap, Hb.
  - intros i e He Hn. rewrite concat_app in Hn. cbn in Hn. rewrite app_nil_r, not_elem_of_app in Hn. destruct Hn as [Hn Hn'].
    rewrite Hfo; [by apply (merged_rest _ _ M)|]. intros ->. congruence.
  - intros i e He Hn. apply not_elem_of_app in Hn as [Hn Hb']. rewrite Hfo by set_solver. by apply (merged_others _ _ M).
  - apply Forall2_app; [|repeat constructor; by exists b0, rest].
    apply Forall2_same_length_lookup_2; [by eapply Forall2_length, merged_survivors|].
    intros k g' base' Hk Hbk. pose proof (Forall2_lookup_lr _ _ _ _ _ _ (merged_survivors _ _ M) Hk Hbk) as (b' & rest' & Hp' & Hb' & Hf').
    exists b', rest'. split_and!; [done..|]. rewrite Hfo; [done|]. intros ->.
    assert (Hin : base ∈ members g' entities) by (rewrite <- Hp'; left).
    apply elem_of_members in Hin as (e & He & Heg). assert (e = b0) as -> by congruence.
    apply (Hd _ Hb0g). apply list_elem_of_In, in_concat. exists g'. split; apply list_elem_of_In; [by eapply list_elem_of_lookup_2|done].
  - intros k g' base' e i Hk Hbk He Hi. rewrite zget_sets_iter.
    pose proof (Forall2_length _ _ _ (merged_survivors _ _ M)) as Hlen.
    apply lookup_app_Some in Hk as [Hk|[Hk1 Hk2]].
    + rewrite decide_False.
      * apply (merged_mapping _ _ M k g' base' e i); [done| |done..].
        rewrite lookup_app_l in Hbk; [done|]. apply lookup_lt_Some in Hk. lia.
      * intros Hig. apply (Hd _ Hig). apply list_elem_of_In, in_concat. exists g'.
        split; apply list_elem_of_In; [by eapply list_elem_of_lookup_2|done].
    + apply list_lookup_singleton_Some in Hk2 as [Hk2 <-]. rewrite decide_True by done.
      rewrite lookup_app_r in Hbk by lia. rewrite <- Hlen, Hk2 in Hbk. cbn in Hbk. congruence.
  - intros i Hn. rewrite concat_app in Hn. cbn in Hn. rewrite app_nil_r, not_elem_of_app in Hn. destruct Hn as [Hn Hn'].
    rewrite zget_sets_iter, decide_False by done. by apply (merged_unmapped _ _ M).
  - rewrite (merged_count _ _ M), concat_app, !length_app. cbn. rewrite app_nil_r. lia.
  - intros base' group [Hin| [= -> ->]%list_elem_of_singleton]%elem_of_app.
    + destruct (merged_meta _ _ M _ _ Hin) as (g' & Hg' & ->). exists g'. split; [set_solver|done].
    + exists g. split; [set_solver|done].
Qed.

Lemma merge_groups_loop groups : forall handled m, merged handled m ->
  NoDup (List.concat (handled ++ groups)) -> (forall g, g ∈ groups -> (1 < length g)%nat /\ forall i, i ∈ g -> i ∈ id <$> entities) ->
  exists m', fold_m (merge_group iter now) m groups = Ok m' /\ merged (handled ++ groups) m'.
Proof.
  induction groups as [|g groups IH]; intros handled m M Hn Hg; cbn [fold_m].
  - exists m. by rewrite app_nil_r.
  - destruct (Hg g) as [Hl Hin]; [left|]. destruct (merge_group_step handled m g M Hl Hin) as (m1 & -> & M1).
    { intros i Hi Hi'. rewrite concat_app in Hn. apply NoDup_app in Hn as (_ & Hn & _). apply (Hn i Hi').
      cbn. apply elem_of_app. by left. }
    rewrite (assoc_L app handled [g] groups : handled ++ g :: groups = _) in Hn |- *.
    apply IH; [done..|]. intros g' Hg'. apply Hg. by right.
Qed.

(** ** The entities left alone, and the whole mapping *)

Definition kept (processed : list Z) (es : list Entity) : list nat :=
  List.map fst (List.filter (fun p => negb (bool_decide (id p.2 ∈ processed))) (imap pair es)).

Lemma elem_of_kept processed es i : i ∈ kept processed es <-> exists e, es !! i = Some e /\ id e ∉ processed.
Proof.
  unfold kept. change (List.map fst ?l) with (l.*1). rewrite list_elem_of_fmap. setoid_rewrite elem_of_list_filter. split.
  - intros ([j e] & -> & (k & Hk)%list_elem_of_lookup & Hb). rewrite list_lookup_imap in Hk.
    destruct (es !! k) as [e'|] eqn:He; [|done]. cbn in Hk. simplify_eq.
    apply negb_true_iff, bool_decide_eq_false in Hb. by exists e.
  - intros (e & He & Hg). exists (i, e). split; [done|]. rewrite bool_decide_false by done. split; [|done].
    apply list_elem_of_lookup. exists i. by rewrite list_lookup_imap, He.
Qed.

Lemma NoDup_kept processed es : NoDup (kept processed es).
Proof.
  unfold kept. change (List.map fst ?l) with (l.*1). eapply sublist_NoDup; [|apply sublist_fmap, filter_list_sublist].
  rewrite fmap_imap. apply NoDup_alt. intros i j x Hi Hj. rewrite list_lookup_imap in Hi, Hj.
  destruct (es !! i), (es !! j); simplify_eq/=; done.
Qed.

Lemma keep_unmerged_spec processed unified mapping es :
  (keep_unmerged processed unified mapping es).1 = unified ++ kept processed es /\
  forall i, zget i (keep_unmerged processed unified mapping es).2 =
    if decide (i ∈ id <$> es /\ i ∉ processed) then Some i else zget i mapping.
Proof.
  unfold keep_unmerged, kept.
  assert (Hgen : forall (l : list (nat * Entity)) unified mapping,
    let out := foldl (fun '(unified, mapping) '(i, e) =>
      if bool_decide (id e ∈ processed) then (unified, mapping) else (unified ++ [i], zset (id e) (id e) mapping)) (unified, mapping) l in
    out.1 = unified ++ List.map fst (List.filter (fun p => negb (bool_decide (id p.2 ∈ processed))) l) /\
    forall i, zget i out.2 = if decide (i ∈ (fun p => id p.2) <$> l /\ i ∉ processed) then Some i else zget i mapping).
  { clear. induction l as [|[j e] l IH]; intros unified mapping.
    - cbn. rewrite app_nil_r. split; [done|]. intros i. rewrite decide_False; [done|]. by intros [?%elem_of_nil _].
    - cbn [foldl List.filter snd]. case_bool_decide as Hp; cbn [negb].
      + destruct (IH unified mapping) as [-> Hm]. split; [done|]. intros i. rewrite Hm. csimpl.
        destruct (decide (i ∈ _ /\ _)) as [Hd|Hd]; case_decide as Hd'; try done; exfalso; set_solver.
      + destruct (IH (unified ++ [j]) (zset (id e) (id e) mapping)) as [-> Hm]. split.
        { cbn. by rewrite <- (assoc_L app). }
        intros i. rewrite Hm. csimpl. destruct (decide (i = id e)) as [->|Hne].
        * rewrite zget_zset_eq. repeat case_decide; try done; exfalso; set_solver.
        * rewrite zget_zset_ne by done. destruct (decide (i ∈ _ /\ _)) as [Hd|Hd]; case_decide as Hd'; try done; exfalso; set_solver. }
  destruct (Hgen (imap pair es) unified mapping) as [H1 H2]. split; [done|]. intros i. rewrite H2.
  assert (Hids : (fun p : nat * Entity => id p.2) <$> imap pair es = id <$> es).
  { apply list_eq. intros k. rewrite !list_lookup_fmap, list_lookup_imap. by destruct (es !! k). }
  by rewrite Hids.
Qed.

(** ** The account of a run *)

Section account.
Context (Hids : NoDup (id <$> entities)) (groups : list (list Z)) (m : Merging) (M : merged groups m).
Context (Hn : NoDup (List.concat groups))
  (Hg : forall g, g ∈ groups -> (1 < length g)%nat /\ forall i, i ∈ g -> i ∈ id <$> entities).

Local Abbreviation final := (g_entities m).
Local Abbreviation out := (keep_unmerged (List.concat groups) (g_unified m) (g_mapping m) (g_entities m)).
Local Abbreviation target := (mapped out.2).
Local Abbreviation unified := (omap (fun i => final !! i) out.1).

Lemma elem_of_concat_groups i : i ∈ List.concat groups <-> exists g, g ∈ groups /\ i ∈ g.
Proof. rewrite list_elem_of_In, in_concat. setoid_rewrite list_elem_of_In. done. Qed.

Lemma group_index k k' g g' i : groups !! k = Some g -> groups !! k' = Some g' -> i ∈ g -> i ∈ g' -> k = k'.
Proof.
  revert k k' Hn. clear M Hg. induction groups as [|x gs IH]; intros k k' Hn Hk Hk' Hi Hi'; [done|].
  cbn in Hn. apply NoDup_app in Hn as (_ & Hd & Hn).
  assert (Hx : forall k h, gs !! k = Some h -> i ∈ h -> i ∈ x -> False).
  { intros k0 h Hh Hih Hix. apply (Hd i Hix). apply list_elem_of_In, in_concat. exists h.
    split; apply list_elem_of_In; [by eapply list_elem_of_lookup_2|done]. }
  destruct k as [|k], k' as [|k']; cbn in Hk, Hk'; simplify_eq; [done| | |f_equal; by apply IH].
  - destruct (Hx k' g'); done.
  - destruct (Hx k g); done.
Qed.

Lemma same_group g g' i : g ∈ groups -> g' ∈ groups -> i ∈ g -> i ∈ g' -> g = g'.
Proof.
  intros [k Hk]%list_elem_of_lookup [k' Hk']%list_elem_of_lookup Hi Hi'.
  assert (k = k') as -> by (by eapply group_index). congruence.
Qed.

Lemma target_lookup i : zget i out.2 = if decide (i ∈ id <$> entities /\ i ∉ List.concat groups) then Some i else zget i (g_mapping m).
Proof. rewrite (proj2 (keep_unmerged_spec _ _ _ _)). by rewrite (merged_ids _ _ M). Qed.

(** A grouped entity is sent to the base of its group, any other to itself. *)
Lemma target_base k g base b i : groups !! k = Some g -> g_unified m !! k = Some base -> entities !! base = Some b ->
  i ∈ g -> target i = id b.
Proof.
  intros Hk Hbase Hb Hi. unfold mapped. rewrite target_lookup, decide_False.
  - by rewrite (merged_mapping _ _ M k g base b i).
  - intros [_ Hno]. apply Hno, elem_of_concat_groups. exists g. split; [by eapply list_elem_of_lookup_2|done].
Qed.

Lemma target_grouped g i : g ∈ groups -> i ∈ g ->
  exists k base b, groups !! k = Some g /\ g_unified m !! k = Some base /\ entities !! base = Some b /\ id b ∈ g /\ target i = id b.
Proof.
  intros [k Hk]%list_elem_of_lookup Hi.
  destruct (Forall2_lookup_l _ _ _ _ _ (merged_survivors _ _ M) Hk) as (base & Hbase & b & rest & Hp & Hb & _).
  exists k, base, b. assert (Hin : base ∈ members g entities) by (rewrite <- Hp; left).
  apply elem_of_members in Hin as (b' & Hb' & Hbg). assert (b' = b) as -> by congruence.
  split_and!; [done..|]. by eapply target_base.
Qed.

Lemma target_alone i : i ∉ List.concat groups -> target i = i.
Proof.
  intros Hi. unfold mapped. rewrite target_lookup. case_decide; [done|]. by rewrite (merged_unmapped _ _ M).
Qed.

Lemma target_same i j : target i = target j <-> i = j \/ exists g, g ∈ groups /\ i ∈ g /\ j ∈ g.
Proof.
  assert (Hcase : forall i, (exists g, g ∈ groups /\ i ∈ g) \/ i ∉ List.concat groups).
  { intros x. destruct (decide (x ∈ List.concat groups)) as [Hx|Hx]; [left; by apply elem_of_concat_groups|by right]. }
  split.
  - intros Heq. destruct (Hcase i) as [(g & Hgg & Hi)|Hi], (Hcase j) as [(g' & Hgg' & Hj)|Hj].
    + destruct (target_grouped g i Hgg Hi) as (_ & _ & b & _ & _ & _ & Hbg & Hti).
      destruct (target_grouped g' j Hgg' Hj) as (_ & _ & b' & _ & _ & _ & Hbg' & Htj).
      right. exists g. split_and!; [done..|]. assert (g = g') as -> by (apply (same_group g g' (id b)); [done..|congruence]). done.
    + destruct (target_grouped g i Hgg Hi) as (_ & _ & b & _ & _ & _ & Hbg & Hti). rewrite (target_alone j Hj) in Heq.
      destruct Hj. apply elem_of_concat_groups. exists g. split; [done|congruence].
    + destruct (target_grouped g' j Hgg' Hj) as (_ & _ & b & _ & _ & _ & Hbg & Htj). rewrite (target_alone i Hi) in Heq.
      destruct Hi. apply elem_of_concat_groups. exists g'. split; [done|congruence].
    + left. by rewrite (target_alone i Hi), (target_alone j Hj) in Heq.
  - intros [->|(g & Hgg & Hi & Hj)]; [done|].
    destruct (target_grouped g i Hgg Hi) as (k & base & b & Hk & Hbase & Hb & _ & ->).
    destruct (target_grouped g j Hgg Hj) as (k' & base' & b' & Hk' & Hbase' & Hb' & _ & ->).
    assert (k = k') as -> by (by eapply group_index). congruence.
Qed.

Lemma elem_of_entities_at g e : e ∈ omap (fun i => entities !! i) (members g entities) <-> e ∈ entities /\ id e ∈ g.
Proof.
  rewrite list_elem_of_omap. setoid_rewrite elem_of_members. split.
  - intros (i & (e' & He' & Hi) & He). assert (e' = e) as -> by congruence. split; [by eapply list_elem_of_lookup_2|done].
  - intros [[i Hi]%list_elem_of_lookup He]. exists i. eauto.
Qed.

(** Each survivor has absorbed the members of a group; the other results are unchanged. *)
Lemma unified_inv s : s ∈ unified ->
  (exists k g base b rest, groups !! k = Some g /\ g_unified m !! k = Some base /\ entities !! base = Some b /\
    base :: rest ≡ₚ members g entities /\ s = absorb b (omap (fun i => entities !! i) rest)) \/
  (s ∈ entities /\ id s ∉ List.concat groups).
Proof.
  rewrite (proj1 (keep_unmerged_spec _ _ _ _)), list_elem_of_omap. setoid_rewrite elem_of_app.
  intros (i & [Hi|Hi] & Hs).
  - left. apply list_elem_of_lookup in Hi as [k Hk].
    destruct (Forall2_lookup_r _ _ _ _ _ (merged_survivors _ _ M) Hk) as (g & Hgk & b & rest & Hp & Hb & Hf).
    exists k, g, i, b, rest. split_and!; [done..|congruence].
  - right. apply elem_of_kept in Hi as (e & He & Hno). assert (e = s) as -> by congruence. split; [|done].
    destruct (lookup_of_ids _ _ _ _ (merged_ids _ _ M) He) as (e0 & He0 & Hid). rewrite <- Hid in Hno.
    assert (e0 = s) as -> by (pose proof (merged_rest _ _ M i e0 He0 Hno); congruence). by eapply list_elem_of_lookup_2.
Qed.

(** The entities that a result stands for, and what it has of theirs. *)
Lemma unified_stands s : s ∈ unified -> target (id s) = id s /\
  exists others : list Entity, (forall e, e ∈ others <-> e ∈ entities /\ target (id e) = id s) /\
    forall d, d ∈ source_document_ids s <-> exists e, e ∈ others /\ d ∈ source_document_ids e.
Proof.
  intros [(k & g & base & b & rest & Hk & Hbase & Hb & Hp & ->)|[Hs Hno]]%unified_inv.
  - rewrite absorb_id. assert (Hbg : id b ∈ g).
    { assert (Hin : base ∈ members g entities) by (rewrite <- Hp; left).
      apply elem_of_members in Hin as (b' & Hb' & Hbg). congruence. }
    assert (Htb : target (id b) = id b) by by eapply target_base. split; [done|].
    assert (Hom : b :: omap (fun i => entities !! i) rest ≡ₚ omap (fun i => entities !! i) (members g entities)).
    { rewrite <- Hp. csimpl. by rewrite Hb. }
    exists (b :: omap (fun i => entities !! i) rest). split; [|intros d; apply absorb_documents].
    intros e. rewrite Hom, elem_of_entities_at. split.
    + intros [He Heg]. split; [done|]. by eapply target_base.
    + intros [He Ht]. split; [done|]. rewrite <- Htb in Ht. apply target_same in Ht as [->|(g' & Hg' & Heg & Hb')]; [done|].
      assert (g' = g) as -> by (apply (same_group g' g (id b)); [done|by eapply list_elem_of_lookup_2|done..]). done.
  - split; [by apply target_alone|]. exists [s]. split; [|intros d; setoid_rewrite list_elem_of_singleton; naive_solver].
    intros e. rewrite list_elem_of_singleton. split; [intros ->; split; [done|by apply target_alone]|].
    intros [He Ht]. rewrite <- (target_alone (id s)) in Ht by done. apply target_same in Ht as [Heq|(g & Hgg & Heg & Hsg)].
    + apply list_elem_of_lookup in He as [i Hi], Hs as [j Hj].
      assert (i = j) as ->; [|congruence]. eapply (NoDup_lookup (id <$> entities)); [done| |]; rewrite list_lookup_fmap.
      * by rewrite Hi.
      * by rewrite Hj, Heq.
    + destruct Hno. apply elem_of_concat_groups. by exists g.
Qed.

(** Every entity is stood for. *)
Lemma targets_unified e : e ∈ entities -> target (id e) ∈ id <$> unified.
Proof.
  intros He. rewrite (proj1 (keep_unmerged_spec _ _ _ _)), list_elem_of_fmap. setoid_rewrite list_elem_of_omap. setoid_rewrite elem_of_app.
  destruct (decide (id e ∈ List.concat groups)) as [(g & Hgg & Hi)%elem_of_concat_groups|Hno].
  - destruct (target_grouped g _ Hgg Hi) as (k & base & b & Hk & Hbase & Hb & _ & ->).
    destruct (Forall2_lookup_lr _ _ _ _ _ _ (merged_survivors _ _ M) Hk Hbase) as (b' & rest' & Hp' & Hb' & Hf).
    eexists. split; [|exists base; split; [left; by eapply list_elem_of_lookup_2|exact Hf]]. rewrite absorb_id. congruence.
  - rewrite target_alone by done. apply list_elem_of_lookup in He as [i Hi]. exists e. split; [done|]. exists i.
    pose proof (merged_rest _ _ M i e Hi Hno) as Hf. split; [right|done]. apply elem_of_kept. by exists e.
Qed.

(** The results are at distinct positions, so they have distinct ids. *)
Lemma out_distinct : NoDup out.1.
Proof.
  rewrite (proj1 (keep_unmerged_spec _ _ _ _)). apply NoDup_app. split_and!; [|intros i Hi Hk|apply NoDup_kept].
  - apply NoDup_alt. intros k k' base Hk Hk'.
    destruct (Forall2_lookup_r _ _ _ _ _ (merged_survivors _ _ M) Hk) as (g & Hgk & b & rest & Hp & Hb & _).
    destruct (Forall2_lookup_r _ _ _ _ _ (merged_survivors _ _ M) Hk') as (g' & Hgk' & b' & rest' & Hp' & Hb' & _).
    assert (Hin : base ∈ members g entities) by (rewrite <- Hp; left).
    assert (Hin' : base ∈ members g' entities) by (rewrite <- Hp'; left).
    apply elem_of_members in Hin as (x & Hx & Hxg), Hin' as (x' & Hx' & Hxg'). assert (x' = x) as -> by congruence.
    by eapply group_index.
  - apply list_elem_of_lookup in Hi as [k Hi].
    destruct (Forall2_lookup_r _ _ _ _ _ (merged_survivors _ _ M) Hi) as (g & Hgk & b & rest & Hp & Hb & _).
    assert (Hin : i ∈ members g entities) by (rewrite <- Hp; left). apply elem_of_members in Hin as (x & Hx & Hxg).
    apply elem_of_kept in Hk as (e & He & Hno).
    destruct (lookup_of_ids _ _ _ _ (eq_sym (merged_ids _ _ M)) Hx) as (e' & He' & Hid). assert (e' = e) as -> by congruence.
    apply Hno, elem_of_concat_groups. exists g. split; [by eapply list_elem_of_lookup_2|congruence].
Qed.

Lemma omap_lookup_distinct (l : list nat) : NoDup l -> NoDup (id <$> omap (fun i => final !! i) l).
Proof.
  induction 1 as [|i l Hi Hl IH]; csimpl; [apply NoDup_nil_2|]. destruct (final !! i) as [e|] eqn:He; [|done].
  csimpl. apply NoDup_cons. split; [|done]. intros (e' & Heq & Hin)%list_elem_of_fmap.
  apply list_elem_of_omap in Hin as (j & Hj & He'). assert (i = j) as ->; [|done].
  assert (Hd : NoDup (id <$> final)) by by rewrite (merged_ids _ _ M).
  eapply (NoDup_lookup (id <$> final)); [done| |]; rewrite list_lookup_fmap; [by rewrite He|by rewrite He', Heq].
Qed.

Lemma unified_distinct : NoDup (id <$> unified).
Proof. apply omap_lookup_distinct, out_distinct. Qed.

(** ** Nothing is lost or counted twice *)

Local Abbreviation grouped_positions := (List.concat (List.map (fun g => members g entities) groups)).

Lemma positions_perm : grouped_positions ++ kept (List.concat groups) final ≡ₚ seq 0 (length entities).
Proof.
  assert (Hk : forall i, i ∈ kept (List.concat groups) final <-> exists e, entities !! i = Some e /\ id e ∉ List.concat groups).
  { intros i. rewrite elem_of_kept. split; intros (e & He & Hno).
    - destruct (lookup_of_ids _ _ _ _ (merged_ids _ _ M) He) as (e' & He' & Hid). exists e'. by rewrite Hid.
    - destruct (lookup_of_ids _ _ _ _ (eq_sym (merged_ids _ _ M)) He) as (e' & He' & Hid). exists e'. by rewrite Hid. }
  assert (Hm : forall i, i ∈ grouped_positions <-> exists e, entities !! i = Some e /\ id e ∈ List.concat groups).
  { intros i. rewrite elem_of_concat_list_map. setoid_rewrite elem_of_members. setoid_rewrite elem_of_concat_groups. naive_solver. }
  apply NoDup_Permutation; [apply NoDup_app; split_and!| apply NoDup_seq|].
  - clear Hk Hm Hg. assert (Hg : forall g i, g ∈ groups -> i ∈ members g entities -> exists e, entities !! i = Some e /\ id e ∈ g) by (intros; by apply elem_of_members).
    clear M. revert Hn Hg. induction groups as [|g gs IH]; cbn; intros Hn Hg; [apply NoDup_nil_2|].
    apply NoDup_app in Hn as (_ & Hd & Hn). apply NoDup_app. split_and!; [apply NoDup_members| |apply IH; [done|]; intros g' i Hg'; apply Hg; by right].
    intros i Hi (g' & Hg' & Hi')%elem_of_concat_list_map. destruct (Hg g i) as (e & He & Heg); [left|done|].
    destruct (Hg g' i) as (e' & He' & Heg'); [by right|done|]. assert (e' = e) as -> by congruence.
    apply (Hd _ Heg). apply list_elem_of_In, in_concat. exists g'. split; by apply list_elem_of_In.
  - intros i (e & He & Hi)%Hm (e' & He' & Hi')%Hk. congruence.
  - apply NoDup_kept.
  - intros i. rewrite elem_of_app, Hm, Hk, elem_of_seq. split.
    + intros [(e & He & _)|(e & He & _)]; apply lookup_lt_Some in He; lia.
    + intros [_ Hi]. destruct (lookup_lt_is_Some_2 entities i) as [e He]; [lia|].
      destruct (decide (id e ∈ List.concat groups)); [left|right]; eauto.
Qed.

Lemma omap_seq : omap (fun i => entities !! i) (seq 0 (length entities)) = entities.
Proof.
  assert (Hgen : forall (l pre : list Entity), omap (fun i => (pre ++ l) !! i) (seq (length pre) (length l)) = l).
  { induction l as [|e l IH]; intros pre; csimpl; [done|]. rewrite lookup_app_r, Nat.sub_diag by lia. cbn. f_equal.
    specialize (IH (pre ++ [e])). rewrite length_app in IH. cbn in IH. rewrite Nat.add_1_r, <- (assoc_L app) in IH. exact IH. }
  apply (Hgen entities []).
Qed.

Lemma omap_perm {A B} (f : A -> option B) (l l' : list A) : l ≡ₚ l' -> omap f l ≡ₚ omap f l'.
Proof. intros Hp. by rewrite Hp. Qed.

Lemma survivors_mentions gs bases : Forall2 (survivor final) gs bases ->
  mentions (omap (fun i => final !! i) bases) = mentions (omap (fun i => entities !! i) (List.concat (List.map (fun g => members g entities) gs))).
Proof.
  induction 1 as [|g base gs bases (b & rest & Hp & Hb & Hf) _ IH]; csimpl; [done|].
  rewrite Hf, omap_app, mentions_app, <- IH.
  rewrite <- (mentions_perm _ _ (omap_perm (fun i => entities !! i) _ _ Hp)). csimpl. rewrite Hb.
  unfold mentions at 1. csimpl. by rewrite absorb_mentions.
Qed.

Lemma kept_same : omap (fun i => final !! i) (kept (List.concat groups) final) =
  omap (fun i => entities !! i) (kept (List.concat groups) final).
Proof.
  assert (Hk : forall i, i ∈ kept (List.concat groups) final -> final !! i = entities !! i).
  { intros i (e & He & Hno)%elem_of_kept. destruct (lookup_of_ids _ _ _ _ (merged_ids _ _ M) He) as (e' & He' & Hid).
    rewrite He'. apply (merged_rest _ _ M); [done|]. by rewrite Hid. }
  revert Hk. generalize (kept (List.concat groups) final). induction l as [|i l IH]; intros Hk; csimpl; [done|].
  rewrite Hk by left. rewrite IH; [done|]. intros j Hj. apply Hk. by right.
Qed.

Lemma unified_mentions : mentions unified = mentions entities.
Proof.
  rewrite (proj1 (keep_unmerged_spec _ _ _ _)), omap_app, mentions_app, kept_same, (survivors_mentions _ _ (merged_survivors _ _ M)).
  rewrite <- mentions_app, <- omap_app. transitivity (mentions (omap (fun i => entities !! i) (seq 0 (length entities)))); [|by rewrite omap_seq].
  apply mentions_perm, omap_perm, positions_perm.
Qed.

Lemma members_length g : g ∈ groups -> length (members g entities) = length g.
Proof.
  intros Hgg. rewrite <- (length_fmap (fun i => default 0 (id <$> entities !! i))). apply Permutation_length, NoDup_Permutation.
  - apply NoDup_fmap_2_strong; [|apply NoDup_members]. intros i j (e & He & _)%elem_of_members (e' & He' & _)%elem_of_members.
    rewrite He, He'. cbn. intros Heq. eapply (NoDup_lookup (id <$> entities)); [done| |]; rewrite list_lookup_fmap; [by rewrite He|by rewrite He', Heq].
  - apply list_elem_of_lookup in Hgg as [k Hk]. clear -Hn Hk. revert k Hk Hn. induction groups as [|x gs IH]; intros [|k] Hk Hn; cbn in *; try done.
    + simplify_eq. by apply NoDup_app in Hn as (? & _).
    + apply (IH k Hk). by apply NoDup_app in Hn as (_ & _ & ?).
  - intros i. rewrite list_elem_of_fmap. split.
    + intros (j & -> & (e & He & Hi)%elem_of_members). by rewrite He.
    + intros Hi. destruct (Hg g Hgg) as [_ Hin]. apply Hin in Hi as Hi'. apply list_elem_of_fmap in Hi' as (e & -> & [j Hj]%list_elem_of_lookup).
      exists j. rewrite Hj. split; [done|]. apply elem_of_members. eauto.
Qed.

Lemma unified_count : Z.of_nat (length unified) = Z.of_nat (length entities) - g_merged m.
Proof.
  assert (Hall : length unified = length out.1).
  { rewrite <- (length_fmap id unified). pose proof (proj1 (keep_unmerged_spec (List.concat groups) (g_unified m) (g_mapping m) final)) as Hout.
    rewrite length_fmap. assert (Hin : forall i, i ∈ out.1 -> is_Some (final !! i)).
    { intros i. rewrite Hout, elem_of_app. intros [Hi|(e & He & _)%elem_of_kept]; [|by eexists].
      apply list_elem_of_lookup in Hi as [k Hi].
      destruct (Forall2_lookup_r _ _ _ _ _ (merged_survivors _ _ M) Hi) as (g & _ & b & rest & _ & _ & Hf). by eexists. }
    revert Hin. generalize out.1. induction l as [|i l IH]; intros Hin; csimpl; [done|].
    destruct (Hin i) as [e ->]; [left|]. csimpl. f_equal. apply IH. intros j Hj. apply Hin. by right. }
  pose proof (Permutation_length positions_perm) as Hpos. rewrite length_app, length_seq in Hpos.
  assert (Hsum : length grouped_positions = length (List.concat groups)).
  { clear -Hids Hn Hg. assert (Hl : forall g, g ∈ groups -> length (members g entities) = length g) by apply members_length.
    revert Hl. clear. generalize groups. induction groups0 as [|g gs IH]; intros Hl; cbn; [done|]. rewrite !length_app, Hl by left. rewrite IH; [done|].
    intros g' Hg'. apply Hl. by right. }
  rewrite Hall, (proj1 (keep_unmerged_spec _ _ _ _)), length_app, (merged_count _ _ M).
  rewrite <- (Forall2_length _ _ _ (merged_survivors _ _ M)). lia.
Qed.
End account.
End merge.
End UnifyMerge.
