(* ===== verification/UnifyAccount.v ===== *)
(** The properties of a unification run: an account of what becomes of every entity, every
    relationship and every cross reference, and the size at which it fails. *)
From S2P Require Import Prelude PyValue RankFusion RankFusionFacts Entities EntityIndex EntityIndexFacts UnionFind Unify UnifyFacts UnifyMerge.

Local Open Scope Z_scope.

Module UnifyAccount.
Import Entities.Entities EntityIndex.EntityIndex EntityIndexFacts.EntityIndexFacts UnionFind.UnionFind Unify.Unify UnifyFacts.UnifyFacts UnifyMerge.UnifyMerge.

(** What a result owes to the entities it was made of, when [related] says which ids belong
    together: one result per class, to which the mapping sends every member; it has all
    their documents, and no mention is lost or counted twice. *)
Record accounts (related : relation Z) (entities : list Entity) (res : UnificationResult) : Prop := {
  acc_classes e e' : e ∈ entities -> e' ∈ entities ->
    mapped (entity_mapping res) (id e) = mapped (entity_mapping res) (id e') <-> related (id e) (id e');
  acc_targets e : e ∈ entities -> mapped (entity_mapping res) (id e) ∈ id <$> unified_entities res;
  acc_fixed s : s ∈ unified_entities res -> mapped (entity_mapping res) (id s) = id s;
  acc_distinct : NoDup (id <$> unified_entities res);
  acc_documents s d : s ∈ unified_entities res ->
    d ∈ source_document_ids s <->
    exists e, e ∈ entities /\ mapped (entity_mapping res) (id e) = id s /\ d ∈ source_document_ids e;
  acc_mentions : mentions (unified_entities res) = mentions entities;
  acc_count : Z.of_nat (length (unified_entities res)) = Z.of_nat (length entities) - entities_merged res;
}.

Lemma zget_entry {B} (k : Z) (v : B) d : zget k d = Some v -> (k, v) ∈ d.
Proof.
  induction d as [|[k' v'] d IH]; cbn; [done|]. destruct (decide (k = k')) as [->|]; [intros [= ->]; left|].
  intros Hv. right. by apply IH.
Qed.

Section account.
Context `{TextOps} (cosine_similarity : list float -> list float -> float)
  (levenshtein_similarity : string -> string -> float) (embedding_threshold fuzzy_threshold : float) (depth : nat)
  (iter : list Z -> list Z) (uuid4 : nat -> Z).
Hypothesis iter_perm : forall l, iter l ≡ₚ l.

Local Abbreviation unify := (unify cosine_similarity levenshtein_similarity embedding_threshold fuzzy_threshold depth iter uuid4).
Local Abbreviation find_groups := (_find_merge_groups cosine_similarity levenshtein_similarity embedding_threshold fuzzy_threshold depth).
Local Abbreviation matched := (matched cosine_similarity levenshtein_similarity embedding_threshold fuzzy_threshold).

(** ** The events *)

(** The source tools of the entities can be members of a set. *)
Definition tools_hashable (entities : list Entity) : Prop :=
  forall e v, e ∈ entities -> dict_get "source_tool" (attributes e) = Some v -> hashable v = true.

Definition add_tool (tools : list value) (e : Entity) : result (list value) :=
  match dict_get "source_tool" (attributes e) with
  | Some tool =>
      if negb (truthy tool) then Ok tools
      else if negb (hashable tool) then Err TypeError
      else Ok (if existsb (py_eq tool) tools then tools else tools ++ [tool])
  | None => Ok tools
  end.

Lemma tools_of_ok l : tools_hashable l -> exists tools, tools_of l = Ok tools.
Proof.
  intros Ht. change (exists tools, fold_m add_tool [] l = Ok tools). generalize (@nil value).
  induction l as [|e l IH]; intros acc; cbn [fold_m]; [by eexists|].
  assert (IH' : forall acc, exists tools, fold_m add_tool acc l = Ok tools).
  { apply IH. intros e' v He'. apply Ht. by right. }
  unfold add_tool at 1. destruct (dict_get "source_tool" (attributes e)) as [v|] eqn:Hv; [|apply IH'].
  destruct (truthy v); cbn [negb]; [|apply IH']. rewrite (Ht e v) by (done || left). apply IH'.
Qed.

Lemma extend_m_total {A B} (f : A -> result (list B)) l : (forall x, exists y, f x = Ok y) -> exists ys, extend_m f l = Ok ys.
Proof.
  intros Hf. assert (Hm : exists ys, map_m f l = Ok ys).
  { induction l as [|x l [ys IH]]; [by eexists|]. cbn [map_m]. destruct (Hf x) as [y ->]. rewrite IH. by eexists. }
  unfold extend_m. destruct Hm as [ys ->]. by eexists.
Qed.

Lemma events_ok entities labels meta : tools_hashable entities ->
  exists events, _dispatch_merge_events entities labels meta = Ok events.
Proof.
  intros Ht. apply extend_m_total. intros [base group]. destruct (entities !! base) as [b|]; [|by eexists].
  cbv zeta. destruct (tools_of_ok (omap (fun i => entities !! i) group)) as [tools ->]; [|by eexists].
  intros e v (i & _ & He)%list_elem_of_omap. apply Ht. by eapply list_elem_of_lookup_2.
Qed.

(** ** The run *)

Lemma merged_start entities now :
  merged now entities [] (MkMerging entities [] [] 0 [] []).
Proof. split; cbn; try done. by intros ? ? ?%elem_of_nil. Qed.

(** Every object of the run is what it was, or a survivor. *)
Lemma final_entity now entities handled m e : merged now entities handled m -> e ∈ g_entities m ->
  e ∈ entities \/ exists b others, b ∈ entities /\ others ⊆ entities /\ e = absorb now b others.
Proof.
  intros M [i Hi]%list_elem_of_lookup. destruct (lookup_of_ids _ _ _ _ (merged_ids _ _ _ _ M) Hi) as (e0 & He0 & _).
  destruct (decide (i ∈ g_unified m)) as [[k Hk]%list_elem_of_lookup|Hno].
  - right. destruct (Forall2_lookup_r _ _ _ _ _ (merged_survivors _ _ _ _ M) Hk) as (g & _ & b & rest & _ & Hb & Hf).
    exists b, (omap (fun i => entities !! i) rest). split_and!; [by eapply list_elem_of_lookup_2| |congruence].
    intros x (j & _ & Hx)%list_elem_of_omap. by eapply list_elem_of_lookup_2.
  - left. apply list_elem_of_lookup. exists i. rewrite <- Hi. symmetry. rewrite He0. by apply (merged_others _ _ _ _ M).
Qed.

Lemma final_tools now entities handled m : merged now entities handled m -> tools_hashable entities -> tools_hashable (g_entities m).
Proof.
  intros M Ht e v He Hv. destruct (final_entity now entities handled m e M He) as [Hin|(b & others & Hb & Ho & ->)].
  - by eapply Ht.
  - apply absorb_attribute in Hv as (x & [->|Hx]%elem_of_cons & Hv); [by eapply Ht|].
    eapply Ht; [by apply Ho|done].
Qed.

(** What the groups of a matching, the merges and the last loop make together. *)
Lemma unify_shape rules use_embeddings use_fuzzy storage now entities relationships :
  NoDup (id <$> entities) -> (length entities <= depth)%nat -> textual rules entities -> tools_hashable entities -> entities <> [] ->
  exists groups pairs matching m events,
    find_groups rules use_embeddings use_fuzzy None entities = Ok (groups, matching) /\
    groups_of (id <$> entities) pairs groups /\
    (forall x y, joined pairs x y <-> rtsc (matched rules use_embeddings use_fuzzy entities) x y) /\
    merged now entities groups m /\
    let out := keep_unmerged (List.concat groups) (g_unified m) (g_mapping m) (g_entities m) in
    let new := _find_new_relationships iter uuid4 groups (g_entities m) in
    unify rules use_embeddings use_fuzzy None storage now entities relationships =
      Ok (match groups with
          | [] => MkRun (MkUnificationResult entities [] relationships [] 0 [] (m_evaluated matching) (m_above matching))
                    entities relationships []
          | _ => MkRun (MkUnificationResult (omap (fun i => g_entities m !! i) out.1) out.2
                          (_update_relationships relationships out.2).1 new (g_merged m) (g_groups m)
                          (m_evaluated matching) (m_above matching))
                   (g_entities m) (_update_relationships relationships out.2).2 events
          end).
Proof.
  intros Hids Hd Ht Htools Hne.
  destruct (find_merge_groups_classes cosine_similarity levenshtein_similarity embedding_threshold fuzzy_threshold depth
    entities Hd rules use_embeddings use_fuzzy Ht) as (groups & matching & pairs & Hf & Hg & Hj).
  destruct (merge_groups_loop now iter iter_perm entities groups [] _ (merged_start entities now)) as (m & Hm & M).
  { apply Hg. }
  { intros g Hgg. split; [by apply (groups_large _ _ _ Hg)|]. intros i Hi. by apply (groups_class _ _ _ Hg g i Hgg Hi). }
  destruct (events_ok (g_entities m) (m_labels matching) (g_meta m)) as [events He]; [by eapply final_tools|].
  exists groups, pairs, matching, m, (if storage then events else []). split_and!; [done..|]. cbv zeta.
  unfold Unify.unify. destruct entities as [|e0 es]; [done|]. rewrite Hf. change (mbind ?k (Ok ?x)) with (k x). cbv beta iota.
  destruct groups as [|g gs]; [done|]. rewrite Hm. change (mbind ?k (Ok ?x)) with (k x). cbv beta iota.
  destruct (keep_unmerged _ _ _ _) as [unified mapping]. destruct (_update_relationships _ _) as [updated rels].
  destruct storage; [rewrite He|]; done.
Qed.

Lemma groups_of_joined ids pairs groups i j : groups_of ids pairs groups -> i ∈ ids ->
  (i = j \/ exists g, g ∈ groups /\ i ∈ g /\ j ∈ g) <-> joined pairs i j.
Proof.
  intros G Hi. split.
  - intros [->|(g & Hg & Hig & Hjg)]; [reflexivity|]. by apply (groups_class _ _ _ G g i Hg Hig).
  - intros Hj. destruct (decide (i = j)) as [->|Hne]; [by left|right]. by apply (groups_all _ _ _ G).
Qed.

(** ** Relationships *)

Lemma NoDup_group (l : list (list Z)) g : NoDup (List.concat l) -> g ∈ l -> NoDup g.
Proof.
  induction l as [|h l IH]; cbn; [by intros _ ?%elem_of_nil|].
  intros (Hh & _ & Hl)%NoDup_app [->|Hg]%elem_of_cons; [done|by apply IH].
Qed.

Lemma large_concat (l : list (list Z)) : (forall g, g ∈ l -> (1 < length g)%nat) -> (2 * length l <= length (List.concat l))%nat.
Proof.
  induction l as [|g l IH]; intros Hg; cbn; [lia|]. rewrite length_app. pose proof (Hg g (list_elem_of_here _ _)).
  assert (2 * length l <= length (List.concat l))%nat by (apply IH; intros; apply Hg; by right). lia.
Qed.

(** [r] is what the run makes of [rel]: the same relationship between the entities that
    stand for its endpoints. *)
Definition moved (mapping : list (Z * Z)) (rel r : Relationship) : Prop :=
  rel_id r = rel_id rel /\ relationship_type r = relationship_type rel /\
  source_entity_id r = mapped mapping (source_entity_id rel) /\
  target_entity_id r = mapped mapping (target_entity_id rel).

Lemma elem_of_updated rels mapping r : r ∈ (_update_relationships rels mapping).1 <->
  exists rel, rel ∈ rels /\ redirect mapping rel = Some r.
Proof. apply list_elem_of_omap. Qed.

Lemma redirect_moved mapping rel r : redirect mapping rel = Some r -> moved mapping rel r /\ source_entity_id r <> target_entity_id r.
Proof. unfold redirect. destruct (Z.eqb_spec (mapped mapping (source_entity_id rel)) (mapped mapping (target_entity_id rel))); [done|]. by intros [= <-]. Qed.

Lemma redirect_some mapping rel : mapped mapping (source_entity_id rel) <> mapped mapping (target_entity_id rel) ->
  exists r, redirect mapping rel = Some r.
Proof. intros Hne. unfold redirect. rewrite (proj2 (Z.eqb_neq _ _)) by done. by eexists. Qed.

(** ** Cross references *)

Lemma entity_lookup_some es i e : entity_lookup es i = Some e -> e ∈ es /\ id e = i.
Proof.
  unfold entity_lookup. intros [l Hl]%last_Some. assert (He : e ∈ List.filter (fun e => Z.eqb (id e) i) es).
  { rewrite Hl. apply elem_of_app. right. left. }
 
  apply elem_of_list_filter in He as [He Hi%Z.eqb_eq]. done.
Qed.

(** A new relationship joins two objects of one group that have no document in common. *)
Lemma elem_of_new_relationships groups es rel : (forall g, g ∈ groups -> NoDup g) -> rel ∈ _find_new_relationships iter uuid4 groups es ->
  exists g base other, g ∈ groups /\ base ∈ es /\ other ∈ es /\ id base ∈ g /\ id other ∈ g /\ id base <> id other /\
    source_entity_id rel = id base /\ target_entity_id rel = id other /\
    disjoint (source_document_ids base) (source_document_ids other) = true.
Proof.
  intros Hnd [i Hi]%list_elem_of_lookup. unfold _find_new_relationships in Hi. rewrite list_lookup_imap in Hi.
  destruct (List.concat _ !! i) as [make|] eqn:Hm; [|done]. cbn in Hi. injection Hi as <-.
  apply list_elem_of_lookup_2, elem_of_concat_list_map in Hm as (g & Hg & Hm). unfold group_references in Hm.
  destruct (omap (entity_lookup es) (iter g)) as [|base others] eqn:Ho; [by apply elem_of_nil in Hm|].
  destruct (_ || _); [by apply elem_of_nil in Hm|]. change (List.map ?f ?l) with (f <$> l) in Hm.
  apply list_elem_of_fmap in Hm as (other & -> & [Hin Hdis]%elem_of_list_filter). cbn.
  assert (Hall : forall e, e ∈ base :: others -> e ∈ es /\ id e ∈ g).
  { intros e. rewrite <- Ho. intros (x & Hx & [He Hid]%entity_lookup_some)%list_elem_of_omap. rewrite iter_perm in Hx. by subst x. }
  assert (Hdist : NoDup (id <$> base :: others)).
  { rewrite <- Ho. assert (Hn : NoDup (iter g)) by (rewrite iter_perm; by apply Hnd). clear -Hn.
    induction Hn as [|x l Hx Hl IH]; csimpl; [apply NoDup_nil_2|]. destruct (entity_lookup es x) as [e|] eqn:He; [|done].
    csimpl. apply NoDup_cons. split; [|done]. apply entity_lookup_some in He as [_ Hid].
    intros (e' & Heq & (y & Hy & [_ Hid']%entity_lookup_some)%list_elem_of_omap)%list_elem_of_fmap. congruence. }
  destruct (Hall base (list_elem_of_here _ _)) as [Hb Hbg]. destruct (Hall other) as [Hot Hog]; [by right|].
  exists g, base, other. split_and!; [done..| |done|done|done].
  intros Heq. csimpl in Hdist. apply NoDup_cons in Hdist as [Hno _]. apply Hno. rewrite Heq. by apply list_elem_of_fmap_2.
Qed.

Lemma disjoint_common l l' d : disjoint l l' = true -> d ∈ l -> d ∈ l' -> False.
Proof.
  unfold disjoint. rewrite forallb_forall. intros Hd Hl Hl'. specialize (Hd d (proj1 (list_elem_of_In _ _) Hl)).
  by apply negb_true_iff, bool_decide_eq_false in Hd.
Qed.

(** The objects of a run after it: each is a result, or an entity as it was. *)
Section objects.
Context (related : relation Z) (Hsym : Symmetric related) (entities : list Entity) (res : UnificationResult) (final : list Entity)
  (A : accounts related entities res) (Hd : NoDup (id <$> final)) (Hsub : forall s, s ∈ unified_entities res -> s ∈ final)
  (Hin : forall x, x ∈ final -> exists e, e ∈ entities /\ id e = id x /\ (x ∈ unified_entities res \/ x = e)).

(** A result has the documents of every object that belongs with it, and is the only result
    among them. *)
Lemma survivor_absorbs x y : x ∈ final -> y ∈ final -> id x <> id y -> related (id x) (id y) ->
  id x ∈ id <$> unified_entities res ->
  (id y ∉ id <$> unified_entities res) /\ forall d, d ∈ source_document_ids y -> d ∈ source_document_ids x.
Proof.
  intros Hx Hy Hxy Hrel (s & Hs & Hsu)%list_elem_of_fmap.
  assert (s = x) as ->.
  { apply Hsub in Hsu. apply list_elem_of_lookup in Hsu as [i Hi], Hx as [k Hk]. assert (i = k) as ->; [|congruence].
    eapply (NoDup_lookup (id <$> final)); [done| |]; rewrite list_lookup_fmap; [by rewrite Hi|by rewrite Hk, <- Hs]. }
  destruct (Hin x Hx) as (ex & Hex & Hidx & _), (Hin y Hy) as (ey & Hey & Hidy & Hy').
  assert (Hmap : mapped (entity_mapping res) (id y) = id x).
  { rewrite <- (acc_fixed _ _ _ A x Hsu), <- Hidx, <- Hidy. apply (acc_classes _ _ _ A); [done..|]. rewrite Hidx, Hidy. by apply Hsym. }
  assert (Hyno : id y ∉ id <$> unified_entities res).
  { intros (s & Hs' & Hsu')%list_elem_of_fmap. pose proof (acc_fixed _ _ _ A s Hsu') as Hf. congruence. }
  split; [done|]. destruct Hy' as [Hyu| ->]; [destruct Hyno; by apply list_elem_of_fmap_2|].
  intros d Hdy. apply (acc_documents _ _ _ A x d Hsu). by exists ey.
Qed.

Lemma absorbed_without_documents x y : x ∈ final -> y ∈ final -> id x <> id y -> related (id x) (id y) ->
  disjoint (source_document_ids x) (source_document_ids y) = true \/ disjoint (source_document_ids y) (source_document_ids x) = true ->
  (forall e, e ∈ entities -> source_document_ids e <> []) -> id x ∉ id <$> unified_entities res.
Proof.
  intros Hx Hy Hxy Hrel Hdis Hdocs Hxu. destruct (survivor_absorbs x y Hx Hy Hxy Hrel Hxu) as [Hyno Hsubd].
  destruct (Hin y Hy) as (ey & Hey & Hidy & [Hyu| ->]); [destruct Hyno; by apply list_elem_of_fmap_2|].
  specialize (Hdocs ey Hey). destruct (source_document_ids ey) as [|d ds]; [done|].
  assert (Hdx : d ∈ source_document_ids x) by (apply Hsubd; left).
  destruct Hdis as [Hdis|Hdis]; apply (disjoint_common _ _ d Hdis); (done || left).
Qed.

Lemma dangling base other : base ∈ final -> other ∈ final -> id base <> id other -> related (id base) (id other) ->
  disjoint (source_document_ids base) (source_document_ids other) = true ->
  let survives i := i ∈ id <$> unified_entities res in
  related (id base) (id other) /\ ~ (survives (id base) /\ survives (id other)) /\
  ((forall e, e ∈ entities -> source_document_ids e <> []) -> ~ survives (id base) /\ ~ survives (id other)).
Proof.
  intros Hb Ho Hne Hrel Hdis. split_and!; [done| |].
  - intros [Hs Ht]. by apply (survivor_absorbs base other Hb Ho Hne Hrel) in Hs as [? _].
  - intros Hdocs. split; [apply (absorbed_without_documents base other)|apply (absorbed_without_documents other base)]; auto.
Qed.
End objects.

Section outcome.
Context (rules : list CorrelationRule) (use_embeddings use_fuzzy storage : bool) (now : Z)
  (entities : list Entity) (relationships : list Relationship).
Context (Hids : NoDup (id <$> entities)) (Hdepth : (length entities <= depth)%nat)
  (Htext : textual rules entities) (Htools : tools_hashable entities).

Local Abbreviation related := (rtsc (matched rules use_embeddings use_fuzzy entities)).
Local Abbreviation run := (unify rules use_embeddings use_fuzzy None storage now entities relationships).

Lemma run_accounts : exists r, run = Ok r /\ accounts related entities (run_result r).
Proof.
  destruct (decide (entities = [])) as [Hnil|Hne].
  { rewrite Hnil. eexists. split; [done|]. split; cbn; try done; try (intros; by set_solver). }
  destruct (unify_shape rules use_embeddings use_fuzzy storage now entities relationships Hids Hdepth Htext Htools Hne)
    as (groups & pairs & matching & m & events & _ & G & Hj & M & ->). cbv zeta. eexists. split; [done|].
  assert (Hcl : forall e e', e ∈ entities -> (id e = id e' \/ exists g, g ∈ groups /\ id e ∈ g /\ id e' ∈ g) <-> related (id e) (id e')).
  { intros e e' He. rewrite <- Hj. apply (groups_of_joined _ _ _ _ _ G). by apply list_elem_of_fmap_2. }
  destruct groups as [|g0 gs].
  - assert (Hid : forall i, mapped [] i = i) by done. split; cbn [run_result unified_entities entity_mapping entities_merged]; try done.
    + intros e e' He He'. rewrite !Hid, <- Hcl by done. split; [by left|]. intros [?|(g & Hg & _)]; [done|by apply elem_of_nil in Hg].
    + intros e He. rewrite Hid. by apply list_elem_of_fmap_2.
    + intros s d Hs. split; [intros Hd; by exists s|]. intros (e & He & Heq & Hd). rewrite Hid in Heq.
      apply list_elem_of_lookup in He as [i Hi], Hs as [k Hk]. assert (i = k) as ->; [|congruence].
      eapply (NoDup_lookup (id <$> entities)); [done| |]; rewrite list_lookup_fmap; [by rewrite Hi|by rewrite Hk, Heq].
    + lia.
  - set (groups := g0 :: gs) in *. assert (Hg : forall g, g ∈ groups -> (1 < length g)%nat /\ forall i, i ∈ g -> i ∈ id <$> entities).
    { intros g Hgg. split; [by apply (groups_large _ _ _ G)|]. intros i Hi. by apply (groups_class _ _ _ G g i Hgg Hi). }
    pose proof (groups_disjoint _ _ _ G) as Hn.
    split; cbn [run_result unified_entities entity_mapping entities_merged].
    + intros e e' He He'. rewrite <- Hcl by done. by apply (target_same now entities groups m M Hn).
    + intros e He. by apply (targets_unified now entities groups m M).
    + intros s Hs. by apply (unified_stands now entities Hids groups m M Hn).
    + by apply (unified_distinct now entities Hids groups m M Hn).
    + intros s d Hs. destruct (unified_stands now entities Hids groups m M Hn Hg s Hs) as (_ & others & Ho & Hdocs).
      rewrite Hdocs. setoid_rewrite Ho. naive_solver.
    + by apply (unified_mentions now entities groups m M Hn Hg).
    + by apply (unified_count now entities Hids groups m M Hn Hg).
Qed.

(** Once anything was merged, the mapping has every entity as a key, so every survivor as a
    value. *)
Lemma survivors_mapped r : run = Ok r -> entities_merged (run_result r) <> 0 ->
  forall s, s ∈ unified_entities (run_result r) -> id s ∈ List.map snd (entity_mapping (run_result r)).
Proof.
  intros Hr Hmerged s Hs. destruct run_accounts as (r' & Hr' & A). assert (r' = r) as -> by congruence. clear Hr'.
  destruct (decide (entities = [])) as [Hnil|Hne].
  { rewrite Hnil in Hr. injection Hr as <-. by apply elem_of_nil in Hs. }
  destruct (unify_shape rules use_embeddings use_fuzzy storage now entities relationships Hids Hdepth Htext Htools Hne)
    as (groups & pairs & matching & m & events & _ & G & Hj & M & Hrun). cbv zeta in Hrun. rewrite Hrun in Hr.
  assert (Hsome : is_Some (zget (id s) (entity_mapping (run_result r))) -> id s ∈ List.map snd (entity_mapping (run_result r))).
  { intros [i Hi]. pose proof (acc_fixed _ _ _ A s Hs) as Hfix. unfold mapped in Hfix. rewrite Hi in Hfix. cbn in Hfix. subst i.
    apply zget_entry in Hi. apply list_elem_of_fmap. by exists (id s, id s). }
  apply Hsome. destruct groups as [|g0 gs]; injection Hr as Hr; [by subst r|].
  set (groups := g0 :: gs) in *. pose proof (groups_disjoint _ _ _ G) as Hn.
  assert (Hg : forall g, g ∈ groups -> (1 < length g)%nat /\ forall i, i ∈ g -> i ∈ id <$> entities).
  { intros g Hgg. split; [by apply (groups_large _ _ _ G)|]. intros i Hi. by apply (groups_class _ _ _ G g i Hgg Hi). }
  assert (Hin : id s ∈ id <$> entities).
  { rewrite <- (merged_ids _ _ _ _ M). apply list_elem_of_fmap_2. subst r. cbn [run_result unified_entities] in Hs.
    apply list_elem_of_omap in Hs as (i & _ & Hi). by eapply list_elem_of_lookup_2. }
  subst r. cbn [run_result entity_mapping]. rewrite (target_lookup now entities groups m M).
  case_decide as Hd; [by eexists|]. assert (Hc : id s ∈ List.concat groups) by (destruct (decide (id s ∈ List.concat groups)); [done|by destruct Hd]).
  apply elem_of_concat_groups in Hc as (g & Hgg & Hi).
  destruct (target_grouped now entities groups m M g (id s) Hgg Hi) as (k & base & b & Hk & Hbase & Hb & _ & _).
  rewrite (merged_mapping _ _ _ _ M k g base b (id s)) by done. by eexists.
Qed.

(** C9.  A run without an index succeeds over entities with distinct ids, no more of them than the interpreter
    allows nested calls, whose values at the fields of the correlation rules are strings and
    whose source tools are hashable (a list there
    raises [TypeError]); what it returns accounts for its input: the entities fall
    into the classes of the least equivalence that contains the matched pairs, every class
    has exactly one entity in the result, with the documents of all its members, and the
    mention counts add up. *)
Theorem unify_accounts : exists r, run = Ok r /\ accounts related entities (run_result r).
Proof. exact run_accounts. Qed.

(** C10.  Of a run without an index over entities with distinct ids, no more of them than the interpreter
    allows nested calls, whose values at the fields of the correlation rules are strings and
    whose source tools are hashable: a relationship
    between entities that do not belong together survives it, with the surviving entities as
    its endpoints; every relationship of the result is one of the
    input, moved in this way; and once anything was merged none is a self-loop.  When nothing
    was merged the relationships are returned as they are. *)
Theorem relationships_follow : exists r, run = Ok r /\
  let res := run_result r in
  let targets := id <$> unified_entities res in
  (forall rel, rel ∈ relationships -> source_entity_id rel ∈ id <$> entities -> target_entity_id rel ∈ id <$> entities ->
    ~ related (source_entity_id rel) (target_entity_id rel) ->
    exists rel', rel' ∈ updated_relationships res /\ moved (entity_mapping res) rel rel' /\
      source_entity_id rel' ∈ targets /\ target_entity_id rel' ∈ targets) /\
  (forall rel', rel' ∈ updated_relationships res -> exists rel, rel ∈ relationships /\ moved (entity_mapping res) rel rel') /\
  (0 < entities_merged res -> forall rel', rel' ∈ updated_relationships res -> source_entity_id rel' <> target_entity_id rel') /\
  (entities_merged res = 0 -> updated_relationships res = relationships \/ entities = []).
Proof.
  destruct run_accounts as (r & Hr & A). exists r. split; [done|]. cbv zeta.
  destruct (decide (entities = [])) as [Hnil|Hne].
  { rewrite Hnil in Hr. injection Hr as <-. split_and!; cbn; [| |lia|by right].
    - intros rel _ Hs. rewrite Hnil in Hs. by apply elem_of_nil in Hs.
    - intros rel Hrel. by apply elem_of_nil in Hrel. }
  destruct (unify_shape rules use_embeddings use_fuzzy storage now entities relationships Hids Hdepth Htext Htools Hne)
    as (groups & pairs & matching & m & events & _ & G & Hj & M & Hrun). cbv zeta in Hrun. rewrite Hrun in Hr.
  assert (Htargets : forall i, i ∈ id <$> entities -> mapped (entity_mapping (run_result r)) i ∈ id <$> unified_entities (run_result r)).
  { intros i (e & -> & He)%list_elem_of_fmap. by apply (acc_targets _ _ _ A). }
  assert (Hclass : forall i j, i ∈ id <$> entities -> j ∈ id <$> entities ->
    mapped (entity_mapping (run_result r)) i = mapped (entity_mapping (run_result r)) j -> related i j).
  { intros i j (e & -> & He)%list_elem_of_fmap (e' & -> & He')%list_elem_of_fmap. by apply (acc_classes _ _ _ A). }
  destruct groups as [|g0 gs]; injection Hr as Hr.
  - subst r. cbn [run_result updated_relationships entity_mapping unified_entities entities_merged] in *. split_and!; [| |lia|by left].
    + intros rel Hrel Hs Ht _. exists rel. by split_and!.
    + intros rel Hrel. by exists rel.
  - assert (Hupd : updated_relationships (run_result r) = (_update_relationships relationships (entity_mapping (run_result r))).1) by by subst r.
    assert (Hcount : entities_merged (run_result r) <> 0).
    { subst r. cbn [run_result entities_merged]. rewrite (merged_count _ _ _ _ M).
      assert (Hl : forall g, g ∈ g0 :: gs -> (1 < length g)%nat) by apply (groups_large _ _ _ G).
      pose proof (large_concat (g0 :: gs) Hl). cbn [length] in *. lia. }
    rewrite Hupd. setoid_rewrite elem_of_updated. split_and!; [| | |done].
    + intros rel Hrel Hs Ht Hno. destruct (redirect_some (entity_mapping (run_result r)) rel) as [rel' Hrel'].
      { intros Heq. apply Hno. by apply Hclass. }
      destruct (redirect_moved _ _ _ Hrel') as [Hmv _]. exists rel'. split; [by exists rel|]. split; [done|].
      destruct Hmv as (_ & _ & -> & ->). split; by apply Htargets.
    + intros rel' (rel & Hrel & Hr'). exists rel. split; [done|]. by apply redirect_moved.
    + intros _ rel' (rel & _ & Hr'). by apply redirect_moved in Hr' as [_ ?].
Qed.

(** Both endpoints of a CROSS_REFERENCED relationship belonged to entities that were
    merged into one, so at least one of them names an entity that the run has absorbed; if
    every entity has a source document, neither endpoint survives. *)
Theorem cross_references_dangle : exists r, run = Ok r /\
  forall rel, rel ∈ new_relationships (run_result r) ->
    let survives i := i ∈ id <$> unified_entities (run_result r) in
    related (source_entity_id rel) (target_entity_id rel) /\
    ~ (survives (source_entity_id rel) /\ survives (target_entity_id rel)) /\
    ((forall e, e ∈ entities -> source_document_ids e <> []) ->
      ~ survives (source_entity_id rel) /\ ~ survives (target_entity_id rel)).
Proof.
  destruct run_accounts as (r & Hr & A). exists r. split; [done|]. cbv zeta.
  destruct (decide (entities = [])) as [Hnil|Hne].
  { rewrite Hnil in Hr. injection Hr as <-. intros rel Hrel. by apply elem_of_nil in Hrel. }
  destruct (unify_shape rules use_embeddings use_fuzzy storage now entities relationships Hids Hdepth Htext Htools Hne)
    as (groups & pairs & matching & m & events & _ & G & Hj & M & Hrun). cbv zeta in Hrun. rewrite Hrun in Hr.
  destruct groups as [|g0 gs]; injection Hr as Hr; [intros rel Hrel; subst r; by apply elem_of_nil in Hrel|].
  set (groups := g0 :: gs) in *. assert (Hnew : new_relationships (run_result r) = _find_new_relationships iter uuid4 groups (g_entities m)) by by subst r.
  assert (Huni : forall i e, g_entities m !! i = Some e -> i ∈ g_unified m -> e ∈ unified_entities (run_result r)).
  { intros i e He Hi. subst r. cbn [run_result unified_entities]. apply list_elem_of_omap. exists i. split; [|done].
    rewrite (proj1 (keep_unmerged_spec _ _ _ _)). set_solver. }
  assert (Hsub : forall s, s ∈ unified_entities (run_result r) -> s ∈ g_entities m).
  { intros s Hs. subst r. cbn [run_result unified_entities] in Hs. apply list_elem_of_omap in Hs as (i & _ & Hi). by eapply list_elem_of_lookup_2. }
  clear Hr Hrun. rewrite Hnew. intros rel Hrel. apply elem_of_new_relationships in Hrel as (g & base & other & Hg & Hb & Ho & Hbg & Hog & Hne' & -> & -> & Hdis).
  2: { intros g. apply NoDup_group, (groups_disjoint _ _ _ G). }
  apply (dangling related (Equivalence_Symmetric (Equivalence := rtsc_equivalence)) entities (run_result r) (g_entities m)); try done.
  - by rewrite (merged_ids _ _ _ _ M).
  - intros x [i Hi]%list_elem_of_lookup. destruct (lookup_of_ids _ _ _ _ (merged_ids _ _ _ _ M) Hi) as (e & He & Hid).
    exists e. split; [by eapply list_elem_of_lookup_2|]. split; [done|]. destruct (decide (i ∈ g_unified m)) as [Hu|Hu]; [left; by eapply Huni|right].
    pose proof (merged_others _ _ _ _ M i e He Hu). congruence.
  - apply Hj, (groups_class _ _ _ G g (id base) Hg Hbg). done.
Qed.
End outcome.

(** ** The size at which a run fails *)

Section same_name.
Context (first : Entity) (rest : list Entity) (use_embeddings use_fuzzy : bool).
Hypothesis Hname : forall e, e ∈ rest -> name_key e = name_key first.
Hypothesis Hembed : use_embeddings = true -> forall e, e ∈ first :: rest -> embedding e = None.
Hypothesis Hfuzzy : use_fuzzy = true -> forall second, head rest = Some second ->
  reaches (levenshtein_similarity (name first) (name second)) fuzzy_threshold = true.

Lemma one_group {K} (same : K -> K -> bool) (keyof : Entity -> K) key g l :
  (forall e, e ∈ l -> same key (keyof e) = true) ->
  foldl (fun groups e => group_add same (keyof e) e groups) [(key, g)] l = [(key, g ++ l)].
Proof.
  revert g. induction l as [|e l IH]; intros g Hl; cbn [foldl group_add]; [by rewrite app_nil_r|].
  rewrite Hl by left. rewrite IH by (intros; apply Hl; by right). by rewrite <- (assoc_L app).
Qed.

Lemma one_name : _find_exact_name_matches (first :: rest) = star (id first) (id <$> rest).
Proof.
  unfold _find_exact_name_matches, name_groups. cbn [foldl group_add].
  rewrite one_group; [cbn; by rewrite app_nil_r|]. intros e He. apply (proj2 (same_key_eq levenshtein_similarity _ _)). symmetry. by apply Hname.
Qed.

Lemma no_embeddings : use_embeddings = true ->
  _find_embedding_matches cosine_similarity embedding_threshold None (first :: rest) = Ok ([], 0).
Proof.
  intros Hu. unfold _find_embedding_matches.
  replace (List.filter _ (first :: rest)) with (@nil Entity); [done|]. symmetry.
  specialize (Hembed Hu). revert Hembed. generalize (first :: rest). induction l as [|e l IH]; intros He; cbn; [done|].
  rewrite He by left. rewrite bool_decide_false by (by intros []). apply IH. intros e' H'. apply He. by right.
Qed.

Lemma first_fuzzy_pair second tail : use_fuzzy = true -> rest = second :: tail ->
  exists pairs n, fuzzy_pairs levenshtein_similarity fuzzy_threshold (first :: rest) = ((id first, id second) :: pairs, n).
Proof.
  intros Hu Hrest. unfold fuzzy_pairs, type_groups. cbn [foldl group_add].
  rewrite one_group.
  2: { intros e He. apply String.eqb_eq. specialize (Hname e He). unfold name_key in Hname. congruence. }
  rewrite Hrest in Hfuzzy |- *. cbn. rewrite (Hfuzzy Hu second eq_refl). cbn. by eexists _, _.
Qed.

(** C33.  Entities that share one name and type are chained, each to the next, by the joins of
    exact-name matching: when all but the first are more than the nested calls the
    interpreter allows, and it allows more than two, a run without correlation rules and
    without an index raises [RecursionError] - also with the embedding strategy on, when no
    entity has an embedding, and also with the fuzzy strategy on, when the similarity of the
    first two names reaches the threshold, as that of a name with itself does. *)
Theorem same_names_too_deep storage now relationships : NoDup (id <$> first :: rest) -> (2 < depth < length rest)%nat ->
  unify [] use_embeddings use_fuzzy None storage now (first :: rest) relationships = Err RecursionError.
Proof.
  intros Hnd [Hd Hlen]. assert (Hsplit : exists second tail, rest = second :: tail) by (clear -Hlen; destruct rest; [cbn in Hlen; lia|eauto]).
  destruct Hsplit as (second & tail & Hrest).
  assert (Hids : id <$> first :: rest = id first :: id second :: (id <$> tail)) by by rewrite Hrest.
  assert (Hdt : (depth <= length tail)%nat) by (rewrite Hrest in Hlen; cbn in Hlen; lia).
  rewrite Hids in Hnd. destruct (star_chained depth _ _ _ Hnd Hd) as (p & top & Hu & Hc). rewrite length_fmap in Hc.
  assert (Hfind := chained_find p _ _ _ _ _ depth Hc Hd). assert (Hdeep := chained_too_deep depth p _ _ _ _ _ Hc Hdt).
  assert (Hbuild : build_groups depth p (id <$> first :: rest) [] = Err RecursionError).
  { rewrite Hids. cbn [build_groups]. by rewrite Hfind, Hdeep. }
  assert (Hstar : star (id first) (id <$> rest) = star (id first) (id second :: (id <$> tail))) by by rewrite Hrest.
  unfold Unify.unify, _find_merge_groups. cbn [fold_m]. rewrite one_name, Hstar. change (List.map id ?l) with (id <$> l).
  unfold unite, mbind, result_bind. cbn [m_parent m_labels m_evaluated m_above]. rewrite Hids, Hu, <- Hids. cbv beta iota.
  cbn [m_parent m_labels m_evaluated m_above].
  pose proof no_embeddings as Hnone. pose proof (fun Hu => first_fuzzy_pair second tail Hu Hrest) as Hpairs.
  destruct use_embeddings.
  - rewrite Hnone by done. cbn [unions m_parent m_labels m_evaluated m_above foldl]. destruct use_fuzzy.
    + destruct (Hpairs eq_refl) as (pairs & n & Hp).
      unfold _find_fuzzy_matches. rewrite Hp. cbn [unions]. unfold union. by rewrite Hfind, Hdeep.
    + cbn [m_parent]. by rewrite Hbuild.
  - cbn [m_parent m_labels m_evaluated m_above]. destruct use_fuzzy.
    + destruct (Hpairs eq_refl) as (pairs & n & Hp).
      unfold _find_fuzzy_matches. rewrite Hp. cbn [unions m_parent]. unfold union. by rewrite Hfind, Hdeep.
    + cbn [m_parent]. by rewrite Hbuild.
Qed.
End same_name.
End account.
End UnifyAccount.
