(* ===== verification/UnifyIndex.v ===== *)
(** Unification through an [EntityIndex]: what the index serves after any history of
    additions, and that the pairs it proposes are among those of the exhaustive comparison. *)
From S2P Require Import Prelude PyValue PyText RankFusion Entities EntityIndex EntityIndexFacts UnionFind Unify UnifyFacts.

Local Open Scope Z_scope.

Module UnifyIndex.
Import Entities.Entities EntityIndex.EntityIndex EntityIndexFacts.EntityIndexFacts UnionFind.UnionFind Unify.Unify UnifyFacts.UnifyFacts.

Section index.
Context `{TextOps} (str_iter : list string -> list string) (id_iter : list Z -> list Z).
Hypothesis str_iter_perm : forall l, str_iter l ≡ₚ l.
Hypothesis id_iter_perm : forall l, id_iter l ≡ₚ l.
Context (levenshtein_similarity : string -> string -> float) (cosine_similarity dot_product : list float -> list float -> float).

(** The calls that unification makes: at most 100 candidates that share a token. *)
Definition searches (idx : EntityIndex) : Index :=
  MkIndexSearches
    (fun threshold e skip => find_embedding_candidates str_iter id_iter dot_product idx e threshold 100 skip)
    (fun threshold e skip => find_fuzzy_candidates str_iter id_iter levenshtein_similarity idx e threshold 100 1 skip).

Local Abbreviation built := (add_all str_iter empty_index).

(** An entity that the index of [entities] serves for the query [e]. *)
Definition serves (entities : list Entity) (e : Entity) (skip : list Z) (c : Entity) : Prop :=
  first_of entities c /\ id c <> id e /\ (id c ∉ skip) /\ entity_type c = entity_type e /\
  exists t, t ∈ _tokenize (name e) /\ t ∈ _tokenize (name c).

Lemma candidate_serves entities e skip least valid c : NoDup (id <$> entities) ->
  (valid c = true -> entity_type c = entity_type e) ->
  candidate (built entities) e skip least valid c -> serves entities e skip c.
Proof.
  intros Hids Hv (Hg & Hne & Hsk & Hl & Hval). destruct (add_all_first str_iter id_iter str_iter_perm id_iter_perm entities Hids) as [C Hget].
  split_and!; [by apply Hget in Hg as [_ Hf]|done|done|by apply Hv|].
  destruct (shared (built entities) (_tokenize (name e)) (id c)) as [|t ts] eqn:Hs; [cbn in Hl; lia|].
  assert (Ht : t ∈ shared (built entities) (_tokenize (name e)) (id c)) by (rewrite Hs; left).
  apply elem_of_list_filter in Ht as [Ht Hb]. exists t. split; [done|].
  apply andb_true_iff in Hb as [Hb _]. apply bool_decide_eq_true in Hb.
  apply (token_view _ C) in Hb as (c' & Hc' & Ht'). assert (c' = c) as -> by congruence. done.
Qed.

Lemma built_serves entities e threshold cap skip : NoDup (id <$> entities) ->
  (forall nm ty c, get_by_name (built entities) nm ty = Some c <->
    first_of entities c /\ key_of c = (normalize_entity_name nm, ty)) /\
  exists results,
    find_fuzzy_candidates str_iter id_iter levenshtein_similarity (built entities) e threshold cap 1 skip = Ok results /\
    (forall c x, (c, x) ∈ results -> serves entities e skip c /\ normalize_entity_name (name c) <> normalize_entity_name (name e) /\
      x = levenshtein_similarity (name e) (name c) /\ reaches x threshold = true) /\
    (Z.of_nat (length (_by_id (built entities))) <= cap ->
      (forall t, t ∈ _tokenize (name e) -> (length (row t (_token (built entities))) <= 500)%nat) ->
      forall c, serves entities e skip c -> normalize_entity_name (name c) <> normalize_entity_name (name e) ->
        reaches (levenshtein_similarity (name e) (name c)) threshold = true ->
        (c, levenshtein_similarity (name e) (name c)) ∈ results).
Proof.
  intros Hids. destruct (add_all_first str_iter id_iter str_iter_perm id_iter_perm entities Hids) as [C Hget]. split.
  - intros nm ty c. unfold get_by_name. rewrite (exact_view _ C), Hget. tauto.
  - destruct (fuzzy_candidates_exact str_iter id_iter str_iter_perm id_iter_perm levenshtein_similarity (built entities) e threshold cap 1 skip C)
      as (results & Hr & Hs & Hc). exists results. split; [done|]. split.
    + intros c x Hcx. destruct (Hs c x Hcx) as (Hcand & Hx & Hre). pose proof Hcand as (_ & _ & _ & _ & Hv).
      unfold same_type_other_name in Hv. apply andb_true_iff in Hv as [Ht%String.eqb_eq Hn%negb_true_iff%String.eqb_neq].
      split; [|done]. by eapply candidate_serves.
    + intros Hcap Hfreq c (Hf & Hne & Hsk & Ht & t & Hte & Htc) Hn Hre. apply Hc; [done| |done].
      assert (Hg : get (built entities) (id c) = Some c) by by apply Hget.
      split_and!; [done..| |unfold same_type_other_name; rewrite Ht, String.eqb_refl; by apply negb_true_iff, String.eqb_neq].
      assert (Hin : t ∈ shared (built entities) (_tokenize (name e)) (id c)).
      { apply elem_of_list_filter. split; [done|]. rewrite bool_decide_true by (apply (token_view _ C); eauto).
        by apply Nat.leb_le, Hfreq. }
      destruct (shared _ _ _); [by apply elem_of_nil in Hin|cbn; lia].
Qed.

(** ** Blocked matching *)

Lemma blocked_pairs_sound find (served : Entity -> list Z -> Entity -> Prop) :
  (forall e skip, exists cs, find e skip = Ok cs /\ forall c x, (c, x) ∈ cs -> served e skip c) ->
  forall entities seen processed, exists pairs, blocked_pairs find entities seen processed = Ok pairs /\
    forall x y, (x, y) ∈ pairs -> exists pre e post c, entities = pre ++ e :: post /\ x = id e /\ y = id c /\
      served e (processed ++ List.map id pre) c.
Proof.
  intros Hfind. induction entities as [|e entities IH]; intros seen processed; cbn [blocked_pairs].
  - exists []. split; [done|]. intros x y Hxy. by apply elem_of_nil in Hxy.
  - destruct (Hfind e processed) as (cs & -> & Hcs). change (mbind ?k (Ok ?x)) with (k x). cbv beta.
    set (step := foldl _ _ cs). assert (Hnew : forall x y, (x, y) ∈ step.2 -> exists c s, (c, s) ∈ cs /\ x = id e /\ y = id c).
    { subst step. assert (Hgen : forall l acc, (forall x y, (x, y) ∈ acc.2 -> exists c s, (c, s) ∈ cs /\ x = id e /\ y = id c) -> l ⊆ cs ->
        forall x y, (x, y) ∈ (foldl (fun '(seen, new) c =>
          let key := pair_key (id e) (id c.1) in
          if bool_decide (key ∈ seen) then (seen, new) else (seen ++ [key], new ++ [(id e, id c.1)])) acc l).2 ->
        exists c s, (c, s) ∈ cs /\ x = id e /\ y = id c).
      { induction l as [|[c s] l IHl]; intros [sn nw] Hacc Hl; cbn [foldl]; [done|]. apply IHl; [|set_solver].
        cbv zeta. case_bool_decide; [done|]. cbn [snd] in *. intros x y [Hxy|[= -> ->]%list_elem_of_singleton]%elem_of_app; [by apply Hacc|].
        exists c, s. split; [apply Hl; left|done]. }
      apply Hgen; [|done]. intros x y Hxy. by apply elem_of_nil in Hxy. }
    destruct step as [seen' new]. cbn [snd] in Hnew. destruct (IH seen' (processed ++ [id e])) as (pairs & -> & Hp).
    change (mbind ?k (Ok ?x)) with (k x). cbv beta. eexists. split; [done|]. intros x y [Hxy|Hxy]%elem_of_app.
    + destruct (Hnew x y Hxy) as (c & s & Hc & -> & ->). exists [], e, entities, c. rewrite app_nil_r. split_and!; [done..|by eapply Hcs].
    + destruct (Hp x y Hxy) as (pre & e' & post & c & -> & -> & -> & Hs). exists (e :: pre), e', post, c.
      split_and!; [done..|]. cbn [List.map]. by rewrite <- (assoc_L app) in Hs.
Qed.

Lemma later entities pre e post c : entities = pre ++ e :: post -> c ∈ entities -> id c <> id e ->
  (id c ∉ List.map id pre) -> before entities e c.
Proof.
  intros -> Hc Hne Hpre. apply elem_of_app in Hc as [Hc|[->|Hc]%elem_of_cons]; [|done|].
  - destruct Hpre. change (List.map id pre) with (id <$> pre). by apply list_elem_of_fmap_2.
  - apply list_elem_of_split in Hc as (l2 & l3 & ->). by exists pre, l2, l3.
Qed.

Lemma first_of_in entities c : first_of entities c -> c ∈ entities.
Proof. intros (pre & post & -> & _). set_solver. Qed.

(** After adding entities with distinct ids, in any order, the index answers a lookup by
    name and type with the first entity added under that normalised name and type, and a
    fuzzy search returns only served entities of another name, with their similarity to the
    query, which reaches the threshold; unless the cap is smaller than the index or a shared
    token is too frequent, it returns all of them. *)
Theorem index_serves_first entities e threshold cap skip : NoDup (id <$> entities) ->
  (forall nm ty c, get_by_name (built entities) nm ty = Some c <->
    first_of entities c /\ key_of c = (normalize_entity_name nm, ty)) /\
  exists results,
    find_fuzzy_candidates str_iter id_iter levenshtein_similarity (built entities) e threshold cap 1 skip = Ok results /\
    (forall c x, (c, x) ∈ results -> serves entities e skip c /\ normalize_entity_name (name c) <> normalize_entity_name (name e) /\
      x = levenshtein_similarity (name e) (name c) /\ reaches x threshold = true) /\
    (Z.of_nat (length (_by_id (built entities))) <= cap ->
      (forall t, t ∈ _tokenize (name e) -> (length (row t (_token (built entities))) <= 500)%nat) ->
      forall c, serves entities e skip c -> normalize_entity_name (name c) <> normalize_entity_name (name e) ->
        reaches (levenshtein_similarity (name e) (name c)) threshold = true ->
        (c, levenshtein_similarity (name e) (name c)) ∈ results).
Proof. apply built_serves. Qed.

(** C31.  With an index of the entities, each pair that blocked matching proposes is a pair that
    the exhaustive comparison of the same strategy proposes: blocking loses candidates and
    adds none (for the embeddings: where the dot product is the cosine, as for vectors of
    length one). *)
Theorem blocked_within_exhaustive entities embedding_threshold fuzzy_threshold : NoDup (id <$> entities) ->
  (forall e e' v w, e ∈ entities -> e' ∈ entities -> embedding e = Some v -> embedding e' = Some w -> dot_product v w = cosine_similarity v w) ->
  exists fuzzy embedded,
    _find_fuzzy_matches levenshtein_similarity fuzzy_threshold (Some (searches (built entities))) entities = Ok fuzzy /\
    _find_embedding_matches cosine_similarity embedding_threshold (Some (searches (built entities))) entities = Ok embedded /\
    fuzzy.1 ⊆ (fuzzy_pairs levenshtein_similarity fuzzy_threshold entities).1 /\
    embedded.1 ⊆ (embedding_pairs cosine_similarity embedding_threshold entities).1.
Proof.
  intros Hids Hdot. destruct (add_all_first str_iter id_iter str_iter_perm id_iter_perm entities Hids) as [C Hget].
  destruct (blocked_pairs_sound (search_fuzzy (searches (built entities)) fuzzy_threshold)
    (fun e skip c => serves entities e skip c /\ reaches (levenshtein_similarity (name e) (name c)) fuzzy_threshold = true)) with (entities := entities) (seen := @nil (Z * Z)) (processed := @nil Z)
    as (fp & Hf & Hfp).
  { intros e skip. destruct (built_serves entities e fuzzy_threshold 100 skip Hids) as [_ (cs & Hcs & Hs & _)].
    exists cs. split; [done|]. intros c x Hcx. destruct (Hs c x Hcx) as (Hsv & _ & -> & Hre). done. }
  set (es := List.filter (fun e => bool_decide (is_Some (embedding e))) entities).
  destruct (blocked_pairs_sound (search_embedding (searches (built entities)) embedding_threshold)
    (fun e skip c => serves entities e skip c /\ forall v, embedding e = Some v -> exists w, embedding c = Some w /\ reaches (dot_product v w) embedding_threshold = true))
    with (entities := es) (seen := @nil (Z * Z)) (processed := @nil Z) as (ep & He & Hep).
  { intros e skip. cbn [searches search_embedding]. destruct (embedding e) as [q|] eqn:Hq.
    - destruct (embedding_candidates_exact str_iter id_iter str_iter_perm id_iter_perm dot_product (built entities) e q embedding_threshold 100 skip C Hq)
        as (cs & Hcs & Hs & _). exists cs. split; [done|]. intros c x Hcx. destruct (Hs c x Hcx) as (Hcand & -> & Hre).
      pose proof Hcand as (_ & _ & _ & _ & Hv). unfold embedded_same_type in Hv. apply andb_true_iff in Hv as [Hv Ht%String.eqb_eq].
      apply bool_decide_eq_true in Hv as [w Hw]. split; [by eapply candidate_serves|]. intros v [= <-]. exists w. by rewrite Hw in Hre.
    - exists []. unfold find_embedding_candidates. rewrite Hq. split; [done|]. intros c x Hcx. by apply elem_of_nil in Hcx. }
  exists (fp, Z.of_nat (length fp)), (if Nat.ltb (length es) 2 then ([], 0) else (ep, Z.of_nat (length ep))). split_and!.
  - unfold _find_fuzzy_matches, blocked. by rewrite Hf.
  - unfold _find_embedding_matches. fold es. destruct (Nat.ltb _ _); [done|]. unfold blocked. by rewrite He.
  - intros [x y] Hxy. destruct (Hfp x y Hxy) as (pre & e & post & c & Heq & -> & -> & (Hfirst & Hne & Hsk & Ht & _) & Hre).
    apply fuzzy_pairs_spec. exists e, c. split_and!; [|done..|by split].
    by eapply later; [|apply first_of_in| |].
  - destruct (Nat.ltb _ _); [intros p Hp; by apply elem_of_nil in Hp|]. intros [x y] Hxy.
    destruct (Hep x y Hxy) as (pre & e & post & c & Heq & -> & -> & (Hfirst & Hne & Hsk & Ht & _) & Hre).
    assert (Hin : e ∈ es) by (rewrite Heq; set_solver). apply elem_of_list_filter in Hin as [Hin [v Hv]%bool_decide_eq_true].
    destruct (Hre v Hv) as (w & Hw & Hr). pose proof (first_of_in _ _ Hfirst) as Hc.
    assert (Hces : c ∈ es) by (apply elem_of_list_filter; rewrite Hw; by rewrite bool_decide_true by (by eexists)).
    assert (Hb : before es e c) by by eapply later. apply before_filter in Hb as (Hb & _).
    apply embedding_pairs_spec. exists e, c. split_and!; [done..|]. split; [done|]. exists v, w. split_and!; [done..|].
    by rewrite <- (Hdot e c).
Qed.
End index.
End UnifyIndex.
