(* ===== verification/UnifySamples.v ===== *)
(** Concrete runs of unification, over the ASCII reading of the string operations: inputs at
    which the properties' hypotheses hold, and traces of the cases their statements set
    apart. *)
From S2P Require Import Prelude PyValue RankFusion Entities EntityIndex EntityIndexFacts UnionFind Unify UnifyFacts UnifyMerge UnifyAccount UnifyIndex.

Local Open Scope string_scope.
Local Open Scope list_scope.
Local Open Scope Z_scope.

Module UnifySamples.
Import Entities.Entities EntityIndex.EntityIndex EntityIndexFacts.EntityIndexFacts UnionFind.UnionFind Unify.Unify.
Import UnifyFacts.UnifyFacts UnifyMerge.UnifyMerge UnifyAccount.UnifyAccount UnifyIndex.UnifyIndex.

(** ** ASCII text *)

Definition chars_of (s : string) : list Ascii.ascii := String.list_ascii_of_string s.
Definition of_chars (l : list Ascii.ascii) : string := String.string_of_list_ascii l.

Definition lower_char (c : Ascii.ascii) : Ascii.ascii :=
  let n := Ascii.nat_of_ascii c in if Nat.leb 65 n && Nat.leb n 90 then Ascii.ascii_of_nat (n + 32) else c.
Definition alnum_char (c : Ascii.ascii) : bool :=
  let n := Ascii.nat_of_ascii (lower_char c) in Nat.leb 97 n && Nat.leb n 122 || Nat.leb 48 n && Nat.leb n 57.

Fixpoint drop_chars (p : Ascii.ascii -> bool) (l : list Ascii.ascii) : list Ascii.ascii :=
  match l with c :: l' => if p c then drop_chars p l' else l | [] => [] end.

Definition trim (p : Ascii.ascii -> bool) (s : string) : string :=
  of_chars (reverse (drop_chars p (reverse (drop_chars p (chars_of s))))).

#[export] Instance ascii_text : TextOps := {
  lower s := of_chars (List.map lower_char (chars_of s));
  strip := trim (Ascii.eqb (Ascii.ascii_of_nat 32));
  strip_chars s chars := trim (fun c => existsb (Ascii.eqb c) (chars_of chars)) s;
  split s := List.filter (fun w => negb (String.eqb w "")) (split_on (Ascii.ascii_of_nat 32) s);
  keep_alnum s := of_chars (List.filter alnum_char (chars_of s));
  first_char s := String.substring 0 1 s;
  char_count s := Z.of_nat (String.length s);
}.

(** ** Samples *)

Definition f_one : float := SpecFloat.binary_normalize 53 1024 1 0 false.
Definition f_half : float := SpecFloat.binary_normalize 53 1024 1 (-1) false.

(** Equal names, or equal vectors, are alike and others are not. *)
Definition same_text (a b : string) : float := if String.eqb a b then f_one else f0.
Definition same_vector (v w : list float) : float := if forallb (fun p => SpecFloat.SFeqb p.1 p.2) (zip v w) then f_one else f0.

Definition acme : Entity :=
  MkEntity 1 7 "Acme Corp" "ORGANIZATION" "" [("email", VStr "info@acme.com"); ("source_tool", VStr "jira")] [10] [] 2 None f_half 0.
Definition acme_again : Entity :=
  MkEntity 2 7 "acme corp " "ORGANIZATION" "a company" [("source_tool", VStr "slack")] [11] [] 3 None f_one 0.
Definition ada : Entity := MkEntity 3 7 "Ada" "PERSON" "" [] [10] [] 1 None f_half 0.
Definition desk : Entity := MkEntity 4 7 "Front desk" "TEAM" "" [("email", VStr "Info@ACME.com ")] [12] [] 1 None f_half 0.
Definition sample : list Entity := [acme; acme_again; ada; desk].

Definition by_email : CorrelationRule := MkCorrelationRule "same-mailbox" ["email"] [].

Definition link (i s t : Z) : Relationship := MkRelationship i 7 s t "KNOWS" "" [] [] [] f_half.
Definition links : list Relationship := [link 20 3 1; link 21 2 1; link 22 3 3].

(** Discharges a property of every element of a concrete list. *)
Ltac each :=
  match goal with |- forall x, x ∈ ?l -> @?P x => refine (proj1 (Forall_forall P l) _) end;
  repeat first [apply Forall_nil; exact I | apply Forall_cons; split].

Lemma identity_perm {A} (l : list A) : l ≡ₚ l.
Proof. done. Qed.

Lemma sample_textual : textual [by_email] sample.
Proof.
  intros rule field e v Hr Hf He. apply list_elem_of_singleton in Hr as ->. apply list_elem_of_singleton in Hf as ->.
  revert e He v. each; cbn; intros v; naive_solver.
Qed.

Lemma sample_tools : tools_hashable sample.
Proof. intros e v He. revert e He v. each; cbn; naive_solver. Qed.

Definition sample_run := unify same_vector same_text f_one f_one 10 (fun l => l) (fun i => 100 + Z.of_nat i)
  [by_email] true true None true 5 sample links.

(** Names and mailbox tie three of the four entities together; the most confident survives. *)
Example sample_survivors :
  (r ← sample_run; Ok (List.map (fun e => (id e, mention_count e, source_document_ids e)) (unified_entities (run_result r)),
                       entities_merged (run_result r)))
  = Ok ([(2, 6, [11; 10; 12]); (3, 1, [10])], 2).
Proof. vm_compute. reflexivity. Qed.

Lemma unify_accounts_witness : exists r, sample_run = Ok r /\ mentions (unified_entities (run_result r)) = 7.
Proof.
  destruct (unify_accounts same_vector same_text f_one f_one 10 (fun l => l) (fun i => 100 + Z.of_nat i) identity_perm
    [by_email] true true true 5 sample links ltac:(vm_compute; by apply (bool_decide_unpack _)) ltac:(cbn; lia) sample_textual sample_tools)
    as (r & Hr & A).
  exists r. split; [exact Hr|]. rewrite (acc_mentions _ _ _ A). reflexivity.
Defined.
(** The relationship from [ada] follows the merge; the one inside the group and the loop that
    was there before are dropped. *)
Example sample_relationships :
  (r ← sample_run; Ok (List.map (fun r => (rel_id r, source_entity_id r, target_entity_id r)) (updated_relationships (run_result r))))
  = Ok [(20, 3, 2)].
Proof. vm_compute. reflexivity. Qed.

(** The cross reference of the group joins two absorbed entities. *)
Example sample_reference :
  (r ← sample_run; Ok (List.map (fun r => (rel_id r, source_entity_id r, target_entity_id r)) (new_relationships (run_result r))))
  = Ok [(100, 1, 4)].
Proof. vm_compute. reflexivity. Qed.

(** Two entities of different documents that merge get no cross reference: the survivor has
    the other's document by then.  When nothing merges the loop stays. *)
Example pair_without_reference :
  (r ← unify same_vector same_text f_one f_one 10 (fun l => l) (fun i => 100 + Z.of_nat i) [] true true None true 5 [acme; acme_again] links;
   Ok (entities_merged (run_result r), new_relationships (run_result r))) = Ok (1, []).
Proof. vm_compute. reflexivity. Qed.

Example loop_stays :
  (r ← unify same_vector same_text f_one f_one 10 (fun l => l) (fun i => 100 + Z.of_nat i) [] true true None true 5 [acme; ada] links;
   Ok (updated_relationships (run_result r))) = Ok links.
Proof. vm_compute. reflexivity. Qed.

Lemma relationships_follow_witness : exists r rel', sample_run = Ok r /\ rel' ∈ updated_relationships (run_result r) /\
  target_entity_id rel' ∈ id <$> unified_entities (run_result r).
Proof.
  destruct (relationships_follow same_vector same_text f_one f_one 10 (fun l => l) (fun i => 100 + Z.of_nat i) identity_perm
    [by_email] true true true 5 sample links ltac:(vm_compute; by apply (bool_decide_unpack _)) ltac:(cbn; lia) sample_textual sample_tools)
    as (r & Hr & _ & Hback & _). exists r, (link 20 3 2). split; [exact Hr|].
  assert (Hc : sample_run = Ok r) by exact Hr. vm_compute in Hc. injection Hc as <-.
  destruct (Hback (link 20 3 2)) as (rel & Hrel & _); [vm_compute; left|]. split; vm_compute; left.
Defined.

Lemma cross_references_dangle_witness : exists r rel, sample_run = Ok r /\ rel ∈ new_relationships (run_result r) /\
  ~ (source_entity_id rel ∈ id <$> unified_entities (run_result r)).
Proof.
  destruct (cross_references_dangle same_vector same_text f_one f_one 10 (fun l => l) (fun i => 100 + Z.of_nat i) identity_perm
    [by_email] true true true 5 sample links ltac:(vm_compute; by apply (bool_decide_unpack _)) ltac:(cbn; lia) sample_textual sample_tools)
    as (r & Hr & Hall).
  assert (Hc : sample_run = Ok r) by exact Hr.
  assert (Hnew : exists rel, rel ∈ new_relationships (run_result r)).
  { vm_compute in Hc. injection Hc as <-. eexists. left. }
  destruct Hnew as [rel Hrel]. exists r, rel. split; [exact Hr|]. split; [exact Hrel|].
  destruct (Hall rel Hrel) as (_ & _ & Hdocs). apply Hdocs. each; discriminate.
Defined.

(** Five entities of one name, when three nested calls are allowed. *)
Definition namesake (i : Z) : Entity := MkEntity i 7 "Ada" "PERSON" "" [] [i] [] 1 None f_half 0.

Lemma same_names_too_deep_witness :
  unify same_vector same_text f_one f_one 3 (fun l => l) (fun i => 100 + Z.of_nat i) [] true true None true 5
    (namesake 1 :: [namesake 2; namesake 3; namesake 4; namesake 5]) [] = Err RecursionError.
Proof.
  apply (same_names_too_deep same_vector same_text f_one f_one 3 (fun l => l) (fun i => 100 + Z.of_nat i)
    (namesake 1) [namesake 2; namesake 3; namesake 4; namesake 5] true true).
  - each; reflexivity.
  - intros _. each; reflexivity.
  - intros _ second [= <-]. reflexivity.
  - vm_compute. by apply (bool_decide_unpack _).
  - cbn. lia.
Defined.

Lemma index_serves_first_witness :
  get_by_name (add_all (fun l => l) empty_index sample) "ACME Corp." "ORGANIZATION" = Some acme.
Proof.
  destruct (index_serves_first (fun l => l) (fun l => l) identity_perm identity_perm same_text sample ada f_one 100 []
    ltac:(vm_compute; by apply (bool_decide_unpack _))) as [Hget _].
  apply (proj2 (Hget "ACME Corp." "ORGANIZATION" acme)). split; [|vm_compute; reflexivity].
  exists [], [acme_again; ada; desk]. split; [reflexivity|]. intros e' He'. exfalso. exact (not_elem_of_nil e' He').
Defined.

(** Three organizations: two share a word, and the first and the last an embedding. *)
Definition alike_text (a b : string) : float := f_one.
Definition organization (i : Z) (nm : string) (v : list float) : Entity :=
  MkEntity i 7 nm "ORGANIZATION" "" [] [10] [] 1 (Some v) f_half 0.
Definition organizations : list Entity :=
  [organization 1 "Acme Labs" [f_one]; organization 2 "Acme Research" [f_half]; organization 3 "Bolt Labs" [f_one]].

(** Blocking proposes the pairs that share a word; the comparison of all, all three. *)
Lemma blocked_within_exhaustive_witness : exists fuzzy embedded,
  _find_fuzzy_matches alike_text f_one (Some (searches (fun l => l) (fun l => l) alike_text same_vector (add_all (fun l => l) empty_index organizations))) organizations = Ok fuzzy /\
  _find_embedding_matches same_vector f_one (Some (searches (fun l => l) (fun l => l) alike_text same_vector (add_all (fun l => l) empty_index organizations))) organizations = Ok embedded /\
  fuzzy.1 = [(1, 2); (1, 3)] /\ embedded.1 = [(1, 3)] /\
  fuzzy.1 ⊆ [(1, 2); (1, 3); (2, 3)] /\ embedded.1 ⊆ [(1, 3)].
Proof.
  destruct (blocked_within_exhaustive (fun l => l) (fun l => l) identity_perm identity_perm alike_text same_vector same_vector organizations f_one f_one
    ltac:(vm_compute; by apply (bool_decide_unpack _)) ltac:(intros; reflexivity)) as (fuzzy & embedded & Hf & He & Hs & Ht).
  exists fuzzy, embedded. split; [exact Hf|]. split; [exact He|]. vm_compute in Hf, He, Hs, Ht.
  injection Hf as <-. injection He as <-. split_and!; [reflexivity|reflexivity|exact Hs|exact Ht].
Defined.
End UnifySamples.
