(* ===== verification/Infer.v ===== *)
(** Relationship inference from rules ([extraction/expansion/rule_engine.py] and
    [relationship_inferrer.py]): the indexed context of a pass, the matching of a rule's
    conditions along the graph, the conversion of matches into relationships, and the passes.

    Ids have injective text forms, so the dicts keyed by [str(id)] are keyed by the id.  The
    fields of a relationship that nothing here reads (timestamps, metadata) are left out;
    [uuid4] is an argument. *)
From stdpp Require Import pretty.
From S2P Require Import Prelude PyValue RankFusion Entities EntityIndex.

Local Open Scope string_scope.
Local Open Scope list_scope.
Local Open Scope Z_scope.

Module Infer.
Import Entities.Entities EntityIndex.EntityIndex.

#[export] Instance spec_float_eq_dec : EqDecision SpecFloat.spec_float.
Proof. solve_decision. Defined.
#[export] Instance relationship_eq_dec : EqDecision Relationship.
Proof. solve_decision. Defined.

(** ** Rules and their context *)

Record InferenceCondition := MkCondition {
  relationship : string;
  source_type : option string;
  target_type : option string;
}.

Record InferenceRule := MkRule {
  rule_name : string;
  when : list InferenceCondition;
  then_relationship : string;
  then_source : string;
  then_target : string;
  rule_confidence : float;
}.

Record RuleEvaluationContext := MkContext {
  ctx_entities : list Entity;
  ctx_relationships : list Relationship;
  entity_index : list (string * list Entity);
  type_index : list (string * list Entity);
  relationship_index : list (string * list Relationship);
  rels_by_source : list (Z * list Relationship);
  rels_by_target : list (Z * list Relationship);
  entity_by_id : list (Z * Entity);
}.

Definition index_entity `{TextOps} (c : RuleEvaluationContext) (e : Entity) : RuleEvaluationContext :=
  MkContext (ctx_entities c) (ctx_relationships c) (push (lower (name e)) e (entity_index c))
    (push (entity_type e) e (type_index c)) (relationship_index c) (rels_by_source c) (rels_by_target c)
    (zset (id e) e (entity_by_id c)).

Definition index_relationship (c : RuleEvaluationContext) (r : Relationship) : RuleEvaluationContext :=
  MkContext (ctx_entities c) (ctx_relationships c) (entity_index c) (type_index c)
    (push (relationship_type r) r (relationship_index c)) (push (source_entity_id r) r (rels_by_source c))
    (push (target_entity_id r) r (rels_by_target c)) (entity_by_id c).

Definition from_data `{TextOps} (entities : list Entity) (relationships : list Relationship) : RuleEvaluationContext :=
  foldl index_relationship (foldl index_entity (MkContext entities relationships [] [] [] [] [] []) entities) relationships.

(** ** Types *)

Definition TYPE_HIERARCHY : list (string * list string) :=
  [("EMPLOYEE", ["PERSON"]); ("EXTERNAL_PERSON", ["PERSON"]); ("COMPANY", ["ORGANIZATION"]);
   ("DEPARTMENT", ["ORGANIZATION"]); ("TEAM", ["ORGANIZATION"]); ("MESSAGE", ["CONTENT"]);
   ("PAGE", ["CONTENT"; "DOCUMENT"]); ("ISSUE", ["WORK_ITEM"; "CONTENT"]); ("SALES_NOTE", ["CONTENT"; "NOTE"]);
   ("CALL", ["EVENT"; "MEETING"]); ("DEAL", ["OPPORTUNITY"]); ("PROJECT", ["WORK_ITEM"]);
   ("CYCLE", ["WORK_ITEM"; "SPRINT"])].

Definition parents_of (ty : string) : list string := default [] (dict_get ty TYPE_HIERARCHY).

Definition types_match (actual_type expected_type : string) : bool :=
  String.eqb actual_type expected_type
  || mem_str expected_type (parents_of actual_type)
  || mem_str actual_type (parents_of expected_type).

(** [not t] *)
Definition unset (t : option string) : bool := match t with Some s => String.eqb s "" | None => true end.

Definition admits_type (actual : string) (expected : option string) : bool :=
  unset expected || match expected with Some t => types_match actual t | None => true end.

Definition _find_entity_by_id (i : Z) (c : RuleEvaluationContext) : option Entity := zget i (entity_by_id c).

Definition _filter_relationships_by_types (rels : list Relationship) (source_type target_type : option string)
    (c : RuleEvaluationContext) : list Relationship :=
  if unset source_type && unset target_type then rels
  else List.filter (fun r =>
    match _find_entity_by_id (source_entity_id r) c, _find_entity_by_id (target_entity_id r) c with
    | Some s, Some t => admits_type (entity_type s) source_type && admits_type (entity_type t) target_type
    | _, _ => false
    end) rels.

(** ** Matching one rule *)

Definition _ORDINALS : list string :=
  ["first"; "second"; "third"; "fourth"; "fifth"; "sixth"; "seventh"; "eighth"].

Definition ordinal_of (k : nat) : string :=
  match _ORDINALS !! k with Some s => s | None => "cond_" +:+ pretty (N.of_nat k) end.

(** The entities of each matched condition, by its ordinal: source and target. *)
Abbreviation entity_map := (list (string * (Entity * Entity))).

(** [group.get(position)] *)
Definition at_position (g : Entity * Entity) (position : string) : option Entity :=
  if String.eqb position "source" then Some g.1 else if String.eqb position "target" then Some g.2 else None.

Definition _resolve_entity_ref (ref : string) (emap : entity_map) : option Entity :=
  match split_on dot ref with
  | [group; position] => match dict_get group emap with Some g => at_position g position | None => None end
  | _ => None
  end.

Record RuleMatch := MkMatch {
  match_rule : InferenceRule;
  matched_relationships : list Relationship;
  matched_entities : list Entity;
  match_groups : entity_map;
}.

Definition max_matches : nat := 1000.

Definition endpoints (c : RuleEvaluationContext) (r : Relationship) : option (Entity * Entity) :=
  match _find_entity_by_id (source_entity_id r) c, _find_entity_by_id (target_entity_id r) c with
  | Some s, Some t => Some (s, t)
  | _, _ => None
  end.

(** A match whose two references resolve to one entity is skipped. *)
Definition self_referential (rule : InferenceRule) (emap : entity_map) : bool :=
  match _resolve_entity_ref (then_source rule) emap, _resolve_entity_ref (then_target rule) emap with
  | Some s, Some t => Z.eqb (id s) (id t)
  | _, _ => false
  end.

Abbreviation partial := (list Relationship * entity_map)%type.

Definition first_partials (c : RuleEvaluationContext) (rels : list Relationship) : list partial :=
  omap (fun r => match endpoints c r with Some g => Some ([r], [("first", g)]) | None => None end) rels.

(** [for x in l: if p(x) and x not in acc: acc.append(x)] *)
Definition extend_unseen (p : Relationship -> bool) (l acc : list Relationship) : list Relationship :=
  foldl (fun acc x => if p x && negb (bool_decide (x ∈ acc)) then acc ++ [x] else acc) acc l.

Definition out_of (i : Z) (c : RuleEvaluationContext) : list Relationship := default [] (zget i (rels_by_source c)).
Definition into (i : Z) (c : RuleEvaluationContext) : list Relationship := default [] (zget i (rels_by_target c)).

(** Relationships of the condition's type that start where the last one ends, start where it
    starts, or end where it ends; then the type filter. *)
Definition connected (c : RuleEvaluationContext) (condition : InferenceCondition) (prev : Relationship) : list Relationship :=
  let of_type r := String.eqb (relationship_type r) (relationship condition) in
  let candidates := List.filter of_type (out_of (target_entity_id prev) c) in
  let candidates := extend_unseen of_type (out_of (source_entity_id prev) c) candidates in
  let candidates := extend_unseen of_type (into (target_entity_id prev) c) candidates in
  _filter_relationships_by_types candidates (source_type condition) (target_type condition) c.

Definition extend_partial (c : RuleEvaluationContext) (ordinal : string) (condition : InferenceCondition) (p : partial)
  : list partial :=
  match last p.1 with
  | None => []
  | Some prev =>
      omap (fun cand => match endpoints c cand with
                        | Some g => Some (p.1 ++ [cand], dict_set ordinal g p.2)
                        | None => None
                        end) (connected c condition prev)
  end.

(** The loop over the partial matches, which stops once the next ones are enough. *)
Fixpoint next_partials (c : RuleEvaluationContext) (ordinal : string) (condition : InferenceCondition)
    (partials acc : list partial) : list partial :=
  match partials with
  | [] => acc
  | p :: partials =>
      if Nat.leb max_matches (length acc) then acc
      else next_partials c ordinal condition partials (acc ++ extend_partial c ordinal condition p)
  end.

Fixpoint walk (c : RuleEvaluationContext) (k : nat) (conditions : list InferenceCondition) (partials : list partial)
  : list partial :=
  match conditions with
  | [] => partials
  | condition :: conditions =>
      match partials with
      | [] => []
      | _ => walk c (S k) conditions (next_partials c (ordinal_of k) condition partials [])
      end
  end.

(** The entities of the groups, without repetition. *)
Definition entities_of (emap : entity_map) : list Entity :=
  foldl (fun acc e => if existsb (fun x => Z.eqb (id x) (id e)) acc then acc else acc ++ [e]) []
    (List.concat (List.map (fun g => [g.2.1; g.2.2]) emap)).

(** [for p in partials: if len(matches) >= max_matches: break; ...] *)
Fixpoint conclude (rule : InferenceRule) (entities_in : entity_map -> list Entity) (partials : list partial)
    (acc : list RuleMatch) : list RuleMatch :=
  match partials with
  | [] => acc
  | (rels, emap) :: partials =>
      if Nat.leb max_matches (length acc) then acc
      else conclude rule entities_in partials
             (if self_referential rule emap then acc else acc ++ [MkMatch rule rels (entities_in emap) emap])
  end.

(** A rule with one condition lists both endpoints; one with more, each entity once. *)
Definition both_ends (emap : entity_map) : list Entity :=
  match emap with (_, (s, t)) :: _ => [s; t] | [] => [] end.

Definition _evaluate_inference_rule (c : RuleEvaluationContext) (rule : InferenceRule) : list RuleMatch :=
  match when rule with
  | [] => []
  | first :: rest =>
      let first_rels := _filter_relationships_by_types (default [] (zget (relationship first) (relationship_index c)))
                          (source_type first) (target_type first) c in
      match rest with
      | [] => conclude rule both_ends (first_partials c first_rels) []
      | _ => conclude rule entities_of (walk c 1 rest (first_partials c first_rels)) []
      end
  end.

Definition evaluate_inference_rules (rules : list InferenceRule) (c : RuleEvaluationContext) : list RuleMatch :=
  List.concat (List.map (_evaluate_inference_rule c) rules).

(** ** The inferrer *)

Record InferredRelationship := MkInferred {
  inf_source : Z;
  inf_target : Z;
  inf_type : string;
  inf_description : string;
  inf_confidence : float;
  inf_rule : string;
  evidence : list Z;
}.

(** [_resolve_inference_entities]: only the groups [first] and [second] are known. *)
Definition resolve_ref (ref : string) (emap : entity_map) : option Entity :=
  match split_on dot ref with
  | [group; position] =>
      if String.eqb group "first" || String.eqb group "second" then
        match dict_get group emap with Some g => at_position g position | None => None end
      else None
  | _ => None
  end.

Definition _resolve_inference_entities (m : RuleMatch) : option Entity * option Entity :=
  (resolve_ref (then_source (match_rule m)) (match_groups m), resolve_ref (then_target (match_rule m)) (match_groups m)).

Section inferrer.
Context `{TextOps} (_min_confidence : float) (_max_inferences_per_rule : Z).

Definition inferred_of (m : RuleMatch) (s t : Entity) : InferredRelationship :=
  let rule := match_rule m in
  MkInferred (id s) (id t) (then_relationship rule) ("Inferred by rule: " +:+ rule_name rule)
    (rule_confidence rule) (rule_name rule) (List.map rel_id (matched_relationships m)).

(** [rule_counts] counts every match of a rule, also those that are dropped. *)
Fixpoint matches_loop (counts : list (string * Z)) (matches : list RuleMatch) : list InferredRelationship :=
  match matches with
  | [] => []
  | m :: matches =>
      let n := default 0 (dict_get (rule_name (match_rule m)) counts) + 1 in
      let counts := dict_set (rule_name (match_rule m)) n counts in
      let rest := matches_loop counts matches in
      if Z.ltb _max_inferences_per_rule n then rest
      else if flt (rule_confidence (match_rule m)) _min_confidence then rest
      else match _resolve_inference_entities m with
           | (Some s, Some t) => if Z.eqb (id s) (id t) then rest else inferred_of m s t :: rest
           | _ => rest
           end
  end.

Definition _matches_to_relationships (matches : list RuleMatch) : list InferredRelationship := matches_loop [] matches.

Definition key_of_rel (r : Relationship) : Z * Z * string := (source_entity_id r, target_entity_id r, relationship_type r).
Definition key_of_inf (i : InferredRelationship) : Z * Z * string := (inf_source i, inf_target i, inf_type i).

(** Keeps the first relationship of each key that is not taken. *)
Fixpoint unseen_keys (seen : list (Z * Z * string)) (l : list InferredRelationship) : list InferredRelationship :=
  match l with
  | [] => []
  | i :: l => if bool_decide (key_of_inf i ∈ seen) then unseen_keys seen l else i :: unseen_keys (seen ++ [key_of_inf i]) l
  end.

Definition _filter_duplicates (new_inferred : list InferredRelationship) (existing : list Relationship)
    (already : list InferredRelationship) : list InferredRelationship :=
  unseen_keys (List.map key_of_rel existing ++ List.map key_of_inf already) new_inferred.

Context (uuid4 : nat -> Z).

(** [_to_mock_relationships]; [base] numbers the ids drawn so far. *)
Definition _to_mock_relationships (base : nat) (inferred : list InferredRelationship) (entities : list Entity) : list Relationship :=
  imap (fun k i => MkRelationship (uuid4 (base + k)%nat) (match entities with e :: _ => namespace_id e | [] => uuid4 base end)
    (inf_source i) (inf_target i) (inf_type i) (inf_description i) [] [] [] (inf_confidence i)) inferred.

(** One pass: the relationships that are new, in the order of the rules. *)
Definition infer_pass (rules : list InferenceRule) (entities : list Entity) (current : list Relationship)
    (all_inferred : list InferredRelationship) : list InferredRelationship :=
  let context := from_data entities current in
  let pass_inferred := _matches_to_relationships (evaluate_inference_rules rules context) in
  _filter_duplicates pass_inferred current all_inferred.

(** [for pass_num in range(depth)]; a pass that adds nothing ends the loop. *)
Fixpoint passes (depth : nat) (rules : list InferenceRule) (entities : list Entity) (current : list Relationship)
    (all_inferred : list InferredRelationship) : list InferredRelationship :=
  match depth with
  | O => all_inferred
  | S depth =>
      match infer_pass rules entities current all_inferred with
      | [] => all_inferred
      | new_inferred =>
          passes depth rules entities
            (current ++ _to_mock_relationships (length all_inferred) new_inferred entities) (all_inferred ++ new_inferred)
      end
  end.

(** The log message about types sorts the expected ones: comparing a string with [None]
    raises. *)
Definition expected_entities (rules : list InferenceRule) : list (option string) :=
  List.concat (List.map (fun rule => List.concat (List.map (fun c => [source_type c; target_type c]) (when rule))) rules).

Definition sorted_types (types : list (option string)) : result unit :=
  if existsb (fun t => bool_decide (t = None)) types && existsb (fun t => bool_decide (is_Some t)) types
  then Err TypeError else Ok ().

Definition diagnose (rules : list InferenceRule) (entities : list Entity) : result unit :=
  if existsb (fun e => bool_decide (Some (entity_type e) ∈ expected_entities rules)) entities then Ok ()
  else sorted_types (expected_entities rules).

Definition infer (rules : list InferenceRule) (depth : nat) (entities : list Entity) (relationships : list Relationship)
    : result (list InferredRelationship) :=
  match rules with
  | [] => Ok []
  | _ =>
      match diagnose rules entities with
      | Ok _ => Ok (passes depth rules entities relationships [])
      | Err e => Err e
      end
  end.

Definition to_relationship (i : InferredRelationship) (new_id namespace : Z) (str_id : Z -> string) : Relationship :=
  MkRelationship new_id namespace (inf_source i) (inf_target i) (inf_type i) (inf_description i)
    [("inferred", VBool true); ("rule_name", VStr (inf_rule i));
     ("evidence", VList (List.map (fun e => VStr (str_id e)) (evidence i)))] [] [] (inf_confidence i).
End inferrer.

(** ** The index of relationships by type *)

Record RelationshipTypeIndex := MkTypeIndex {
  _by_type : list (string * list Relationship);
  _by_source : list (Z * list Relationship);
  _by_target : list (Z * list Relationship);
  _lookup : list (Z * Z * string * Relationship);
}.

Definition add_relationship (idx : RelationshipTypeIndex) (r : Relationship) : RelationshipTypeIndex :=
  MkTypeIndex (push (relationship_type r) r (_by_type idx)) (push (source_entity_id r) r (_by_source idx))
    (push (target_entity_id r) r (_by_target idx)) (zset (key_of_rel r) r (_lookup idx)).

Definition build (rels : list Relationship) : RelationshipTypeIndex := foldl add_relationship (MkTypeIndex [] [] [] []) rels.

Definition get_by_type (idx : RelationshipTypeIndex) (ty : string) : list Relationship := default [] (zget ty (_by_type idx)).
Definition get_by_source (idx : RelationshipTypeIndex) (i : Z) : list Relationship := default [] (zget i (_by_source idx)).
Definition get_by_target (idx : RelationshipTypeIndex) (i : Z) : list Relationship := default [] (zget i (_by_target idx)).
Definition get_by_source_and_type (idx : RelationshipTypeIndex) (i : Z) (ty : string) : list Relationship :=
  List.filter (fun r => String.eqb (relationship_type r) ty) (get_by_source idx i).
Definition get_by_target_and_type (idx : RelationshipTypeIndex) (i : Z) (ty : string) : list Relationship :=
  List.filter (fun r => String.eqb (relationship_type r) ty) (get_by_target idx i).
Definition exists_rel (idx : RelationshipTypeIndex) (s t : Z) (ty : string) : bool :=
  match zget (s, t, ty) (_lookup idx) with Some _ => true | None => false end.

(** Pairs of a relationship of the first type and one of the second that starts where it
    ends, between known entities. *)
Definition find_chains_indexed (idx : RelationshipTypeIndex) (first_type second_type : string) (entities : list Entity)
  : list (Relationship * Relationship) :=
  let known i := existsb (fun e => Z.eqb (id e) i) entities in
  List.concat (List.map (fun first_rel =>
    omap (fun second_rel =>
      if known (source_entity_id first_rel) && known (target_entity_id first_rel) && known (target_entity_id second_rel)
      then Some (first_rel, second_rel) else None)
      (get_by_source_and_type idx (target_entity_id first_rel) second_type)) (get_by_type idx first_type)).
End Infer.
