(* ===== verification/InferFacts.v ===== *)
(** Facts about relationship inference: the matches of a rule are the chains its conditions
    describe, and what the passes return. *)
From S2P Require Import Prelude PyValue RankFusion RankFusionFacts Entities EntityIndex EntityIndexFacts UnifyFacts Infer.

Local Open Scope Z_scope.

Module InferFacts.
Import Entities.Entities EntityIndex.EntityIndex EntityIndexFacts.EntityIndexFacts Infer.Infer.
Import UnifyFacts.UnifyFacts(elem_of_list_filter, elem_of_concat_list_map).

(** ** The context *)

(** A dict of lists filled by [push] has, under each key, the elements of that key in order. *)
Lemma row_pushes {K A} `{!EqDecision K} (keyof : A -> K) (l : list A) d k :
  row k (foldl (fun d x => push (keyof x) x d) d l) = row k d ++ List.filter (fun x => bool_decide (k = keyof x)) l.
Proof.
  revert d. induction l as [|x l IH]; intros d; cbn [foldl List.filter]; [by rewrite app_nil_r|].
  rewrite IH, row_push. case_decide as E; [subst; rewrite bool_decide_true by done; by rewrite <- (assoc_L app)|].
  by rewrite bool_decide_false.
Qed.

Lemma foldl_project {A B C} (f : A -> B -> A) (g : C -> B -> C) (p : A -> C) (l : list B) a :
  (forall a x, p (f a x) = g (p a) x) -> p (foldl f a l) = foldl g (p a) l.
Proof. intros Hp. revert a. induction l as [|x l IH]; intros a; cbn; [done|]. by rewrite IH, Hp. Qed.

Section context.
Context `{TextOps} (entities : list Entity) (relationships : list Relationship).

Local Abbreviation ctx := (from_data entities relationships).

Lemma ctx_by_type ty : default [] (zget ty (relationship_index ctx)) = List.filter (fun r => bool_decide (ty = relationship_type r)) relationships.
Proof.
  unfold from_data. set (c0 := foldl index_entity _ entities).
  rewrite (foldl_project _ (fun d r => push (relationship_type r) r d) relationship_index) by done.
  change (default [] (zget ty ?d)) with (row ty d). rewrite row_pushes.
  assert (Hc0 : relationship_index c0 = []).
  { subst c0. rewrite (foldl_project _ (fun d _ => d) relationship_index) by done. cbn. by induction entities. }
  by rewrite Hc0.
Qed.

Lemma ctx_out i : out_of i ctx = List.filter (fun r => bool_decide (i = source_entity_id r)) relationships.
Proof.
  unfold out_of, from_data. set (c0 := foldl index_entity _ entities).
  rewrite (foldl_project _ (fun d r => push (source_entity_id r) r d) rels_by_source) by done.
  change (default [] (zget i ?d)) with (row i d). rewrite row_pushes.
  assert (Hc0 : rels_by_source c0 = []).
  { subst c0. rewrite (foldl_project _ (fun d _ => d) rels_by_source) by done. cbn. by induction entities. }
  by rewrite Hc0.
Qed.

Lemma ctx_into i : into i ctx = List.filter (fun r => bool_decide (i = target_entity_id r)) relationships.
Proof.
  unfold into, from_data. set (c0 := foldl index_entity _ entities).
  rewrite (foldl_project _ (fun d r => push (target_entity_id r) r d) rels_by_target) by done.
  change (default [] (zget i ?d)) with (row i d). rewrite row_pushes.
  assert (Hc0 : rels_by_target c0 = []).
  { subst c0. rewrite (foldl_project _ (fun d _ => d) rels_by_target) by done. cbn. by induction entities. }
  by rewrite Hc0.
Qed.

Lemma ctx_entity i e : _find_entity_by_id i ctx = Some e -> e ∈ entities /\ id e = i.
Proof.
  unfold _find_entity_by_id, from_data. rewrite (foldl_project _ (fun d _ => d) entity_by_id) by done.
  assert (Hskip : forall (d : list (Z * Entity)) (l : list Relationship), foldl (fun d _ => d) d l = d) by (intros d l; by induction l).
  rewrite Hskip, (foldl_project _ (fun d e => zset (id e) e d) entity_by_id) by done. cbn [entity_by_id].
  assert (Hgen : forall l d, (forall i e, zget i d = Some e -> e ∈ entities /\ id e = i) -> l ⊆ entities ->
    forall i e, zget i (foldl (fun d e => zset (id e) e d) d l) = Some e -> e ∈ entities /\ id e = i).
  { induction l as [|x l IH]; intros d Hd Hl; cbn; [done|]. apply IH; [|set_solver].
    intros j e'. destruct (decide (j = id x)) as [->|Hne]; [rewrite zget_zset_eq|rewrite zget_zset_ne by done; apply Hd].
    intros [= <-]. split; [apply Hl; left|done]. }
  by apply Hgen.
Qed.
End context.

(** ** Chains *)

(** The next relationship of a chain leaves where the last one arrives or leaves, or arrives
    where it arrives. *)
Definition touches (prev r : Relationship) : Prop :=
  source_entity_id r = target_entity_id prev \/ source_entity_id r = source_entity_id prev \/
  target_entity_id r = target_entity_id prev.

(** A relationship of the graph that a condition describes, with its endpoints. *)
Definition satisfies (c : RuleEvaluationContext) (rels : list Relationship) (condition : InferenceCondition)
    (r : Relationship) (g : Entity * Entity) : Prop :=
  r ∈ rels /\ relationship_type r = relationship condition /\ endpoints c r = Some g /\
  admits_type (entity_type g.1) (source_type condition) = true /\ admits_type (entity_type g.2) (target_type condition) = true.

(** The chains of a list of conditions, with the entities of each condition by its ordinal. *)
Inductive chain (c : RuleEvaluationContext) (rels : list Relationship) :
  list InferenceCondition -> list Relationship -> list (string * (Entity * Entity)) -> Prop :=
| chain_one condition r g : satisfies c rels condition r g -> chain c rels [condition] [r] [("first"%string, g)]
| chain_more conditions condition path prev r emap g :
    chain c rels conditions path emap -> last path = Some prev -> touches prev r ->
    satisfies c rels condition r g ->
    chain c rels (conditions ++ [condition]) (path ++ [r]) (dict_set (ordinal_of (length conditions)) g emap).

Lemma elem_of_extend_unseen p l acc x : x ∈ extend_unseen p l acc <-> x ∈ acc \/ (x ∈ l /\ p x = true).
Proof.
  unfold extend_unseen. revert acc. induction l as [|y l IH]; intros acc; cbn [foldl].
  - split; [by left|]. intros [?|[?%elem_of_nil _]]; done.
  - rewrite IH. destruct (p y) eqn:Hp; cbn [andb].
    + case_bool_decide as Hy; cbn [negb]; rewrite ?elem_of_app, ?list_elem_of_singleton, elem_of_cons.
      * split; [intros [Hx|[Hx Hpx]]; auto|intros [Hx|[[->|Hx] Hpx]]; auto].
      * split; [intros [[Hx| ->]|[Hx Hpx]]; auto|intros [Hx|[[->|Hx] Hpx]]; auto].
    + rewrite elem_of_cons. split; [intros [Hx|[Hx Hpx]]; auto|intros [Hx|[[->|Hx] Hpx]]; [auto|congruence|auto]].
Qed.

Lemma unset_admits actual expected : unset expected = true -> admits_type actual expected = true.
Proof. unfold admits_type. by intros ->. Qed.

Lemma elem_of_filter_types c rels st tt r g : endpoints c r = Some g ->
  r ∈ _filter_relationships_by_types rels st tt c <->
  r ∈ rels /\ admits_type (entity_type g.1) st = true /\ admits_type (entity_type g.2) tt = true.
Proof.
  unfold endpoints, _filter_relationships_by_types. intros Hg.
  destruct (_find_entity_by_id (source_entity_id r) c) as [s|] eqn:Hs; [|done].
  destruct (_find_entity_by_id (target_entity_id r) c) as [t|] eqn:Ht; [|done]. injection Hg as <-. cbn.
  destruct (unset st && unset tt) eqn:Hu.
  - apply andb_true_iff in Hu as [H1 H2]. rewrite !unset_admits by done. naive_solver.
  - rewrite elem_of_list_filter, Hs, Ht, andb_true_iff. done.
Qed.

Lemma chain_nonempty c rels path emap : ~ chain c rels [] path emap.
Proof. inversion 1 as [|conditions ? ? ? ? ? ? ? ? ? ? Hnil]. by destruct conditions. Qed.

Lemma chain_single c rels condition path emap :
  chain c rels [condition] path emap ->
  exists r g, satisfies c rels condition r g /\ path = [r] /\ emap = [("first"%string, g)].
Proof.
  inversion 1 as [|conditions ? ? ? ? ? ? Hc ? ? ? Heq]; [by eexists _, _|].
  destruct conditions as [|? [|]]; [|done..]. by apply chain_nonempty in Hc.
Qed.

Lemma chain_snoc c rels first rest condition path emap :
  chain c rels (first :: rest ++ [condition]) path emap <->
  exists path0 prev r emap0 g, chain c rels (first :: rest) path0 emap0 /\ last path0 = Some prev /\ touches prev r /\
    satisfies c rels condition r g /\ path = path0 ++ [r] /\ emap = dict_set (ordinal_of (S (length rest))) g emap0.
Proof.
  split.
  - inversion 1 as [? ? ? ? Hnil|conditions ? ? ? ? ? ? Hc Hl Ht Hs Heq]; [by destruct rest|].
    change (first :: rest ++ [condition]) with ((first :: rest) ++ [condition]) in Heq.
    apply app_inj_tail in Heq as [-> ->]. by eexists _, _, _, _, _.
  - intros (path0 & prev & r & emap0 & g & Hc & Hl & Ht & Hs & -> & ->).
    by apply (chain_more _ _ (first :: rest) condition _ prev).
Qed.

(** ** The loops over partial matches *)

Lemma elem_of_next_partials c o condition ps acc q :
  q ∈ next_partials c o condition ps acc -> q ∈ acc \/ exists p, p ∈ ps /\ q ∈ extend_partial c o condition p.
Proof.
  revert acc. induction ps as [|p ps IH]; intros acc; cbn [next_partials]; [by left|].
  destruct (Nat.leb_spec max_matches (length acc)); [by left|].
  intros [[Hq|Hq]%elem_of_app|(p' & Hp & Hq)]%IH; [by left|right; exists p; split; [left|done]|].
  right. exists p'. split; [by right|done].
Qed.

Lemma next_partials_grows c o condition ps acc : (length acc <= length (next_partials c o condition ps acc))%nat.
Proof.
  revert acc. induction ps as [|p ps IH]; intros acc; cbn [next_partials]; [lia|].
  destruct (Nat.leb_spec max_matches (length acc)); [lia|]. specialize (IH (acc ++ extend_partial c o condition p)).
  rewrite length_app in IH. lia.
Qed.

Lemma next_partials_all c o condition ps acc : (length (next_partials c o condition ps acc) < max_matches)%nat ->
  next_partials c o condition ps acc = acc ++ List.concat (List.map (extend_partial c o condition) ps).
Proof.
  revert acc. induction ps as [|p ps IH]; intros acc Hlen; cbn [next_partials List.map List.concat] in *; [by rewrite app_nil_r|].
  pose proof (next_partials_grows c o condition ps (acc ++ extend_partial c o condition p)) as Hgrow. rewrite length_app in Hgrow.
  destruct (Nat.leb_spec max_matches (length acc)); [lia|]. rewrite IH by done. by rewrite <- (assoc_L app).
Qed.

Lemma walk_snoc c k conditions condition ps :
  walk c k (conditions ++ [condition]) ps = next_partials c (ordinal_of (k + length conditions)) condition (walk c k conditions ps) [].
Proof.
  revert k ps. induction conditions as [|d conditions IH]; intros k ps; cbn [walk app length].
  - rewrite Nat.add_0_r. by destruct ps.
  - destruct ps; [done|]. rewrite IH. do 2 f_equal. lia.
Qed.

Lemma elem_of_conclude rule ein ps acc m : m ∈ conclude rule ein ps acc ->
  m ∈ acc \/ exists rels emap, (rels, emap) ∈ ps /\ self_referential rule emap = false /\ m = MkMatch rule rels (ein emap) emap.
Proof.
  revert acc. induction ps as [|[rels emap] ps IH]; intros acc; cbn [conclude]; [by left|].
  destruct (Nat.leb_spec max_matches (length acc)); [by left|]. intros [Hm|(rels' & emap' & Hp & Hs & ->)]%IH.
  - destruct (self_referential rule emap) eqn:Hs; [by left|]. apply elem_of_app in Hm as [Hm| ->%list_elem_of_singleton]; [by left|].
    right. exists rels, emap. split; [left|done].
  - right. exists rels', emap'. split; [by right|done].
Qed.

Lemma conclude_keeps rule ein ps acc rels emap : (length acc + length ps <= max_matches)%nat ->
  (rels, emap) ∈ ps -> self_referential rule emap = false ->
  MkMatch rule rels (ein emap) emap ∈ conclude rule ein ps acc.
Proof.
  assert (Hacc : forall ps acc m, m ∈ acc -> m ∈ conclude rule ein ps acc).
  { clear. induction ps as [|[rels emap] ps IH]; intros acc m Hm; cbn [conclude]; [done|].
    destruct (Nat.leb _ _); [done|]. apply IH. destruct (self_referential _ _); [done|]. apply elem_of_app. by left. }
  revert acc. induction ps as [|[rels' emap'] ps IH]; intros acc Hlen Hp Hs; cbn [conclude length] in *; [by apply elem_of_nil in Hp|].
  destruct (Nat.leb_spec max_matches (length acc)); [lia|]. apply elem_of_cons in Hp as [[= <- <-]|Hp].
  - rewrite Hs. apply Hacc, elem_of_app. right. by apply list_elem_of_singleton.
  - apply IH; [|done..]. destruct (self_referential rule emap'); rewrite ?length_app; cbn; lia.
Qed.

Section rule.
Context `{TextOps} (entities : list Entity) (relationships : list Relationship).

Local Abbreviation ctx := (from_data entities relationships).

Lemma elem_of_connected condition prev r g : endpoints ctx r = Some g ->
  r ∈ connected ctx condition prev <-> touches prev r /\ satisfies ctx relationships condition r g.
Proof.
  intros Hg. unfold connected. rewrite (elem_of_filter_types _ _ _ _ _ g), !elem_of_extend_unseen by done.
  rewrite elem_of_list_filter, !ctx_out, ctx_into, !elem_of_list_filter, !bool_decide_eq_true, !String.eqb_eq.
  unfold touches, satisfies. split; [|naive_solver]. intros (Hor & H1 & H2). split; [|split_and!]; naive_solver.
Qed.

Lemma elem_of_first_partials condition path emap :
  (path, emap) ∈ first_partials ctx (_filter_relationships_by_types (default [] (zget (relationship condition) (relationship_index ctx)))
    (source_type condition) (target_type condition) ctx) <-> chain ctx relationships [condition] path emap.
Proof.
  unfold first_partials. rewrite ctx_by_type, list_elem_of_omap. split.
  - intros (r & Hr & Hq). destruct (endpoints ctx r) as [g|] eqn:Hg; [|done]. injection Hq as <- <-.
    destruct (proj1 (elem_of_filter_types _ _ _ _ _ g Hg) Hr) as (Hin & Hs1 & Hs2). clear Hr.
    apply elem_of_list_filter in Hin as [Hin Hty]. apply bool_decide_eq_true in Hty. constructor. by repeat split.
  - intros (r & g & (Hr & Hty & Hg & Hs1 & Hs2) & -> & ->)%chain_single.
    exists r. rewrite Hg. split; [|done]. apply (elem_of_filter_types _ _ _ _ _ g); [done|]. split; [|done].
    apply elem_of_list_filter. split; [done|]. by apply bool_decide_eq_true.
Qed.

Lemma elem_of_extend_partial ordinal condition path emap q :
  q ∈ extend_partial ctx ordinal condition (path, emap) <->
  exists prev r g, last path = Some prev /\ touches prev r /\ satisfies ctx relationships condition r g /\
    q = (path ++ [r], dict_set ordinal g emap).
Proof.
  unfold extend_partial. cbn [fst snd]. destruct (last path) as [prev|] eqn:Hl; [|split; [by intros ?%elem_of_nil|by intros (? & ? & ? & ? & _)]].
  rewrite list_elem_of_omap. split.
  - intros (r & Hr & Hq). destruct (endpoints ctx r) as [g|] eqn:Hg; [|done]. injection Hq as <-.
    destruct (proj1 (elem_of_connected _ _ _ g Hg) Hr) as [Ht Hs]. by exists prev, r, g.
  - intros (prev' & r & g & [= <-] & Ht & Hs & ->). exists r. pose proof Hs as (_ & _ & Hg & _). rewrite Hg. split; [|done].
    by apply (elem_of_connected _ _ _ g).
Qed.

Lemma elem_of_walk first rest path emap :
  let firsts := first_partials ctx (_filter_relationships_by_types (default [] (zget (relationship first) (relationship_index ctx)))
    (source_type first) (target_type first) ctx) in
  ((path, emap) ∈ walk ctx 1 rest firsts -> chain ctx relationships (first :: rest) path emap) /\
  ((forall k, (length (walk ctx 1 (take k rest) firsts) < max_matches)%nat) ->
    chain ctx relationships (first :: rest) path emap -> (path, emap) ∈ walk ctx 1 rest firsts).
Proof.
  intros firsts. revert path emap. induction rest as [|condition rest IH] using rev_ind; intros path emap.
  - cbn. by split; [|intros _]; apply elem_of_first_partials.
  - rewrite walk_snoc. split.
    + intros [?%elem_of_nil|([path0 emap0] & Hp & Hq)]%elem_of_next_partials; [done|].
      apply elem_of_extend_partial in Hq as (prev & r & g & Hl & Ht & Hs & [= -> ->]).
      apply (chain_more _ _ (first :: rest) condition _ prev _ _ _); [by apply IH|done..].
    + intros Hroom (path0 & prev & r & emap0 & g & Hc & Hl & Ht & Hs & -> & ->)%chain_snoc.
      rewrite next_partials_all.
      * apply elem_of_concat_list_map. exists (path0, emap0). split.
        -- apply IH; [|done]. intros k. specialize (Hroom (k `min` length rest)%nat).
           rewrite take_app_le in Hroom by lia. by rewrite <- take_take, (take_ge rest (length rest)) in Hroom by lia.
        -- apply elem_of_extend_partial. by exists prev, r, g.
      * specialize (Hroom (length (rest ++ [condition]))). by rewrite take_ge, walk_snoc in Hroom by lia.
Qed.
End rule.

(** ** The index of relationships by type *)

Lemma index_by_type rels ty : get_by_type (build rels) ty = List.filter (fun r => bool_decide (ty = relationship_type r)) rels.
Proof.
  unfold get_by_type, build. rewrite (foldl_project _ (fun d r => push (relationship_type r) r d) _by_type) by done.
  change (default [] (zget ty ?d)) with (row ty d). by rewrite row_pushes.
Qed.

Lemma index_by_source rels i : get_by_source (build rels) i = List.filter (fun r => bool_decide (i = source_entity_id r)) rels.
Proof.
  unfold get_by_source, build. rewrite (foldl_project _ (fun d r => push (source_entity_id r) r d) _by_source) by done.
  change (default [] (zget i ?d)) with (row i d). by rewrite row_pushes.
Qed.

(** The indexed search finds the two-step chains between known entities. *)
Lemma find_chains_exact rels first_type second_type entities r1 r2 :
  (r1, r2) ∈ find_chains_indexed (build rels) first_type second_type entities <->
  r1 ∈ rels /\ r2 ∈ rels /\ relationship_type r1 = first_type /\ relationship_type r2 = second_type /\
  source_entity_id r2 = target_entity_id r1 /\
  source_entity_id r1 ∈ id <$> entities /\ target_entity_id r1 ∈ id <$> entities /\ target_entity_id r2 ∈ id <$> entities.
Proof.
  assert (Hknown : forall i, existsb (fun e => Z.eqb (id e) i) entities = true <-> i ∈ id <$> entities).
  { intros i. rewrite existsb_exists, list_elem_of_fmap. setoid_rewrite <- list_elem_of_In. setoid_rewrite Z.eqb_eq. naive_solver. }
  unfold find_chains_indexed, get_by_source_and_type. cbv zeta. rewrite index_by_type. setoid_rewrite index_by_source.
  rewrite elem_of_concat_list_map. setoid_rewrite list_elem_of_omap.
  setoid_rewrite elem_of_list_filter. setoid_rewrite elem_of_list_filter.
  rewrite <- !Hknown. split.
  - intros (r & (Hr & Ht%bool_decide_eq_true) & r' & ((Hr' & Hs%bool_decide_eq_true) & Ht'%String.eqb_eq) & Hp).
    destruct (existsb _ _ && existsb _ _ && existsb _ _) eqn:Hk; [|done]. injection Hp as -> ->.
    apply andb_true_iff in Hk as [[H1 H2]%andb_true_iff H3]. by split_and!.
  - intros (Hr & Hr' & Ht & Ht' & Hs & H1 & H2 & H3). exists r1. rewrite bool_decide_eq_true. split; [done|].
    exists r2. rewrite bool_decide_eq_true, String.eqb_eq. split; [by split_and!|]. by rewrite H1, H2, H3.
Qed.
End InferFacts.
