(* ===== verification/InferSound.v ===== *)
(** What inference promises: a rule matches exactly the chains of its conditions, and every
    inferred relationship is new, grounded in such a chain, and within the rule's limit. *)
From S2P Require Import Prelude PyValue RankFusion RankFusionFacts Entities EntityIndex EntityIndexFacts UnifyFacts Infer InferFacts.

Local Open Scope Z_scope.

Module InferSound.
Import Entities.Entities EntityIndex.EntityIndex EntityIndexFacts.EntityIndexFacts Infer.Infer InferFacts.InferFacts.
Import UnifyFacts.UnifyFacts(elem_of_list_filter, elem_of_concat_list_map).

Section rule.
Context `{TextOps} (entities : list Entity) (relationships : list Relationship) (rule : InferenceRule).

Local Abbreviation ctx := (from_data entities relationships).

(** The relationships that can start a match, as the engine collects them. *)
Definition starts (condition : InferenceCondition) : list (list Relationship * list (string * (Entity * Entity))) :=
  first_partials ctx (_filter_relationships_by_types (default [] (zget (relationship condition) (relationship_index ctx)))
    (source_type condition) (target_type condition) ctx).

(** No number of conditions has as many partial matches as the engine's limit. *)
Definition roomy : Prop :=
  match when rule with
  | [] => True
  | condition :: rest => forall k, (length (walk ctx 1 (take k rest) (starts condition)) < max_matches)%nat
  end.

Lemma match_chain m : m ∈ _evaluate_inference_rule ctx rule ->
  match_rule m = rule /\ chain ctx relationships (when rule) (matched_relationships m) (match_groups m) /\
  self_referential rule (match_groups m) = false.
Proof.
  unfold _evaluate_inference_rule. destruct (when rule) as [|first rest]; [by intros ?%elem_of_nil|].
  intros Hm. assert (Hc : exists ein, m ∈ conclude rule ein (walk ctx 1 rest (starts first)) []).
  { destruct rest; [by exists both_ends|by exists entities_of]. }
  destruct Hc as [ein [?%elem_of_nil|(rels & emap & Hp & Hs & ->)]%elem_of_conclude]; [done|]. cbn.
  split_and!; [done| |done]. revert Hp. apply elem_of_walk.
Qed.

Lemma chain_match path emap : roomy -> chain ctx relationships (when rule) path emap -> self_referential rule emap = false ->
  exists m, m ∈ _evaluate_inference_rule ctx rule /\ matched_relationships m = path /\ match_groups m = emap.
Proof.
  unfold roomy, _evaluate_inference_rule. destruct (when rule) as [|first rest]; [by intros _ ?%chain_nonempty|].
  intros Hroom Hc Hs. assert (Hw : (path, emap) ∈ walk ctx 1 rest (starts first)) by by apply elem_of_walk.
  specialize (Hroom (length rest)). rewrite take_ge in Hroom by lia.
  assert (Hein : forall ein, MkMatch rule path (ein emap) emap ∈ conclude rule ein (walk ctx 1 rest (starts first)) [])
    by (intros ein; apply conclude_keeps; cbn [length]; [lia|done..]).
  destruct rest; eexists; (split; [apply Hein|done]).
Qed.

(** C12.  Evaluating a rule is sound and, within the engine's limit of matches, complete: every
    match is a chain of relationships of the graph that satisfy the rule's conditions one after
    the other - right relationship type, known endpoints of admissible types, each relationship
    starting where the previous one ends or starts, or ending where it ends - and whose two
    references are not one entity; and as long as no number of conditions has as many partial
    matches as the limit, every such chain is a match. *)
Theorem rule_matches_are_chains :
  (forall m, m ∈ _evaluate_inference_rule ctx rule ->
    match_rule m = rule /\ chain ctx relationships (when rule) (matched_relationships m) (match_groups m) /\
    self_referential rule (match_groups m) = false) /\
  (roomy -> forall path emap,
    chain ctx relationships (when rule) path emap /\ self_referential rule emap = false <->
    exists m, m ∈ _evaluate_inference_rule ctx rule /\ matched_relationships m = path /\ match_groups m = emap).
Proof.
  split; [apply match_chain|]. intros Hroom path emap. split.
  - intros [Hc Hs]. by apply chain_match.
  - intros (m & Hm & <- & <-). by destruct (match_chain m Hm) as (_ & Hc & Hs).
Qed.
End rule.

(** ** From matches to relationships *)

Lemma chain_groups c rels conditions path emap k g : chain c rels conditions path emap -> dict_get k emap = Some g ->
  exists r, r ∈ path /\ endpoints c r = Some g.
Proof.
  induction 1 as [condition r g' (_ & _ & Hg & _)|conditions condition path prev r emap g' Hc IH Hl Ht (_ & _ & Hg & _)].
  - cbn. destruct (String.eqb k "first") eqn:Hk; [|done]. intros [= <-]. exists r. split; [left|done].
  - destruct (decide (k = ordinal_of (length conditions))) as [->|Hne].
    + rewrite dict_set_eq. intros [= <-]. exists r. split; [apply elem_of_app; right; left|done].
    + rewrite dict_set_ne by done. intros (r' & Hr & Hg')%IH. exists r'. split; [apply elem_of_app; by left|done].
Qed.

Lemma chain_path c rels conditions path emap : chain c rels conditions path emap -> path ⊆ rels.
Proof.
  induction 1 as [condition r g' (Hr & _)|conditions condition path prev r emap g' Hc IH Hl Ht (Hr & _)]; set_solver.
Qed.
Lemma at_position_of g position e : at_position g position = Some e -> e = g.1 \/ e = g.2.
Proof. unfold at_position. repeat case_match; naive_solver. Qed.

Lemma endpoints_known `{TextOps} entities rels r g : endpoints (from_data entities rels) r = Some g -> g.1 ∈ entities /\ g.2 ∈ entities.
Proof.
  unfold endpoints. destruct (_find_entity_by_id (source_entity_id r) _) as [s|] eqn:Hs; [|done].
  destruct (_find_entity_by_id (target_entity_id r) _) as [t|] eqn:Ht; [|done]. intros [= <-].
  by apply ctx_entity in Hs as [? _], Ht as [? _].
Qed.

Lemma chain_ref `{TextOps} entities rels conditions path emap ref e :
  chain (from_data entities rels) rels conditions path emap -> resolve_ref ref emap = Some e -> e ∈ entities.
Proof.
  intros Hc. unfold resolve_ref. destruct (split_on dot ref) as [|group [|position [|]]]; [done|done| |done].
  destruct (_ || _); [|done]. destruct (dict_get group emap) as [g|] eqn:Hg; [|done].
  destruct (chain_groups _ _ _ _ _ _ _ Hc Hg) as (r & _ & Hr). apply endpoints_known in Hr as [H1 H2].
  by intros [->| ->]%at_position_of.
Qed.

Lemma unseen_keys_spec seen l :
  sublist (unseen_keys seen l) l /\ NoDup (List.map key_of_inf (unseen_keys seen l)) /\
  forall i, i ∈ unseen_keys seen l -> key_of_inf i ∉ seen.
Proof.
  revert seen. induction l as [|i l IH]; intros seen; cbn [unseen_keys].
  - split_and!; [done|constructor|by intros ? ?%elem_of_nil].
  - case_bool_decide as Hi; [destruct (IH seen) as (H1 & H2 & H3); by split_and!; [constructor| |]|].
    destruct (IH (seen ++ [key_of_inf i])) as (H1 & H2 & H3). split_and!; [by constructor| |].
    + cbn. constructor; [|done]. intros (j & Hkey & Hj)%list_elem_of_fmap. apply H3 in Hj. apply Hj, elem_of_app. right.
      rewrite <- Hkey. apply list_elem_of_here.
    + intros j [->|Hj]%elem_of_cons; [done|]. apply H3 in Hj. intros Hs. apply Hj, elem_of_app. by left.
Qed.

(** ** Counting *)

Definition by_rule (rule : string) (l : list InferredRelationship) : nat :=
  length (List.filter (fun i => String.eqb (inf_rule i) rule) l).

Lemma by_rule_app rule l1 l2 : by_rule rule (l1 ++ l2) = (by_rule rule l1 + by_rule rule l2)%nat.
Proof. unfold by_rule. by rewrite List.filter_app, length_app. Qed.

Lemma by_rule_sublist rule l1 l2 : sublist l1 l2 -> (by_rule rule l1 <= by_rule rule l2)%nat.
Proof. unfold by_rule. induction 1 as [|x l1 l2 _ IH|x l1 l2 _ IH]; cbn; [done| |]; destruct (String.eqb _ _); cbn; lia. Qed.

Lemma by_rule_matches_loop minc maxi rule counts matches :
  (by_rule rule (matches_loop minc maxi counts matches) <= Z.to_nat (maxi - default 0 (dict_get rule counts))%Z)%nat.
Proof.
  revert counts. induction matches as [|m matches IH]; intros counts; cbn [matches_loop]; [cbn; lia|].
  set (name := rule_name (match_rule m)). set (n := default 0 (dict_get name counts)). set (counts' := dict_set name (n + 1) counts).
  assert (Hrest : (by_rule rule (matches_loop minc maxi counts' matches) <= Z.to_nat (maxi - default 0 (dict_get rule counts))%Z)%nat /\
    (rule = name -> (n + 1 <= maxi)%Z ->
      (S (by_rule rule (matches_loop minc maxi counts' matches)) <= Z.to_nat (maxi - default 0 (dict_get rule counts))%Z)%nat)).
  { specialize (IH counts'). unfold counts' in *. destruct (decide (rule = name)) as [->|Hne].
    - rewrite dict_set_eq in IH. cbn in IH. fold n. split; [lia|]. intros _ ?. lia.
    - rewrite dict_set_ne in IH by done. by split. }
  destruct Hrest as [Hrest Hmore]. destruct (Z.ltb_spec maxi (n + 1)); [done|]. destruct (flt _ _); [done|].
  destruct (_resolve_inference_entities m) as [[s|] [t|]]; try done. destruct (Z.eqb _ _); [done|].
  unfold by_rule in *. cbn [List.filter inferred_of inf_rule]. fold name.
  destruct (String.eqb_spec name rule) as [Heq|]; [|done]. cbn [length]. by apply Hmore.
Qed.

Section infer.
Context `{TextOps} (_min_confidence : float) (_max_inferences_per_rule : Z) (uuid4 : nat -> Z).
Context (rules : list InferenceRule) (entities : list Entity) (relationships : list Relationship).

(** The relationships of the pass that starts with [before] inferred. *)
Definition known_after (before : list InferredRelationship) : list Relationship :=
  relationships ++ _to_mock_relationships uuid4 0 before entities.

(** What a rule concludes from a chain of its conditions. *)
Definition grounded (current : list Relationship) (i : InferredRelationship) : Prop :=
  exists rule path emap s t, rule ∈ rules /\ chain (from_data entities current) current (when rule) path emap /\
    resolve_ref (then_source rule) emap = Some s /\ resolve_ref (then_target rule) emap = Some t /\
    s ∈ entities /\ t ∈ entities /\ id s <> id t /\ flt (rule_confidence rule) _min_confidence = false /\
    i = MkInferred (id s) (id t) (then_relationship rule) ("Inferred by rule: " +:+ rule_name rule)
          (rule_confidence rule) (rule_name rule) (List.map rel_id path).

Lemma elem_of_matches_loop counts matches i : i ∈ matches_loop _min_confidence _max_inferences_per_rule counts matches ->
  exists m s t, m ∈ matches /\ _resolve_inference_entities m = (Some s, Some t) /\ id s <> id t /\
    flt (rule_confidence (match_rule m)) _min_confidence = false /\ i = inferred_of m s t.
Proof.
  revert counts. induction matches as [|m matches IH]; intros counts; cbn [matches_loop]; [by intros ?%elem_of_nil|].
  assert (Hrest : forall counts, i ∈ matches_loop _min_confidence _max_inferences_per_rule counts matches ->
    exists m' s t, m' ∈ m :: matches /\ _resolve_inference_entities m' = (Some s, Some t) /\ id s <> id t /\
      flt (rule_confidence (match_rule m')) _min_confidence = false /\ i = inferred_of m' s t).
  { intros counts' (m' & s & t & Hm & Hr)%IH. exists m', s, t. split; [by right|done]. }
  destruct (Z.ltb _ _); [apply Hrest|]. destruct (flt _ _) eqn:Hf; [apply Hrest|].
  destruct (_resolve_inference_entities m) as [[s|] [t|]] eqn:Hm; try apply Hrest.
  destruct (Z.eqb_spec (id s) (id t)); [apply Hrest|]. intros [->|Hi]%elem_of_cons; [|by eapply Hrest].
  exists m, s, t. split_and!; [left|done..].
Qed.

Lemma pass_grounded current all i :
  i ∈ infer_pass _min_confidence _max_inferences_per_rule rules entities current all -> grounded current i.
Proof.
  intros Hi. unfold infer_pass, _filter_duplicates in Hi.
  eapply sublist_subseteq in Hi; [|apply unseen_keys_spec].
  apply elem_of_matches_loop in Hi as (m & s & t & Hm & Hres & Hne & Hf & ->).
  apply elem_of_concat_list_map in Hm as (rule & Hrule & Hm). apply match_chain in Hm as (Hmr & Hc & _).
  unfold _resolve_inference_entities in Hres. rewrite Hmr in *. injection Hres as Hs Ht.
  exists rule, (matched_relationships m), (match_groups m), s, t. split_and!; [done..| | |done|done|].
  - by eapply chain_ref.
  - by eapply chain_ref.
  - unfold inferred_of. by rewrite Hmr.
Qed.

Lemma mock_keys base inferred :
  List.map key_of_rel (_to_mock_relationships uuid4 base inferred entities) = List.map key_of_inf inferred.
Proof.
  unfold _to_mock_relationships. generalize (match entities with e :: _ => namespace_id e | [] => uuid4 base end). intros ns.
  revert base. induction inferred as [|i inferred IH]; intros base; [done|]. cbn. f_equal.
  rewrite <- (IH (S base)). f_equal. apply imap_ext. intros k j _. cbn. by rewrite Nat.add_succ_r.
Qed.

(** The namespace of the first entity does not depend on the pass. *)
Lemma known_after_app before new : entities <> [] ->
  known_after before ++ _to_mock_relationships uuid4 (length before) new entities = known_after (before ++ new).
Proof.
  intros Hne. unfold known_after, _to_mock_relationships. destruct entities as [|e es]; [done|].
  by rewrite imap_app, (assoc_L app).
Qed.

(** ** The passes *)

Definition sound (all : list InferredRelationship) : Prop :=
  NoDup (List.map key_of_inf all) /\
  forall i, i ∈ all -> (key_of_inf i ∉ List.map key_of_rel relationships) /\
    exists before rest, all = before ++ rest /\ i ∈ rest /\ grounded (known_after before) i.

Local Abbreviation pass all := (infer_pass _min_confidence _max_inferences_per_rule rules entities (known_after all) all).
Local Abbreviation run depth all :=
  (passes _min_confidence _max_inferences_per_rule uuid4 depth rules entities (known_after all) all).

Lemma pass_sound all : sound all -> sound (all ++ pass all).
Proof.
  intros [Hnd Hall]. destruct (unseen_keys_spec (List.map key_of_rel (known_after all) ++ List.map key_of_inf all)
    (_matches_to_relationships _min_confidence _max_inferences_per_rule (evaluate_inference_rules rules (from_data entities (known_after all)))))
    as (_ & Hnd' & Hfresh).
  fold (_filter_duplicates (_matches_to_relationships _min_confidence _max_inferences_per_rule (evaluate_inference_rules rules (from_data entities (known_after all)))) (known_after all) all) in Hnd', Hfresh.
  change (_filter_duplicates _ _ _) with (pass all) in Hnd', Hfresh. split.
  - rewrite List.map_app. apply NoDup_app. split_and!; [done| |done].
    intros k Hk (i & -> & Hi)%list_elem_of_fmap. apply (Hfresh i Hi), elem_of_app. by right.
  - intros i [Hi|Hi]%elem_of_app.
    + destruct (Hall i Hi) as (Hk & before & rest & -> & Hin & Hg). split; [done|].
      exists before, (rest ++ pass (before ++ rest)). split_and!; [by rewrite (assoc_L app)|apply elem_of_app; by left|done].
    + split.
      * intros Hk. apply (Hfresh i Hi), elem_of_app. left. unfold known_after. rewrite List.map_app. apply elem_of_app. by left.
      * exists all, (pass all). split_and!; [done..|]. by eapply pass_grounded.
Qed.

(** One pass and the ones after it, by whether it adds something. *)
Lemma run_S depth all : run (S depth) all = match pass all with [] => all | new => run depth (all ++ new) end.
Proof.
  cbn [passes]. destruct (pass all) as [|i new] eqn:Hp; [done|]. rewrite known_after_app; [done|].
  assert (Hi : i ∈ pass all) by (rewrite Hp; left). apply pass_grounded in Hi as (? & ? & ? & s & ? & _ & _ & _ & _ & Hs & _).
  intros ->. by apply elem_of_nil in Hs.
Qed.

Lemma run_sound depth all : sound all -> sound (run depth all).
Proof.
  revert all. induction depth as [|depth IH]; intros all Hall; [done|]. rewrite run_S.
  pose proof (pass_sound all Hall) as Hnext. destruct (pass all); [done|]. by apply IH.
Qed.

Lemma pass_by_rule rule all : (by_rule rule (pass all) <= Z.to_nat _max_inferences_per_rule)%nat.
Proof.
  etransitivity; [apply by_rule_sublist, unseen_keys_spec|]. etransitivity; [apply by_rule_matches_loop|]. by rewrite Z.sub_0_r.
Qed.

Lemma run_by_rule rule depth all :
  (by_rule rule (run depth all) <= by_rule rule all + depth * Z.to_nat _max_inferences_per_rule)%nat.
Proof.
  revert all. induction depth as [|depth IH]; intros all; [cbn [passes]; lia|]. rewrite run_S.
  pose proof (pass_by_rule rule all) as Hp. destruct (pass all) as [|i new]; [lia|].
  etransitivity; [apply IH|]. rewrite by_rule_app. lia.
Qed.

(** Either every pass added something, or further passes add nothing. *)
Lemma run_progress depth all :
  (length all + depth <= length (run depth all))%nat \/
  (pass (run depth all) = [] /\ forall more, run (depth + more) all = run depth all).
Proof.
  revert all. induction depth as [|depth IH]; intros all; [cbn [passes]; lia|].
  destruct (pass all) as [|i new] eqn:Hp.
  - right. rewrite run_S, Hp. split; [done|]. intros more. rewrite Nat.add_succ_l, run_S. by rewrite Hp.
  - destruct (IH (all ++ pass all)) as [Hlen|[Hdone Hsame]].
    + left. rewrite run_S, Hp. rewrite Hp in Hlen. rewrite length_app in Hlen. cbn [length] in Hlen. cbv beta iota zeta. lia.
    + right. rewrite run_S, Hp. rewrite Hp in *. split; [done|]. intros more. rewrite Nat.add_succ_l, run_S, Hp. apply Hsame.
Qed.

(** The keys that rules can conclude about the given entities. *)
Definition possible : list (Z * Z * string) :=
  list_prod (list_prod (List.map id entities) (List.map id entities)) (List.map then_relationship rules).

Lemma grounded_possible current i : grounded current i -> key_of_inf i ∈ possible.
Proof.
  intros (rule & path & emap & s & t & Hrule & _ & _ & _ & Hs & Ht & _ & _ & ->). unfold possible, key_of_inf. cbn.
  apply list_elem_of_In, in_prod; [apply in_prod|]; apply in_map; by apply list_elem_of_In.
Qed.

Lemma sound_length all : sound all -> (length all <= length entities * length entities * length rules)%nat.
Proof.
  intros [Hnd Hall]. rewrite <- (length_map key_of_inf all).
  replace (length entities * length entities * length rules)%nat with (length possible)
    by (unfold possible; by rewrite !length_prod, !length_map).
  apply NoDup_incl_length; [by apply NoDup_ListNoDup|]. intros k (i & <- & Hi)%in_map_iff.
  apply list_elem_of_In in Hi. destruct (Hall i Hi) as (_ & ? & ? & _ & _ & Hg). apply list_elem_of_In. by eapply grounded_possible.
Qed.

Lemma sound_nil : sound [].
Proof. split; [constructor|]. by intros ? ?%elem_of_nil. Qed.

Lemma known_after_nil : known_after [] = relationships.
Proof. unfold known_after. apply app_nil_r. Qed.

Lemma infer_run depth out : infer _min_confidence _max_inferences_per_rule uuid4 rules depth entities relationships = Ok out ->
  out = run depth [].
Proof.
  unfold infer. destruct rules as [|rule rs] eqn:Hr; rewrite <- ?Hr.
  - intros [= <-]. destruct depth; [done|]. by rewrite run_S, Hr.
  - destruct (diagnose _ _); [|done]. rewrite known_after_nil. by intros [= <-].
Qed.

Local Abbreviation inference depth := (infer _min_confidence _max_inferences_per_rule uuid4 rules depth entities relationships).

(** C11.  What inference returns is sound: no two inferred relationships agree on endpoints and
    type, none repeats a relationship the graph has, and each is the conclusion of a rule, over
    the confidence threshold, from a chain of the rule's conditions in the graph extended with
    the relationships inferred in earlier passes; its endpoints are two different given
    entities and its evidence names the relationships of the chain. *)
Theorem inference_sound depth out : inference depth = Ok out ->
  NoDup (List.map key_of_inf out) /\
  forall i, i ∈ out -> (key_of_inf i ∉ List.map key_of_rel relationships) /\
    exists before rest, out = before ++ rest /\ i ∈ rest /\ grounded (known_after before) i.
Proof. intros ->%infer_run. apply run_sound, sound_nil. Qed.

(** However large the graph, one rule contributes at most its limit in each pass, so at most
    [depth] times the limit in all. *)
Theorem inferences_bounded depth out rule : inference depth = Ok out ->
  (by_rule rule out <= depth * Z.to_nat _max_inferences_per_rule)%nat.
Proof. intros ->%infer_run. apply (run_by_rule rule depth []). Qed.

(** C32.  Transitive inference saturates: a run deeper than the number of conclusions the rules
    can draw about the entities ends with a pass that adds nothing, and any still deeper run
    returns the same relationships. *)
Theorem inference_saturates depth out : (length entities * length entities * length rules < depth)%nat ->
  inference depth = Ok out ->
  pass out = [] /\ forall more, inference (depth + more)%nat = Ok out.
Proof.
  intros Hdepth Hout. pose proof (infer_run _ _ Hout) as Heq. destruct (run_progress depth []) as [Hlen|[Hdone Hsame]].
  - pose proof (sound_length _ (run_sound depth [] sound_nil)). cbn [length] in Hlen. lia.
  - rewrite Heq. split; [done|]. intros more. rewrite <- Heq. revert Hout. unfold infer.
    destruct rules as [|rule rs] eqn:Hr; [done|]. rewrite <- Hr in *.
    destruct (diagnose _ _); [|done]. intros _. f_equal. rewrite Heq, <- known_after_nil. apply Hsame.
Qed.
End infer.
End InferSound.
