(* ===== verification/Expander.v ===== *)
(** Semantic expansion ([extraction/expansion/expander.py]) and the flows that run it over a
    namespace ([pipelines/flows/expansion.py]): unification, then inference, then what is
    written back.

    The flows are modelled from the entities and relationships they have loaded to the calls
    they make on the storage coordinator. *)
From S2P Require Import Prelude PyValue RankFusion Entities EntityIndex Unify Infer.

Local Open Scope Z_scope.

Module Expander.
Import Entities.Entities EntityIndex.EntityIndex Unify.Unify Infer.Infer.

(** The parts of an expertise configuration that expansion reads. *)
Record ExpertiseConfig := MkExpertise {
  correlation_rules : list CorrelationRule;
  inference_rules : list InferenceRule;
  expansion_depth : Z;
  cross_tool_unification : bool;
  relationship_inference : bool;
  min_inferred : float;
}.

Record SemanticExpander := MkExpander {
  _expertise : option ExpertiseConfig;
  _enable_unification : bool;
  _enable_inference : bool;
  _inference_depth : Z;
  _embedding_threshold : float;
  _fuzzy_threshold : float;
  _min_inference_confidence : float;
}.

(** An explicit flag wins over the configuration; the configuration's depth and confidence win
    over the arguments. *)
Definition new_expander (expertise : option ExpertiseConfig) (enable_unification enable_inference : option bool)
    (inference_depth : Z) (embedding_threshold fuzzy_threshold min_inference_confidence : float) : SemanticExpander :=
  let of_expertise {A} (f : ExpertiseConfig -> A) : option A := f <$> expertise in
  let flag (given : option bool) (f : ExpertiseConfig -> bool) : bool :=
    match given with Some b => b | None => default true (of_expertise f) end in
  MkExpander expertise (flag enable_unification cross_tool_unification) (flag enable_inference relationship_inference)
    (default inference_depth (of_expertise expansion_depth)) embedding_threshold fuzzy_threshold
    (default min_inference_confidence (of_expertise min_inferred)).

Record ExpansionResult := MkExpansion {
  x_entities : list Entity;
  x_relationships : list Relationship;
  x_inferred : list Relationship;
  original_entity_count : Z;
  merged_entity_count : Z;
  original_relationship_count : Z;
  inferred_relationship_count : Z;
  x_mapping : list (Z * Z);
}.

(** The ids that a run draws, by the part that draws them. *)
Record Uuids := MkUuids { uuid_reference : nat -> Z; uuid_mock : nat -> Z; uuid_inferred : nat -> Z }.

(** What a flow asks the storage coordinator to do. *)
Inductive StorageCall :=
| update_entity (entity : Entity) (namespace : Z)
| create_relationships_batch (rels : list Relationship).

Section expand.
Context `{TextOps} (cosine_similarity : list float -> list float -> float)
  (levenshtein_similarity : string -> string -> float) (depth : nat) (iter : list Z -> list Z)
  (str_id : Z -> string) (ids : Uuids).

(** The inferrer's default [max_inferences_per_rule]. *)
Definition max_inferences_per_rule : Z := 500.

(** Phase 1: the entities and relationships to go on with, the mapping and the number of
    merged entities. *)
Definition unification_phase (self : SemanticExpander) (index : option Index) (storage : bool) (now : Z)
    (entities : list Entity) (relationships : list Relationship)
    : result (list Entity * list Relationship * list (Z * Z) * Z) :=
  if _enable_unification self then
    run ← unify cosine_similarity levenshtein_similarity (_embedding_threshold self) (_fuzzy_threshold self) depth iter
            (uuid_reference ids) (match _expertise self with Some x => correlation_rules x | None => [] end)
            true true index storage now entities relationships;
    let res := run_result run in
    Ok (unified_entities res, updated_relationships res, entity_mapping res, entities_merged res)
  else Ok (entities, relationships, [], 0).

(** Phase 2: the inferred relationships, with ids of their own. *)
Definition inference_phase (self : SemanticExpander) (namespace : Z) (entities : list Entity)
    (relationships : list Relationship) : result (list Relationship) :=
  match _expertise self with
  | Some expertise =>
      if _enable_inference self then
        inferred ← infer (_min_inference_confidence self) max_inferences_per_rule (uuid_mock ids)
                     (inference_rules expertise) (Z.to_nat (_inference_depth self)) entities relationships;
        Ok (imap (fun k i => to_relationship i (uuid_inferred ids k) namespace str_id) inferred)
      else Ok []
  | None => Ok []
  end.

Definition expand (self : SemanticExpander) (namespace_id : option Z) (index : option Index) (storage : bool) (now : Z)
    (entities : list Entity) (relationships : list Relationship) : result ExpansionResult :=
  let originals := Z.of_nat (length relationships) in
  match entities with
  | [] => Ok (MkExpansion [] [] [] 0 0 originals 0 [])
  | first :: _ =>
      let namespace := default (Entities.namespace_id first) namespace_id in
      '(entities', relationships', mapping, merged) ← unification_phase self index storage now entities relationships;
      inferred ← inference_phase self namespace entities' relationships';
      Ok (MkExpansion entities' relationships' inferred (Z.of_nat (length entities)) merged originals
            (Z.of_nat (length inferred)) mapping)
  end.

(** ** Writing back *)

(** The entities whose id is a value of the mapping; all of them when it is empty. *)
Definition modified_entities (r : ExpansionResult) : list Entity :=
  match List.map snd (x_mapping r) with
  | [] => x_entities r
  | merged_ids => List.filter (fun e => bool_decide (id e ∈ merged_ids)) (x_entities r)
  end.

(** The calls of [store_expansion_results], in the order they are started. *)
Definition store_expansion_results (r : ExpansionResult) : list StorageCall :=
  (if Z.ltb 0 (merged_entity_count r)
   then List.map (fun e => update_entity e (Entities.namespace_id e)) (modified_entities r) else []) ++
  match x_inferred r with [] => [] | rels => [create_relationships_batch rels] end.

(** [expand_knowledge_graph], after loading: the expansion and the calls it stores by. *)
Definition expand_knowledge_graph (expertise : option ExpertiseConfig) (inference_depth : Z)
    (embedding_threshold fuzzy_threshold min_inference_confidence : float) (store_results : bool) (namespace now : Z)
    (entities : list Entity) (relationships : list Relationship) : result (option ExpansionResult * list StorageCall) :=
  match entities with
  | [] => Ok (None, [])
  | _ =>
      let self := new_expander expertise None None inference_depth embedding_threshold fuzzy_threshold min_inference_confidence in
      r ← expand self (Some namespace) None false now entities relationships;
      Ok (Some r,
          if store_results && (Z.ltb 0 (merged_entity_count r) || Z.ltb 0 (inferred_relationship_count r))
          then store_expansion_results r else [])
  end.

(** [unify_entities], after loading. *)
Definition unify_entities (expertise : option ExpertiseConfig) (embedding_threshold fuzzy_threshold : float)
    (store_results : bool) (now : Z) (entities : list Entity) (relationships : list Relationship)
    : result (option UnificationResult * list StorageCall * list MergeEvent) :=
  match entities with
  | [] => Ok (None, [], [])
  | _ =>
      run ← unify cosine_similarity levenshtein_similarity embedding_threshold fuzzy_threshold depth iter
              (uuid_reference ids) (match expertise with Some x => correlation_rules x | None => [] end)
              true true None true now entities relationships;
      let res := run_result run in
      Ok (Some res,
          if store_results && Z.ltb 0 (entities_merged res)
          then List.map (fun e => update_entity e (Entities.namespace_id e)) (unified_entities res) else [],
          run_events run)
  end.
End expand.
End Expander.
