(* ===== verification/ExpanderFacts.v ===== *)
(** What an expansion returns and writes back: the two phases fit together, and a run that
    merges anything rewrites every entity it returns; then concrete runs of inference and of
    expansion, with the cases that fail or that are dropped. *)
From S2P Require Import Prelude PyValue RankFusion Entities EntityIndex Unify UnifyFacts UnifyMerge UnifyAccount Infer InferFacts InferSound Expander UnifySamples.

Local Open Scope Z_scope.

Module ExpanderFacts.
Import Entities.Entities Unify.Unify UnifyFacts.UnifyFacts UnifyMerge.UnifyMerge UnifyAccount.UnifyAccount.
Import Infer.Infer InferSound.InferSound Expander.Expander.

(** A run of [infer] whose expected types can be sorted does not fail. *)
Lemma infer_total `{TextOps} minc maxi uuid4 rules depth entities relationships :
  sorted_types (expected_entities rules) = Ok () ->
  exists out, infer minc maxi uuid4 rules depth entities relationships = Ok out.
Proof.
  intros Hs. unfold infer. destruct rules as [|rule rules]; [by eexists|].
  unfold diagnose. rewrite Hs. destruct (existsb _ _); by eexists.
Qed.

Lemma all_modified r : (forall e, e ∈ x_entities r -> id e ∈ List.map snd (x_mapping r)) -> modified_entities r = x_entities r.
Proof.
  unfold modified_entities. destruct (List.map snd (x_mapping r)) as [|v vs]; [done|].
  generalize (x_entities r). induction l as [|e l IH]; intros Hmap; cbn [List.filter]; [done|].
  rewrite bool_decide_true by (apply Hmap; left). f_equal. apply IH. intros e' He'. apply Hmap. by right.
Qed.

(** The depth and the confidence given to the expander have no effect: inference runs only
    with an expertise configuration, whose own values then win. *)
Lemma inference_arguments_ignored `{TextOps} cosine levenshtein depth iter str_id ids expertise u i d d' et ft c c' ns index storage now entities relationships :
  expand cosine levenshtein depth iter str_id ids (new_expander expertise u i d et ft c) ns index storage now entities relationships =
  expand cosine levenshtein depth iter str_id ids (new_expander expertise u i d' et ft c') ns index storage now entities relationships.
Proof. by destruct expertise. Qed.

Section expansion.
Context `{TextOps} (cosine_similarity : list float -> list float -> float)
  (levenshtein_similarity : string -> string -> float) (depth : nat) (iter : list Z -> list Z)
  (str_id : Z -> string) (ids : Uuids).
Hypothesis iter_perm : forall l, iter l ≡ₚ l.
Context (self : SemanticExpander) (storage : bool) (now : Z) (entities : list Entity) (relationships : list Relationship).

Definition rules_of : list CorrelationRule := match _expertise self with Some x => correlation_rules x | None => [] end.

Context (Hids : NoDup (id <$> entities)) (Hdepth : (length entities <= depth)%nat)
  (Htext : textual rules_of entities) (Htools : tools_hashable entities).

Local Abbreviation phase1 :=
  (unification_phase cosine_similarity levenshtein_similarity depth iter ids self None storage now entities relationships).

Lemma unification_phase_ok : exists entities' relationships' mapping merged,
  phase1 = Ok (entities', relationships', mapping, merged) /\ NoDup (id <$> entities') /\ mentions entities' = mentions entities /\
  (merged <> 0 -> forall e, e ∈ entities' -> id e ∈ List.map snd mapping).
Proof.
  unfold unification_phase. destruct (_enable_unification self).
  - destruct (run_accounts cosine_similarity levenshtein_similarity (_embedding_threshold self) (_fuzzy_threshold self) depth iter
      (uuid_reference ids) iter_perm rules_of true true storage now entities relationships Hids Hdepth Htext Htools) as (r & Hr & A).
    pose proof (survivors_mapped cosine_similarity levenshtein_similarity (_embedding_threshold self) (_fuzzy_threshold self) depth iter
      (uuid_reference ids) iter_perm rules_of true true storage now entities relationships Hids Hdepth Htext Htools r Hr) as Hm.
    unfold rules_of in Hr. rewrite Hr. do 4 eexists. split; [done|]. split_and!; [apply A|apply A|exact Hm].
  - do 4 eexists. split; [done|]. by split_and!.
Qed.

Lemma inference_phase_ok namespace es rels :
  (forall x, _expertise self = Some x -> sorted_types (expected_entities (inference_rules x)) = Ok ()) ->
  exists inferred, inference_phase str_id ids self namespace es rels = Ok inferred /\
    NoDup (List.map key_of_rel inferred) /\
    forall rel, rel ∈ inferred -> (key_of_rel rel ∉ List.map key_of_rel rels) /\ source_entity_id rel <> target_entity_id rel /\
      source_entity_id rel ∈ id <$> es /\ target_entity_id rel ∈ id <$> es.
Proof.
  intros Hsort. unfold inference_phase. destruct (_expertise self) as [x|]; [|eexists; split; [done|]; split; [constructor|by intros ? ?%elem_of_nil]].
  destruct (_enable_inference self); [|eexists; split; [done|]; split; [constructor|by intros ? ?%elem_of_nil]].
  destruct (infer_total (_min_inference_confidence self) max_inferences_per_rule (uuid_mock ids) (inference_rules x)
    (Z.to_nat (_inference_depth self)) es rels (Hsort x eq_refl)) as [out Hout].
  pose proof (infer_run _ _ _ _ _ _ _ _ Hout) as Hrun.
  pose proof (run_sound (_min_inference_confidence self) max_inferences_per_rule (uuid_mock ids) (inference_rules x) es rels
    (Z.to_nat (_inference_depth self)) [] (sound_nil _ _ _ _ _)) as [Hnd Hall]. rewrite <- Hrun in Hnd, Hall.
  rewrite Hout. change (mbind ?k (Ok ?x)) with (k x). cbv beta. eexists. split; [done|]. split.
  - replace (List.map key_of_rel _) with (List.map key_of_inf out); [done|]. symmetry.
    apply list_eq. intros k. rewrite !list_lookup_fmap, list_lookup_imap. by destruct (out !! k).
  - intros rel (k & i & -> & Hi)%elem_of_lookup_imap. apply list_elem_of_lookup_2 in Hi.
    destruct (Hall i Hi) as (Hk & before & rest & _ & _ & Hg). destruct Hg as (rule & path & emap & s & t & _ & _ & _ & _ & Hs & Ht & Hne & _ & Heq).
    change (key_of_rel (to_relationship i (uuid_inferred ids k) namespace str_id)) with (key_of_inf i).
    cbn [to_relationship source_entity_id target_entity_id]. rewrite Heq at 2 3 4 5. cbn [inf_source inf_target].
    split_and!; [done|done|by apply list_elem_of_fmap_2..].
Qed.

(** C30.  An expansion without an entity index succeeds over entities with distinct ids, no more of them than the interpreter
    allows nested calls, whose values at the fields of the correlation rules are strings and
    whose source tools are hashable,
    when the types of the inference rules can be sorted; and its parts fit together: the entities have distinct ids and account for every mention of the
    input, and each inferred relationship joins two different entities of the result, as
    neither a relationship of the result nor another inferred one does with that type. *)
Theorem expansion_closed namespace :
  (forall x, _expertise self = Some x -> sorted_types (expected_entities (inference_rules x)) = Ok ()) ->
  exists r, expand cosine_similarity levenshtein_similarity depth iter str_id ids self namespace None storage now entities relationships = Ok r /\
    NoDup (id <$> x_entities r) /\ mentions (x_entities r) = mentions entities /\
    NoDup (List.map key_of_rel (x_inferred r)) /\
    forall rel, rel ∈ x_inferred r -> (key_of_rel rel ∉ List.map key_of_rel (x_relationships r)) /\
      source_entity_id rel <> target_entity_id rel /\
      source_entity_id rel ∈ id <$> x_entities r /\ target_entity_id rel ∈ id <$> x_entities r.
Proof.
  intros Hsort. unfold expand. pose proof unification_phase_ok as Hphase. revert Hphase.
  destruct entities as [|first es]; intros (es' & rels' & mapping & merged & Hp & Hn & Hm & _).
  { eexists. split; [done|]. cbn. split_and!; [constructor|done|constructor|by intros ? ?%elem_of_nil]. }
  destruct (inference_phase_ok (default (Entities.namespace_id first) namespace) es' rels' Hsort) as (inferred & Hi & Hnd & Hall).
  rewrite Hp. cbn [mbind result_bind]. rewrite Hi. cbn [mbind result_bind]. eexists. by split.
Qed.

(** Writing back a run that merged anything asks for an update of every entity of the result,
    whether a merge has changed it or not: the mapping that selects the modified ones has each
    survivor as a value. *)
Theorem merging_rewrites_everything namespace r :
  expand cosine_similarity levenshtein_similarity depth iter str_id ids self namespace None storage now entities relationships = Ok r ->
  0 < merged_entity_count r ->
  modified_entities r = x_entities r /\
  forall e, e ∈ x_entities r -> update_entity e (Entities.namespace_id e) ∈ store_expansion_results r.
Proof.
  unfold expand. pose proof unification_phase_ok as Hphase. revert Hphase.
  destruct entities as [|first es]; intros (es' & rels' & mapping & merged & Hp & _ & _ & Hmap).
  { intros [= <-]. cbn. lia. }
  rewrite Hp. cbn [mbind result_bind]. destruct (inference_phase _ _ _ _ _ _) as [inferred|]; [|done]. intros [= <-].
  cbn [merged_entity_count x_entities]. intros Hmerged. specialize (Hmap ltac:(lia)).
  pose proof (all_modified (MkExpansion es' rels' inferred (Z.of_nat (length (first :: es))) merged (Z.of_nat (length relationships))
    (Z.of_nat (length inferred)) mapping) Hmap) as Hmod.
  split; [exact Hmod|]. intros e He. apply elem_of_app. left. cbn [merged_entity_count].
  rewrite (proj2 (Z.ltb_lt _ _) Hmerged). apply (list_elem_of_fmap_2 (fun e => update_entity e (Entities.namespace_id e))).
  match goal with |- context [modified_entities ?r] => replace (modified_entities r) with es' by (symmetry; exact Hmod) end. exact He.
Qed.
End expansion.
End ExpanderFacts.

(** ** Concrete runs *)

Local Open Scope string_scope.
Local Open Scope list_scope.
Local Open Scope Z_scope.

Module InferSamples.
Import Entities.Entities Unify.Unify UnifyMerge.UnifyMerge UnifyAccount.UnifyAccount UnifySamples.UnifySamples.
Import Infer.Infer InferFacts.InferFacts InferSound.InferSound Expander.Expander ExpanderFacts.

Definition person (i : Z) (nm : string) : Entity := MkEntity i 7 nm "EMPLOYEE" "" [] [10] [] 1 None f_half 0.
Definition project : Entity := MkEntity 4 7 "Apollo" "PROJECT" "" [] [10] [] 1 None f_half 0.
Definition team : list Entity := [person 1 "Ada"; person 2 "Bob"; person 3 "Cy"; project].

Definition edge (i s t : Z) (ty : string) : Relationship := MkRelationship i 7 s t ty "" [] [] [] f_half.
Definition graph : list Relationship := [edge 20 1 2 "MANAGES"; edge 21 2 3 "MANAGES"; edge 22 3 4 "WORKS_ON"].

Definition rule_of (nm : string) (conditions : list InferenceCondition) (ty s t : string) : InferenceRule :=
  MkRule nm conditions ty s t f_half.

(** Who manages somebody who works on something, or has a stake in it, has a stake in it. *)
Definition stake (ty : string) : InferenceRule :=
  rule_of ("stake:" +:+ ty) [MkCondition "MANAGES" (Some "PERSON") (Some "PERSON"); MkCondition ty (Some "PERSON") (Some "PROJECT")]
    "STAKEHOLDER_OF" "first.source" "second.target".
Definition stakes : list InferenceRule := [stake "WORKS_ON"; stake "STAKEHOLDER_OF"].

Definition mock (k : nat) : Z := 200 + Z.of_nat k.

(** The second pass builds on the first; the third finds nothing new. *)
Example two_passes depth : (2 <= depth)%nat ->
  infer f0 500 mock stakes depth team graph =
  Ok [MkInferred 2 4 "STAKEHOLDER_OF" "Inferred by rule: stake:WORKS_ON" f_half "stake:WORKS_ON" [21; 22];
      MkInferred 1 4 "STAKEHOLDER_OF" "Inferred by rule: stake:STAKEHOLDER_OF" f_half "stake:STAKEHOLDER_OF" [20; 200]].
Proof. intros Hd. destruct depth as [|[|[|depth]]]; [lia|lia| |]; vm_compute; reflexivity. Qed.

(** A rule that concludes from its third condition matches, but its reference is not resolved. *)
Definition far : InferenceRule :=
  rule_of "far" [MkCondition "MANAGES" None None; MkCondition "MANAGES" None None; MkCondition "WORKS_ON" None None]
    "STAKEHOLDER_OF" "first.source" "third.target".

Example third_reference_dropped :
  List.map (fun m => List.map rel_id (matched_relationships m)) (_evaluate_inference_rule (from_data team graph) far) = [[20; 21; 22]; [21; 21; 22]] /\
  _matches_to_relationships f0 500 (evaluate_inference_rules [far] (from_data team graph)) = [].
Proof. split; vm_compute; reflexivity. Qed.

(** A relationship shares its source with itself: a rule for two steps fires on a single one. *)
Example pairs_with_itself :
  infer f0 500 mock [rule_of "indirect" [MkCondition "MANAGES" None None; MkCondition "MANAGES" None None] "OVERSEES" "first.source" "second.target"]
    1 [person 1 "Ada"; person 2 "Bob"] [edge 20 1 2 "MANAGES"]
  = Ok [MkInferred 1 2 "OVERSEES" "Inferred by rule: indirect" f_half "indirect" [20; 20]].
Proof. vm_compute. reflexivity. Qed.

(** When no entity has a type the rules name, and one condition leaves a type open, sorting
    the types for the log raises. *)
Example diagnosis_raises :
  infer f0 500 mock [rule_of "open" [MkCondition "MANAGES" (Some "PERSON") None] "LEADS" "first.source" "first.target"] 1 team graph
  = Err TypeError.
Proof. vm_compute. reflexivity. Qed.

(** ** Hypotheses that hold *)

Lemma rule_matches_are_chains_witness :
  exists m, m ∈ _evaluate_inference_rule (from_data team graph) (stake "WORKS_ON") /\
    chain (from_data team graph) graph (when (stake "WORKS_ON")) (matched_relationships m) (match_groups m).
Proof.
  destruct (rule_matches_are_chains team graph (stake "WORKS_ON")) as [Hs _].
  assert (Hm : exists m, m ∈ _evaluate_inference_rule (from_data team graph) (stake "WORKS_ON")) by (vm_compute; eexists; left).
  destruct Hm as [m Hm]. exists m. split; [exact Hm|]. apply (Hs m Hm).
Defined.

Lemma inference_sound_witness : exists out, infer f0 500 mock stakes 3 team graph = Ok out /\ NoDup (List.map key_of_inf out).
Proof.
  eexists. split; [apply (two_passes 3); lia|].
  exact (proj1 (inference_sound f0 500 mock stakes team graph 3 _ (two_passes 3 ltac:(lia)))).
Defined.

Lemma inferences_bounded_witness : exists out, infer f0 1 mock stakes 3 team graph = Ok out /\ (by_rule "stake:WORKS_ON" out <= 3)%nat.
Proof.
  eexists. split; [vm_compute; reflexivity|].
  apply (inferences_bounded f0 1 mock stakes team graph 3 _ "stake:WORKS_ON"). vm_compute. reflexivity.
Defined.

Lemma inference_saturates_witness : exists out, infer f0 500 mock stakes 33 team graph = Ok out /\
  infer f0 500 mock stakes (33 + 7) team graph = Ok out.
Proof.
  eexists. split; [apply (two_passes 33); lia|].
  apply (inference_saturates f0 500 mock stakes team graph 33); [cbn; lia|apply (two_passes 33); lia].
Defined.

(** ** Expansion *)

Definition expertise : ExpertiseConfig := MkExpertise [by_email] stakes 2 true true f0.
Definition expander : SemanticExpander := new_expander (Some expertise) None None 2 f_one f_one f0.
Definition sample_ids : Uuids := MkUuids (fun k => 100 + Z.of_nat k) mock (fun k => 300 + Z.of_nat k).

Lemma team_textual : UnifyFacts.UnifyFacts.textual (rules_of expander) sample.
Proof. exact sample_textual. Qed.

Lemma expansion_closed_witness : exists r,
  expand same_vector same_text 10 (fun l => l) (fun _ => "") sample_ids expander None None false 5 sample links = Ok r /\
  NoDup (id <$> x_entities r).
Proof.
  destruct (expansion_closed same_vector same_text 10 (fun l => l) (fun _ => "") sample_ids identity_perm expander false 5 sample links
    ltac:(vm_compute; by apply (bool_decide_unpack _)) ltac:(cbn; lia) team_textual sample_tools None) as (r & Hr & Hn & _).
  - intros x [= <-]. reflexivity.
  - exists r. split; [exact Hr|exact Hn].
Defined.

(** [ada] is rewritten although nothing was merged into it. *)
Lemma merging_rewrites_everything_witness : exists r,
  expand same_vector same_text 10 (fun l => l) (fun _ => "") sample_ids expander None None false 5 sample links = Ok r /\
  update_entity ada 7 ∈ store_expansion_results r.
Proof.
  assert (Hr : exists r, expand same_vector same_text 10 (fun l => l) (fun _ => "") sample_ids expander None None false 5 sample links = Ok r /\
    0 < merged_entity_count r /\ ada ∈ x_entities r).
  { eexists. split; [vm_compute; reflexivity|]. split; [vm_compute; reflexivity|]. vm_compute. right. left. }
  destruct Hr as (r & Hr & Hm & Ha). exists r. split; [exact Hr|].
  apply (merging_rewrites_everything same_vector same_text 10 (fun l => l) (fun _ => "") sample_ids identity_perm expander false 5 sample links
    ltac:(vm_compute; by apply (bool_decide_unpack _)) ltac:(cbn; lia) team_textual sample_tools None r Hr Hm). exact Ha.
Defined.
End InferSamples.
