(* ===== verification/HookLlm.v ===== *)
(** Level 2 of the hook filter cascade ([hooks/llm_evaluator.py]): evaluations queue up, are
    flushed in batches, cost tokens of two budgets, and are answered from one model call per
    bucket, from a cache, or - on any trouble - with yes.

    The event loop runs a task without interruption up to its next [await]: each definition
    of a step below is such a stretch, and a run is any interleaving of them.  A caller waits
    on a future; a batch task goes bucket by bucket, waiting for the model in between.
    Times are integers of the monotonic clock's unit; every reading of the clock is an
    argument. *)
From Stdlib Require Import SpecFloat.
From S2P Require Import Prelude PyValue FilterAst RankFusion Entities EntityIndex HookDispatch.

Local Open Scope string_scope.
Local Open Scope list_scope.
Local Open Scope Z_scope.

Module HookLlm.
Import Entities.Entities(TextOps, strip, strip_chars, truthy) EntityIndex.EntityIndex(push).

(** ** Data *)

(** The fields of [SemanticHooksConfig] that the evaluator reads. *)
Record HooksConfig := MkConfig {
  llm_batch_size : Z;
  llm_max_tokens_per_namespace_per_hour : Z;
  llm_max_tokens_per_subscription_per_hour : Z;
  llm_cache_size : Z;
  llm_cache_ttl : Z;
}.

Record _NamespaceBudget := MkBudget { tokens_used : Z; window_started_at : Z; warned_in_window : bool }.

Abbreviation buckets := (list (Z * _NamespaceBudget)).

(** One hour in the clock's unit. *)
Definition _BUDGET_WINDOW : Z := 3600 * 1000000.

Record _PendingEvaluation := MkPending { p_event : MemoryEvent; p_filter : SemanticFilter; p_future : nat }.

Inductive status := Waiting | Done (decision : bool) | Cancelled.

#[export] Instance status_eq_dec : EqDecision status.
Proof. solve_decision. Defined.

(** A call of [evaluate]: its arguments, and its future. *)
Record Caller := MkCaller { c_event : MemoryEvent; c_filter : SemanticFilter; c_status : status }.

(** A batch task: all its evaluations, the buckets to go, and whether the first of them is
    waiting for the model. *)
Record Batch := MkBatch {
  b_pending : list _PendingEvaluation;
  b_left : list (list _PendingEvaluation);
  b_calling : bool;
}.

(** The cache in the order of use, the oldest first; an expiry of [None] is infinite. *)
Abbreviation cache := (list (Z * string * (bool * option Z))).

Record LLMFilterEvaluator := MkEvaluator {
  _queue : list _PendingEvaluation;
  _flush_task : bool;
  _batches : list Batch;
  _budgets : buckets;
  _subscription_budgets : buckets;
  _cache : cache;
  callers : list Caller;
}.

Definition new_evaluator : LLMFilterEvaluator := MkEvaluator [] false [] [] [] [] [].

(** What a step does that the properties speak of: an answer the model gave for a filter and a
    summary, and a call with the namespace it is charged to, the time and the tokens. *)
Inductive event :=
| Verdict (filter : Z) (summary : string) (decision : bool)
| Call (namespace time tokens : Z).

(** ** Budgets *)

Definition _would_fit_bucket (store : buckets) (key charge cap now : Z) : bool :=
  match zget key store with
  | Some bucket =>
      if _BUDGET_WINDOW <=? now - window_started_at bucket then charge <=? cap
      else tokens_used bucket + charge <=? cap
  | None => charge <=? cap
  end.

Definition _charge_bucket (store : buckets) (key charge cap now : Z) : bool * buckets :=
  let bucket :=
    match zget key store with
    | Some bucket => if _BUDGET_WINDOW <=? now - window_started_at bucket then MkBudget 0 now false else bucket
    | None => MkBudget 0 now false
    end in
  let projected := tokens_used bucket + charge in
  if cap <? projected then (false, zset key (MkBudget (tokens_used bucket) (window_started_at bucket) true) store)
  else (true, zset key (MkBudget projected (window_started_at bucket) (warned_in_window bucket)) store).

Section evaluator.
Context `{TextOps} (str : value -> string) (bounded_text_hash : string -> string)
  (json_loads : string -> result value) (float_of_text : string -> option float) (config : HooksConfig).

(** Both caps are checked before either bucket is charged; [t 0] to [t 3] are the readings of
    the clock. *)
Definition _charge_budget (t : nat -> Z) (namespace subscription total : Z) (budgets subs : buckets)
    : bool * buckets * buckets :=
  let ns_cap := llm_max_tokens_per_namespace_per_hour config in
  let sub_cap := llm_max_tokens_per_subscription_per_hour config in
  if (0 <? sub_cap) && negb (_would_fit_bucket subs subscription total sub_cap (t 0%nat))
  then (false, budgets, (_charge_bucket subs subscription total sub_cap (t 1%nat)).2)
  else if (0 <? ns_cap) && negb (_would_fit_bucket budgets namespace total ns_cap (t 1%nat))
  then (false, (_charge_bucket budgets namespace total ns_cap (t 2%nat)).2, subs)
  else
    (true,
     if 0 <? ns_cap then (_charge_bucket budgets namespace total ns_cap (t 3%nat)).2 else budgets,
     if 0 <? sub_cap then (_charge_bucket subs subscription total sub_cap (t 2%nat)).2 else subs).

(** ** Summaries and estimates *)

(** [s[:n]] and [len(s)] *)
Definition clip (n : nat) (s : string) : string := str_join "" (take n (utf8_chars s)).
Definition char_len (s : string) : Z := Z.of_nat (length (utf8_chars s)).

(** [str(data.get(key, ""))] *)
Definition text_field (data : list (string * value)) (key : string) : string := str (default (VStr "") (dict_get key data)).

Definition _event_summary_hash (e : MemoryEvent) : string :=
  let data := e_data e in
  let name := clip 100 (text_field data "name") in
  let etype := clip 50 (str (default (default (VStr "") (dict_get "relationship_type" data)) (dict_get "entity_type" data))) in
  let descr := clip 200 (text_field data "description") in
  bounded_text_hash (etype +:+ "|" +:+ name +:+ "|" +:+ descr).

(** [len(_SYSTEM_PROMPT)] *)
Definition system_prompt_length : Z := 407.

Definition sum_of {A} (f : A -> Z) (l : list A) : Z := foldr (fun x acc => f x + acc) 0 l.

Definition _estimate_input_tokens (filt : SemanticFilter) (items : list _PendingEvaluation) : Z :=
  Z.max 1 (system_prompt_length / 4 + char_len (f_description filt) / 4
    + sum_of (fun ex => char_len ex / 4) (take 5 (examples filt))
    + sum_of (fun ex => char_len ex / 4) (take 5 (anti_examples filt))
    + sum_of (fun p => Z.min 100 (char_len (text_field (e_data (p_event p)) "name")) / 4
                       + Z.min 200 (char_len (text_field (e_data (p_event p)) "description")) / 4) items).

(** ** The cache *)

Definition cache_key (filter_id : Z) (e : MemoryEvent) : Z * string := (filter_id, _event_summary_hash e).
Definition pop (key : Z * string) (c : cache) : cache := List.filter (fun x => negb (bool_decide (x.1 = key))) c.

Definition _cache_lookup (now filter_id : Z) (e : MemoryEvent) (c : cache) : option bool * cache :=
  if llm_cache_size config <=? 0 then (None, c)
  else
    let key := cache_key filter_id e in
    match zget key c with
    | None => (None, c)
    | Some (decision, expires_at) =>
        if (0 <? llm_cache_ttl config) && match expires_at with Some x => x <=? now | None => false end
        then (None, pop key c)
        else (Some decision, pop key c ++ [(key, (decision, expires_at))])
    end.

Definition _cache_store (now filter_id : Z) (e : MemoryEvent) (decision : bool) (c : cache) : cache :=
  if llm_cache_size config <=? 0 then c
  else
    let expires_at := if 0 <? llm_cache_ttl config then Some (now + llm_cache_ttl config) else None in
    let key := cache_key filter_id e in
    let c := pop key c ++ [(key, (decision, expires_at))] in
    drop (length c - Z.to_nat (llm_cache_size config)) c.

(** ** The model's answer *)

Definition fence : string := "```".

(** The results by index; an answer that is not JSON has none. *)
Definition _parse_response (text : string) : result (list (Z * list (string * value))) :=
  let cleaned := strip text in
  let cleaned :=
    if String.prefix fence cleaned then
      let cleaned := strip_chars cleaned "`" in
      strip (if String.prefix "json" cleaned then String.substring 4 (String.length cleaned - 4) cleaned else cleaned)
    else cleaned in
  match json_loads cleaned with
  | Err ValueError => Ok []
  | Err x => Err x
  | Ok payload =>
      match match payload with VDict d => default VNone (dict_get "results" d) | _ => payload end with
      | VList results =>
          Ok (foldl (fun out entry =>
                match entry with
                | VDict d =>
                    match dict_get "i" d with
                    | Some (VInt i) => zset i d out
                    | Some (VBool b) => zset (Z.b2z b) d out
                    | _ => out
                    end
                | _ => out
                end) [] results)
      | _ => Ok []
      end
  end.

(** [float(v)] *)
Definition py_float (v : value) : result float :=
  match v with
  | VBool b => Ok (of_Z (Z.b2z b))
  | VInt z => match of_Z z with S754_infinity _ => Err OverflowError | f => Ok f end
  | VFloat FNaN => Ok S754_nan
  | VFloat (FInf s) => Ok (S754_infinity s)
  | VFloat (FFin m e) => Ok (binary_normalize 53 1024 m e false)
  | VStr s => match float_of_text s with Some f => Ok f | None => Err ValueError end
  | _ => Err TypeError
  end.

Definition decide_entry (threshold : float) (entry : list (string * value)) : result bool :=
  let match_flag := truthy (default (VBool false) (dict_get "match" entry)) in
  let given := default (VFloat (FFin 0 0)) (dict_get "confidence" entry) in
  confidence ← py_float (if truthy given then given else VFloat (FFin 0 0));
  Ok (match_flag && SFleb threshold confidence).

(** ** Batches *)

(** By namespace and filter, in the order of arrival. *)
Definition bucket_key (p : _PendingEvaluation) : Z * Z := (e_namespace_id (p_event p), f_id (p_filter p)).
Definition buckets_of (pending : list _PendingEvaluation) : list (list _PendingEvaluation) :=
  (foldl (fun d p => push (bucket_key p) p d) [] pending).*2.

Definition summary_of (p : _PendingEvaluation) : string := _event_summary_hash (p_event p).

(** The first evaluation of each summary, and the evaluations by summary. *)
Definition coalesce (items : list _PendingEvaluation)
    : list _PendingEvaluation * list (string * list _PendingEvaluation) :=
  foldl (fun '(representatives, dup_groups) p =>
    (if bool_decide (zget (summary_of p) dup_groups = None) then representatives ++ [p] else representatives,
     push (summary_of p) p dup_groups)) ([], []) items.

(** [if not p.future.done(): p.future.set_result(d)] *)
Definition set_result (d : bool) (cs : list Caller) (p : _PendingEvaluation) : list Caller :=
  alter (fun c => match c_status c with Waiting => MkCaller (c_event c) (c_filter c) (Done d) | _ => c end) (p_future p) cs.
Definition resolve (d : bool) (ps : list _PendingEvaluation) (cs : list Caller) : list Caller := foldl (set_result d) cs ps.

(** The loop over the representatives: the callers and the cache, what the model decided,
    and whether it ran to its end. *)
Fixpoint apply_results (now : nat -> Z) (threshold : float) (groups : list (string * list _PendingEvaluation))
    (results : list (Z * list (string * value))) (idx : nat) (reps : list _PendingEvaluation)
    (cs : list Caller) (c : cache) : bool * list Caller * cache * list event :=
  match reps with
  | [] => (true, cs, c, [])
  | rep :: reps =>
      let duplicates := default [] (zget (summary_of rep) groups) in
      match zget (Z.of_nat idx) results with
      | None => apply_results now threshold groups results (S idx) reps (resolve true duplicates cs) c
      | Some entry =>
          match decide_entry threshold entry with
          | Err _ => (false, cs, c, [])
          | Ok d =>
              let '(ok, cs, c, events) :=
                apply_results now threshold groups results (S idx) reps (resolve d duplicates cs)
                  (_cache_store (now idx) (f_id (p_filter rep)) (p_event rep) d c) in
              (ok, cs, c, Verdict (f_id (p_filter rep)) (summary_of rep) d :: events)
          end
      end
  end.

(** ** Steps *)

Inductive answer := Answered (text : string) | TimedOut | Raised.

Inductive label :=
| Enter (now : Z) (e : MemoryEvent) (f : SemanticFilter)
| Flush
| Charge (b : nat) (t : nat -> Z)
| Answer (b : nat) (now : nat -> Z) (a : answer)
| Cancel (future : nat).

Definition with_callers (w : LLMFilterEvaluator) (cs : list Caller) : LLMFilterEvaluator :=
  MkEvaluator (_queue w) (_flush_task w) (_batches w) (_budgets w) (_subscription_budgets w) (_cache w) cs.

Definition with_batch (w : LLMFilterEvaluator) (b : nat) (B : Batch) : LLMFilterEvaluator :=
  MkEvaluator (_queue w) (_flush_task w) (<[b := B]> (_batches w)) (_budgets w) (_subscription_budgets w) (_cache w) (callers w).

Definition start_batch (w : LLMFilterEvaluator) (pending : list _PendingEvaluation) : LLMFilterEvaluator :=
  MkEvaluator [] false (_batches w ++ [MkBatch pending (buckets_of pending) false]) (_budgets w) (_subscription_budgets w)
    (_cache w) (callers w).

(** [evaluate], up to [await future]. *)
Definition evaluate (now : Z) (e : MemoryEvent) (f : SemanticFilter) (w : LLMFilterEvaluator) : LLMFilterEvaluator :=
  let '(cached, c) := _cache_lookup now (f_id f) e (_cache w) in
  let w := MkEvaluator (_queue w) (_flush_task w) (_batches w) (_budgets w) (_subscription_budgets w) c (callers w) in
  match cached with
  | Some decision => with_callers w (callers w ++ [MkCaller e f (Done decision)])
  | None =>
      let queue := _queue w ++ [MkPending e f (length (callers w))] in
      let w := with_callers w (callers w ++ [MkCaller e f Waiting]) in
      if llm_batch_size config <=? Z.of_nat (length queue) then start_batch w queue
      else MkEvaluator queue true (_batches w) (_budgets w) (_subscription_budgets w) (_cache w) (callers w)
  end.

(** [_flush_after_delay], once its delay is over. *)
Definition _flush_after_delay (w : LLMFilterEvaluator) : LLMFilterEvaluator :=
  match _queue w with
  | [] => MkEvaluator [] false (_batches w) (_budgets w) (_subscription_budgets w) (_cache w) (callers w)
  | pending => start_batch w pending
  end.

(** [_evaluate_bucket], up to the call of the model. *)
Definition charge_bucket (t : nat -> Z) (b : nat) (pending : list _PendingEvaluation) (items : list _PendingEvaluation)
    (todo : list (list _PendingEvaluation)) (first : _PendingEvaluation) (w : LLMFilterEvaluator)
    : LLMFilterEvaluator * list event :=
  let filt := p_filter first in
  let namespace_id := e_namespace_id (p_event first) in
  let representatives := (coalesce items).1 in
  let total := _estimate_input_tokens filt representatives + 25 * Z.of_nat (length representatives) in
  let '(ok, budgets, subs) := _charge_budget t namespace_id (f_id filt) total (_budgets w) (_subscription_budgets w) in
  let w := MkEvaluator (_queue w) (_flush_task w) (_batches w) budgets subs (_cache w) (callers w) in
  if ok then (with_batch w b (MkBatch pending (items :: todo) true), [Call namespace_id (t 3%nat) total])
  else (with_callers (with_batch w b (MkBatch pending todo false)) (resolve true items (callers w)), []).

(** [_evaluate_bucket] after the call; an exception that leaves it ends the batch. *)
Definition finish_bucket (now : nat -> Z) (a : answer) (b : nat) (pending items : list _PendingEvaluation)
    (todo : list (list _PendingEvaluation)) (first : _PendingEvaluation) (w : LLMFilterEvaluator)
    : LLMFilterEvaluator * list event :=
  let fail_open := (with_callers (with_batch w b (MkBatch pending todo false)) (resolve true items (callers w)), []) in
  match a with
  | TimedOut | Raised => fail_open
  | Answered text =>
      match _parse_response text with
      | Err _ => fail_open
      | Ok results =>
          let '(representatives, dup_groups) := coalesce items in
          let '(ok, cs, c, events) :=
            apply_results now (llm_confidence_threshold (p_filter first)) dup_groups results 0 representatives (callers w) (_cache w) in
          let w := MkEvaluator (_queue w) (_flush_task w) (_batches w) (_budgets w) (_subscription_budgets w) c cs in
          if ok then (with_batch w b (MkBatch pending todo false), events)
          else (with_callers (with_batch w b (MkBatch pending [] false)) (resolve true pending cs), events)
      end
  end.

Definition step (l : label) (w : LLMFilterEvaluator) : option (LLMFilterEvaluator * list event) :=
  match l with
  | Enter now e f => Some (evaluate now e f w, [])
  | Flush => if _flush_task w then Some (_flush_after_delay w, []) else None
  | Charge b t =>
      match _batches w !! b with
      | Some (MkBatch pending ((first :: _) as items :: todo) false) => Some (charge_bucket t b pending items todo first w)
      | _ => None
      end
  | Answer b now a =>
      match _batches w !! b with
      | Some (MkBatch pending ((first :: _) as items :: todo) true) => Some (finish_bucket now a b pending items todo first w)
      | _ => None
      end
  | Cancel i =>
      match callers w !! i with
      | Some (MkCaller e f Waiting) => Some (with_callers w (<[i := MkCaller e f Cancelled]> (callers w)), [])
      | _ => None
      end
  end.
End evaluator.
End HookLlm.
