(* ===== verification/HookLlmFacts.v ===== *)
(** Facts about the Level 2 evaluator: how evaluations are grouped, what a step does to the
    callers, and the invariants of every run. *)
From Stdlib Require Import SpecFloat.
From S2P Require Import Prelude PyValue RankFusion RankFusionFacts Entities EntityIndex EntityIndexFacts UnifyFacts InferFacts HookDispatch HookLlm.

Local Open Scope Z_scope.

Module HookLlmFacts.
Import UnifyFacts.UnifyFacts(elem_of_list_filter).
Import Entities.Entities(TextOps) EntityIndex.EntityIndex(push) EntityIndexFacts.EntityIndexFacts InferFacts.InferFacts HookLlm.HookLlm.

(** ** Grouping by a key *)

Section grouping.
Context {K A : Type} `{EqDecision K} (keyof : A -> K).

Local Abbreviation grouped l := (foldl (fun d x => push (keyof x) x d) [] l).

Lemma grouped_NoDup l : NoDup (grouped l).*1.
Proof.
  assert (Hgen : forall l (d : list (K * list A)), NoDup d.*1 -> NoDup (foldl (fun d x => push (keyof x) x d) d l).*1).
  { clear l. induction l as [|x l IH]; intros d Hd; [done|]. apply IH. by apply NoDup_zset. }
  apply Hgen. constructor.
Qed.

(** The group under a key: the elements of that key, in order. *)
Lemma grouped_row k l : row k (grouped l) = List.filter (fun x => bool_decide (k = keyof x)) l.
Proof. by rewrite row_pushes. Qed.

Lemma elem_of_zset {B} (k : K) (v : B) d k' v' : (k', v') ∈ zset k v d -> (k', v') = (k, v) \/ (k', v') ∈ d \/ v' = v.
Proof.
  induction d as [|[k2 v2] d IH]; cbn [zset]; [intros ?%list_elem_of_singleton; by left|].
  case_decide; rewrite !elem_of_cons; [intros [[= -> ->]|]; auto|]. intros [|Hin]; [auto|]. naive_solver.
Qed.

Lemma grouped_nonempty l k g : (k, g) ∈ grouped l -> g <> [].
Proof.
  assert (Hgen : forall l (d : list (K * list A)), (forall k g, (k, g) ∈ d -> g <> []) ->
    forall k g, (k, g) ∈ foldl (fun d x => push (keyof x) x d) d l -> g <> []).
  { clear. induction l as [|x l IH]; intros d Hd; [done|]. apply IH. intros k g [[= -> ->]|[Hin| ->]]%elem_of_zset.
    - by destruct (default [] _).
    - by eapply Hd.
    - by destruct (default [] _). }
  apply Hgen. by intros ? ? ?%elem_of_nil.
Qed.

Lemma elem_of_grouped l k g : (k, g) ∈ grouped l -> g = List.filter (fun x => bool_decide (k = keyof x)) l.
Proof.
  intros Hin. apply (zget_keys_NoDup _ _ _ (grouped_NoDup l)) in Hin. rewrite <- grouped_row. unfold row. by rewrite Hin.
Qed.

(** A group has elements of one key only, taken from the list; every element is in a group. *)
Lemma group_members l g : g ∈ (grouped l).*2 -> g <> [] /\ exists k, forall x, x ∈ g <-> x ∈ l /\ keyof x = k.
Proof.
  intros ([k g'] & -> & Hin)%list_elem_of_fmap. split; [by eapply grouped_nonempty|]. exists k. intros x. cbn.
  apply elem_of_grouped in Hin as ->. rewrite elem_of_list_filter, bool_decide_eq_true. naive_solver.
Qed.

Lemma group_covers l x : x ∈ l -> exists g, g ∈ (grouped l).*2 /\ x ∈ g.
Proof.
  intros Hx. assert (Hrow : x ∈ row (keyof x) (grouped l)).
  { rewrite grouped_row. apply elem_of_list_filter. split; [done|]. by apply bool_decide_eq_true. }
  unfold row in Hrow. destruct (zget (keyof x) (grouped l)) as [g|] eqn:Hg; [|by apply elem_of_nil in Hrow].
  exists g. split; [|done]. apply (zget_keys_NoDup _ _ _ (grouped_NoDup l)) in Hg. by apply (list_elem_of_fmap_2 snd) in Hg.
Qed.

Lemma grouped_length l : (length (grouped l) <= length l)%nat.
Proof.
  assert (Hgen : forall l (d : list (K * list A)), (length (foldl (fun d x => push (keyof x) x d) d l) <= length d + length l)%nat).
  { clear. induction l as [|x l IH]; intros d; cbn [foldl length]; [lia|]. etransitivity; [apply IH|].
    enough (length (push (keyof x) x d) <= S (length d))%nat by lia. unfold push. generalize (default [] (zget (keyof x) d) ++ [x]).
    intros v. induction d as [|[k2 v2] d IHd]; cbn [zset length]; [lia|]. case_decide; cbn [length]; lia. }
  apply (Hgen l []).
Qed.
End grouping.

(** ** Callers *)

Section callers.
Implicit Types cs : list Caller.

(** A caller that waited may be answered: with yes, or with a no that [said] allows. *)
Definition answered (said : nat -> Prop) (i : nat) (c c' : Caller) : Prop :=
  c' = c \/ (c_status c = Waiting /\ exists d, c' = MkCaller (c_event c) (c_filter c) (Done d) /\ (d = false -> said i)).

Definition settles (said : nat -> Prop) cs cs' : Prop :=
  length cs = length cs' /\ forall i c c', cs !! i = Some c -> cs' !! i = Some c' -> answered said i c c'.

Lemma settles_refl said cs : settles said cs cs.
Proof. split; [done|]. intros i c c' Hc Hc'. left. congruence. Qed.

Lemma settles_mono (said said' : nat -> Prop) cs cs' : (forall i, said i -> said' i) -> settles said cs cs' -> settles said' cs cs'.
Proof.
  intros Hs [Hl Ha]. split; [done|]. intros i c c' Hc Hc'. destruct (Ha i c c' Hc Hc') as [|(Hw & d & -> & Hd)]; [by left|].
  right. split; [done|]. exists d. auto.
Qed.

Lemma settles_trans said cs1 cs2 cs3 : settles said cs1 cs2 -> settles said cs2 cs3 -> settles said cs1 cs3.
Proof.
  intros [L1 A1] [L2 A2]. split; [congruence|]. intros i c1 c3 H1 H3.
  destruct (lookup_lt_is_Some_2 cs2 i) as [c2 H2]; [rewrite <- L1; by eapply lookup_lt_Some|].
  destruct (A1 i c1 c2 H1 H2) as [->|(Hw & d & -> & Hd)]; [by apply (A2 i c1 c3)|].
  destruct (A2 i _ c3 H2 H3) as [->|(Hw' & _)]; [|done]. right. split; [done|]. by exists d.
Qed.

Lemma resolve_lookup d ps cs i c : cs !! i = Some c ->
  resolve d ps cs !! i = Some (if decide (c_status c = Waiting /\ i ∈ p_future <$> ps) then MkCaller (c_event c) (c_filter c) (Done d) else c).
Proof.
  revert cs c. induction ps as [|p ps IH]; intros cs c Hc; cbn [resolve foldl]; csimpl.
  - rewrite decide_False; [done|]. by intros [_ ?%elem_of_nil].
  - fold (resolve d ps (set_result d cs p)). unfold set_result at 1. destruct (decide (i = p_future p)) as [->|Hne].
    + erewrite IH; [|by rewrite list_lookup_alter_eq, Hc]. f_equal.
      destruct (c_status c) eqn:Hs; cbn [c_status]; rewrite ?Hs; repeat case_decide; try done; exfalso; set_solver.
    + erewrite IH; [|by rewrite list_lookup_alter_ne]. f_equal. apply decide_ext. rewrite elem_of_cons. naive_solver.
Qed.

Lemma resolve_length d ps cs : length (resolve d ps cs) = length cs.
Proof. revert cs. induction ps as [|p ps IH]; intros cs; cbn; [done|]. fold (resolve d ps (set_result d cs p)). rewrite IH. apply length_alter. Qed.

Lemma resolve_settles (said : nat -> Prop) d ps cs : (d = false -> forall p, p ∈ ps -> said (p_future p)) -> settles said cs (resolve d ps cs).
Proof.
  intros Hs. split; [by rewrite resolve_length|]. intros i c c' Hc. rewrite (resolve_lookup _ _ _ _ _ Hc). intros [= <-].
  case_decide as Hd; [|by left]. destruct Hd as [Hw (p & -> & Hp)%list_elem_of_fmap]. right. split; [done|]. exists d. split; [done|]. auto.
Qed.

(** After resolving, none of the futures waits. *)
Lemma resolve_done d ps cs p c : p ∈ ps -> resolve d ps cs !! p_future p = Some c -> c_status c <> Waiting.
Proof.
  intros Hp Hc. destruct (lookup_lt_is_Some_2 cs (p_future p)) as [c0 H0].
  { rewrite <- (resolve_length d ps). by eapply lookup_lt_Some. }
  rewrite (resolve_lookup _ _ _ _ _ H0) in Hc. injection Hc as <-. case_decide as Hd; [done|].
  intros Hw. apply Hd. split; [done|]. by apply list_elem_of_fmap_2.
Qed.

(** What does not wait stays so. *)
Lemma settles_done said cs cs' i c c' : settles said cs cs' -> cs !! i = Some c -> cs' !! i = Some c' ->
  c_status c <> Waiting -> c' = c.
Proof. intros [_ Ha] Hc Hc' Hw. by destruct (Ha i c c' Hc Hc') as [|[? _]]. Qed.

Lemma settles_lookup said cs cs' i c' : settles said cs cs' -> cs' !! i = Some c' ->
  exists c, cs !! i = Some c /\ answered said i c c'.
Proof.
  intros [Hl Ha] Hc'. destruct (lookup_lt_is_Some_2 cs i) as [c Hc]; [rewrite Hl; by eapply lookup_lt_Some|].
  exists c. split; [done|]. by apply Ha.
Qed.
End callers.

(** ** Answers of the model *)

Section evaluator.
Context `{TextOps} (str : value -> string) (bounded_text_hash : string -> string)
  (json_loads : string -> result value) (float_of_text : string -> option float) (config : HooksConfig).

Local Abbreviation summary_of := (summary_of str bounded_text_hash).
Local Abbreviation coalesce := (coalesce str bounded_text_hash).
Local Abbreviation apply_results := (apply_results str bounded_text_hash float_of_text config).
Local Abbreviation step := (step str bounded_text_hash json_loads float_of_text config).

Lemma coalesce_spec items :
  (coalesce items).2 = foldl (fun d p => push (summary_of p) p d) [] items /\
  (coalesce items).1 ⊆ items /\
  forall p, p ∈ items -> exists rep, rep ∈ (coalesce items).1 /\ summary_of rep = summary_of p.
Proof.
  unfold HookLlm.coalesce. set (f := fun '(representatives, dup_groups) p => _).
  assert (Hgen : forall l reps groups, (forall k, zget k groups <> None -> exists rep, rep ∈ reps /\ summary_of rep = k) ->
    (foldl f (reps, groups) l).2 = foldl (fun d p => push (summary_of p) p d) groups l /\
    (forall p, p ∈ (foldl f (reps, groups) l).1 -> p ∈ reps \/ p ∈ l) /\
    (forall p, p ∈ reps -> p ∈ (foldl f (reps, groups) l).1) /\
    forall p, p ∈ l -> exists rep, rep ∈ (foldl f (reps, groups) l).1 /\ summary_of rep = summary_of p).
  { induction l as [|p l IH]; intros reps groups Hk; cbn [foldl].
    { split_and!; [done|by left|done|by intros p ?%elem_of_nil]. }
    set (reps' := if bool_decide (zget (summary_of p) groups = None) then reps ++ [p] else reps).
    assert (Hp : exists rep, rep ∈ reps' /\ summary_of rep = summary_of p).
    { unfold reps'. case_bool_decide as Hz; [exists p; split; [set_solver|done]|by apply Hk]. }
    assert (Hsub : forall q, q ∈ reps -> q ∈ reps') by (unfold reps'; case_bool_decide; set_solver).
    destruct (IH reps' (push (summary_of p) p groups)) as (H1 & H2 & H3 & H4).
    { intros k. unfold push. destruct (decide (k = summary_of p)) as [->|Hne]; [done|].
      rewrite zget_zset_ne by done. intros (rep & Hr & Hs)%Hk. exists rep. auto. }
    change (f (reps, groups) p) with (reps', push (summary_of p) p groups).
    split_and!; [done| | |].
    - intros q [Hq|Hq]%H2; [|set_solver]. unfold reps' in Hq. case_bool_decide; set_solver.
    - auto.
    - intros q [->|Hq]%elem_of_cons; [|by apply H4]. destruct Hp as (rep & Hr & Hs). exists rep. auto. }
  destruct (Hgen items [] []) as (H1 & H2 & _ & H4); [by intros k|]. split_and!; [done| |done].
  intros p [?%elem_of_nil|?]%H2; done.
Qed.

(** The model said no to an evaluation of the list whose future this is. *)
Definition denied (events : list event) (items : list _PendingEvaluation) (i : nat) : Prop :=
  exists p, p ∈ items /\ p_future p = i /\ Verdict (f_id (p_filter p)) (summary_of p) false ∈ events.

Lemma denied_mono events events' items i : (forall x, x ∈ events -> x ∈ events') -> denied events items i -> denied events' items i.
Proof. intros Hsub (p & Hp & Hi & Hv). exists p. auto. Qed.

Lemma cache_store_elem now fid e d c k d' x : (k, (d', x)) ∈ _cache_store str bounded_text_hash config now fid e d c ->
  (k, (d', x)) ∈ c \/ (k = cache_key str bounded_text_hash fid e /\ d' = d).
Proof.
  unfold _cache_store. destruct (_ <=? 0); [by left|]. intros Hin. eapply (subseteq_drop) in Hin.
  apply elem_of_app in Hin as [Hin|[= -> -> _]%list_elem_of_singleton]; [left|by right].
  unfold pop in Hin. by apply elem_of_list_filter in Hin as [? _].
Qed.

Lemma apply_results_spec now threshold items results fid :
  (forall p, p ∈ items -> f_id (p_filter p) = fid) ->
  forall reps idx cs c ok cs' c' events, reps ⊆ items ->
  apply_results now threshold (foldl (fun d p => push (summary_of p) p d) [] items) results idx reps cs c = (ok, cs', c', events) ->
  settles (denied events items) cs cs' /\
  (ok = true -> forall rep p x, rep ∈ reps -> p ∈ items -> summary_of p = summary_of rep -> cs' !! p_future p = Some x -> c_status x <> Waiting) /\
  forall k d x, (k, (d, x)) ∈ c' -> (k, (d, x)) ∈ c \/ Verdict k.1 k.2 d ∈ events.
Proof.
  intros Hfid. set (groups := foldl _ [] items).
  assert (Hdup : forall rep p, p ∈ default [] (zget (summary_of rep) groups) <-> p ∈ items /\ summary_of p = summary_of rep).
  { intros rep p. change (default [] (zget ?k groups)) with (row k groups). unfold groups. rewrite grouped_row, elem_of_list_filter, bool_decide_eq_true. naive_solver. }
  induction reps as [|rep reps IH]; intros idx cs c ok cs' c' events Hsub; cbn [HookLlm.apply_results].
  { intros [= <- <- <- <-]. split_and!; [apply settles_refl|by intros _ ? ? ? ?%elem_of_nil|by left]. }
  assert (Hrep : rep ∈ items) by (apply Hsub; left). assert (Hsub' : reps ⊆ items) by (intros q Hq; apply Hsub; by right).
  destruct (zget (Z.of_nat idx) results) as [entry|].
  - destruct (decide_entry float_of_text threshold entry) as [d|x]; cycle 1.
    { intros [= <- <- <- <-]. split_and!; [apply settles_refl|done|by left]. }
    destruct (HookLlm.apply_results _ _ _ _ _ _ _ _ _ _ _ _) as [[[ok1 cs1] c1] events1] eqn:Happ. intros [= <- <- <- <-].
    destruct (IH _ _ _ _ _ _ _ Hsub' Happ) as (S1 & D1 & C1). split_and!.
    + eapply settles_trans; [|eapply settles_mono; [|exact S1]; intros i; apply denied_mono; intros y Hy; by right].
      apply resolve_settles. intros -> p Hp. apply Hdup in Hp as [Hp Hs]. exists p. split_and!; [done..|].
      rewrite Hs, Hfid, <- (Hfid rep) by done. left.
    + intros -> rep' p x [->|Hr]%elem_of_cons Hp Hs Hx; [|by eapply (D1 eq_refl)].
      destruct (settles_lookup _ _ _ _ _ S1 Hx) as (x0 & Hx0 & _).
      assert (Hn : c_status x0 <> Waiting) by (eapply resolve_done; [|exact Hx0]; by apply Hdup).
      by rewrite (settles_done _ _ _ _ _ _ S1 Hx0 Hx Hn).
    + intros k d' x [Hk|Hk]%C1; [|right; by right]. apply cache_store_elem in Hk as [?|[-> ->]]; [by left|]. right. left.
  - intros Happ. destruct (IH _ _ _ _ _ _ _ Hsub' Happ) as (S1 & D1 & C1). split_and!; [|..|done].
    + eapply settles_trans; [|exact S1]. by apply resolve_settles.
    + intros -> rep' p x [->|Hr]%elem_of_cons Hp Hs Hx; [|by eapply (D1 eq_refl)].
      destruct (settles_lookup _ _ _ _ _ S1 Hx) as (x0 & Hx0 & _).
      assert (Hn : c_status x0 <> Waiting) by (eapply resolve_done; [|exact Hx0]; by apply Hdup).
      by rewrite (settles_done _ _ _ _ _ _ S1 Hx0 Hx Hn).
Qed.
End evaluator.
End HookLlmFacts.
