(* ===== verification/HookLlmBudget.v ===== *)
(** What the token budgets of the Level 2 evaluator promise: the accounts of a bucket, and the
    bound on what a namespace spends within any hour; then concrete runs of the evaluator, at
    which the hypotheses of its properties hold or which its statements set apart. *)
From Stdlib Require Import SpecFloat.
From S2P Require Import Prelude PyValue RankFusion RankFusionFacts Entities EntityIndex EntityIndexFacts HookDispatch HookLlm HookLlmFacts HookLlmRuns UnifySamples.

Local Open Scope Z_scope.

Module HookLlmBudget.
Import Entities.Entities(TextOps) HookLlm.HookLlm HookLlmRuns.HookLlmRuns.

(** ** What was spent when *)

Definition spent (calls : list (Z * Z)) (lo hi : Z) : Z :=
  sum_of (fun '(t, n) => if (lo <=? t) && (t <? hi) then n else 0) calls.

Definition calls_of (namespace : Z) (events : list event) : list (Z * Z) :=
  omap (fun x => match x with Call ns t n => if ns =? namespace then Some (t, n) else None | Verdict _ _ _ => None end) events.

Definition nonneg (calls : list (Z * Z)) : Prop := Forall (fun x => 0 <= x.2) calls.

Lemma spent_cons t n calls lo hi :
  spent ((t, n) :: calls) lo hi = (if (lo <=? t) && (t <? hi) then n else 0) + spent calls lo hi.
Proof. done. Qed.

Lemma spent_snoc calls t n lo hi :
  spent (calls ++ [(t, n)]) lo hi = spent calls lo hi + (if (lo <=? t) && (t <? hi) then n else 0).
Proof. induction calls as [|[t' n'] calls IH]; cbn [app]; rewrite !spent_cons; [cbn; lia|]. rewrite IH. lia. Qed.

Lemma spent_nonneg calls lo hi : nonneg calls -> 0 <= spent calls lo hi.
Proof. induction 1 as [|[t n] calls Hn _ IH]; rewrite ?spent_cons; [done|]; cbn in *. destruct (_ && _); lia. Qed.

Lemma spent_split calls lo mid hi : lo <= mid <= hi -> spent calls lo hi = spent calls lo mid + spent calls mid hi.
Proof.
  intros Hm. induction calls as [|[t n] calls IH]; rewrite ?spent_cons; [done|]; cbn in *. rewrite IH.
  destruct (Z.leb_spec lo t), (Z.ltb_spec t hi), (Z.leb_spec mid t), (Z.ltb_spec t mid); cbn; lia.
Qed.

(** Calls before [hi'] only. *)
Lemma spent_within calls lo hi lo' hi' : nonneg calls -> lo' <= lo -> Forall (fun x => x.1 < hi') calls ->
  spent calls lo hi <= spent calls lo' hi'.
Proof.
  intros Hn Hlo Ht. induction Hn as [|[t n] calls Hn _ IH]; rewrite ?spent_cons; [done|]. inversion Ht as [|? ? Hx Hrest]; subst. cbn in Hx, Hn. specialize (IH Hrest).
  destruct (Z.leb_spec lo t), (Z.ltb_spec t hi), (Z.leb_spec lo' t), (Z.ltb_spec t hi'); cbn; lia.
Qed.

Lemma spent_none calls lo hi : Forall (fun x => x.1 < lo) calls -> spent calls lo hi = 0.
Proof.
  induction 1 as [|[t n] calls Ht _ IH]; rewrite ?spent_cons; [done|]; cbn in *. rewrite IH.
  destruct (Z.leb_spec lo t); cbn; lia.
Qed.

(** ** One bucket *)

Local Abbreviation W := _BUDGET_WINDOW.

Lemma window_pos : 0 < W.
Proof. done. Qed.

(** A bucket and the calls charged to it. *)
Record accounts (cap now : Z) (calls : list (Z * Z)) (b : _NamespaceBudget) : Prop := {
  acc_cap : 0 <= tokens_used b <= cap;
  acc_start : window_started_at b <= now;
  acc_nonneg : nonneg calls;
  acc_times : Forall (fun x => x.1 <= now /\ x.1 < window_started_at b + W) calls;
  acc_used : spent calls (window_started_at b) (window_started_at b + W) <= tokens_used b;
  acc_before : spent calls (window_started_at b - W) (window_started_at b) <= cap;
  acc_all lo : spent calls lo (lo + W) <= 2 * cap;
}.

Definition ledger (cap now : Z) (calls : list (Z * Z)) (ob : option _NamespaceBudget) : Prop :=
  match ob with Some b => accounts cap now calls b | None => calls = [] end.

Lemma ledger_mono cap now now' calls ob : now <= now' -> ledger cap now calls ob -> ledger cap now' calls ob.
Proof.
  intros Hn. destruct ob as [b|]; [|done]. intros []. split; try done; [lia|].
  eapply Forall_impl; [done|]. cbn. intros x; lia.
Qed.

(** A new window: the calls of the last one count for what came before. *)
Lemma accounts_renew cap now calls ob t : 0 <= cap -> ledger cap now calls ob -> now <= t ->
  (forall b, ob = Some b -> W <= t - window_started_at b) -> accounts cap t calls (MkBudget 0 t false).
Proof.
  intros Hcap Hl Hnow Hexp. pose proof window_pos. destruct ob as [b|]; cbn [ledger] in Hl.
  - specialize (Hexp b eq_refl). destruct Hl. split; cbn [tokens_used window_started_at]; try (done || lia).
    + eapply Forall_impl; [done|]. cbn. intros x; lia.
    + rewrite spent_none; [done|]. eapply Forall_impl; [done|]. cbn. intros x; lia.
    + etransitivity; [eapply (spent_within _ _ _ (window_started_at b) (window_started_at b + W))|]; [done|lia| |lia].
      eapply Forall_impl; [done|]. cbn. intros x; lia.
  - subst. split; cbn; try lia; constructor.
Qed.

(** A charge in the window: with the call, or (a charge whose call does not happen) without. *)
Lemma accounts_charge cap now calls b t n warned : accounts cap now calls b -> now <= t -> t < window_started_at b + W ->
  0 <= n -> tokens_used b + n <= cap ->
  accounts cap t (calls ++ [(t, n)]) (MkBudget (tokens_used b + n) (window_started_at b) warned).
Proof.
  intros [] Ht Hin Hn Hfit. pose proof window_pos.
  assert (Htimes : Forall (fun x => x.1 < window_started_at b + W) calls) by (eapply Forall_impl; [done|]; cbn; intros x; lia).
  split; cbn [tokens_used window_started_at].
  - lia.
  - lia.
  - apply Forall_app. split; [done|]. by apply Forall_singleton.
  - apply Forall_app. split; [|apply Forall_singleton; cbn; lia]. eapply Forall_impl; [exact acc_times0|]. cbn. intros x; lia.
  - rewrite spent_snoc. destruct (_ && _); lia.
  - rewrite spent_snoc. destruct (Z.ltb_spec t (window_started_at b)); [lia|]. rewrite andb_false_r. lia.
  - intros lo. rewrite spent_snoc. specialize (acc_all0 lo). destruct (Z.leb_spec lo t), (Z.ltb_spec t (lo + W)); cbn; try lia.
    enough (spent calls lo (lo + W) <= spent calls (window_started_at b - W) (window_started_at b + W)) as Hle.
    { rewrite (spent_split _ (window_started_at b - W) (window_started_at b)) in Hle by lia. lia. }
    apply spent_within; [done|lia|done].
Qed.

Lemma accounts_drop cap now calls x b : accounts cap now (calls ++ [x]) b -> accounts cap now calls b.
Proof.
  destruct x as [t n]. intros []. apply Forall_app in acc_nonneg0 as [Hn Hx], acc_times0 as [Ht _].
  apply Forall_cons in Hx as [Hx _]. cbn in Hx.
  assert (Hle : forall lo hi, spent calls lo hi <= spent (calls ++ [(t, n)]) lo hi)
    by (intros lo hi; rewrite spent_snoc; destruct (_ && _); lia).
  split; try done.
  - etransitivity; [apply Hle|done].
  - etransitivity; [apply Hle|done].
  - intros lo. etransitivity; [apply Hle|done].
Qed.

Lemma accounts_warn cap now calls b warned : accounts cap now calls b -> accounts cap now calls (MkBudget (tokens_used b) (window_started_at b) warned).
Proof. by intros []; split. Qed.

(** [_charge_bucket] keeps the accounts, whether or not the call is made; other buckets stay. *)
Lemma charge_accounts cap now calls store key n t ok store' : 0 <= cap -> ledger cap now calls (zget key store) -> now <= t -> 0 <= n ->
  _charge_bucket store key n cap t = (ok, store') ->
  (forall key', key' <> key -> zget key' store' = zget key' store) /\
  ledger cap t calls (zget key store') /\
  (ok = true -> ledger cap t (calls ++ [(t, n)]) (zget key store')).
Proof.
  intros Hcap Hl Ht Hn. unfold _charge_bucket. set (b := match zget key store with Some _ => _ | None => _ end).
  assert (Hb : accounts cap t calls b /\ t < window_started_at b + W).
  { pose proof window_pos. unfold b. destruct (zget key store) as [b0|] eqn:Hz.
    - destruct (Z.leb_spec W (t - window_started_at b0)).
      + split; [|cbn; lia]. eapply accounts_renew; [done..|]. by intros b' [= <-].
      + split; [|lia]. exact (ledger_mono cap now t calls (Some b0) Ht Hl).
    - split; [|cbn; lia]. by eapply (accounts_renew cap now calls None). }
  destruct Hb as [Hb Hin]. clearbody b. destruct (Z.ltb_spec cap (tokens_used b + n)); intros [= <- <-]; rewrite zget_zset_eq; split_and!.
  - intros key' Hne. by apply zget_zset_ne.
  - by apply accounts_warn.
  - done.
  - intros key' Hne. by apply zget_zset_ne.
  - eapply accounts_drop, (accounts_charge _ t); try done; lia.
  - intros _. cbn [ledger]. apply (accounts_charge _ t); try done; lia.
Qed.

(** What fits at one reading can be charged at a later one. *)
Lemma fits_later cap now calls store key n t t' : ledger cap now calls (zget key store) -> t <= t' ->
  _would_fit_bucket store key n cap t = true -> (_charge_bucket store key n cap t').1 = true.
Proof.
  intros Hl Ht. unfold _would_fit_bucket, _charge_bucket. destruct (zget key store) as [b|]; cbn [ledger] in Hl.
  - destruct Hl. destruct (Z.leb_spec W (t - window_started_at b)), (Z.leb_spec W (t' - window_started_at b)); intros Hfit%Z.leb_le; try lia;
      (rewrite (proj2 (Z.ltb_ge _ _)); [done|cbn [tokens_used]; lia]).
  - intros Hfit%Z.leb_le. rewrite (proj2 (Z.ltb_ge _ _)); [done|]. cbn [tokens_used]. lia.
Qed.

(** ** Runs *)

Section budget.
Context `{TextOps} (str : value -> string) (bounded_text_hash : string -> string)
  (json_loads : string -> result value) (float_of_text : string -> option float) (config : HooksConfig).

Local Abbreviation step := (HookLlm.step str bounded_text_hash json_loads float_of_text config).
Local Abbreviation reach := (HookLlmRuns.reach str bounded_text_hash json_loads float_of_text config).
Local Abbreviation cap := (llm_max_tokens_per_namespace_per_hour config).

(** Every namespace's bucket agrees with its calls. *)
Definition books (now : Z) (w : LLMFilterEvaluator) (events : list event) : Prop :=
  forall ns, ledger cap now (calls_of ns events) (zget ns (_budgets w)).

Lemma calls_of_app ns events events' : calls_of ns (events ++ events') = calls_of ns events ++ calls_of ns events'.
Proof. apply omap_app. Qed.

Lemma books_charge now w events t ns sub total ok budgets subs : 0 < cap -> 0 <= total -> books now w events ->
  now <= t 0%nat <= t 1%nat -> t 1%nat <= t 2%nat <= t 3%nat ->
  _charge_budget config t ns sub total (_budgets w) (_subscription_budgets w) = (ok, budgets, subs) ->
  forall ns', ledger cap (t 3%nat) (calls_of ns' (events ++ if ok then [Call ns (t 3%nat) total] else [])) (zget ns' budgets).
Proof.
  intros Hcap Htotal Hb Ht01 Ht23. unfold _charge_budget. rewrite (proj2 (Z.ltb_lt 0 cap)) by done. cbn [andb].
  assert (Hsame : forall ns', ledger cap (t 3%nat) (calls_of ns' (events ++ [])) (zget ns' (_budgets w))).
  { intros ns'. rewrite app_nil_r. eapply ledger_mono; [|apply Hb]. lia. }
  destruct (_ && negb _); [by intros [= <- <- _]|].
  destruct (_would_fit_bucket (_budgets w) _ _ _ _) eqn:Hfit; cbn [negb].
  - pose proof (fits_later cap now _ _ _ _ (t 1%nat) (t 3%nat) (Hb ns) ltac:(lia) Hfit) as Hok.
    destruct (_charge_bucket (_budgets w) ns total cap (t 3%nat)) as [ok' store'] eqn:Hc. cbn [fst snd] in *. subst ok'.
    destruct (charge_accounts cap now _ _ _ _ (t 3%nat) _ _ ltac:(lia) (Hb ns) ltac:(lia) Htotal Hc) as (Hother & _ & Hcharged).
    intros [= <- <- _] ns'. rewrite calls_of_app. cbn. destruct (Z.eqb_spec ns ns') as [->|Hne]; [by apply Hcharged|].
    rewrite Hother by done. specialize (Hsame ns'). by rewrite calls_of_app in Hsame.
  - destruct (_charge_bucket (_budgets w) ns total cap (t 2%nat)) as [ok' store'] eqn:Hc. cbn [fst snd].
    destruct (charge_accounts cap now _ _ _ _ (t 2%nat) _ _ ltac:(lia) (Hb ns) ltac:(lia) Htotal Hc) as (Hother & Hkept & _).
    intros [= <- <- _] ns'. destruct (decide (ns' = ns)) as [->|Hne]; [|by rewrite Hother].
    rewrite app_nil_r. eapply ledger_mono; [|exact Hkept]. lia.
Qed.

(** Answers make no calls. *)
Lemma apply_results_calls ns now threshold groups results reps : forall idx cs c ok cs' c' events,
  apply_results str bounded_text_hash float_of_text config now threshold groups results idx reps cs c = (ok, cs', c', events) ->
  calls_of ns events = [].
Proof.
  induction reps as [|rep reps IH]; intros idx cs c ok cs' c' events; cbn [apply_results]; [by intros [= <- <- <- <-]|].
  destruct (zget _ results) as [entry|]; [|apply IH].
  destruct (decide_entry _ _ _); [|by intros [= <- <- <- <-]].
  destruct (apply_results _ _ _ _ _ _ _ _ _ _ _ _) as [[[ok1 cs1] c1] ev] eqn:Happ. intros [= <- <- <- <-]. exact (IH _ _ _ _ _ _ _ Happ).
Qed.

Lemma finish_bucket_books now a b pending items todo first w w' events :
  finish_bucket str bounded_text_hash json_loads float_of_text config now a b pending items todo first w = (w', events) ->
  _budgets w' = _budgets w /\ forall ns, calls_of ns events = [].
Proof.
  unfold finish_bucket. destruct a as [text| |]; [|by intros [= <- <-]..].
  destruct (_parse_response json_loads text); [|by intros [= <- <-]].
  destruct (coalesce _ _ _) as [reps groups]. destruct (apply_results _ _ _ _ _ _ _ _ _ _ _ _) as [[[[] cs] c] ev] eqn:Happ;
    intros [= <- <-]; (split; [done|]; intros ns; by eapply apply_results_calls).
Qed.

Lemma evaluate_budgets now e f w : _budgets (evaluate str bounded_text_hash config now e f w) = _budgets w.
Proof. unfold evaluate. destruct (_cache_lookup _ _ _ _ _ _ _) as [[d|] c]; [done|]. cbn [_queue with_callers]. by destruct (_ <=? _). Qed.

Lemma books_later now now' w w' events events' : now <= now' -> _budgets w' = _budgets w -> (forall ns, calls_of ns events' = []) ->
  books now w events -> books now' w' (events ++ events').
Proof. intros Hn Hw He Hb ns. rewrite calls_of_app, He, app_nil_r, Hw. eapply ledger_mono; [done|apply Hb]. Qed.

Lemma books_step now w events l now' w' events' : 0 < cap -> books now w events -> tick now l now' -> step l w = Some (w', events') ->
  books now' w' (events ++ events').
Proof.
  intros Hcap Hb Htick. destruct l as [t e f| |b t|b t a|i]; cbn [HookLlm.step tick] in *.
  - intros [= <- <-]. apply (books_later now now' w); [lia|apply evaluate_budgets|done|done].
  - destruct (_flush_task w); [|done]. intros [= <- <-]. apply (books_later now now' w); [done| |done|done].
    unfold _flush_after_delay. by destruct (_queue w).
  - destruct (_batches w !! b) as [[pending [|[|first items] todo] []]|]; try done. unfold charge_bucket.
    destruct (_charge_budget _ _ _ _ _ _ _) as [[ok budgets] subs] eqn:Hc. intros [= Hstep] ns.
    apply (books_charge now w events) with (ns' := ns) in Hc as Hl; [|done| |done|lia|lia].
    + destruct ok; injection Hstep as <- <-; (eapply ledger_mono; [|exact Hl]; lia).
    + unfold _estimate_input_tokens. lia.
  - destruct (_batches w !! b) as [[pending [|[|first items] todo] []]|]; try done. intros [= Hstep].
    apply finish_bucket_books in Hstep as [Hw He]. apply (books_later now now' w); [|done|done|done]. specialize (Htick 0%nat). lia.
  - destruct (callers w !! i) as [[e f []]|]; try done. intros [= <- <-]. by apply (books_later now now' w).
Qed.

Lemma reach_books now w events : 0 < cap -> reach now w events -> books now w events.
Proof. intros Hcap. induction 1; [by intros ns|by eapply books_step]. Qed.

(** C17.  The budget bounds what is spent.  Whatever the order of callers, flushes, batches and
    cancellations, the calls a namespace is charged for within any hour cost at most twice
    its cap, and those since its window was opened at most what the bucket says and its cap.
    (An hour can take the end of one window and the start of the next; the clock is read
    again between check and charge, and what fitted still fits.) *)
Theorem token_spend_bounded now w events ns : 0 < cap -> reach now w events ->
  (forall lo, spent (calls_of ns events) lo (lo + W) <= 2 * cap) /\
  forall b, zget ns (_budgets w) = Some b ->
    spent (calls_of ns events) (window_started_at b) (now + 1) <= tokens_used b <= cap.
Proof.
  intros Hcap Hr%reach_books; [|done]. specialize (Hr ns). split.
  - intros lo. destruct (zget ns (_budgets w)) as [b|]; cbn [ledger] in Hr; [by apply (acc_all _ _ _ _ Hr)|]. rewrite Hr. cbn. lia.
  - intros b Hb. rewrite Hb in Hr. destruct Hr. split; [|lia]. etransitivity; [|exact acc_used0].
    apply spent_within; [done|lia|]. eapply Forall_impl; [exact acc_times0|]. cbn. intros x; lia.
Qed.
End budget.
End HookLlmBudget.

(** ** Concrete runs *)

Local Open Scope string_scope.
Local Open Scope list_scope.
Local Open Scope Z_scope.

Module HookLlmSamples.
Import Entities.Entities UnifySamples.UnifySamples(ascii_text, f_half) HookLlm.HookLlm HookLlmRuns.HookLlmRuns HookLlmBudget.

#[local] Existing Instance ascii_text.

Definition str (v : value) : string := match v with VStr s => s | _ => "" end.

(** A hash without collisions: what collides below does so before it. *)
Definition hash (s : string) : string := s.

(** A model that knows three answers, and one with a malformed confidence. *)
Definition reply (m : value) : value := VDict [("results", VList [VDict [("i", VInt 0); ("match", m); ("confidence", VInt 1)]])].
Definition loads (s : string) : result value :=
  if String.eqb s "yes" then Ok (reply (VBool true))
  else if String.eqb s "no" then Ok (reply (VBool false))
  else if String.eqb s "quoted" then Ok (reply (VStr "false"))
  else if String.eqb s "broken" then Ok (VDict [("results", VList [VDict [("i", VInt 0); ("match", VBool true); ("confidence", VStr "high")]])])
  else Err ValueError.

Definition floats (s : string) : option SpecFloat.spec_float := None.

Definition settings (size cap : Z) : HooksConfig := MkConfig size cap 0 8 0.

Definition filt (i : Z) : SemanticFilter := MkFilter i "" "" [] [] [] [] None [] [] None f_half f_half None None.
Definition event_of (etype name description : string) : MemoryEvent :=
  MkEvent 7 "" "" [("entity_type", VStr etype); ("name", VStr name); ("description", VStr description)] None.

Definition run (config : HooksConfig) (ls : list label) : option (LLMFilterEvaluator * list event) :=
  exec str hash loads floats config ls new_evaluator.
Definition final (config : HooksConfig) (ls : list label) : LLMFilterEvaluator := default new_evaluator (fst <$> run config ls).
Definition events_of (config : HooksConfig) (ls : list label) : list event := default [] (snd <$> run config ls).
Definition decisions (config : HooksConfig) (ls : list label) : list status := c_status <$> callers (final config ls).

Definition at_ (t : Z) : nat -> Z := fun _ => t.

Abbreviation reached := (reach str hash loads floats).

(** Runs from the start are reached. *)
Lemma run_reached config ls now now' w events : timed now ls now' -> run config ls.*1 = Some (w, events) -> reached config now' w events.
Proof. intros Ht Hr. apply (reach_exec str hash loads floats config ls now now' new_evaluator w [] events (reach_start _ _ _ _ _ now) Ht Hr). Qed.

(** ** Witnesses *)

(** Two callers of one filter: one batch, one call; the model answers for the first only. *)
Definition two_callers : list (label * Z) :=
  [(Enter 1 (event_of "P" "ann" "") (filt 1), 1); (Enter 2 (event_of "P" "bob" "") (filt 1), 2)].
Definition one_no : list (label * Z) :=
  two_callers ++ [(Charge 0 (at_ 3), 3); (Answer 0 (at_ 4) (Answered "no"), 4)].

Lemma no_caller_stranded_witness :
  let config := settings 10 1000 in
  let w := final config two_callers.*1 in
  let ls := [Flush; Charge 0 (at_ 3); Answer 0 (at_ 4) TimedOut] in
  (length ls <= work w)%nat /\
  forall w' events', exec str hash loads floats config ls w = Some (w', events') ->
    (forall l, internal l -> step str hash loads floats config l w' = None) ->
    forall i c, callers w' !! i = Some c -> c_status c <> Waiting.
Proof.
  cbv zeta.
  assert (Hr : reached (settings 10 1000) 2 (final (settings 10 1000) two_callers.*1) [])
    by (apply (run_reached _ two_callers 0); [cbn; lia|vm_compute; reflexivity]).
  assert (Hi : Forall internal [Flush; Charge 0 (at_ 3); Answer 0 (at_ 4) TimedOut]) by (repeat constructor).
  split.
  - destruct (exec str hash loads floats (settings 10 1000) [Flush; Charge 0 (at_ 3); Answer 0 (at_ 4) TimedOut]
      (final (settings 10 1000) two_callers.*1)) as [[w' ev]|] eqn:He; [|by vm_compute in He].
    exact (proj1 (no_caller_stranded str hash loads floats (settings 10 1000) 2 _ [] _ w' ev Hr Hi He)).
  - intros w' events' He. exact (proj2 (no_caller_stranded str hash loads floats (settings 10 1000) 2 _ [] _ w' events' Hr Hi He)).
Defined.

Lemma only_the_model_rejects_witness :
  let config := settings 2 1000 in
  decisions config one_no.*1 = [Done false; Done true] /\
  Verdict 1 (_event_summary_hash str hash (event_of "P" "ann" "")) false ∈ events_of config one_no.*1.
Proof.
  cbv zeta. split; [vm_compute; reflexivity|].
  apply (only_the_model_rejects str hash loads floats (settings 2 1000) 4 (final (settings 2 1000) one_no.*1)
    (events_of (settings 2 1000) one_no.*1) 0 (MkCaller (event_of "P" "ann" "") (filt 1) (Done false))).
  - apply (run_reached _ one_no 0); [cbn; unfold at_; repeat split; lia|vm_compute; reflexivity].
  - vm_compute. reflexivity.
  - reflexivity.
Defined.

(** ** Budgets *)

(** A caller asks, and the model answers, at one time; batches of one. *)
Definition ask (b : nat) (t : Z) (name : string) : list (label * Z) :=
  [(Enter t (event_of "P" name "") (filt 1), t); (Charge b (at_ t), t); (Answer b (at_ t) (Answered "yes"), t)].

(** Under a cap of 300 - a call costs 126 or so -, one call opens a window, one comes at its
    end, and two right after it. *)
Definition straddle : list (label * Z) :=
  ask 0 0 "ann" ++ ask 1 (_BUDGET_WINDOW - 1) "bob" ++ ask 2 _BUDGET_WINDOW "cas" ++ ask 3 (_BUDGET_WINDOW + 1) "dee".

Lemma straddle_reached : reached (settings 1 300) (_BUDGET_WINDOW + 1) (final (settings 1 300) straddle.*1) (events_of (settings 1 300) straddle.*1).
Proof. apply (run_reached _ straddle 0); [vm_compute; by repeat split|vm_compute; reflexivity]. Qed.

Lemma token_spend_bounded_witness :
  0 < 300 /\ spent (calls_of 7 (events_of (settings 1 300) straddle.*1)) 1 (1 + _BUDGET_WINDOW) <= 2 * 300.
Proof.
  split; [lia|]. refine (proj1 (token_spend_bounded str hash loads floats (settings 1 300) (_BUDGET_WINDOW + 1)
    (final (settings 1 300) straddle.*1) _ 7 _ straddle_reached) 1). vm_compute. reflexivity.
Defined.

(** The cap itself is not a bound of every hour: three calls within three units cost more. *)
Example rolling_hour_exceeds_cap :
  300 < spent (calls_of 7 (events_of (settings 1 300) straddle.*1)) (_BUDGET_WINDOW - 1) (_BUDGET_WINDOW + 2).
Proof. vm_compute. reflexivity. Qed.

(** ** Traces *)

(** Two events whose fields differ where the separator moves share one answer: the second is
    never shown to the model. *)
Example separator_collides :
  let config := settings 2 1000 in
  let ls := [Enter 1 (event_of "P" "x|y" "z") (filt 1); Enter 2 (event_of "P" "x" "y|z") (filt 1);
             Charge 0 (at_ 3); Answer 0 (at_ 4) (Answered "no")] in
  _event_summary_hash str hash (event_of "P" "x|y" "z") = _event_summary_hash str hash (event_of "P" "x" "y|z") /\
  decisions config ls = [Done false; Done false].
Proof. vm_compute. by split. Qed.

(** A match of ["false"] is a match. *)
Example quoted_false_matches :
  decisions (settings 1 1000) [Enter 1 (event_of "P" "ann" "") (filt 1); Charge 0 (at_ 2); Answer 0 (at_ 3) (Answered "quoted")] = [Done true].
Proof. vm_compute. reflexivity. Qed.

(** A confidence that is no number ends the batch: the bucket of another filter is answered
    yes unasked. *)
Example malformed_confidence_ends_batch :
  let config := settings 2 1000 in
  let ls := [Enter 1 (event_of "P" "ann" "") (filt 1); Enter 1 (event_of "P" "ann" "") (filt 2);
             Charge 0 (at_ 2); Answer 0 (at_ 3) (Answered "broken")] in
  decisions config ls = [Done true; Done true] /\ run config (ls ++ [Charge 0 (at_ 4)]) = None.
Proof. vm_compute. by split. Qed.

(** The cached answer of a filter is given without a call, and only for that filter. *)
Example cached_no :
  decisions (settings 1 1000) ((ask 0 1 "ann").*1 ++ [Enter 2 (event_of "P" "ann" "") (filt 1); Enter 3 (event_of "P" "ann" "") (filt 2)])
  = [Done true; Done true; Waiting].
Proof. vm_compute. reflexivity. Qed.

(** A rejected call still opens a bucket. *)
Example rejection_opens_bucket :
  let w := final (settings 1 10) (take 2 (ask 0 1 "ann")).*1 in
  callers w = [MkCaller (event_of "P" "ann" "") (filt 1) (Done true)] /\ _budgets w = [(7, MkBudget 0 1 true)].
Proof. vm_compute. by split. Qed.
End HookLlmSamples.
