(* ===== verification/DreamReconcile.v ===== *)
(** Contradictions between relationships: their detection
    ([dream/engines/vectorcypher/contradiction_detect.py]), the two judges that a flagged pair
    is put before, and the handler that retires the loser
    ([dream/engines/vectorcypher/contradiction_reconcile.py]).

    The completion API, pydantic's validation of a verdict, [difflib]'s ratio and the digest of
    a text are arguments.  The triage table is keyed by its unique constraint; of its columns'
    types the check that a UUID is not NULL is modelled. *)
From Stdlib Require Import SpecFloat.
From S2P Require Import Prelude PyValue FilterAst FilterPython ReplaceMirror RankFusion Scoring Entities EntityIndex Unify HookLlm DreamMirror.

Local Open Scope string_scope.
Local Open Scope list_scope.
Local Open Scope Z_scope.

Module DreamReconcile.
Import Entities.Entities(TextOps, strip, hashable) EntityIndex.EntityIndex(push) Unify.Unify(all_pairs) HookLlm.HookLlm(py_float).

(** ** Data *)

(** The fields of [Relationship] the planners read; a NULL description is empty. *)
Record Relationship := MkRel {
  r_id : Z;
  r_source : Z;
  r_target : Z;
  r_type : string;
  r_description : string;
  r_properties : list (string * value);
  r_documents : list Z;
  r_chunks : list Z;
  r_valid_until : option datetime;
  r_confidence : pyfloat;
}.

Record ReconcileVerdict := MkVerdict {
  decision : string; loser : string; confidence : float; evidence_ids : list string; rationale : string }.

Record JudgeOutcome := MkOutcome {
  o_decision : string;
  o_loser : option string;
  verifier_verdict : option ReconcileVerdict;
  auditor_verdict : option ReconcileVerdict;
  o_rationale : string;
}.

(** The fields of [DreamConfig] the judges read. *)
Record JudgeConfig := MkJudges {
  contradiction_reconcile_model : string;
  contradiction_reconcile_auditor_model : string;
  contradiction_reconcile_min_confidence : float;
}.

(** What a completion ends in. *)
Inductive reply := Text (raw : string) | TimedOut | Raised.

(** A row of [dream_conflicts], by namespace and pair. *)
Record Conflict := MkConflict {
  cf_id : Z;
  cf_source : Z;
  cf_target : Z;
  cf_type : value;
  cf_similarity : float;
  cf_keys : list value;
  cf_reason : value;
  cf_hash_a : value;
  cf_hash_b : value;
  cf_detected_by : Z;
  cf_valid_from : datetime;
  cf_resolution : string;
  cf_loser : option Z;
  cf_winner : option Z;
  cf_rationale_hash : option string;
  cf_resolved_by : option Z;
  cf_resolved_at : option datetime;
}.

Abbreviation Conflicts := (gmap (Z * Z * Z) Conflict).

Section reconcile.
Context `{TextOps} (uuid_str : Z -> string) (parse_uuid : string -> option Z) (str_other : value -> string).
Context (bounded_text_hash : string -> string) (ratio : string -> string -> pyfloat).

(** ** Detection *)

Definition _is_live (r : Relationship) : bool := bool_decide (r_valid_until r = None).

Definition _comparable_text (r : Relationship) : string :=
  str_join " | " (r_description r ::
    List.map (fun kv => kv.1 +:+ "=" +:+ py_str str_other kv.2) (sort_by fst (r_properties r))).

Definition _text_similarity (a b : Relationship) : pyfloat :=
  let text_a := _comparable_text a in
  let text_b := _comparable_text b in
  if String.eqb text_a "" && String.eqb text_b "" then FFin 1 0 else ratio text_a text_b.

Definition _contradicting_property_keys (a b : Relationship) : list string :=
  sort_by (fun k => k) (List.filter (fun k =>
    match dict_get k (r_properties a), dict_get k (r_properties b) with
    | Some x, Some y => negb (String.eqb (py_str str_other x) (py_str str_other y))
    | _, _ => false
    end) (keys (r_properties a))).

(** [(a, b) if str(a.id) < str(b.id) else (b, a)] *)
Definition canonical_pair (a b : Relationship) : Relationship * Relationship :=
  if String.ltb (uuid_str (r_id a)) (uuid_str (r_id b)) then (a, b) else (b, a).

Definition reason_of (low_sim has_contra : bool) : string :=
  if low_sim && has_contra then "both" else if low_sim then "low_similarity" else "property_contradiction".

Definition finding_of (a b : Relationship) (similarity : pyfloat) (contradicting_keys : list string) (reason : string)
    : list (string * value) :=
  [("relationship_a_id", VUuid uuid_str (r_id a)); ("relationship_b_id", VUuid uuid_str (r_id b));
   ("source_entity_id", VUuid uuid_str (r_source a)); ("target_entity_id", VUuid uuid_str (r_target a));
   ("relationship_type", VStr (r_type a)); ("similarity", VFloat similarity);
   ("contradicting_keys", VList (List.map VStr contradicting_keys)); ("reason", VStr reason);
   ("description_a_hash", VStr (bounded_text_hash (r_description a)));
   ("description_b_hash", VStr (bounded_text_hash (r_description b)))].

(** One pair of a bucket, with the relationships of the finding in their order. *)
Definition contradiction (threshold : pyfloat) (p : Relationship * Relationship)
    : option (Relationship * Relationship * list (string * value)) :=
  let '(a, b) := p in
  let similarity := _text_similarity a b in
  let contradicting_keys := _contradicting_property_keys a b in
  let low_sim := num_cmp CLt similarity threshold in
  let has_contra := match contradicting_keys with [] => false | _ => true end in
  if negb (low_sim || has_contra) then None
  else
    let '(rel_a, rel_b) := canonical_pair a b in
    Some (rel_a, rel_b, finding_of rel_a rel_b similarity contradicting_keys (reason_of low_sim has_contra)).

Definition _find_contradictions (bucket : list Relationship) (threshold : pyfloat)
    : list (Relationship * Relationship * list (string * value)) :=
  omap (contradiction threshold) (all_pairs bucket).

Definition bucket_key (r : Relationship) : Z * Z * string := (r_source r, r_target r, r_type r).

Definition buckets_of (live : list Relationship) : list (list Relationship) :=
  (foldl (fun d r => push (bucket_key r) r d) [] live).*2.

(** Buckets of one relationship have no pair. *)
Definition flagged (relationships : list Relationship) (threshold : pyfloat)
    : list (Relationship * Relationship * list (string * value)) :=
  let live := List.filter _is_live relationships in
  List.concat (List.map (fun bucket =>
    if Nat.ltb (length bucket) 2 then [] else _find_contradictions bucket threshold) (buckets_of live)).

(** [by_id[...]]: the last relationship of an id. *)
Definition by_id (relationships : list Relationship) (i : string) : option Relationship :=
  List.find (fun r => String.eqb (uuid_str (r_id r)) i) (rev relationships).

Definition _id_strs (l : list Z) : value := VList (List.map (VUuid uuid_str) l).

Definition confidence_of (r : option Relationship) : value := match r with Some r => VFloat (r_confidence r) | None => VNone end.
Definition description_of (r : option Relationship) : value := VStr (match r with Some r => r_description r | None => "" end).
Definition chunks_of (r : option Relationship) : value := _id_strs (match r with Some r => r_chunks r | None => [] end).
Definition documents_of (r : option Relationship) : value := _id_strs (match r with Some r => r_documents r | None => [] end).

Definition _enrich_finding (relationships : list Relationship) (finding : list (string * value)) : list (string * value) :=
  let get key := match dict_get key finding with Some (VStr s) => by_id relationships s | _ => None end in
  let rel_a := get "relationship_a_id" in
  let rel_b := get "relationship_b_id" in
  finding ++
  [("a_confidence", confidence_of rel_a); ("b_confidence", confidence_of rel_b);
   ("a_description", description_of rel_a); ("b_description", description_of rel_b);
   ("a_source_chunk_ids", chunks_of rel_a); ("b_source_chunk_ids", chunks_of rel_b);
   ("a_source_document_ids", documents_of rel_a); ("b_source_document_ids", documents_of rel_b)].

(** [_list_relationships_for_detection]: the rows of the vector backend when it is wired - of
    the resolved namespace, or of the given one when resolving raises. *)
Definition _list_relationships_for_detection (vector : option (Z -> list Relationship))
    (resolver : option (Z -> result Z)) (graph : Z -> list Relationship) (ns : Z) : list Relationship :=
  match vector with
  | Some rows =>
      rows (match resolver with Some f => match f ns with Ok row_ns => row_ns | Err _ => ns end | None => ns end)
  | None => graph ns
  end.

Definition plan_vectorcypher_contradiction_reconcile (op_id ns : Z) (relationships : list Relationship)
    (threshold : pyfloat) : DreamOp :=
  MkOp op_id CONTRADICTION_RECONCILE
    [VDict [("namespace_id", VUuid uuid_str ns); ("similarity_threshold", VFloat threshold);
            ("total_relationships", VInt (Z.of_nat (length relationships)));
            ("live_relationships", VInt (Z.of_nat (length (List.filter _is_live relationships))))]]
    (List.map (fun f => VDict (_enrich_finding relationships f.2)) (flagged relationships threshold))
    "planned".

Definition CONTRADICTION_DETECT : string := "vectorcypher_contradiction_detect".

Definition plan_vectorcypher_contradiction_detect (op_id ns : Z) (relationships : list Relationship)
    (threshold : pyfloat) : DreamOp :=
  MkOp op_id CONTRADICTION_DETECT
    [VDict [("namespace_id", VUuid uuid_str ns); ("similarity_threshold", VFloat threshold);
            ("total_relationships", VInt (Z.of_nat (length relationships)));
            ("live_relationships", VInt (Z.of_nat (length (List.filter _is_live relationships))))]]
    (List.map (fun f => VDict f.2) (flagged relationships threshold))
    "audit_complete".

(** ** The judges *)

Context (json_loads : string -> result value) (model_validate : value -> option ReconcileVerdict).
Context (py_repr : string -> string) (fixed4 : float -> string) (float_of_text : string -> option float).
Context (acompletion : string -> string -> reply) (config : JudgeConfig).

(** [", ".join(finding.get(key) or [])] *)
Definition joined (finding : value) (key : string) : result string :=
  l ← items finding key;
  texts ← map_m (fun v => match v with VStr s => Ok s | _ => Err TypeError end) l;
  Ok (str_join ", " texts).

Definition or_none (s : string) : string := if String.eqb s "" then "(none)" else s.

(** [f"{finding.get(key)}"], [f"{finding.get(key) or '(empty)'}"] and [f"{finding[key]}"] *)
Definition shown (finding : value) (key : string) : result string := v ← attr_get finding key; Ok (py_str str_other v).
Definition shown_or_empty (finding : value) (key : string) : result string :=
  v ← attr_get finding key; Ok (if truthy v then py_str str_other v else "(empty)").
Definition shown_item (finding : value) (key : string) : result string := v ← subscript finding key; Ok (py_str str_other v).

Definition newline : string := String (Ascii.ascii_of_nat 10) "".
Definition line (s : string) : string := s +:+ newline.

Definition _build_user_prompt (finding : value) : result string :=
  a_chunks ← joined finding "a_source_chunk_ids";
  a_docs ← joined finding "a_source_document_ids";
  b_chunks ← joined finding "b_source_chunk_ids";
  b_docs ← joined finding "b_source_document_ids";
  rel_type ← shown_item finding "relationship_type";
  sv ← subscript finding "similarity";
  similarity ← py_float float_of_text sv;
  contradicting ← joined finding "contradicting_keys";
  a_id ← shown_item finding "relationship_a_id";
  a_confidence ← shown finding "a_confidence";
  a_description ← shown_or_empty finding "a_description";
  b_id ← shown_item finding "relationship_b_id";
  b_confidence ← shown finding "b_confidence";
  b_description ← shown_or_empty finding "b_description";
  Ok (line ("Relationship type: " +:+ rel_type) +:+ line ("Pairwise textual similarity: " +:+ fixed4 similarity)
    +:+ line ("Contradicting property keys: " +:+ or_none contradicting) +:+ newline
    +:+ line ("Record A (id=" +:+ a_id +:+ ", confidence=" +:+ a_confidence +:+ "):")
    +:+ line ("  description: " +:+ a_description) +:+ line ("  source chunk ids: " +:+ or_none a_chunks)
    +:+ line ("  source document ids: " +:+ or_none a_docs) +:+ newline
    +:+ line ("Record B (id=" +:+ b_id +:+ ", confidence=" +:+ b_confidence +:+ "):")
    +:+ line ("  description: " +:+ b_description) +:+ line ("  source chunk ids: " +:+ or_none b_chunks)
    +:+ line ("  source document ids: " +:+ or_none b_docs) +:+ newline +:+ "Return the JSON verdict now.").

Definition fence : string := "```".

(** The group of [_FENCE_RE], stripped; a text it does not match is left as it is. *)
Definition unfenced (s : string) : string :=
  let n := String.length s in
  if String.prefix fence s && Nat.leb 6 n && String.eqb (String.substring (n - 3) 3 s) fence then
    let inner := String.substring 3 (n - 6) s in
    strip (if String.prefix "json" inner then String.substring 4 (String.length inner - 4) inner else inner)
  else s.

Definition _parse_verdict (raw : string) : result (option ReconcileVerdict) :=
  if String.eqb raw "" then Ok None
  else
    match json_loads (unfenced (strip raw)) with
    | Err ValueError => Ok None
    | Err x => Err x
    | Ok payload => Ok (model_validate payload)
    end.

Definition _ask_one_judge (finding : value) (model : string) : result (option ReconcileVerdict) :=
  user_prompt ← _build_user_prompt finding;
  match acompletion model user_prompt with
  | TimedOut | Raised => Ok None
  | Text raw => _parse_verdict raw
  end.

Definition _grounded (verdict : ReconcileVerdict) (allowed_ids : list value) : bool :=
  existsb (fun eid => existsb (py_eq (VStr eid)) allowed_ids) (evidence_ids verdict).

Definition _combine_verdicts (verifier auditor : option ReconcileVerdict) (min_confidence : float)
    (allowed_ids : list value) : string * option string * string :=
  match verifier, auditor with
  | Some v, Some a =>
      if String.eqb (decision v) "invalidate" && String.eqb (decision a) "invalidate" then
        if negb (String.eqb (loser v) (loser a)) || negb (mem_str (loser v) ["a"; "b"]) then
          ("defer", None, "judges disagree on loser (verifier=" +:+ py_repr (loser v) +:+ ", auditor=" +:+ py_repr (loser a) +:+ ")")
        else if negb (SFleb min_confidence (confidence v) && SFleb min_confidence (confidence a)) then
          ("defer", None, "both judges said invalidate but confidence below floor")
        else if negb (_grounded v allowed_ids && _grounded a allowed_ids) then
          ("defer", None, "judge verdict not grounded in the candidate pair's source ids")
        else ("invalidate", Some (loser v), "both judges agreed: invalidate (grounded)")
      else if String.eqb (decision v) "keep" && String.eqb (decision a) "keep" then
        ("keep", None, "both judges agreed: keep")
      else ("defer", None, "judges disagree (verifier=" +:+ decision v +:+ ", auditor=" +:+ decision a +:+ ")")
  | _, _ => ("defer", None, "one or both judges returned no parseable verdict")
  end.

(** The set of the source ids a verdict may cite. *)
Definition allowed_ids (finding : value) : result (list value) :=
  a_chunks ← items finding "a_source_chunk_ids";
  a_docs ← items finding "a_source_document_ids";
  b_chunks ← items finding "b_source_chunk_ids";
  b_docs ← items finding "b_source_document_ids";
  let all := a_chunks ++ a_docs ++ b_chunks ++ b_docs in
  if forallb hashable all then Ok all else Err TypeError.

Definition run_contradiction_judge (finding : value) : result JudgeOutcome :=
  allowed ← allowed_ids finding;
  verifier ← _ask_one_judge finding (contradiction_reconcile_model config);
  auditor ← _ask_one_judge finding (contradiction_reconcile_auditor_model config);
  let '(decision, loser, rationale) :=
    _combine_verdicts verifier auditor (contradiction_reconcile_min_confidence config) allowed in
  Ok (MkOutcome decision loser verifier auditor rationale).

(** ** The handlers *)

Context (uuid4 : nat -> Z).

Local Abbreviation coerce := (_coerce_uuid parse_uuid str_other).

(** A UUID for a column that must not be NULL. *)
Definition not_null (v : option Z) : result Z := match v with Some u => Ok u | None => Err (OtherError "IntegrityError") end.

(** [_coerce_uuid(op.namespace_id) or _coerce_uuid((op.inputs[0] if op.inputs else {}).get("namespace_id"))],
    where [op_ns] is [op.namespace_id]. *)
Definition namespace_of (op_ns : option Z) (op : DreamOp) : result (option Z) :=
  match op_ns with
  | Some ns => Ok (Some ns)
  | None => v ← attr_get (match op_inputs op with x :: _ => x | [] => VDict [] end) "namespace_id"; Ok (coerce v)
  end.

(** The row a finding is first stored as, with its key. *)
Definition conflict_row (op_id : Z) (ns : option Z) (now : datetime) (finding : value) (row_id : Z)
    : result ((Z * Z * Z) * Conflict) :=
  av ← subscript finding "relationship_a_id";
  bv ← subscript finding "relationship_b_id";
  sv ← subscript finding "source_entity_id";
  tv ← subscript finding "target_entity_id";
  rel_type ← subscript finding "relationship_type";
  simv ← subscript finding "similarity";
  similarity ← py_float float_of_text simv;
  contradicting_keys ← items finding "contradicting_keys";
  reason ← subscript finding "reason";
  hash_a ← subscript finding "description_a_hash";
  hash_b ← subscript finding "description_b_hash";
  ns ← not_null ns;
  a ← not_null (coerce av);
  b ← not_null (coerce bv);
  src ← not_null (coerce sv);
  tgt ← not_null (coerce tv);
  Ok ((ns, a, b), MkConflict row_id src tgt rel_type similarity contradicting_keys reason hash_a hash_b op_id now
                    "detected" None None None None None).

(** [INSERT ... ON CONFLICT DO NOTHING] *)
Definition insert_finding (key : Z * Z * Z) (row : Conflict) (conflicts : Conflicts) : Conflicts :=
  match conflicts !! key with Some _ => conflicts | None => <[key := row]> conflicts end.

Definition detect_finding (op_id : Z) (ns : option Z) (now : datetime) (st : Conflicts * list value) (finding : value)
    : result (Conflicts * list value) :=
  let '(conflicts, undo_entries) := st in
  let finding_id := uuid4 (length undo_entries) in
  '(key, row) ← conflict_row op_id ns now finding finding_id;
  av ← subscript finding "relationship_a_id";
  bv ← subscript finding "relationship_b_id";
  Ok (insert_finding key row conflicts,
      undo_entries ++ [VDict [("finding_id", VUuid uuid_str finding_id); ("relationship_a_id", av); ("relationship_b_id", bv)]]).

Definition apply_vectorcypher_contradiction_detect (op_ns : option Z) (op : DreamOp) (now : datetime) (conflicts : Conflicts)
    : result (UndoRecord * Conflicts) :=
  match op_outputs op with
  | [] => Ok (MkUndo (op_id op) CONTRADICTION_DETECT [("findings", VList [])] now, conflicts)
  | findings =>
      ns ← namespace_of op_ns op;
      '(conflicts, undo_entries) ← fold_r (detect_finding (op_id op) ns now) (conflicts, []) findings;
      Ok (MkUndo (op_id op) CONTRADICTION_DETECT [("findings", VList undo_entries)] now, conflicts)
  end.

Definition _resolve_loser_winner (finding : value) (outcome : JudgeOutcome) : result (option Z * option Z) :=
  if negb (String.eqb (o_decision outcome) "invalidate") then Ok (None, None)
  else
    av ← subscript finding "relationship_a_id";
    bv ← subscript finding "relationship_b_id";
    let a_id := coerce av in
    let b_id := coerce bv in
    if bool_decide (o_loser outcome = Some "a") then Ok (a_id, b_id)
    else if bool_decide (o_loser outcome = Some "b") then Ok (b_id, a_id)
    else
      a_conf ← attr_get finding "a_confidence";
      b_conf ← attr_get finding "b_confidence";
      lower ← match a_conf, b_conf with VNone, _ | _, VNone => Ok false | _, _ => py_cmp CLt a_conf b_conf end;
      Ok (if lower : bool then (a_id, b_id) else (b_id, a_id)).

Definition _resolution_label (decision : string) : string :=
  if String.eqb decision "invalidate" then "invalidated" else if String.eqb decision "keep" then "kept" else "deferred".

Definition _rationale_material (outcome : JudgeOutcome) : string :=
  let text v := match v with Some v => rationale v | None => "" end in
  let parts := List.filter (fun p => negb (String.eqb p "")) [text (verifier_verdict outcome); text (auditor_verdict outcome)] in
  let material := str_join newline parts in
  if String.eqb material "" then o_rationale outcome else material.

(** [UPDATE relationships SET valid_to = :ts, updated_at = :ts WHERE id = :rid AND valid_to IS
    NULL], and its row count. *)
Definition soft_delete (now : datetime) (i : Z) (db : Db) : bool * Db :=
  match relationships db !! i with
  | Some row => match rel_valid_to row with None => (true, update_relationship (prune now) i db) | Some _ => (false, db) end
  | None => (false, db)
  end.

Definition upsert_conflict (key : Z * Z * Z) (row : Conflict) (conflicts : Conflicts) : Conflicts :=
  partial_alter (fun old => Some match old with
    | None => row
    | Some old => MkConflict (cf_id old) (cf_source old) (cf_target old) (cf_type old) (cf_similarity old) (cf_keys old)
        (cf_reason old) (cf_hash_a old) (cf_hash_b old) (cf_detected_by old) (cf_valid_from old)
        (cf_resolution row) (cf_loser row) (cf_winner row) (cf_rationale_hash row) (cf_resolved_by row) (cf_resolved_at row)
    end) key conflicts.

(** The tables, and the lists the undo record is made of. *)
Record Applied := MkApplied {
  ap_db : Db; ap_conflicts : Conflicts; invalidated : list value; triage : list value; skip_reasons : list value }.

Definition skip_reason (finding : value) (outcome : JudgeOutcome) : result value :=
  av ← subscript finding "relationship_a_id";
  bv ← subscript finding "relationship_b_id";
  Ok (VDict [("op_kind", VStr CONTRADICTION_RECONCILE); ("reason", VStr ("reconcile_" +:+ o_decision outcome));
             ("detail", VStr (o_rationale outcome)); ("relationship_a_id", av); ("relationship_b_id", bv)]).

Definition upsert_triage (op_id : Z) (ns : option Z) (now : datetime) (finding : value) (outcome : JudgeOutcome)
    (loser_id winner_id : option Z) (n : nat) (conflicts : Conflicts) : result Conflicts :=
  let resolution := _resolution_label (o_decision outcome) in
  '(key, row) ← conflict_row op_id ns now finding (uuid4 n);
  let agreed := String.eqb resolution "invalidated" in
  Ok (upsert_conflict key
        (MkConflict (cf_id row) (cf_source row) (cf_target row) (cf_type row) (cf_similarity row) (cf_keys row) (cf_reason row)
           (cf_hash_a row) (cf_hash_b row) (cf_detected_by row) (cf_valid_from row) resolution
           (if agreed then loser_id else None) (if agreed then winner_id else None)
           (Some (bounded_text_hash (_rationale_material outcome))) (Some op_id) (Some now)) conflicts).

Definition triage_entry (finding : value) (resolution : string) : result value :=
  av ← subscript finding "relationship_a_id";
  bv ← subscript finding "relationship_b_id";
  Ok (VDict [("relationship_a_id", av); ("relationship_b_id", bv); ("resolution", VStr resolution)]).

(** The body of the loop over the findings. *)
Definition apply_finding (op_id : Z) (ns : option Z) (now : datetime) (st : Applied) (finding : value) : result Applied :=
  let '(MkApplied db conflicts invalidated triage skip_reasons) := st in
  outcome ← run_contradiction_judge finding;
  '(loser_id, winner_id) ← _resolve_loser_winner finding outcome;
  '(db, invalidated, skip_reasons) ←
    match String.eqb (o_decision outcome) "invalidate", loser_id with
    | true, Some i =>
        let '(found, db) := soft_delete now i db in
        Ok (db, if found : bool then invalidated ++ [VDict [("relationship_id", VUuid uuid_str i)]] else invalidated, skip_reasons)
    | _, _ => skip ← skip_reason finding outcome; Ok (db, invalidated, skip_reasons ++ [skip])
    end;
  conflicts ← upsert_triage op_id ns now finding outcome loser_id winner_id (length triage) conflicts;
  entry ← triage_entry finding (_resolution_label (o_decision outcome));
  Ok (MkApplied db conflicts invalidated (triage ++ [entry]) skip_reasons).

Definition apply_vectorcypher_contradiction_reconcile (op_ns : option Z) (op : DreamOp) (now : datetime)
    (db : Db) (conflicts : Conflicts) : result (UndoRecord * Db * Conflicts) :=
  ns ← namespace_of op_ns op;
  st ← fold_r (apply_finding (op_id op) ns now) (MkApplied db conflicts [] [] []) (op_outputs op);
  let before := [("relationships", VList (invalidated st)); ("triage", VList (triage st))] in
  let before := match skip_reasons st with [] => before | l => before ++ [("skip_reasons", VList l)] end in
  Ok (MkUndo (op_id op) CONTRADICTION_RECONCILE before now, ap_db st, ap_conflicts st).
End reconcile.
End DreamReconcile.
