(* ===== verification/DreamReconcileFacts.v ===== *)
(** Facts about contradiction reconciliation: which pairs are flagged, that exactly the
    losers both judges agree on are retired, that every finding leaves a triage row, that a
    planned operation applies, and what the handler promises the orchestrator. *)
From Stdlib Require Import SpecFloat.
From S2P Require Import Prelude PyValue FilterAst FilterPython ReplaceMirror RankFusion RankFusionFacts Scoring Entities EntityIndex EntityIndexFacts Unify UnifyFacts HookLlm HookLlmFacts DreamMirror DreamMirrorFacts DreamReconcile.

Local Open Scope string_scope.
Local Open Scope list_scope.
Local Open Scope Z_scope.

Module DreamReconcileFacts.
Import Entities.Entities(TextOps, hashable) EntityIndex.EntityIndex(push) Unify.Unify(all_pairs) UnifyFacts.UnifyFacts DreamReconcile.DreamReconcile.
Import HookLlmFacts.HookLlmFacts(grouped_row, elem_of_grouped, group_covers, grouped_NoDup).

Section facts.
Context `{TextOps} (uuid_str : Z -> string) (parse_uuid : string -> option Z) (str_other : value -> string).
Context (bounded_text_hash : string -> string).
Context (json_loads : string -> result value) (model_validate : value -> option ReconcileVerdict).
Context (py_repr : string -> string) (fixed4 : float -> string) (float_of_text : string -> option float).
Context (acompletion : string -> string -> reply) (config : JudgeConfig) (uuid4 : nat -> Z).

Local Abbreviation coerce := (_coerce_uuid parse_uuid str_other).
Local Abbreviation ask := (_ask_one_judge str_other json_loads model_validate fixed4 float_of_text acompletion).
Local Abbreviation judge := (run_contradiction_judge str_other json_loads model_validate py_repr fixed4 float_of_text acompletion config).
Local Abbreviation apply_finding := (apply_finding uuid_str parse_uuid str_other bounded_text_hash json_loads model_validate
  py_repr fixed4 float_of_text acompletion config uuid4).
Local Abbreviation apply_reconcile := (apply_vectorcypher_contradiction_reconcile uuid_str parse_uuid str_other bounded_text_hash
  json_loads model_validate py_repr fixed4 float_of_text acompletion config uuid4).

(** ** The judges *)

(** Both judges answer that the same side loses, both are sure enough, and both cite a source
    of the pair. *)
Definition agree_on (finding : value) (side : string) : Prop :=
  exists allowed v a,
    allowed_ids finding = Ok allowed /\
    ask finding (contradiction_reconcile_model config) = Ok (Some v) /\
    ask finding (contradiction_reconcile_auditor_model config) = Ok (Some a) /\
    decision v = "invalidate" /\ decision a = "invalidate" /\ loser v = side /\ loser a = side /\
    SFleb (contradiction_reconcile_min_confidence config) (confidence v) = true /\
    SFleb (contradiction_reconcile_min_confidence config) (confidence a) = true /\
    (exists eid, eid ∈ evidence_ids v /\ VStr eid ∈ allowed) /\ (exists eid, eid ∈ evidence_ids a /\ VStr eid ∈ allowed).

Lemma grounded_iff v allowed : _grounded v allowed = true <-> exists eid, eid ∈ evidence_ids v /\ VStr eid ∈ allowed.
Proof.
  unfold _grounded. rewrite existsb_exists. split.
  - intros (eid & Hin & (x & Hx & Heq)%existsb_exists). exists eid. split; [by apply list_elem_of_In|].
    destruct x; try done. cbn in Heq. apply String.eqb_eq in Heq as ->. by apply list_elem_of_In.
  - intros (eid & Hin & Hx). exists eid. split; [by apply list_elem_of_In|]. apply existsb_exists. exists (VStr eid).
    split; [by apply list_elem_of_In|]. cbn. apply String.eqb_refl.
Qed.

Lemma mem_sides s : mem_str s ["a"; "b"] = true <-> s ∈ ["a"; "b"].
Proof. unfold mem_str. rewrite existsb_exists. setoid_rewrite String.eqb_eq. rewrite list_elem_of_In. naive_solver. Qed.

(** What [_combine_verdicts] asks of two verdicts to invalidate. *)
Definition sure (v a : ReconcileVerdict) (floor : float) (allowed : list value) (side : string) : Prop :=
  side ∈ ["a"; "b"] /\ decision v = "invalidate" /\ decision a = "invalidate" /\ loser v = side /\ loser a = side /\
  SFleb floor (confidence v) = true /\ SFleb floor (confidence a) = true /\
  _grounded v allowed = true /\ _grounded a allowed = true.

Lemma combine_invalidate_1 v a floor allowed l r : _combine_verdicts py_repr v a floor allowed = ("invalidate", l, r) ->
  exists v' a' side, v = Some v' /\ a = Some a' /\ l = Some side /\ sure v' a' floor allowed side.
Proof.
  unfold _combine_verdicts. destruct v as [v|], a as [a|]; try (done).
  destruct (_ && _) eqn:Hd; [|clear Hd; by destruct (_ && _)].
  apply andb_true_iff in Hd as [Hv%String.eqb_eq Ha%String.eqb_eq].
  destruct (_ || _) eqn:Hl; [done|]. apply orb_false_iff in Hl as [Hl%negb_false_iff%String.eqb_eq Hm%negb_false_iff%mem_sides].
  destruct (negb (SFleb _ _ && _)) eqn:Hc; [done|]. apply negb_false_iff, andb_true_iff in Hc as [Hcv Hca].
  destruct (negb _) eqn:Hg; [done|]. apply negb_false_iff, andb_true_iff in Hg as [Hgv Hga].
  intros [= <- <-]. by exists v, a, (loser v).
Qed.

Lemma combine_invalidate_2 v a floor allowed side : sure v a floor allowed side ->
  exists r, _combine_verdicts py_repr (Some v) (Some a) floor allowed = ("invalidate", Some side, r).
Proof.
  intros (Hs%mem_sides & Hv & Ha & Hlv & Hla & Hcv & Hca & Hgv & Hga). unfold _combine_verdicts.
  rewrite Hv, Ha, !String.eqb_refl, Hlv, Hla, String.eqb_refl, Hs, Hcv, Hca, Hgv, Hga. by eexists.
Qed.

Lemma judge_invalidate finding o : judge finding = Ok o -> o_decision o = "invalidate" ->
  exists side, o_loser o = Some side /\ side ∈ ["a"; "b"] /\ agree_on finding side.
Proof.
  unfold run_contradiction_judge. destruct (allowed_ids finding) as [allowed|] eqn:Hal; [|done]. cbn [mbind result_bind].
  destruct (ask finding (contradiction_reconcile_model config)) as [v|] eqn:Hv; [|done]. cbn [mbind result_bind].
  destruct (ask finding (contradiction_reconcile_auditor_model config)) as [a|] eqn:Ha; [|done]. cbn [mbind result_bind].
  destruct (_combine_verdicts _ _ _ _ _) as [[d l] r] eqn:Hc. intros [= <-]. cbn [o_decision o_loser]. intros ->.
  apply combine_invalidate_1 in Hc as (v' & a' & side & -> & -> & -> & Hs & H1 & H2 & H3 & H4 & H5 & H6 & H7 & H8).
  exists side. split_and!; [done..|]. exists allowed, v', a'. rewrite <- !grounded_iff. by split_and!.
Qed.

Lemma agree_judge finding side : side ∈ ["a"; "b"] -> agree_on finding side ->
  exists o, judge finding = Ok o /\ o_decision o = "invalidate" /\ o_loser o = Some side.
Proof.
  intros Hs (allowed & v & a & H0 & H1 & H2 & H3). rewrite <- !grounded_iff in H3.
  unfold run_contradiction_judge. rewrite H0. cbn [mbind result_bind]. rewrite H1. cbn [mbind result_bind]. rewrite H2. cbn [mbind result_bind].
  destruct (combine_invalidate_2 v a (contradiction_reconcile_min_confidence config) allowed side) as [r ->]; [done|]. by eexists.
Qed.

(** ** The handler *)

(** The relationship a finding retires: both judges agree on its side. *)
Definition agreed_loser (finding : value) (i : Z) : Prop :=
  exists side v, side ∈ ["a"; "b"] /\ agree_on finding side /\
    subscript finding ("relationship_" +:+ side +:+ "_id") = Ok v /\ coerce v = Some i.

Lemma resolve_side finding o side : o_decision o = "invalidate" -> o_loser o = Some side -> side ∈ ["a"; "b"] ->
  forall r, _resolve_loser_winner parse_uuid str_other finding o = Ok r ->
  exists v, subscript finding ("relationship_" +:+ side +:+ "_id") = Ok v /\ r.1 = coerce v.
Proof.
  intros Hd Hl Hs r. unfold _resolve_loser_winner. rewrite Hd, Hl. cbn [negb].
  destruct (subscript finding "relationship_a_id") as [av|] eqn:Ha; [|done]. cbn [mbind result_bind].
  destruct (subscript finding "relationship_b_id") as [bv|] eqn:Hb; [|done]. cbn [mbind result_bind].
  rewrite elem_of_cons, list_elem_of_singleton in Hs. destruct Hs as [-> | ->].
  - rewrite bool_decide_eq_true_2 by done. intros [= <-]. by exists av.
  - rewrite bool_decide_eq_false_2, bool_decide_eq_true_2 by done. intros [= <-]. by exists bv.
Qed.

Lemma agree_unique finding side side' : agree_on finding side -> agree_on finding side' -> side = side'.
Proof. intros (? & v & a & _ & Hv & _ & _ & _ & <- & _) (? & v' & a' & _ & Hv' & _ & _ & _ & <- & _). congruence. Qed.

Definition entry_of (i : Z) : value := VDict [("relationship_id", VUuid uuid_str i)].

(** What the body of the loop does to the relationships: it retires the agreed loser, if it
    is still open. *)
Lemma apply_finding_db op_id ns now st finding st' : apply_finding op_id ns now st finding = Ok st' ->
  (exists i, agreed_loser finding i /\ (forall j, agreed_loser finding j -> j = i) /\
     ap_db st' = (soft_delete now i (ap_db st)).2 /\
     invalidated st' = if (soft_delete now i (ap_db st)).1 then invalidated st ++ [entry_of i] else invalidated st) \/
  ((forall j, ~ agreed_loser finding j) /\ ap_db st' = ap_db st /\ invalidated st' = invalidated st).
Proof.
  destruct st as [db conflicts inval tri skips]. unfold DreamReconcile.apply_finding.
  destruct (judge finding) as [o|] eqn:Ho; [|done]. cbn [mbind result_bind].
  destruct (_resolve_loser_winner _ _ finding o) as [[loser_id winner_id]|] eqn:Hr; [|done]. cbn [mbind result_bind ap_db invalidated].
  assert (Hagree : forall j, agreed_loser finding j -> o_decision o = "invalidate" /\ loser_id = Some j).
  { intros j (side & v & Hs & Ha & Hv & Hj). destruct (agree_judge finding side Hs Ha) as (o' & Ho' & Hd & Hl).
    assert (o' = o) as -> by congruence. split; [done|]. destruct (resolve_side finding o side Hd Hl Hs _ Hr) as (v' & Hv' & E).
    cbn in E. congruence. }
  destruct (String.eqb_spec (o_decision o) "invalidate") as [Hd|Hd]; [destruct loser_id as [i|]|]; cycle 1.
  { destruct (skip_reason finding o); [|done]. cbn [mbind result_bind].
    destruct (upsert_triage _ _ _ _ _ _ _ _ _ _ _ _ _ _) as [conflicts'|]; [|done]. cbn [mbind result_bind].
    destruct (triage_entry _ _); [|done]. intros [= <-]. right. split; [|done]. intros j Hj. by apply Hagree in Hj as [_ ?]. }
  { destruct (skip_reason finding o); [|done]. cbn [mbind result_bind].
    destruct (upsert_triage _ _ _ _ _ _ _ _ _ _ _ _ _ _) as [conflicts'|]; [|done]. cbn [mbind result_bind].
    destruct (triage_entry _ _); [|done]. intros [= <-]. right. split; [|done]. intros j Hj. by apply Hagree in Hj as [? _]. }
  destruct (soft_delete now i db) as [found db1] eqn:Hsd. cbn [mbind result_bind].
  destruct (upsert_triage _ _ _ _ _ _ _ _ _ _ _ _ _ _) as [conflicts'|]; [|done]. cbn [mbind result_bind].
  destruct (triage_entry _ _); [|done]. intros [= <-]. left. exists i.
  destruct (judge_invalidate finding o Ho Hd) as (side & Hl & Hs & Ha).
  destruct (resolve_side finding o side Hd Hl Hs _ Hr) as (v & Hv & Hi).
  cbn [ap_db invalidated]. rewrite Hsd. split_and!; [|..|done|done].
  - by exists side, v.
  - intros j Hj. apply Hagree in Hj as [_ ?]. congruence.
Qed.

(** The tables after some findings: exactly the listed relationships are retired. *)
Record retired_exactly (now : datetime) (db0 : Db) (findings : list value) (db : Db) (ids : list Z) : Prop := {
  re_entities : entities db = entities db0;
  re_rows i : relationships db !! i = (if decide (i ∈ ids) then prune now else fun r => r) <$> relationships db0 !! i;
  re_ids i : i ∈ ids <-> (exists r, relationships db0 !! i = Some r /\ rel_valid_to r = None) /\
    exists f, f ∈ findings /\ agreed_loser f i;
}.

Lemma retired_step now db0 findings db ids f i : retired_exactly now db0 findings db ids ->
  agreed_loser f i -> (forall j, agreed_loser f j -> j = i) ->
  retired_exactly now db0 (findings ++ [f]) (soft_delete now i db).2 (if (soft_delete now i db).1 then ids ++ [i] else ids).
Proof.
  intros [He Hr Hids] Hi Hu. pose proof (Hr i) as Hri. unfold soft_delete.
  assert (Hfind : forall j, (exists f', f' ∈ findings ++ [f] /\ agreed_loser f' j) <-> (exists f', f' ∈ findings /\ agreed_loser f' j) \/ j = i).
  { intros j. setoid_rewrite elem_of_app. setoid_rewrite list_elem_of_singleton. split.
    - intros (f' & [Hf| ->] & Ha); [left; by exists f'|right; by apply Hu].
    - intros [(f' & Hf & Ha)| ->]; [exists f'; auto|exists f; auto]. }
  destruct (relationships db !! i) as [row|] eqn:Hrow; [destruct (rel_valid_to row) as [t|] eqn:Hv|]; cbn [fst snd].
  - split; [done|done|]. intros j. rewrite Hfind, Hids. split; [tauto|]. intros [Hopen [?| ->]]; [done|]. split; [done|].
    destruct Hopen as (r & Hr0 & Hr0v). rewrite Hr0 in Hri. apply Hids. destruct (decide (i ∈ ids)) as [Hm|Hm]; [done|].
    cbn in Hri. congruence.
  - split; [done| |].
    + intros j. cbn [relationships update_relationship]. destruct (decide (j = i)) as [->|Hne].
      * rewrite lookup_alter_eq, Hrow, Hri. destruct (relationships db0 !! i) as [r0|]; [|done].
        rewrite (decide_True (P := i ∈ ids ++ [i])) by (apply elem_of_app; right; left). by destruct (decide (i ∈ ids)).
      * rewrite lookup_alter_ne, Hr by done. destruct (decide (j ∈ ids)) as [Hj|Hj].
        -- rewrite decide_True by (apply elem_of_app; by left). done.
        -- rewrite decide_False; [done|]. intros [?| ?%list_elem_of_singleton]%elem_of_app; done.
    + intros j. rewrite Hfind, elem_of_app, Hids, list_elem_of_singleton. split; [|tauto].
      intros [?| ->]; [tauto|]. split; [|by right]. destruct (relationships db0 !! i) as [r0|]; [|done]. exists r0. split; [done|].
      destruct (decide (i ∈ ids)); cbn in Hri; [injection Hri as ->; done|congruence].
  - split; [done|done|]. intros j. rewrite Hfind, Hids. split; [tauto|]. intros [Hopen [?| ->]]; [done|]. exfalso.
    destruct Hopen as (r & Hr0 & _). by rewrite Hr0 in Hri.
Qed.

Lemma retired_fold op_id ns now findings : forall db0 done db ids conflicts tri skips st,
  retired_exactly now db0 done db ids ->
  fold_r (apply_finding op_id ns now) (MkApplied db conflicts (List.map entry_of ids) tri skips) findings = Ok st ->
  exists ids', invalidated st = List.map entry_of ids' /\ retired_exactly now db0 (done ++ findings) (ap_db st) ids'.
Proof.
  induction findings as [|f findings IH]; intros db0 fs db ids conflicts tri skips st Hre; cbn [fold_r].
  { intros [= <-]. exists ids. by rewrite app_nil_r. }
  destruct (apply_finding _ _ _ _ f) as [st1|] eqn:Hf; [|done]. cbn [mbind result_bind]. intros Hrest.
  assert (Hnext : exists ids1, invalidated st1 = List.map entry_of ids1 /\ retired_exactly now db0 (fs ++ [f]) (ap_db st1) ids1).
  { apply apply_finding_db in Hf as [(i & Hi & Hu & Hdb & Hin)|(Hno & Hdb & Hin)]; cbn [ap_db invalidated] in Hdb, Hin; rewrite Hdb, Hin.
    - pose proof (retired_step now db0 fs db ids f i Hre Hi Hu) as Hstep. eexists. split; [|exact Hstep].
      destruct (soft_delete now i db).1; [by rewrite List.map_app|done].
    - exists ids. split; [done|]. destruct Hre as [He Hr Hids]. split; [done..|]. intros i. rewrite Hids.
      setoid_rewrite elem_of_app. setoid_rewrite list_elem_of_singleton. naive_solver. }
  destruct Hnext as (ids1 & Hin1 & Hre1). destruct st1 as [db1 c1 in1 t1 s1]. cbn in Hin1, Hre1. subst in1.
  replace (fs ++ f :: findings) with ((fs ++ [f]) ++ findings) by by rewrite <- app_assoc. by eapply IH.
Qed.

Lemma reconcile_outcome op_ns op now db conflicts undo db' conflicts' :
  apply_reconcile op_ns op now db conflicts = Ok (undo, db', conflicts') ->
  exists ids, dict_get "relationships" (u_before undo) = Some (VList (List.map entry_of ids)) /\
    dict_get "chunk_id" (u_before undo) = None /\ u_applied_at undo = now /\ retired_exactly now db (op_outputs op) db' ids.
Proof.
  unfold apply_vectorcypher_contradiction_reconcile. destruct (namespace_of _ _ op_ns op) as [ns|]; [|done].
  cbn [mbind result_bind]. destruct (fold_r _ _ _) as [st|] eqn:Hf; [|done]. cbn [mbind result_bind]. intros [= <- <- <-].
  change [] with (List.map entry_of []) in Hf at 1.
  apply (retired_fold _ _ _ _ db []) in Hf as (ids & Hin & Hre).
  - exists ids. rewrite Hin. split_and!; [by destruct (skip_reasons st)..|done|done].
  - split; [done| |].
    + intros i. rewrite decide_False by apply not_elem_of_nil. by destruct (relationships db !! i).
    + intros i. split; [by intros ?%elem_of_nil|]. by intros [_ (f & ?%elem_of_nil & _)].
Qed.

(** C20.  Only an agreed, grounded verdict retires a relationship, and each one does.  When the
    handler returns, the relationships it has retired - closed and stamped with its time -
    are exactly those that were open and lose some pair of the plan by the word of both
    judges: the same side, both at or above the confidence floor, both citing a source of
    the pair.  Its undo record lists them, every other row and every entity is untouched.
    The source's docstrings say otherwise: that the loser is the record of lower confidence,
    ties broken by id; neither the records' confidence nor their ids decide here, the judges'
    word does. *)
Theorem retires_exactly_agreed op_ns op now db conflicts undo db' conflicts' :
  apply_reconcile op_ns op now db conflicts = Ok (undo, db', conflicts') ->
  exists ids,
    dict_get "relationships" (u_before undo) = Some (VList (List.map entry_of ids)) /\
    entities db' = entities db /\
    (forall i, relationships db' !! i = (if decide (i ∈ ids) then prune now else fun r => r) <$> relationships db !! i) /\
    (forall i, i ∈ ids <-> (exists r, relationships db !! i = Some r /\ rel_valid_to r = None) /\
       exists f, f ∈ op_outputs op /\ agreed_loser f i).
Proof. intros (ids & Hrel & _ & _ & [He Hr Hids])%reconcile_outcome. by exists ids. Qed.

(** ** Triage *)

Local Abbreviation upsert_triage := (upsert_triage parse_uuid str_other bounded_text_hash float_of_text uuid4).

(** The key of a finding's triage row. *)
Definition pair_key (ns : Z) (finding : value) (k : Z * Z * Z) : Prop :=
  exists av bv a b, subscript finding "relationship_a_id" = Ok av /\ subscript finding "relationship_b_id" = Ok bv /\
    coerce av = Some a /\ coerce bv = Some b /\ k = (ns, a, b).

Lemma pair_key_unique ns finding k k' : pair_key ns finding k -> pair_key ns finding k' -> k = k'.
Proof. intros (av & bv & a & b & H1 & H2 & H3 & H4 & ->) (av' & bv' & a' & b' & H1' & H2' & H3' & H4' & ->). congruence. Qed.

(** A row this run has resolved by the outcome of a finding. *)
Definition resolved_by (op_id : Z) (now : datetime) (ns : Z) (findings : list value) (k : Z * Z * Z) (row : Conflict) : Prop :=
  cf_resolved_by row = Some op_id /\ cf_resolved_at row = Some now /\
  exists f o, f ∈ findings /\ pair_key ns f k /\ judge f = Ok o /\ cf_resolution row = _resolution_label (o_decision o).

(** What was detected of an old row. *)
Definition detection (row : Conflict) :=
  (cf_id row, cf_source row, cf_target row, cf_type row, cf_similarity row, cf_keys row, cf_reason row,
   cf_hash_a row, cf_hash_b row, cf_detected_by row, cf_valid_from row).

Ltac bind_step H :=
  match type of H with
  | context [mbind _ ?m] => let E := fresh "E" in destruct m eqn:E; cbn [mbind result_bind] in H; [|discriminate H]
  end.

Lemma not_null_ok v u : not_null v = Ok u -> v = Some u.
Proof. by destruct v; intros [= <-]. Qed.

Local Abbreviation conflict_row := (conflict_row parse_uuid str_other float_of_text).

Lemma conflict_row_key op_id ns now finding i k row : conflict_row op_id ns now finding i = Ok (k, row) ->
  exists n0, ns = Some n0 /\ pair_key n0 finding k.
Proof.
  unfold DreamReconcile.conflict_row. intros Hu. repeat bind_step Hu. injection Hu as <- _.
  repeat match goal with H : not_null _ = Ok _ |- _ => apply not_null_ok in H end. subst ns.
  eexists. split; [done|]. eexists _, _, _, _. by split_and!.
Qed.

Lemma upsert_triage_spec op_id ns now finding o l w n c c' : upsert_triage op_id ns now finding o l w n c = Ok c' ->
  exists n0 k row, ns = Some n0 /\ pair_key n0 finding k /\ c' = upsert_conflict k row c /\
    cf_resolved_by row = Some op_id /\ cf_resolved_at row = Some now /\ cf_resolution row = _resolution_label (o_decision o).
Proof.
  unfold DreamReconcile.upsert_triage. destruct (conflict_row _ _ _ _ _) as [[k row]|] eqn:Hr; [|done]. cbn [mbind result_bind].
  intros [= <-]. apply conflict_row_key in Hr as (n0 & -> & Hk). by eexists n0, k, _.
Qed.

Lemma apply_finding_triage op_id ns now st finding st' : apply_finding op_id ns now st finding = Ok st' ->
  exists n0 k row o, ns = Some n0 /\ pair_key n0 finding k /\ judge finding = Ok o /\
    ap_conflicts st' = upsert_conflict k row (ap_conflicts st) /\
    cf_resolved_by row = Some op_id /\ cf_resolved_at row = Some now /\ cf_resolution row = _resolution_label (o_decision o).
Proof.
  destruct st as [db conflicts inval tri skips]. unfold DreamReconcile.apply_finding. intros Ha.
  do 2 bind_step Ha. case_match. bind_step Ha. do 2 case_match.
  do 2 bind_step Ha. injection Ha as <-. cbn [ap_conflicts].
  match goal with H : upsert_triage _ _ _ _ _ _ _ _ _ = Ok _ |- _ => apply upsert_triage_spec in H as (n0 & k & row & ?) end.
  exists n0, k, row. naive_solver.
Qed.

Lemma upsert_conflict_rows k row c k' : upsert_conflict k row c !! k' =
  if decide (k' = k) then Some match c !! k with
    | None => row
    | Some old => MkConflict (cf_id old) (cf_source old) (cf_target old) (cf_type old) (cf_similarity old) (cf_keys old)
        (cf_reason old) (cf_hash_a old) (cf_hash_b old) (cf_detected_by old) (cf_valid_from old)
        (cf_resolution row) (cf_loser row) (cf_winner row) (cf_rationale_hash row) (cf_resolved_by row) (cf_resolved_at row)
    end
  else c !! k'.
Proof. unfold upsert_conflict. case_decide as Hk; [subst; by rewrite lookup_partial_alter_eq|by rewrite lookup_partial_alter_ne]. Qed.

Record triaged (op_id : Z) (now : datetime) (ns : option Z) (c0 : Conflicts) (findings : list value) (c : Conflicts) : Prop := {
  tr_rows f : f ∈ findings -> exists n0 k row, ns = Some n0 /\ pair_key n0 f k /\ c !! k = Some row /\
    resolved_by op_id now n0 findings k row;
  tr_others k : (forall n0 f, ns = Some n0 -> f ∈ findings -> ~ pair_key n0 f k) -> c !! k = c0 !! k;
  tr_old k old : c0 !! k = Some old -> exists row, c !! k = Some row /\ detection row = detection old;
}.

Lemma resolved_by_mono op_id now n0 fs fs' k row : (forall f, f ∈ fs -> f ∈ fs') ->
  resolved_by op_id now n0 fs k row -> resolved_by op_id now n0 fs' k row.
Proof. intros Hs (H1 & H2 & f & o & H3 & H4). split_and!; [done..|]. exists f, o. auto. Qed.

Lemma triaged_step op_id now n0 c0 fs c f k row o : triaged op_id now (Some n0) c0 fs c ->
  pair_key n0 f k -> judge f = Ok o -> cf_resolved_by row = Some op_id -> cf_resolved_at row = Some now ->
  cf_resolution row = _resolution_label (o_decision o) ->
  triaged op_id now (Some n0) c0 (fs ++ [f]) (upsert_conflict k row c).
Proof.
  intros [Hrows Hothers Hold] Hk Ho H1 H2 H3.
  assert (Hnew : exists row', upsert_conflict k row c !! k = Some row' /\ resolved_by op_id now n0 (fs ++ [f]) k row').
  { rewrite upsert_conflict_rows, decide_True by done. eexists. split; [done|]. unfold resolved_by.
    destruct (c !! k); cbn; (split_and!; [done..|]); exists f, o; (split_and!; [apply elem_of_app; right; left|done..]). }
  split.
  - intros f' [Hf| ->%list_elem_of_singleton]%elem_of_app.
    + destruct (Hrows f' Hf) as (n1 & k1 & row1 & [= <-] & Hk1 & Hc1 & Hr1). destruct (decide (k1 = k)) as [->|Hne].
      * destruct Hnew as (row' & Hc & Hr). by exists n0, k, row'.
      * exists n0, k1, row1. rewrite upsert_conflict_rows, decide_False by done. split_and!; [done..|].
        eapply resolved_by_mono; [|exact Hr1]. intros g Hg. apply elem_of_app. by left.
    + destruct Hnew as (row' & Hc & Hr). by exists n0, k, row'.
  - intros k' Hno. assert (k' <> k) as Hne.
    { intros ->. eapply Hno; [done| |exact Hk]. apply elem_of_app. right. left. }
    rewrite upsert_conflict_rows, decide_False by done. apply Hothers. intros n1 g Hn Hg. apply Hno; [done|]. apply elem_of_app. by left.
  - intros k' old Hk'. destruct (Hold k' old Hk') as (row1 & Hc1 & Hd). rewrite upsert_conflict_rows. case_decide as Hkk; [|by exists row1].
    subst k'. rewrite Hc1. eexists. split; [done|]. exact Hd.
Qed.

Lemma triaged_fold op_id ns now findings : forall c0 fs st st', triaged op_id now ns c0 fs (ap_conflicts st) ->
  fold_r (apply_finding op_id ns now) st findings = Ok st' -> triaged op_id now ns c0 (fs ++ findings) (ap_conflicts st').
Proof.
  induction findings as [|f findings IH]; intros c0 fs st st' Ht; cbn [fold_r]; [intros [= <-]; by rewrite app_nil_r|].
  destruct (apply_finding _ _ _ st f) as [st1|] eqn:Hf; [|done]. cbn [mbind result_bind]. intros Hrest.
  replace (fs ++ f :: findings) with ((fs ++ [f]) ++ findings) by by rewrite <- app_assoc.
  eapply IH; [|done]. apply apply_finding_triage in Hf as (n0 & k & row & o & -> & Hk & Ho & -> & H1 & H2 & H3).
  by eapply triaged_step.
Qed.

(** Every finding leaves a triage row: when the handler returns, the row of its pair exists, is
    resolved by this operation at its time, with the label of what the judges said of the
    pair; rows of other pairs are as they were, and a row that was there keeps what was
    detected. *)
Theorem every_finding_triaged op_ns op now db conflicts undo db' conflicts' :
  apply_reconcile op_ns op now db conflicts = Ok (undo, db', conflicts') ->
  exists ns, triaged (op_id op) now ns conflicts (op_outputs op) conflicts'.
Proof.
  unfold apply_vectorcypher_contradiction_reconcile. destruct (namespace_of _ _ op_ns op) as [ns|]; [|done].
  cbn [mbind result_bind]. destruct (fold_r _ _ _) as [st|] eqn:Hf; [|done]. cbn [mbind result_bind]. intros [= <- <- <-].
  exists ns. apply (triaged_fold _ _ _ _ conflicts [] _ _) in Hf; [done|]. cbn [ap_conflicts].
  split; [by intros f ?%elem_of_nil|done|]. intros k old Hk. by exists old.
Qed.

(** ** Report-only detection *)

Local Abbreviation detect_finding := (detect_finding uuid_str parse_uuid str_other float_of_text uuid4).
Local Abbreviation apply_detect := (apply_vectorcypher_contradiction_detect uuid_str parse_uuid str_other float_of_text uuid4).

(** What a run of the loop does to the table: rows are kept, each finding has one. *)
Record reported (ns : option Z) (findings : list value) (c0 c : Conflicts) : Prop := {
  rp_kept k row : c0 !! k = Some row -> c !! k = Some row;
  rp_rows f : f ∈ findings -> exists n0 k, ns = Some n0 /\ pair_key n0 f k /\ is_Some (c !! k);
}.

Lemma detect_fold op_id ns now findings : forall c l c' l', fold_r (detect_finding op_id ns now) (c, l) findings = Ok (c', l') ->
  reported ns findings c c'.
Proof.
  induction findings as [|f findings IH]; intros c l c' l'; cbn [fold_r].
  { intros [= <- _]. split; [done|]. by intros f ?%elem_of_nil. }
  destruct (detect_finding _ _ _ _ f) as [[c1 l1]|] eqn:Hf; [|done]. cbn [mbind result_bind]. intros Hrest%IH.
  unfold DreamReconcile.detect_finding in Hf. destruct (conflict_row _ _ _ _ _) as [[k row]|] eqn:Hr; [|done]. cbn [mbind result_bind] in Hf.
  do 2 bind_step Hf. injection Hf as <- _. apply conflict_row_key in Hr as (n0 & -> & Hk). destruct Hrest as [Hkept Hrows].
  assert (Hins : forall k' r, c !! k' = Some r -> insert_finding k row c !! k' = Some r).
  { intros k' r Hc. unfold insert_finding. destruct (c !! k) eqn:Hck; [done|]. rewrite lookup_insert_ne; [done|]. intros ->. congruence. }
  split; [by auto|]. intros g [->|Hg]%elem_of_cons; [|by apply Hrows]. exists n0, k. split_and!; [done..|].
  unfold insert_finding in Hkept. destruct (c !! k) as [r|] eqn:Hck; [exists r; by apply Hkept|].
  exists row. apply Hkept. apply lookup_insert_eq.
Qed.

(** A table with a row for every finding is left as it is. *)
Lemma detect_again op_id ns now findings : forall c l c' l', (forall f, f ∈ findings -> exists n0 k, ns = Some n0 /\ pair_key n0 f k /\ is_Some (c !! k)) ->
  fold_r (detect_finding op_id ns now) (c, l) findings = Ok (c', l') -> c' = c.
Proof.
  induction findings as [|f findings IH]; intros c l c' l' Hall; cbn [fold_r]; [by intros [= <- _]|].
  destruct (detect_finding _ _ _ _ f) as [[c1 l1]|] eqn:Hf; [|done]. cbn [mbind result_bind].
  unfold DreamReconcile.detect_finding in Hf. destruct (conflict_row _ _ _ _ _) as [[k row]|] eqn:Hr; [|done]. cbn [mbind result_bind] in Hf.
  do 2 bind_step Hf. injection Hf as <- _. apply conflict_row_key in Hr as (n0 & Hn & Hk).
  destruct (Hall f) as (n1 & k1 & Hn1 & Hk1 & [r Hr1]); [left|]. assert (k1 = k) as ->.
  { assert (n1 = n0) as -> by congruence. by eapply pair_key_unique. }
  unfold insert_finding. rewrite Hr1. intros Hrest. eapply IH; [|exact Hrest]. intros g Hg. apply Hall. by right.
Qed.

(** Detection only adds: rows that were there stay, every finding has a row afterwards, and
    replaying the operation - at any time, under whatever fresh ids - changes nothing. *)
Theorem detect_reports_once op_ns op now conflicts undo conflicts' :
  apply_detect op_ns op now conflicts = Ok (undo, conflicts') ->
  (exists ns, reported ns (op_outputs op) conflicts conflicts') /\
  forall now' undo' conflicts'', apply_detect op_ns op now' conflicts' = Ok (undo', conflicts'') -> conflicts'' = conflicts'.
Proof.
  unfold apply_vectorcypher_contradiction_detect. destruct (op_outputs op) as [|f findings].
  { intros [= _ <-]. split; [exists None; split; [done|]; by intros f ?%elem_of_nil|]. by intros now' undo' c [= _ <-]. }
  destruct (namespace_of _ _ op_ns op) as [ns|]; [|done]. cbn [mbind result_bind].
  destruct (fold_r _ _ (f :: findings)) as [[c l]|] eqn:Hf; [|done]. cbn [mbind result_bind]. intros [= _ <-].
  apply detect_fold in Hf as Hr. split; [by exists ns|]. clear Hf. intros now' undo' c''.
  destruct (fold_r _ _ (f :: findings)) as [[c2 l2]|] eqn:Hf2; [|done]. cbn [mbind result_bind]. intros [= _ <-].
  eapply detect_again; [|exact Hf2]. apply Hr.
Qed.

(** ** Planned findings apply *)

Definition id_fields : list string := ["relationship_a_id"; "relationship_b_id"; "source_entity_id"; "target_entity_id"].
Definition list_fields : list string :=
  ["a_source_chunk_ids"; "a_source_document_ids"; "b_source_chunk_ids"; "b_source_document_ids"; "contradicting_keys"].
Definition other_fields : list string := ["relationship_type"; "reason"; "description_a_hash"; "description_b_hash"].

(** A finding with the fields the handler reads, and their shapes. *)
Record finding_ok (e : value) : Prop := {
  fo_dict : exists d, e = VDict d;
  fo_lists key : key ∈ list_fields -> exists l, items e key = Ok (List.map VStr l);
  fo_ids key : key ∈ id_fields -> exists v u, subscript e key = Ok v /\ coerce v = Some u;
  fo_others key : key ∈ other_fields -> exists v, subscript e key = Ok v;
  fo_similarity : exists f, subscript e "similarity" = Ok (VFloat f);
}.

Lemma joined_ok e key : finding_ok e -> key ∈ list_fields -> exists s, joined e key = Ok s.
Proof.
  intros Hok Hk. destruct (fo_lists e Hok key Hk) as [l Hl]. unfold joined. rewrite Hl. cbn [mbind result_bind].
  assert (map_m (fun v => match v with VStr s => Ok s | _ => Err TypeError end) (List.map VStr l) = Ok l) as ->; [|by eexists].
  clear. induction l as [|s l IH]; [done|]. cbn. by rewrite IH.
Qed.

Lemma prompt_ok e : finding_ok e -> exists s, _build_user_prompt str_other fixed4 float_of_text e = Ok s.
Proof.
  intros Hok. unfold _build_user_prompt.
  destruct (joined_ok e "a_source_chunk_ids" Hok) as [? ->]; [set_solver|]. cbn [mbind result_bind].
  destruct (joined_ok e "a_source_document_ids" Hok) as [? ->]; [set_solver|]. cbn [mbind result_bind].
  destruct (joined_ok e "b_source_chunk_ids" Hok) as [? ->]; [set_solver|]. cbn [mbind result_bind].
  destruct (joined_ok e "b_source_document_ids" Hok) as [? ->]; [set_solver|]. cbn [mbind result_bind].
  unfold shown_item, shown, shown_or_empty.
  destruct (fo_others e Hok "relationship_type") as [? ->]; [set_solver|]. cbn [mbind result_bind].
  destruct (fo_similarity e Hok) as [f ->]. cbn [mbind result_bind].
  assert (exists x, HookLlm.HookLlm.py_float float_of_text (VFloat f) = Ok x) as [? ->] by (destruct f; by eexists). cbn [mbind result_bind].
  destruct (joined_ok e "contradicting_keys" Hok) as [? ->]; [set_solver|]. cbn [mbind result_bind].
  destruct (fo_ids e Hok "relationship_a_id") as (? & ? & -> & _); [set_solver|]. cbn [mbind result_bind].
  destruct (fo_ids e Hok "relationship_b_id") as (? & ? & -> & _); [set_solver|]. cbn [mbind result_bind].
  destruct (fo_dict e Hok) as [d ->]. by eexists.
Qed.

Section planned.
Context (decodes : forall s x, json_loads s = Err x -> x = ValueError).

Lemma ask_ok e model : finding_ok e -> exists v, ask e model = Ok v.
Proof.
  intros Hok. unfold _ask_one_judge. destruct (prompt_ok e Hok) as [prompt ->]. cbn [mbind result_bind].
  destruct (acompletion model prompt) as [raw| |]; [|by eexists..]. unfold _parse_verdict. destruct (String.eqb raw ""); [by eexists|].
  destruct (json_loads _) as [payload|x] eqn:Hj; [by eexists|]. apply decodes in Hj as ->. by eexists.
Qed.

Lemma judge_ok e : finding_ok e -> exists o, judge e = Ok o.
Proof.
  intros Hok. unfold run_contradiction_judge, allowed_ids.
  destruct (fo_lists e Hok "a_source_chunk_ids") as [l1 ->]; [set_solver|]. cbn [mbind result_bind].
  destruct (fo_lists e Hok "a_source_document_ids") as [l2 ->]; [set_solver|]. cbn [mbind result_bind].
  destruct (fo_lists e Hok "b_source_chunk_ids") as [l3 ->]; [set_solver|]. cbn [mbind result_bind].
  destruct (fo_lists e Hok "b_source_document_ids") as [l4 ->]; [set_solver|]. cbn [mbind result_bind].
  rewrite <- !List.map_app. assert (Hh : forall l, forallb hashable (List.map VStr l) = true) by (induction l; done).
  rewrite Hh. cbn [mbind result_bind].
  destruct (ask_ok e (contradiction_reconcile_model config) Hok) as [v ->]. cbn [mbind result_bind].
  destruct (ask_ok e (contradiction_reconcile_auditor_model config) Hok) as [a ->]. cbn [mbind result_bind].
  destruct (_combine_verdicts _ _ _ _ _) as [[d l] r]. by eexists.
Qed.

Lemma conflict_row_ok op_id ns now e i : finding_ok e -> exists r, conflict_row op_id (Some ns) now e i = Ok r.
Proof.
  intros Hok. unfold DreamReconcile.conflict_row.
  destruct (fo_ids e Hok "relationship_a_id") as (av & a & -> & Ha); [set_solver|]. cbn [mbind result_bind].
  destruct (fo_ids e Hok "relationship_b_id") as (bv & b & -> & Hb); [set_solver|]. cbn [mbind result_bind].
  destruct (fo_ids e Hok "source_entity_id") as (sv & s & -> & Hs); [set_solver|]. cbn [mbind result_bind].
  destruct (fo_ids e Hok "target_entity_id") as (tv & t & -> & Ht); [set_solver|]. cbn [mbind result_bind].
  destruct (fo_others e Hok "relationship_type") as [? ->]; [set_solver|]. cbn [mbind result_bind].
  destruct (fo_similarity e Hok) as [f ->]. cbn [mbind result_bind].
  assert (exists x, HookLlm.HookLlm.py_float float_of_text (VFloat f) = Ok x) as [? ->] by (destruct f; by eexists). cbn [mbind result_bind].
  destruct (fo_lists e Hok "contradicting_keys") as [? ->]; [set_solver|]. cbn [mbind result_bind].
  destruct (fo_others e Hok "reason") as [? ->]; [set_solver|]. cbn [mbind result_bind].
  destruct (fo_others e Hok "description_a_hash") as [? ->]; [set_solver|]. cbn [mbind result_bind].
  destruct (fo_others e Hok "description_b_hash") as [? ->]; [set_solver|]. cbn [mbind result_bind].
  rewrite Ha, Hb, Hs, Ht. by eexists.
Qed.

Lemma apply_finding_ok op_id ns now st e : finding_ok e -> exists st', apply_finding op_id (Some ns) now st e = Ok st'.
Proof.
  intros Hok. destruct st as [db conflicts inval tri skips]. unfold DreamReconcile.apply_finding.
  destruct (judge_ok e Hok) as [o Ho]. rewrite Ho. cbn [mbind result_bind].
  destruct (fo_ids e Hok "relationship_a_id") as (av & a & Hav & Ha); [set_solver|].
  destruct (fo_ids e Hok "relationship_b_id") as (bv & b & Hbv & Hb); [set_solver|].
  assert (exists r, _resolve_loser_winner parse_uuid str_other e o = Ok r) as [[l w] ->].
  { destruct (String.eqb_spec (o_decision o) "invalidate") as [Hd|Hd]; unfold _resolve_loser_winner; rewrite ?Hd; cbn [negb].
    - rewrite Hav, Hbv. cbn [mbind result_bind]. destruct (judge_invalidate e o Ho Hd) as (side & -> & Hs & _).
      rewrite elem_of_cons, list_elem_of_singleton in Hs. destruct Hs as [-> | ->]; by eexists.
    - apply String.eqb_neq in Hd as ->. by eexists. }
  cbn [mbind result_bind].
  assert (Hskip : exists s, skip_reason e o = Ok s) by (unfold skip_reason; rewrite Hav, Hbv; by eexists).
  assert (Hup : forall n c, exists c', upsert_triage op_id (Some ns) now e o l w n c = Ok c').
  { intros n c. unfold DreamReconcile.upsert_triage. destruct (conflict_row_ok op_id ns now e (uuid4 n) Hok) as [[k row] ->]. by eexists. }
  assert (Hentry : forall r, exists v, triage_entry e r = Ok v) by (intros r; unfold triage_entry; rewrite Hav, Hbv; by eexists).
  destruct Hskip as [skip Hskip].
  destruct (String.eqb (o_decision o) "invalidate"), l as [i|]; [destruct (soft_delete now i db) as [found db1]|rewrite Hskip..];
    cbn [mbind result_bind]; (destruct (Hup (length tri) conflicts) as [c' ->]); cbn [mbind result_bind];
    (destruct (Hentry (_resolution_label (o_decision o))) as [v ->]); by eexists.
Qed.

Lemma apply_fold_ok op_id ns now findings : Forall finding_ok findings -> forall st,
  exists st', fold_r (apply_finding op_id (Some ns) now) st findings = Ok st'.
Proof.
  induction 1 as [|e findings He _ IH]; intros st; cbn [fold_r]; [by eexists|].
  destruct (apply_finding_ok op_id ns now st e He) as [st1 ->]. cbn [mbind result_bind]. apply IH.
Qed.

Lemma apply_reconcile_ok ns op now db conflicts : Forall finding_ok (op_outputs op) ->
  exists r, apply_reconcile (Some ns) op now db conflicts = Ok r.
Proof.
  intros Hf. unfold apply_vectorcypher_contradiction_reconcile. cbn [namespace_of mbind result_bind].
  destruct (apply_fold_ok (op_id op) ns now (op_outputs op) Hf (MkApplied db conflicts [] [] [])) as [st ->]. by eexists.
Qed.
End planned.

Lemma items_id_strs d key l : dict_get key d = Some (_id_strs uuid_str l) ->
  items (VDict d) key = Ok (List.map VStr (List.map uuid_str l)).
Proof. intros Hd. rewrite List.map_map. by apply items_list. Qed.

Lemma enriched_ok (uuid_text : forall u, parse_uuid (uuid_str u) = Some u) rels a b similarity ks reason :
  finding_ok (VDict (_enrich_finding uuid_str rels (finding_of uuid_str bounded_text_hash a b similarity ks reason))).
Proof.
  split; [by eexists| | | |by eexists].
  - intros key. unfold list_fields. rewrite !elem_of_cons, elem_of_nil.
    intros [-> |[-> |[-> |[-> |[-> |[]]]]]]; [eexists; apply items_id_strs; reflexivity..|].
    exists ks. apply items_list. reflexivity.
  - intros key. unfold id_fields. rewrite !elem_of_cons, elem_of_nil.
    intros [-> |[-> |[-> |[-> |[]]]]]; eexists _, _; (split; [reflexivity|apply uuid_text]).
  - intros key. unfold other_fields. rewrite !elem_of_cons, elem_of_nil.
    intros [-> |[-> |[-> |[-> |[]]]]]; eexists; reflexivity.
Qed.

End facts.

(** ** Detection *)

Section detection.
Context (uuid_str : Z -> string) (str_other : value -> string) (bounded_text_hash : string -> string).
Context (ratio : string -> string -> pyfloat).

Local Abbreviation flagged := (flagged uuid_str str_other bounded_text_hash ratio).
Local Abbreviation contradiction := (contradiction uuid_str str_other bounded_text_hash ratio).
Local Abbreviation text_similarity := (_text_similarity str_other ratio).

(** The test of a pair; the ratio may depend on the order. *)
Definition differ (threshold : pyfloat) (x y : Relationship) : Prop :=
  num_cmp CLt (text_similarity x y) threshold = true \/ _contradicting_property_keys str_other x y <> [].

Lemma contradiction_iff t p q x y : (exists f, contradiction t (p, q) = Some (x, y, f)) <->
  differ t p q /\ (x, y) = canonical_pair uuid_str p q.
Proof.
  unfold DreamReconcile.contradiction, differ. destruct (canonical_pair uuid_str p q) as [a b].
  destruct (_contradicting_property_keys str_other p q) as [|k ks], (num_cmp CLt _ t); cbn; naive_solver.
Qed.

Lemma before_length {A} (l : list A) a b : before l a b -> Nat.ltb (length l) 2 = false.
Proof. intros (l1 & l2 & l3 & ->). apply Nat.ltb_ge. rewrite length_app. cbn. rewrite length_app. cbn. lia. Qed.

Lemma elem_of_flagged rels t x y f : (x, y, f) ∈ flagged rels t <->
  exists p q, before (List.filter _is_live rels) p q /\ bucket_key p = bucket_key q /\ contradiction t (p, q) = Some (x, y, f).
Proof.
  unfold DreamReconcile.flagged. set (live := List.filter _is_live rels). rewrite elem_of_concat_list_map.
  assert (Hpair : forall g, (x, y, f) ∈ (if Nat.ltb (length g) 2 then [] else _find_contradictions uuid_str str_other bounded_text_hash ratio g t) <->
    exists p q, before g p q /\ contradiction t (p, q) = Some (x, y, f)).
  { intros g. unfold _find_contradictions. split.
    - case_match; [by intros ?%elem_of_nil|]. intros ([p q] & Hin & Hc)%list_elem_of_omap. apply elem_of_all_pairs in Hin. by exists p, q.
    - intros (p & q & Hb & Hc). rewrite (before_length _ _ _ Hb). apply list_elem_of_omap. exists (p, q). split; [|done].
      by apply elem_of_all_pairs. }
  setoid_rewrite Hpair. unfold buckets_of. split.
  - intros (g & ([k g'] & -> & Hg)%list_elem_of_fmap & p & q & Hb & Hc). apply elem_of_grouped in Hg. cbn in Hb, Hg. subst g'.
    apply before_filter in Hb as (Hb & Hp%bool_decide_eq_true & Hq%bool_decide_eq_true). exists p, q. split_and!; [done|congruence|done].
  - intros (p & q & Hb & Hk & Hc). destruct (before_elem _ _ _ Hb) as [Hp _].
    destruct (group_covers bucket_key live p Hp) as (g & ([k g'] & -> & Hg)%list_elem_of_fmap & Hpg). cbn in Hpg.
    exists g'. split; [by apply (list_elem_of_fmap_2 snd) in Hg|]. exists p, q. split; [|done].
    apply elem_of_grouped in Hg. subst g'. apply elem_of_list_filter in Hpg as [_ Hpk%bool_decide_eq_true].
    apply before_filter. split_and!; [done|by apply bool_decide_eq_true|apply bool_decide_eq_true; congruence].
Qed.

Lemma ltb_total s t : s <> t -> String.ltb s t = false -> String.ltb t s = true.
Proof.
  unfold String.ltb. intros Hne. rewrite (String.compare_antisym t s). destruct (String.compare s t) eqn:Hc; [|done|done].
  by apply String.compare_eq_iff in Hc.
Qed.

Lemma ltb_asym s t : String.ltb s t = true -> String.ltb t s = false.
Proof. unfold String.ltb. rewrite (String.compare_antisym t s). by destruct (String.compare s t). Qed.

(** C21.  The plan flags exactly the contradictions.  With distinct ids and texts of ids, a
    finding names [x] first and [y] second just when both are listed and live, run between
    the same entities with the same type, the text of [x]'s id is the smaller, and - compared
    in the order they are listed - their texts are less alike than the threshold or a shared
    property has two values. *)
Theorem flags_exactly_contradictions rels t x y :
  NoDup (r_id <$> rels) -> (forall u v, uuid_str u = uuid_str v -> u = v) ->
  (exists f, (x, y, f) ∈ flagged rels t) <->
  _is_live x = true /\ _is_live y = true /\ bucket_key x = bucket_key y /\
  String.ltb (uuid_str (r_id x)) (uuid_str (r_id y)) = true /\
  ((before rels x y /\ differ t x y) \/ (before rels y x /\ differ t y x)).
Proof.
  intros Hids Hinj. setoid_rewrite elem_of_flagged.
  assert (Hne : forall p q, before rels p q -> r_id p <> r_id q).
  { intros p q (l1 & l2 & l3 & ->) Heq. rewrite fmap_app in Hids. apply NoDup_app in Hids as (_ & _ & Hids). cbn in Hids.
    apply NoDup_cons in Hids as [Hnot _]. apply Hnot. rewrite Heq, fmap_app. apply elem_of_app. right. left. }
  split.
  - intros (f & p & q & (Hb & Hp & Hq)%before_filter & Hk & Hc).
    destruct (proj1 (contradiction_iff t p q x y)) as [Hd Hxy]; [by exists f|]. unfold canonical_pair in Hxy.
    destruct (String.ltb _ _) eqn:Hlt; injection Hxy as -> ->; split_and!; try done; [by left| |by right].
    apply ltb_total; [|done]. intros E%Hinj. by apply (Hne p q).
  - intros (Hx & Hy & Hk & Hlt & [[Hb Hd]|[Hb Hd]]).
    + destruct (proj2 (contradiction_iff t x y x y)) as [f Hf]; [split; [done|unfold canonical_pair; by rewrite Hlt]|].
      exists f, x, y. split_and!; [by apply before_filter|done|done].
    + destruct (proj2 (contradiction_iff t y x x y)) as [f Hf]; [split; [done|unfold canonical_pair; by rewrite (ltb_asym _ _ Hlt)]|].
      exists f, y, x. split_and!; [by apply before_filter|done|done].
Qed.
End detection.

(** ** Planned operations *)

Section planned_operations.
Context `{TextOps} (uuid_str : Z -> string) (parse_uuid : string -> option Z) (str_other : value -> string).
Context (bounded_text_hash : string -> string) (ratio : string -> string -> pyfloat).
Context (json_loads : string -> result value) (model_validate : value -> option ReconcileVerdict).
Context (py_repr : string -> string) (fixed4 : float -> string) (float_of_text : string -> option float).
Context (acompletion : string -> string -> reply) (config : JudgeConfig) (uuid4 : nat -> Z).
Context (decodes : forall s x, json_loads s = Err x -> x = ValueError) (uuid_text : forall u, parse_uuid (uuid_str u) = Some u).

Local Abbreviation apply_reconcile := (apply_vectorcypher_contradiction_reconcile uuid_str parse_uuid str_other bounded_text_hash
  json_loads model_validate py_repr fixed4 float_of_text acompletion config uuid4).
Local Abbreviation plan_reconcile := (plan_vectorcypher_contradiction_reconcile uuid_str str_other bounded_text_hash ratio).

(** C22.  What the planner emits, the handler takes.  If the texts of UUIDs parse back and the
    JSON decoder raises nothing but its decode error, an operation planned for any
    relationships applies to any state of the tables without raising: whatever the models
    answer, time out or raise, and whatever became of the relationships since. *)
Theorem planned_reconcile_applies op_id ns rels threshold op_ns now db conflicts :
  exists undo db' conflicts',
    apply_reconcile (Some op_ns)
      (plan_vectorcypher_contradiction_reconcile uuid_str str_other bounded_text_hash ratio op_id ns rels threshold)
      now db conflicts = Ok (undo, db', conflicts').
Proof.
  assert (Hok : Forall (finding_ok parse_uuid str_other) (op_outputs (plan_reconcile op_id ns rels threshold))).
  { apply Forall_forall. intros e ([[x y] f] & -> & Hin)%list_elem_of_fmap.
    apply elem_of_flagged in Hin as (p & q & _ & _ & Hc). cbn [snd]. unfold DreamReconcile.contradiction in Hc.
    destruct (negb _); [done|]. destruct (canonical_pair uuid_str p q) as [a b]. injection Hc as -> -> <-. by apply enriched_ok. }
  destruct (apply_reconcile_ok uuid_str parse_uuid str_other bounded_text_hash json_loads model_validate py_repr fixed4 float_of_text
    acompletion config uuid4 decodes op_ns _ now db conflicts Hok) as [[[undo db'] conflicts'] Hr]. by exists undo, db', conflicts'.
Qed.
End planned_operations.
End DreamReconcileFacts.
