(* ===== verification/DreamReconcileRuns.v ===== *)
(** The reconcile handler in a dream run: what it promises the orchestrator, that the triage
    table does not matter to it, and concrete plans. *)
From Stdlib Require Import SpecFloat.
From S2P Require Import Prelude PyValue FilterAst FilterPython ReplaceMirror ReplaceMirrorFacts RankFusion Scoring PyText Entities HookLlm UnifySamples.
From S2P Require Import DreamMirror DreamMirrorFacts DreamMergeFacts DreamRunStore DreamRun DreamHandlers DreamReconcile DreamReconcileFacts.

Local Open Scope string_scope.
Local Open Scope list_scope.
Local Open Scope Z_scope.

Module DreamReconcileRuns.
Import Entities.Entities(TextOps) DreamReconcile.DreamReconcile DreamReconcileFacts.DreamReconcileFacts.

Section handler.
Context {E : Env} `{TextOps} (bounded_text_hash : string -> string).
Context (json_loads : string -> result value) (model_validate : value -> option ReconcileVerdict).
Context (py_repr : string -> string) (fixed4 : float -> string) (float_of_text : string -> option float).
Context (acompletion : string -> string -> reply) (judges : JudgeConfig) (uuid4 : nat -> Z).
(** [op.namespace_id]. *)
Context (op_namespace : DreamOp -> option Z).

Local Abbreviation apply_reconcile := (apply_vectorcypher_contradiction_reconcile uuid_str parse_uuid str_other bounded_text_hash
  json_loads model_validate py_repr fixed4 float_of_text acompletion judges uuid4).
Local Abbreviation apply_finding := (apply_finding uuid_str parse_uuid str_other bounded_text_hash json_loads model_validate
  py_repr fixed4 float_of_text acompletion judges uuid4).

(** *** The triage table is only written *)

Definition with_conflicts (c : Conflicts) (st : Applied) : Applied :=
  MkApplied (ap_db st) c (invalidated st) (triage st) (skip_reasons st).

Definition same_but_conflicts (r r' : result Applied) : Prop :=
  match r, r' with
  | Ok st, Ok st' => with_conflicts ∅ st = with_conflicts ∅ st'
  | Err e, Err e' => e = e'
  | _, _ => False
  end.

Lemma upsert_any_table op_id ns now f o l w n c c' :
  match upsert_triage parse_uuid str_other bounded_text_hash float_of_text uuid4 op_id ns now f o l w n c,
        upsert_triage parse_uuid str_other bounded_text_hash float_of_text uuid4 op_id ns now f o l w n c' with
  | Ok _, Ok _ => True | Err e, Err e' => e = e' | _, _ => False
  end.
Proof.
  unfold upsert_triage. by destruct (conflict_row _ _ _ _ _ _ _ _) as [[k row]|].
Qed.

Lemma apply_finding_any_table op_id ns now st c f :
  same_but_conflicts (apply_finding op_id ns now st f) (apply_finding op_id ns now (with_conflicts c st) f).
Proof.
  destruct st as [db c0 inval tri skips]. unfold DreamReconcile.apply_finding, with_conflicts. cbn [ap_db invalidated triage skip_reasons].
  destruct (run_contradiction_judge _ _ _ _ _ _ _ _ f) as [o|]; [|done]. cbn [mbind result_bind].
  destruct (_resolve_loser_winner _ _ f o) as [[l w]|]; [|done]. cbn [mbind result_bind].
  destruct (match String.eqb (o_decision o) "invalidate", l with true, Some i => _ | _, _ => _ end) as [[[db1 inval1] skips1]|]; [|done].
  cbn [mbind result_bind]. pose proof (upsert_any_table op_id ns now f o l w (length tri) c0 c) as Hu.
  do 2 (destruct (upsert_triage _ _ _ _ _ _ _ _ _ _ _ _ _ _)); cbn [mbind result_bind]; try done.
  by destruct (triage_entry _ _).
Qed.

Lemma fold_any_table op_id ns now fs : forall st st', with_conflicts ∅ st = with_conflicts ∅ st' ->
  same_but_conflicts (fold_r (apply_finding op_id ns now) st fs) (fold_r (apply_finding op_id ns now) st' fs).
Proof.
  induction fs as [|f fs IH]; intros st st' Hst; cbn [fold_r]; [done|].
  assert (st' = with_conflicts (ap_conflicts st') st) as ->.
  { destruct st, st'. unfold with_conflicts in *. cbn in *. by injection Hst as -> -> -> ->. }
  pose proof (apply_finding_any_table op_id ns now st (ap_conflicts st') f) as Hf.
  destruct (apply_finding op_id ns now st f), (apply_finding op_id ns now (with_conflicts _ st) f); try done; cbn [mbind result_bind].
  by apply IH.
Qed.

(** The handler as the orchestrator sees it, the triage table out of sight. *)
Definition reconcile_handler (table : Conflicts) : ApplyHandler := fun op now db =>
  '(undo, db, _) ← apply_reconcile (op_namespace op) op now db table; Ok (undo, db).

Theorem handler_any_table table table' op now db : reconcile_handler table op now db = reconcile_handler table' op now db.
Proof.
  unfold reconcile_handler, apply_vectorcypher_contradiction_reconcile.
  destruct (namespace_of _ _ (op_namespace op) op) as [ns|]; [|done]. cbn [mbind result_bind].
  pose proof (fold_any_table (op_id op) ns now (op_outputs op) (MkApplied db table [] [] []) (MkApplied db table' [] [] []) eq_refl) as Hf.
  destruct (fold_r _ _ _) as [[]|], (fold_r _ _ _) as [[]|]; cbn in Hf |- *; try done; [|congruence].
  unfold with_conflicts in Hf. cbn in Hf. by injection Hf as -> -> -> ->.
Qed.

(** *** What the handler promises the orchestrator *)

Context (TF : text_forms uuid_str parse_uuid isoformat fromisoformat).

Local Abbreviation targets_of := (extract_mirror_targets parse_uuid str_other set_iter).

Lemma reconcile_targets before ids : dict_get "relationships" before = Some (VList (List.map (entry_of uuid_str) ids)) ->
  targets_of CONTRADICTION_RECONCILE before = Ok (MkTargets [] ids []).
Proof.
  intros Hb. unfold extract_mirror_targets.
  change (mem_str CONTRADICTION_RECONCILE [PRUNE_EDGES; CONTRADICTION_RECONCILE]) with true. cbn iota.
  rewrite (items_list _ _ _ Hb). cbn [mbind result_bind]. unfold coerced_ids. rewrite extend_m_parse; [done|].
  intros i _. unfold entry_of. cbn -[VUuid _coerce_uuid]. by rewrite (coerce_VUuid _ _ _ _ _ TF).
Qed.

Lemma handler_outcome table op now db undo db' : reconcile_handler table op now db = Ok (undo, db') ->
  exists ids conflicts', apply_reconcile (op_namespace op) op now db table = Ok (undo, db', conflicts') /\
    targets_of CONTRADICTION_RECONCILE (u_before undo) = Ok (MkTargets [] ids []) /\
    dict_get "chunk_id" (u_before undo) = None /\ u_applied_at undo = now /\ entities db' = entities db /\
    (forall i, relationships db' !! i = (if decide (i ∈ ids) then prune now else fun r => r) <$> relationships db !! i).
Proof.
  unfold reconcile_handler. destruct (apply_reconcile _ _ _ _ _) as [[[undo1 db1] c1]|] eqn:Ha; [|done]. cbn [mbind result_bind].
  intros [= -> ->]. pose proof Ha as (ids & Hrel & Hch & Hat & [He Hr _])%reconcile_outcome.
  exists ids, c1. split_and!; [done|by apply reconcile_targets|done..].
Qed.

#[export] Instance reconcile_tombstones table : Tombstones CONTRADICTION_RECONCILE (reconcile_handler table).
Proof.
  intros op now db undo db' _ (ids & c' & _ & Ht & _ & _ & He & Hr)%handler_outcome. exists (MkTargets [] ids []). split; [done|].
  split; intros i (r & Hi & Hd).
  - rewrite Hr in Hi. destruct (relationships db !! i) as [r0|] eqn:H0; [|done]. destruct (decide (i ∈ ids)) as [Hin|]; [by right|].
    injection Hi as <-. left. by exists r0.
  - left. exists r. by rewrite <- He.
Qed.

(** The operation names its namespace, and its findings have the planned shape. *)
Definition reconcilable (ns : Z) (op : DreamOp) (g : Graph) : Prop :=
  is_Some (op_namespace op) /\ Forall (finding_ok parse_uuid str_other) (op_outputs op).

Lemma retired_view ns now db db' (ids : list Z) : (forall i, relationships db' !! i = (if decide (i ∈ ids) then prune now else fun r => r) <$> relationships db !! i) ->
  forall i, db_view ns db' i = if bool_decide (i ∈ ids) then None else db_view ns db i.
Proof.
  intros Hr i. unfold db_view. rewrite Hr. destruct (relationships db !! i) as [r|]; cbn [fmap option_fmap option_map]; [|by case_bool_decide].
  destruct (decide (i ∈ ids)) as [Hin|Hin]; [rewrite bool_decide_eq_true_2 by done|by rewrite bool_decide_eq_false_2 by done].
  unfold live_relationship. cbn. by rewrite andb_false_r.
Qed.

#[export] Instance reconcile_mirrored table (decodes : forall s x, json_loads s = Err x -> x = ValueError) :
  Mirrored CONTRADICTION_RECONCILE (reconcile_handler table) reconcilable.
Proof.
  split; [|done]. intros ns op now db g s Ht [[ons Hons] Hok] A.
  destruct (apply_reconcile_ok uuid_str parse_uuid str_other bounded_text_hash json_loads model_validate py_repr fixed4 float_of_text
    acompletion judges uuid4 decodes ons op now db table Hok) as [[[undo db'] c'] Ha].
  assert (Hh : reconcile_handler table op now db = Ok (undo, db')) by (unfold reconcile_handler; by rewrite Hons, Ha).
  destruct (handler_outcome _ _ _ _ _ _ Hh) as (ids & _ & _ & Htargets & Hch & Hat & He & Hr).
  exists undo, db', (MkTargets [] ids []). assert (W : well_formed (MkTargets [] ids []) []) by (split_and!; constructor).
  split_and!; [done..|]. destruct A as [A1 A2 A3]. split.
  - intros i. rewrite graph_view_mirror by done. cbn [invalidate_relationship_ids rewrite_relationships find_rw List.find].
    rewrite (retired_view _ _ _ _ _ Hr i), A1. destruct (graph_view ns g i) as [[[? ?] ?]|]; by case_bool_decide.
  - intros i. rewrite graph_alive_mirror by done. cbn [retire_entity_ids].
    rewrite bool_decide_eq_false_2 by apply not_elem_of_nil. rewrite andb_true_r, <- A2. unfold db_alive. by rewrite He.
  - intros i a b l. rewrite graph_view_mirror by done. cbn [invalidate_relationship_ids rewrite_relationships find_rw List.find].
    rewrite !present_mirror by done. destruct (graph_view ns g i) as [[[? ?] ?]|] eqn:Hg; [|done].
    case_bool_decide; [done|]. intros [= -> -> ->]. eauto.
Qed.
End handler.

(** ** Concrete plans *)

#[local] Existing Instance UnifySamples.UnifySamples.ascii_text.

Definition no_text (v : value) : string := "".
Definition digest_text (s : string) : string := s.
Definition unlike (s t : string) : pyfloat := FFin 0 0.
Definition half : pyfloat := FFin 1 (-1).

(** Three records of one fact, each from chunk 100. *)
Definition claim_of (i : Z) : Relationship := MkRel i 1 2 "WORKS_AT" (enc_str i) [] [] [100] None (FFin 1 0).
Definition records : list Relationship := [claim_of 1; claim_of 2; claim_of 3].
Definition open_row : RelationshipRow := DreamMirror.MkRelationship 7 1 2 (Some "WORKS_AT") None None None None (dt_utc 0).
Definition tables : Db := MkDb ∅ (list_to_map [(1, open_row); (2, open_row); (3, open_row)]).

(** Judges that prefer the next record in a circle: what they read is the prompt itself. *)
Definition shows (side : string) (i : Z) (prompt : string) : bool :=
  match String.index 0 ("Record " +:+ side +:+ " (id=" +:+ enc_str i +:+ ",") prompt with Some _ => true | None => false end.
Definition opinion (v : value) : option ReconcileVerdict :=
  match v with
  | VStr prompt =>
      let first_loses := existsb (fun p => shows "A" p.1 prompt && shows "B" p.2 prompt) [(1, 2); (2, 3); (3, 1)] in
      Some (MkVerdict "invalidate" (if first_loses then "a" else "b") UnifySamples.UnifySamples.f_one [enc_str 100] "")
  | _ => None
  end.
Definition read_json (s : string) : result value := Ok (VStr s).
Definition judges_half : JudgeConfig := MkJudges "m1" "m2" UnifySamples.UnifySamples.f_half.

Definition plan : DreamOp := plan_vectorcypher_contradiction_reconcile enc_str no_text digest_text unlike 50 7 records half.

Definition reconcile_of (op : DreamOp) (answer : string -> string -> reply) :=
  apply_vectorcypher_contradiction_reconcile enc_str dec_str no_text digest_text read_json opinion digest_text
    (fun _ => "") (fun _ => None) answer judges_half Z.of_nat (Some 7) op (dt_utc 9) tables ∅.
Definition reconcile := reconcile_of plan.

Definition retired_of (r : result (UndoRecord * Db * Conflicts)) : list (option bool) :=
  match r with
  | Ok (_, db, _) => List.map (fun i => (fun r => bool_decide (rel_valid_to r <> None)) <$> relationships db !! i) [1; 2; 3]
  | Err _ => []
  end.

(** Nothing asks whether the winner of a verdict is itself still open: judges who contradict
    themselves in a circle retire every record of the fact. *)
Example verdict_circle_retires_all : retired_of (reconcile (fun _ p => Text p)) = [Some true; Some true; Some true].
Proof. vm_compute. reflexivity. Qed.

(** Of a sure record and a doubtful one the judges may retire the sure one: its confidence
    does not protect it. *)
Definition doubtful : Relationship := MkRel 2 1 2 "WORKS_AT" (enc_str 2) [] [] [100] None half.
Definition contested : DreamOp := plan_vectorcypher_contradiction_reconcile enc_str no_text digest_text unlike 51 7 [claim_of 1; doubtful] half.

Example stronger_record_retired :
  num_cmp CLt (r_confidence doubtful) (r_confidence (claim_of 1)) = true /\
  retired_of (reconcile_of contested (fun _ p => Text p)) = [Some true; Some false; Some false].
Proof. split; vm_compute; reflexivity. Qed.

(** When one judge does not answer in time, nothing is retired. *)
Example one_silent_judge_defers :
  retired_of (reconcile (fun m p => if String.eqb m "m2" then TimedOut else Text p)) = [Some false; Some false; Some false].
Proof. vm_compute. reflexivity. Qed.

(** ** Witnesses *)

Definition outcome : result (UndoRecord * Db * Conflicts) := reconcile (fun _ p => Text p).
Definition after : UndoRecord * Db * Conflicts := default (MkUndo 0 "" [] (dt_utc 0), tables, ∅) (match outcome with Ok r => Some r | Err _ => None end).

Lemma outcome_ok : outcome = Ok (after.1.1, after.1.2, after.2).
Proof. unfold after. destruct outcome as [[[undo db] c]|] eqn:E; [done|]. by vm_compute in E. Qed.

Lemma retires_exactly_agreed_witness :
  retired_of outcome = [Some true; Some true; Some true] /\
  exists ids, dict_get "relationships" (u_before after.1.1) = Some (VList (List.map (entry_of enc_str) ids)) /\
    forall i, i ∈ ids -> exists f, f ∈ op_outputs plan /\
      agreed_loser dec_str no_text read_json opinion (fun _ => "") (fun _ => None) (fun _ p => Text p) judges_half f i.
Proof.
  split; [vm_compute; reflexivity|].
  destruct (retires_exactly_agreed enc_str dec_str no_text digest_text read_json opinion digest_text (fun _ => "") (fun _ => None)
    (fun _ p => Text p) judges_half Z.of_nat (Some 7) plan (dt_utc 9) tables ∅ after.1.1 after.1.2 after.2 outcome_ok)
    as (ids & Hrel & _ & _ & Hids).
  exists ids. split; [exact Hrel|]. intros i Hi. exact (proj2 (proj1 (Hids i) Hi)).
Defined.

Lemma flags_exactly_contradictions_witness :
  List.map (fun f => (r_id f.1.1, r_id f.1.2)) (flagged enc_str no_text digest_text unlike records half) <> [] /\
  forall x y f, (x, y, f) ∈ flagged enc_str no_text digest_text unlike records half -> bucket_key x = bucket_key y.
Proof.
  split; [vm_compute; done|]. intros x y f Hf.
  apply (flags_exactly_contradictions enc_str no_text digest_text unlike records half x y).
  - vm_compute. repeat constructor; set_solver.
  - intros u v Huv. apply (inj Some). by rewrite <- !dec_enc_str, Huv.
  - by exists f.
Defined.

Lemma planned_reconcile_applies_witness :
  exists undo db' conflicts', reconcile (fun _ _ => Raised) = Ok (undo, db', conflicts').
Proof.
  unfold reconcile, reconcile_of, plan.
  refine (planned_reconcile_applies enc_str dec_str no_text digest_text unlike read_json opinion digest_text (fun _ => "") (fun _ => None)
    (fun _ _ => Raised) judges_half Z.of_nat _ dec_enc_str 50 7 records half 7 (dt_utc 9) tables ∅).
  intros s x [=].
Defined.
End DreamReconcileRuns.
